(* ===== verification/_CoqProject ===== *)
-Q . S2P
Prelude.v
TreeMath.v
SortedIter.v
BinaryTree.v
Crypto.v
Tls.v
SenderRatchet.v
SecretTree.v
LeafNodes.v
Nodes.v
TreeSyncDiff.v
TreeHash.v
UpdatePaths.v
TreeKem.v
TreeSync.v
EpochStores.v
Proposals.v
PublicGroup.v
Validation.v
Storage.v
NullStorage.v
Commits.v
KeySchedule.v
Members.v
Framing.v
GroupState.v
Countables.v
Agreement.v
GroupMessages.v
GroupPersistence.v
Joining.v
External.v
DeliveryService.v
Orchestrator.v
Client.v
