(* ===== verification/Prelude.v ===== *)
(** * Verification of the MLS emulation testbed

    The repository measures the Messaging Layer Security protocol (RFC 9420): it
    runs many emulated clients against a delivery service.  The clients use a
    fork of OpenMLS in which the authors changed the ratchet tree (cached tree
    hashes, a list of blank leaves) and added measurements.  This development
    models the Rust code of the fork and of the testbed and proves what makes it
    correct.  All paths are under [src/emulated_client/]; [openmls/src/] is left
    out where the folder makes it clear.

    ** The program and the files that model it

    The parts, from the bottom up, with what calls what:

    - Trees.  [TreeMath] (treemath.rs: indices of a complete binary tree in an
      array), [SortedIter] (sorted_iter.rs), [BinaryTree] (tree.rs and diff.rs:
      [ABinaryTree], [AbDiff], [StagedAbDiff]).
    - Secrets of messages.  [Crypto] (types.rs of the traits crate,
      ciphersuite/secret.rs, kdf_label.rs), [SenderRatchet]
      (tree/sender_ratchet.rs), [SecretTree] (tree/secret_tree.rs).
    - The ratchet tree.  [LeafNodes] (leaf nodes, capabilities, extensions,
      credentials, lifetimes), [Nodes] (parent nodes, hash inputs),
      [TreeSyncDiff] (treesync/diff.rs: members come and go, resolutions),
      [TreeHash] (the cached tree hashes), [UpdatePaths] (parent hashes, own and
      received paths), [TreeKem] (treekem.rs, path secrets, HPKE wrappers),
      [TreeSync] (treesync/mod.rs: the tree between commits, import and export).
    - Groups.  [EpochStores] (past_secrets.rs, the resumption store of psk.rs),
      [Proposals] (proposals.rs, proposal_store.rs), [PublicGroup] (group context,
      transcript hashes, [PublicGroup] and its diff), [Validation]
      (public_group/validation.rs), [Storage] (memory_storage/src/lib.rs),
      [Commits] (public_group/staged_commit.rs), [KeySchedule] (schedule/mod.rs,
      psk.rs, mac.rs), [Members] (mls_group/staged_commit.rs, commit_builder.rs,
      compute_path.rs), [Framing] (framing/: signed content, public and private
      messages), [GroupState] (mls_group/mod.rs, application.rs, proposal.rs,
      membership.rs, updates.rs, processing.rs: the operations of [MlsGroup] on
      the group in memory and the store), [GroupMessages] (processing.rs,
      public_group/process.rs, framing/validation.rs: what members and observers
      do with a message), [Joining] (creation.rs, both builder.rs, group_info.rs,
      the welcome of messages/mod.rs and commit_builder.rs: new groups, and
      clients that join by a welcome), [External] (create_commit.rs and the rest
      of creation.rs: clients that join by an external commit).
    - The testbed.  [DeliveryService] (delivery-service/: main.rs, lib.rs and the
      data of ds-lib), [Orchestrator] (emulated_client/src/orchestrator.rs and
      config/mod.rs), [Client] (user.rs, conversation.rs, client_agent/: the
      user, both agents and the dispatch of messages, over an interface of the
      group operations they call), [NullStorage]
      (provider/null_storage_provider.rs, a store that keeps less).
    - [Countables] numbers the state of a client, for the examples;
      [Prelude] (this file) and [Tls] hold what the others share;
      [Agreement] and [GroupPersistence] compose the parts.

    ** How the code is represented

    A Rust function that can fail is a function to [outcome] (a value, an error of
    the source's enum, or a panic); a method on [&mut self] is a [method], which
    also returns the state it left behind, so that an error does not undo the
    writes made before it.  Integers are [Z] with the wrap-around of a release
    build written out where the source can overflow; [u8] vectors are lists of
    [Z]; [HashMap] and [BTreeMap] are [gmap]; a [Vec] is a list, with a panic
    where the source indexes out of range.  Structs are records and enums are
    inductive types with the names of the source; a name that occurs twice carries
    the type as a prefix ([TreeSync_leaf]).

    Code outside the repository is a parameter: the cryptographic provider
    ([OpenMlsCrypto], [OpenMlsHpke], [HpkeExport], [TreeHashing],
    [ProposalHashing], [AeadProvider], [SignatureProvider]), the codecs that the
    derive macros of [tls_codec] and [serde] generate ([TranscriptEncoding],
    [PskEncoding], [ContextEncoding], [FramingEncoding], [InboundBodies],
    [TlsCodecs], [Payloads], [JoinEncoding], [Serde]), the random number generator
    ([RandomSource]) and the iteration order of a [HashMap].  What theorems rely
    on is in classes of laws: lengths of derived secrets ([KdfLaws],
    [ExtractLaws]), that decryption inverts encryption ([HpkeLaws], [AeadLaws],
    [ExportLaws]), that hashes exist and are not empty ([HashLaws]), that what was
    written is read back ([SerdeLaws], [JsonArrays], [DecimalIntegers],
    [FramingLaws], [TlsCodecsLaws], [PayloadsLaws], [JoinLaws]), that a draw is in its range
    ([RandomSourceLaws]).  Each has a toy instance, on which the witnesses run the
    theorems.

    Loops of the source that are not structural are bounded: the walks of the tree
    ([level_loop], [direct_path_loop], [lca_loop], [trim_loop], [grow_loop],
    [resolution], [compute_tree_hash], [populate_tree_hashes]) by 32, since an
    index is a [u32] and every turn halves or doubles it or goes one level up; the
    work list of the tree hashes by 32 entries per leaf; decimal digits by 20,
    as a [u64] has no more; [reroll] of the orchestrator by an explicit fuel, as
    it need not end ([Orchestrator.last_policy_hangs]).  The theorems about these
    functions show that they return, not only what they return if they do.

    ** What is proved

    - Agreement.  [Agreement.members_agree]: after a commit all members that are
      not removed derive the committer's epoch secrets, tree and transcript; it
      composes [TreeKem.treekem_commit_correct] (every member decrypts the path),
      [UpdatePaths.received_update_path_agrees] (the trees agree),
      [TreeHash.update_tree_hashes_correct] (the cached hashes are the recursive
      ones) and [KeySchedule.key_schedule_correct], [psk_secret_correct].
      [Joining.welcome_joins]: who is invited by a commit opens the welcome and
      ends in the committer's epoch, with the keys above its leaf;
      [External.external_join_agrees]: who joins by an external commit ends in the
      epoch of the members that process it; [joined_group_starts] and
      [new_group_starts]: groups that were joined or created are stored and can be
      loaded.
    - Trees.  [TreeSyncDiff.membership_invariant] (leaves, blanks and counters
      agree), [resolution_correct], [UpdatePaths.own_update_path_correct],
      [TreeSync.group_tree_invariant] (all trees of a group have right hashes, but
      for a path without nodes after all others were removed), [import_correct],
      [export_import_roundtrip], [BinaryTree.merge_realises_diff],
      [TreeMath.direct_path_correct].
    - Messages.  [SenderRatchet.decryption_ratchet_refines_window],
      [SecretTree.secret_tree_refines_senders] and the forward secrecy of both;
      [Framing.private_message_delivered] and [public_message_delivered]: what a
      member sends, the others accept, once.
      [GroupMessages.conversation_delivered]: a conversation in an epoch without
      pending proposals, in lock step, reaches every member;
      [processed_messages_authentic]: what is accepted was signed by the sender it
      names.
    - Groups.  [Proposals.filter_proposals_correct] (which proposals a commit
      takes), [Commits.public_group_invariant], [accepted_commit_correct],
      [external_commit_index], [inline_update_rejected];
      [GroupPersistence.operations_persist] (a client can start again from its
      store; messages it processed since the last merge are the exception),
      [merge_advances], [life_cycle]; [Storage.proposal_queue_correct],
      [entities_read_back], [EpochStores.past_epochs_window],
      [resumption_store_correct]; [NullStorage.null_storage_tracks_memory].
    - The testbed.  [DeliveryService.mailbox_fifo] (messages are delivered once and
      in order), [group_info_exclusive], [epochs_ordered], [wrong_message_wedges];
      [Orchestrator.slots_preserved], [one_committer], [last_policy_hangs];
      [Client.own_message_confirms], [orchestrators_in_step],
      [orchestrated_never_pending], [desynchronised_stays],
      [proposed_removal_diverges].

    The other theorems are steps towards these or facts about single components.

    ** Not modelled

    Code that only moves bytes or measures: the network of the clients and of the
    service (HTTP, MQTT, the gossip network), log files, settings, profiling,
    tests, known-answer tests and benchmarks.  Code that macros generate or that
    other crates implement is a parameter, as above; so are the signatures of leaf
    nodes and the drawing of keys.  Not modelled for want of time: the creation of
    key packages. *)

From Stdlib Require Export ZArith Lia.
From stdpp Require Export base list gmap fin_maps numbers sorting.

#[global] Open Scope Z_scope.

(** ** Machine integers

    A [u32] is a [Z]; the operations of the source that can leave the range
    are written with the wrap-around of a release build ([cargo build -r] is
    what the repository's [build.sh] runs), shifts with the masked shift amount
    of a release build. *)

Definition u32_wrap (x : Z) : Z := x mod 2 ^ 32.
Definition usize_wrap (x : Z) : Z := x mod 2 ^ 64.

Definition u32_add (a b : Z) : Z := u32_wrap (a + b).
Definition u32_sub (a b : Z) : Z := u32_wrap (a - b).
Definition u32_mul (a b : Z) : Z := u32_wrap (a * b).
Definition u32_shl (a k : Z) : Z := u32_wrap (Z.shiftl a (k mod 32)).
Definition u32_shr (a k : Z) : Z := Z.shiftr a (k mod 32).
Definition u32_div (a b : Z) : Z := a / b.
Definition u32_leading_zeros (x : Z) : Z :=
  if x =? 0 then 32 else 31 - Z.log2 x.
Definition u32_MAX : Z := 2 ^ 32 - 1.

Declare Scope u32_scope.
Delimit Scope u32_scope with u32.
#[global] Arguments u32_add (a b)%_u32_scope.
#[global] Arguments u32_sub (a b)%_u32_scope.
#[global] Arguments u32_mul (a b)%_u32_scope.
#[global] Arguments u32_div (a b)%_u32_scope.
#[global] Arguments u32_shl (a k)%_u32_scope.
#[global] Arguments u32_shr (a k)%_u32_scope.
Infix "+" := u32_add : u32_scope.
Infix "-" := u32_sub : u32_scope.
Infix "*" := u32_mul : u32_scope.
Infix "/" := u32_div : u32_scope.
Infix "<<" := u32_shl (at level 38, left associativity) : u32_scope.
Infix ">>" := u32_shr (at level 38, left associativity) : u32_scope.

Lemma u32_wrap_small x : 0 <= x < 2 ^ 32 -> u32_wrap x = x.
Proof. apply Z.mod_small. Qed.

Lemma u32_wrap_range x : 0 <= u32_wrap x < 2 ^ 32.
Proof. apply Z.mod_pos_bound. lia. Qed.

(** ** Lists *)

Lemma rev_reverse {A} (l : list A) : rev l = reverse l.
Proof. unfold reverse. apply rev_alt. Qed.

Lemma StronglySorted_lt_unique {A} (key : A -> Z) (l1 l2 : list A) :
  StronglySorted Z.lt (map key l1) -> StronglySorted Z.lt (map key l2) ->
  (forall x, x ∈ l1 <-> x ∈ l2) -> l1 = l2.
Proof.
  revert l2. induction l1 as [|x l1 IH]; intros [|y l2] H1 H2 Heq; simpl in *.
  - done.
  - exfalso. eapply not_elem_of_nil, Heq. by left.
  - exfalso. eapply not_elem_of_nil, Heq. by left.
  - apply StronglySorted_inv in H1 as [H1 F1]. apply StronglySorted_inv in H2 as [H2 F2].
    rewrite Forall_map, Forall_forall in F1, F2.
    assert (Hx : x ∈ y :: l2) by (apply Heq; by left).
    assert (Hy : y ∈ x :: l1) by (apply Heq; by left).
    rewrite elem_of_cons in Hx, Hy.
    assert (x = y) as <-.
    { destruct Hx as [|Hx], Hy as [|Hy]; try done.
      specialize (F1 y Hy). specialize (F2 x Hx). simpl in *. lia. }
    f_equal. apply IH; [done..|]. intros z. specialize (Heq z). rewrite !elem_of_cons in Heq.
    split; intros Hz.
    + destruct (proj1 Heq (or_intror Hz)) as [->|]; [|done].
      specialize (F1 _ Hz). simpl in F1. lia.
    + destruct (proj2 Heq (or_intror Hz)) as [->|]; [|done].
      specialize (F2 _ Hz). simpl in F2. lia.
Qed.

Lemma StronglySorted_lt_weaken {A} (key : A -> Z) (l : list A) :
  StronglySorted (fun x y => key x <= key y) l -> NoDup (map key l) ->
  StronglySorted Z.lt (map key l).
Proof.
  induction 1 as [|x l Hs IH Hx]; simpl; [constructor|]. intros [Hn Hd]%NoDup_cons.
  constructor; [auto|]. rewrite Forall_map. rewrite Forall_forall in Hx |- *. intros y Hy.
  specialize (Hx y Hy). simpl. assert (key x <> key y); [|lia].
  intros E. apply Hn. rewrite E. by apply (list_elem_of_fmap_2 key).
Qed.

(** [iter().enumerate()] with the position as an index. *)
Definition enumerate {A} (l : list A) : list (Z * A) := imap (fun i x => (Z.of_nat i, x)) l.

Lemma enumerate_elem_of {A} (l : list A) i x :
  (i, x) ∈ enumerate l <-> 0 <= i /\ l !! Z.to_nat i = Some x.
Proof.
  unfold enumerate. rewrite list_elem_of_lookup. split.
  - intros [j Hj]. rewrite list_lookup_imap in Hj. destruct (l !! j) as [y|] eqn:E; simpl in Hj; [|done].
    injection Hj as <- <-. split; [lia|]. by rewrite Nat2Z.id.
  - intros [Hi Hl]. exists (Z.to_nat i). rewrite list_lookup_imap, Hl. simpl. by rewrite Z2Nat.id.
Qed.

Lemma length_enumerate {A} (l : list A) : length (enumerate l) = length l.
Proof. apply length_imap. Qed.

Lemma enumerate_sorted {A} (l : list A) : StronglySorted Z.lt (map fst (enumerate l)).
Proof.
  assert (H : forall n, StronglySorted Z.lt
     (map fst (imap (fun i (x : A) => (Z.of_nat (n + i), x)) l)) /\
     Forall (fun z => Z.of_nat n <= z) (map fst (imap (fun i (x : A) => (Z.of_nat (n + i), x)) l))).
  { induction l as [|x l IH]; intros n; simpl; [by split; constructor|].
    destruct (IH (S n)) as [Hs Hf].
    assert (E : map fst (imap ((fun (i : nat) (x : A) => (Z.of_nat (n + i), x)) ∘ S) l) =
            map fst (imap (fun i (x : A) => (Z.of_nat (S n + i), x)) l)).
    { f_equal. apply imap_ext. intros i y _. simpl. f_equal. lia. }
    rewrite E. rewrite Nat.add_0_r. split; constructor; simpl; try done.
    - eapply Forall_impl; [exact Hf|]. simpl. lia.
    - eapply Forall_impl; [exact Hf|]. simpl. lia. }
  apply (H O).
Qed.

(** ** Rust's [Default] trait *)

Class Default (A : Type) := default_value : A.

(** ** [BTreeMap]

    A map keyed by machine integers; iteration is in increasing key order. *)

Definition key_le {V} (x y : Z * V) : Prop := x.1 <= y.1.

#[export] Instance key_le_dec {V} : RelDecision (@key_le V).
Proof. intros x y. unfold key_le. apply _. Defined.

#[export] Instance key_le_trans {V} : Transitive (@key_le V).
Proof. intros x y z. unfold key_le. lia. Qed.
#[export] Instance key_le_total {V} : Total (@key_le V).
Proof. intros x y. unfold key_le. lia. Qed.

Definition btree_iter {V} (m : gmap Z V) : list (Z * V) :=
  merge_sort key_le (map_to_list m).

Lemma btree_iter_elem_of {V} (m : gmap Z V) i x : (i, x) ∈ btree_iter m <-> m !! i = Some x.
Proof.
  unfold btree_iter. rewrite (merge_sort_Permutation _ (map_to_list m)).
  apply elem_of_map_to_list.
Qed.

Lemma btree_iter_sorted {V} (m : gmap Z V) : StronglySorted Z.lt (map fst (btree_iter m)).
Proof.
  apply StronglySorted_lt_weaken.
  - apply (StronglySorted_merge_sort (@key_le V)).
  - unfold btree_iter. rewrite merge_sort_Permutation. apply NoDup_fst_map_to_list.
Qed.

Lemma length_btree_iter {V} (m : gmap Z V) : length (btree_iter m) = size m.
Proof. unfold btree_iter. by rewrite merge_sort_Permutation, length_map_to_list. Qed.

Lemma seqZ_snoc n : 0 <= n -> seqZ 0 (Z.succ n) = seqZ 0 n ++ [n].
Proof.
  intros Hn. rewrite <- Z.add_1_r, seqZ_app by lia. done.
Qed.

(** ** Outcomes

    A Rust function returns a value, returns an error or panics. *)

Inductive outcome (E A : Type) : Type :=
| Ok (a : A)
| Err (e : E)
| Panic.
Arguments Ok {E A} _.
Arguments Err {E A} _.
Arguments Panic {E A}.

#[export] Instance outcome_ret {E} : MRet (outcome E) := fun A x => Ok x.
#[export] Instance outcome_bind {E} : MBind (outcome E) := fun A B f o =>
  match o with Ok x => f x | Err e => Err e | Panic => Panic end.

Definition ok_or {E A} (o : option A) (e : E) : outcome E A :=
  match o with Some x => Ok x | None => Err e end.

(** [map_err], also the conversion the [?] operator inserts *)
Definition map_err {E F A} (f : E -> F) (o : outcome E A) : outcome F A :=
  match o with Ok x => Ok x | Err e => Err (f e) | Panic => Panic end.

Lemma bind_ok {E A B} (o : outcome E A) (f : A -> outcome E B) y : (x ← o; f x) = Ok y <-> exists x, o = Ok x /\ f x = Ok y.
Proof. destruct o as [x|e|]; cbn; split; [eauto|by intros (? & [= <-] & ?)|done|by intros (? & ? & _)|done|by intros (? & ? & _)]. Qed.

Lemma map_err_ok {E F A} (f : E -> F) (o : outcome E A) x : map_err f o = Ok x <-> o = Ok x.
Proof. destruct o; cbn; split; congruence. Qed.

Lemma if_err_ok {E A} (b : bool) (e : E) (o : outcome E A) x : (if b then Err e else o) = Ok x <-> b = false /\ o = Ok x.
Proof. destruct b; split; [done|by intros []|done|by intros []]. Qed.

(** Takes apart the steps that led to a result. *)
Ltac ok_inv H := repeat first
  [ apply bind_ok in H; let x := fresh "x" in let Hx := fresh "Hx" in destruct H as (x & Hx & H); try apply map_err_ok in Hx
  | apply if_err_ok in H; let Hb := fresh "Hb" in destruct H as [Hb H]
  | apply map_err_ok in H ].

Create HintDb mls.

(** ** Methods on [&mut self]

    A method takes the state and gives back the outcome and the state it left
    behind: an error does not undo the writes made before it. *)

Definition method (S E A : Type) : Type := S -> outcome E A * S.

#[export] Instance method_ret {S E} : MRet (method S E) := fun A x s => (Ok x, s).
#[export] Instance method_bind {S E} : MBind (method S E) := fun A B f c s =>
  match c s with
  | (Ok x, s') => f x s'
  | (Err e, s') => (Err e, s')
  | (Panic, s') => (Panic, s')
  end.

Definition get {S E} : method S E S := fun s => (Ok s, s).
Definition modify {S E} (f : S -> S) : method S E () := fun s => (Ok (), f s).
Definition lift {S E A} (o : outcome E A) : method S E A := fun s => (o, s).
Definition fail {S E A} (e : E) : method S E A := fun s => (Err e, s).

(** [unwrap] and indexing: panics on [None]. *)
Definition unwrap {S E A} (o : option A) : method S E A := fun s => (match o with Some x => Ok x | None => Panic end, s).

(** A method of a part of the state. *)
Definition on_part {S T E A} (read : S -> T) (write : T -> S -> S) (c : method T E A) : method S E A :=
  fun s => let '(o, t) := c (read s) in (o, write t s).

Fixpoint repeat_m {S E} (n : nat) (c : method S E ()) : method S E () :=
  match n with
  | O => mret tt
  | S n => c ≫= fun _ => repeat_m n c
  end.

Fixpoint for_each_m {S E A} (l : list A) (c : A -> method S E ()) : method S E () :=
  match l with
  | [] => mret tt
  | x :: l => c x ≫= fun _ => for_each_m l c
  end.

(** Runs the monadic structure of a method or an outcome, leaving the calls it
    makes in place. *)
Ltac run := cbv beta iota zeta delta
  [mbind method_bind mret method_ret outcome_bind outcome_ret get modify lift fail on_part map_err
   ok_or] in *.

(** Methods that leave a part of the state as it is *)
Definition unchanged {S T E A} (f : S -> T) (c : method S E A) : Prop := forall s, f (c s).2 = f s.

Section Unchanged.
Context {S T E : Type} (f : S -> T).

Lemma unchanged_bind {A B} (c : method S E A) (k : A -> method S E B) : unchanged f c -> (forall x, unchanged f (k x)) -> unchanged f (c ≫= k).
Proof.
  intros Hc Hk s. unfold mbind, method_bind. specialize (Hc s). destruct (c s) as [[x|e|] s']; cbn in *; [|done..]. by rewrite Hk.
Qed.

Lemma unchanged_modify (g : S -> S) : (forall s, f (g s) = f s) -> unchanged (E := E) f (modify g).
Proof. intros Hg s. apply Hg. Qed.

Lemma unchanged_for_each {A} (l : list A) (c : A -> method S E ()) : (forall x, unchanged f (c x)) -> unchanged f (for_each_m l c).
Proof. intros Hc. induction l as [|x l IH]; [done|]. cbn. by apply unchanged_bind. Qed.

End Unchanged.

#[export] Hint Resolve unchanged_bind unchanged_modify unchanged_for_each : mls.

(** Splits decidable memberships in small sets of integers. *)
Ltac set_cases := repeat case_decide;
  rewrite ?elem_of_union, ?elem_of_singleton, ?elem_of_difference in *; intuition (lia || congruence).

