(* ===== verification/TreeMath.v ===== *)
(** * Tree math: the array representation of a left-balanced binary tree

    Models [openmls/src/binary_tree/array_representation/treemath.rs].
    The newtypes [LeafNodeIndex], [ParentNodeIndex] and [TreeSize] over [u32]
    are kept as [Z]; [TreeNodeIndex] is the source's enum.

    The functions are the source's bit manipulations.  The abstract
    specification is the coordinate system of the tree: the node at height [k]
    and position [m] (counted from the left) is [node k m], and the lemmas show
    that every function acts on coordinates in the obvious way. *)

From S2P Require Import Prelude.

(** ** The code *)

Abbreviation LeafNodeIndex := Z (only parsing).
Abbreviation ParentNodeIndex := Z (only parsing).
Abbreviation TreeSize := Z (only parsing).

Definition MAX_TREE_SIZE : Z := 2 ^ 30.
Definition MIN_TREE_SIZE : Z := 1.

Inductive TreeNodeIndex : Type :=
| Leaf (index : LeafNodeIndex)
| Parent (index : ParentNodeIndex).

#[export] Instance TreeNodeIndex_eq_dec : EqDecision TreeNodeIndex.
Proof. solve_decision. Defined.

Definition leaf_to_tree_index (i : LeafNodeIndex) : Z := (i * 2)%u32.
Definition leaf_from_tree_index (node_index : Z) : LeafNodeIndex := (node_index / 2)%u32.

Definition parent_to_tree_index (i : ParentNodeIndex) : Z := (i * 2 + 1)%u32.
Definition parent_from_tree_index (node_index : Z) : ParentNodeIndex :=
  ((node_index - 1) / 2)%u32.

Definition TreeNodeIndex_new (index : Z) : TreeNodeIndex :=
  if index mod 2 =? 0
  then Leaf (leaf_from_tree_index index)
  else Parent (parent_from_tree_index index).

Definition TreeNodeIndex_u32 (i : TreeNodeIndex) : Z :=
  match i with
  | Leaf index => leaf_to_tree_index index
  | Parent index => parent_to_tree_index index
  end.

Definition TreeNodeIndex_cmp (a b : TreeNodeIndex) : comparison :=
  Z.compare (TreeNodeIndex_u32 a) (TreeNodeIndex_u32 b).

Definition log2 (x : Z) : Z :=
  if x =? 0 then 0 else 31 - u32_leading_zeros x.

Definition TreeSize_new (nodes : Z) : TreeSize :=
  let k := log2 nodes in ((1 << (k + 1)%Z) - 1)%u32.

Definition TreeSize_from_leaf_count (leaf_count : Z) : TreeSize :=
  TreeSize_new (leaf_count * 2)%u32.

Definition TreeSize_leaf_count (size : TreeSize) : Z := (size / 2 + 1)%u32.
Definition TreeSize_parent_count (size : TreeSize) : Z := (size / 2)%u32.

Definition TreeSize_leaf_is_left (size : TreeSize) (leaf_index : LeafNodeIndex) : bool :=
  leaf_index <? TreeSize_leaf_count size / 2.

Definition TreeSize_inc (size : TreeSize) : TreeSize := (size * 2 + 1)%u32.

Definition TreeSize_dec (size : TreeSize) : TreeSize :=
  if 2 <=? size then ((size + 1) / 2 - 1)%u32 else 0.

(** [while ((x >> k) & 0x01) == 1 { k += 1 }]; 32 rounds suffice for every
    [x] below [u32::MAX] ([level_loop_terminates] below). *)
Fixpoint level_loop (fuel : nat) (x k : Z) : option Z :=
  match fuel with
  | O => None
  | S fuel =>
      if Z.land (x >> k)%u32 1 =? 1 then level_loop fuel x (k + 1) else Some k
  end.

Definition level (index : Z) : Z :=
  let x := index in
  if Z.land x 1 =? 0 then 0 else default 32 (level_loop 32 x 0).

Definition root (size : TreeSize) : TreeNodeIndex :=
  TreeNodeIndex_new ((1 << log2 size) - 1)%u32.

Definition left (index : ParentNodeIndex) : TreeNodeIndex :=
  let x := parent_to_tree_index index in
  let k := level x in
  TreeNodeIndex_new (Z.lxor x (1 << (k - 1)%Z)%u32).

Definition leftmost (index : ParentNodeIndex) : TreeNodeIndex :=
  let x := parent_to_tree_index index in
  let k := level x in
  TreeNodeIndex_new (x - (1 << k) + 1)%u32.

Definition right (index : ParentNodeIndex) : TreeNodeIndex :=
  let x := parent_to_tree_index index in
  let k := level x in
  TreeNodeIndex_new (Z.lxor x (3 << (k - 1)%Z)%u32).

Definition parent (x : TreeNodeIndex) : ParentNodeIndex :=
  let x := TreeNodeIndex_u32 x in
  let k := level x in
  let b := Z.land (x >> (k + 1)%Z)%u32 1 in
  let index := Z.lxor (Z.lor x (1 << k)%u32) (b << (k + 1)%Z)%u32 in
  parent_from_tree_index index.

Definition sibling (index : TreeNodeIndex) : TreeNodeIndex :=
  let p := parent index in
  match Z.compare (TreeNodeIndex_u32 index) (parent_to_tree_index p) with
  | Lt => right p
  | Gt => left p
  | Eq => left p
  end.

(** [while x != r { .. }]: the list of pushed parents, or [None] when the loop
    has not reached the root after [fuel] rounds. *)
Fixpoint direct_path_loop (fuel : nat) (x r : Z) : option (list ParentNodeIndex) :=
  if x =? r then Some []
  else match fuel with
       | O => None
       | S fuel =>
           let parent := parent (TreeNodeIndex_new x) in
           d ← direct_path_loop fuel (parent_to_tree_index parent) r;
           Some (parent :: d)
       end.

Definition direct_path (node_index : LeafNodeIndex) (size : TreeSize) : list ParentNodeIndex :=
  let r := TreeNodeIndex_u32 (root size) in
  default [] (direct_path_loop 32 (leaf_to_tree_index node_index) r).

Definition copath (leaf_index : LeafNodeIndex) (size : TreeSize) : list TreeNodeIndex :=
  let full_path := [Leaf leaf_index] in
  let direct_path := direct_path leaf_index size in
  (* [direct_path.pop()] removes the root, if there is one *)
  let direct_path := removelast direct_path in
  let full_path := full_path ++ map Parent direct_path in
  map sibling full_path.

Fixpoint lca_loop (fuel : nat) (xn yn k : Z) : option (Z * Z) :=
  if xn =? yn then Some (xn, k)
  else match fuel with
       | O => None
       | S fuel => lca_loop fuel (xn >> 1)%u32 (yn >> 1)%u32 (k + 1)
       end.

Definition lowest_common_ancestor (x y : LeafNodeIndex) : ParentNodeIndex :=
  let x := leaf_to_tree_index x in
  let y := leaf_to_tree_index y in
  let lx := level x + 1 in
  let ly := level y + 1 in
  if (lx <=? ly) && ((x >> ly)%u32 =? (y >> ly)%u32) then parent_from_tree_index y
  else if (ly <=? lx) && ((x >> lx)%u32 =? (y >> lx)%u32) then parent_from_tree_index x
  else let '(xn, k) := default (0, 0) (lca_loop 32 x y 0) in
       parent_from_tree_index ((xn << k) + (1 << (k - 1)%Z) - 1)%u32.

(** [for (x, y) in xs.zip(ys) { if x == y { push } else { break } }] *)
Fixpoint common_prefix (xs ys : list Z) : list Z :=
  match xs, ys with
  | x :: xs, y :: ys => if x =? y then x :: common_prefix xs ys else []
  | _, _ => []
  end.

Definition common_direct_path (x y : LeafNodeIndex) (size : TreeSize) : list ParentNodeIndex :=
  let x_path := rev (direct_path x size) in
  let y_path := rev (direct_path y size) in
  rev (common_prefix x_path y_path).

Definition node_width (n : Z) : Z := if n =? 0 then 0 else 2 * (n - 1) + 1.

Definition is_node_in_tree (node_index : TreeNodeIndex) (size : TreeSize) : bool :=
  TreeNodeIndex_u32 node_index <? size.

(** ** Coordinates *)

Definition node (k m : Z) : Z := 2 ^ (k + 1) * m + 2 ^ k - 1.
Definition tree_size (h : Z) : Z := 2 ^ (h + 1) - 1.
Definition pnode (k m : Z) : ParentNodeIndex := node (k - 1) m.
Definition index_at (k m : Z) : TreeNodeIndex := if k =? 0 then Leaf m else Parent (pnode k m).

(** The coordinates for which no operation leaves the range of a [u32]: a tree
    of height 30 has them all, and [MAX_TREE_SIZE] keeps every tree of the
    program below that. *)
Definition coord (k m : Z) : Prop := 0 <= k <= 30 /\ 0 <= m < 2 ^ (30 - k).

Example path_ex : direct_path 5 15 = [4; 5; 3].
Proof. vm_compute. reflexivity. Qed.
Example copath_ex : copath 2 7 = [Leaf 3; Parent 0].
Proof. vm_compute. reflexivity. Qed.

(** ** Bits of a node index *)

Lemma pow2_pos k : 0 <= k -> 0 < 2 ^ k.
Proof. intros. apply Z.pow_pos_nonneg; lia. Qed.

Lemma pow2_succ k : 0 <= k -> 2 ^ (k + 1) = 2 * 2 ^ k.
Proof. intros. rewrite Z.pow_add_r by lia. lia. Qed.

Lemma pow2_pred k : 0 < k -> 2 ^ k = 2 * 2 ^ (k - 1).
Proof. intros. rewrite <- pow2_succ by lia. f_equal. lia. Qed.

Lemma pow2_le a b : 0 <= a <= b -> 2 ^ a <= 2 ^ b.
Proof. intros. apply Z.pow_le_mono_r; lia. Qed.

Lemma node_lor k m : 0 <= k -> node k m = Z.lor (Z.shiftl m (k + 1)) (Z.ones k).
Proof.
  intros Hk.
  assert (Hd : Z.land (Z.shiftl m (k + 1)) (Z.ones k) = 0).
  { apply Z.bits_inj'. intros i Hi. rewrite Z.land_spec, Z.bits_0, Z.shiftl_spec by lia.
    destruct (Z.lt_ge_cases i (k + 1)) as [Hlt|Hge].
    - rewrite (Z.testbit_neg_r m) by lia. done.
    - rewrite Z.ones_spec_high by lia. apply andb_false_r. }
  rewrite <- Z.lxor_lor by done. rewrite <- Z.add_nocarry_lxor by done.
  rewrite Z.shiftl_mul_pow2, Z.ones_equiv by lia. unfold node. lia.
Qed.

Lemma node_testbit k m i : 0 <= k -> 0 <= i ->
  Z.testbit (node k m) i =
  if i <? k then true else if i =? k then false else Z.testbit m (i - k - 1).
Proof.
  intros Hk Hi. rewrite node_lor, Z.lor_spec, Z.shiftl_spec by lia.
  destruct (Z.ltb_spec i k).
  - rewrite Z.ones_spec_low by lia. apply orb_true_r.
  - rewrite Z.ones_spec_high by lia. rewrite orb_false_r.
    destruct (Z.eqb_spec i k).
    + apply Z.testbit_neg_r. lia.
    + f_equal. lia.
Qed.

Lemma node_bounds k m : 0 <= k -> 0 <= m -> 0 <= node k m.
Proof. intros. unfold node. pose proof (pow2_pos k). pose proof (pow2_pos (k + 1)). nia. Qed.

Lemma coord_node k m : coord k m -> 0 <= node k m < 2 ^ 31.
Proof.
  intros [Hk Hm]. split; [apply node_bounds; lia|]. unfold node.
  assert (E : 2 ^ (k + 1) * 2 ^ (30 - k) = 2 ^ 31)
    by (rewrite <- Z.pow_add_r by lia; f_equal; lia).
  pose proof (pow2_pos (k + 1)). pose proof (pow2_succ k). nia.
Qed.

Lemma coord_parent k m : coord k m -> k < 30 -> coord (k + 1) (m / 2).
Proof.
  intros [Hk Hm] Hlt. split; [lia|]. rewrite (pow2_pred (30 - k)) in Hm by lia.
  replace (30 - (k + 1)) with (30 - k - 1) by lia. split; [apply Z.div_pos; lia|].
  apply Z.div_lt_upper_bound; lia.
Qed.

Lemma coord_child k m c : coord k m -> 0 < k -> 0 <= c <= 1 -> coord (k - 1) (2 * m + c).
Proof.
  intros [Hk Hm] Hlt Hc. split; [lia|]. replace (30 - (k - 1)) with (30 - k + 1) by lia.
  rewrite pow2_succ by lia. lia.
Qed.

Lemma b2z_range b : 0 <= Z.b2z b < 2.
Proof. destruct b; simpl; lia. Qed.

Lemma u32_shl_pow k c : 0 <= k < 31 -> 0 <= c < 2 -> (c << k)%u32 = c * 2 ^ k.
Proof.
  intros Hk Hc. unfold u32_shl. rewrite (Z.mod_small k) by lia.
  rewrite Z.shiftl_mul_pow2 by lia. apply u32_wrap_small.
  pose proof (pow2_pos k). pose proof (pow2_le k 31). nia.
Qed.

Lemma u32_shr_bit0 x k : 0 <= k < 32 -> Z.land (x >> k)%u32 1 = Z.b2z (Z.testbit x k).
Proof.
  intros Hk. unfold u32_shr. rewrite (Z.mod_small k) by lia.
  change 1 with (Z.ones 1) at 1. rewrite Z.land_ones by lia. change (2 ^ 1) with 2.
  rewrite <- Z.bit0_mod, Z.shiftr_spec by lia. f_equal.
Qed.

(** ** [level] *)

Lemma level_loop_found fuel x i k :
  0 <= i <= k -> k < 32 -> k - i < Z.of_nat fuel ->
  (forall j, i <= j < k -> Z.testbit x j = true) -> Z.testbit x k = false ->
  level_loop fuel x i = Some k.
Proof.
  revert i. induction fuel as [|fuel IH]; intros i Hi Hk Hf Ht Hfk; [lia|]. simpl.
  rewrite u32_shr_bit0 by lia. destruct (Z.eq_dec i k) as [->|Hne].
  - rewrite Hfk. done.
  - rewrite Ht by lia. simpl. apply IH; try lia; auto. intros j Hj. apply Ht. lia.
Qed.

Lemma land_1_testbit x : Z.land x 1 = Z.b2z (Z.testbit x 0).
Proof. change 1 with (Z.ones 1). rewrite Z.land_ones by lia. symmetry. apply Z.bit0_mod. Qed.

Lemma level_spec x k :
  0 <= k < 32 -> (forall j, 0 <= j < k -> Z.testbit x j = true) -> Z.testbit x k = false ->
  level x = k.
Proof.
  intros Hk Ht Hf. unfold level. rewrite land_1_testbit.
  destruct (Z.eq_dec k 0) as [->|Hne]; [by rewrite Hf|].
  rewrite Ht by lia. simpl Z.b2z. change (1 =? 0) with false. cbv iota.
  rewrite (level_loop_found 32 x 0 k); auto; simpl; lia.
Qed.

Lemma level_node k m : coord k m -> level (node k m) = k.
Proof.
  intros [Hk Hm]. apply level_spec; [lia| |].
  - intros j Hj. rewrite node_testbit by lia. destruct (Z.ltb_spec j k); [done|lia].
  - rewrite node_testbit by lia. rewrite Z.ltb_irrefl, Z.eqb_refl. done.
Qed.

(** Every index has coordinates. *)
Lemma node_exists x : 0 <= x < 2 ^ 31 - 1 -> exists k m, coord k m /\ x = node k m.
Proof.
  assert (H : forall n x : Z, 0 <= n -> 0 <= x < 2 ^ n - 1 ->
    exists k m, 0 <= k < n /\ 0 <= m /\ x = node k m).
  { intros n y Hn. revert y. pattern n. apply Z_lt_induction; [|done]. clear n Hn.
    intros n IH y Hy.
    assert (0 < n) by (destruct (Z.le_gt_cases n 0); [destruct (Z.eq_dec n 0); subst; simpl in *;
       [|rewrite Z.pow_neg_r in Hy]; lia|lia]).
    destruct (Z.eq_dec (y mod 2) 0) as [He|Ho].
    - exists 0, (y / 2). unfold node. change (2 ^ (0 + 1)) with 2. change (2 ^ 0) with 1.
      pose proof (Z.div_mod y 2). pose proof (Z.div_pos y 2). lia.
    - rewrite (pow2_pred n) in Hy by lia. pose proof (Z.mod_pos_bound y 2).
      pose proof (Z.div_mod y 2). destruct (IH (n - 1) ltac:(lia) (y / 2)) as (k & m & ? & ? & E).
      { split; [apply Z.div_pos; lia|]. lia. }
      exists (k + 1), m. repeat split; try lia. unfold node in *.
      rewrite (pow2_succ (k + 1)), (pow2_succ k) in * by lia. lia. }
  intros Hx. destruct (H 31 x) as (k & m & Hk & Hm & ->); [lia|done|].
  exists k, m. split; [|done]. split; [lia|]. split; [done|].
  unfold node in Hx. apply Z.nle_gt. intros Hle.
  assert (E : 2 ^ (k + 1) * 2 ^ (30 - k) = 2 ^ 31)
    by (rewrite <- Z.pow_add_r by lia; f_equal; lia).
  pose proof (pow2_pos (k + 1)). pose proof (pow2_pos k). nia.
Qed.

(** ** Conversions between indices *)

Lemma node_0 m : node 0 m = 2 * m.
Proof. unfold node. change (2 ^ (0 + 1)) with 2. change (2 ^ 0) with 1. lia. Qed.

Lemma node_pred k m : 0 < k -> node k m = 2 * node (k - 1) m + 1.
Proof.
  intros Hk. unfold node. rewrite (pow2_pred k), (pow2_pred (k + 1)) by lia.
  replace (k + 1 - 1) with (k - 1 + 1) by lia. lia.
Qed.

Lemma parent_to_tree_index_pnode k m :
  coord k m -> 0 < k -> parent_to_tree_index (pnode k m) = node k m.
Proof.
  intros Hc Hk. unfold parent_to_tree_index, pnode, u32_mul, u32_add.
  pose proof (coord_node k m Hc) as Hb. rewrite (node_pred k m) in * by lia.
  rewrite (u32_wrap_small (_ * 2)) by lia. rewrite u32_wrap_small; lia.
Qed.

Lemma TreeNodeIndex_new_even x : 0 <= x < 2 ^ 32 -> x mod 2 = 0 ->
  TreeNodeIndex_new x = Leaf (x / 2).
Proof. intros Hx He. unfold TreeNodeIndex_new. rewrite He. done. Qed.

Lemma TreeNodeIndex_new_odd x : 0 <= x < 2 ^ 32 -> x mod 2 = 1 ->
  TreeNodeIndex_new x = Parent ((x - 1) / 2).
Proof.
  intros Hx He. unfold TreeNodeIndex_new. rewrite He. simpl.
  unfold parent_from_tree_index, u32_sub.
  rewrite u32_wrap_small; [done|]. destruct (Z.eq_dec x 0) as [->|]; [done|lia].
Qed.

Lemma TreeNodeIndex_new_node k m : 0 <= k -> 0 <= node k m < 2 ^ 32 ->
  TreeNodeIndex_new (node k m) = index_at k m.
Proof.
  intros Hk Hb. unfold index_at. destruct (Z.eqb_spec k 0) as [->|Hne].
  - rewrite node_0 in *. rewrite TreeNodeIndex_new_even; [f_equal|lia|].
    + rewrite Z.mul_comm, Z.div_mul; lia.
    + rewrite Z.mul_comm. apply Z.mod_mul. lia.
  - rewrite (node_pred k m) in * by lia. rewrite TreeNodeIndex_new_odd; [f_equal|lia|].
    + unfold pnode. rewrite Z.add_simpl_r, Z.mul_comm, Z.div_mul; lia.
    + rewrite Z.add_comm, Z.mul_comm, Z.mod_add by lia. done.
Qed.

Lemma parent_from_tree_index_node k m : 0 < k -> 0 <= node k m < 2 ^ 32 ->
  parent_from_tree_index (node k m) = pnode k m.
Proof.
  intros Hk Hb. pose proof (TreeNodeIndex_new_node k m ltac:(lia) Hb) as E.
  unfold TreeNodeIndex_new, index_at in E.
  destruct (node k m mod 2 =? 0); destruct (Z.eqb_spec k 0); (lia || congruence).
Qed.

Lemma TreeNodeIndex_u32_index_at k m : coord k m -> TreeNodeIndex_u32 (index_at k m) = node k m.
Proof.
  intros Hc. unfold index_at. destruct (Z.eqb_spec k 0) as [->|Hne]; simpl.
  - pose proof (coord_node _ _ Hc) as Hb. rewrite node_0 in *. unfold leaf_to_tree_index, u32_mul.
    rewrite u32_wrap_small; lia.
  - apply parent_to_tree_index_pnode; [done|]. destruct Hc. lia.
Qed.

Lemma node_inj k m k' m' : coord k m -> coord k' m' -> node k m = node k' m' -> k = k' /\ m = m'.
Proof.
  intros Hc Hc' E. assert (k = k') as <-.
  { rewrite <- (level_node k m), <- (level_node k' m') by done. by rewrite E. }
  split; [done|]. unfold node in E. pose proof (pow2_pos (k + 1) ltac:(destruct Hc; lia)). nia.
Qed.

Lemma pnode_inj k m k' m' : coord k m -> coord k' m' -> 0 < k -> 0 < k' ->
  pnode k m = pnode k' m' -> k = k' /\ m = m'.
Proof.
  intros Hc Hc' Hk Hk' E. apply node_inj; [done..|].
  rewrite (node_pred k), (node_pred k') by lia. unfold pnode in E. lia.
Qed.

Lemma index_at_inj k m k' m' : coord k m -> coord k' m' ->
  index_at k m = index_at k' m' -> k = k' /\ m = m'.
Proof.
  intros Hc Hc' E. apply node_inj; [done..|].
  rewrite <- !TreeNodeIndex_u32_index_at by done. by rewrite E.
Qed.

(** Every index of the source is the index of some coordinates. *)
Lemma index_at_exists (i : TreeNodeIndex) :
  0 <= TreeNodeIndex_u32 i < 2 ^ 31 - 1 ->
  match i with Leaf j | Parent j => 0 <= j < 2 ^ 30 end ->
  exists k m, coord k m /\ i = index_at k m.
Proof.
  intros Hb Hi. destruct (node_exists _ Hb) as (k & m & Hc & E). exists k, m. split; [done|].
  rewrite <- (TreeNodeIndex_new_node k m), <- E;
    [|destruct Hc; lia|pose proof (coord_node _ _ Hc); lia].
  destruct i as [j|j]; simpl in *; unfold leaf_to_tree_index, parent_to_tree_index, u32_mul, u32_add.
  - rewrite u32_wrap_small by lia. rewrite TreeNodeIndex_new_even by (try apply Z.mod_mul; lia).
    rewrite Z.div_mul; [done|lia].
  - rewrite (u32_wrap_small (_ * 2)), u32_wrap_small by lia.
    rewrite TreeNodeIndex_new_odd; [f_equal; rewrite Z.add_simpl_r, Z.div_mul; lia|lia|].
    rewrite Z.add_comm, Z.mod_add by lia. done.
Qed.

Lemma pnode_exists p : 0 <= p < 2 ^ 30 - 1 -> exists k m, coord k m /\ 0 < k /\ p = pnode k m.
Proof.
  intros Hp. destruct (index_at_exists (Parent p)) as (k & m & Hc & E).
  - simpl. unfold parent_to_tree_index, u32_mul, u32_add.
    rewrite (u32_wrap_small (_ * 2)), u32_wrap_small by lia. lia.
  - lia.
  - exists k, m. unfold index_at in E. destruct (Z.eqb_spec k 0); [done|].
    injection E as ->. destruct Hc as [? ?]. repeat split; lia.
Qed.

(** ** Navigation in coordinates *)

Lemma left_pnode k m : coord k m -> 0 < k -> left (pnode k m) = index_at (k - 1) (2 * m).
Proof.
  intros Hc Hk. pose proof Hc as [Hk' Hm]. unfold left. rewrite parent_to_tree_index_pnode, level_node by done.
  rewrite u32_shl_pow by lia. rewrite <- TreeNodeIndex_new_node; [f_equal|lia|].
  - apply Z.bits_inj'. intros i Hi.
    rewrite Z.mul_1_l, Z.lxor_spec, !node_testbit, Z.pow2_bits_eqb by lia.
    destruct (Z.ltb_spec i k), (Z.ltb_spec i (k - 1)), (Z.eqb_spec (k - 1) i), (Z.eqb_spec i (k - 1)),
      (Z.eqb_spec i k); try lia; simpl; try done.
    + subst. replace (k - (k - 1) - 1) with 0 by lia. by rewrite Z.testbit_even_0.
    + rewrite xorb_false_r. replace (i - (k - 1) - 1) with (Z.succ (i - k - 1)) by lia.
      rewrite Z.testbit_even_succ by lia. done.
  - pose proof (coord_node _ _ (coord_child k m 0 Hc Hk ltac:(lia))).
    rewrite Z.add_0_r in *. lia.
Qed.

Lemma u32_shl_3 k : 0 <= k < 30 -> (3 << k)%u32 = Z.lor (2 ^ (k + 1)) (2 ^ k).
Proof.
  intros Hk. unfold u32_shl. rewrite (Z.mod_small k) by lia. change 3 with (Z.lor (2 ^ 1) (2 ^ 0)).
  rewrite Z.shiftl_lor, !Z.shiftl_mul_pow2, <- !Z.pow_add_r by lia.
  replace (1 + k) with (k + 1) by lia. rewrite Z.add_0_l. apply u32_wrap_small.
  split; [apply Z.lor_nonneg; pose proof (pow2_pos k); pose proof (pow2_pos (k + 1)); lia|].
  apply Z.log2_lt_cancel. rewrite Z.log2_lor, !Z.log2_pow2; try apply Z.pow_nonneg; try lia.
Qed.

Lemma right_pnode k m : coord k m -> 0 < k -> right (pnode k m) = index_at (k - 1) (2 * m + 1).
Proof.
  intros Hc Hk. pose proof Hc as [Hk' Hm]. unfold right. rewrite parent_to_tree_index_pnode, level_node by done.
  rewrite u32_shl_3 by lia. rewrite <- TreeNodeIndex_new_node; [f_equal|lia|].
  - apply Z.bits_inj'. intros i Hi.
    rewrite Z.lxor_spec, Z.lor_spec, !node_testbit, !Z.pow2_bits_eqb by lia.
    destruct (Z.ltb_spec i k), (Z.ltb_spec i (k - 1)), (Z.eqb_spec (k - 1) i), (Z.eqb_spec i (k - 1)),
      (Z.eqb_spec (k - 1 + 1) i), (Z.eqb_spec i k); try lia; simpl; try done.
    + subst. replace (k - 1 + 1 - (k - 1) - 1) with 0 by lia. by rewrite Z.testbit_odd_0.
    + rewrite xorb_false_r. replace (i - (k - 1) - 1) with (Z.succ (i - k - 1)) by lia.
      rewrite Z.testbit_odd_succ by lia. done.
  - pose proof (coord_node _ _ (coord_child k m 1 Hc Hk ltac:(lia))). lia.
Qed.

Lemma node_0_pos k : node k 0 = 2 ^ k - 1.
Proof. unfold node. lia. Qed.

Lemma leftmost_pnode k m : coord k m -> 0 < k -> leftmost (pnode k m) = Leaf (2 ^ k * m).
Proof.
  intros Hc Hk. pose proof Hc as [Hk' Hm]. unfold leftmost.
  rewrite parent_to_tree_index_pnode, level_node by done. rewrite u32_shl_pow by lia.
  pose proof (coord_node _ _ Hc) as Hb. pose proof (pow2_pos k). unfold u32_sub, u32_add.
  assert (E : node k m - 1 * 2 ^ k + 1 = 2 ^ k * m * 2)
    by (unfold node; rewrite pow2_succ by lia; lia).
  assert (Hk2 : 2 ^ k * m * 2 < 2 ^ 32) by (unfold node in *; rewrite pow2_succ in * by lia; lia).
  unfold node in Hb. rewrite pow2_succ in Hb by lia.
  destruct (Z.eq_dec m 0) as [->|Hm0].
  - unfold u32_wrap. rewrite Zplus_mod_idemp_l, E, !Z.mul_0_r. done.
  - rewrite (u32_wrap_small (_ - _)) by nia. rewrite E, u32_wrap_small by nia.
    rewrite TreeNodeIndex_new_even by (try apply Z.mod_mul; nia). rewrite Z.div_mul by lia. done.
Qed.

Lemma parent_index_at k m : coord k m -> k < 30 -> parent (index_at k m) = pnode (k + 1) (m / 2).
Proof.
  intros Hc Hlt. pose proof Hc as [Hk Hm]. pose proof (coord_parent _ _ Hc Hlt) as Hcp.
  unfold parent. rewrite TreeNodeIndex_u32_index_at, level_node, u32_shr_bit0 by (done || lia).
  rewrite <- parent_from_tree_index_node; [f_equal|lia|pose proof (coord_node _ _ Hcp); lia].
  rewrite (u32_shl_pow k) by lia. rewrite u32_shl_pow by (try apply b2z_range; lia).
  rewrite node_testbit by lia. destruct (Z.ltb_spec (k + 1) k); [lia|].
  destruct (Z.eqb_spec (k + 1) k); [lia|]. replace (k + 1 - k - 1) with 0 by lia.
  apply Z.bits_inj'. intros i Hi.
  assert (Eb : Z.testbit (Z.b2z (Z.testbit m 0) * 2 ^ (k + 1)) i = (i =? k + 1) && Z.testbit m 0).
  { destruct (Z.testbit m 0); simpl Z.b2z.
    - rewrite Z.mul_1_l, Z.pow2_bits_eqb, Z.eqb_sym, andb_true_r by lia. done.
    - rewrite Z.mul_0_l, Z.bits_0, andb_false_r. done. }
  rewrite Z.lxor_spec, Z.lor_spec, Eb, Z.mul_1_l, Z.pow2_bits_eqb, !node_testbit by lia.
  destruct (Z.ltb_spec i k), (Z.ltb_spec i (k + 1)), (Z.eqb_spec i k), (Z.eqb_spec k i),
    (Z.eqb_spec i (k + 1)); try lia; simpl; try done.
  - subst. replace (k + 1 - k - 1) with 0 by lia. rewrite Z.bit0_odd. by destruct (Z.odd m).
  - rewrite orb_false_r, xorb_false_r. rewrite <- Z.div2_div, Z.div2_spec, Z.shiftr_spec by lia.
    f_equal. lia.
Qed.

Definition flip (m : Z) : Z := if Z.even m then m + 1 else m - 1.

Lemma even_half m : Z.even m = true -> 2 * (m / 2) = m.
Proof. intros H. rewrite Zeven_mod in H. pose proof (Z.div_mod m 2). destruct (Z.eqb_spec (m mod 2) 0); [lia|done]. Qed.

Lemma odd_half m : Z.even m = false -> 2 * (m / 2) = m - 1.
Proof.
  intros H. rewrite Zeven_mod in H. pose proof (Z.div_mod m 2). pose proof (Z.mod_pos_bound m 2).
  destruct (Z.eqb_spec (m mod 2) 0); [done|lia].
Qed.

Lemma coord_flip k m : coord k m -> k < 30 -> coord k (flip m).
Proof.
  intros Hc Hk. pose proof (coord_parent _ _ Hc Hk) as Hp. pose proof Hc as [Hk' Hm']. unfold flip.
  pose proof (coord_child _ _ 0 Hp ltac:(lia) ltac:(lia)) as [_ Hl].
  pose proof (coord_child _ _ 1 Hp ltac:(lia) ltac:(lia)) as [_ Hr].
  replace (k + 1 - 1) with k in * by lia. split; [lia|].
  destruct (Z.even m) eqn:E; [apply even_half in E|apply odd_half in E]; lia.
Qed.

Lemma flip_flip m : flip (flip m) = m.
Proof.
  unfold flip. destruct (Z.even m) eqn:E.
  - rewrite Z.even_add, E. simpl. lia.
  - rewrite Z.even_sub, E. simpl. lia.
Qed.

Lemma flip_half m : flip m / 2 = m / 2.
Proof.
  unfold flip. destruct (Z.even m) eqn:E; [apply even_half in E|apply odd_half in E].
  - symmetry. apply (Z.div_unique _ _ _ 1); lia.
  - symmetry. apply (Z.div_unique _ _ _ 0); lia.
Qed.

Lemma sibling_index_at k m : coord k m -> k < 30 -> sibling (index_at k m) = index_at k (flip m).
Proof.
  intros Hc Hlt. pose proof Hc as [Hk Hm]. pose proof (coord_parent _ _ Hc Hlt) as Hcp.
  unfold sibling. rewrite parent_index_at by done.
  rewrite TreeNodeIndex_u32_index_at, parent_to_tree_index_pnode by (done || lia).
  rewrite left_pnode, right_pnode by (done || lia). replace (k + 1 - 1) with k by lia.
  unfold flip. pose proof (pow2_pos k ltac:(lia)). unfold node.
  rewrite (pow2_succ (k + 1)), (pow2_succ k) by lia.
  destruct (Z.even m) eqn:E; [apply even_half in E|apply odd_half in E].
  - replace (2 * (2 * 2 ^ k) * (m / 2)) with (2 * 2 ^ k * m) by (rewrite <- E at 1; lia).
    destruct (Z.compare_spec (2 * 2 ^ k * m + 2 ^ k - 1) (2 * 2 ^ k * m + 2 * 2 ^ k - 1)); try lia.
    f_equal. lia.
  - replace (2 * (2 * 2 ^ k) * (m / 2)) with (2 * 2 ^ k * (m - 1)) by (rewrite <- E at 1; lia).
    destruct (Z.compare_spec (2 * 2 ^ k * m + 2 ^ k - 1) (2 * 2 ^ k * (m - 1) + 2 * 2 ^ k - 1)); try lia.
    f_equal. lia.
Qed.

(** ** Tree sizes *)

Definition height (h : Z) : Prop := 0 <= h <= 29.

Lemma log2_pow x : 0 < x < 2 ^ 32 -> log2 x = Z.log2 x.
Proof.
  intros Hx. unfold log2, u32_leading_zeros. destruct (Z.eqb_spec x 0); lia.
Qed.

Lemma log2_tree_size h : 0 <= h <= 30 -> log2 (tree_size h) = h.
Proof.
  intros Hh. unfold tree_size. pose proof (pow2_pos h). pose proof (pow2_succ h).
  pose proof (pow2_le (h + 1) 31). rewrite log2_pow by lia.
  apply Z.log2_unique; [lia|]. replace (Z.succ h) with (h + 1) by lia. lia.
Qed.

Lemma root_tree_size h : height h -> root (tree_size h) = index_at h 0.
Proof.
  intros [? ?]. unfold root. rewrite log2_tree_size by lia.
  rewrite u32_shl_pow by lia. unfold u32_sub. pose proof (pow2_pos h). pose proof (pow2_le h 29).
  rewrite u32_wrap_small by lia. rewrite Z.mul_1_l, <- node_0_pos.
  apply TreeNodeIndex_new_node; [lia|]. rewrite node_0_pos. lia.
Qed.

Lemma TreeSize_new_spec n : 0 < n <= MAX_TREE_SIZE ->
  TreeSize_new n = tree_size (Z.log2 n).
Proof.
  unfold MAX_TREE_SIZE. intros Hn. unfold TreeSize_new. rewrite log2_pow by lia.
  pose proof (Z.log2_nonneg n). assert (Z.log2 n <= 30) by (apply Z.log2_le_mono with (b := 2 ^ 30); lia).
  unfold u32_shl, u32_sub, tree_size. rewrite (Z.mod_small (_ + 1)) by lia.
  rewrite Z.shiftl_mul_pow2, Z.mul_1_l by lia. pose proof (pow2_le (Z.log2 n + 1) 31).
  pose proof (pow2_pos (Z.log2 n + 1)).
  rewrite (u32_wrap_small (2 ^ _)), u32_wrap_small; lia.
Qed.

Lemma TreeSize_leaf_count_spec h : height h -> TreeSize_leaf_count (tree_size h) = 2 ^ h.
Proof.
  intros [? ?]. unfold TreeSize_leaf_count, u32_add, u32_div, tree_size. rewrite pow2_succ by lia.
  pose proof (pow2_pos h). pose proof (pow2_le h 29).
  replace ((2 * 2 ^ h - 1) / 2) with (2 ^ h - 1) by (apply (Z.div_unique _ _ _ 1); lia).
  rewrite u32_wrap_small; lia.
Qed.

Lemma TreeSize_parent_count_spec h : height h -> TreeSize_parent_count (tree_size h) = 2 ^ h - 1.
Proof.
  intros [? ?]. unfold TreeSize_parent_count, u32_div, tree_size. rewrite pow2_succ by lia.
  symmetry. apply (Z.div_unique _ _ _ 1); lia.
Qed.

Lemma TreeSize_inc_spec h : height h -> TreeSize_inc (tree_size h) = tree_size (h + 1).
Proof.
  intros [? ?]. unfold TreeSize_inc, u32_add, u32_mul, tree_size. rewrite (pow2_succ (h + 1)) by lia.
  pose proof (pow2_pos (h + 1)). pose proof (pow2_le (h + 1) 30).
  rewrite (u32_wrap_small (_ * 2)), u32_wrap_small by lia. lia.
Qed.

Lemma TreeSize_dec_spec h : height h -> 0 < h -> TreeSize_dec (tree_size h) = tree_size (h - 1).
Proof.
  intros [? ?] ?. unfold TreeSize_dec, u32_sub, u32_div, u32_add, tree_size.
  replace (h - 1 + 1) with h by lia. rewrite (pow2_succ h) by lia.
  pose proof (pow2_pos h). pose proof (pow2_le h 29). pose proof (pow2_le 1 h).
  destruct (Z.leb_spec 2 (2 * 2 ^ h - 1)); [|lia]. rewrite (u32_wrap_small (_ + 1)) by lia.
  replace (2 * 2 ^ h - 1 + 1) with (2 ^ h * 2) by lia. rewrite Z.div_mul by lia.
  apply u32_wrap_small. lia.
Qed.

Lemma TreeSize_leaf_is_left_spec h i : height h ->
  TreeSize_leaf_is_left (tree_size h) i = (0 <? h) && (i <? 2 ^ (h - 1)) || (h =? 0) && (i <? 0).
Proof.
  intros Hh. unfold TreeSize_leaf_is_left. rewrite TreeSize_leaf_count_spec by done. destruct Hh.
  destruct (Z.eqb_spec h 0) as [->|]; [done|]. destruct (Z.ltb_spec 0 h); [|lia].
  rewrite (pow2_pred h) by lia. rewrite Z.mul_comm, Z.div_mul by lia. simpl. by rewrite orb_false_r.
Qed.

(** ** Paths *)

(** The [n] nearest ancestors of the node at [(k, m)], bottom up. *)
Fixpoint ancestors (n : nat) (k m : Z) : list (Z * Z) :=
  match n with
  | O => []
  | S n => (k + 1, m / 2) :: ancestors n (k + 1) (m / 2)
  end.

Definition pnode' (c : Z * Z) : ParentNodeIndex := pnode c.1 c.2.

Lemma length_ancestors n k m : length (ancestors n k m) = n.
Proof. revert k m. induction n; intros; simpl; [done|]. by rewrite IHn. Qed.

Lemma div_pow2_succ m i : 0 <= i -> m / 2 ^ (i + 1) = m / 2 / 2 ^ i.
Proof.
  intros. pose proof (pow2_pos i). rewrite pow2_succ, Z.div_div by lia. done.
Qed.

Lemma ancestors_lookup n k m (i : nat) : (i < n)%nat ->
  ancestors n k m !! i = Some (k + 1 + Z.of_nat i, m / 2 ^ (Z.of_nat i + 1)).
Proof.
  revert k m i. induction n as [|n IH]; intros k m i Hi; [lia|].
  destruct i as [|i]; simpl.
  - change (2 ^ (Z.of_nat 0 + 1)) with 2. f_equal. f_equal. lia.
  - rewrite IH by lia. f_equal. f_equal; [lia|].
    rewrite <- div_pow2_succ by lia. f_equal. f_equal. lia.
Qed.

Lemma ancestors_coord n k m : 0 <= k -> k + Z.of_nat n <= 29 -> 0 <= m < 2 ^ Z.of_nat n ->
  Forall (fun c => coord c.1 c.2 /\ 0 < c.1 <= k + Z.of_nat n) (ancestors n k m).
Proof.
  revert k m. induction n as [|n IH]; intros k m Hk Hn Hm; [constructor|].
  rewrite Nat2Z.inj_succ, <- Z.add_1_r, pow2_succ in Hm by lia.
  assert (Hm2 : 0 <= m / 2 < 2 ^ Z.of_nat n)
    by (split; [apply Z.div_pos; lia|apply Z.div_lt_upper_bound; lia]).
  simpl. constructor; simpl.
  - repeat split; try lia. pose proof (pow2_le (Z.of_nat n) (30 - (k + 1))). lia.
  - eapply Forall_impl; [apply IH; lia|]. cbn beta. intros c [? ?]. split; [done|lia].
Qed.

Lemma direct_path_loop_spec n fuel k m :
  0 <= k -> k + Z.of_nat n <= 29 -> 0 <= m < 2 ^ Z.of_nat n ->
  direct_path_loop (n + fuel) (node k m) (node (k + Z.of_nat n) 0) =
  Some (map pnode' (ancestors n k m)).
Proof.
  revert k m. induction n as [|n IH]; intros k m Hk Hn Hm.
  - assert (m = 0) as -> by (simpl in Hm; lia). rewrite Z.add_0_r.
    destruct fuel; simpl; by rewrite Z.eqb_refl.
  - assert (Hc : coord k m).
    { split; [lia|]. pose proof (pow2_le (Z.of_nat (S n)) (30 - k)). lia. }
    assert (Hr : coord (k + Z.of_nat (S n)) 0).
    { split; [lia|]. pose proof (pow2_pos (30 - (k + Z.of_nat (S n)))). lia. }
    change (S n + fuel)%nat with (S (n + fuel)). simpl direct_path_loop.
    destruct (Z.eqb_spec (node k m) (node (k + Z.of_nat (S n)) 0)) as [E|_].
    { apply node_inj in E; [lia|done|done]. }
    rewrite TreeNodeIndex_new_node by (try (pose proof (coord_node _ _ Hc)); lia).
    rewrite parent_index_at by (done || lia).
    rewrite parent_to_tree_index_pnode by (try apply coord_parent; done || lia).
    replace (k + Z.of_nat (S n)) with (k + 1 + Z.of_nat n) by lia.
    rewrite Nat2Z.inj_succ, <- Z.add_1_r, pow2_succ in Hm by lia.
    rewrite IH; [done|lia|lia|].
    split; [apply Z.div_pos; lia|apply Z.div_lt_upper_bound; lia].
Qed.

Definition leaf_in (h m : Z) : Prop := height h /\ 0 <= m < 2 ^ h.

Lemma coord_leaf h m : leaf_in h m -> coord 0 m.
Proof. intros [[? ?] ?]. split; [lia|]. pose proof (pow2_le h 30). change (30 - 0) with 30. lia. Qed.

Lemma index_at_leaf m : index_at 0 m = Leaf m.
Proof. done. Qed.

Lemma leaf_to_tree_index_node h m : leaf_in h m -> leaf_to_tree_index m = node 0 m.
Proof.
  intros H. apply coord_leaf in H. rewrite <- TreeNodeIndex_u32_index_at by done. done.
Qed.

Lemma coord_root h : height h -> coord h 0.
Proof. intros [? ?]. split; [lia|]. pose proof (pow2_pos (30 - h)). lia. Qed.

Lemma direct_path_terminates h m : leaf_in h m ->
  direct_path_loop 32 (leaf_to_tree_index m) (TreeNodeIndex_u32 (root (tree_size h))) =
  Some (map pnode' (ancestors (Z.to_nat h) 0 m)).
Proof.
  intros H. rewrite (leaf_to_tree_index_node h) by done. destruct H as [Hh Hm].
  rewrite root_tree_size, TreeNodeIndex_u32_index_at by (auto using coord_root).
  destruct Hh. replace 32%nat with (Z.to_nat h + (32 - Z.to_nat h))%nat by lia.
  replace h with (0 + Z.of_nat (Z.to_nat h)) at 3 by lia.
  apply direct_path_loop_spec; [lia|lia|]. rewrite Z2Nat.id by lia. done.
Qed.

Lemma direct_path_ancestors h m : leaf_in h m ->
  direct_path m (tree_size h) = map pnode' (ancestors (Z.to_nat h) 0 m).
Proof. intros H. unfold direct_path. by rewrite direct_path_terminates. Qed.

Lemma length_direct_path h m : leaf_in h m -> length (direct_path m (tree_size h)) = Z.to_nat h.
Proof. intros H. rewrite direct_path_ancestors by done. by rewrite length_map, length_ancestors. Qed.

Lemma direct_path_lookup h m (i : nat) : leaf_in h m -> (i < Z.to_nat h)%nat ->
  direct_path m (tree_size h) !! i = Some (pnode (Z.of_nat i + 1) (m / 2 ^ (Z.of_nat i + 1))).
Proof.
  intros H Hi. rewrite direct_path_ancestors by done.
  rewrite list_lookup_fmap, ancestors_lookup by done. simpl. unfold pnode'. simpl. f_equal. f_equal. lia.
Qed.

(** The nodes of the path from the leaf (included) to below the root. *)
Definition below_root (h m : Z) : list (Z * Z) :=
  map (fun i => (Z.of_nat i, m / 2 ^ Z.of_nat i)) (seq 0 (Z.to_nat h)).

Lemma length_below_root h m : length (below_root h m) = Z.to_nat h.
Proof. unfold below_root. by rewrite length_map, length_seq. Qed.

Lemma below_root_lookup h m (i : nat) : (i < Z.to_nat h)%nat ->
  below_root h m !! i = Some (Z.of_nat i, m / 2 ^ Z.of_nat i).
Proof.
  intros Hi. unfold below_root. rewrite list_lookup_fmap, lookup_seq_lt by done. done.
Qed.

Lemma removelast_take {A} (l : list A) : removelast l = take (length l - 1) l.
Proof.
  induction l as [|x [|y l] IH]; [done..|].
  change (removelast (x :: y :: l)) with (x :: removelast (y :: l)). rewrite IH.
  simpl length. by rewrite !Nat.sub_succ, !Nat.sub_0_r.
Qed.

Lemma copath_spec h m : leaf_in h m -> 0 < h ->
  copath m (tree_size h) = map (fun c => index_at c.1 (flip c.2)) (below_root h m).
Proof.
  intros H Hpos. pose proof H as [[_ Hh] Hm]. unfold copath.
  apply list_eq. intros i. rewrite !list_lookup_fmap.
  destruct (decide (i < Z.to_nat h)%nat) as [Hi|Hi].
  - rewrite below_root_lookup by done. simpl.
    assert (Hc : coord (Z.of_nat i) (m / 2 ^ Z.of_nat i)).
    { split; [lia|]. pose proof (pow2_pos (Z.of_nat i)). split; [apply Z.div_pos; lia|].
      apply Z.div_lt_upper_bound; [lia|]. rewrite <- Z.pow_add_r by lia.
      pose proof (pow2_le h (Z.of_nat i + (30 - Z.of_nat i))). lia. }
    destruct i as [|i].
    + simpl. change (2 ^ Z.of_nat 0) with 1 in *. rewrite Z.div_1_r in *.
      rewrite <- (index_at_leaf m), sibling_index_at by (done || lia). done.
    + change (sibling <$> map Parent (removelast (direct_path m (tree_size h))) !! i =
        Some (index_at (Z.of_nat (S i)) (flip (m / 2 ^ Z.of_nat (S i))))).
      rewrite list_lookup_fmap, removelast_take, length_direct_path, lookup_take_lt by (done || lia).
      rewrite direct_path_lookup by (done || lia). simpl.
      replace (Z.of_nat i + 1) with (Z.of_nat (S i)) by lia.
      assert (E : Parent (pnode (Z.of_nat (S i)) (m / 2 ^ Z.of_nat (S i))) =
                  index_at (Z.of_nat (S i)) (m / 2 ^ Z.of_nat (S i))).
      { unfold index_at. destruct (Z.eqb_spec (Z.of_nat (S i)) 0); [lia|done]. }
      rewrite E, sibling_index_at by (done || lia). done.
  - rewrite !lookup_ge_None_2; [done| |]; rewrite ?length_below_root; try lia.
    simpl. rewrite length_map, removelast_take, length_take, length_direct_path by done. lia.
Qed.

(** ** Lowest common ancestor *)

(** [j] is the height of the lowest common ancestor of the leaves [a], [b]. *)
Definition meet_at (a b j : Z) : Prop :=
  0 <= j /\ a / 2 ^ j = b / 2 ^ j /\ forall i, 0 <= i < j -> a / 2 ^ i <> b / 2 ^ i.

Lemma u32_shr_1 x k : 0 <= k -> u32_shr (x / 2 ^ k)%Z 1 = x / 2 ^ (k + 1).
Proof.
  intros Hk. unfold u32_shr. change (1 mod 32) with 1. rewrite Z.shiftr_div_pow2 by lia.
  change (2 ^ 1) with 2. pose proof (pow2_pos k). rewrite Z.div_div, pow2_succ by lia. f_equal. lia.
Qed.

Lemma lca_loop_spec fuel x y k : 0 <= k ->
  0 <= x < 2 ^ (k + Z.of_nat fuel) -> 0 <= y < 2 ^ (k + Z.of_nat fuel) ->
  (forall i, 0 <= i < k -> x / 2 ^ i <> y / 2 ^ i) ->
  exists j, lca_loop fuel (x / 2 ^ k) (y / 2 ^ k) k = Some (x / 2 ^ j, j) /\ meet_at x y j.
Proof.
  revert k. induction fuel as [|fuel IH]; intros k Hk Hx Hy Hmin; simpl;
    destruct (Z.eqb_spec (x / 2 ^ k) (y / 2 ^ k)) as [E|E].
  1, 3: exists k; split; [done|]; split; [lia|]; done.
  - rewrite Z.add_0_r in *. rewrite !Z.div_small in E by lia. lia.
  - replace (k + Z.of_nat (S fuel)) with (k + 1 + Z.of_nat fuel) in * by lia.
    rewrite !u32_shr_1 by lia. apply IH; [lia|done|done|].
    intros i Hi. destruct (Z.eq_dec i k) as [->|]; [done|apply Hmin; lia].
Qed.

Lemma meet_at_exists h a b : leaf_in h a -> leaf_in h b ->
  exists j, meet_at a b j /\ j <= h.
Proof.
  intros [[? ?] ?] [_ ?].
  destruct (lca_loop_spec (Z.to_nat h) a b 0) as (j & _ & Hj); rewrite ?Z2Nat.id by lia; try lia.
  { done. } { done. }
  exists j. split; [done|]. destruct Hj as (? & ? & Hmin). apply Z.nlt_ge. intros Hlt.
  apply (Hmin h); [lia|]. rewrite !Z.div_small by lia. done.
Qed.

Lemma meet_at_unique a b j j' : meet_at a b j -> meet_at a b j' -> j = j'.
Proof.
  intros (? & E & Hm) (? & E' & Hm').
  destruct (Z.lt_trichotomy j j') as [Hlt|[->|Hlt]]; [|done|].
  - destruct (Hm' j); [lia|done].
  - destruct (Hm j'); [lia|done].
Qed.

Lemma meet_at_above a b j i : meet_at a b j -> j <= i -> a / 2 ^ i = b / 2 ^ i.
Proof.
  intros (? & E & _) Hi. replace i with (j + (i - j)) by lia.
  pose proof (pow2_pos j ltac:(lia)). pose proof (pow2_pos (i - j) ltac:(lia)).
  rewrite Z.pow_add_r, <- !Z.div_div by lia. by rewrite E.
Qed.

Lemma double_div_pow2 a k : 0 < k -> (2 * a) / 2 ^ k = a / 2 ^ (k - 1).
Proof.
  intros. pose proof (pow2_pos (k - 1)). rewrite (pow2_pred k) by lia. apply Z.div_mul_cancel_l; lia.
Qed.

Lemma meet_at_double a b j : a <> b -> meet_at (2 * a) (2 * b) j -> 0 < j /\ meet_at a b (j - 1).
Proof.
  intros Hne (? & E & Hm).
  assert (0 < j) by (destruct (Z.eq_dec j 0) as [->|]; [rewrite !Z.div_1_r in E|]; lia).
  split; [done|]. split; [lia|]. split.
  - by rewrite <- !double_div_pow2.
  - intros i Hi Ei. apply (Hm (i + 1)); [lia|]. rewrite !double_div_pow2 by lia.
    by replace (i + 1 - 1) with i by lia.
Qed.

Lemma level_leaf h m : leaf_in h m -> level (node 0 m) = 0.
Proof. intros. apply level_node. by eapply coord_leaf. Qed.

Lemma lca_spec h a b j : leaf_in h a -> leaf_in h b -> a <> b -> meet_at a b j ->
  lowest_common_ancestor a b = pnode j (a / 2 ^ j).
Proof.
  intros Ha Hb Hne Hj. unfold lowest_common_ancestor.
  rewrite (leaf_to_tree_index_node h a), (leaf_to_tree_index_node h b) by done.
  rewrite (level_leaf h a), (level_leaf h b) by done. rewrite !node_0.
  assert (E1 : forall x, u32_shr (2 * x)%Z (0 + 1)%Z = x).
  { intros x. unfold u32_shr. change ((0 + 1) mod 32) with 1. rewrite Z.shiftr_div_pow2 by lia.
    change (2 ^ 1) with 2. rewrite Z.mul_comm. apply Z.div_mul. lia. }
  rewrite !E1. destruct (Z.eqb_spec a b) as [?|_]; [done|]. rewrite andb_false_r.
  pose proof Ha as [[_ Hh] Ha']. pose proof Hb as [_ Hb'].
  assert (Hp : 2 ^ h <= 2 ^ 30) by (apply pow2_le; destruct Ha as [[? ?] ?]; lia).
  assert (Ha2 : 0 <= 2 * a < 2 ^ 32) by lia. assert (Hb2 : 0 <= 2 * b < 2 ^ 32) by lia.
  destruct (lca_loop_spec 32 (2 * a) (2 * b) 0) as (j' & E & Hj'); try done.
  { intros i ?. lia. }
  rewrite !Z.div_1_r in E. rewrite E. simpl default.
  apply meet_at_double in Hj' as [Hpos Hj']; [|done].
  rewrite (meet_at_unique _ _ _ _ Hj' Hj) in *. rewrite double_div_pow2 by lia.
  assert (Ej : j = j' - 1) by (eapply meet_at_unique; done). subst j.
  assert (Hj0 : 0 < j' - 1).
  { destruct Hj' as (? & Ej & _). destruct (Z.eq_dec (j' - 1) 0) as [E0|]; [|lia].
    rewrite E0, !Z.div_1_r in Ej. lia. }
  assert (Hjh : j' - 1 <= h).
  { destruct (meet_at_exists h a b Ha Hb) as (q & Hq & ?). rewrite (meet_at_unique _ _ _ _ Hj' Hq). lia. }
  assert (Hc : coord (j' - 1) (a / 2 ^ (j' - 1))).
  { split; [lia|]. pose proof (pow2_pos (j' - 1)). split; [apply Z.div_pos; lia|].
    apply Z.div_lt_upper_bound; [lia|]. rewrite <- Z.pow_add_r by lia.
    replace (j' - 1 + (30 - (j' - 1))) with 30 by lia. lia. }
  pose proof (coord_node _ _ Hc) as Hn.
  rewrite <- parent_from_tree_index_node by lia. f_equal.
  unfold u32_add, u32_sub, u32_shl. rewrite (Z.mod_small j'), (Z.mod_small (j' - 1)) by lia.
  rewrite !Z.shiftl_mul_pow2 by lia. unfold node in Hn.
  replace (j' - 1 + 1) with j' in * by lia. pose proof (pow2_pos (j' - 1)). pose proof (pow2_pos j').
  assert (0 <= a / 2 ^ (j' - 1)) by (destruct Hc; lia).
  pose proof (pow2_le (j' - 1) 29).
  rewrite (u32_wrap_small (1 * _)) by lia.
  assert (a / 2 ^ (j' - 1) * 2 ^ j' < 2 ^ 31) by nia.
  rewrite (u32_wrap_small (_ * 2 ^ j')) by nia. rewrite (u32_wrap_small (_ + _)) by nia.
  rewrite u32_wrap_small by nia. unfold node. replace (j' - 1 + 1) with j' by lia. lia.
Qed.

Lemma common_prefix_spec (l1 l2 s : list Z) :
  (forall x y, l1 !! 0%nat = Some x -> l2 !! 0%nat = Some y -> x <> y) ->
  common_prefix (s ++ l1) (s ++ l2) = s.
Proof.
  intros Hd. induction s as [|z s IH]; simpl.
  - destruct l1 as [|x l1], l2 as [|y l2]; try done. simpl.
    destruct (Z.eqb_spec x y); [|done]. by destruct (Hd x y).
  - by rewrite Z.eqb_refl, IH.
Qed.

Lemma common_prefix_same (s : list Z) : common_prefix s s = s.
Proof. pose proof (common_prefix_spec [] [] s) as H. rewrite app_nil_r in H. by apply H. Qed.

Lemma common_direct_path_spec h a b j : leaf_in h a -> leaf_in h b -> a <> b -> meet_at a b j ->
  common_direct_path a b (tree_size h) = drop (Z.to_nat (j - 1)) (direct_path a (tree_size h)).
Proof.
  intros Ha Hb Hne Hj. unfold common_direct_path.
  assert (Hj0 : 0 < j).
  { destruct Hj as (? & Ej & _). destruct (Z.eq_dec j 0) as [->|]; [|lia].
    rewrite !Z.div_1_r in Ej. lia. }
  assert (Hjh : j <= h).
  { destruct (meet_at_exists h a b Ha Hb) as (q & Hq & ?). rewrite (meet_at_unique _ _ _ _ Hj Hq). lia. }
  set (da := direct_path a (tree_size h)). set (db := direct_path b (tree_size h)).
  set (n := Z.to_nat (j - 1)).
  assert (Hla : length da = Z.to_nat h) by (by apply length_direct_path).
  assert (Hlb : length db = Z.to_nat h) by (by apply length_direct_path).
  assert (Es : drop n da = drop n db).
  { apply list_eq. intros i. rewrite !lookup_drop.
    destruct (decide (n + i < Z.to_nat h)%nat).
    - unfold da, db. rewrite !direct_path_lookup by done. do 2 f_equal.
      apply (meet_at_above a b j); [done|lia].
    - rewrite !lookup_ge_None_2 by lia. done. }
  rewrite <- (take_drop n da) at 1. rewrite <- (take_drop n db). rewrite <- Es, !rev_app_distr.
  rewrite common_prefix_spec, rev_involutive; [done|].
  intros x y Hx Hy E. subst y. rewrite !rev_reverse in *.
  assert (Hn : (0 < n)%nat).
  { destruct n; [|lia]. by rewrite take_0 in Hx. }
  rewrite reverse_lookup in Hx by (rewrite length_take; lia).
  rewrite reverse_lookup in Hy by (rewrite length_take; lia).
  rewrite length_take in Hx, Hy. rewrite Nat.min_l in Hx, Hy by lia.
  rewrite lookup_take_lt in Hx, Hy by lia. unfold da, db in Hx, Hy.
  rewrite direct_path_lookup in Hx, Hy by (done || lia).
  assert (E : Z.of_nat (n - 1) + 1 = j - 1) by lia. rewrite E in *.
  assert (Hc : forall c, leaf_in h c -> coord (j - 1) (c / 2 ^ (j - 1))).
  { intros c [[? ?] ?]. split; [lia|]. pose proof (pow2_pos (j - 1)). split; [apply Z.div_pos; lia|].
    apply Z.div_lt_upper_bound; [lia|]. rewrite <- Z.pow_add_r by lia.
    pose proof (pow2_le h (j - 1 + (30 - (j - 1)))). lia. }
  destruct (pnode_inj (j - 1) (a / 2 ^ (j - 1)) (j - 1) (b / 2 ^ (j - 1))) as [_ Eab];
    [by apply Hc|by apply Hc|lia|lia|congruence|].
  destruct Hj as (_ & _ & Hm). apply (Hm (j - 1)); [lia|done].
Qed.

Lemma parent_pnode k m : coord k m -> 0 < k < 30 ->
  parent (Parent (pnode k m)) = pnode (k + 1) (m / 2).
Proof.
  intros Hc Hk. rewrite <- parent_index_at by (done || lia). unfold index_at.
  destruct (Z.eqb_spec k 0); [lia|done].
Qed.

Lemma coord_path h m i : leaf_in h m -> 0 <= i <= h -> coord i (m / 2 ^ i).
Proof.
  intros [[? ?] ?] Hi. split; [lia|]. pose proof (pow2_pos i ltac:(lia)). split; [apply Z.div_pos; lia|].
  apply Z.div_lt_upper_bound; [lia|]. rewrite <- Z.pow_add_r by lia.
  pose proof (pow2_le h (i + (30 - i))). lia.
Qed.

(** ** Nodes of a tree of height [h] *)

Definition in_tree (h k m : Z) : Prop := 0 <= k <= h /\ 0 <= m < 2 ^ (h - k).

Lemma in_tree_coord h k m : height h -> in_tree h k m -> coord k m.
Proof.
  intros [? ?] [Hk Hm]. split; [lia|]. pose proof (pow2_le (h - k) (30 - k)). lia.
Qed.

Lemma in_tree_path h i k : leaf_in h i -> 0 <= k <= h -> in_tree h k (i / 2 ^ k).
Proof.
  intros [[? ?] Hi] Hk. split; [done|]. pose proof (pow2_pos k).
  split; [apply Z.div_pos; lia|]. apply Z.div_lt_upper_bound; [lia|].
  rewrite <- Z.pow_add_r by lia. replace (k + (h - k)) with h by lia. lia.
Qed.

Lemma in_tree_slot h k m : height h -> in_tree h k m ->
  match index_at k m with Leaf i => 0 <= i < 2 ^ h | Parent i => 0 <= i < 2 ^ h - 1 end.
Proof.
  intros [? ?] [Hk Hm]. unfold index_at. destruct (Z.eqb_spec k 0) as [->|].
  - by rewrite Z.sub_0_r in Hm.
  - unfold pnode, node. replace (k - 1 + 1) with k by lia.
    pose proof (pow2_pred k). pose proof (pow2_pos (k - 1)).
    assert (2 ^ h = 2 ^ k * 2 ^ (h - k)) by (rewrite <- Z.pow_add_r by lia; f_equal; lia). nia.
Qed.

Lemma in_tree_child h k m b : 0 < k -> in_tree h k m -> 0 <= b <= 1 -> in_tree h (k - 1) (2 * m + b).
Proof.
  intros Hk [Hk' Hm] Hb. split; [lia|]. replace (h - (k - 1)) with (h - k + 1) by lia.
  rewrite pow2_succ by lia. lia.
Qed.

Lemma index_at_parent k m : 0 < k -> Parent (pnode k m) = index_at k m.
Proof. intros Hk. unfold index_at. by rewrite (proj2 (Z.eqb_neq k 0)) by lia. Qed.

Lemma path_step i k : 0 <= k -> i / 2 ^ k / 2 = i / 2 ^ (k + 1).
Proof.
  intros Hk. rewrite pow2_succ by lia. pose proof (pow2_pos k).
  by rewrite (Z.mul_comm 2), <- Z.div_div by lia.
Qed.

Lemma in_tree_exists h p : height h -> 0 <= p < 2 ^ h - 1 ->
  exists k m, in_tree h k m /\ 0 < k /\ p = pnode k m.
Proof.
  intros [? ?] Hp. pose proof (pow2_le h 29). destruct (pnode_exists p) as (k & m & [Hk Hm] & Hpos & E); [lia|].
  exists k, m. split; [|done]. unfold pnode, node in E. replace (k - 1 + 1) with k in E by lia.
  pose proof (pow2_pos k). pose proof (pow2_pos (k - 1)). pose proof (pow2_pred k).
  assert (k <= h).
  { destruct (Z.le_gt_cases k h); [done|]. pose proof (pow2_le h (k - 1)). nia. }
  split; [lia|]. split; [lia|].
  assert (2 ^ h = 2 ^ k * 2 ^ (h - k)) by (rewrite <- Z.pow_add_r by lia; f_equal; lia). nia.
Qed.

(** A parent is on the direct path of a leaf exactly when the leaf is below it. *)
Lemma elem_of_direct_path h i k m : leaf_in h i -> in_tree h k m -> 0 < k ->
  pnode k m ∈ direct_path i (tree_size h) <-> i / 2 ^ k = m.
Proof.
  intros Hi Hin Hk. pose proof (in_tree_coord _ _ _ (proj1 Hi) Hin) as Hc. destruct Hin as [Hkh Hm]. split.
  - intros [j Hj]%list_elem_of_lookup. pose proof (lookup_lt_Some _ _ _ Hj) as Hlt.
    rewrite length_direct_path in Hlt by done. rewrite direct_path_lookup in Hj by done.
    injection Hj as E. apply pnode_inj in E as [<- <-]; [done| |done|lia|lia].
    apply (coord_path h); [done|lia].
  - intros <-. apply list_elem_of_lookup. exists (Z.to_nat (k - 1)).
    rewrite direct_path_lookup by (done || lia). by replace (Z.of_nat (Z.to_nat (k - 1)) + 1) with k by lia.
Qed.

Lemma direct_path_NoDup h i : leaf_in h i -> NoDup (direct_path i (tree_size h)).
Proof.
  intros Hi. apply NoDup_alt. intros a b p Ha Hb.
  pose proof (lookup_lt_Some _ _ _ Ha) as La. pose proof (lookup_lt_Some _ _ _ Hb) as Lb.
  rewrite length_direct_path in La, Lb by done. rewrite direct_path_lookup in Ha, Hb by done.
  rewrite <- Hb in Ha. injection Ha as E. apply pnode_inj in E as [? _]; [lia|apply (coord_path h); [done|lia]..|lia|lia].
Qed.

(** ** Theorems *)

(** [left], [right], [parent] and [sibling] fit together: for every parent
    index of a tree the program can hold, both children have it as their
    parent, and they are each other's sibling. *)
Theorem navigation_coherent (p : ParentNodeIndex) :
  0 <= p < 2 ^ 30 - 1 ->
  parent (left p) = p /\ parent (right p) = p /\
  sibling (left p) = right p /\ sibling (right p) = left p.
Proof.
  intros Hp. destruct (pnode_exists p Hp) as (k & m & Hc & Hk & ->).
  pose proof (coord_child _ _ 0 Hc Hk ltac:(lia)) as Hl. rewrite Z.add_0_r in Hl.
  pose proof (coord_child _ _ 1 Hc Hk ltac:(lia)) as Hr. pose proof Hc as [? ?].
  rewrite left_pnode, right_pnode by done.
  rewrite !parent_index_at, !sibling_index_at by (done || lia).
  replace (k - 1 + 1) with k by lia. unfold flip.
  rewrite Z.even_mul, Z.even_add, Z.even_mul. simpl. repeat split; f_equal; try lia.
  - rewrite Z.mul_comm, Z.div_mul; lia.
  - symmetry. apply (Z.div_unique _ _ _ 1); lia.
Qed.

Lemma navigation_coherent_witness : 0 <= 5 < 2 ^ 30 - 1 /\ parent (left 5) = 5.
Proof. split; [lia|]. apply (navigation_coherent 5). lia. Defined.

(** [direct_path] terminates for every leaf of the tree, lists as many
    nodes as the tree is high, starts with the parent of the leaf, climbs from
    each node to its parent and ends at the root. *)
Theorem direct_path_correct (h m : Z) :
  leaf_in h m ->
  let d := direct_path m (tree_size h) in
  direct_path_loop 32 (leaf_to_tree_index m) (TreeNodeIndex_u32 (root (tree_size h))) = Some d /\
  length d = Z.to_nat h /\
  (0 < h -> d !! 0%nat = Some (parent (Leaf m))) /\
  (forall i p q, d !! i = Some p -> d !! S i = Some q -> parent (Parent p) = q) /\
  (0 < h -> exists r, last d = Some r /\ Parent r = root (tree_size h)).
Proof.
  intros H d. assert (Hl : length d = Z.to_nat h) by (by apply length_direct_path).
  split; [unfold d; rewrite direct_path_ancestors by done; by apply direct_path_terminates|].
  pose proof H as [Hh ?]. pose proof Hh as [? ?].
  split; [done|]. repeat split.
  - intros Hp. unfold d. rewrite direct_path_lookup by (done || lia).
    rewrite <- index_at_leaf, parent_index_at by (try (by eapply coord_leaf); lia). done.
  - intros i p q Hi Hq. pose proof (lookup_lt_Some _ _ _ Hq). unfold d in Hi, Hq.
    rewrite direct_path_lookup in Hi, Hq by (done || lia). injection Hi as <-. injection Hq as <-.
    rewrite parent_pnode by (try (eapply coord_path; [done|]); lia).
    rewrite Z.div_div by (pose proof (pow2_pos (Z.of_nat i + 1)); lia). f_equal; [lia|].
    f_equal. rewrite Nat2Z.inj_succ. replace (Z.succ (Z.of_nat i) + 1) with (Z.of_nat i + 1 + 1) by lia.
    rewrite (pow2_succ (_ + 1)) by lia. lia.
  - intros Hp. exists (pnode h 0). rewrite last_lookup, Hl. unfold d.
    rewrite direct_path_lookup by (done || lia). rewrite root_tree_size by done.
    unfold index_at. destruct (Z.eqb_spec h 0); [lia|]. split; [|done].
    replace (Z.of_nat (Init.Nat.pred (Z.to_nat h)) + 1) with h by lia. by rewrite Z.div_small by lia.
Qed.

Lemma direct_path_correct_witness :
  leaf_in 3 5 /\ length (direct_path 5 (tree_size 3)) = 3%nat.
Proof.
  assert (H : leaf_in 3 5) by (repeat split; simpl; lia).
  split; [exact H|]. apply (direct_path_correct 3 5 H).
Defined.

(** The copath of a leaf in a tree with several leaves matches the direct
    path node by node: it has the same length, each copath node is a child of
    the direct path node at its position, and it is the sibling of the path's
    node below (the leaf itself at the bottom). *)
Theorem copath_correct (h m : Z) :
  leaf_in h m -> 0 < h ->
  let c := copath m (tree_size h) in
  let d := direct_path m (tree_size h) in
  length c = length d /\
  (forall i n p, c !! i = Some n -> d !! i = Some p -> parent n = p) /\
  (forall i n, c !! i = Some n ->
     n = sibling (match i with O => Leaf m | S j => Parent (default 0 (d !! j)) end)).
Proof.
  intros H Hp c d. pose proof H as [[? ?] ?].
  assert (Hc : forall i n, c !! i = Some n -> (i < Z.to_nat h)%nat /\
    n = index_at (Z.of_nat i) (flip (m / 2 ^ Z.of_nat i))).
  { intros i n Hi. unfold c in Hi. rewrite copath_spec, list_lookup_fmap in Hi by done.
    destruct (decide (i < Z.to_nat h)%nat).
    - rewrite below_root_lookup in Hi by done. simpl in Hi. split; [done|congruence].
    - rewrite lookup_ge_None_2 in Hi by (rewrite length_below_root; lia). done. }
  split.
  { unfold c, d. rewrite copath_spec by done.
    by rewrite length_map, length_below_root, length_direct_path. }
  split.
  - intros i n p Hi Hd. apply Hc in Hi as [Hlt ->]. unfold d in Hd.
    rewrite direct_path_lookup in Hd by done. injection Hd as <-.
    pose proof (coord_path h m (Z.of_nat i) H ltac:(lia)) as Hco.
    rewrite parent_index_at by (try apply coord_flip; done || lia).
    rewrite flip_half. f_equal. rewrite Z.div_div by (pose proof (pow2_pos (Z.of_nat i)); lia).
    rewrite pow2_succ by lia. f_equal. lia.
  - intros i n Hi. apply Hc in Hi as [Hlt ->].
    pose proof (coord_path h m (Z.of_nat i) H ltac:(lia)) as Hco.
    rewrite <- sibling_index_at by (done || lia). f_equal. destruct i as [|j].
    + change (2 ^ Z.of_nat 0) with 1. by rewrite Z.div_1_r, index_at_leaf.
    + unfold d. rewrite direct_path_lookup by (done || lia). simpl.
      unfold index_at. destruct (Z.eqb_spec (Z.of_nat (S j)) 0); [lia|].
      by replace (Z.of_nat j + 1) with (Z.of_nat (S j)) by lia.
Qed.

Lemma copath_correct_witness : leaf_in 3 5 /\ length (copath 5 (tree_size 3)) = 3%nat.
Proof.
  assert (H : leaf_in 3 5) by (repeat split; simpl; lia).
  split; [exact H|]. etransitivity; [apply (copath_correct 3 5 H); lia|]. reflexivity.
Defined.

(** The lowest common ancestor of two different leaves is the first node
    of the path they share: [common_direct_path] starts with it, is the rest
    of both direct paths from there on, and no node below it is shared. *)
Theorem lowest_common_ancestor_correct (h a b : Z) :
  leaf_in h a -> leaf_in h b -> a <> b ->
  let pa := direct_path a (tree_size h) in
  let pb := direct_path b (tree_size h) in
  let cp := common_direct_path a b (tree_size h) in
  head cp = Some (lowest_common_ancestor a b) /\
  exists n, pa = take n pa ++ cp /\ pb = take n pb ++ cp /\
            (forall i x y, (i < n)%nat -> pa !! i = Some x -> pb !! i = Some y -> x <> y).
Proof.
  intros Ha Hb Hne pa pb cp. destruct (meet_at_exists h a b Ha Hb) as (j & Hj & Hjh).
  assert (Hj0 : 0 < j).
  { destruct Hj as (? & Ej & _). destruct (Z.eq_dec j 0) as [->|]; [|lia].
    rewrite !Z.div_1_r in Ej. lia. }
  assert (Ea : cp = drop (Z.to_nat (j - 1)) pa) by (by apply common_direct_path_spec).
  assert (Eb : cp = drop (Z.to_nat (j - 1)) pb).
  { rewrite Ea. apply list_eq. intros i. rewrite !lookup_drop. pose proof Ha as [[? ?] ?].
    destruct (decide (Z.to_nat (j - 1) + i < Z.to_nat h)%nat).
    - unfold pa, pb. rewrite !direct_path_lookup by done. do 2 f_equal.
      apply (meet_at_above a b j); [done|lia].
    - unfold pa, pb. rewrite !lookup_ge_None_2 by (rewrite length_direct_path by done; lia). done. }
  split.
  - rewrite Ea, head_lookup, lookup_drop, Nat.add_0_r. unfold pa.
    rewrite direct_path_lookup by (done || lia). rewrite (lca_spec h a b j) by done.
    by replace (Z.of_nat (Z.to_nat (j - 1)) + 1) with j by lia.
  - exists (Z.to_nat (j - 1)). split; [rewrite Ea; by rewrite take_drop|].
    split; [rewrite Eb; by rewrite take_drop|]. intros i x y Hi Hx Hy E. subst y.
    unfold pa in Hx. unfold pb in Hy. rewrite direct_path_lookup in Hx, Hy by (done || lia).
    destruct Hj as (_ & _ & Hm). apply (Hm (Z.of_nat i + 1)); [lia|].
    eapply pnode_inj; [eapply coord_path; [exact Ha|lia]|eapply coord_path; [exact Hb|lia]| | |];
      [lia|lia|congruence].
Qed.

Lemma lowest_common_ancestor_correct_witness :
  leaf_in 3 4 /\ leaf_in 3 6 /\ head (common_direct_path 4 6 (tree_size 3)) = Some 5.
Proof.
  assert (H : leaf_in 3 4) by (repeat split; simpl; lia).
  assert (H' : leaf_in 3 6) by (repeat split; simpl; lia).
  split; [exact H|]. split; [exact H'|].
  etransitivity; [apply (lowest_common_ancestor_correct 3 4 6 H H'); lia|]. reflexivity.
Defined.

(** [TreeSize::new] rounds a node count up to the smallest full tree that
    holds it, and growing or shrinking a tree by one level doubles or halves
    its leaves and undo each other. *)
Theorem tree_size_correct (n h : Z) :
  0 < n <= MAX_TREE_SIZE -> 0 < h <= 29 ->
  n <= TreeSize_new n < 2 * n /\
  (exists k, 0 <= k /\ TreeSize_new n = tree_size k) /\
  TreeSize_leaf_count (TreeSize_dec (tree_size h)) * 2 = TreeSize_leaf_count (tree_size h) /\
  TreeSize_parent_count (tree_size h) + 1 = TreeSize_leaf_count (tree_size h) /\
  TreeSize_dec (TreeSize_inc (tree_size (h - 1))) = tree_size (h - 1) /\
  TreeSize_inc (TreeSize_dec (tree_size h)) = tree_size h.
Proof.
  intros Hn Hh. rewrite TreeSize_new_spec by done. pose proof (Z.log2_nonneg n).
  pose proof (Z.log2_spec n ltac:(lia)) as [? Hlt]. rewrite <- Z.add_1_r in Hlt.
  assert (height h) by (split; lia). assert (height (h - 1)) by (split; lia).
  rewrite (TreeSize_inc_spec (h - 1)), TreeSize_dec_spec by (done || lia).
  replace (h - 1 + 1) with h by lia. rewrite TreeSize_dec_spec by (done || lia).
  rewrite TreeSize_inc_spec, !TreeSize_leaf_count_spec, TreeSize_parent_count_spec by done.
  replace (h - 1 + 1) with h by lia. unfold tree_size. rewrite (pow2_succ (Z.log2 n)) in * by lia.
  repeat split; try lia.
  - exists (Z.log2 n). split; [done|]. rewrite pow2_succ by lia. done.
  - rewrite (pow2_pred h) by lia. lia.
Qed.

Lemma tree_size_correct_witness : TreeSize_new 5 = 7 /\ 5 <= TreeSize_new 5 < 2 * 5.
Proof. split; [reflexivity|]. apply (tree_size_correct 5 3); unfold MAX_TREE_SIZE; lia. Defined.
