(* ===== verification/SortedIter.v ===== *)
(** * Merging iterators

    Models [binary_tree/array_representation/sorted_iter.rs] and
    [reversed_sorted_iter.rs]: an iterator over two sorted inputs [a] and [b]
    that yields every key once, prefers [a] where both inputs have a key, and
    stops after [size] items.  The iterator is its state; [next] is the method,
    [collect] the loop a consumer runs. *)

From S2P Require Import Prelude.

Section SortedIter.
Context {Item : Type} (cmp : Item -> Z).

Record SortedIter := mkSortedIter {
  si_a : list Item;
  si_b : list Item;
  si_size : nat;
  si_counter : nat
}.

Definition sorted_iter (a b : list Item) (size : nat) : SortedIter :=
  {| si_a := a; si_b := b; si_size := size; si_counter := 0 |}.

Definition next (s : SortedIter) : option Item * SortedIter :=
  if (si_counter s =? si_size s)%nat then (None, s)
  else
    let counter := S (si_counter s) in
    match si_a s, si_b s with
    | x :: a, y :: b =>
        match Z.compare (cmp x) (cmp y) with
        | Lt => (Some x, mkSortedIter a (y :: b) (si_size s) counter)
        | Eq => (Some x, mkSortedIter a b (si_size s) counter)
        | Gt => (Some y, mkSortedIter (x :: a) b (si_size s) counter)
        end
    | x :: a, [] => (Some x, mkSortedIter a [] (si_size s) counter)
    | [], y :: b => (Some y, mkSortedIter [] b (si_size s) counter)
    | [], [] => (None, mkSortedIter [] [] (si_size s) counter)
    end.

Definition reversed_next (s : SortedIter) : option Item * SortedIter :=
  if (si_counter s =? si_size s)%nat then (None, s)
  else
    let counter := S (si_counter s) in
    match si_a s, si_b s with
    | x :: a, y :: b =>
        match Z.compare (cmp x) (cmp y) with
        | Lt => (Some y, mkSortedIter (x :: a) b (si_size s) counter)
        | Eq => (Some x, mkSortedIter a b (si_size s) counter)
        | Gt => (Some x, mkSortedIter a (y :: b) (si_size s) counter)
        end
    | x :: a, [] => (Some x, mkSortedIter a [] (si_size s) counter)
    | [], y :: b => (Some y, mkSortedIter [] b (si_size s) counter)
    | [], [] => (None, mkSortedIter [] [] (si_size s) counter)
    end.

(** A consumer that calls [next] until it returns [None].  Every call that
    yields an item takes one from the inputs, so [length a + length b + 1]
    calls are enough. *)
Fixpoint collect (step : SortedIter -> option Item * SortedIter)
    (fuel : nat) (s : SortedIter) : list Item :=
  match fuel with
  | O => []
  | S fuel =>
      match step s with
      | (Some x, s') => x :: collect step fuel s'
      | (None, _) => []
      end
  end.

Definition sorted_iter_collect (a b : list Item) (size : nat) : list Item :=
  collect next (length a + length b + 1) (sorted_iter a b size).

Definition reversed_sorted_iter_collect (a b : list Item) (size : nat) : list Item :=
  collect reversed_next (length a + length b + 1) (sorted_iter a b size).

(** ** Specification *)

(** The merge of two lists by key, [a] winning on equal keys. *)
Fixpoint merge (a : list Item) : list Item -> list Item :=
  fix merge_b (b : list Item) : list Item :=
    match a, b with
    | [], _ => b
    | _, [] => a
    | x :: a', y :: b' =>
        match Z.compare (cmp x) (cmp y) with
        | Lt => x :: merge a' b
        | Eq => x :: merge a' b'
        | Gt => y :: merge_b b'
        end
    end.

Definition key_sorted (l : list Item) : Prop := StronglySorted Z.lt (map cmp l).

Lemma merge_nil_l b : merge [] b = b.
Proof. by destruct b. Qed.

Lemma merge_nil_r a : merge a [] = a.
Proof. by destruct a. Qed.

Lemma merge_cons x a y b :
  merge (x :: a) (y :: b) =
  match Z.compare (cmp x) (cmp y) with
  | Lt => x :: merge a (y :: b)
  | Eq => x :: merge a b
  | Gt => y :: merge (x :: a) b
  end.
Proof. simpl. by destruct (cmp x ?= cmp y). Qed.

Lemma collect_merge fuel a b size c :
  (length a + length b < fuel)%nat -> (c <= size)%nat ->
  collect next fuel (mkSortedIter a b size c) = take (size - c) (merge a b).
Proof.
  revert a b c. induction fuel as [|fuel IH]; intros a b c Hf Hc; [lia|].
  simpl collect. unfold next. simpl.
  destruct (Nat.eqb_spec c size) as [->|Hne]; [by rewrite Nat.sub_diag|].
  replace (size - c)%nat with (S (size - S c)) by lia.
  destruct a as [|x a], b as [|y b]; simpl in Hf.
  - done.
  - rewrite IH, !merge_nil_l by (simpl; lia). done.
  - rewrite IH, merge_nil_r by (simpl; lia). done.
  - rewrite merge_cons. destruct (cmp x ?= cmp y); rewrite IH by (simpl; lia); done.
Qed.

Lemma sorted_iter_collect_merge a b size : sorted_iter_collect a b size = take size (merge a b).
Proof. unfold sorted_iter_collect, sorted_iter. rewrite collect_merge by lia. by rewrite Nat.sub_0_r. Qed.

Lemma key_sorted_cons x l :
  key_sorted (x :: l) <-> key_sorted l /\ Forall (fun y => cmp x < cmp y) l.
Proof.
  unfold key_sorted. simpl. split.
  - intros H. inversion H; subst. split; [done|]. by apply Forall_map.
  - intros [? ?]. constructor; [done|]. by apply Forall_map.
Qed.

Lemma merge_elem_of a b x : key_sorted a -> key_sorted b ->
  x ∈ merge a b <-> x ∈ a \/ (x ∈ b /\ cmp x ∉ map cmp a).
Proof.
  revert b. induction a as [|u a IHa]; intros b.
  - intros _ _. rewrite merge_nil_l. simpl. rewrite elem_of_nil. split; [|tauto].
    intros Hx. right. split; [done|]. apply not_elem_of_nil.
  - induction b as [|v b IHb]; intros Ha Hb.
    + rewrite merge_nil_r, elem_of_nil. tauto.
    + pose proof Ha as [Ha' Hu]%key_sorted_cons. pose proof Hb as [Hb' Hv]%key_sorted_cons.
      rewrite Forall_forall in Hu, Hv. rewrite merge_cons.
      assert (Hlt : forall z l w, (forall y, y ∈ l -> cmp w < cmp y) -> cmp w <= z -> z <= cmp w ->
                z ∉ map cmp l).
      { intros z l w Hl ? ? (y & -> & Hy)%list_elem_of_fmap. specialize (Hl y Hy). lia. }
      destruct (Z.compare_spec (cmp u) (cmp v)) as [E|E|E].
      * rewrite elem_of_cons, IHa by done. simpl map. rewrite !elem_of_cons. split.
        -- intros [->|[?|[? ?]]]; [by left; left|by left; right|]. right.
           split; [by right|]. intros [Ex|]; [|done]. specialize (Hv x). by apply Hv in H; lia.
        -- intros [[->|?]|[[->|?] Hn]]; [by left|by right; left| |].
           ++ exfalso. apply Hn. left. lia.
           ++ right; right. split; [done|]. intros ?. apply Hn. by right.
      * rewrite elem_of_cons, IHa by done. simpl map. rewrite !elem_of_cons. split.
        -- intros [->|[?|[? ?]]]; [by left; left|by left; right|]. right. split; [done|].
           intros [Ex|]; [|done]. destruct H as [->|H]; [lia|]. specialize (Hv x H). lia.
        -- intros [[->|?]|[? Hn]]; [by left|by right; left|]. right; right. split; [done|].
           intros ?. apply Hn. by right.
      * rewrite elem_of_cons, IHb by done. rewrite !elem_of_cons. split.
        -- intros [->|[?|[? ?]]]; [|by left|by right; split; [right|]].
           right. split; [by left|]. simpl. rewrite elem_of_cons. intros [?|?]; [lia|].
           apply list_elem_of_fmap in H as (y & Ey & Hy). specialize (Hu y Hy). lia.
        -- intros [?|[[->|?] ?]]; [by right; left|by left|by right; right].
Qed.

Lemma merge_sorted a b : key_sorted a -> key_sorted b -> key_sorted (merge a b).
Proof.
  revert b. induction a as [|u a IHa]; intros b; [by destruct b|].
  induction b as [|v b IHb]; intros Ha Hb; [by rewrite merge_nil_r|].
  pose proof Ha as [Ha' Hu]%key_sorted_cons. pose proof Hb as [Hb' Hv]%key_sorted_cons.
  rewrite Forall_forall in Hu, Hv. rewrite merge_cons.
  destruct (Z.compare_spec (cmp u) (cmp v)) as [E|E|E];
    apply key_sorted_cons; (split; [auto|]); apply Forall_forall; intros z Hz;
    apply merge_elem_of in Hz as [Hz|[Hz _]]; try done; auto.
  - specialize (Hv z Hz). lia.
  - apply elem_of_cons in Hz as [->|Hz]; [done|]. specialize (Hv z Hz). lia.
  - apply elem_of_cons in Hz as [->|Hz]; [lia|]. specialize (Hu z Hz). lia.
Qed.
End SortedIter.

#[global] Arguments SortedIter : clear implicits.

(** Walking the inputs from the right is walking them from the left with the
    order of the keys turned round. *)
Lemma reversed_next_next {Item} (cmp : Item -> Z) (s : SortedIter Item) :
  reversed_next cmp s = next (fun x => - cmp x) s.
Proof.
  unfold reversed_next, next. destruct (_ =? _)%nat; [done|].
  destruct (si_a s) as [|x a], (si_b s) as [|y b]; try done.
  rewrite Z.compare_opp, (Z.compare_antisym (cmp x) (cmp y)). by destruct (cmp x ?= cmp y).
Qed.

Lemma collect_ext {Item} (f g : SortedIter Item -> option Item * SortedIter Item) fuel s :
  (forall s, f s = g s) -> collect f fuel s = collect g fuel s.
Proof.
  intros H. revert s. induction fuel as [|fuel IH]; intros s; simpl; [done|].
  rewrite H. destruct (g s) as [[x|] s']; [|done]. by rewrite IH.
Qed.

Lemma reversed_sorted_iter_collect_merge {Item} (cmp : Item -> Z) a b size :
  reversed_sorted_iter_collect cmp a b size = take size (merge (fun x => - cmp x) a b).
Proof.
  unfold reversed_sorted_iter_collect.
  rewrite (collect_ext _ (next (fun x => - cmp x))) by apply reversed_next_next.
  apply sorted_iter_collect_merge.
Qed.

Lemma key_sorted_take {Item} (cmp : Item -> Z) l n : key_sorted cmp l -> key_sorted cmp (take n l).
Proof.
  revert n. induction l as [|x l IH]; intros [|n]; try done; [constructor|].
  simpl. rewrite !key_sorted_cons. intros [? ?]. split; [auto|]. by apply Forall_take.
Qed.

(** On sorted inputs the iterator yields its items in increasing key
    order, each key once; with a size that is no bound it yields exactly the
    items of [a] and those of [b] whose key [a] does not have; with any size it
    yields the first [size] of them. *)
Theorem sorted_iter_correct {Item} (cmp : Item -> Z) (a b : list Item) (size : nat) :
  key_sorted cmp a -> key_sorted cmp b ->
  let all := sorted_iter_collect cmp a b (length a + length b) in
  key_sorted cmp (sorted_iter_collect cmp a b size) /\
  (forall x, x ∈ all <-> x ∈ a \/ (x ∈ b /\ cmp x ∉ map cmp a)) /\
  sorted_iter_collect cmp a b size = take size (merge cmp a b) /\
  all = merge cmp a b.
Proof.
  intros Ha Hb all.
  assert (E : all = merge cmp a b).
  { unfold all. rewrite sorted_iter_collect_merge. apply take_ge.
    clear. revert b. induction a as [|x a IHa]; intros b; [by destruct b; simpl; lia|].
    induction b as [|y b IHb]; [rewrite merge_nil_r; simpl; lia|]. rewrite merge_cons.
    specialize (IHa b) as I1. specialize (IHa (y :: b)) as I2.
    destruct (cmp x ?= cmp y); simpl in *; lia. }
  rewrite E, sorted_iter_collect_merge. repeat split.
  - apply key_sorted_take. by apply merge_sorted.
  - by apply merge_elem_of.
  - by apply merge_elem_of.
Qed.

Lemma sorted_iter_correct_witness :
  key_sorted fst [(1, 1); (2, 1); (3, 1)] /\
  sorted_iter_collect fst [(1, 1); (2, 1); (3, 1)] [(1, 2); (2, 2); (4, 2)] 4 =
    take 4 [(1, 1); (2, 1); (3, 1); (4, 2)].
Proof.
  assert (Ha : key_sorted fst [(1, 1); (2, 1); (3, 1)])
    by (repeat constructor; simpl; lia).
  assert (Hb : key_sorted fst [(1, 2); (2, 2); (4, 2)])
    by (repeat constructor; simpl; lia).
  split; [exact Ha|].
  etransitivity; [apply (sorted_iter_correct fst _ _ 4 Ha Hb)|]. reflexivity.
Defined.
