(* ===== verification/BinaryTree.v ===== *)
(** * The binary tree and its diffs

    Models [binary_tree/array_representation/tree.rs] ([ABinaryTree]) and
    [diff.rs] ([AbDiff], [StagedAbDiff]).  A tree keeps its leaves and its
    parents in two vectors; a diff overlays a tree with changed nodes (two
    [BTreeMap]s) and a new size, and is merged back as a whole.

    The main theorem is that merging realises the diff: the merged tree has
    the size the diff announced, and reads of the merged tree are reads of the
    diff. *)

From S2P Require Import Prelude TreeMath SortedIter.

(** ** The code *)

Inductive TreeNode (L P : Type) : Type :=
| TreeNode_Leaf (l : L)
| TreeNode_Parent (p : P).
Arguments TreeNode_Leaf {L P} _.
Arguments TreeNode_Parent {L P} _.

Inductive ABinaryTreeError : Type :=
| OutOfRange
| InvalidNumberOfNodes
| WrongNodeType.

Inductive ABinaryTreeDiffError : Type :=
| TreeTooLarge
| TreeTooSmall.

Section BinaryTree.
Context {L P : Type} `{!Default L} `{!Default P}.

Record ABinaryTree := mkABinaryTree {
  leaf_nodes : list L;
  parent_nodes : list P;
  default_leaf : L;
  default_parent : P
}.

(** The loop of [ABinaryTree::new]: splits the nodes by type, [i] is the
    position of the next node. *)
Fixpoint split_nodes (i : nat) (nodes : list (TreeNode L P)) :
    ABinaryTreeError + (list L * list P) :=
  match nodes with
  | [] => inr ([], [])
  | TreeNode_Leaf l :: nodes =>
      if (i mod 2 =? 0)%nat
      then match split_nodes (S i) nodes with
           | inr (leaf_nodes, parent_nodes) => inr (l :: leaf_nodes, parent_nodes)
           | inl e => inl e
           end
      else inl WrongNodeType
  | TreeNode_Parent p :: nodes =>
      if (i mod 2 =? 1)%nat
      then match split_nodes (S i) nodes with
           | inr (leaf_nodes, parent_nodes) => inr (leaf_nodes, p :: parent_nodes)
           | inl e => inl e
           end
      else inl WrongNodeType
  end.

Definition ABinaryTree_new (nodes : list (TreeNode L P)) : ABinaryTreeError + ABinaryTree :=
  if MAX_TREE_SIZE <? Z.of_nat (length nodes) then inl OutOfRange
  else if negb (length nodes mod 2 =? 1)%nat then inl InvalidNumberOfNodes
  else match split_nodes 0 nodes with
       | inl e => inl e
       | inr (leaf_nodes, parent_nodes) =>
           inr {| leaf_nodes := leaf_nodes; parent_nodes := parent_nodes;
                  default_leaf := default_value; default_parent := default_value |}
       end.

Definition leaf_by_index (t : ABinaryTree) (leaf_index : LeafNodeIndex) : L :=
  default (default_leaf t) (leaf_nodes t !! Z.to_nat leaf_index).

Definition parent_by_index (t : ABinaryTree) (parent_index : ParentNodeIndex) : P :=
  default (default_parent t) (parent_nodes t !! Z.to_nat parent_index).

(** [self.leaf] and [self.parent] have the same bodies. *)
Definition ABinaryTree_leaf := leaf_by_index.
Definition ABinaryTree_parent := parent_by_index.

Definition ABinaryTree_tree_size (t : ABinaryTree) : TreeSize :=
  TreeSize_new (u32_wrap (Z.of_nat (length (leaf_nodes t) + length (parent_nodes t)))).

Definition ABinaryTree_leaf_count (t : ABinaryTree) : Z :=
  u32_wrap (Z.of_nat (length (leaf_nodes t))).
Definition ABinaryTree_parent_count (t : ABinaryTree) : Z :=
  u32_wrap (Z.of_nat (length (parent_nodes t))).

Definition ABinaryTree_leaves (t : ABinaryTree) : list (LeafNodeIndex * L) :=
  enumerate (leaf_nodes t).
Definition ABinaryTree_leaves_rev (t : ABinaryTree) : list (LeafNodeIndex * L) :=
  rev (enumerate (leaf_nodes t)).
Definition ABinaryTree_parents (t : ABinaryTree) : list (ParentNodeIndex * P) :=
  enumerate (parent_nodes t).

Definition subtree_path (t : ABinaryTree) (leaf_index_1 leaf_index_2 : LeafNodeIndex) :
    list ParentNodeIndex :=
  common_direct_path leaf_index_1 leaf_index_2 (ABinaryTree_tree_size t).

Record StagedAbDiff := mkStagedAbDiff {
  staged_leaf_diff : gmap Z L;
  staged_parent_diff : gmap Z P;
  staged_size : TreeSize
}.

(** The loop that writes one map into one vector, in index order: a write
    outside the vector is a [debug_assert] and does nothing in release. *)
Definition write_all {V} (nodes : list V) (diff : gmap Z V) : list V :=
  foldl (fun nodes '(i, x) => <[Z.to_nat i := x]> nodes) nodes (btree_iter diff).

Definition merge_diff (t : ABinaryTree) (diff : StagedAbDiff) : ABinaryTree :=
  let tree_size := staged_size diff in
  let leaves := resize (Z.to_nat (TreeSize_leaf_count tree_size)) default_value (leaf_nodes t) in
  let parents := resize (Z.to_nat (TreeSize_parent_count tree_size)) default_value (parent_nodes t) in
  {| leaf_nodes := write_all leaves (staged_leaf_diff diff);
     parent_nodes := write_all parents (staged_parent_diff diff);
     default_leaf := default_leaf t;
     default_parent := default_parent t |}.

Record AbDiff := mkAbDiff {
  original_tree : ABinaryTree;
  leaf_diff : gmap Z L;
  parent_diff : gmap Z P;
  diff_size : TreeSize;
  diff_default_leaf : L;
  diff_default_parent : P
}.

Definition empty_diff (tree : ABinaryTree) : AbDiff :=
  {| original_tree := tree; leaf_diff := ∅; parent_diff := ∅;
     diff_size := ABinaryTree_tree_size tree;
     diff_default_leaf := default_value; diff_default_parent := default_value |}.

(** [From<AbDiff> for StagedAbDiff] *)
Definition stage (d : AbDiff) : StagedAbDiff :=
  {| staged_leaf_diff := leaf_diff d; staged_parent_diff := parent_diff d;
     staged_size := diff_size d |}.

Definition AbDiff_leaf_count (d : AbDiff) : Z := TreeSize_leaf_count (diff_size d).
Definition AbDiff_parent_count (d : AbDiff) : Z := TreeSize_parent_count (diff_size d).

Definition with_diffs (d : AbDiff) (ld : gmap Z L) (pd : gmap Z P) (size : TreeSize) : AbDiff :=
  {| original_tree := original_tree d; leaf_diff := ld; parent_diff := pd; diff_size := size;
     diff_default_leaf := diff_default_leaf d; diff_default_parent := diff_default_parent d |}.

Definition grow_tree (d : AbDiff) : ABinaryTreeDiffError + AbDiff :=
  if MAX_TREE_SIZE / 2 <? diff_size d then inl TreeTooLarge
  else inr (with_diffs d (leaf_diff d) (parent_diff d) (TreeSize_inc (diff_size d))).

Definition shrink_tree (d : AbDiff) : ABinaryTreeDiffError + AbDiff :=
  if diff_size d <=? MIN_TREE_SIZE then inl TreeTooSmall
  else
    let size := TreeSize_dec (diff_size d) in
    let ld := filter (fun kv => kv.1 < TreeSize_leaf_count size) (leaf_diff d) in
    let pd := filter (fun kv => kv.1 < TreeSize_parent_count size) (parent_diff d) in
    inr (with_diffs d ld pd size).

Definition replace_leaf (d : AbDiff) (leaf_index : LeafNodeIndex) (new_leaf : L) : AbDiff :=
  with_diffs d (<[leaf_index := new_leaf]> (leaf_diff d)) (parent_diff d) (diff_size d).

Definition replace_parent (d : AbDiff) (parent_index : ParentNodeIndex) (node : P) : AbDiff :=
  with_diffs d (leaf_diff d) (<[parent_index := node]> (parent_diff d)) (diff_size d).

Definition AbDiff_leaves (d : AbDiff) : list (LeafNodeIndex * L) :=
  sorted_iter_collect fst (btree_iter (leaf_diff d)) (ABinaryTree_leaves (original_tree d))
    (Z.to_nat (AbDiff_leaf_count d)).

Definition AbDiff_leaves_rev (d : AbDiff) : list (LeafNodeIndex * L) :=
  reversed_sorted_iter_collect fst (rev (btree_iter (leaf_diff d)))
    (ABinaryTree_leaves_rev (original_tree d)) (Z.to_nat (AbDiff_leaf_count d)).

Definition diff_leaves (d : AbDiff) : list (LeafNodeIndex * L) := btree_iter (leaf_diff d).

Definition AbDiff_parents (d : AbDiff) : list (ParentNodeIndex * P) :=
  sorted_iter_collect fst (btree_iter (parent_diff d)) (ABinaryTree_parents (original_tree d))
    (Z.to_nat (AbDiff_parent_count d)).

Definition AbDiff_direct_path (d : AbDiff) (leaf_index : LeafNodeIndex) : list ParentNodeIndex :=
  direct_path leaf_index (diff_size d).

Definition set_direct_path_to_node (d : AbDiff) (leaf_index : LeafNodeIndex) (node : P) : AbDiff :=
  foldl (fun d node_index => replace_parent d node_index node) d (AbDiff_direct_path d leaf_index).

Definition AbDiff_copath (d : AbDiff) (leaf_index : LeafNodeIndex) : list TreeNodeIndex :=
  copath leaf_index (diff_size d).

Definition subtree_root_copath_node (d : AbDiff) (leaf_index_1 leaf_index_2 : LeafNodeIndex) :
    TreeNodeIndex :=
  let subtree_root_node_index := lowest_common_ancestor leaf_index_1 leaf_index_2 in
  if leaf_index_2 <? leaf_index_1
  then left subtree_root_node_index
  else right subtree_root_node_index.

Definition AbDiff_root (d : AbDiff) : TreeNodeIndex := root (diff_size d).

Definition AbDiff_leaf (d : AbDiff) (leaf_index : LeafNodeIndex) : L :=
  match leaf_diff d !! leaf_index with
  | Some node => node
  | None =>
      if AbDiff_leaf_count d <=? leaf_index then diff_default_leaf d
      else leaf_by_index (original_tree d) leaf_index
  end.

Definition AbDiff_parent (d : AbDiff) (parent_index : ParentNodeIndex) : P :=
  match parent_diff d !! parent_index with
  | Some node => node
  | None => parent_by_index (original_tree d) parent_index
  end.

(** [parent_mut] hands out a mutable reference; the model applies what the
    caller writes through it. *)
Definition parent_mut (d : AbDiff) (parent_index : ParentNodeIndex) (f : P -> P) : AbDiff :=
  match parent_diff d !! parent_index with
  | Some node => replace_parent d parent_index (f node)
  | None => replace_parent d parent_index (f (parent_by_index (original_tree d) parent_index))
  end.
End BinaryTree.

Arguments ABinaryTree : clear implicits.
Arguments AbDiff : clear implicits.
Arguments StagedAbDiff : clear implicits.

(** ** Iterating over an overlay *)

(** Reading index [i] of the vector [l] overlaid with the changes [m]. *)
Definition overlay {V} (m : gmap Z V) (l : list V) (i : Z) : option V :=
  match m !! i with Some x => Some x | None => l !! Z.to_nat i end.

Definition overlay_items {V} (m : gmap Z V) (l : list V) (n : Z) : list (Z * V) :=
  omap (fun i => (fun x => (i, x)) <$> overlay m l i) (seqZ 0 n).

Lemma overlay_items_elem_of {V} (m : gmap Z V) l n i x :
  (i, x) ∈ overlay_items m l n <-> 0 <= i < n /\ overlay m l i = Some x.
Proof.
  unfold overlay_items. rewrite list_elem_of_omap. split.
  - intros (j & Hj%elem_of_seqZ & E). destruct (overlay m l j) eqn:Eo; simpl in E; [|done].
    injection E as <- <-. split; [lia|done].
  - intros [Hi E]. exists i. rewrite elem_of_seqZ, E. split; [lia|done].
Qed.

Lemma overlay_items_sorted {V} (m : gmap Z V) l n : key_sorted fst (overlay_items m l n).
Proof.
  unfold overlay_items. destruct (Z.le_gt_cases 0 n) as [Hn|Hn].
  2: { unfold seqZ. rewrite Z2Nat.nonpos by lia. constructor. }
  pattern n. apply natlike_ind; [constructor| |done]. clear n Hn. intros n Hn IH.
  rewrite seqZ_snoc, omap_app by done. unfold key_sorted in *. rewrite map_app.
  assert (Hall : Forall (fun z => z < n) (map fst (omap (fun i => (fun x => (i, x)) <$> overlay m l i) (seqZ 0 n)))).
  { rewrite Forall_map, Forall_forall. intros [i x]. rewrite (overlay_items_elem_of m l n).
    simpl. lia. }
  simpl. destruct (overlay m l n); simpl; [|by rewrite app_nil_r].
  clear -IH Hall. induction (map fst _) as [|z zs IHz]; simpl in *; [repeat constructor|].
  apply StronglySorted_inv in IH as [Hs Hz]. apply Forall_cons in Hall as [? ?].
  constructor; [auto|]. apply Forall_app. split; [done|]. by repeat constructor.
Qed.

Lemma merge_overlay {V} (m : gmap Z V) (l : list V) n :
  Z.of_nat (length l) <= n -> (forall i x, m !! i = Some x -> 0 <= i < n) ->
  merge fst (btree_iter m) (enumerate l) = overlay_items m l n.
Proof.
  intros Hl Hm. eapply (StronglySorted_lt_unique fst).
  - apply merge_sorted; [apply btree_iter_sorted|apply enumerate_sorted].
  - apply overlay_items_sorted.
  - intros [i x]. rewrite merge_elem_of by (apply btree_iter_sorted || apply enumerate_sorted).
    rewrite btree_iter_elem_of, enumerate_elem_of, overlay_items_elem_of. unfold overlay. simpl.
    split.
    + intros [Hi|[[Hi Hx] Hn]].
      * rewrite Hi. split; [by eapply Hm|done].
      * apply lookup_lt_Some in Hx as Hlt. split; [lia|].
        destruct (m !! i) as [y|] eqn:E; [|done]. exfalso. apply Hn.
        apply list_elem_of_fmap. exists (i, y). by rewrite btree_iter_elem_of.
    + intros [Hi E]. destruct (m !! i) as [y|] eqn:Em; [by left|]. right. split; [split; [lia|done]|].
      intros ([j y] & -> & Hy)%list_elem_of_fmap. rewrite btree_iter_elem_of in Hy. simpl in *. congruence.
Qed.

Lemma overlay_items_full {V} (m : gmap Z V) l n n' : 0 <= n <= n' ->
  (forall i, 0 <= i < n' -> is_Some (overlay m l i)) ->
  take (Z.to_nat n) (overlay_items m l n') = overlay_items m l n.
Proof.
  intros Hn Hall. unfold overlay_items.
  replace n' with (n + (n' - n)) by lia. rewrite seqZ_app, omap_app by lia.
  assert (Hlen : forall k, 0 <= k <= n' ->
    length (omap (fun i => (fun x => (i, x)) <$> overlay m l i) (seqZ 0 k)) = Z.to_nat k).
  { intros k Hk. destruct Hk as [Hk0 Hk]. revert Hk. pattern k. apply natlike_ind; [done| |done].
    clear k Hk0. intros k Hk0 IHk Hk. rewrite seqZ_snoc, omap_app, length_app, IHk by lia. simpl.
    destruct (Hall k ltac:(lia)) as [x ->]. simpl. lia. }
  rewrite take_app_le, take_ge by (rewrite Hlen; lia). done.
Qed.

Lemma length_overlay_items {V} (m : gmap Z V) l n : (length (overlay_items m l n) <= Z.to_nat n)%nat.
Proof.
  unfold overlay_items. rewrite <- (length_seqZ 0 n).
  generalize (seqZ 0 n). intros s. induction s as [|i s IH]; simpl; [lia|].
  unfold omap in IH. destruct (overlay m l i); simpl; lia.
Qed.

(** The iterators of a diff list the overlay, cut at the diff's size. *)
Lemma sorted_iter_overlay {V} (m : gmap Z V) (l : list V) n : 0 <= n ->
  (forall i x, m !! i = Some x -> 0 <= i < n) ->
  sorted_iter_collect fst (btree_iter m) (enumerate l) (Z.to_nat n) = overlay_items m l n.
Proof.
  intros Hn Hm. rewrite sorted_iter_collect_merge.
  rewrite (merge_overlay m l (Z.max n (Z.of_nat (length l)))); [|lia|].
  2: { intros i x Hi. apply Hm in Hi. lia. }
  destruct (Z.le_gt_cases (Z.of_nat (length l)) n) as [Hle|Hgt].
  - rewrite Z.max_l by lia. apply take_ge. apply length_overlay_items.
  - rewrite Z.max_r by lia. apply overlay_items_full; [lia|]. intros i Hi. unfold overlay.
    destruct (m !! i); [done|]. apply lookup_lt_is_Some. lia.
Qed.

(** ** Merging writes the overlay *)

Lemma foldl_insert_other {V} (ws : list (Z * V)) (l : list V) j :
  (forall i x, (i, x) ∈ ws -> 0 <= i /\ Z.to_nat i <> j) ->
  foldl (fun l '(i, x) => <[Z.to_nat i := x]> l) l ws !! j = l !! j.
Proof.
  revert l. induction ws as [|[i x] ws IH]; intros l H; simpl; [done|].
  rewrite IH by (intros; apply (H _ x0); by right).
  apply list_lookup_insert_ne. by destruct (H i x); [left|].
Qed.

Lemma foldl_insert_length {V} (ws : list (Z * V)) (l : list V) :
  length (foldl (fun l '(i, x) => <[Z.to_nat i := x]> l) l ws) = length l.
Proof.
  revert l. induction ws as [|[i x] ws IH]; intros l; simpl; [done|]. by rewrite IH, length_insert.
Qed.

Lemma length_write_all {V} (l : list V) m : length (write_all l m) = length l.
Proof. apply foldl_insert_length. Qed.

Lemma foldl_insert_in {V} (ws : list (Z * V)) (l : list V) i x :
  StronglySorted Z.lt (map fst ws) -> Forall (fun w => 0 <= w.1) ws -> (i, x) ∈ ws ->
  i < Z.of_nat (length l) ->
  foldl (fun l '(i, x) => <[Z.to_nat i := x]> l) l ws !! Z.to_nat i = Some x.
Proof.
  revert l. induction ws as [|[j y] ws IH]; intros l Hs Hpos Hin Hlen; [by apply not_elem_of_nil in Hin|].
  simpl in Hs. apply StronglySorted_inv in Hs as [Hs Hj]. apply Forall_cons in Hpos as [Hj0 Hpos].
  rewrite Forall_map, Forall_forall in Hj. rewrite Forall_forall in Hpos. simpl in *.
  apply elem_of_cons in Hin as [[= -> ->]|Hin].
  - rewrite foldl_insert_other.
    + apply list_lookup_insert_eq. lia.
    + intros i x Hix. specialize (Hj _ Hix). specialize (Hpos _ Hix). simpl in *. lia.
  - apply IH; [done|by apply Forall_forall|done|by rewrite length_insert].
Qed.

Lemma write_all_lookup {V} (l : list V) (m : gmap Z V) i :
  0 <= i < Z.of_nat (length l) -> (forall i x, m !! i = Some x -> 0 <= i) ->
  write_all l m !! Z.to_nat i = overlay m l i.
Proof.
  intros Hi Hm. unfold write_all, overlay. destruct (m !! i) as [x|] eqn:E.
  - apply foldl_insert_in; [apply btree_iter_sorted| |by apply btree_iter_elem_of|lia].
    apply Forall_forall. intros [j y]. rewrite btree_iter_elem_of. apply Hm.
  - apply foldl_insert_other. intros j y Hj%btree_iter_elem_of. specialize (Hm _ _ Hj).
    split; [done|]. intros Hji. assert (j = i) by lia. subst. congruence.
Qed.

(** ** Well-formed trees and diffs *)

Section Wf.
Context {L P : Type} `{!Default L} `{!Default P}.
Implicit Types (t : ABinaryTree L P) (d : AbDiff L P).

Record tree_wf t (h : Z) : Prop := {
  twf_height : height h;
  twf_size : ABinaryTree_tree_size t = tree_size h;
  twf_leaves : 0 < Z.of_nat (length (leaf_nodes t)) <= 2 ^ h;
  twf_parents : length (leaf_nodes t) = S (length (parent_nodes t));
  twf_default_leaf : default_leaf t = default_value;
  twf_default_parent : default_parent t = default_value
}.

Record diff_wf d (h : Z) : Prop := {
  dwf_original : exists h0, tree_wf (original_tree d) h0;
  dwf_height : height h;
  dwf_size : diff_size d = tree_size h;
  dwf_leaves : forall i x, leaf_diff d !! i = Some x -> 0 <= i < 2 ^ h;
  dwf_parents : forall i x, parent_diff d !! i = Some x -> 0 <= i < 2 ^ h - 1;
  dwf_default_leaf : diff_default_leaf d = default_value;
  dwf_default_parent : diff_default_parent d = default_value
}.

Lemma split_nodes_length i (nodes : list (TreeNode L P)) ls ps :
  split_nodes i nodes = inr (ls, ps) ->
  (length ls + length ps = length nodes)%nat /\
  (i mod 2 = 0 -> length ls = (length nodes + 1) / 2)%nat /\
  (i mod 2 = 1 -> length ls = length nodes / 2)%nat.
Proof.
  revert i ls ps. induction nodes as [|n nodes IH]; intros i ls ps H; cbn [split_nodes] in H; cbn [length].
  - injection H as <- <-. repeat split; intros; reflexivity.
  - assert (Hp : (i mod 2 = 0 -> S i mod 2 = 1)%nat /\ (i mod 2 = 1 -> S i mod 2 = 0)%nat).
    { pose proof (Nat.div_mod_eq i 2). pose proof (Nat.div_mod_eq (S i) 2).
      pose proof (Nat.mod_upper_bound (S i) 2). lia. }
    pose proof (Nat.mod_upper_bound i 2 ltac:(lia)).
    assert (Hd : forall a, ((a + 1 + 1) / 2 = S (a / 2))%nat).
    { intros a. replace (a + 1 + 1)%nat with (a + 1 * 2)%nat by lia. rewrite Nat.div_add; lia. }
    destruct n as [l|p].
    + destruct (Nat.eqb_spec (i mod 2) 0); [|done].
      destruct (split_nodes (S i) nodes) as [|[ls' ps']] eqn:E; [done|].
      injection H as <- <-. destruct (IH _ _ _ E) as (H1 & _ & H3). cbn [length].
      split; [lia|]. split; [|lia]. intros _. rewrite H3 by lia.
      replace (S (length nodes)) with (length nodes + 1)%nat by lia. by rewrite Hd.
    + destruct (Nat.eqb_spec (i mod 2) 1); [|done].
      destruct (split_nodes (S i) nodes) as [|[ls' ps']] eqn:E; [done|].
      injection H as <- <-. destruct (IH _ _ _ E) as (H1 & H2 & _). cbn [length].
      split; [lia|]. split; [lia|]. intros _. rewrite H2 by lia. f_equal. lia.
Qed.

Lemma ABinaryTree_new_wf (nodes : list (TreeNode L P)) t :
  ABinaryTree_new nodes = inr t -> exists h, tree_wf t h /\ Z.of_nat (length nodes) <= tree_size h.
Proof.
  unfold ABinaryTree_new. destruct (Z.ltb_spec MAX_TREE_SIZE (Z.of_nat (length nodes))) as [|Hmax]; [done|].
  destruct (Nat.eqb_spec (length nodes mod 2) 1) as [Hodd|]; simpl; [|done].
  destruct (split_nodes 0 nodes) as [e|[ls ps]] eqn:E; [done|]. intros [= <-].
  destruct (split_nodes_length _ _ _ _ E) as (Hl & H0 & _). specialize (H0 eq_refl).
  unfold MAX_TREE_SIZE in Hmax. pose proof (Nat.div_mod_eq (length nodes) 2) as Hdm.
  assert (Hls : length ls = S (length nodes / 2)).
  { rewrite H0. replace (length nodes + 1)%nat with (0 + S (length nodes / 2) * 2)%nat by lia.
    rewrite Nat.div_add by lia. done. }
  set (n := Z.of_nat (length nodes)) in *.
  assert (Hn : 0 < n < 2 ^ 30).
  { unfold n. split; [lia|]. destruct (Z.eq_dec (Z.of_nat (length nodes)) (2 ^ 30)) as [En|]; [|lia].
    exfalso. rewrite Hodd in Hdm. clear -Hdm En. lia. }
  pose proof (Z.log2_spec n ltac:(lia)) as [Hlo Hhi]. rewrite <- Z.add_1_r in Hhi.
  pose proof (Z.log2_nonneg n). assert (Z.log2 n < 30) by (apply Z.log2_lt_pow2; lia).
  exists (Z.log2 n). split; [|unfold tree_size; lia].
  rewrite pow2_succ in Hhi by lia. constructor; simpl; try done.
  - split; lia.
  - unfold ABinaryTree_tree_size. simpl. rewrite Hl. fold n. rewrite u32_wrap_small by lia.
    apply TreeSize_new_spec. unfold MAX_TREE_SIZE. lia.
  - unfold n in *. lia.
  - lia.
Qed.

Lemma empty_diff_wf t h : tree_wf t h -> diff_wf (empty_diff t) h.
Proof.
  intros [Hh Hs]. constructor; simpl; try done.
  - eexists. by constructor.
Qed.

Lemma grow_tree_spec d h : diff_wf d h ->
  match grow_tree d with
  | inr d' => h < 29 /\ diff_wf d' (h + 1) /\ leaf_diff d' = leaf_diff d /\
              parent_diff d' = parent_diff d /\ original_tree d' = original_tree d
  | inl e => e = TreeTooLarge /\ h = 29
  end.
Proof.
  intros [Ho Hh Hs Hl Hp Hdl Hdp]. unfold grow_tree. rewrite Hs. pose proof Hh as [? ?].
  unfold MAX_TREE_SIZE, tree_size. change (2 ^ 30 / 2) with (2 ^ 29).
  destruct (Z.ltb_spec (2 ^ 29) (2 ^ (h + 1) - 1)) as [Hlt|Hge].
  - split; [done|]. destruct (Z.eq_dec h 29); [done|]. pose proof (pow2_le (h + 1) 29). lia.
  - assert (h < 29).
    { destruct (Z.eq_dec h 29) as [->|]; [vm_compute in Hge; done|lia]. }
    split; [done|]. split; [|done]. constructor; simpl; auto.
    + split; lia.
    + rewrite <- TreeSize_inc_spec by done. done.
    + intros i x Hi%Hl. rewrite pow2_succ by lia. lia.
    + intros i x Hi%Hp. rewrite pow2_succ by lia. lia.
Qed.

Lemma shrink_tree_spec d h : diff_wf d h ->
  match shrink_tree d with
  | inr d' => 0 < h /\ diff_wf d' (h - 1) /\
              (forall i, i < 2 ^ (h - 1) -> leaf_diff d' !! i = leaf_diff d !! i) /\
              (forall i, i < 2 ^ (h - 1) - 1 -> parent_diff d' !! i = parent_diff d !! i) /\
              original_tree d' = original_tree d
  | inl e => e = TreeTooSmall /\ h = 0
  end.
Proof.
  intros [Ho Hh Hs Hl Hp Hdl Hdp]. unfold shrink_tree, MIN_TREE_SIZE. rewrite Hs. pose proof Hh as [? ?].
  destruct (Z.leb_spec (tree_size h) 1) as [Hle|Hgt].
  - split; [done|]. destruct (Z.eq_dec h 0); [done|]. unfold tree_size in Hle.
    pose proof (pow2_le 2 (h + 1)). lia.
  - assert (0 < h). { destruct (Z.eq_dec h 0) as [->|]; [vm_compute in Hgt; done|lia]. }
    rewrite TreeSize_dec_spec by done. assert (height (h - 1)) by (split; lia).
    rewrite TreeSize_leaf_count_spec, TreeSize_parent_count_spec by done.
    split; [done|]. split; [|split; [|split; [|done]]].
    + constructor; simpl; auto.
      * intros i x [Hi%Hl Hlt]%map_lookup_filter_Some. simpl in Hlt. lia.
      * intros i x [Hi%Hp Hlt]%map_lookup_filter_Some. simpl in Hlt. lia.
    + intros i Hi. simpl. destruct (leaf_diff d !! i) as [x|] eqn:E.
      * by apply map_lookup_filter_Some_2.
      * apply map_lookup_filter_None. by left.
    + intros i Hi. simpl. destruct (parent_diff d !! i) as [x|] eqn:E.
      * by apply map_lookup_filter_Some_2.
      * apply map_lookup_filter_None. by left.
Qed.

Lemma replace_leaf_wf d h i x : diff_wf d h -> 0 <= i < 2 ^ h -> diff_wf (replace_leaf d i x) h.
Proof.
  intros [Ho Hh Hs Hl Hp Hdl Hdp] Hi. constructor; simpl; auto.
  intros j y. rewrite lookup_insert. case_decide as E; [intros _; by subst|apply Hl].
Qed.

Lemma replace_parent_wf d h i x :
  diff_wf d h -> 0 <= i < 2 ^ h - 1 -> diff_wf (replace_parent d i x) h.
Proof.
  intros [Ho Hh Hs Hl Hp Hdl Hdp] Hi. constructor; simpl; auto.
  intros j y. rewrite lookup_insert. case_decide as E; [intros _; by subst|apply Hp].
Qed.

Lemma parent_mut_replace d i f : parent_mut d i f = replace_parent d i (f (AbDiff_parent d i)).
Proof. unfold parent_mut, AbDiff_parent. by destruct (parent_diff d !! i). Qed.

Lemma direct_path_range h i p : leaf_in h i -> p ∈ direct_path i (tree_size h) -> 0 <= p < 2 ^ h - 1.
Proof.
  intros H Hp. pose proof H as [[? ?] ?]. apply list_elem_of_lookup in Hp as [j Hj].
  pose proof (lookup_lt_Some _ _ _ Hj) as Hlt. rewrite length_direct_path in Hlt by done.
  rewrite direct_path_lookup in Hj by done. injection Hj as <-. unfold pnode.
  replace (Z.of_nat j + 1 - 1) with (Z.of_nat j) by lia. pose proof (pow2_pos (Z.of_nat j + 1)).
  assert (0 <= i / 2 ^ (Z.of_nat j + 1)) by (apply Z.div_pos; lia).
  split; [apply node_bounds; lia|]. unfold node.
  assert (i / 2 ^ (Z.of_nat j + 1) < 2 ^ (h - (Z.of_nat j + 1))).
  { apply Z.div_lt_upper_bound; [lia|]. rewrite <- Z.pow_add_r by lia.
    replace (Z.of_nat j + 1 + (h - (Z.of_nat j + 1))) with h by lia. lia. }
  assert (E : 2 ^ (Z.of_nat j + 1) * 2 ^ (h - (Z.of_nat j + 1)) = 2 ^ h)
    by (rewrite <- Z.pow_add_r by lia; f_equal; lia).
  pose proof (pow2_succ (Z.of_nat j)). pose proof (pow2_pos (Z.of_nat j)). nia.
Qed.

Lemma foldl_replace_parent (ps : list Z) (x : P) d :
  let d' := foldl (fun d i => replace_parent d i x) d ps in
  original_tree d' = original_tree d /\ leaf_diff d' = leaf_diff d /\ diff_size d' = diff_size d /\
  (forall i, parent_diff d' !! i = if decide (i ∈ ps) then Some x else parent_diff d !! i).
Proof.
  revert d. induction ps as [|p ps IH]; intros d; cbn [foldl].
  - split; [done|]. split; [done|]. split; [done|]. intros i.
    case_decide as E; [by apply not_elem_of_nil in E|done].
  - destruct (IH (replace_parent d p x)) as (H1 & H2 & H3 & H4).
    split; [done|]. split; [done|]. split; [done|]. intros i. rewrite H4. cbn [replace_parent with_diffs parent_diff]. rewrite lookup_insert.
    repeat case_decide; try done; exfalso; rewrite ?elem_of_cons in *; intuition congruence.
Qed.

Lemma set_direct_path_wf d h i x : diff_wf d h -> 0 <= i < 2 ^ h ->
  diff_wf (set_direct_path_to_node d i x) h.
Proof.
  intros Hd Hi. unfold set_direct_path_to_node, AbDiff_direct_path.
  rewrite (dwf_size _ _ Hd). assert (Hin : leaf_in h i) by (split; [by destruct Hd|done]).
  assert (Hr : Forall (fun p => 0 <= p < 2 ^ h - 1) (direct_path i (tree_size h))).
  { apply Forall_forall. intros p. by apply direct_path_range. }
  revert d Hd. induction Hr as [|p ps Hp _ IH]; intros d Hd; simpl; [done|].
  apply IH. by apply replace_parent_wf.
Qed.

(** ** Reads *)

Lemma leaf_by_index_spec t h i : tree_wf t h -> 0 <= i ->
  leaf_by_index t i = default default_value (leaf_nodes t !! Z.to_nat i).
Proof. intros Ht _. unfold leaf_by_index. by rewrite (twf_default_leaf _ _ Ht). Qed.

Lemma AbDiff_leaf_overlay d h i : diff_wf d h -> 0 <= i < 2 ^ h ->
  AbDiff_leaf d i = default default_value (overlay (leaf_diff d) (leaf_nodes (original_tree d)) i).
Proof.
  intros Hd Hi. unfold AbDiff_leaf, overlay. destruct (leaf_diff d !! i); [done|].
  unfold AbDiff_leaf_count. rewrite (dwf_size _ _ Hd), TreeSize_leaf_count_spec by (by destruct Hd).
  destruct (Z.leb_spec (2 ^ h) i); [lia|]. destruct (dwf_original _ _ Hd) as [h0 Ho].
  apply (leaf_by_index_spec _ h0); [done|lia].
Qed.

Lemma AbDiff_leaf_outside d h i : diff_wf d h -> 2 ^ h <= i -> AbDiff_leaf d i = default_value.
Proof.
  intros Hd Hi. unfold AbDiff_leaf. destruct (leaf_diff d !! i) eqn:E.
  { apply (dwf_leaves _ _ Hd) in E. lia. }
  unfold AbDiff_leaf_count. rewrite (dwf_size _ _ Hd), TreeSize_leaf_count_spec by (by destruct Hd).
  destruct (Z.leb_spec (2 ^ h) i); [|lia]. by destruct Hd.
Qed.

Lemma AbDiff_parent_overlay d h i : diff_wf d h ->
  AbDiff_parent d i = default default_value (overlay (parent_diff d) (parent_nodes (original_tree d)) i).
Proof.
  intros Hd. unfold AbDiff_parent, overlay. destruct (parent_diff d !! i); [done|].
  destruct (dwf_original _ _ Hd) as [h0 Ho]. unfold parent_by_index.
  by rewrite (twf_default_parent _ _ Ho).
Qed.

Lemma AbDiff_leaf_replace d h i x j : diff_wf d h ->
  AbDiff_leaf (replace_leaf d i x) j = if decide (j = i) then x else AbDiff_leaf d j.
Proof.
  intros Hd. unfold AbDiff_leaf. simpl. rewrite lookup_insert.
  repeat case_decide; subst; done.
Qed.

Lemma AbDiff_parent_replace d i x j :
  AbDiff_parent (replace_parent d i x) j = if decide (j = i) then x else AbDiff_parent d j.
Proof.
  unfold AbDiff_parent. simpl. rewrite lookup_insert. repeat case_decide; subst; done.
Qed.

Lemma resize_overlay {V} (m : gmap Z V) (l : list V) (x : V) n i :
  0 <= i < Z.of_nat n ->
  default x (overlay m (resize n x l) i) = default x (overlay m l i).
Proof.
  intros Hi. unfold overlay. destruct (m !! i); [done|].
  destruct (decide (Z.to_nat i < length l)%nat) as [Hlt|Hge].
  - rewrite lookup_resize by lia. done.
  - rewrite lookup_resize_new by lia. rewrite lookup_ge_None_2 by lia. done.
Qed.
End Wf.

(** ** What a tree and a diff have in common

    Both can be read; the source discusses such a trait ("TreeLike") in
    [treesync/mod.rs].  [tree_agree] compares two of them by their reads. *)

Class TreeLike (T L P : Type) := {
  tl_size : T -> TreeSize;
  tl_leaf : T -> LeafNodeIndex -> L;
  tl_parent : T -> ParentNodeIndex -> P
}.
#[global] Hint Mode TreeLike ! - - : typeclass_instances.

#[export] Instance tree_like_tree {L P} : TreeLike (ABinaryTree L P) L P :=
  {| tl_size := ABinaryTree_tree_size; tl_leaf := leaf_by_index; tl_parent := parent_by_index |}.

#[export] Instance tree_like_diff {L P} : TreeLike (AbDiff L P) L P :=
  {| tl_size := diff_size; tl_leaf := AbDiff_leaf; tl_parent := AbDiff_parent |}.

Definition tree_agree {T U L P : Type} `{!TreeLike T L P} `{!TreeLike U L P} (t : T) (u : U) : Prop :=
  tl_size t = tl_size u /\
  (forall i, 0 <= i -> tl_leaf t i = tl_leaf u i) /\
  (forall i, 0 <= i < TreeSize_parent_count (tl_size t) -> tl_parent t i = tl_parent u i).

Section Refinement.
Context {L P : Type} `{!Default L} `{!Default P}.
Implicit Types (t : ABinaryTree L P) (d : AbDiff L P).

Lemma merge_diff_agrees d h t : diff_wf d h -> t = original_tree d ->
  tree_wf (merge_diff t (stage d)) h /\ tree_agree (merge_diff t (stage d)) d.
Proof.
  intros Hd ->. pose proof (dwf_height _ _ Hd) as Hh. pose proof Hh as [? ?].
  destruct (dwf_original _ _ Hd) as [h0 Ho].
  pose proof (pow2_pos h). pose proof (pow2_le h 29).
  assert (El : Z.to_nat (TreeSize_leaf_count (diff_size d)) = Z.to_nat (2 ^ h))
    by (rewrite (dwf_size _ _ Hd), TreeSize_leaf_count_spec; done).
  assert (Ep : Z.to_nat (TreeSize_parent_count (diff_size d)) = Z.to_nat (2 ^ h - 1))
    by (rewrite (dwf_size _ _ Hd), TreeSize_parent_count_spec; done).
  assert (Es : ABinaryTree_tree_size (merge_diff (original_tree d) (stage d)) = tree_size h).
  { unfold ABinaryTree_tree_size. simpl. rewrite !length_write_all, !length_resize, El, Ep.
    rewrite <- Z2Nat.inj_add, Z2Nat.id by lia. rewrite u32_wrap_small by lia.
    rewrite TreeSize_new_spec by (unfold MAX_TREE_SIZE; lia). f_equal.
    apply Z.log2_unique; [lia|]. rewrite <- Z.add_1_r, pow2_succ by lia. lia. }
  split.
  - constructor; simpl; rewrite ?length_write_all, ?length_resize, ?El, ?Ep; auto; try lia;
      by destruct Ho.
  - split; [simpl; rewrite Es; by rewrite (dwf_size _ _ Hd)|]. split.
    + intros i Hi. simpl. unfold leaf_by_index. simpl. rewrite (twf_default_leaf _ _ Ho).
      destruct (Z.lt_ge_cases i (2 ^ h)).
      * rewrite write_all_lookup.
        -- rewrite resize_overlay by (rewrite El; lia). symmetry. apply (AbDiff_leaf_overlay _ h); [done|lia].
        -- rewrite length_resize, El. lia.
        -- intros j x Hj. apply (dwf_leaves _ _ Hd) in Hj. lia.
      * rewrite (AbDiff_leaf_outside _ h) by done.
        rewrite lookup_ge_None_2 by (rewrite length_write_all, length_resize, El; lia). done.
    + cbn [tl_size tree_like_tree]. rewrite Es, TreeSize_parent_count_spec by done.
      intros i Hi. simpl. unfold parent_by_index. simpl. rewrite (twf_default_parent _ _ Ho).
      rewrite write_all_lookup.
      * rewrite resize_overlay by (rewrite Ep; lia). symmetry. by apply (AbDiff_parent_overlay _ h).
      * rewrite length_resize, Ep. lia.
      * intros j x Hj. apply (dwf_parents _ _ Hd) in Hj. lia.
Qed.

(** The operations a client performs on a diff, with the index bounds the
    source's [debug_assert]s document. *)
Inductive diff_step : AbDiff L P -> AbDiff L P -> Prop :=
| step_grow d d' : grow_tree d = inr d' -> diff_step d d'
| step_shrink d d' : shrink_tree d = inr d' -> diff_step d d'
| step_replace_leaf d i x : 0 <= i < AbDiff_leaf_count d -> diff_step d (replace_leaf d i x)
| step_replace_parent d i x : 0 <= i < AbDiff_parent_count d -> diff_step d (replace_parent d i x)
| step_parent_mut d i f : 0 <= i < AbDiff_parent_count d -> diff_step d (parent_mut d i f)
| step_set_direct_path d i x : 0 <= i < AbDiff_leaf_count d ->
    diff_step d (set_direct_path_to_node d i x).

Lemma AbDiff_leaf_count_spec d h : diff_wf d h -> AbDiff_leaf_count d = 2 ^ h.
Proof.
  intros Hd. unfold AbDiff_leaf_count. rewrite (dwf_size _ _ Hd).
  apply TreeSize_leaf_count_spec. by destruct Hd.
Qed.

Lemma AbDiff_parent_count_spec d h : diff_wf d h -> AbDiff_parent_count d = 2 ^ h - 1.
Proof.
  intros Hd. unfold AbDiff_parent_count. rewrite (dwf_size _ _ Hd).
  apply TreeSize_parent_count_spec. by destruct Hd.
Qed.

Lemma set_direct_path_original d i x :
  original_tree (set_direct_path_to_node d i x) = original_tree d.
Proof.
  unfold set_direct_path_to_node. by destruct (foldl_replace_parent (AbDiff_direct_path d i) x d).
Qed.

Lemma diff_step_wf d d' h : diff_wf d h -> diff_step d d' ->
  (exists h', diff_wf d' h') /\ original_tree d' = original_tree d.
Proof.
  intros Hd Hs. revert h Hd.
  destruct Hs as [d d' E|d d' E|d i x Hi|d i x Hi|d i f Hi|d i x Hi]; intros h Hd;
    try rewrite (AbDiff_leaf_count_spec _ _ Hd) in Hi;
    try rewrite (AbDiff_parent_count_spec _ _ Hd) in Hi.
  - pose proof (grow_tree_spec _ _ Hd) as H. rewrite E in H. destruct H as (_ & ? & _ & _ & ?). eauto.
  - pose proof (shrink_tree_spec _ _ Hd) as H. rewrite E in H. destruct H as (_ & ? & _ & _ & ?). eauto.
  - split; [|done]. exists h. by apply replace_leaf_wf.
  - split; [|done]. exists h. by apply replace_parent_wf.
  - rewrite parent_mut_replace. split; [|done]. exists h. by apply replace_parent_wf.
  - split; [|apply set_direct_path_original]. exists h. by apply set_direct_path_wf.
Qed.

Lemma diff_steps_wf d d' h : diff_wf d h -> rtc diff_step d d' ->
  (exists h', diff_wf d' h') /\ original_tree d' = original_tree d.
Proof.
  intros Hd Hs. revert h Hd. induction Hs as [d|d1 d2 d3 Hst _ IH]; intros h Hd; [eauto|].
  destruct (diff_step_wf _ _ _ Hd Hst) as [[h2 Hd2] E]. destruct (IH _ Hd2) as [? E']. split; [done|congruence].
Qed.

(** Writing along a path. *)
Lemma set_direct_path_leaf d i x j : AbDiff_leaf (set_direct_path_to_node d i x) j = AbDiff_leaf d j.
Proof.
  unfold set_direct_path_to_node. generalize (AbDiff_direct_path d i). intros ps. revert d.
  induction ps as [|p ps IH]; intros d; simpl; [done|]. by rewrite IH.
Qed.

Lemma set_direct_path_parent d i x p : AbDiff_parent (set_direct_path_to_node d i x) p =
  if decide (p ∈ AbDiff_direct_path d i) then x else AbDiff_parent d p.
Proof.
  unfold set_direct_path_to_node.
  destruct (foldl_replace_parent (AbDiff_direct_path d i) x d) as (Ho & _ & _ & Hp).
  unfold AbDiff_parent. rewrite Hp, Ho. by case_decide.
Qed.

Lemma foldl_parent_mut_leaf (f : P -> P) ps d j :
  AbDiff_leaf (foldl (fun d i => parent_mut d i f) d ps) j = AbDiff_leaf d j.
Proof.
  revert d. induction ps as [|p ps IH]; intros d; simpl; [done|]. rewrite IH. by rewrite parent_mut_replace.
Qed.

Lemma foldl_parent_mut_original (f : P -> P) ps d :
  original_tree (foldl (fun d i => parent_mut d i f) d ps) = original_tree d.
Proof.
  revert d. induction ps as [|p ps IH]; intros d; simpl; [done|]. rewrite IH. by rewrite parent_mut_replace.
Qed.

Lemma foldl_parent_mut_parent (f : P -> P) ps d p : NoDup ps ->
  AbDiff_parent (foldl (fun d i => parent_mut d i f) d ps) p =
  if decide (p ∈ ps) then f (AbDiff_parent d p) else AbDiff_parent d p.
Proof.
  intros Hnd. revert d. induction Hnd as [|q ps Hq Hnd IH]; intros d; simpl.
  - done.
  - rewrite IH, parent_mut_replace, AbDiff_parent_replace.
    destruct (decide (p = q)) as [->|Hne].
    + rewrite decide_False by done. by rewrite decide_True by (by left).
    + destruct (decide (p ∈ ps)); [by rewrite decide_True by (by right)|].
      by rewrite decide_False by (rewrite elem_of_cons; tauto).
Qed.

Lemma foldl_parent_mut_wf (f : P -> P) ps d h : diff_wf d h -> Forall (fun p => 0 <= p < 2 ^ h - 1) ps ->
  diff_wf (foldl (fun d i => parent_mut d i f) d ps) h.
Proof.
  intros Hd Hps. revert d Hd. induction Hps as [|p ps Hp _ IH]; intros d Hd; simpl; [done|].
  apply IH. rewrite parent_mut_replace. by apply replace_parent_wf.
Qed.

(** A diff over vectors that fit into it reads blank where nothing was written. *)
Definition fits d (h : Z) : Prop :=
  Z.of_nat (length (leaf_nodes (original_tree d))) <= 2 ^ h /\
  Z.of_nat (length (parent_nodes (original_tree d))) <= 2 ^ h - 1.

Lemma empty_diff_fits t h : tree_wf t h -> fits (empty_diff t) h.
Proof. intros [_ _ Hl Hp _ _]. unfold fits. simpl. lia. Qed.

Lemma fits_parent_blank d h p : diff_wf d h -> fits d h -> 2 ^ h - 1 <= p -> AbDiff_parent d p = default_value.
Proof.
  intros Hd [_ Hp] Hge. rewrite (AbDiff_parent_overlay d h) by done. unfold overlay.
  destruct (parent_diff d !! p) eqn:E; [apply (dwf_parents _ _ Hd) in E; lia|].
  rewrite lookup_ge_None_2; [done|lia].
Qed.

Lemma grow_tree_reads d h d' : diff_wf d h -> fits d h -> grow_tree d = inr d' ->
  fits d' (h + 1) /\ (forall i, 0 <= i -> AbDiff_leaf d' i = AbDiff_leaf d i) /\
  (forall p, AbDiff_parent d' p = AbDiff_parent d p).
Proof.
  intros Hd Hf E. pose proof (grow_tree_spec d h Hd) as Hg. rewrite E in Hg.
  destruct Hg as (Hh & Hd' & El & Ep & Eo). pose proof (dwf_height _ _ Hd) as [Hh0 _].
  pose proof (pow2_pos h). split_and!.
  - destruct Hf as [Hl Hp]. unfold fits. rewrite Eo, pow2_succ by lia. lia.
  - intros i Hi. destruct (Z.lt_ge_cases i (2 ^ h)).
    + rewrite (AbDiff_leaf_overlay d' (h + 1)), (AbDiff_leaf_overlay d h) by (rewrite ?pow2_succ; done || lia).
      by rewrite El, Eo.
    + rewrite (AbDiff_leaf_outside d h) by done. destruct (Z.lt_ge_cases i (2 ^ (h + 1))).
      * rewrite (AbDiff_leaf_overlay d' (h + 1)) by (done || lia). unfold overlay. rewrite El, Eo.
        destruct (leaf_diff d !! i) eqn:Ei; [apply (dwf_leaves _ _ Hd) in Ei; lia|].
        rewrite lookup_ge_None_2; [done|]. destruct Hf. lia.
      * by apply (AbDiff_leaf_outside d' (h + 1)).
  - intros p. unfold AbDiff_parent. by rewrite Ep, Eo.
Qed.

Lemma overlay_items_map {V} (m : gmap Z V) (l : list V) n (x0 : V) (read : Z -> V) :
  (forall i, 0 <= i < n -> read i = default x0 (overlay m l i)) ->
  overlay_items m l n =
  map (fun i => (i, read i)) (filter (fun i => is_Some (overlay m l i)) (seqZ 0 n)).
Proof.
  intros Hr. unfold overlay_items.
  assert (Hr' : forall i, i ∈ seqZ 0 n -> read i = default x0 (overlay m l i)).
  { intros i Hi%elem_of_seqZ. apply Hr. lia. }
  clear Hr. induction (seqZ 0 n) as [|i s IH]; [done|].
  rewrite filter_cons. cbn [omap list_omap].
  assert (IH' := IH (fun j Hj => Hr' j ltac:(by right))).
  pose proof (Hr' i ltac:(by left)) as Hi.
  destruct (overlay m l i) as [x|] eqn:E; simpl.
  - by rewrite IH', Hi.
  - exact IH'.
Qed.
End Refinement.

(** ** Theorems *)

(** Whatever sequence of operations a diff of a well-formed tree goes
    through, it stays well formed, and merging it yields a well-formed tree of
    the announced size in which every leaf and every parent reads as it did in
    the diff. *)
Theorem merge_realises_diff {L P} `{!Default L} `{!Default P} (t : ABinaryTree L P) (h : Z)
    (d : AbDiff L P) :
  tree_wf t h -> rtc diff_step (empty_diff t) d ->
  exists h', diff_wf d h' /\ tree_wf (merge_diff t (stage d)) h' /\
             tree_agree (merge_diff t (stage d)) d.
Proof.
  intros Ht Hs. destruct (diff_steps_wf _ _ h (empty_diff_wf _ _ Ht) Hs) as [[h' Hd] E].
  exists h'. split; [done|]. by apply merge_diff_agrees.
Qed.

#[local] Instance Z_default : Default Z := 0.

Lemma merge_realises_diff_witness :
  exists (t : ABinaryTree Z Z) d,
    ABinaryTree_new [TreeNode_Leaf 7] = inr t /\
    rtc diff_step (empty_diff t) d /\ tl_size (merge_diff t (stage d)) = 3 /\
    leaf_by_index (merge_diff t (stage d)) 1 = 9 /\ tree_agree (merge_diff t (stage d)) d.
Proof.
  destruct (ABinaryTree_new [TreeNode_Leaf (L := Z) (P := Z) 7]) as [e|t] eqn:E; [discriminate E|].
  destruct (ABinaryTree_new_wf _ _ E) as (h & Ht & _).
  injection E as <-. eexists _, (replace_leaf _ 1 9). split; [reflexivity|].
  match goal with |- rtc _ ?d0 ?d1 /\ _ => assert (Hs : rtc diff_step d0 d1) end.
  { eapply rtc_l; [apply step_grow; reflexivity|]. eapply rtc_once. apply step_replace_leaf.
    vm_compute. split; [discriminate|reflexivity]. }
  split; [exact Hs|]. split; [vm_compute; reflexivity|]. split; [vm_compute; reflexivity|].
  destruct (merge_realises_diff _ _ _ Ht Hs) as (h' & _ & _ & H). exact H.
Defined.

(** The iterators of a diff walk the indices of the diffed tree from left
    to right and pair each with what the diff reads there; an index is left out
    only when it lies beyond the original vector and was never written, where
    the read is the blank default. *)
Theorem diff_iterators_correct {L P} `{!Default L} `{!Default P} (d : AbDiff L P) (h : Z) :
  diff_wf d h ->
  AbDiff_leaves d =
    map (fun i => (i, AbDiff_leaf d i))
      (filter (fun i => is_Some (overlay (leaf_diff d) (leaf_nodes (original_tree d)) i))
         (seqZ 0 (2 ^ h))) /\
  AbDiff_parents d =
    map (fun i => (i, AbDiff_parent d i))
      (filter (fun i => is_Some (overlay (parent_diff d) (parent_nodes (original_tree d)) i))
         (seqZ 0 (2 ^ h - 1))) /\
  (forall i, 0 <= i < 2 ^ h -> overlay (leaf_diff d) (leaf_nodes (original_tree d)) i = None ->
     AbDiff_leaf d i = default_value).
Proof.
  intros Hd. pose proof (dwf_height _ _ Hd) as [? ?]. pose proof (pow2_pos h).
  repeat split.
  - unfold AbDiff_leaves, ABinaryTree_leaves. rewrite (AbDiff_leaf_count_spec _ _ Hd).
    rewrite sorted_iter_overlay by (try lia; apply (dwf_leaves _ _ Hd)).
    apply (overlay_items_map _ _ _ default_value). intros i Hi. by apply (AbDiff_leaf_overlay _ h).
  - unfold AbDiff_parents, ABinaryTree_parents. rewrite (AbDiff_parent_count_spec _ _ Hd).
    rewrite sorted_iter_overlay by (try lia; apply (dwf_parents _ _ Hd)).
    apply (overlay_items_map _ _ _ default_value). intros i Hi. by apply (AbDiff_parent_overlay _ h).
  - intros i Hi E. rewrite (AbDiff_leaf_overlay _ h) by done. by rewrite E.
Qed.

Lemma diff_iterators_correct_witness :
  exists d : AbDiff Z Z, diff_wf d 1 /\ AbDiff_leaves d = [(0, 7); (1, 9)].
Proof.
  set (t := {| leaf_nodes := [7]; parent_nodes := @nil Z; default_leaf := 0; default_parent := 0 |}).
  assert (Ht : tree_wf t 0) by (constructor; try reflexivity; try (split; simpl; lia)).
  pose proof (grow_tree_spec _ _ (empty_diff_wf _ _ Ht)) as Hg. simpl in Hg.
  destruct Hg as (_ & Hg & _). exists (replace_leaf (with_diffs (empty_diff t) ∅ ∅ 3) 1 9).
  assert (Hd : diff_wf (replace_leaf (with_diffs (empty_diff t) ∅ ∅ 3) 1 9) 1)
    by (apply replace_leaf_wf; [exact Hg|simpl; lia]).
  split; [exact Hd|]. etransitivity; [apply (diff_iterators_correct _ 1 Hd)|]. vm_compute. reflexivity.
Defined.
