(* ===== verification/Crypto.v ===== *)
(** * Ciphersuites, secrets and key derivation

    Models the algorithm tables of [traits/src/types.rs] and the secrets of
    [openmls/src/ciphersuite/secret.rs], [kdf_label.rs] and [aead.rs].

    The cryptographic provider ([OpenMlsCrypto], backed by third-party crates)
    and the third-party [tls_codec] encoding of a KDF label are parameters, the
    class [OpenMlsCrypto]; what the theorems rely on is the class [KdfLaws]:
    HKDF-Expand yields as many bytes as asked for, up to 255 hash lengths, and
    a label always has an encoding. *)

From Stdlib Require Import Ascii String.
From S2P Require Import Prelude.

Abbreviation bytes := (list Z) (only parsing).

Definition str_bytes (s : string) : bytes :=
  map (fun a => Z.of_N (N_of_ascii a)) (list_ascii_of_string s).

(** ** Algorithm tables *)

Inductive AeadType := Aes128Gcm | Aes256Gcm | ChaCha20Poly1305.

Definition tag_size (a : AeadType) : Z := 16.

Definition key_size (a : AeadType) : Z :=
  match a with Aes128Gcm => 16 | Aes256Gcm => 32 | ChaCha20Poly1305 => 32 end.

Definition nonce_size (a : AeadType) : Z := 12.

Inductive HashType := Sha2_256 | Sha2_384 | Sha2_512.

Definition HashType_size (h : HashType) : Z :=
  match h with Sha2_256 => 32 | Sha2_384 => 48 | Sha2_512 => 64 end.

Inductive SignatureScheme :=
| ECDSA_SECP256R1_SHA256 | ECDSA_SECP384R1_SHA384 | ECDSA_SECP521R1_SHA512 | ED25519 | ED448.

(** The discriminants of [#[repr(u16)]]. *)
Definition SignatureScheme_u16 (s : SignatureScheme) : Z :=
  match s with
  | ECDSA_SECP256R1_SHA256 => 0x0403
  | ECDSA_SECP384R1_SHA384 => 0x0503
  | ECDSA_SECP521R1_SHA512 => 0x0603
  | ED25519 => 0x0807
  | ED448 => 0x0808
  end.

Definition SignatureScheme_try_from (value : Z) : option SignatureScheme :=
  if value =? 0x0403 then Some ECDSA_SECP256R1_SHA256
  else if value =? 0x0503 then Some ECDSA_SECP384R1_SHA384
  else if value =? 0x0603 then Some ECDSA_SECP521R1_SHA512
  else if value =? 0x0807 then Some ED25519
  else if value =? 0x0808 then Some ED448
  else None.

Inductive HpkeKemType := DhKemP256 | DhKemP384 | DhKemP521 | DhKem25519 | DhKem448 | XWingKemDraft2.
Inductive HpkeKdfType := HkdfSha256 | HkdfSha384 | HkdfSha512.
Inductive HpkeAeadType := HpkeAesGcm128 | HpkeAesGcm256 | HpkeChaCha20Poly1305 | HpkeExport.

Inductive Ciphersuite :=
| MLS_128_DHKEMX25519_AES128GCM_SHA256_Ed25519
| MLS_128_DHKEMP256_AES128GCM_SHA256_P256
| MLS_128_DHKEMX25519_CHACHA20POLY1305_SHA256_Ed25519
| MLS_256_DHKEMX448_AES256GCM_SHA512_Ed448
| MLS_256_DHKEMP521_AES256GCM_SHA512_P521
| MLS_256_DHKEMX448_CHACHA20POLY1305_SHA512_Ed448
| MLS_256_DHKEMP384_AES256GCM_SHA384_P384
| MLS_256_XWING_CHACHA20POLY1305_SHA256_Ed25519.

#[export] Instance Ciphersuite_eq_dec : EqDecision Ciphersuite.
Proof. solve_decision. Defined.

Definition Ciphersuite_u16 (c : Ciphersuite) : Z :=
  match c with
  | MLS_128_DHKEMX25519_AES128GCM_SHA256_Ed25519 => 0x0001
  | MLS_128_DHKEMP256_AES128GCM_SHA256_P256 => 0x0002
  | MLS_128_DHKEMX25519_CHACHA20POLY1305_SHA256_Ed25519 => 0x0003
  | MLS_256_DHKEMX448_AES256GCM_SHA512_Ed448 => 0x0004
  | MLS_256_DHKEMP521_AES256GCM_SHA512_P521 => 0x0005
  | MLS_256_DHKEMX448_CHACHA20POLY1305_SHA512_Ed448 => 0x0006
  | MLS_256_DHKEMP384_AES256GCM_SHA384_P384 => 0x0007
  | MLS_256_XWING_CHACHA20POLY1305_SHA256_Ed25519 => 0x004D
  end.

Definition Ciphersuite_try_from (v : Z) : option Ciphersuite :=
  if v =? 0x0001 then Some MLS_128_DHKEMX25519_AES128GCM_SHA256_Ed25519
  else if v =? 0x0002 then Some MLS_128_DHKEMP256_AES128GCM_SHA256_P256
  else if v =? 0x0003 then Some MLS_128_DHKEMX25519_CHACHA20POLY1305_SHA256_Ed25519
  else if v =? 0x0004 then Some MLS_256_DHKEMX448_AES256GCM_SHA512_Ed448
  else if v =? 0x0005 then Some MLS_256_DHKEMP521_AES256GCM_SHA512_P521
  else if v =? 0x0006 then Some MLS_256_DHKEMX448_CHACHA20POLY1305_SHA512_Ed448
  else if v =? 0x0007 then Some MLS_256_DHKEMP384_AES256GCM_SHA384_P384
  else if v =? 0x004D then Some MLS_256_XWING_CHACHA20POLY1305_SHA256_Ed25519
  else None.

Definition hash_algorithm (c : Ciphersuite) : HashType :=
  match c with
  | MLS_128_DHKEMX25519_AES128GCM_SHA256_Ed25519
  | MLS_128_DHKEMP256_AES128GCM_SHA256_P256
  | MLS_128_DHKEMX25519_CHACHA20POLY1305_SHA256_Ed25519
  | MLS_256_XWING_CHACHA20POLY1305_SHA256_Ed25519 => Sha2_256
  | MLS_256_DHKEMP384_AES256GCM_SHA384_P384 => Sha2_384
  | MLS_256_DHKEMX448_AES256GCM_SHA512_Ed448
  | MLS_256_DHKEMP521_AES256GCM_SHA512_P521
  | MLS_256_DHKEMX448_CHACHA20POLY1305_SHA512_Ed448 => Sha2_512
  end.

Definition signature_algorithm (c : Ciphersuite) : SignatureScheme :=
  match c with
  | MLS_128_DHKEMX25519_AES128GCM_SHA256_Ed25519
  | MLS_128_DHKEMX25519_CHACHA20POLY1305_SHA256_Ed25519
  | MLS_256_XWING_CHACHA20POLY1305_SHA256_Ed25519 => ED25519
  | MLS_128_DHKEMP256_AES128GCM_SHA256_P256 => ECDSA_SECP256R1_SHA256
  | MLS_256_DHKEMP521_AES256GCM_SHA512_P521 => ECDSA_SECP521R1_SHA512
  | MLS_256_DHKEMX448_AES256GCM_SHA512_Ed448
  | MLS_256_DHKEMX448_CHACHA20POLY1305_SHA512_Ed448 => ED448
  | MLS_256_DHKEMP384_AES256GCM_SHA384_P384 => ECDSA_SECP384R1_SHA384
  end.

Definition aead_algorithm (c : Ciphersuite) : AeadType :=
  match c with
  | MLS_128_DHKEMX25519_AES128GCM_SHA256_Ed25519
  | MLS_128_DHKEMP256_AES128GCM_SHA256_P256 => Aes128Gcm
  | MLS_128_DHKEMX25519_CHACHA20POLY1305_SHA256_Ed25519
  | MLS_256_DHKEMX448_CHACHA20POLY1305_SHA512_Ed448
  | MLS_256_XWING_CHACHA20POLY1305_SHA256_Ed25519 => ChaCha20Poly1305
  | MLS_256_DHKEMX448_AES256GCM_SHA512_Ed448
  | MLS_256_DHKEMP521_AES256GCM_SHA512_P521
  | MLS_256_DHKEMP384_AES256GCM_SHA384_P384 => Aes256Gcm
  end.

Definition hpke_kdf_algorithm (c : Ciphersuite) : HpkeKdfType :=
  match c with
  | MLS_128_DHKEMX25519_AES128GCM_SHA256_Ed25519
  | MLS_128_DHKEMP256_AES128GCM_SHA256_P256
  | MLS_128_DHKEMX25519_CHACHA20POLY1305_SHA256_Ed25519
  | MLS_256_XWING_CHACHA20POLY1305_SHA256_Ed25519 => HkdfSha256
  | MLS_256_DHKEMP384_AES256GCM_SHA384_P384 => HkdfSha384
  | MLS_256_DHKEMX448_AES256GCM_SHA512_Ed448
  | MLS_256_DHKEMP521_AES256GCM_SHA512_P521
  | MLS_256_DHKEMX448_CHACHA20POLY1305_SHA512_Ed448 => HkdfSha512
  end.

Definition hpke_kem_algorithm (c : Ciphersuite) : HpkeKemType :=
  match c with
  | MLS_128_DHKEMX25519_AES128GCM_SHA256_Ed25519
  | MLS_128_DHKEMX25519_CHACHA20POLY1305_SHA256_Ed25519 => DhKem25519
  | MLS_128_DHKEMP256_AES128GCM_SHA256_P256 => DhKemP256
  | MLS_256_DHKEMX448_AES256GCM_SHA512_Ed448
  | MLS_256_DHKEMX448_CHACHA20POLY1305_SHA512_Ed448 => DhKem448
  | MLS_256_DHKEMP384_AES256GCM_SHA384_P384 => DhKemP384
  | MLS_256_DHKEMP521_AES256GCM_SHA512_P521 => DhKemP521
  | MLS_256_XWING_CHACHA20POLY1305_SHA256_Ed25519 => XWingKemDraft2
  end.

Definition hpke_aead_algorithm (c : Ciphersuite) : HpkeAeadType :=
  match c with
  | MLS_128_DHKEMX25519_AES128GCM_SHA256_Ed25519
  | MLS_128_DHKEMP256_AES128GCM_SHA256_P256 => HpkeAesGcm128
  | MLS_128_DHKEMX25519_CHACHA20POLY1305_SHA256_Ed25519
  | MLS_256_XWING_CHACHA20POLY1305_SHA256_Ed25519 => HpkeChaCha20Poly1305
  | MLS_256_DHKEMX448_AES256GCM_SHA512_Ed448
  | MLS_256_DHKEMP384_AES256GCM_SHA384_P384
  | MLS_256_DHKEMP521_AES256GCM_SHA512_P521 => HpkeAesGcm256
  | MLS_256_DHKEMX448_CHACHA20POLY1305_SHA512_Ed448 => HpkeChaCha20Poly1305
  end.

Definition hpke_config (c : Ciphersuite) : HpkeKemType * HpkeKdfType * HpkeAeadType :=
  (hpke_kem_algorithm c, hpke_kdf_algorithm c, hpke_aead_algorithm c).

Definition hash_length (c : Ciphersuite) : Z := HashType_size (hash_algorithm c).
Definition mac_length (c : Ciphersuite) : Z := tag_size (aead_algorithm c).
Definition aead_key_length (c : Ciphersuite) : Z := key_size (aead_algorithm c).
Definition aead_nonce_length (c : Ciphersuite) : Z := nonce_size (aead_algorithm c).

Inductive CryptoError :=
| CryptoLibraryError
| AeadDecryptionError
| HpkeDecryptionError
| HpkeEncryptionError
| UnsupportedSignatureScheme
| KdfLabelTooLarge
| KdfSerializationError
| HkdfOutputLengthInvalid
| InsufficientRandomness
| InvalidSignature
| UnsupportedAeadAlgorithm
| UnsupportedKdf
| InvalidLength
| UnsupportedHashAlgorithm
| SignatureEncodingError
| SignatureDecodingError
| SenderSetupError
| ReceiverSetupError
| ExporterError
| UnsupportedCiphersuite
| TlsSerializationError
| TooMuchData
| SigningError
| InvalidPublicKey.

(** ** The provider *)

Class OpenMlsCrypto := {
  (** [hkdf_extract(hash_type, salt, ikm)] *)
  provider_hkdf_extract : HashType -> bytes -> bytes -> outcome CryptoError bytes;
  (** [hkdf_expand(hash_type, prk, info, okm_len)] *)
  provider_hkdf_expand : HashType -> bytes -> bytes -> Z -> outcome CryptoError bytes;
  (** [tls_serialize_detached] of a [KdfLabel { length, label, context }] *)
  kdf_label_tls_serialize : Z -> bytes -> bytes -> option bytes
}.

Class KdfLaws `{!OpenMlsCrypto} : Prop := {
  hkdf_expand_length hash prk info len : 0 < len <= 255 * HashType_size hash ->
    exists okm, provider_hkdf_expand hash prk info len = Ok okm /\ Z.of_nat (length okm) = len;
  kdf_label_serializes len label context : exists info,
    kdf_label_tls_serialize len label context = Some info
}.

(** ** Secrets *)

Abbreviation Secret := bytes (only parsing).

Definition NONCE_BYTES : Z := 12.

Definition Secret_zero (c : Ciphersuite) : Secret := replicate (Z.to_nat (hash_length c)) 0.

Section Secrets.
Context `{!OpenMlsCrypto}.

Definition KdfLabel_serialized_label (context : bytes) (label : bytes) (length : Z) :
    outcome CryptoError bytes :=
  if 65535 <? length then Err KdfLabelTooLarge
  else ok_or (kdf_label_tls_serialize length label context) KdfSerializationError.

Definition Secret_hkdf_extract (salt : Secret) (c : Ciphersuite) (ikm_option : option Secret) :
    outcome CryptoError Secret :=
  let zero_secret := Secret_zero c in
  let ikm := default zero_secret ikm_option in
  provider_hkdf_extract (hash_algorithm c) salt ikm.

Definition Secret_hkdf_expand (prk : Secret) (c : Ciphersuite) (info : bytes) (okm_len : Z) :
    outcome CryptoError Secret :=
  key ← map_err (fun _ => CryptoLibraryError)
          (provider_hkdf_expand (hash_algorithm c) prk info okm_len);
  if (List.length key =? 0)%nat then Err InvalidLength else Ok key.

Definition kdf_expand_label (secret : Secret) (c : Ciphersuite) (label : string) (context : bytes)
    (length : Z) : outcome CryptoError Secret :=
  let full_label := str_bytes ("MLS 1.0 " ++ label) in
  info ← KdfLabel_serialized_label context full_label length;
  Secret_hkdf_expand secret c info length.

Definition derive_secret (secret : Secret) (c : Ciphersuite) (label : string) :
    outcome CryptoError Secret :=
  kdf_expand_label secret c label [] (hash_length c).

(** The value of a derivation, for specifications. *)
Definition kdf (c : Ciphersuite) (secret : Secret) (label : string) (context : bytes) (len : Z) :
    Secret :=
  match kdf_expand_label secret c label context len with Ok x => x | _ => [] end.

Context `{!KdfLaws}.

Lemma kdf_expand_label_ok c secret label context len : 0 < len <= 255 * hash_length c -> len <= 65535 ->
  kdf_expand_label secret c label context len = Ok (kdf c secret label context len) /\
  Z.of_nat (length (kdf c secret label context len)) = len.
Proof.
  intros Hlen Hmax. unfold kdf, kdf_expand_label, KdfLabel_serialized_label.
  destruct (Z.ltb_spec 65535 len); [lia|].
  destruct (kdf_label_serializes len (str_bytes ("MLS 1.0 " ++ label)) context) as [info ->].
  cbn. unfold Secret_hkdf_expand, hash_length in *.
  destruct (hkdf_expand_length (hash_algorithm c) secret info len Hlen) as (okm & -> & Hl).
  cbn. destruct (Nat.eqb_spec (List.length okm) 0); [lia|]. done.
Qed.
End Secrets.

(** A provider that satisfies the laws, for evaluating the model. *)
Definition toy_crypto : OpenMlsCrypto := {|
  provider_hkdf_extract hash salt ikm :=
    Ok (map (fun j => (31 * foldr Z.add 0 salt + foldr Z.add 7 ikm + j) mod 256)
            (seqZ 0 (HashType_size hash)));
  provider_hkdf_expand hash prk info len :=
    if (0 <? len) && (len <=? 255 * HashType_size hash)
    then Ok (map (fun j => (31 * foldr Z.add 0 prk + foldl (fun a b => 3 * a + b) 7 info + j) mod 256)
                 (seqZ 0 len))
    else Err HkdfOutputLengthInvalid;
  kdf_label_tls_serialize len label context := Some ([len / 256; len mod 256] ++ label ++ context)
|}.

Lemma toy_laws : @KdfLaws toy_crypto.
Proof.
  split; simpl; [|eauto]. intros hash prk info len Hlen.
  rewrite (proj2 (Z.ltb_lt _ _)), (proj2 (Z.leb_le _ _)) by lia. simpl.
  eexists. split; [done|]. rewrite length_map, length_seqZ. lia.
Qed.

Record AeadKey := mkAeadKey { aead_mode : AeadType; aead_value : bytes }.

Definition AeadKey_from_secret (secret : Secret) (c : Ciphersuite) : AeadKey :=
  {| aead_mode := aead_algorithm c; aead_value := secret |}.

Abbreviation AeadNonce := bytes (only parsing).

(** [clone_from_slice] panics when the lengths differ. *)
Definition AeadNonce_from_secret {E} (secret : Secret) : outcome E AeadNonce :=
  if Z.of_nat (length secret) =? NONCE_BYTES then Ok secret else Panic.

(** ** Theorems *)

Lemma lengths_in_range c :
  0 < hash_length c <= 64 /\ 0 < aead_key_length c <= 255 * hash_length c /\
  aead_nonce_length c = NONCE_BYTES.
Proof. destruct c; vm_compute; repeat split; discriminate. Qed.

(** The code points of ciphersuites and signature schemes round-trip, and
    decoding accepts nothing but the encodings. *)
Theorem code_points_roundtrip :
  (forall c v, Ciphersuite_try_from v = Some c <-> v = Ciphersuite_u16 c) /\
  (forall s v, SignatureScheme_try_from v = Some s <-> v = SignatureScheme_u16 s).
Proof.
  split; intros x v; split.
  - unfold Ciphersuite_try_from.
    repeat match goal with |- context [?a =? ?b] => destruct (Z.eqb_spec a b) end;
      intros E; simplify_eq; reflexivity.
  - intros ->. by destruct x.
  - unfold SignatureScheme_try_from.
    repeat match goal with |- context [?a =? ?b] => destruct (Z.eqb_spec a b) end;
      intros E; simplify_eq; reflexivity.
  - intros ->. by destruct x.
Qed.
