(* ===== verification/Tls.v ===== *)
(** * Encodings

    The presentation language of TLS is implemented by the crate [tls_codec]
    and by the code its derive macros generate, which are not part of the
    repository: a type that is only written has a [Writer], one that is also
    read a [Codec].  A reader is given the bytes that are left and gives back
    those it did not consume, as [&mut &[u8]] does.

    The laws are the contract of the [Serialize], [Deserialize] and [Size]
    traits: what was written is read back, with the rest of the input untouched,
    and [tls_serialized_len] is the number of bytes written. *)

From S2P Require Import Prelude Crypto.

Inductive TlsError := EncodingError | DecodingError | InvalidInput | EndOfStream | InvalidVectorLength.

Record Writer (A : Type) := mkWriter {
  tls_serialize : A -> outcome TlsError bytes;
  tls_serialized_len : A -> Z
}.
Arguments mkWriter {A} _ _.
Arguments tls_serialize {A} _ _.
Arguments tls_serialized_len {A} _ _.

Record Codec (A : Type) := mkCodec {
  codec_writer :> Writer A;
  tls_deserialize : bytes -> outcome TlsError (A * bytes)
}.
Arguments mkCodec {A} _ _.
Arguments codec_writer {A} _.
Arguments tls_deserialize {A} _ _.

Record writer_ok {A} (w : Writer A) : Prop := {
  written_len x b : tls_serialize w x = Ok b -> tls_serialized_len w x = Z.of_nat (length b)
}.
Arguments written_len {A w} _ _ _ _.

Record codec_ok {A} (c : Codec A) : Prop := {
  codec_writer_ok : writer_ok c;
  read_back x b rest : tls_serialize c x = Ok b -> tls_deserialize c (b ++ rest) = Ok (x, rest)
}.
Arguments codec_writer_ok {A c} _.
Arguments read_back {A c} _ _ _ _ _.

(** [a] is written as its image under [f] is: the outgoing and the incoming type
    of one message. *)
Definition writes_as {A B} (f : A -> B) (w : Writer A) (v : Writer B) : Prop :=
  forall x, tls_serialize w x = tls_serialize v (f x) /\ tls_serialized_len w x = tls_serialized_len v (f x).

(** ** Writing into one buffer *)

Definition append_serialized (first second : outcome TlsError bytes) : outcome TlsError bytes :=
  a ← first; b ← second; Ok (a ++ b).

Lemma append_serialized_ok first second b : append_serialized first second = Ok b <->
  exists a a', first = Ok a /\ second = Ok a' /\ b = a ++ a'.
Proof.
  unfold append_serialized. split.
  - intros E. ok_inv E. injection E as <-. eauto.
  - intros (a & a' & -> & -> & ->). done.
Qed.

(** ** A concrete encoding

    Bytes with a length in front of them, for evaluating the model. *)

Definition toy_bytes : Codec bytes := {|
  codec_writer := {| tls_serialize x := Ok (Z.of_nat (length x) :: x); tls_serialized_len x := 1 + Z.of_nat (length x) |};
  tls_deserialize b := match b with
    | n :: b => if n <=? Z.of_nat (length b) then Ok (take (Z.to_nat n) b, drop (Z.to_nat n) b) else Err EndOfStream
    | [] => Err EndOfStream
    end |}.

Lemma toy_bytes_ok : codec_ok toy_bytes.
Proof.
  split; [split|]; cbn; intros x b.
  - intros [= <-]. cbn [length]. lia.
  - intros rest [= <-]. cbn. rewrite length_app. destruct (Z.leb_spec (Z.of_nat (length x)) (Z.of_nat (length x + length rest))); [|lia].
    by rewrite Nat2Z.id, take_app_length, drop_app_length.
Qed.

(** The encoding of a type that is injected into bytes. *)
Definition toy_codec {A} (into : A -> bytes) (from : bytes -> A) : Codec A := {|
  codec_writer := {| tls_serialize x := tls_serialize toy_bytes (into x); tls_serialized_len x := tls_serialized_len toy_bytes (into x) |};
  tls_deserialize b := '(x, rest) ← tls_deserialize toy_bytes b; Ok (from x, rest) |}.

Lemma toy_codec_ok {A} (into : A -> bytes) (from : bytes -> A) : (forall x, from (into x) = x) -> codec_ok (toy_codec into from).
Proof.
  intros H. split; [split|]; intros x b.
  - apply (written_len (codec_writer_ok toy_bytes_ok)).
  - intros rest E. cbn [tls_deserialize toy_codec]. rewrite (read_back toy_bytes_ok _ _ _ E). cbn. by rewrite H.
Qed.
