(* ===== verification/SenderRatchet.v ===== *)
(** * Sender ratchets

    Models [openmls/src/tree/sender_ratchet.rs] and, from
    [openmls/src/tree/secret_tree.rs], the error type and [derive_tree_secret]
    the ratchets are built from.

    The specification of a decryption ratchet is [window]: the generation of
    the head and the set of generations already handed out.  The refinement
    theorem says that the queue of optional secrets, its pruning and its
    indexing implement exactly that window over every sequence of requests. *)

From Stdlib Require Import String.
From S2P Require Import Prelude Crypto.

(** ** Errors and derivation *)

Inductive SecretTreeError :=
| TooDistantInThePast
| TooDistantInTheFuture
| IndexOutOfBounds
| SecretReuseError
| RatchetTypeError
| RatchetTooLong
| SecretTreeLibraryError
| SecretTreeCodecError
| SecretTreeCryptoError (e : CryptoError).

Definition to_be_bytes (x : Z) : bytes :=
  [Z.land (Z.shiftr x 24) 255; Z.land (Z.shiftr x 16) 255; Z.land (Z.shiftr x 8) 255; Z.land x 255].

Record SenderRatchetConfiguration := {
  out_of_order_tolerance : Z;
  maximum_forward_distance : Z
}.

Definition SenderRatchetConfiguration_default : SenderRatchetConfiguration :=
  {| out_of_order_tolerance := 5; maximum_forward_distance := 1000 |}.

Abbreviation RatchetKeyMaterial := (AeadKey * AeadNonce)%type (only parsing).

Record RatchetSecret := mkRatchetSecret { ratchet_secret : Secret; ratchet_generation : Z }.

Definition initial_ratchet_secret (secret : Secret) : RatchetSecret :=
  {| ratchet_secret := secret; ratchet_generation := 0 |}.

Record DecryptionRatchet := mkDecryptionRatchet {
  past_secrets : list (option RatchetKeyMaterial);
  ratchet_head : RatchetSecret
}.

Inductive SenderRatchet :=
| EncryptionRatchetOf (r : RatchetSecret)
| DecryptionRatchetOf (r : DecryptionRatchet).

Definition DecryptionRatchet_new (secret : Secret) : DecryptionRatchet :=
  {| past_secrets := []; ratchet_head := initial_ratchet_secret secret |}.

Definition generation (r : DecryptionRatchet) : Z := ratchet_generation (ratchet_head r).

Definition set_past (f : list (option RatchetKeyMaterial) -> list (option RatchetKeyMaterial))
    (r : DecryptionRatchet) : DecryptionRatchet :=
  {| past_secrets := f (past_secrets r); ratchet_head := ratchet_head r |}.

Definition prune_past_secrets (configuration : SenderRatchetConfiguration) :
    DecryptionRatchet -> DecryptionRatchet :=
  set_past (take (Z.to_nat (out_of_order_tolerance configuration))).

(** [x as i32] of a [u32], and the wrapping subtraction of a release build. *)
Definition i32_wrap (x : Z) : Z := (x + 2 ^ 31) mod 2 ^ 32 - 2 ^ 31.

Section Ratchets.
Context `{!OpenMlsCrypto}.

Definition derive_tree_secret (c : Ciphersuite) (secret : Secret) (label : string)
    (generation : Z) (length : Z) : outcome SecretTreeError Secret :=
  map_err SecretTreeCryptoError
    (kdf_expand_label secret c label (to_be_bytes generation) length).

Definition ratchet_forward (c : Ciphersuite) :
    method RatchetSecret SecretTreeError (Z * RatchetKeyMaterial) :=
  self ← get;
  if ratchet_generation self =? u32_MAX then fail RatchetTooLong
  else
    nonce ← lift (derive_tree_secret c (ratchet_secret self) "nonce" (ratchet_generation self)
                    (aead_nonce_length c));
    key ← lift (derive_tree_secret c (ratchet_secret self) "key" (ratchet_generation self)
                  (aead_key_length c));
    secret ← lift (derive_tree_secret c (ratchet_secret self) "secret" (ratchet_generation self)
                     (hash_length c));
    let generation := ratchet_generation self in
    modify (fun _ => {| ratchet_secret := secret; ratchet_generation := (generation + 1)%u32 |});;
    nonce ← lift (AeadNonce_from_secret nonce);
    mret (generation, (AeadKey_from_secret key c, nonce)).

(** [self.ratchet_head.ratchet_forward(..).map(|(_, key_material)| key_material)] *)
Definition head_forward (c : Ciphersuite) :
    method DecryptionRatchet SecretTreeError RatchetKeyMaterial :=
  '(_, key_material) ← on_part ratchet_head
      (fun h r => {| past_secrets := past_secrets r; ratchet_head := h |}) (ratchet_forward c);
  mret key_material.

Definition DecryptionRatchet_secret_for_decryption (c : Ciphersuite) (requested : Z)
    (configuration : SenderRatchetConfiguration) :
    method DecryptionRatchet SecretTreeError RatchetKeyMaterial :=
  self ← get;
  if (generation self <? (u32_MAX - maximum_forward_distance configuration)%u32) &&
     ((generation self + maximum_forward_distance configuration)%u32 <? requested)
  then fail TooDistantInTheFuture
  else if (requested <? generation self) &&
     (out_of_order_tolerance configuration <? (generation self - requested)%u32)
  then fail TooDistantInThePast
  else if generation self <=? requested then
    repeat_m (Z.to_nat (requested - generation self)%u32)
      (ratchet_secrets ← head_forward c;
       modify (set_past (cons (Some ratchet_secrets))));;
    ratchet_secrets ← head_forward c;
    modify (set_past (cons None));;
    modify (prune_past_secrets configuration);;
    mret ratchet_secrets
  else
    let window_index := i32_wrap (i32_wrap (generation self - requested)%u32 - 1) in
    if 0 <=? window_index then
      let index := Z.to_nat window_index in
      match past_secrets self !! index with
      | None => fail IndexOutOfBounds
      | Some entry =>
        modify (set_past (<[index := None]>));;
        lift (ok_or entry SecretReuseError)
      end
    else fail TooDistantInThePast.

(** ** Specification

    The chain of a sender: the ratchet secret and the key material of every
    generation, from the initial secret. *)

Fixpoint chain_secret (c : Ciphersuite) (s0 : Secret) (n : nat) : Secret :=
  match n with
  | O => s0
  | S n => kdf c (chain_secret c s0 n) "secret" (to_be_bytes (Z.of_nat n)) (hash_length c)
  end.

Definition key_material (c : Ciphersuite) (s0 : Secret) (g : Z) : RatchetKeyMaterial :=
  let secret := chain_secret c s0 (Z.to_nat g) in
  (AeadKey_from_secret (kdf c secret "key" (to_be_bytes g) (aead_key_length c)) c,
   kdf c secret "nonce" (to_be_bytes g) (aead_nonce_length c)).

Record window := mkWindow { head : Z; used : gset Z }.

(** What a request for generation [n] does to the window. The cast of the
    distance to [i32] limits the tolerance to [2^31] whatever is configured. *)
Definition window_request (conf : SenderRatchetConfiguration) (n : Z) (w : window) :
    outcome SecretTreeError Z * window :=
  if head w <=? n then
    if (head w <? u32_MAX - maximum_forward_distance conf) &&
       (head w + maximum_forward_distance conf <? n)
    then (Err TooDistantInTheFuture, w)
    else if n =? u32_MAX then (Err RatchetTooLong, {| head := u32_MAX; used := used w |})
    else (Ok n, {| head := n + 1; used := {[ n ]} ∪ used w |})
  else if Z.min (out_of_order_tolerance conf) (2 ^ 31) <? head w - n
    then (Err TooDistantInThePast, w)
  else if decide (n ∈ used w) then (Err SecretReuseError, w)
  else (Ok n, {| head := head w; used := {[ n ]} ∪ used w |}).

(** The ratchet [r] of the sender with initial secret [s0] implements [w]:
    entry [i] of the queue belongs to generation [head - 1 - i], is there
    unless that generation was handed out, and the queue reaches back as far as
    the tolerance asks. *)
Record ratchet_core (c : Ciphersuite) (conf : SenderRatchetConfiguration) (s0 : Secret)
    (r : DecryptionRatchet) (w : window) : Prop := {
  ro_head : ratchet_head r =
    {| ratchet_secret := chain_secret c s0 (Z.to_nat (head w)); ratchet_generation := head w |};
  ro_range : 0 <= head w <= u32_MAX;
  ro_used n : n ∈ used w -> 0 <= n < head w;
  ro_len : Z.min (head w) (out_of_order_tolerance conf) <= Z.of_nat (length (past_secrets r)) <= head w;
  ro_past i e : past_secrets r !! i = Some e ->
    e = if decide (head w - 1 - Z.of_nat i ∈ used w) then None
        else Some (key_material c s0 (head w - 1 - Z.of_nat i))
}.

(** Between calls the queue is also no longer than the tolerance, unless the
    ratchet is exhausted. *)
Definition ratchet_ok (c : Ciphersuite) (conf : SenderRatchetConfiguration) (s0 : Secret)
    (r : DecryptionRatchet) (w : window) : Prop :=
  ratchet_core c conf s0 r w /\
  (head w < u32_MAX -> Z.of_nat (length (past_secrets r)) <= out_of_order_tolerance conf).

Definition config_u32 (conf : SenderRatchetConfiguration) : Prop :=
  0 <= out_of_order_tolerance conf <= u32_MAX /\ 0 <= maximum_forward_distance conf <= u32_MAX.

(** A sequence of requests, with the answer to each. *)
Fixpoint serve {S A} (step : Z -> S -> A * S) (requests : list Z) (s : S) : list A * S :=
  match requests with
  | [] => ([], s)
  | n :: requests =>
    let '(a, s) := step n s in
    let '(answers, s) := serve step requests s in (a :: answers, s)
  end.

Definition answer_of (c : Ciphersuite) (s0 : Secret) (o : outcome SecretTreeError Z) :
    outcome SecretTreeError RatchetKeyMaterial :=
  g ← o; mret (key_material c s0 g).

(** ** Lemmas *)

Context `{!KdfLaws}.

Lemma ratchet_forward_spec c s0 g : 0 <= g <= u32_MAX ->
  ratchet_forward c {| ratchet_secret := chain_secret c s0 (Z.to_nat g); ratchet_generation := g |} =
  if g =? u32_MAX
  then (Err RatchetTooLong,
        {| ratchet_secret := chain_secret c s0 (Z.to_nat g); ratchet_generation := g |})
  else (Ok (g, key_material c s0 g),
        {| ratchet_secret := chain_secret c s0 (Z.to_nat (g + 1)); ratchet_generation := g + 1 |}).
Proof.
  intros Hg. unfold ratchet_forward. run. cbn [ratchet_secret ratchet_generation].
  destruct (Z.eqb_spec g u32_MAX) as [->|Hne]; [done|].
  destruct (lengths_in_range c) as (Hh & Hk & Hn).
  set (s := chain_secret c s0 (Z.to_nat g)).
  unfold derive_tree_secret. run. rewrite Hn. unfold NONCE_BYTES in *.
  destruct (kdf_expand_label_ok c s "nonce" (to_be_bytes g) 12) as [-> Hl]; [lia..|]. cbn.
  destruct (kdf_expand_label_ok c s "key" (to_be_bytes g) (aead_key_length c)) as [-> _]; [lia..|].
  cbn.
  destruct (kdf_expand_label_ok c s "secret" (to_be_bytes g) (hash_length c)) as [-> _]; [lia..|].
  cbn. unfold AeadNonce_from_secret, NONCE_BYTES. rewrite Hl. cbn.
  unfold key_material. rewrite Hn. unfold u32_add. rewrite u32_wrap_small by (unfold u32_MAX in *; lia).
  rewrite Z2Nat.inj_add by lia. rewrite Nat.add_1_r. cbn. by rewrite Z2Nat.id by lia.
Qed.

Lemma head_forward_spec c conf s0 r w : ratchet_core c conf s0 r w ->
  head_forward c r =
  if head w =? u32_MAX then (Err RatchetTooLong, r)
  else (Ok (key_material c s0 (head w)),
        {| past_secrets := past_secrets r;
           ratchet_head := {| ratchet_secret := chain_secret c s0 (Z.to_nat (head w + 1));
                              ratchet_generation := head w + 1 |} |}).
Proof.
  intros [Hh Hr _ _ _]. unfold head_forward. run. rewrite Hh, ratchet_forward_spec by done.
  destruct (head w =? u32_MAX); [|done]. rewrite <- Hh. by destruct r.
Qed.

(** Moving the head on by one generation, handing its secret out or keeping it. *)
Lemma ratchet_core_push c conf s0 r w (out : bool) : config_u32 conf ->
  ratchet_core c conf s0 r w -> head w < u32_MAX ->
  ratchet_core c conf s0
    {| past_secrets := (if out then None else Some (key_material c s0 (head w))) :: past_secrets r;
       ratchet_head := {| ratchet_secret := chain_secret c s0 (Z.to_nat (head w + 1));
                          ratchet_generation := head w + 1 |} |}
    {| head := head w + 1; used := if out then {[ head w ]} ∪ used w else used w |}.
Proof.
  intros [Htol _] [Hh Hr Hu Hl Hp] Hlt.
  assert (Hn : head w ∉ used w) by (intros ?%Hu; lia).
  split; simpl; [done|lia| |lia|].
  - intros n. destruct out; [rewrite elem_of_union, elem_of_singleton; intros [->|?%Hu]|intros ?%Hu]; lia.
  - intros [|i] e; simpl.
    + intros [= <-]. replace (head w + 1 - 1 - Z.of_nat 0) with (head w) by lia.
      destruct out; set_cases.
    + intros Hi. pose proof (lookup_lt_Some _ _ _ Hi).
      rewrite (Hp i e Hi). replace (head w + 1 - 1 - Z.of_nat (S i)) with (head w - 1 - Z.of_nat i) by lia.
      destruct out; [set_cases|done].
Qed.

Lemma ratchet_core_prune c conf s0 r w : config_u32 conf -> ratchet_core c conf s0 r w ->
  ratchet_ok c conf s0 (prune_past_secrets conf r) w.
Proof.
  intros [Htol _] [Hh Hr Hu Hl Hp]. split; [split|]; simpl; try done.
  - rewrite length_take. lia.
  - intros i e [Hi _]%lookup_take_Some. by apply Hp.
  - rewrite length_take. lia.
Qed.

Lemma ratchet_core_take c conf s0 r w i : ratchet_core c conf s0 r w ->
  (i < length (past_secrets r))%nat ->
  ratchet_core c conf s0 (set_past (<[i := None]>) r)
    {| head := head w; used := {[ head w - 1 - Z.of_nat i ]} ∪ used w |}.
Proof.
  intros [Hh Hr Hu Hl Hp] Hi. split; simpl; try done.
  - intros n. rewrite elem_of_union, elem_of_singleton. intros [->|?%Hu]; lia.
  - by rewrite length_insert.
  - intros j e. rewrite list_lookup_insert_Some. intros [(<- & <- & _)|[Hne Hj]].
    + rewrite decide_True; [done|]. apply elem_of_union_l, elem_of_singleton. done.
    + rewrite (Hp j e Hj). set_cases.
Qed.

Lemma ratchet_loop_spec c conf s0 r w k : config_u32 conf -> ratchet_core c conf s0 r w ->
  head w + Z.of_nat k <= u32_MAX ->
  exists r', repeat_m k (ratchet_secrets ← head_forward c;
                         modify (set_past (cons (Some ratchet_secrets)))) r = (Ok (), r') /\
    ratchet_core c conf s0 r' {| head := head w + Z.of_nat k; used := used w |}.
Proof.
  intros Hconf. revert r w. induction k as [|k IH]; intros r w Hr Hk.
  - exists r. split; [done|]. rewrite Z.add_0_r. by destruct w.
  - assert (Hlt : head w < u32_MAX) by lia.
    destruct (IH _ _ (ratchet_core_push _ _ _ _ _ false Hconf Hr Hlt)) as (r' & HE & HC); [simpl; lia|].
    exists r'. split.
    + cbn [repeat_m]. unfold mbind at 1, method_bind at 1. run.
      rewrite (head_forward_spec _ _ _ _ _ Hr). rewrite (proj2 (Z.eqb_neq _ _)) by lia. exact HE.
    + simpl in HC. by replace (head w + Z.of_nat (S k)) with (head w + 1 + Z.of_nat k) by lia.
Qed.

Lemma i32_window d : 0 < d <= u32_MAX ->
  i32_wrap (i32_wrap d - 1) = if d <=? 2 ^ 31 then d - 1 else d - 1 - 2 ^ 32.
Proof.
  intros Hd. unfold i32_wrap, u32_MAX in *.
  replace ((d + 2 ^ 31) mod 2 ^ 32 - 2 ^ 31 - 1 + 2 ^ 31) with ((d + 2 ^ 31) mod 2 ^ 32 - 1) by lia.
  destruct (Z.leb_spec d (2 ^ 31)).
  - destruct (decide (d = 2 ^ 31)) as [->|]; [done|]. rewrite (Z.mod_small (d + _)) by lia. rewrite Z.mod_small; lia.
  - assert ((d + 2 ^ 31) mod 2 ^ 32 = d + 2 ^ 31 - 2 ^ 32) as ->.
    { symmetry. apply (Z.mod_unique_pos _ _ 1); lia. }
    rewrite Z.mod_small; lia.
Qed.

(** A request for a generation the head has not reached. *)
Lemma request_ahead c conf s0 r w n : config_u32 conf -> 0 <= n <= u32_MAX ->
  ratchet_ok c conf s0 r w -> head w <= n ->
  exists r',
    DecryptionRatchet_secret_for_decryption c n conf r =
      (answer_of c s0 (window_request conf n w).1, r') /\
    ratchet_ok c conf s0 r' (window_request conf n w).2.
Proof.
  intros Hconf Hn [Hr Hb] Hle. pose proof (ro_head _ _ _ _ _ Hr) as Hh. destruct (ro_range _ _ _ _ _ Hr).
  unfold DecryptionRatchet_secret_for_decryption, window_request. run. unfold generation. rewrite Hh.
  cbn [ratchet_generation]. rewrite (proj2 (Z.leb_le _ _)) by done.
  rewrite (proj2 (Z.ltb_ge n (head w))) by done. cbn [andb].
  destruct Hconf as [Ht Hm] eqn:EC. clear EC. unfold u32_sub at 1, u32_add at 1.
  rewrite (u32_wrap_small (u32_MAX - _)) by (unfold u32_MAX in *; lia).
  assert (Hfar : (head w <? u32_MAX - maximum_forward_distance conf) &&
      (u32_wrap (head w + maximum_forward_distance conf) <? n) =
    (head w <? u32_MAX - maximum_forward_distance conf) &&
      (head w + maximum_forward_distance conf <? n)).
  { destruct (Z.ltb_spec (head w) (u32_MAX - maximum_forward_distance conf)); [|done].
    rewrite u32_wrap_small by (unfold u32_MAX in *; lia). done. }
  rewrite Hfar. clear Hfar. destruct (_ && _); [by exists r|].
  unfold u32_sub. rewrite u32_wrap_small by (unfold u32_MAX in *; lia).
  destruct (ratchet_loop_spec c conf s0 r w (Z.to_nat (n - head w)) Hconf Hr) as (r1 & E & Hr1); [lia|].
  run. rewrite E. rewrite (head_forward_spec _ _ _ _ _ Hr1). cbn [head].
  rewrite Z2Nat.id in Hr1 |- * by lia. replace (head w + (n - head w)) with n in * by lia.
  destruct (Z.eqb_spec n u32_MAX) as [->|Hne].
  - exists r1. split; [done|]. split; [done|]. simpl. lia.
  - eexists. split; [reflexivity|]. apply ratchet_core_prune; [done|].
    apply (ratchet_core_push _ _ _ _ _ true Hconf Hr1). simpl. lia.
Qed.

(** A request for a generation behind the head. *)
Lemma request_behind c conf s0 r w n : config_u32 conf -> 0 <= n <= u32_MAX ->
  ratchet_ok c conf s0 r w -> n < head w ->
  exists r',
    DecryptionRatchet_secret_for_decryption c n conf r =
      (answer_of c s0 (window_request conf n w).1, r') /\
    ratchet_ok c conf s0 r' (window_request conf n w).2.
Proof.
  intros [Ht Hm] Hn [Hr Hb] Hlt. pose proof (ro_head _ _ _ _ _ Hr) as Hh. destruct (ro_range _ _ _ _ _ Hr).
  unfold DecryptionRatchet_secret_for_decryption, window_request. run. unfold generation. rewrite Hh.
  cbn [ratchet_generation]. rewrite (proj2 (Z.leb_gt _ _)) by done.
  rewrite (proj2 (Z.ltb_lt n (head w))) by done. cbn [andb]. unfold u32_sub, u32_add.
  rewrite (u32_wrap_small (u32_MAX - _)), (u32_wrap_small (head w - n)) by (unfold u32_MAX in *; lia).
  rewrite (i32_window (head w - n)) by lia.
  assert ((head w <? u32_MAX - maximum_forward_distance conf) &&
      (u32_wrap (head w + maximum_forward_distance conf) <? n) = false) as ->.
  { destruct (Z.ltb_spec (head w) (u32_MAX - maximum_forward_distance conf)); [|done].
    rewrite u32_wrap_small by (unfold u32_MAX in *; lia). cbn [andb]. apply Z.ltb_ge. lia. }
  destruct (Z.ltb_spec (out_of_order_tolerance conf) (head w - n)).
  { rewrite (proj2 (Z.ltb_lt (_ `min` _) _)) by lia. by exists r. }
  destruct (Z.leb_spec (head w - n) (2 ^ 31)).
  2: { rewrite (proj2 (Z.ltb_lt (_ `min` _) _)) by lia.
       rewrite (proj2 (Z.leb_gt 0 _)) by (unfold u32_MAX in *; lia). by exists r. }
  rewrite (proj2 (Z.ltb_ge (_ `min` _) _)), (proj2 (Z.leb_le 0 _)) by lia.
  assert (Hlen : (Z.to_nat (head w - n - 1) < length (past_secrets r))%nat).
  { pose proof (ro_len _ _ _ _ _ Hr). lia. }
  destruct (lookup_lt_is_Some_2 _ _ Hlen) as [e He]. rewrite He.
  pose proof (ro_past _ _ _ _ _ Hr _ _ He) as Ee.
  replace (head w - 1 - Z.of_nat (Z.to_nat (head w - n - 1))) with n in Ee by lia.
  pose proof (ratchet_core_take _ _ _ _ _ _ Hr Hlen) as Hr'.
  replace (head w - 1 - Z.of_nat (Z.to_nat (head w - n - 1))) with n in Hr' by lia.
  eexists. rewrite Ee. case_decide; (split; [reflexivity|]); split; simpl;
    try (rewrite length_insert; exact Hb); [|done].
  replace w with {| head := head w; used := {[n]} ∪ used w |} by (destruct w; simpl in *; f_equal; set_solver).
  done.
Qed.

Lemma request_spec c conf s0 r w n : config_u32 conf -> 0 <= n <= u32_MAX ->
  ratchet_ok c conf s0 r w ->
  exists r',
    DecryptionRatchet_secret_for_decryption c n conf r =
      (answer_of c s0 (window_request conf n w).1, r') /\
    ratchet_ok c conf s0 r' (window_request conf n w).2.
Proof.
  intros ???. destruct (Z.le_gt_cases (head w) n); [by apply request_ahead|by apply request_behind].
Qed.

Lemma new_ratchet_ok c conf s0 : config_u32 conf ->
  ratchet_ok c conf s0 (DecryptionRatchet_new s0) {| head := 0; used := ∅ |}.
Proof.
  intros [Ht _]. split; [split|]; simpl; try done; try lia; set_solver.
Qed.

Lemma serve_spec c conf s0 requests r w : config_u32 conf ->
  Forall (fun n => 0 <= n <= u32_MAX) requests -> ratchet_ok c conf s0 r w ->
  exists r', serve (fun n => DecryptionRatchet_secret_for_decryption c n conf) requests r =
      (map (answer_of c s0) (serve (window_request conf) requests w).1, r') /\
    ratchet_ok c conf s0 r' (serve (window_request conf) requests w).2.
Proof.
  intros Hconf Hreq. revert r w. induction Hreq as [|n requests Hn _ IH]; intros r w Hr; cbn [serve].
  - by exists r.
  - destruct (request_spec c conf s0 r w n Hconf Hn Hr) as (r1 & -> & Hr1).
    destruct (window_request conf n w) as [o w1]. cbn [fst snd] in *.
    destruct (IH r1 w1 Hr1) as (r2 & -> & Hr2).
    destruct (serve (window_request conf) requests w1) as [os w2]. by exists r2.
Qed.

(** The generations a sequence of requests was answered with, in order. *)
Definition delivered {A} (requests : list Z) (answers : list (outcome SecretTreeError A)) : list Z :=
  omap (fun '(n, a) => match a with Ok _ => Some n | _ => None end) (zip requests answers).

Lemma delivered_answer_of c s0 requests answers :
  delivered requests (map (answer_of c s0) answers) = delivered requests answers.
Proof.
  revert answers. unfold delivered. induction requests as [|n requests IH]; intros [|a answers]; simpl; try done.
  rewrite IH. by destruct a.
Qed.

Lemma window_request_ok conf n w g w' : window_request conf n w = (Ok g, w') -> g = n.
Proof. unfold window_request. intros E. repeat (case_match; simplify_eq; try done). Qed.

(** The window hands out each generation once and remembers it. *)
Lemma window_request_used conf n w : (forall g, g ∈ used w -> g < head w) ->
  let '(o, w') := window_request conf n w in
  (forall g, g ∈ used w' -> g < head w') /\
  match o with
  | Ok g => g = n /\ n ∉ used w /\ used w' = {[ n ]} ∪ used w
  | _ => used w' = used w
  end.
Proof.
  intros Hu. unfold window_request.
  assert (Hin : n ∈ used w -> n < head w) by apply Hu.
  destruct (Z.leb_spec (head w) n); [destruct (_ && _)|destruct (Z.ltb _ _)]; [done| |done|].
  - destruct (Z.eqb_spec n u32_MAX); simpl; split_and!; try done.
    + intros g ?%Hu. lia.
    + intros g. rewrite elem_of_union, elem_of_singleton. intros [->|?%Hu]; lia.
    + intros ?%Hin. lia.
  - case_decide; simpl; split_and!; try done.
    intros g. rewrite elem_of_union, elem_of_singleton. intros [->|?%Hu]; lia.
Qed.

Lemma serve_window_used conf requests w : (forall g, g ∈ used w -> g < head w) ->
  let '(answers, w') := serve (window_request conf) requests w in
  NoDup (delivered requests answers) /\
  (forall g, g ∈ delivered requests answers -> g ∉ used w) /\
  used w' = list_to_set (delivered requests answers) ∪ used w.
Proof.
  revert w. induction requests as [|n requests IH]; intros w Hu; cbn [serve].
  - split_and!; [constructor|intros ? ?%not_elem_of_nil; done|set_solver].
  - pose proof (window_request_used conf n w Hu) as Hw.
    destruct (window_request conf n w) as [o w1]. destruct Hw as [Hu1 Ho].
    specialize (IH w1 Hu1). destruct (serve _ requests w1) as [answers w2].
    destruct IH as (Hnd & Hfresh & Hset). unfold delivered. cbn [zip zip_with omap list_omap].
    fold (delivered requests answers). destruct o as [g|e|].
    + destruct Ho as (-> & Hn & E1). rewrite E1 in *. split_and!.
      * constructor; [|done]. intros ?%Hfresh. set_solver.
      * intros g [->|Hg]%elem_of_cons; [done|]. specialize (Hfresh g Hg). set_solver.
      * rewrite Hset. set_solver.
    + rewrite Ho in *. done.
    + rewrite Ho in *. done.
Qed.

(** A fresh ratchet after a sequence of requests. *)
Definition after_requests (c : Ciphersuite) (conf : SenderRatchetConfiguration) (s0 : Secret)
    (requests : list Z) :=
  serve (fun n => DecryptionRatchet_secret_for_decryption c n conf) requests (DecryptionRatchet_new s0).

(** ** Theorems *)

(** C23: a decryption ratchet implements the window specification over every
    sequence of requests: each request is answered with the key material of
    the requested generation or with the error the window prescribes
    (too far ahead, too far behind, already handed out, ratchet exhausted),
    and the queue of past secrets never holds more entries than the
    out-of-order tolerance until the ratchet is exhausted. *)
Theorem decryption_ratchet_refines_window c conf s0 requests :
  config_u32 conf -> Forall (fun n => 0 <= n <= u32_MAX) requests ->
  let '(answers, r) := after_requests c conf s0 requests in
  let '(expected, w) := serve (window_request conf) requests {| head := 0; used := ∅ |} in
  answers = map (answer_of c s0) expected /\ generation r = head w /\
  (head w < u32_MAX -> Z.of_nat (length (past_secrets r)) <= out_of_order_tolerance conf).
Proof.
  intros Hconf Hreq. unfold after_requests.
  destruct (serve_spec c conf s0 requests _ _ Hconf Hreq (new_ratchet_ok c conf s0 Hconf))
    as (r & -> & Hr & Hb).
  destruct (serve _ _ _) as [expected w]. unfold generation. by rewrite (ro_head _ _ _ _ _ Hr).
Qed.

(** Forward secrecy within an epoch: no generation is handed out twice,
    and after any sequence of requests every secret still in the queue is that
    of a generation behind the head which was never handed out. *)
Theorem decryption_ratchet_forward_secrecy c conf s0 requests :
  config_u32 conf -> Forall (fun n => 0 <= n <= u32_MAX) requests ->
  let '(answers, r) := after_requests c conf s0 requests in
  NoDup (delivered requests answers) /\
  forall km, Some km ∈ past_secrets r ->
    exists g, 0 <= g < generation r /\ km = key_material c s0 g /\ g ∉ delivered requests answers.
Proof.
  intros Hconf Hreq. unfold after_requests.
  destruct (serve_spec c conf s0 requests _ _ Hconf Hreq (new_ratchet_ok c conf s0 Hconf))
    as (r & -> & [Hh Hr Hu Hl Hp] & Hb).
  pose proof (serve_window_used conf requests {| head := 0; used := ∅ |}) as Hw.
  destruct (serve _ _ _) as [expected w]. rewrite delivered_answer_of.
  destruct Hw as (Hnd & _ & Hset); [simpl; set_solver|]. split; [done|].
  intros km [i Hi]%list_elem_of_lookup. pose proof (lookup_lt_Some _ _ _ Hi).
  specialize (Hp _ _ Hi). exists (head w - 1 - Z.of_nat i).
  unfold generation. rewrite Hh. cbn [ratchet_generation fst snd] in *.
  case_decide as Hd; [done|]. simplify_eq. split_and!; [lia..|done|].
  rewrite Hset in Hd. set_solver.
Qed.

Lemma encryption_spec c s0 k g : 0 <= g -> g + Z.of_nat k <= u32_MAX ->
  serve (fun _ => ratchet_forward c) (replicate k 0)
    {| ratchet_secret := chain_secret c s0 (Z.to_nat g); ratchet_generation := g |} =
  (map (fun i => Ok (i, key_material c s0 i)) (seqZ g (Z.of_nat k)),
   {| ratchet_secret := chain_secret c s0 (Z.to_nat (g + Z.of_nat k));
      ratchet_generation := g + Z.of_nat k |}).
Proof.
  revert g. induction k as [|k IH]; intros g Hg Hk.
  - simpl. by rewrite Z.add_0_r.
  - cbn [replicate serve]. rewrite ratchet_forward_spec by lia.
    rewrite (proj2 (Z.eqb_neq _ _)) by lia. rewrite IH by lia.
    rewrite (seqZ_cons g (Z.of_nat (S k))) by lia.
    replace (Z.pred (Z.of_nat (S k))) with (Z.of_nat k) by lia.
    by replace (g + 1 + Z.of_nat k) with (g + Z.of_nat (S k)) by lia.
Qed.

(** C36: sender and receiver agree: the sender's ratchet numbers its messages
    0, 1, 2, ... and the key material it uses for message [n] is the one every
    receiver's ratchet of the same secret answers a request for [n] with,
    whatever was requested before and in whatever order. *)
Theorem sender_receiver_agree c conf s0 requests k i n km :
  config_u32 conf -> Forall (fun n => 0 <= n <= u32_MAX) requests ->
  0 <= n < Z.of_nat k -> Z.of_nat k <= u32_MAX ->
  requests !! i = Some n ->
  (after_requests c conf s0 requests).1 !! i = Some (Ok km) ->
  (serve (fun _ => ratchet_forward c) (replicate k 0) (initial_ratchet_secret s0)).1 !! Z.to_nat n
    = Some (Ok (n, km)).
Proof.
  intros Hconf Hreq Hn Hk Hi Ha. unfold after_requests in Ha.
  destruct (serve_spec c conf s0 requests _ _ Hconf Hreq (new_ratchet_ok c conf s0 Hconf))
    as (r & E & _). rewrite E in Ha. clear E. cbn [fst] in Ha.
  rewrite list_lookup_fmap in Ha.
  assert (Hserve : forall w o, (serve (window_request conf) requests w).1 !! i = Some (Ok o) -> o = n).
  { clear Ha. revert i Hi. clear Hreq. induction requests as [|m requests IH]; intros i Hi w o; [done|].
    cbn [serve]. destruct (window_request conf m w) as [o1 w1] eqn:E1.
    destruct (serve _ requests w1) as [os w2] eqn:E2. destruct i as [|i]; simpl in Hi |- *.
    - simplify_eq. intros [= ->]. by apply window_request_ok in E1.
    - intros Ho. apply (IH i Hi w1). by rewrite E2. }
  destruct (_ !! i) as [o|] eqn:Eo in Ha; [|done]. simpl in Ha. injection Ha as Ha.
  destruct o as [g| |]; [|done..]. apply Hserve in Eo as ->. cbn in Ha. injection Ha as <-.
  change (initial_ratchet_secret s0) with
    {| ratchet_secret := chain_secret c s0 (Z.to_nat 0); ratchet_generation := 0 |}.
  rewrite encryption_spec by lia. cbn [fst]. rewrite list_lookup_fmap, lookup_seqZ_lt by lia.
  simpl. by rewrite Z2Nat.id by lia.
Qed.

End Ratchets.

(** ** Witnesses *)

Definition sample_config : SenderRatchetConfiguration :=
  {| out_of_order_tolerance := 2; maximum_forward_distance := 4 |}.

Definition sample_suite : Ciphersuite := MLS_128_DHKEMX25519_AES128GCM_SHA256_Ed25519.

(** In order, skipping ahead, filling a gap, a replay, too far back and too far ahead. *)
Definition sample_requests : list Z := [0; 3; 2; 2; 1; 9].

Definition sample_answers :=
  (@after_requests toy_crypto sample_suite sample_config [1; 2; 3] sample_requests).1.

Lemma sample_config_u32 : config_u32 sample_config.
Proof. vm_compute. repeat split; discriminate. Qed.

Lemma sample_requests_u32 : Forall (fun n => 0 <= n <= u32_MAX) sample_requests.
Proof. repeat (constructor; [vm_compute; split; discriminate|]). constructor. Qed.

Lemma decryption_ratchet_refines_window_witness :
  sample_answers =
  map (@answer_of toy_crypto sample_suite [1; 2; 3])
    [Ok 0; Ok 3; Ok 2; Err SecretReuseError; Err TooDistantInThePast; Err TooDistantInTheFuture].
Proof.
  pose proof (@decryption_ratchet_refines_window toy_crypto toy_laws sample_suite sample_config [1; 2; 3]
    sample_requests sample_config_u32 sample_requests_u32) as H.
  unfold sample_answers. destruct (after_requests _ _ _ _) as [answers r].
  cbn [fst]. destruct H as [-> _]. vm_compute. reflexivity.
Defined.

Lemma decryption_ratchet_forward_secrecy_witness : NoDup (delivered sample_requests sample_answers).
Proof.
  pose proof (@decryption_ratchet_forward_secrecy toy_crypto toy_laws sample_suite sample_config [1; 2; 3]
    sample_requests sample_config_u32 sample_requests_u32) as H.
  unfold sample_answers. destruct (after_requests _ _ _ _) as [answers r]. apply H.
Defined.

Lemma sender_receiver_agree_witness :
  (serve (fun _ => @ratchet_forward toy_crypto sample_suite) (replicate 4 0)
     (initial_ratchet_secret [1; 2; 3])).1 !! Z.to_nat 2 =
  Some (Ok (2, @key_material toy_crypto sample_suite [1; 2; 3] 2)).
Proof.
  apply (@sender_receiver_agree toy_crypto toy_laws sample_suite sample_config [1; 2; 3]
    sample_requests 4 2 2 _ sample_config_u32 sample_requests_u32); [lia|vm_compute; discriminate|done|].
  vm_compute. reflexivity.
Defined.
