(* ===== verification/SecretTree.v ===== *)
(** * The secret tree

    Models [SecretTree] of [openmls/src/tree/secret_tree.rs]: the tree of
    node secrets that are expanded lazily from the encryption secret, and the
    sender ratchets of the leaves.

    The specification gives every sender two windows (handshake and
    application) over the chain its leaf secret determines, and the own leaf
    two counters; the theorems say that lazy expansion in any order of requests
    implements it, and which node secrets remain stored. *)

From Stdlib Require Import String.
From stdpp Require Import functions.
From S2P Require Import Prelude TreeMath Crypto SenderRatchet.

(** ** Data *)

Inductive ContentType := ContentApplication | ContentProposal | ContentCommit.

Inductive SecretType := HandshakeSecret | ApplicationSecret.

#[export] Instance SecretType_eq_dec : EqDecision SecretType.
Proof. solve_decision. Defined.

Definition SecretType_from (content_type : ContentType) : SecretType :=
  match content_type with
  | ContentApplication => ApplicationSecret
  | ContentCommit => HandshakeSecret
  | ContentProposal => HandshakeSecret
  end.

Record SecretTreeNode := mkSecretTreeNode { node_secret : Secret }.

Record SecretTree := mkSecretTree {
  st_own_index : LeafNodeIndex;
  leaf_nodes : list (option SecretTreeNode);
  parent_nodes : list (option SecretTreeNode);
  handshake_sender_ratchets : list (option SenderRatchet);
  application_sender_ratchets : list (option SenderRatchet);
  st_size : TreeSize
}.

(** ** Operations *)

Definition get_node (index : TreeNodeIndex) (self : SecretTree) :
    outcome SecretTreeError (option SecretTreeNode) :=
  match index with
  | Leaf i => ok_or (leaf_nodes self !! Z.to_nat i) IndexOutOfBounds
  | Parent i => ok_or (parent_nodes self !! Z.to_nat i) IndexOutOfBounds
  end.

Definition set_leaf_nodes (l : list (option SecretTreeNode)) (t : SecretTree) : SecretTree :=
  mkSecretTree (st_own_index t) l (parent_nodes t) (handshake_sender_ratchets t)
    (application_sender_ratchets t) (st_size t).
Definition set_parent_nodes (l : list (option SecretTreeNode)) (t : SecretTree) : SecretTree :=
  mkSecretTree (st_own_index t) (leaf_nodes t) l (handshake_sender_ratchets t)
    (application_sender_ratchets t) (st_size t).
Definition set_ratchets (ty : SecretType) (l : list (option SenderRatchet)) (t : SecretTree) :
    SecretTree :=
  match ty with
  | HandshakeSecret => mkSecretTree (st_own_index t) (leaf_nodes t) (parent_nodes t) l
      (application_sender_ratchets t) (st_size t)
  | ApplicationSecret => mkSecretTree (st_own_index t) (leaf_nodes t) (parent_nodes t)
      (handshake_sender_ratchets t) l (st_size t)
  end.

(** [*v.get_mut(i).ok_or(IndexOutOfBounds)? = x] *)
Definition write_at {A S} (read : S -> list A) (write : list A -> S -> S) (i : Z) (x : A) :
    method S SecretTreeError () :=
  self ← get;
  if decide (Z.to_nat i < length (read self))%nat
  then modify (fun s => write (<[Z.to_nat i := x]> (read s)) s)
  else fail IndexOutOfBounds.

Definition set_node (index : TreeNodeIndex) (node : option SecretTreeNode) :
    method SecretTree SecretTreeError () :=
  match index with
  | Leaf i => write_at leaf_nodes set_leaf_nodes i node
  | Parent i => write_at parent_nodes set_parent_nodes i node
  end.

Definition SecretTree_new (encryption_secret : Secret) (size : TreeSize) (own_index : LeafNodeIndex) :
    SecretTree :=
  let leaf_count := Z.to_nat (TreeSize_leaf_count size) in
  let secret_tree := {|
    st_own_index := own_index;
    leaf_nodes := replicate leaf_count None;
    parent_nodes := replicate leaf_count None;
    handshake_sender_ratchets := replicate leaf_count None;
    application_sender_ratchets := replicate leaf_count None;
    st_size := size |} in
  (set_node (root size) (Some {| node_secret := encryption_secret |}) secret_tree).2.

Definition ratchets (secret_type : SecretType) (self : SecretTree) : list (option SenderRatchet) :=
  match secret_type with
  | HandshakeSecret => handshake_sender_ratchets self
  | ApplicationSecret => application_sender_ratchets self
  end.

Definition ratchet_opt (index : LeafNodeIndex) (secret_type : SecretType) (self : SecretTree) :
    outcome SecretTreeError (option SenderRatchet) :=
  match ratchets secret_type self !! Z.to_nat index with
  | Some sender_ratchet_option => Ok sender_ratchet_option
  | None => Err IndexOutOfBounds
  end.

(** [ratchet_mut] gives access to the ratchet, which the caller then updates
    in place with a method of the ratchet. *)
Definition ratchet_mut {A} (index : LeafNodeIndex) (secret_type : SecretType)
    (use : method SenderRatchet SecretTreeError A) : method SecretTree SecretTreeError A :=
  self ← get;
  match mjoin (ratchets secret_type self !! Z.to_nat index) with
  | None => fail IndexOutOfBounds
  | Some ratchet =>
    let '(result, ratchet) := use ratchet in
    modify (set_ratchets secret_type
      (<[Z.to_nat index := Some ratchet]> (ratchets secret_type self)));;
    lift result
  end.

Section Operations.
Context `{!OpenMlsCrypto}.

Definition expand (c : Ciphersuite) (secret : Secret) (label : string) (context : string) :
    outcome SecretTreeError Secret :=
  map_err SecretTreeCryptoError
    (kdf_expand_label secret c label (str_bytes context) (hash_length c)).

Definition derive_down (c : Ciphersuite) (index_in_tree : ParentNodeIndex) :
    method SecretTree SecretTreeError () :=
  self ← get;
  node ← lift (get_node (Parent index_in_tree) self);
  match node with
  | None => fail SecretTreeLibraryError
  | Some node =>
    let left_index := left index_in_tree in
    let right_index := right index_in_tree in
    left_secret ← lift (expand c (node_secret node) "tree" "left");
    right_secret ← lift (expand c (node_secret node) "tree" "right");
    set_node left_index (Some {| node_secret := left_secret |});;
    set_node right_index (Some {| node_secret := right_secret |});;
    set_node (Parent index_in_tree) None
  end.

(** The loop that collects the direct path up to the first stored node. *)
Fixpoint collect_empty (path : list ParentNodeIndex) (self : SecretTree) :
    outcome SecretTreeError (list ParentNodeIndex) :=
  match path with
  | [] => Ok []
  | parent_node :: path =>
    node ← get_node (Parent parent_node) self;
    match node with
    | Some _ => Ok [parent_node]
    | None => rest ← collect_empty path self; Ok (parent_node :: rest)
    end
  end.

Definition is_some {A} (o : option A) : bool := match o with Some _ => true | None => false end.

Definition new_ratchet (own : bool) (secret : Secret) : SenderRatchet :=
  if own then EncryptionRatchetOf (initial_ratchet_secret secret)
  else DecryptionRatchetOf (DecryptionRatchet_new secret).

(** The branch that derives the leaf's node secret when it is not stored. *)
Definition derive_leaf (c : Ciphersuite) (index : LeafNodeIndex) : method SecretTree SecretTreeError () :=
  self ← get;
  leaf ← lift (get_node (Leaf index) self);
  if is_some leaf then mret tt
  else
    empty_nodes ← lift (collect_empty (direct_path index (st_size self)) self);
    for_each_m (rev empty_nodes) (derive_down c).

Definition initialize_sender_ratchets (c : Ciphersuite) (index : LeafNodeIndex) :
    method SecretTree SecretTreeError () :=
  self ← get;
  if TreeSize_leaf_count (st_size self) <=? index then fail IndexOutOfBounds
  else
    handshake ← lift (ratchet_opt index HandshakeSecret self);
    application ← (if is_some handshake
                   then lift (ratchet_opt index ApplicationSecret self) else mret None);
    if is_some handshake && is_some application then mret tt
    else
      derive_leaf c index;;
      self ← get;
      node ← lift (get_node (Leaf index) self);
      match node with
      | None => fail SecretTreeLibraryError
      | Some node =>
        handshake_ratchet_secret ← lift (expand c (node_secret node) "handshake" "");
        application_ratchet_secret ← lift (expand c (node_secret node) "application" "");
        let own := index =? st_own_index self in
        write_at (ratchets HandshakeSecret) (set_ratchets HandshakeSecret) index
          (Some (new_ratchet own handshake_ratchet_secret));;
        write_at (ratchets ApplicationSecret) (set_ratchets ApplicationSecret) index
          (Some (new_ratchet own application_ratchet_secret));;
        set_node (Leaf index) None
      end.

Definition use_for_decryption (c : Ciphersuite) (generation : Z)
    (configuration : SenderRatchetConfiguration) :
    method SenderRatchet SecretTreeError RatchetKeyMaterial := fun r =>
  match r with
  | EncryptionRatchetOf _ => (Err RatchetTypeError, r)
  | DecryptionRatchetOf d =>
    let '(o, d) := DecryptionRatchet_secret_for_decryption c generation configuration d in
    (o, DecryptionRatchetOf d)
  end.

Definition use_for_encryption (c : Ciphersuite) :
    method SenderRatchet SecretTreeError (Z * RatchetKeyMaterial) := fun r =>
  match r with
  | DecryptionRatchetOf _ => (Err RatchetTypeError, r)
  | EncryptionRatchetOf e => let '(o, e) := ratchet_forward c e in (o, EncryptionRatchetOf e)
  end.

Definition ensure_ratchet (c : Ciphersuite) (index : LeafNodeIndex) (secret_type : SecretType) :
    method SecretTree SecretTreeError () :=
  self ← get;
  ratchet ← lift (ratchet_opt index secret_type self);
  if is_some ratchet then mret tt else initialize_sender_ratchets c index.

Definition secret_for_decryption (c : Ciphersuite) (index : LeafNodeIndex) (secret_type : SecretType)
    (generation : Z) (configuration : SenderRatchetConfiguration) :
    method SecretTree SecretTreeError RatchetKeyMaterial :=
  self ← get;
  if TreeSize_leaf_count (st_size self) <=? index then fail IndexOutOfBounds
  else
    ensure_ratchet c index secret_type;;
    ratchet_mut index secret_type (use_for_decryption c generation configuration).

Definition secret_for_encryption (c : Ciphersuite) (index : LeafNodeIndex) (secret_type : SecretType) :
    method SecretTree SecretTreeError (Z * RatchetKeyMaterial) :=
  ensure_ratchet c index secret_type;;
  ratchet_mut index secret_type (use_for_encryption c).

(** ** Specification *)

(** The secret of the node at level [k], position [m], of a tree of height [h]:
    [depth] steps down from the encryption secret [s0]. *)
Fixpoint secret_at_depth (c : Ciphersuite) (s0 : Secret) (depth : nat) (m : Z) : Secret :=
  match depth with
  | O => s0
  | S depth =>
    kdf c (secret_at_depth c s0 depth (m / 2)) "tree"
      (str_bytes (if Z.even m then "left" else "right")) (hash_length c)
  end.

Definition secret_at (c : Ciphersuite) (s0 : Secret) (h k m : Z) : Secret :=
  secret_at_depth c s0 (Z.to_nat (h - k)) m.

Definition sender_secret (c : Ciphersuite) (s0 : Secret) (h i : Z) (ty : SecretType) : Secret :=
  kdf c (secret_at c s0 h 0 i)
    (match ty with HandshakeSecret => "handshake" | ApplicationSecret => "application" end)
    (str_bytes "") (hash_length c).

(** Whether a leaf below the node at level [k], position [m] is among [used]. *)
Definition touched (used : list Z) (k m : Z) : bool := existsb (fun i => i / 2 ^ k =? m) used.

(** The nodes whose secrets are stored when the nodes of [t] were expanded: those
    just below the expanded part. *)
Definition stored (t : Z -> Z -> bool) (h k m : Z) : bool :=
  negb (t k m) && ((k =? h) || t (k + 1) (m / 2)).

(** The vectors of a secret tree for a tree of height [h]. *)
Record shape (h : Z) (t : SecretTree) : Prop := {
  sh_size : st_size t = tree_size h;
  sh_leaves : Z.of_nat (length (leaf_nodes t)) = 2 ^ h;
  sh_parents : Z.of_nat (length (parent_nodes t)) = 2 ^ h;
  sh_ratchets ty : Z.of_nat (length (ratchets ty t)) = 2 ^ h
}.

(** The node secrets stored in [t] are those of [stored expanded]. *)
Definition holds (c : Ciphersuite) (s0 : Secret) (h : Z) (expanded : Z -> Z -> bool) (t : SecretTree) :
    Prop :=
  forall k m, in_tree h k m ->
    get_node (index_at k m) t =
    Ok (if stored expanded h k m then Some {| node_secret := secret_at c s0 h k m |} else None).

(** Only node secrets differ. *)
Definition same_ratchets (t t' : SecretTree) : Prop :=
  st_own_index t' = st_own_index t /\ forall ty, ratchets ty t' = ratchets ty t.

(** The senders of an epoch: the window of every other member's ratchets and
    the number of messages sent with the own ones. *)
Record senders := mkSenders {
  windows : Z * SecretType -> window;
  sent : SecretType -> Z
}.

Definition initial_senders : senders :=
  {| windows := fun _ => {| head := 0; used := ∅ |}; sent := fun _ => 0 |}.

Inductive request :=
| Decrypt (index : LeafNodeIndex) (ty : SecretType) (generation : Z)
| Encrypt (index : LeafNodeIndex) (ty : SecretType).

(** What a request is answered with: a generation and its key material. *)
Definition answer := outcome SecretTreeError (Z * RatchetKeyMaterial).

Definition sender_step (c : Ciphersuite) (conf : SenderRatchetConfiguration) (s0 : Secret) (h own : Z)
    (rq : request) (s : senders) : answer * senders :=
  match rq with
  | Decrypt i ty n =>
    if 2 ^ h <=? i then (Err IndexOutOfBounds, s)
    else if i =? own then (Err RatchetTypeError, s)
    else
      let '(o, w) := window_request conf n (windows s (i, ty)) in
      (g ← o; mret (g, key_material c (sender_secret c s0 h i ty) g),
       {| windows := <[(i, ty) := w]> (windows s); sent := sent s |})
  | Encrypt i ty =>
    if 2 ^ h <=? i then (Err IndexOutOfBounds, s)
    else if negb (i =? own) then (Err RatchetTypeError, s)
    else if sent s ty =? u32_MAX then (Err RatchetTooLong, s)
    else (Ok (sent s ty, key_material c (sender_secret c s0 h i ty) (sent s ty)),
          {| windows := windows s; sent := <[ty := sent s ty + 1]> (sent s) |})
  end.

Definition tree_step (c : Ciphersuite) (conf : SenderRatchetConfiguration) (rq : request)
    (t : SecretTree) : answer * SecretTree :=
  match rq with
  | Decrypt i ty n =>
    let '(o, t) := secret_for_decryption c i ty n conf t in (km ← o; mret (n, km), t)
  | Encrypt i ty => secret_for_encryption c i ty t
  end.

(** A sequence of requests, with the answer to each. *)
Fixpoint serve_all {S} (step : request -> S -> answer * S) (requests : list request) (s : S) :
    list answer * S :=
  match requests with
  | [] => ([], s)
  | rq :: requests =>
    let '(a, s) := step rq s in
    let '(answers, s) := serve_all step requests s in (a :: answers, s)
  end.

Definition request_u32 (rq : request) : Prop :=
  match rq with
  | Decrypt i _ n => 0 <= i <= u32_MAX /\ 0 <= n <= u32_MAX
  | Encrypt i _ => 0 <= i <= u32_MAX
  end.

(** The ratchet of sender [i] implements its window or counter. *)
Definition ratchet_rel (c : Ciphersuite) (conf : SenderRatchetConfiguration) (s0 : Secret) (h own : Z)
    (s : senders) (i : Z) (ty : SecretType) (r : SenderRatchet) : Prop :=
  match r with
  | EncryptionRatchetOf e => i = own /\ 0 <= sent s ty <= u32_MAX /\
      e = {| ratchet_secret := chain_secret c (sender_secret c s0 h i ty) (Z.to_nat (sent s ty));
             ratchet_generation := sent s ty |}
  | DecryptionRatchetOf d => i <> own /\
      ratchet_ok c conf (sender_secret c s0 h i ty) d (windows s (i, ty))
  end.

(** The tree in which the ratchets of [ready] have been initialised. *)
Record tree_ok (c : Ciphersuite) (conf : SenderRatchetConfiguration) (s0 : Secret) (h own : Z)
    (ready : list Z) (s : senders) (t : SecretTree) : Prop := {
  to_shape : shape h t;
  to_own : st_own_index t = own;
  to_nodes : holds c s0 h (touched ready) t;
  to_ratchets i ty : 0 <= i < 2 ^ h -> exists o,
    ratchets ty t !! Z.to_nat i = Some o /\
    is_some o = touched ready 0 i /\
    ratchet_rel c conf s0 h own s i ty
      (default (new_ratchet (i =? own) (sender_secret c s0 h i ty)) o)
}.

(** ** Lemmas *)

Lemma set_node_spec h k m v t : height h -> shape h t -> in_tree h k m ->
  exists t', set_node (index_at k m) v t = (Ok (), t') /\ shape h t' /\ same_ratchets t t' /\
    (forall k' m', in_tree h k' m' ->
       get_node (index_at k' m') t' =
       if decide ((k', m') = (k, m)) then Ok v else get_node (index_at k' m') t).
Proof.
  intros Hh [Hsz Hl Hp Hr] Hin. pose proof (in_tree_slot _ _ _ Hh Hin) as Hs.
  pose proof (in_tree_coord _ _ _ Hh Hin) as Hc.
  assert (Hother : forall k' m', in_tree h k' m' -> (k', m') <> (k, m) -> index_at k' m' <> index_at k m).
  { intros k' m' Hin' Hne E. apply Hne. apply in_tree_coord in Hin'; [|done].
    by destruct (index_at_inj _ _ _ _ Hin' Hc E) as [-> ->]. }
  unfold set_node, write_at. run.
  destruct (index_at k m) as [i|i] eqn:Ei; rewrite decide_True by lia; eexists;
    (split; [reflexivity|]); (split; [split; try done; simpl; rewrite ?length_insert; try done|]).
  all: try (intros ty; specialize (Hr ty); by destruct ty).
  all: (split; [split; [done|by intros []]|]); intros k' m' Hin'; pose proof (in_tree_slot _ _ _ Hh Hin') as Hs'.
  all: case_decide as E; [simplify_eq; rewrite Ei; simpl; by rewrite list_lookup_insert_eq by lia|].
  all: specialize (Hother _ _ Hin' E); destruct (index_at k' m') as [j|j]; simpl; try done;
    rewrite list_lookup_insert_ne; [done|]; intros ?; apply Hother; f_equal; lia.
Qed.

Lemma secret_at_child c s0 h k m b : 0 < k <= h -> 0 <= b <= 1 ->
  secret_at c s0 h (k - 1) (2 * m + b) =
  kdf c (secret_at c s0 h k m) "tree" (str_bytes (if b =? 0 then "left" else "right")) (hash_length c).
Proof.
  intros Hk Hb. unfold secret_at. replace (Z.to_nat (h - (k - 1))) with (S (Z.to_nat (h - k))) by lia.
  cbn [secret_at_depth]. rewrite (Z.mul_comm 2), Z.div_add_l, (Z.div_small b), Z.add_0_r by lia.
  replace (m * 2 + b) with (b + 2 * m) by lia. rewrite Z.even_add_mul_2. assert (b = 0 \/ b = 1) as [->| ->] by lia; done.
Qed.

(** [expanded] with the path of leaf [i] expanded as well, above level [l]. *)
Definition with_path (expanded : Z -> Z -> bool) (i l k m : Z) : bool :=
  expanded k m || ((l <? k) && (i / 2 ^ k =? m)).

(** A node is expanded when one of its children is. *)
Definition upward (expanded : Z -> Z -> bool) : Prop :=
  forall k m, 0 <= k -> expanded k m = true -> expanded (k + 1) (m / 2) = true.

Lemma touched_upward used : upward (touched used).
Proof.
  intros k m Hk [i [Hi E]]%existsb_exists. apply existsb_exists. exists i. split; [done|].
  apply Z.eqb_eq in E. apply Z.eqb_eq. rewrite pow2_succ by lia. pose proof (pow2_pos k).
  rewrite (Z.mul_comm 2), <- Z.div_div by lia. by rewrite E.
Qed.

(** What expanding the path node of level [l] does to the stored set. *)
Lemma stored_step expanded h i l k m : upward expanded -> 0 < l <= h -> 0 <= k <= h ->
  expanded l (i / 2 ^ l) = false ->
  stored (with_path expanded i (l - 1)) h k m =
  if decide ((k, m) = (l, i / 2 ^ l)) then false
  else if decide (k = l - 1 /\ m / 2 = i / 2 ^ l) then true
  else stored (with_path expanded i l) h k m.
Proof.
  intros Hup Hl Hk Hne. unfold stored, with_path.
  destruct (Z.ltb_spec (l - 1) k) as [H1|H1], (Z.ltb_spec l k) as [H2|H2], (Z.ltb_spec (l - 1) (k + 1)),
    (Z.ltb_spec l (k + 1)); try lia; cbn [andb]; rewrite ?orb_false_r.
  - case_decide; simplify_eq; [lia|]. case_decide; [lia|]. done.
  - assert (k = l) as -> by lia. destruct (Z.eqb_spec (i / 2 ^ l) m) as [<-|Hm].
    + rewrite decide_True by done. by rewrite orb_true_r.
    + rewrite decide_False, decide_False by (congruence || lia). by rewrite orb_false_r.
  - assert (k = l - 1) as -> by lia. rewrite decide_False by (intros [=]; lia).
    replace (l - 1 + 1) with l by lia. destruct (Z.eqb_spec (i / 2 ^ l) (m / 2)) as [E|E].
    + rewrite decide_True by done. rewrite orb_true_r, orb_true_r, andb_true_r.
      destruct (expanded (l - 1) m) eqn:Em; [|done]. apply Hup in Em; [|lia].
      replace (l - 1 + 1) with l in Em by lia. rewrite <- E in Em. congruence.
    + rewrite decide_False by (intros [? ?]; congruence). by rewrite orb_false_r.
  - rewrite decide_False, decide_False by (intros ?; simplify_eq; lia). done.
Qed.

Context `{!KdfLaws}.

Lemma expand_ok c secret label context :
  expand c secret label context = Ok (kdf c secret label (str_bytes context) (hash_length c)).
Proof.
  unfold expand. destruct (lengths_in_range c) as (Hh & _ & _).
  by destruct (kdf_expand_label_ok c secret label (str_bytes context) (hash_length c)) as [-> _]; [lia..|].
Qed.

Lemma derive_down_spec c s0 h expanded i l t : leaf_in h i -> upward expanded ->
  0 < l <= h -> expanded l (i / 2 ^ l) = false ->
  shape h t -> holds c s0 h (with_path expanded i l) t ->
  exists t', derive_down c (pnode l (i / 2 ^ l)) t = (Ok (), t') /\ shape h t' /\
    same_ratchets t t' /\ holds c s0 h (with_path expanded i (l - 1)) t'.
Proof.
  intros Hi Hup Hl Hne Hsh Hholds. pose proof (proj1 Hi) as Hh.
  pose proof (in_tree_path h i l Hi ltac:(lia)) as Hin. set (m := i / 2 ^ l) in *.
  pose proof (in_tree_coord _ _ _ Hh Hin) as Hc.
  unfold derive_down. rewrite index_at_parent by lia. run. rewrite (Hholds l m Hin).
  assert (stored (with_path expanded i l) h l m = true) as ->.
  { unfold stored, with_path. rewrite Hne, Z.ltb_irrefl. cbn [andb orb negb].
    destruct (Z.eqb_spec l h) as [->|]; [done|]. unfold m. rewrite path_step, Z.eqb_refl by lia.
    rewrite (proj2 (Z.ltb_lt l (l + 1))) by lia. cbn [andb]. by rewrite orb_true_r. }
  cbn [node_secret]. rewrite !expand_ok.
  rewrite (left_pnode _ _ Hc), (right_pnode _ _ Hc) by lia.
  pose proof (in_tree_child h l m 0 ltac:(lia) Hin ltac:(lia)) as HinL.
  pose proof (in_tree_child h l m 1 ltac:(lia) Hin ltac:(lia)) as HinR. rewrite Z.add_0_r in HinL.
  pose proof (secret_at_child c s0 h l m 0 Hl ltac:(lia)) as EL. rewrite Z.add_0_r in EL.
  pose proof (secret_at_child c s0 h l m 1 Hl ltac:(lia)) as ER. cbn [Z.eqb] in EL, ER.
  rewrite <- EL, <- ER.
  destruct (set_node_spec h _ _ (Some {| node_secret := secret_at c s0 h (l - 1) (2 * m) |}) t Hh Hsh HinL)
    as (t1 & -> & Hsh1 & Hf1 & Hg1).
  destruct (set_node_spec h _ _ (Some {| node_secret := secret_at c s0 h (l - 1) (2 * m + 1) |}) t1 Hh Hsh1 HinR)
    as (t2 & -> & Hsh2 & Hf2 & Hg2).
  destruct (set_node_spec h _ _ None t2 Hh Hsh2 Hin) as (t3 & -> & Hsh3 & Hf3 & Hg3).
  exists t3. split_and!; [done|done| |].
  - destruct Hf1 as [? E1], Hf2 as [? E2], Hf3 as [? E3]. split; [congruence|].
    intros ty. by rewrite E3, E2, E1.
  - intros k m' Hin'. rewrite (Hg3 _ _ Hin'), (Hg2 _ _ Hin'), (Hg1 _ _ Hin'), (Hholds _ _ Hin').
    rewrite (stored_step expanded h i l k m' Hup Hl) by (done || apply Hin'). fold m.
    destruct (decide ((k, m') = (l, m))); [done|].
    destruct (decide ((k, m') = (l - 1, 2 * m + 1))) as [[= -> ->]|].
    { rewrite decide_True by (split; [done|]; Z.div_mod_to_equations; lia).
      done. }
    destruct (decide ((k, m') = (l - 1, 2 * m))) as [[= -> ->]|].
    { rewrite decide_True by (split; [done|]; Z.div_mod_to_equations; lia). done. }
    rewrite decide_False; [done|]. intros [-> E].
    pose proof (Z.div_mod m' 2 ltac:(lia)). pose proof (Z.mod_pos_bound m' 2 ltac:(lia)).
    assert (m' = 2 * m \/ m' = 2 * m + 1) as [->| ->] by lia; done.
Qed.

(** The levels of the path of leaf [i] from [l] down to 1, and their expansion. *)
Lemma derive_path_spec c s0 h expanded i (n : nat) t : leaf_in h i -> upward expanded ->
  Z.of_nat n <= h -> (forall l, 0 < l <= Z.of_nat n -> expanded l (i / 2 ^ l) = false) ->
  shape h t -> holds c s0 h (with_path expanded i (Z.of_nat n)) t ->
  exists t', for_each_m (rev (take n (direct_path i (tree_size h)))) (derive_down c) t = (Ok (), t') /\
    shape h t' /\ same_ratchets t t' /\ holds c s0 h (with_path expanded i 0) t'.
Proof.
  intros Hi Hup. revert t. induction n as [|n IH]; intros t Hn Hne Hsh Hholds.
  - exists t. by split_and!.
  - pose proof (direct_path_lookup h i n Hi ltac:(lia)) as Hd.
    rewrite (take_S_r _ _ _ Hd), rev_app_distr. cbn [rev app for_each_m]. run.
    replace (Z.of_nat n + 1) with (Z.of_nat (S n)) in * by lia.
    destruct (derive_down_spec c s0 h expanded i (Z.of_nat (S n)) t Hi Hup) as (t1 & -> & Hsh1 & Hf1 & Hh1);
      [lia|apply Hne; lia|done..|].
    replace (Z.of_nat (S n) - 1) with (Z.of_nat n) in Hh1 by lia.
    destruct (IH t1) as (t2 & E2 & Hsh2 & Hf2 & Hh2); [lia|intros; apply Hne; lia|done..|].
    exists t2. split_and!; [exact E2|done| |done].
    destruct Hf1 as [? E1'], Hf2 as [? E2']. split; [congruence|]. intros ty. by rewrite E2', E1'.
Qed.

(** The level of the only stored node on the path of an untouched leaf. *)
Lemma frontier expanded i (n : nat) : expanded 0 i = false ->
  exists s : nat, (s <= n)%nat /\ (forall l, 0 <= l <= Z.of_nat s -> expanded l (i / 2 ^ l) = false) /\
    (s = n \/ expanded (Z.of_nat s + 1) (i / 2 ^ (Z.of_nat s + 1)) = true).
Proof.
  intros Hz. induction n as [|n (s & Hs & Hle & Hor)].
  - exists O. split_and!; [lia| |by left]. intros l Hl. assert (l = 0) as -> by lia.
    by rewrite Z.pow_0_r, Z.div_1_r.
  - destruct Hor as [->|Ht]; [|by exists s; split_and!; [lia|done|right]].
    destruct (expanded (Z.of_nat n + 1) (i / 2 ^ (Z.of_nat n + 1))) eqn:E.
    + exists n. split_and!; [lia|done|by right].
    + exists (S n). split_and!; [lia| |by left]. intros l Hl.
      destruct (decide (l <= Z.of_nat n)); [apply Hle; lia|].
      by replace l with (Z.of_nat n + 1) by lia.
Qed.

Lemma upward_path expanded i l k : upward expanded -> 0 <= l -> expanded l (i / 2 ^ l) = true ->
  l <= k -> expanded k (i / 2 ^ k) = true.
Proof.
  intros Hup Hl He Hk. replace k with (l + Z.of_nat (Z.to_nat (k - l))) by lia.
  induction (Z.to_nat (k - l)) as [|n IH]; [by rewrite Z.add_0_r|].
  apply Hup in IH; [|lia]. rewrite path_step in IH by lia.
  by replace (l + Z.of_nat (S n)) with (l + Z.of_nat n + 1) by lia.
Qed.

Lemma stored_path expanded h i s l : upward expanded -> 0 <= s <= h -> 0 <= l <= h ->
  (forall l, 0 <= l <= s -> expanded l (i / 2 ^ l) = false) ->
  (s = h \/ expanded (s + 1) (i / 2 ^ (s + 1)) = true) ->
  stored expanded h l (i / 2 ^ l) = (l =? s).
Proof.
  intros Hup Hs Hl Hle Hor. unfold stored. rewrite path_step by lia.
  destruct (Z.eqb_spec l s) as [->|Hne].
  - rewrite Hle by lia. cbn [negb andb]. destruct Hor as [->| ->]; [by rewrite Z.eqb_refl|].
    by rewrite orb_true_r.
  - destruct (decide (l < s)).
    + rewrite !Hle, (proj2 (Z.eqb_neq l h)) by lia. done.
    + destruct Hor as [->|Ht]; [lia|].
      by rewrite (upward_path expanded i (s + 1) l Hup) by (done || lia).
Qed.

Lemma collect_empty_spec c s0 h expanded i (s : nat) t : leaf_in h i -> upward expanded ->
  (0 < s)%nat -> Z.of_nat s <= h ->
  (forall l, 0 <= l <= Z.of_nat s -> expanded l (i / 2 ^ l) = false) ->
  (Z.of_nat s = h \/ expanded (Z.of_nat s + 1) (i / 2 ^ (Z.of_nat s + 1)) = true) ->
  holds c s0 h expanded t ->
  collect_empty (direct_path i (tree_size h)) t = Ok (take s (direct_path i (tree_size h))).
Proof.
  intros Hi Hup Hpos Hs Hle Hor Hholds.
  assert (Hdrop : forall n j, (j + n = s)%nat -> (0 < n)%nat ->
    collect_empty (drop j (direct_path i (tree_size h))) t = Ok (take n (drop j (direct_path i (tree_size h))))).
  { induction n as [|n IH]; intros j Hj Hn; [lia|].
    pose proof (direct_path_lookup h i j Hi ltac:(lia)) as Hd.
    rewrite (drop_S _ _ _ Hd). cbn [collect_empty take]. rewrite index_at_parent by lia.
    rewrite (Hholds _ _ (in_tree_path h i (Z.of_nat j + 1) Hi ltac:(lia))). run.
    rewrite (stored_path expanded h i (Z.of_nat s)) by (done || lia).
    destruct (Z.eqb_spec (Z.of_nat j + 1) (Z.of_nat s)).
    - assert (n = O) as -> by lia. done.
    - rewrite IH by lia. done. }
  specialize (Hdrop s O). rewrite drop_0 in Hdrop. apply Hdrop; lia.
Qed.

Lemma holds_ext c s0 h e e' t : (forall k m, 0 <= k <= h -> e k m = e' k m) ->
  holds c s0 h e t -> holds c s0 h e' t.
Proof.
  intros Hee Hholds k m Hin. rewrite (Hholds _ _ Hin). pose proof (proj1 Hin). unfold stored.
  rewrite Hee by done. destruct (Z.eqb_spec k h) as [->|]; [done|]. by rewrite Hee by lia.
Qed.

Lemma derive_leaf_spec c s0 h expanded i t : leaf_in h i -> upward expanded -> expanded 0 i = false ->
  shape h t -> holds c s0 h expanded t ->
  exists t', derive_leaf c i t = (Ok (), t') /\ shape h t' /\ same_ratchets t t' /\
    holds c s0 h (with_path expanded i 0) t'.
Proof.
  intros Hi Hup Hz Hsh Hholds. pose proof (proj1 Hi) as [Hh1 Hh2].
  destruct (frontier expanded i (Z.to_nat h) Hz) as (s & Hs & Hle & Hor).
  assert (Hor' : Z.of_nat s = h \/ expanded (Z.of_nat s + 1) (i / 2 ^ (Z.of_nat s + 1)) = true)
    by (destruct Hor; [left; lia|by right]).
  assert (Hw : holds c s0 h (with_path expanded i (Z.of_nat s)) t).
  { eapply holds_ext; [|exact Hholds]. intros k m Hk. unfold with_path.
    destruct (Z.ltb_spec (Z.of_nat s) k); [|by rewrite orb_false_r].
    destruct (Z.eqb_spec (i / 2 ^ k) m) as [<-|]; [|by rewrite orb_false_r].
    destruct Hor' as [|Ht]; [lia|].
    by rewrite (upward_path expanded i (Z.of_nat s + 1) k Hup) by (done || lia). }
  unfold derive_leaf. run. rewrite <- index_at_leaf.
  pose proof (Hholds _ _ (in_tree_path h i 0 Hi ltac:(lia))) as E.
  pose proof (stored_path expanded h i (Z.of_nat s) 0 Hup ltac:(lia) ltac:(lia) Hle Hor') as E'.
  rewrite E' in E. rewrite Z.pow_0_r, Z.div_1_r in E. rewrite E.
  destruct (Z.eqb_spec 0 (Z.of_nat s)) as [Es|Es]; cbn [is_some].
  - exists t. rewrite <- Es in Hw. by split_and!.
  - rewrite (sh_size _ _ Hsh).
    rewrite (collect_empty_spec c s0 h expanded i s t Hi Hup) by (done || lia).
    apply derive_path_spec; [done|done|lia| |done|done]. intros l Hl. apply Hle. lia.
Qed.

Lemma touched_0 ready i : touched ready 0 i = existsb (fun j => j =? i) ready.
Proof.
  unfold touched. induction ready as [|j ready IH]; simpl; [done|]. by rewrite Z.div_1_r, IH.
Qed.

(** Deleting the leaf node completes the expansion of its path. *)
Lemma stored_leaf ready h i k m : 0 <= h -> 0 <= k <= h -> touched ready 0 i = false ->
  stored (touched (i :: ready)) h k m =
  if decide ((k, m) = (0, i)) then false else stored (with_path (touched ready) i 0) h k m.
Proof.
  intros Hh Hk Hz. unfold stored, with_path.
  assert (Hs : forall k m, 0 < k ->
    touched (i :: ready) k m = touched ready k m || (0 <? k) && (i / 2 ^ k =? m)).
  { intros k' m' Hk'. cbn [touched existsb]. rewrite (proj2 (Z.ltb_lt 0 k')) by lia.
    apply orb_comm. }
  rewrite (Hs (k + 1)) by lia. destruct (decide (k = 0)) as [->|].
  - cbn [touched existsb]. fold (touched ready 0 m). rewrite Z.pow_0_r, Z.div_1_r.
    change (0 <? 0) with false. cbn [andb]. rewrite orb_false_r.
    destruct (Z.eqb_spec i m) as [->|]; [by rewrite decide_True by done|].
    rewrite decide_False by congruence. done.
  - rewrite (Hs k) by lia. rewrite decide_False by congruence. done.
Qed.

Lemma write_ratchet_spec h ty i r t : shape h t -> 0 <= i < 2 ^ h ->
  write_at (ratchets ty) (set_ratchets ty) i r t =
  (Ok (), set_ratchets ty (<[Z.to_nat i := r]> (ratchets ty t)) t).
Proof.
  intros Hsh Hi. pose proof (sh_ratchets _ _ Hsh ty). unfold write_at. run.
  by rewrite decide_True by lia.
Qed.

Lemma set_ratchets_lookup ty l ty' t :
  ratchets ty' (set_ratchets ty l t) = if decide (ty' = ty) then l else ratchets ty' t.
Proof. by destruct ty, ty'. Qed.

Lemma set_ratchets_nodes ty l i t : get_node i (set_ratchets ty l t) = get_node i t.
Proof. by destruct ty, i. Qed.

Lemma set_ratchets_shape h ty i r t : shape h t ->
  shape h (set_ratchets ty (<[i := r]> (ratchets ty t)) t).
Proof.
  intros [Hsz Hl Hp Hr]. split; [by destruct ty..|]. intros ty'. rewrite set_ratchets_lookup.
  case_decide; [subst; rewrite length_insert|]; apply Hr.
Qed.

Lemma set_ratchets_own ty l t : st_own_index (set_ratchets ty l t) = st_own_index t.
Proof. by destruct ty. Qed.

Lemma insert_ratchet_lookup h t (i j : Z) (r : option SenderRatchet) ty : shape h t -> 0 <= i < 2 ^ h ->
  0 <= j < 2 ^ h ->
  <[Z.to_nat i := r]> (ratchets ty t) !! Z.to_nat j =
  if decide (j = i) then Some r else ratchets ty t !! Z.to_nat j.
Proof.
  intros Hsh Hi Hj. pose proof (sh_ratchets _ _ Hsh ty). case_decide as E.
  - subst. by rewrite list_lookup_insert_eq by lia.
  - by rewrite list_lookup_insert_ne by lia.
Qed.

Lemma initialize_spec c conf s0 h own ready s t i : leaf_in h i ->
  tree_ok c conf s0 h own ready s t -> touched ready 0 i = false ->
  exists t', initialize_sender_ratchets c i t = (Ok (), t') /\
    tree_ok c conf s0 h own (i :: ready) s t'.
Proof.
  intros Hi [Hsh Hown Hnodes Hrat] Hz. pose proof (proj1 Hi) as Hh. pose proof (proj2 Hi) as Hi'.
  destruct (derive_leaf_spec c s0 h (touched ready) i t Hi (touched_upward ready) Hz Hsh Hnodes)
    as (t1 & E1 & Hsh1 & [Ho1 Hr1] & Hn1).
  unfold initialize_sender_ratchets. run. rewrite (sh_size _ _ Hsh), TreeSize_leaf_count_spec by done.
  rewrite (proj2 (Z.leb_gt _ _)) by lia.
  destruct (Hrat i HandshakeSecret Hi') as (oh & Eh & Hoh & _). unfold ratchet_opt. rewrite Eh.
  rewrite Hz in Hoh. destruct oh as [|]; [done|]. cbn [is_some andb]. rewrite E1.
  assert (in_tree h 0 i) as Hin0.
  { pose proof (in_tree_path h i 0 Hi) as P. rewrite Z.pow_0_r, Z.div_1_r in P. apply P. destruct Hh; lia. }
  change (Leaf i) with (index_at 0 i). rewrite (Hn1 0 i Hin0).
  assert (stored (with_path (touched ready) i 0) h 0 i = true) as ->.
  { unfold stored, with_path. rewrite Hz. change (0 <? 0) with false. change (0 <? 0 + 1) with true.
    change (i / 2 ^ (0 + 1)) with (i / 2). rewrite Z.eqb_refl. cbn [andb orb negb].
    by rewrite orb_true_r, orb_true_r. }
  cbn [node_secret]. rewrite !expand_ok, Ho1, Hown.
  rewrite (write_ratchet_spec h) by done.
  rewrite (write_ratchet_spec h) by (done || by apply set_ratchets_shape).
  set (t2 := set_ratchets HandshakeSecret _ t1). set (t3 := set_ratchets ApplicationSecret _ t2).
  assert (shape h t2) by by apply set_ratchets_shape.
  assert (shape h t3) as Hsh3 by by apply set_ratchets_shape.
  destruct (set_node_spec h 0 i None t3 Hh Hsh3 Hin0) as (t4 & -> & Hsh4 & [Ho4 Hr4] & Hn4).
  exists t4. split; [done|]. split; [done| | |].
  - rewrite Ho4. unfold t3, t2. by rewrite !set_ratchets_own, Ho1.
  - intros k m Hin. rewrite (Hn4 _ _ Hin). unfold t3, t2. rewrite !set_ratchets_nodes, (Hn1 _ _ Hin).
    rewrite stored_leaf by (done || apply Hin || (destruct Hh; lia)). by case_decide.
  - intros j ty Hj. rewrite Hr4. destruct (Hrat j ty Hj) as (o & Eo & Hso & Hrel).
    exists (if decide (j = i) then Some (new_ratchet (i =? own) (sender_secret c s0 h i ty)) else o).
    split_and!.
    + transitivity (<[Z.to_nat i := Some (new_ratchet (i =? own) (sender_secret c s0 h i ty))]>
                      (ratchets ty t1) !! Z.to_nat j); [by destruct ty|].
      rewrite (insert_ratchet_lookup h) by done. case_decide; [done|]. by rewrite Hr1.
    + rewrite touched_0 in *. cbn [existsb]. rewrite <- Hso. case_decide; [subst; by rewrite Z.eqb_refl|].
      by rewrite (proj2 (Z.eqb_neq i j)) by congruence.
    + case_decide; [subst j|done]. rewrite Hz in Hso. by destruct o.
Qed.

Lemma ensure_ratchet_spec c conf s0 h own ready s t i ty : leaf_in h i ->
  tree_ok c conf s0 h own ready s t ->
  exists ready' t', ensure_ratchet c i ty t = (Ok (), t') /\
    tree_ok c conf s0 h own ready' s t' /\ touched ready' 0 i = true.
Proof.
  intros Hi Hok. destruct (to_ratchets _ _ _ _ _ _ _ _ Hok i ty (proj2 Hi)) as (o & Eo & Hso & _).
  unfold ensure_ratchet, ratchet_opt. run. rewrite Eo, Hso.
  destruct (touched ready 0 i) eqn:Ht; [by exists ready, t|].
  destruct (initialize_spec c conf s0 h own ready s t i Hi Hok Ht) as (t' & -> & Hok').
  exists (i :: ready), t'. split_and!; [done..|]. rewrite touched_0. simpl. by rewrite Z.eqb_refl.
Qed.

(** Using an initialised ratchet changes that ratchet alone. *)
Lemma ratchet_mut_spec {A} c conf s0 h own ready s s' t i ty (use : method SenderRatchet SecretTreeError A) o :
  tree_ok c conf s0 h own ready s t -> 0 <= i < 2 ^ h -> touched ready 0 i = true ->
  (forall r, ratchet_rel c conf s0 h own s i ty r ->
     exists r', use r = (o, r') /\ ratchet_rel c conf s0 h own s' i ty r') ->
  (forall j ty' r, (j, ty') <> (i, ty) -> ratchet_rel c conf s0 h own s j ty' r ->
     ratchet_rel c conf s0 h own s' j ty' r) ->
  exists t', ratchet_mut i ty use t = (o, t') /\ tree_ok c conf s0 h own ready s' t'.
Proof.
  intros [Hsh Hown Hnodes Hrat] Hi Ht Huse Hother. destruct (Hrat i ty Hi) as (ro & Ei & Hsi & Hrel).
  rewrite Ht in Hsi. destruct ro as [r|]; [|done]. simpl in Hrel.
  destruct (Huse r Hrel) as (r' & Er & Hr').
  eexists. split.
  { unfold ratchet_mut. run. rewrite Ei. cbn [mjoin option_join]. rewrite Er. reflexivity. }
  split; [by apply set_ratchets_shape|by rewrite set_ratchets_own| |].
  - intros k m Hin. by rewrite set_ratchets_nodes, (Hnodes _ _ Hin).
  - intros j ty' Hj. rewrite set_ratchets_lookup. destruct (Hrat j ty' Hj) as (o' & Ej & Hsj & Hrelj).
    destruct (decide (ty' = ty)) as [->|Hty].
    + rewrite (insert_ratchet_lookup h) by done. case_decide as E.
      * subst j. exists (Some r'). by split_and!; [|rewrite Ht|].
      * exists o'. split_and!; [done..|]. apply Hother; [congruence|done].
    + exists o'. split_and!; [done..|]. apply Hother; [congruence|done].
Qed.

Lemma tree_step_spec c conf s0 h own ready s t rq : config_u32 conf -> height h -> request_u32 rq ->
  tree_ok c conf s0 h own ready s t ->
  exists ready' t', tree_step c conf rq t = ((sender_step c conf s0 h own rq s).1, t') /\
    tree_ok c conf s0 h own ready' (sender_step c conf s0 h own rq s).2 t'.
Proof.
  intros Hconf Hh Hrq Hok. pose proof (sh_size _ _ (to_shape _ _ _ _ _ _ _ _ Hok)) as Esz.
  destruct rq as [i ty n|i ty]; cbn [request_u32] in Hrq; cbn [tree_step sender_step].
  - unfold secret_for_decryption. run. rewrite Esz, TreeSize_leaf_count_spec by done.
    destruct (Z.leb_spec (2 ^ h) i); [by exists ready, t|].
    assert (leaf_in h i) as Hi by (split; [done|lia]).
    destruct (ensure_ratchet_spec c conf s0 h own ready s t i ty Hi Hok) as (ready1 & t1 & -> & Hok1 & Ht1).
    destruct (Z.eqb_spec i own) as [->|Hne].
    + destruct (ratchet_mut_spec c conf s0 h own ready1 s s t1 own ty (use_for_decryption c n conf)
        (Err RatchetTypeError) Hok1 (proj2 Hi) Ht1) as (t2 & -> & Hok2); [|done|by exists ready1, t2].
      intros [e|d]; simpl; [eauto|]. by intros [? _].
    + destruct (window_request conf n (windows s (i, ty))) as [o w] eqn:Ew.
      destruct (ratchet_mut_spec c conf s0 h own ready1 s
          {| windows := <[(i, ty) := w]> (windows s); sent := sent s |} t1 i ty
          (use_for_decryption c n conf) (answer_of c (sender_secret c s0 h i ty) o) Hok1 (proj2 Hi) Ht1)
        as (t2 & -> & Hok2).
      * intros [e|d]; simpl; [by intros [? _]|]. intros [_ Hd].
        destruct (request_spec c conf _ d _ n Hconf (proj2 Hrq) Hd) as (d' & -> & Hd').
        rewrite Ew in Hd' |- *. eexists. split; [done|]. split; [done|].
        cbn [windows]. by rewrite fn_lookup_insert.
      * intros j ty' [e|d] Hne'; simpl; [done|]. by rewrite fn_lookup_insert_ne by congruence.
      * exists ready1, t2. split; [|done]. f_equal.
        destruct o as [g| |]; [|done..]. by apply window_request_ok in Ew as ->.
  - unfold secret_for_encryption. destruct (Z.leb_spec (2 ^ h) i).
    { exists ready, t. split; [|done]. unfold ensure_ratchet, ratchet_opt. run.
      pose proof (sh_ratchets _ _ (to_shape _ _ _ _ _ _ _ _ Hok) ty). rewrite lookup_ge_None_2; [done|lia]. }
    assert (leaf_in h i) as Hi by (split; [done|lia]). run.
    destruct (ensure_ratchet_spec c conf s0 h own ready s t i ty Hi Hok) as (ready1 & t1 & -> & Hok1 & Ht1).
    destruct (Z.eqb_spec i own) as [->|Hne]; cbn [negb].
    2: { destruct (ratchet_mut_spec c conf s0 h own ready1 s s t1 i ty (use_for_encryption c)
           (Err RatchetTypeError) Hok1 (proj2 Hi) Ht1) as (t2 & -> & Hok2); [|done|by exists ready1, t2].
         intros [e|d]; simpl; [by intros [? _]|eauto]. }
    destruct (Z.eqb_spec (sent s ty) u32_MAX) as [Emax|Emax].
    + destruct (ratchet_mut_spec c conf s0 h own ready1 s s t1 own ty (use_for_encryption c)
           (Err RatchetTooLong) Hok1 (proj2 Hi) Ht1) as (t2 & -> & Hok2); [|done|by exists ready1, t2].
      intros [e|d]; simpl; [|by intros [? _]]. intros (_ & Hr & ->). rewrite ratchet_forward_spec by done.
      rewrite (proj2 (Z.eqb_eq _ _)) by done. eexists. by split_and!.
    + edestruct (ratchet_mut_spec c conf s0 h own ready1 s
          {| windows := windows s; sent := <[ty := sent s ty + 1]> (sent s) |} t1 own ty
          (use_for_encryption c)
          (Ok (sent s ty, key_material c (sender_secret c s0 h own ty) (sent s ty)))
          Hok1 (proj2 Hi) Ht1) as (t2 & -> & Hok2); [| |by exists ready1, t2].
      * intros [e|d]; simpl; [|by intros [? _]]. intros (_ & Hr & ->). rewrite ratchet_forward_spec by done.
        rewrite (proj2 (Z.eqb_neq _ _)) by done. eexists. split; [done|]. cbn [ratchet_rel sent].
        rewrite fn_lookup_insert. split_and!; [done|lia..|done].
      * intros j ty' [e|d] Hne'; simpl; [|done]. intros (-> & Hr & ->).
        rewrite fn_lookup_insert_ne by congruence. done.
Qed.

Lemma new_tree_ok c conf s0 h own : config_u32 conf -> height h ->
  tree_ok c conf s0 h own [] initial_senders (SecretTree_new s0 (tree_size h) own).
Proof.
  intros Hconf Hh. unfold SecretTree_new. rewrite TreeSize_leaf_count_spec, root_tree_size by done.
  set (t0 := mkSecretTree _ _ _ _ _ _).
  assert (Hpos := pow2_pos h (proj1 Hh)).
  assert (shape h t0) as Hsh0.
  { split; simpl; rewrite ?length_replicate; try lia.
    intros []; simpl; rewrite length_replicate; lia. }
  assert (in_tree h h 0) as Hin by (destruct Hh; split; [lia|rewrite Z.sub_diag; lia]).
  destruct (set_node_spec h h 0 (Some {| node_secret := s0 |}) t0 Hh Hsh0 Hin)
    as (t1 & -> & Hsh1 & [Ho Hr] & Hg).
  split; cbn [snd]; [done|done| |].
  - intros k m Hin'. rewrite (Hg _ _ Hin'). unfold stored. cbn [touched existsb negb andb].
    rewrite orb_false_r. destruct Hin' as [Hk Hm]. destruct (Z.eqb_spec k h) as [->|].
    + rewrite Z.sub_diag in Hm. assert (m = 0) as -> by lia. rewrite decide_True by done.
      unfold secret_at. by rewrite Z.sub_diag.
    + rewrite decide_False by congruence.
      pose proof (in_tree_slot h k m Hh (conj Hk Hm)) as Hs. unfold t0.
      destruct (index_at k m); simpl; by rewrite lookup_replicate_2 by lia.
  - intros i ty Hi. exists None. rewrite Hr. split_and!.
    + destruct ty; simpl; by rewrite lookup_replicate_2 by lia.
    + done.
    + cbn [default]. unfold new_ratchet. destruct (Z.eqb_spec i own); cbn [ratchet_rel].
      * split_and!; [done|simpl; unfold u32_MAX; lia..|done].
      * split; [done|]. by apply new_ratchet_ok.
Qed.

Lemma serve_all_spec c conf s0 h own ready s t requests : config_u32 conf -> height h ->
  Forall request_u32 requests -> tree_ok c conf s0 h own ready s t ->
  exists ready' t', serve_all (tree_step c conf) requests t =
      ((serve_all (sender_step c conf s0 h own) requests s).1, t') /\
    tree_ok c conf s0 h own ready' (serve_all (sender_step c conf s0 h own) requests s).2 t'.
Proof.
  intros Hconf Hh Hrq. revert ready s t. induction Hrq as [|rq requests Hrq _ IH]; intros ready s t Hok.
  - by exists ready, t.
  - cbn [serve_all]. destruct (tree_step_spec c conf s0 h own ready s t rq Hconf Hh Hrq Hok)
      as (ready1 & t1 & -> & Hok1).
    destruct (sender_step c conf s0 h own rq s) as [a s1]. cbn [fst snd] in *.
    destruct (IH _ _ _ Hok1) as (ready2 & t2 & -> & Hok2).
    destruct (serve_all _ requests s1) as [answers s2]. by exists ready2, t2.
Qed.

(** The tree of an epoch after a sequence of requests. *)
Definition epoch_after (c : Ciphersuite) (conf : SenderRatchetConfiguration) (s0 : Secret) (h own : Z)
    (requests : list request) : list answer * SecretTree :=
  serve_all (tree_step c conf) requests (SecretTree_new s0 (tree_size h) own).

(** ** Theorems *)

(** C20: whatever the order of encryption and decryption requests, the lazily
    expanded secret tree answers them as the specification in which every
    sender has its own pair of windows (or, for the own leaf, counters) over
    the key chain derived from the encryption secret along its path: requests of
    different senders and of different content types do not influence each
    other, unknown senders and the wrong direction are rejected. *)
Theorem secret_tree_refines_senders c conf s0 h own requests :
  config_u32 conf -> height h -> Forall request_u32 requests ->
  (epoch_after c conf s0 h own requests).1 =
  (serve_all (sender_step c conf s0 h own) requests initial_senders).1.
Proof.
  intros Hconf Hh Hrq. unfold epoch_after.
  destruct (serve_all_spec c conf s0 h own [] initial_senders _ requests Hconf Hh Hrq
    (new_tree_ok c conf s0 h own Hconf Hh)) as (ready & t & -> & _). done.
Qed.

(** C37: forward secrecy of the tree: after any requests, on the path from a
    leaf whose ratchets exist to the root no node secret is stored, and on the
    path of every other leaf exactly one is, the one the key schedule
    prescribes for that node; the leaf's ratchet secrets can be derived from
    nothing else in the tree. *)
Theorem secret_tree_forward_secrecy c conf s0 h own requests i :
  config_u32 conf -> Forall request_u32 requests -> leaf_in h i ->
  let t := (epoch_after c conf s0 h own requests).2 in
  let on_path l := get_node (index_at l (i / 2 ^ l)) t in
  match ratchet_opt i HandshakeSecret t with
  | Ok (Some _) => forall l, 0 <= l <= h -> on_path l = Ok None
  | Ok None => exists s, 0 <= s <= h /\
      on_path s = Ok (Some {| node_secret := secret_at c s0 h s (i / 2 ^ s) |}) /\
      forall l, 0 <= l <= h -> l <> s -> on_path l = Ok None
  | _ => False
  end.
Proof.
  intros Hconf Hrq Hi. pose proof (proj1 Hi) as Hh. unfold epoch_after.
  destruct (serve_all_spec c conf s0 h own [] initial_senders _ requests Hconf Hh Hrq
    (new_tree_ok c conf s0 h own Hconf Hh)) as (ready & t & -> & [Hsh Hown Hnodes Hrat]).
  cbn [snd]. unfold ratchet_opt. destruct (Hrat i HandshakeSecret (proj2 Hi)) as (o & -> & Ho & _).
  destruct Hh as [Hh0 _]. destruct o as [r|]; simpl in Ho; symmetry in Ho.
  - intros l Hl. rewrite (Hnodes _ _ (in_tree_path h i l Hi Hl)). unfold stored.
    rewrite (upward_path (touched ready) i 0 l (touched_upward ready)); [done|lia| |lia].
    by rewrite Z.pow_0_r, Z.div_1_r.
  - destruct (frontier (touched ready) i (Z.to_nat h) Ho) as (s & Hs & Hle & Hor).
    assert (Hst : forall l, 0 <= l <= h -> stored (touched ready) h l (i / 2 ^ l) = (l =? Z.of_nat s)).
    { intros l Hl. apply stored_path; [apply touched_upward|lia..|done|].
      destruct Hor; [left; lia|by right]. }
    exists (Z.of_nat s). split_and!; [lia..| |].
    + rewrite (Hnodes _ _ (in_tree_path h i (Z.of_nat s) Hi ltac:(lia))), Hst by lia. by rewrite Z.eqb_refl.
    + intros l Hl Hne. rewrite (Hnodes _ _ (in_tree_path h i l Hi Hl)), Hst by lia.
      by rewrite (proj2 (Z.eqb_neq _ _)) by done.
Qed.

End Operations.

(** ** Witnesses *)

Definition sample_tree_requests : list request :=
  [Encrypt 1 ApplicationSecret; Decrypt 3 HandshakeSecret 1; Decrypt 3 HandshakeSecret 0;
   Decrypt 3 HandshakeSecret 0; Decrypt 1 HandshakeSecret 0; Encrypt 2 ApplicationSecret;
   Decrypt 4 ApplicationSecret 0; Encrypt 1 ApplicationSecret].

Lemma sample_tree_requests_u32 : Forall request_u32 sample_tree_requests.
Proof. repeat (constructor; [vm_compute; repeat split; discriminate|]). constructor. Qed.

Lemma height_2 : height 2.
Proof. split; lia. Qed.

Lemma secret_tree_refines_senders_witness :
  (@epoch_after toy_crypto sample_suite sample_config [5; 6] 2 1 sample_tree_requests).1 =
  (serve_all (@sender_step toy_crypto sample_suite sample_config [5; 6] 2 1) sample_tree_requests
     initial_senders).1.
Proof.
  exact (@secret_tree_refines_senders toy_crypto toy_laws sample_suite sample_config [5; 6] 2 1
    sample_tree_requests sample_config_u32 height_2 sample_tree_requests_u32).
Defined.

(** The requests above are answered with key material, as replays, as the wrong
    direction and as an unknown sender. *)
Example sample_tree_answers :
  map (fun a : answer => match a with Ok (g, _) => inl g | Err e => inr (Some e) | Panic => inr None end)
    (@epoch_after toy_crypto sample_suite sample_config [5; 6] 2 1 sample_tree_requests).1 =
  [inl 0; inl 1; inl 0; inr (Some SecretReuseError); inr (Some RatchetTypeError);
   inr (Some RatchetTypeError); inr (Some IndexOutOfBounds); inl 1].
Proof. vm_compute. reflexivity. Qed.

Lemma secret_tree_forward_secrecy_witness :
  let t := (@epoch_after toy_crypto sample_suite sample_config [5; 6] 2 1 sample_tree_requests).2 in
  exists s, 0 <= s <= 2 /\
    get_node (index_at s (0 / 2 ^ s)) t =
      Ok (Some {| node_secret := @secret_at toy_crypto sample_suite [5; 6] 2 s (0 / 2 ^ s) |}).
Proof.
  pose proof (@secret_tree_forward_secrecy toy_crypto toy_laws sample_suite sample_config [5; 6] 2 1
    sample_tree_requests 0 sample_config_u32 sample_tree_requests_u32
    (conj height_2 (conj (Z.le_refl 0) (eq_refl : 0 < 2 ^ 2)))) as P.
  cbv zeta in P |- *.
  replace (ratchet_opt 0 HandshakeSecret _) with (@Ok SecretTreeError (option SenderRatchet) None) in P
    by (vm_compute; reflexivity).
  destruct P as (s & Hs & E & _). exists s. split; [exact Hs|exact E].
Defined.
