(* ===== verification/LeafNodes.v ===== *)
(** * Leaf nodes and what they announce

    Models the code points of [extensions/mod.rs], [credentials/mod.rs],
    [messages/proposals.rs] and [versions.rs], the extension list with unique
    types, the capabilities ([treesync/node/leaf_node/capabilities.rs]), the
    lifetime ([key_packages/lifetime.rs]) and the leaf node itself with its
    local validation ([treesync/node/leaf_node.rs]).

    Extension bodies that no operation looks into (the ratchet tree, external
    senders, application id) are kept as bytes.  The clock is a parameter of
    the two lifetime functions that read it. *)

From S2P Require Import Prelude Crypto.

(** ** Code points *)

Inductive ExtensionType :=
| ExtApplicationId | ExtRatchetTree | ExtRequiredCapabilities | ExtExternalPub | ExtExternalSenders
| ExtLastResort | ExtUnknown (id : Z).

Inductive ProposalType :=
| PtAdd | PtUpdate | PtRemove | PtPreSharedKey | PtReinit | PtExternalInit | PtGroupContextExtensions
| PtAppAck | PtCustom (id : Z).

Inductive CredentialType := CredBasic | CredX509 | CredOther (id : Z).

Inductive ProtocolVersion := Mls10 | OtherVersion (id : Z).

#[export] Instance ExtensionType_eq_dec : EqDecision ExtensionType.
Proof. solve_decision. Defined.
#[export] Instance ProposalType_eq_dec : EqDecision ProposalType.
Proof. solve_decision. Defined.
#[export] Instance CredentialType_eq_dec : EqDecision CredentialType.
Proof. solve_decision. Defined.
#[export] Instance ProtocolVersion_eq_dec : EqDecision ProtocolVersion.
Proof. solve_decision. Defined.

Definition ExtensionType_from (a : Z) : ExtensionType :=
  match a with
  | 1 => ExtApplicationId | 2 => ExtRatchetTree | 3 => ExtRequiredCapabilities | 4 => ExtExternalPub
  | 5 => ExtExternalSenders | 10 => ExtLastResort | unknown => ExtUnknown unknown
  end.

Definition ExtensionType_u16 (value : ExtensionType) : Z :=
  match value with
  | ExtApplicationId => 1 | ExtRatchetTree => 2 | ExtRequiredCapabilities => 3 | ExtExternalPub => 4
  | ExtExternalSenders => 5 | ExtLastResort => 10 | ExtUnknown unknown => unknown
  end.

Definition ProposalType_from (value : Z) : ProposalType :=
  match value with
  | 1 => PtAdd | 2 => PtUpdate | 3 => PtRemove | 4 => PtPreSharedKey | 5 => PtReinit
  | 6 => PtExternalInit | 7 => PtGroupContextExtensions | 8 => PtAppAck | other => PtCustom other
  end.

Definition ProposalType_u16 (value : ProposalType) : Z :=
  match value with
  | PtAdd => 1 | PtUpdate => 2 | PtRemove => 3 | PtPreSharedKey => 4 | PtReinit => 5
  | PtExternalInit => 6 | PtGroupContextExtensions => 7 | PtAppAck => 8 | PtCustom id => id
  end.

Definition CredentialType_from (value : Z) : CredentialType :=
  match value with 1 => CredBasic | 2 => CredX509 | other => CredOther other end.

Definition CredentialType_u16 (value : CredentialType) : Z :=
  match value with CredBasic => 1 | CredX509 => 2 | CredOther other => other end.

Definition ProtocolVersion_from (v : Z) : ProtocolVersion :=
  match v with 1 => Mls10 | _ => OtherVersion v end.

(** The integer [tls_serialize] writes. *)
Definition ProtocolVersion_u16 (v : ProtocolVersion) : Z :=
  match v with Mls10 => 1 | OtherVersion v => v end.

Definition ExtensionType_is_default (e : ExtensionType) : bool :=
  match e with
  | ExtApplicationId | ExtRatchetTree | ExtRequiredCapabilities | ExtLastResort | ExtExternalPub
  | ExtExternalSenders => true
  | ExtUnknown _ => false
  end.

Definition is_valid_in_leaf_node (e : ExtensionType) : option bool :=
  match e with
  | ExtApplicationId | ExtRatchetTree | ExtRequiredCapabilities | ExtExternalPub
  | ExtExternalSenders => Some false
  | ExtLastResort => Some true
  | ExtUnknown _ => None
  end.

Definition ProposalType_is_default (p : ProposalType) : bool :=
  match p with
  | PtAdd | PtUpdate | PtRemove | PtPreSharedKey | PtReinit | PtExternalInit
  | PtGroupContextExtensions => true
  | PtAppAck | PtCustom _ => false
  end.

Definition is_path_required (p : ProposalType) : bool :=
  match p with
  | PtAdd | PtUpdate | PtRemove | PtExternalInit | PtGroupContextExtensions => true
  | _ => false
  end.

(** ** Extensions *)

Record RequiredCapabilitiesExtension := mkRequiredCapabilities {
  extension_types : list ExtensionType;
  proposal_types : list ProposalType;
  credential_types : list CredentialType
}.

Record Credential := mkCredential {
  credential_type : CredentialType;
  serialized_credential_content : bytes
}.

(** An [ExternalSender] is its credential with its signature key. *)
Inductive Extension :=
| ApplicationIdExtension (id : bytes)
| RatchetTreeExtension (serialized : bytes)
| RequiredCapabilities (e : RequiredCapabilitiesExtension)
| ExternalPubExtension (key : bytes)
| ExternalSendersExtension (senders : list (Credential * bytes))
| LastResortExtension
| UnknownExtension (id : Z) (data : bytes).

Definition extension_type (e : Extension) : ExtensionType :=
  match e with
  | ApplicationIdExtension _ => ExtApplicationId
  | RatchetTreeExtension _ => ExtRatchetTree
  | RequiredCapabilities _ => ExtRequiredCapabilities
  | ExternalPubExtension _ => ExtExternalPub
  | ExternalSendersExtension _ => ExtExternalSenders
  | LastResortExtension => ExtLastResort
  | UnknownExtension kind _ => ExtUnknown kind
  end.

(** [Extensions { unique }] *)
Definition Extensions := list Extension.

Inductive InvalidExtensionError :=
| Duplicate | NotFound | IllegalInGroupContext | IllegalInLeafNodes.

Definition Extensions_contains (unique : Extensions) (ty : ExtensionType) : bool :=
  existsb (fun ext => bool_decide (extension_type ext = ty)) unique.

Definition Extensions_add (extension : Extension) : method Extensions InvalidExtensionError () :=
  unique ← get;
  if Extensions_contains unique (extension_type extension) then fail Duplicate
  else modify (fun unique => unique ++ [extension]).

(** [position] and [Vec::remove] *)
Fixpoint Extensions_remove (ty : ExtensionType) (unique : Extensions) : option Extension * Extensions :=
  match unique with
  | [] => (None, [])
  | ext :: unique =>
    if decide (extension_type ext = ty) then (Some ext, unique)
    else let '(removed, unique) := Extensions_remove ty unique in (removed, ext :: unique)
  end.

Definition add_or_replace (extension : Extension) (unique : Extensions) : option Extension * Extensions :=
  let '(replaced, unique) := Extensions_remove (extension_type extension) unique in
  (replaced, unique ++ [extension]).

Definition Extensions_try_from (candidate : list Extension) : outcome InvalidExtensionError Extensions :=
  foldl (fun acc extension =>
      unique ← acc;
      if existsb (fun ext => bool_decide (extension_type ext = extension_type extension)) unique
      then Err Duplicate else Ok (unique ++ [extension]))
    (Ok []) candidate.

Definition find_by_type (unique : Extensions) (ty : ExtensionType) : option Extension :=
  List.find (fun ext => bool_decide (extension_type ext = ty)) unique.

Definition required_capabilities (unique : Extensions) : option RequiredCapabilitiesExtension :=
  e ← find_by_type unique ExtRequiredCapabilities;
  match e with RequiredCapabilities e => Some e | _ => None end.

Definition external_senders (unique : Extensions) : option (list (Credential * bytes)) :=
  e ← find_by_type unique ExtExternalSenders;
  match e with ExternalSendersExtension e => Some e | _ => None end.

Definition external_pub (unique : Extensions) : option bytes :=
  e ← find_by_type unique ExtExternalPub;
  match e with ExternalPubExtension e => Some e | _ => None end.

Definition unknown (unique : Extensions) (id : Z) : option bytes :=
  match ExtensionType_from id with
  | ExtUnknown _ as ty =>
    e ← find_by_type unique ty;
    match e with UnknownExtension _ e => Some e | _ => None end
  | _ => None
  end.

(** ** Capabilities *)

(** A [VerifiableCiphersuite] is a bare code point. *)
Record Capabilities := mkCapabilities {
  versions : list ProtocolVersion;
  ciphersuites : list Z;
  extensions : list ExtensionType;
  proposals : list ProposalType;
  credentials : list CredentialType
}.

Definition default_versions : list ProtocolVersion := [Mls10].
Definition default_ciphersuites : list Ciphersuite :=
  [MLS_128_DHKEMX25519_AES128GCM_SHA256_Ed25519; MLS_128_DHKEMP256_AES128GCM_SHA256_P256;
   MLS_128_DHKEMX25519_CHACHA20POLY1305_SHA256_Ed25519;
   MLS_256_XWING_CHACHA20POLY1305_SHA256_Ed25519].
Definition default_credentials : list CredentialType := [CredBasic].

Definition Capabilities_new (vs : option (list ProtocolVersion)) (cs : option (list Ciphersuite))
    (es : option (list ExtensionType)) (ps : option (list ProposalType))
    (crs : option (list CredentialType)) : Capabilities := {|
  versions := default default_versions vs;
  ciphersuites := map Ciphersuite_u16 (default default_ciphersuites cs);
  extensions := default [] es;
  proposals := default [] ps;
  credentials := default default_credentials crs
|}.

Definition Capabilities_default : Capabilities := {|
  versions := default_versions;
  ciphersuites := map Ciphersuite_u16 default_ciphersuites;
  extensions := [];
  proposals := [];
  credentials := default_credentials
|}.

Definition mem {A} `{EqDecision A} (x : A) (l : list A) : bool := bool_decide (x ∈ l).

Definition contains_extensions (c : Capabilities) (es : Extensions) : bool :=
  forallb (fun e => ExtensionType_is_default e || mem e (extensions c)) (map extension_type es).
Definition contains_credential (c : Capabilities) (ty : CredentialType) : bool := mem ty (credentials c).
Definition contains_extension (c : Capabilities) (ty : ExtensionType) : bool :=
  ExtensionType_is_default ty || mem ty (extensions c).
Definition contains_proposal (c : Capabilities) (ty : ProposalType) : bool :=
  ProposalType_is_default ty || mem ty (proposals c).
Definition contains_version (c : Capabilities) (v : ProtocolVersion) : bool := mem v (versions c).
Definition contains_ciphersuite (c : Capabilities) (suite : Z) : bool := mem suite (ciphersuites c).

Inductive LifetimeError := RangeTooBig | NotCurrent.

Inductive LeafNodeValidationError :=
| LeafNodeLifetime (e : LifetimeError)
| UnsupportedExtensions
| UnsupportedProposals
| UnsupportedCredentials
| CredentialNotInCapabilities
| ExtensionsNotInCapabilities
| CiphersuiteNotInCapabilities
| SignatureKeyAlreadyInUse
| EncryptionKeyAlreadyInUse
| InvalidLeafNodeSource
| LeafNodeCredentialNotSupportedByMember
| MemberCredentialNotSupportedByLeafNode.

Definition is_empty {A} (l : list A) : bool := match l with [] => true | _ => false end.

Definition supports_required_capabilities (c : Capabilities) (required : RequiredCapabilitiesExtension) :
    outcome LeafNodeValidationError () :=
  let unsupported_extension_types :=
    List.filter (fun e => negb (contains_extension c e)) (extension_types required) in
  if negb (is_empty unsupported_extension_types) then Err UnsupportedExtensions
  else if existsb (fun p => negb (contains_proposal c p)) (proposal_types required)
  then Err UnsupportedProposals
  else if existsb (fun ty => negb (contains_credential c ty)) (credential_types required)
  then Err UnsupportedCredentials
  else Ok tt.

(** ** Credentials, lifetimes, leaf nodes *)

Inductive BasicCredentialError := WrongCredentialType.

Definition Credential_from_basic (identity : bytes) : Credential :=
  {| credential_type := CredBasic; serialized_credential_content := identity |}.

Definition BasicCredential_try_from (c : Credential) : outcome BasicCredentialError bytes :=
  match credential_type c with
  | CredBasic => Ok (serialized_credential_content c)
  | _ => Err WrongCredentialType
  end.

(** [Credential::identity] panics on other credential types. *)
Definition Credential_identity {E} (c : Credential) : outcome E bytes :=
  match credential_type c with
  | CredBasic => Ok (serialized_credential_content c)
  | _ => Panic
  end.

Definition DEFAULT_KEY_PACKAGE_LIFETIME_SECONDS : Z := 60 * 60 * 24 * 28 * 3.
Definition DEFAULT_KEY_PACKAGE_LIFETIME_MARGIN_SECONDS : Z := 60 * 60.
Definition MAX_LEAF_NODE_LIFETIME_RANGE_SECONDS : Z :=
  DEFAULT_KEY_PACKAGE_LIFETIME_MARGIN_SECONDS + DEFAULT_KEY_PACKAGE_LIFETIME_SECONDS.

Record Lifetime := mkLifetime { not_before : Z; not_after : Z }.

Definition u64_wrap (x : Z) : Z := x mod 2 ^ 64.

(** [now] is the number of seconds since the Unix epoch. *)
Definition Lifetime_new (now : Z) (t : Z) : Lifetime :=
  {| not_before := u64_wrap (now - DEFAULT_KEY_PACKAGE_LIFETIME_MARGIN_SECONDS);
     not_after := u64_wrap (now + t) |}.

(** [now] is [None] when the clock is before the epoch. *)
Definition Lifetime_is_valid (now : option Z) (l : Lifetime) : bool :=
  match now with
  | Some elapsed => (not_before l <? elapsed) && (elapsed <? not_after l)
  | None => false
  end.

Definition has_acceptable_range (l : Lifetime) : bool :=
  Z.max 0 (not_after l - not_before l) <=? MAX_LEAF_NODE_LIFETIME_RANGE_SECONDS.

Inductive LeafNodeSource :=
| SourceKeyPackage (life_time : Lifetime)
| SourceUpdate
| SourceCommit (parent_hash : bytes).

Record LeafNodePayload := mkLeafNodePayload {
  leaf_encryption_key : bytes;
  leaf_signature_key : bytes;
  leaf_credential : Credential;
  leaf_capabilities : Capabilities;
  leaf_node_source : LeafNodeSource;
  leaf_extensions : Extensions
}.

Record LeafNode := mkLeafNode { payload : LeafNodePayload; leaf_signature : bytes }.

Definition leaf_parent_hash (l : LeafNode) : option bytes :=
  match leaf_node_source (payload l) with SourceCommit ph => Some ph | _ => None end.

Definition leaf_life_time (l : LeafNode) : option Lifetime :=
  match leaf_node_source (payload l) with SourceKeyPackage t => Some t | _ => None end.

Definition supports_extension (l : LeafNode) (ty : ExtensionType) : bool :=
  ExtensionType_is_default ty || mem ty (extensions (leaf_capabilities (payload l))).

Fixpoint check_extension_support (l : LeafNode) (required : list ExtensionType) :
    outcome LeafNodeValidationError () :=
  match required with
  | [] => Ok tt
  | ty :: required =>
    if negb (supports_extension l ty) then Err UnsupportedExtensions
    else check_extension_support l required
  end.

Definition validate_locally (l : LeafNode) : outcome LeafNodeValidationError () :=
  let invalid_extension_types :=
    List.filter (fun ext => bool_decide (is_valid_in_leaf_node (extension_type ext) = Some false))
      (leaf_extensions (payload l)) in
  if negb (is_empty invalid_extension_types) then Err UnsupportedExtensions
  else if negb (contains_extensions (leaf_capabilities (payload l)) (leaf_extensions (payload l)))
  then Err UnsupportedExtensions
  else if negb (contains_credential (leaf_capabilities (payload l))
                  (credential_type (leaf_credential (payload l))))
  then Err UnsupportedCredentials
  else Ok tt.

Definition new_placeholder : LeafNode := {|
  payload := {|
    leaf_encryption_key := [];
    leaf_signature_key := [];
    leaf_credential := {| credential_type := CredBasic; serialized_credential_content := [] |};
    leaf_capabilities := Capabilities_default;
    leaf_node_source := SourceUpdate;
    leaf_extensions := [] |};
  leaf_signature := []
|}.

(** ** Lemmas *)

(** The type invariant of an extension list. *)
Definition unique_types (es : Extensions) : Prop := NoDup (map extension_type es).

Lemma Extensions_contains_spec es ty :
  Extensions_contains es ty = true <-> ty ∈ map extension_type es.
Proof.
  unfold Extensions_contains. rewrite existsb_exists, list_elem_of_fmap. split.
  - intros (e & He & Ht%bool_decide_eq_true). exists e. by rewrite <- list_elem_of_In in He.
  - intros (e & -> & He). exists e. rewrite <- list_elem_of_In. split; [done|]. by apply bool_decide_eq_true.
Qed.

Lemma unique_types_snoc es e : unique_types es -> Extensions_contains es (extension_type e) = false ->
  unique_types (es ++ [e]).
Proof.
  intros Hu Hc. unfold unique_types. rewrite map_app. apply NoDup_app. split_and!; [done| |apply NoDup_singleton].
  intros ty Hty ->%list_elem_of_singleton. apply Extensions_contains_spec in Hty. congruence.
Qed.

Lemma Extensions_remove_types ty es :
  map extension_type (Extensions_remove ty es).2 `sublist_of` map extension_type es /\
  (unique_types es -> ty ∉ map extension_type (Extensions_remove ty es).2).
Proof.
  induction es as [|e es [IHs IHn]]; simpl; [split; [done|intros _; apply not_elem_of_nil]|].
  case_decide as E; simpl.
  - split; [by apply sublist_cons|]. by intros [Hn _]%NoDup_cons; subst.
  - destruct (Extensions_remove ty es) as [r es']. simpl in *. split; [by constructor|].
    intros [_ Hu]%NoDup_cons. rewrite not_elem_of_cons. split; [congruence|by apply IHn].
Qed.

Lemma Extensions_try_from_foldl candidate acc : unique_types acc ->
  foldl (fun acc extension =>
      unique ← acc;
      if existsb (fun ext => bool_decide (extension_type ext = extension_type extension)) unique
      then Err Duplicate else Ok (unique ++ [extension])) (Ok acc) candidate =
  if decide (unique_types (acc ++ candidate)) then Ok (acc ++ candidate) else Err Duplicate.
Proof.
  revert acc. induction candidate as [|e candidate IH]; intros acc Hacc; simpl.
  - rewrite app_nil_r. by rewrite decide_True.
  - fold (Extensions_contains acc (extension_type e)).
    destruct (Extensions_contains acc (extension_type e)) eqn:E.
    + rewrite decide_False.
      * clear. induction candidate as [|e' candidate IH]; simpl; [done|apply IH].
      * unfold unique_types. rewrite map_app. intros (_ & Hd & _)%NoDup_app.
        apply (Hd (extension_type e)); [by apply Extensions_contains_spec|by left].
    + rewrite IH by by apply unique_types_snoc. by rewrite <- app_assoc.
Qed.

Lemma find_by_type_spec es ty e : unique_types es ->
  find_by_type es ty = Some e <-> e ∈ es /\ extension_type e = ty.
Proof.
  unfold find_by_type. induction es as [|e' es IH]; simpl; intros Hu.
  - split; [done|]. by intros [?%not_elem_of_nil _].
  - apply NoDup_cons in Hu as [Hn Hu]. case_bool_decide as E.
    + split; [intros [= ->]; split; [by left|done]|]. intros [[->|Hin]%elem_of_cons Hty]; [done|].
      exfalso. apply Hn. rewrite E, <- Hty. by apply (list_elem_of_fmap_2 extension_type).
    + rewrite (IH Hu), elem_of_cons. split; [tauto|]. intros [[->|Hin] Hty]; [done|tauto].
Qed.

Lemma is_empty_filter {A} (p : A -> bool) l : is_empty (List.filter p l) = forallb (fun x => negb (p x)) l.
Proof. induction l as [|x l IH]; simpl; [done|]. by destruct (p x). Qed.

Lemma is_empty_filter_negb {A} (p : A -> bool) l :
  is_empty (List.filter (fun x => negb (p x)) l) = forallb p l.
Proof. rewrite is_empty_filter. induction l as [|x l IH]; simpl; [done|]. by rewrite negb_involutive, IH. Qed.

Lemma forallb_spec {A} (p : A -> bool) l : forallb p l = true <-> forall x, x ∈ l -> p x = true.
Proof. rewrite forallb_forall. by setoid_rewrite list_elem_of_In. Qed.

Lemma negb_existsb {A} (p : A -> bool) l : negb (existsb (fun x => negb (p x)) l) = forallb p l.
Proof. induction l as [|x l IH]; simpl; [done|]. by rewrite <- IH; destruct (p x). Qed.

Lemma supports_required_spec l required :
  supports_required_capabilities (leaf_capabilities (payload l)) required = Ok tt <->
     check_extension_support l (extension_types required) = Ok tt /\
     (forall p, p ∈ proposal_types required ->
        contains_proposal (leaf_capabilities (payload l)) p = true) /\
     (forall ty, ty ∈ credential_types required ->
        ty ∈ credentials (leaf_capabilities (payload l))).
Proof.
  assert (Hext : check_extension_support l (extension_types required) = Ok tt <->
    forallb (contains_extension (leaf_capabilities (payload l))) (extension_types required) = true).
  { induction (extension_types required) as [|ty tys IH]; simpl; [done|].
    unfold supports_extension, contains_extension in *. by destruct (_ || _). }
  rewrite Hext. unfold supports_required_capabilities. rewrite is_empty_filter_negb.
  rewrite <- !forallb_spec.
  assert (Hcred : (forall ty, ty ∈ credential_types required -> ty ∈ credentials (leaf_capabilities (payload l))) <->
    forallb (contains_credential (leaf_capabilities (payload l))) (credential_types required) = true).
  { rewrite forallb_spec. unfold contains_credential, mem. by setoid_rewrite bool_decide_eq_true. }
  rewrite Hcred, <- !negb_existsb.
  destruct (existsb _ (extension_types required)); cbn [negb]; [split; [done|by intros [? _]]|].
  destruct (existsb _ (proposal_types required)); cbn [negb]; [split; [done|by intros (_ & ? & _)]|].
  destruct (existsb _ (credential_types required)); cbn [negb]; [split; [done|by intros (_ & _ & ?)]|].
  done.
Qed.

(** ** Theorems *)

(** The code points of extensions, proposals, credentials and protocol
    versions: encoding a decoded code point gives it back, whatever it is, and a
    decoded value is decoded again from its encoding. *)
Theorem wire_code_points_roundtrip :
  (forall v, ExtensionType_u16 (ExtensionType_from v) = v) /\
  (forall v, ProposalType_u16 (ProposalType_from v) = v) /\
  (forall v, CredentialType_u16 (CredentialType_from v) = v) /\
  (forall v, ProtocolVersion_u16 (ProtocolVersion_from v) = v) /\
  (forall e, ExtensionType_from (ExtensionType_u16 e) = e <->
     forall id, e = ExtUnknown id -> ExtensionType_is_default (ExtensionType_from id) = false) /\
  (forall p, ProposalType_is_default p = true -> ProposalType_from (ProposalType_u16 p) = p).
Proof.
  split_and!.
  - intros v. unfold ExtensionType_from. by repeat case_match.
  - intros v. unfold ProposalType_from. by repeat case_match.
  - intros v. unfold CredentialType_from. by repeat case_match.
  - intros v. unfold ProtocolVersion_from. by repeat case_match.
  - intros e. split.
    + intros E id ->. cbn [ExtensionType_u16] in E. by rewrite E.
    + destruct e as [| | | | | |id]; try done. intros H. specialize (H id eq_refl).
      simpl. unfold ExtensionType_from in *. by repeat case_match.
  - by intros [].
Qed.

(** An extension list never holds two extensions of one type: building one
    from a vector succeeds exactly when the types are distinct, [add] accepts
    exactly the new types, [remove] and [add_or_replace] keep the invariant,
    and looking up a type finds the one extension of that type. *)
Theorem extension_list_unique es e :
  unique_types es ->
  (forall candidate, Extensions_try_from candidate =
     if decide (unique_types candidate) then Ok candidate else Err Duplicate) /\
  Extensions_add e es =
    (if decide (unique_types (es ++ [e])) then (Ok tt, es ++ [e]) else (Err Duplicate, es)) /\
  (forall ty, unique_types (Extensions_remove ty es).2) /\
  (let '(_, es') := add_or_replace e es in
   unique_types es' /\ find_by_type es' (extension_type e) = Some e) /\
  (forall ty x, find_by_type es ty = Some x <-> x ∈ es /\ extension_type x = ty).
Proof.
  intros Hu. split_and!.
  - intros candidate. apply (Extensions_try_from_foldl candidate []). constructor.
  - unfold Extensions_add. run. destruct (Extensions_contains es (extension_type e)) eqn:E.
    + rewrite decide_False; [done|]. unfold unique_types. rewrite map_app. intros (_ & Hd & _)%NoDup_app.
      apply (Hd (extension_type e)); [by apply Extensions_contains_spec|by left].
    + rewrite decide_True; [done|]. by apply unique_types_snoc.
  - intros ty. eapply sublist_NoDup; [done|apply Extensions_remove_types].
  - unfold add_or_replace. destruct (Extensions_remove_types (extension_type e) es) as [Hs Hn].
    specialize (Hn Hu). pose proof (sublist_NoDup _ _ Hu Hs) as Hu'.
    destruct (Extensions_remove _ es) as [r es']. simpl in *.
    assert (unique_types (es' ++ [e])) as Hsnoc.
    { apply unique_types_snoc; [done|]. apply not_true_iff_false. by rewrite Extensions_contains_spec. }
    split; [done|]. apply find_by_type_spec; [done|]. split; [|done]. apply elem_of_app. right. by left.
  - intros ty x. by apply find_by_type_spec.
Qed.

Lemma extension_list_unique_witness :
  Extensions_add LastResortExtension [UnknownExtension 7 []] =
    (Ok tt, [UnknownExtension 7 []; LastResortExtension]).
Proof.
  pose proof (extension_list_unique [UnknownExtension 7 []] LastResortExtension
    (NoDup_singleton _)) as (_ & -> & _).
  vm_compute. reflexivity.
Defined.

(** Local validation accepts a leaf node exactly when none of its extensions
    is known to be misplaced in a leaf, every extension type that is not a
    default one is listed in its capabilities, and so is the type of its
    credential; an accepted leaf supports what a group requires exactly when the
    required types are default or listed. *)
Theorem validate_locally_correct l required :
  (validate_locally l = Ok tt <->
     (forall e, e ∈ leaf_extensions (payload l) ->
        is_valid_in_leaf_node (extension_type e) <> Some false /\
        (ExtensionType_is_default (extension_type e) = true \/
         extension_type e ∈ extensions (leaf_capabilities (payload l)))) /\
     credential_type (leaf_credential (payload l)) ∈ credentials (leaf_capabilities (payload l))) /\
  (supports_required_capabilities (leaf_capabilities (payload l)) required = Ok tt <->
     check_extension_support l (extension_types required) = Ok tt /\
     (forall p, p ∈ proposal_types required ->
        contains_proposal (leaf_capabilities (payload l)) p = true) /\
     (forall ty, ty ∈ credential_types required ->
        ty ∈ credentials (leaf_capabilities (payload l)))).
Proof.
  split.
  - unfold validate_locally. rewrite is_empty_filter.
    destruct (forallb _ (leaf_extensions (payload l))) eqn:E1; cbn [negb].
    2: { split; [done|]. intros [H _]. exfalso. apply not_true_iff_false in E1. apply E1, forallb_spec.
         intros e He. apply negb_true_iff, bool_decide_eq_false. by apply H. }
    rewrite forallb_spec in E1. unfold contains_extensions.
    destruct (forallb _ (map _ _)) eqn:E2; cbn [negb].
    2: { split; [done|]. intros [H _]. exfalso. apply not_true_iff_false in E2. apply E2, forallb_spec.
         intros ty (e & -> & He)%list_elem_of_fmap. apply orb_true_iff. destruct (proj2 (H e He)); [by left|right].
         by apply bool_decide_eq_true. }
    rewrite forallb_spec in E2. unfold contains_credential, mem.
    case_bool_decide as E3; cbn [negb]; [|split; [done|by intros [_ ?]]].
    split; [intros _; split; [|done]|done]. intros e He. split.
    + specialize (E1 e He). by apply negb_true_iff, bool_decide_eq_false in E1.
    + specialize (E2 _ (list_elem_of_fmap_2 extension_type _ _ He)). apply orb_true_iff in E2 as [?|E2]; [by left|].
      right. by apply bool_decide_eq_true in E2.
  - apply supports_required_spec.
Qed.

(** A lifetime created now is accepted now and until it ends, and the
    default one, as every one of at most 84 days, has an acceptable range. *)
Theorem lifetime_accepted now t later :
  DEFAULT_KEY_PACKAGE_LIFETIME_MARGIN_SECONDS <= now -> 0 < t -> now + t < 2 ^ 64 ->
  (Lifetime_is_valid (Some later) (Lifetime_new now t) = true <->
     now - DEFAULT_KEY_PACKAGE_LIFETIME_MARGIN_SECONDS < later < now + t) /\
  Lifetime_is_valid (Some now) (Lifetime_new now t) = true /\
  (has_acceptable_range (Lifetime_new now t) = true <-> t <= DEFAULT_KEY_PACKAGE_LIFETIME_SECONDS).
Proof.
  intros Hnow Ht Hmax. unfold Lifetime_is_valid, has_acceptable_range, Lifetime_new, u64_wrap,
    MAX_LEAF_NODE_LIFETIME_RANGE_SECONDS in *. cbn [not_before not_after].
  unfold DEFAULT_KEY_PACKAGE_LIFETIME_MARGIN_SECONDS in *.
  rewrite !Z.mod_small by lia. rewrite !andb_true_iff, !Z.ltb_lt, Z.leb_le. lia.
Qed.

Lemma lifetime_accepted_witness :
  Lifetime_is_valid (Some 1700000000)
    (Lifetime_new 1700000000 DEFAULT_KEY_PACKAGE_LIFETIME_SECONDS) = true.
Proof.
  apply (lifetime_accepted 1700000000 DEFAULT_KEY_PACKAGE_LIFETIME_SECONDS 1700000000);
    vm_compute; done.
Defined.

(** The table in [extensions/mod.rs] lists [application_id] as an extension
    of leaf nodes, but a leaf that carries one never passes local validation. *)
Theorem application_id_rejected_in_leaf l id :
  ApplicationIdExtension id ∈ leaf_extensions (payload l) ->
  validate_locally l = Err UnsupportedExtensions.
Proof.
  intros Hin. unfold validate_locally. rewrite is_empty_filter.
  destruct (forallb _ _) eqn:E; [|done]. rewrite forallb_spec in E. by specialize (E _ Hin).
Qed.

Lemma application_id_rejected_in_leaf_witness :
  validate_locally {|
    payload := {|
      leaf_encryption_key := [1]; leaf_signature_key := [2];
      leaf_credential := {| credential_type := CredBasic; serialized_credential_content := [3] |};
      leaf_capabilities := Capabilities_default;
      leaf_node_source := SourceUpdate;
      leaf_extensions := [ApplicationIdExtension [4]] |};
    leaf_signature := [] |} = Err UnsupportedExtensions.
Proof. apply (application_id_rejected_in_leaf _ [4]). left. Defined.
