(* ===== verification/Nodes.v ===== *)
(** * Nodes of the ratchet tree and their hashes

    Models [treesync/node/parent_node.rs] ([ParentNode], [UnmergedLeaves]),
    [treesync/node.rs] ([Node], [NodeReference]), [treesync/treesync_node.rs]
    (nodes that may be blank) and [treesync/hashes.rs].

    The hash function and the TLS encodings of the hash inputs belong to
    third-party crates: they are the parameters of the class [TreeHashing]; the
    theorems rely on [HashLaws]: hashing succeeds and a hash is not empty. *)

From S2P Require Import Prelude Crypto TreeMath LeafNodes BinaryTree.

(** [LibraryError]; the texts of custom errors and the codec's own error are
    left out. *)
Inductive LibraryError :=
| LibraryMissingBoundsCheck
| LibraryCryptoError (e : CryptoError)
| LibraryCustom.

(** ** Parent nodes *)

(** [UnmergedLeaves { list }] *)
Definition UnmergedLeaves := list LeafNodeIndex.

(** [list.binary_search(x).unwrap_or_else(|e| e)]: on a sorted list, the
    position of [x] or the one where it belongs, which is the number of smaller
    elements. *)
Definition search_position (l : UnmergedLeaves) (x : LeafNodeIndex) : nat :=
  length (List.filter (fun y => y <? x) l).

Definition UnmergedLeaves_add (leaf_index : LeafNodeIndex) (l : UnmergedLeaves) : UnmergedLeaves :=
  let position := search_position l leaf_index in
  take position l ++ leaf_index :: drop position l.

Inductive UnmergedLeavesError := NotSorted.

(** [windows(2).all(|e| e[0] < e[1])] *)
Fixpoint windows_increasing (l : list Z) : bool :=
  match l with
  | x :: (y :: _) as rest => (x <? y) && windows_increasing rest
  | _ => true
  end.

Definition UnmergedLeaves_try_from (l : list LeafNodeIndex) : outcome UnmergedLeavesError UnmergedLeaves :=
  if negb (windows_increasing l) then Err NotSorted else Ok l.

Record ParentNode := mkParentNode {
  parent_encryption_key : bytes;
  parent_tree_hash : bytes;
  parent_parent_hash : bytes;
  unmerged_leaves : UnmergedLeaves
}.

(** [From<EncryptionKey> for ParentNode] *)
Definition ParentNode_from (public_key : bytes) : ParentNode :=
  {| parent_encryption_key := public_key; parent_tree_hash := []; parent_parent_hash := [];
     unmerged_leaves := [] |}.

Definition add_unmerged_leaf (leaf_index : LeafNodeIndex) (p : ParentNode) : ParentNode :=
  {| parent_encryption_key := parent_encryption_key p; parent_tree_hash := parent_tree_hash p;
     parent_parent_hash := parent_parent_hash p;
     unmerged_leaves := UnmergedLeaves_add leaf_index (unmerged_leaves p) |}.

Definition set_unmerged_leaves (l : UnmergedLeaves) (p : ParentNode) : ParentNode :=
  {| parent_encryption_key := parent_encryption_key p; parent_tree_hash := parent_tree_hash p;
     parent_parent_hash := parent_parent_hash p; unmerged_leaves := l |}.

Definition set_parent_hash (parent_hash : bytes) (p : ParentNode) : ParentNode :=
  {| parent_encryption_key := parent_encryption_key p; parent_tree_hash := parent_tree_hash p;
     parent_parent_hash := parent_hash; unmerged_leaves := unmerged_leaves p |}.

Inductive Node :=
| NodeLeaf (l : LeafNode)
| NodeParent (p : ParentNode).

Inductive NodeReference :=
| RefLeaf (l : LeafNode)
| RefParent (p : ParentNode).

(** ** Nodes that may be blank *)

(** [TreeSyncLeafNode { node }] and [TreeSyncParentNode { node }] *)
Definition TreeSyncLeafNode := option LeafNode.
Definition TreeSyncParentNode := option ParentNode.

Definition blank {A} : option A := None.

#[export] Instance TreeSyncLeafNode_default : Default TreeSyncLeafNode := None.
#[export] Instance TreeSyncParentNode_default : Default TreeSyncParentNode := None.

(** [From<Node> for TreeSyncNode] and on to [TreeNode] *)
Definition TreeNode_from (node : Node) : TreeNode TreeSyncLeafNode TreeSyncParentNode :=
  match node with
  | NodeLeaf leaf => TreeNode_Leaf (Some leaf)
  | NodeParent parent => TreeNode_Parent (Some parent)
  end.

(** ** Hashes *)

Class TreeHashing := {
  (** [crypto.hash(hash_type, data)] *)
  provider_hash : HashType -> bytes -> outcome CryptoError bytes;
  (** [tls_serialize_detached] of [TreeHashInput::new_leaf] *)
  tls_leaf_hash_input : LeafNodeIndex -> option LeafNode -> option bytes;
  (** [tls_serialize_detached] of [TreeHashInput::new_parent] *)
  tls_parent_hash_input : option ParentNode -> bytes -> bytes -> option bytes;
  (** [tls_serialize_detached] of a [ParentHashInput] *)
  tls_parent_hash : bytes -> bytes -> bytes -> option bytes
}.

Section Hashes.
Context `{!TreeHashing}.

(** [TreeHashInput::hash] and [ParentHashInput::hash]: serialise, then hash. *)
Definition hash_payload (c : Ciphersuite) (payload : option bytes) : outcome LibraryError bytes :=
  payload ← ok_or payload LibraryMissingBoundsCheck;
  map_err LibraryCryptoError (provider_hash (hash_algorithm c) payload).

Definition Leaf_compute_tree_hash (c : Ciphersuite) (leaf : TreeSyncLeafNode) (leaf_index : LeafNodeIndex) :
    outcome LibraryError bytes :=
  hash_payload c (tls_leaf_hash_input leaf_index leaf).

Definition Parent_compute_tree_hash (c : Ciphersuite) (node : TreeSyncParentNode)
    (left_hash right_hash : bytes) (exclusion_list : list LeafNodeIndex) : outcome LibraryError bytes :=
  if is_empty exclusion_list then
    hash_payload c (tls_parent_hash_input node left_hash right_hash)
  else match node with
  | Some parent_node =>
    let leaves := List.filter (fun leaf => negb (mem leaf exclusion_list)) (unmerged_leaves parent_node) in
    let new_node := set_unmerged_leaves leaves parent_node in
    hash_payload c (tls_parent_hash_input (Some new_node) left_hash right_hash)
  | None => hash_payload c (tls_parent_hash_input None left_hash right_hash)
  end.

Definition compute_parent_hash (c : Ciphersuite) (p : ParentNode) (original_child_resolution : bytes) :
    outcome LibraryError bytes :=
  hash_payload c (tls_parent_hash (parent_encryption_key p) (parent_parent_hash p)
                    original_child_resolution).

Class HashLaws : Prop := {
  provider_hash_ok hash data : exists digest, provider_hash hash data = Ok digest /\ digest <> [];
  tls_leaf_hash_input_ok i l : exists data, tls_leaf_hash_input i l = Some data;
  tls_parent_hash_input_ok p l r : exists data, tls_parent_hash_input p l r = Some data;
  tls_parent_hash_ok k p s : exists data, tls_parent_hash k p s = Some data
}.

Context `{!HashLaws}.

Lemma hash_payload_ok c data : exists digest, hash_payload c (Some data) = Ok digest /\ digest <> [].
Proof.
  unfold hash_payload. run. destruct (provider_hash_ok (hash_algorithm c) data) as (d & -> & Hd). eauto.
Qed.

Lemma Leaf_compute_tree_hash_ok c leaf i :
  exists digest, Leaf_compute_tree_hash c leaf i = Ok digest /\ digest <> [].
Proof.
  unfold Leaf_compute_tree_hash. destruct (tls_leaf_hash_input_ok i leaf) as [data ->]. apply hash_payload_ok.
Qed.

Lemma Parent_compute_tree_hash_ok c node l r ex :
  exists digest, Parent_compute_tree_hash c node l r ex = Ok digest /\ digest <> [].
Proof.
  unfold Parent_compute_tree_hash. destruct (is_empty ex).
  - destruct (tls_parent_hash_input_ok node l r) as [data ->]. apply hash_payload_ok.
  - destruct node as [p|].
    + destruct (tls_parent_hash_input_ok
        (Some (set_unmerged_leaves (List.filter (fun leaf => negb (mem leaf ex)) (unmerged_leaves p)) p)) l r)
        as [data ->]. apply hash_payload_ok.
    + destruct (tls_parent_hash_input_ok None l r) as [data ->]. apply hash_payload_ok.
Qed.

Lemma compute_parent_hash_ok c p s : exists digest, compute_parent_hash c p s = Ok digest.
Proof.
  unfold compute_parent_hash.
  destruct (tls_parent_hash_ok (parent_encryption_key p) (parent_parent_hash p) s) as [data ->].
  destruct (hash_payload_ok c data) as (d & -> & _). eauto.
Qed.
End Hashes.

(** A hashing scheme that satisfies the laws, for evaluating the model. *)
Definition toy_hashing : TreeHashing := {|
  provider_hash _ data := Ok [1 + foldl (fun a b => (5 * a + b) mod 65537) 3 data];
  tls_leaf_hash_input i l :=
    Some (1 :: i :: match l with Some l => leaf_encryption_key (payload l) | None => [0] end);
  tls_parent_hash_input p l r :=
    Some (2 :: match p with Some p => parent_encryption_key p ++ unmerged_leaves p | None => [0] end
            ++ l ++ r);
  tls_parent_hash k p s := Some (k ++ p ++ s)
|}.

Lemma toy_hash_laws : @HashLaws toy_hashing.
Proof. split; simpl; eauto. Qed.

(** ** Unmerged leaves *)

Lemma windows_increasing_sorted l : windows_increasing l = true <-> StronglySorted Z.lt l.
Proof.
  induction l as [|x [|y l] IH]; simpl.
  - split; [constructor|done].
  - split; [repeat constructor|done].
  - rewrite andb_true_iff, Z.ltb_lt. simpl in IH. rewrite IH. split.
    + intros [Hxy Hs]. constructor; [done|]. apply StronglySorted_inv in Hs as [_ Hall].
      constructor; [done|]. eapply Forall_impl; [exact Hall|]. simpl. lia.
    + intros [Hs Hall]%StronglySorted_inv. apply Forall_cons in Hall as [? _]. done.
Qed.

Lemma search_position_split l x : StronglySorted Z.lt l ->
  Forall (fun y => y < x) (take (search_position l x) l) /\
  Forall (fun y => x <= y) (drop (search_position l x) l).
Proof.
  unfold search_position. induction 1 as [|y l Hs [IHt IHd] Hall]; simpl; [split; constructor|].
  destruct (Z.ltb_spec y x) as [Hlt|Hge]; simpl; [split; [by constructor|done]|].
  assert (Hnone : List.filter (fun z => z <? x) l = []).
  { clear -Hall Hge. induction Hall as [|z l Hz Hall IH]; simpl; [done|].
    destruct (Z.ltb_spec z x); [lia|done]. }
  rewrite Hnone. simpl. split; [constructor|]. constructor; [done|].
  eapply Forall_impl; [exact Hall|]. simpl. lia.
Qed.

Lemma StronglySorted_app_inv {A} (R : relation A) l1 l2 : StronglySorted R (l1 ++ l2) ->
  StronglySorted R l1 /\ StronglySorted R l2.
Proof.
  induction l1 as [|x l1 IH]; simpl; [split; [constructor|done]|].
  intros [Hs Hall]%StronglySorted_inv. destruct (IH Hs). apply Forall_app in Hall as [? _].
  split; [by constructor|done].
Qed.

Lemma StronglySorted_app_intro {A} (R : relation A) l1 l2 : StronglySorted R l1 -> StronglySorted R l2 ->
  (forall x y, x ∈ l1 -> y ∈ l2 -> R x y) -> StronglySorted R (l1 ++ l2).
Proof.
  induction 1 as [|x l1 Hs IH Hall]; simpl; intros H2 Hxy; [done|].
  constructor; [apply IH; [done|]; intros; apply Hxy; [by right|done]|].
  apply Forall_app. split; [done|]. apply Forall_forall. intros y Hy. apply Hxy; [by left|done].
Qed.

Lemma UnmergedLeaves_add_elem_of x l y : y ∈ UnmergedLeaves_add x l <-> y = x \/ y ∈ l.
Proof.
  unfold UnmergedLeaves_add. rewrite elem_of_app, elem_of_cons.
  assert (y ∈ l <-> y ∈ take (search_position l x) l \/ y ∈ drop (search_position l x) l)
    by (by rewrite <- elem_of_app, take_drop).
  tauto.
Qed.

Lemma UnmergedLeaves_add_sorted x l : StronglySorted Z.lt l -> x ∉ l ->
  StronglySorted Z.lt (UnmergedLeaves_add x l).
Proof.
  intros Hs Hn. unfold UnmergedLeaves_add. destruct (search_position_split l x Hs) as [Ht Hd].
  rewrite Forall_forall in Ht, Hd.
  assert (Hx : forall y, y ∈ drop (search_position l x) l -> x < y).
  { intros y Hy. specialize (Hd y Hy). simpl in Hd. assert (x <> y); [|lia]. intros ->. apply Hn.
    rewrite <- (take_drop (search_position l y) l). apply elem_of_app. by right. }
  rewrite <- (take_drop (search_position l x) l) in Hs. apply StronglySorted_app_inv in Hs as [H1 H2].
  apply StronglySorted_app_intro; [done| |].
  - constructor; [done|]. apply Forall_forall. exact Hx.
  - intros y z Hy [->|Hz]%elem_of_cons; [by apply Ht|]. specialize (Ht y Hy). specialize (Hx z Hz).
    simpl in *. lia.
Qed.

(** ** Theorem *)

(** The list of unmerged leaves of a parent node stays strictly sorted when a
    leaf that is not in it is added, holds exactly the old leaves and the new
    one, and is accepted when it is decoded again; adding a leaf that is already
    listed would make the list undecodable. *)
Theorem unmerged_leaves_sorted l x :
  UnmergedLeaves_try_from l = Ok l ->
  (forall y, y ∈ UnmergedLeaves_add x l <-> y = x \/ y ∈ l) /\
  UnmergedLeaves_try_from (UnmergedLeaves_add x l) =
    if decide (x ∈ l) then Err NotSorted else Ok (UnmergedLeaves_add x l).
Proof.
  unfold UnmergedLeaves_try_from. destruct (windows_increasing l) eqn:E; cbn [negb]; [intros _|done].
  apply windows_increasing_sorted in E. split; [apply UnmergedLeaves_add_elem_of|].
  case_decide as Hx.
  - destruct (windows_increasing (UnmergedLeaves_add x l)) eqn:E2; [|done].
    apply windows_increasing_sorted in E2. exfalso.
    destruct (search_position_split l x E) as [Ht _]. unfold UnmergedLeaves_add in E2.
    apply StronglySorted_app_inv in E2 as [_ [_ Hall]%StronglySorted_inv].
    rewrite <- (take_drop (search_position l x) l) in Hx. rewrite Forall_forall in Hall, Ht.
    apply elem_of_app in Hx as [Hx%Ht|Hx%Hall]; lia.
  - by rewrite (proj2 (windows_increasing_sorted _) (UnmergedLeaves_add_sorted x l E Hx)).
Qed.

Lemma unmerged_leaves_sorted_witness :
  UnmergedLeaves_try_from (UnmergedLeaves_add 4 [1; 7]) = Ok [1; 4; 7].
Proof.
  pose proof (unmerged_leaves_sorted [1; 7] 4 eq_refl) as [_ ->]. vm_compute. reflexivity.
Defined.
