(* ===== verification/TreeSyncDiff.v ===== *)
(** * Membership changes of the ratchet tree

    Models the part of [treesync/diff.rs] that changes and reads the tree:
    adding, updating and blanking leaves with the bookkeeping the authors added
    ([blanked_leaves], [num_members]), trimming, resolutions and filtered
    paths.  Tree and parent hashes are in [TreeHash]. *)

From S2P Require Import Prelude Crypto TreeMath SortedIter BinaryTree LeafNodes Nodes.

Record TreeSyncDiff := mkTreeSyncDiff {
  diff : AbDiff TreeSyncLeafNode TreeSyncParentNode;
  tree_hashes : list bytes;
  blanked_leaves : list LeafNodeIndex;
  num_members : Z
}.

Inductive TreeSyncAddLeaf :=
| AddLeafLibraryError (e : LibraryError)
| TreeFull.

Inductive TreeSyncDiffError :=
| DiffLibraryError (e : LibraryError)
| NoPrivateKeyFound
| TreeDiffError (e : ABinaryTreeDiffError)
| DerivationError
| CreationError (e : ABinaryTreeError).

Definition set_diff (d : AbDiff TreeSyncLeafNode TreeSyncParentNode) (s : TreeSyncDiff) : TreeSyncDiff :=
  {| diff := d; tree_hashes := tree_hashes s; blanked_leaves := blanked_leaves s;
     num_members := num_members s |}.

Definition set_members (blanked : list LeafNodeIndex) (n : Z) (s : TreeSyncDiff) : TreeSyncDiff :=
  {| diff := diff s; tree_hashes := tree_hashes s; blanked_leaves := blanked; num_members := n |}.

Definition tsd_leaf_count (s : TreeSyncDiff) : Z := AbDiff_leaf_count (diff s).
Definition tsd_tree_size (s : TreeSyncDiff) : TreeSize := diff_size (diff s).

(** [(self.num_members + self.blanked_leaves.len() - 1) as u32] *)
Definition rightmost_full_leaf (s : TreeSyncDiff) : LeafNodeIndex :=
  u32_wrap (usize_wrap (num_members s + Z.of_nat (length (blanked_leaves s)) - 1)).

(** [while self.diff.size().leaf_is_left(rightmost) { self.diff.shrink_tree() }]: a
    tree has at most 30 levels, so 32 rounds suffice. *)
Fixpoint trim_loop (fuel : nat) (rightmost : LeafNodeIndex)
    (d : AbDiff TreeSyncLeafNode TreeSyncParentNode) : AbDiff TreeSyncLeafNode TreeSyncParentNode :=
  match fuel with
  | O => d
  | S fuel =>
    if TreeSize_leaf_is_left (diff_size d) rightmost then
      match shrink_tree d with
      | inr d => trim_loop fuel rightmost d
      | inl _ => trim_loop fuel rightmost d
      end
    else d
  end.

Definition trim_tree (s : TreeSyncDiff) : TreeSyncDiff :=
  if tsd_leaf_count s =? MIN_TREE_SIZE then s
  else set_diff (trim_loop 32 (rightmost_full_leaf s) (diff s)) s.

Definition update_leaf (leaf_node : LeafNode) (leaf_index : LeafNodeIndex) (s : TreeSyncDiff) : TreeSyncDiff :=
  set_diff (set_direct_path_to_node (replace_leaf (diff s) leaf_index (Some leaf_node)) leaf_index blank) s.

(** [iter().min()] of a non-empty list *)
Definition list_min (x : Z) (l : list Z) : Z := foldl Z.min x l.

Definition free_leaf_index (s : TreeSyncDiff) : LeafNodeIndex :=
  match blanked_leaves s with
  | x :: l => list_min x l
  | [] => u32_wrap (num_members s)
  end.

(** [while leaf_index >= self.diff.size().leaf_count() { self.diff.grow_tree()? }]; the
    number of leaves doubles each round and [grow_tree] refuses to pass [2^29], so
    32 rounds suffice. *)
Fixpoint grow_loop (fuel : nat) (leaf_index : LeafNodeIndex)
    (d : AbDiff TreeSyncLeafNode TreeSyncParentNode) :
    outcome TreeSyncAddLeaf () * AbDiff TreeSyncLeafNode TreeSyncParentNode :=
  match fuel with
  | O => (Ok tt, d)
  | S fuel =>
    if AbDiff_leaf_count d <=? leaf_index then
      match grow_tree d with
      | inr d => grow_loop fuel leaf_index d
      | inl _ => (Err TreeFull, d)
      end
    else (Ok tt, d)
  end.

(** The loop over the direct path that records the new leaf as unmerged. *)
Definition add_unmerged (leaf_index : LeafNodeIndex)
    (d : AbDiff TreeSyncLeafNode TreeSyncParentNode) : AbDiff TreeSyncLeafNode TreeSyncParentNode :=
  foldl (fun d parent_index => parent_mut d parent_index (option_map (add_unmerged_leaf leaf_index)))
    d (AbDiff_direct_path d leaf_index).

Definition add_leaf (leaf_node : LeafNode) : method TreeSyncDiff TreeSyncAddLeaf LeafNodeIndex :=
  self ← get;
  let leaf_index := free_leaf_index self in
  on_part diff set_diff (grow_loop 32 leaf_index);;
  modify (fun s => set_diff (replace_leaf (diff s) leaf_index (Some leaf_node)) s);;
  modify (fun s => set_diff (add_unmerged leaf_index (diff s)) s);;
  modify (fun s => set_members (List.filter (fun index => negb (index =? leaf_index)) (blanked_leaves s))
                     (usize_wrap (num_members s + 1)) s);;
  mret leaf_index.

Definition blank_leaf (leaf_index : LeafNodeIndex) (s : TreeSyncDiff) : TreeSyncDiff :=
  let s := set_diff (replace_leaf (diff s) leaf_index blank) s in
  let s := set_diff (set_direct_path_to_node (diff s) leaf_index blank) s in
  let s := trim_tree s in
  set_members (blanked_leaves s ++ [leaf_index]) (usize_wrap (num_members s - 1)) s.

(** ** Resolutions *)

Definition leaf_resolution (s : TreeSyncDiff) (leaf_index : LeafNodeIndex) :
    list (TreeNodeIndex * NodeReference) :=
  match AbDiff_leaf (diff s) leaf_index with
  | Some leaf => [(Leaf leaf_index, RefLeaf leaf)]
  | None => []
  end.

(** The recursion descends one level per call and a tree has at most 30 levels. *)
Fixpoint resolution_rec (fuel : nat) (s : TreeSyncDiff) (node_index : TreeNodeIndex)
    (excluded_indices : list LeafNodeIndex) (rightmost : LeafNodeIndex) :
    list (TreeNodeIndex * NodeReference) :=
  match fuel with
  | O => []
  | S fuel =>
    match node_index with
    | Leaf leaf_index =>
      if mem leaf_index excluded_indices then [] else leaf_resolution s leaf_index
    | Parent parent_index =>
      match AbDiff_parent (diff s) parent_index with
      | Some parent =>
        (Parent parent_index, RefParent parent) ::
        concat (map (fun leaf_index =>
            if mem leaf_index excluded_indices then [] else leaf_resolution s leaf_index)
          (unmerged_leaves parent))
      | None =>
        let beyond := match leftmost parent_index with
                      | Leaf leaf_index => rightmost <? leaf_index
                      | Parent _ => false
                      end in
        if beyond then []
        else
          resolution_rec fuel s (left parent_index) excluded_indices rightmost ++
          resolution_rec fuel s (right parent_index) excluded_indices rightmost
      end
    end
  end.

Definition resolution (s : TreeSyncDiff) (node_index : TreeNodeIndex)
    (excluded_indices : list LeafNodeIndex) (rightmost : LeafNodeIndex) :
    list (TreeNodeIndex * NodeReference) :=
  resolution_rec 32 s node_index excluded_indices rightmost.

Definition copath_resolutions (s : TreeSyncDiff) (leaf_index : LeafNodeIndex) :
    list (list (TreeNodeIndex * NodeReference)) :=
  if AbDiff_leaf_count (diff s) =? MIN_TREE_SIZE then []
  else
    let rightmost := rightmost_full_leaf s in
    map (fun node_index => resolution s node_index [] rightmost) (AbDiff_copath (diff s) leaf_index).

(** [a.zip(resolutions).filter_map(..)]: the entries whose resolution is not empty. *)
Definition keep_resolved {A R} (xs : list A) (resolutions : list (list R)) : list A :=
  omap (fun '(index, resolution) => if is_empty resolution then None else Some index)
    (zip xs resolutions).

Definition filtered_direct_path (s : TreeSyncDiff) (leaf_index : LeafNodeIndex) : list ParentNodeIndex :=
  keep_resolved (AbDiff_direct_path (diff s) leaf_index) (copath_resolutions s leaf_index).

Definition filtered_copath (s : TreeSyncDiff) (leaf_index : LeafNodeIndex) : list TreeNodeIndex :=
  keep_resolved (AbDiff_copath (diff s) leaf_index) (copath_resolutions s leaf_index).

Definition keep_included (exclusion_list : list LeafNodeIndex)
    (resolution : list (TreeNodeIndex * NodeReference)) : list (TreeNodeIndex * NodeReference) :=
  omap (fun '(index, node) =>
      match index with
      | Leaf leaf_index => if mem leaf_index exclusion_list then None else Some (Leaf leaf_index, node)
      | Parent _ => Some (index, node)
      end) resolution.

Definition filtered_copath_resolutions (s : TreeSyncDiff) (leaf_index : LeafNodeIndex)
    (exclusion_list : list LeafNodeIndex) : list (list (TreeNodeIndex * NodeReference)) :=
  if AbDiff_leaf_count (diff s) =? 1 then []
  else
    omap (fun node_index =>
        let resolution := resolution s node_index [] (rightmost_full_leaf s) in
        if is_empty resolution then None else Some (keep_included exclusion_list resolution))
      (AbDiff_copath (diff s) leaf_index).

(** [iter().position(..)] *)
Fixpoint position {A} (p : A -> bool) (l : list A) : option nat :=
  match l with
  | [] => None
  | x :: l => if p x then Some O else S <$> position p l
  end.

Definition subtree_root_position (s : TreeSyncDiff) (leaf_index_1 leaf_index_2 : LeafNodeIndex) :
    outcome TreeSyncDiffError nat :=
  let subtree_root_node_index := lowest_common_ancestor leaf_index_1 leaf_index_2 in
  ok_or (position (fun i => i =? subtree_root_node_index) (filtered_direct_path s leaf_index_1))
    (DiffLibraryError LibraryCustom).

Definition reference_key (node_ref : NodeReference) : bytes :=
  match node_ref with
  | RefLeaf leaf => leaf_encryption_key (payload leaf)
  | RefParent parent => parent_encryption_key parent
  end.

(** [EncryptionKeyPair]: the public and the private key. *)
Definition EncryptionKeyPair : Type := bytes * bytes.

(** [enumerate().find_map(..)]: the first key of the resolution we own. *)
Fixpoint find_owned (position : nat) (keys : list bytes) (owned_keys : list EncryptionKeyPair) :
    option (EncryptionKeyPair * nat) :=
  match keys with
  | [] => None
  | pk :: keys =>
    match List.find (fun owned => bool_decide (owned.1 = pk)) owned_keys with
    | Some keypair => Some (keypair, position)
    | None => find_owned (S position) keys owned_keys
    end
  end.

Definition decryption_key (s : TreeSyncDiff) (sender_leaf_index : LeafNodeIndex)
    (excluded_indices : list LeafNodeIndex) (owned_keys : list EncryptionKeyPair)
    (leaf_index : LeafNodeIndex) : outcome TreeSyncDiffError (bytes * nat) :=
  let node := subtree_root_copath_node (diff s) sender_leaf_index leaf_index in
  let sender_copath_resolution :=
    map (fun x => reference_key x.2) (resolution s node excluded_indices (rightmost_full_leaf s)) in
  match find_owned O sender_copath_resolution owned_keys with
  | Some (keypair, resolution_position) => Ok (keypair.2, resolution_position)
  | None => Err NoPrivateKeyFound
  end.

Definition filtered_common_direct_path (s : TreeSyncDiff) (leaf_index_1 leaf_index_2 : LeafNodeIndex) :
    list ParentNodeIndex :=
  let x_path := rev (filtered_direct_path s leaf_index_1) in
  let y_path := rev (filtered_direct_path s leaf_index_2) in
  rev (common_prefix x_path y_path).

Definition encryption_keys (s : TreeSyncDiff) (leaf_index : LeafNodeIndex) : list bytes :=
  match AbDiff_leaf (diff s) leaf_index with
  | Some leaf => [leaf_encryption_key (payload leaf)]
  | None => []
  end ++
  omap (fun parent_index =>
      match AbDiff_parent (diff s) parent_index with
      | Some node =>
        if negb (mem leaf_index (unmerged_leaves node)) then Some (parent_encryption_key node) else None
      | None => None
      end) (filtered_direct_path s leaf_index).

Definition tsd_full_leaves (s : TreeSyncDiff) : list LeafNode :=
  omap (fun '(_, tsn) => tsn) (AbDiff_leaves (diff s)).

(** ** The invariant

    [total] is one more than the rightmost leaf ever used: leaves are used from
    left to right and blanked leaves are remembered. *)

Definition total (s : TreeSyncDiff) : Z := num_members s + Z.of_nat (length (blanked_leaves s)).

Definition leaf_at (s : TreeSyncDiff) (i : Z) : option LeafNode := AbDiff_leaf (diff s) i.
Definition parent_at (s : TreeSyncDiff) (k m : Z) : option ParentNode := AbDiff_parent (diff s) (pnode k m).

Record members_ok (s : TreeSyncDiff) (h : Z) : Prop := {
  mo_diff : diff_wf (diff s) h;
  mo_fits : fits (diff s) h;
  mo_blanked : NoDup (blanked_leaves s) /\ forall i, i ∈ blanked_leaves s -> 0 <= i < total s;
  mo_members : 0 <= num_members s;
  mo_total : 0 < total s <= 2 ^ h;
  mo_minimal : h = 0 \/ 2 ^ (h - 1) < total s;
  mo_leaves i : 0 <= i -> is_Some (leaf_at s i) <-> i < total s /\ i ∉ blanked_leaves s
}.

(** What a non-blank parent node at level [k], position [m] promises. *)
Record parent_ok (s : TreeSyncDiff) (k m : Z) (p : ParentNode) : Prop := {
  po_sorted : StronglySorted Z.lt (unmerged_leaves p);
  po_below i : i ∈ unmerged_leaves p -> 0 <= i /\ i / 2 ^ k = m /\ is_Some (leaf_at s i);
  po_inherit i j q : i ∈ unmerged_leaves p -> 0 < j < k -> parent_at s j (i / 2 ^ j) = Some q ->
    i ∈ unmerged_leaves q;
  po_both b : 0 <= b <= 1 -> exists i, 0 <= i /\ i / 2 ^ (k - 1) = 2 * m + b /\ is_Some (leaf_at s i)
}.

Definition parents_ok (s : TreeSyncDiff) (h : Z) : Prop :=
  forall k m p, in_tree h k m -> 0 < k -> parent_at s k m = Some p -> parent_ok s k m p.

Definition tree_sync_ok (s : TreeSyncDiff) (h : Z) : Prop := members_ok s h /\ parents_ok s h.

(** ** Lemmas *)

Lemma members_leaf_in s h i : diff_wf (diff s) h -> 0 <= i < 2 ^ h -> leaf_in h i.
Proof. intros Hd Hi. split; [apply (dwf_height _ _ Hd)|done]. Qed.

Lemma members_direct_path s h i : diff_wf (diff s) h ->
  AbDiff_direct_path (diff s) i = direct_path i (tree_size h).
Proof. intros Hd. unfold AbDiff_direct_path. by rewrite (dwf_size _ _ Hd). Qed.

(** The diff of a well-formed state reads below its own size only. *)
Lemma members_leaf_lt s h i : members_ok s h -> 0 <= i -> is_Some (leaf_at s i) -> i < 2 ^ h.
Proof. intros Hm Hi Hs. apply (mo_leaves _ _ Hm) in Hs as [? _]; [|done]. pose proof (mo_total _ _ Hm). lia. Qed.

Lemma rightmost_full_leaf_spec s h : height h -> 0 < total s <= 2 ^ h ->
  rightmost_full_leaf s = total s - 1.
Proof.
  intros [? ?] Ht.
  pose proof (pow2_le h 29). unfold rightmost_full_leaf, usize_wrap. fold (total s).
  rewrite Z.mod_small, u32_wrap_small by lia. done.
Qed.

Lemma list_min_spec x l : list_min x l ∈ x :: l /\ forall y, y ∈ x :: l -> list_min x l <= y.
Proof.
  unfold list_min. revert x. induction l as [|z l IH]; intros x; simpl.
  - split; [by left|]. intros y ->%list_elem_of_singleton. lia.
  - destruct (IH (Z.min x z)) as [Hin Hle]. split.
    + apply elem_of_cons in Hin as [->|Hin]; [|by right; right].
      destruct (Z.min_spec x z) as [[_ ->]|[_ ->]]; [by left|by right; left].
    + intros y Hy. pose proof (Hle (Z.min x z) ltac:(by left)).
      rewrite !elem_of_cons in Hy. destruct Hy as [E|[E|Hy]]; [lia|lia|]. apply Hle. by right.
Qed.

(** The free index is the first blank leaf, or the next one to the right. *)
Lemma free_leaf_index_spec s h : members_ok s h ->
  let i := free_leaf_index s in
  0 <= i <= total s /\ leaf_at s i = None /\ (forall j, 0 <= j < i -> is_Some (leaf_at s j)) /\
  (i ∈ blanked_leaves s \/ (blanked_leaves s = [] /\ i = total s)).
Proof.
  intros Hm. pose proof (mo_total _ _ Hm) as Ht. pose proof (mo_blanked _ _ Hm) as [_ Hb].
  destruct (dwf_height _ _ (mo_diff _ _ Hm)). pose proof (pow2_le h 29).
  assert (Hnone : forall i, 0 <= i -> ~ (i < total s /\ i ∉ blanked_leaves s) -> leaf_at s i = None).
  { intros i Hi Hn. destruct (leaf_at s i) as [l|] eqn:E; [|done]. exfalso. apply Hn, (mo_leaves _ _ Hm i Hi).
    by rewrite E. }
  unfold free_leaf_index. destruct (blanked_leaves s) as [|x l] eqn:E; cbv zeta.
  - unfold total in *. rewrite E in *. simpl in *. rewrite Z.add_0_r in *. rewrite u32_wrap_small by lia.
    split_and!; [lia..| | |right; done].
    + apply Hnone; [lia|]. intros [? _]. lia.
    + intros j Hj. apply (mo_leaves _ _ Hm); [lia|]. unfold total. rewrite E. simpl. split; [lia|apply not_elem_of_nil].
  - destruct (list_min_spec x l) as [Hin Hle]. pose proof (Hb _ Hin). split_and!; [lia..| | |by left].
    + apply Hnone; [lia|]. intros [_ Hn]. done.
    + intros j Hj. apply (mo_leaves _ _ Hm); [lia|]. rewrite E. split; [lia|]. intros Hj'%Hle. lia.
Qed.

Lemma trim_loop_stop fuel r d : TreeSize_leaf_is_left (diff_size d) r = false -> trim_loop fuel r d = d.
Proof. intros E. destruct fuel; cbn [trim_loop]; [done|]. by rewrite E. Qed.

(** Trimming never removes a leaf: the rightmost leaf ever used lies in the right half. *)
Lemma trim_tree_id s h : diff_wf (diff s) h -> 0 < total s <= 2 ^ h -> h = 0 \/ 2 ^ (h - 1) < total s ->
  trim_tree s = s.
Proof.
  intros Hd Ht Hmin. pose proof (dwf_height _ _ Hd) as Hh.
  unfold trim_tree. destruct (_ =? _); [done|]. rewrite (rightmost_full_leaf_spec s h) by done.
  rewrite trim_loop_stop; [by destruct s|]. rewrite (dwf_size _ _ Hd).
  rewrite TreeSize_leaf_is_left_spec by done. destruct Hh.
  destruct Hmin as [->|]; [simpl; lia|].
  destruct (Z.ltb_spec 0 h), (Z.ltb_spec (total s - 1) (2 ^ (h - 1))), (Z.eqb_spec h 0),
    (Z.ltb_spec (total s - 1) 0); simpl; lia.
Qed.

Lemma NoDup_range_length (l : list Z) n : NoDup l -> (forall i, i ∈ l -> 0 <= i < n) ->
  Z.of_nat (length l) <= Z.max 0 n.
Proof.
  intros Hnd Hr. assert (l ⊆+ seqZ 0 n) as Hs%submseteq_length.
  { apply NoDup_submseteq; [done|]. intros i Hi%Hr. by apply elem_of_seqZ. }
  rewrite length_seqZ in Hs. lia.
Qed.

(** A member can only be removed when there is one. *)
Lemma members_positive s h i : members_ok s h -> 0 <= i -> is_Some (leaf_at s i) ->
  0 < num_members s.
Proof.
  intros Hm Hi [Hlt Hn]%(mo_leaves _ _ Hm); [|done]. destruct (mo_blanked _ _ Hm) as [Hnd Hb].
  pose proof (NoDup_range_length (i :: blanked_leaves s) (total s)) as H. simpl in H.
  pose proof (mo_total _ _ Hm). unfold total in *.
  assert (Z.pos (Pos.of_succ_nat (length (blanked_leaves s))) <= Z.max 0 (num_members s + Z.of_nat (length (blanked_leaves s))));
    [|lia]. apply H; [by constructor|]. intros j [->|Hj]%elem_of_cons; [lia|by apply Hb].
Qed.

(** [s'] is [s] with leaf [i] set to [l] and [f] applied along its direct path. *)
Definition writes_path (s s' : TreeSyncDiff) (h i : Z) (l : option LeafNode)
    (f : option ParentNode -> option ParentNode) : Prop :=
  (forall j, 0 <= j -> leaf_at s' j = if decide (j = i) then l else leaf_at s j) /\
  (forall k m, in_tree h k m -> 0 < k ->
     parent_at s' k m = if decide (i / 2 ^ k = m) then f (parent_at s k m) else parent_at s k m).

Lemma below_in_tree h k m i j : in_tree h k m -> 0 <= i -> i / 2 ^ k = m -> 0 <= j <= k -> height h ->
  in_tree h j (i / 2 ^ j).
Proof.
  intros [Hk Hm] Hi E Hj Hh. apply in_tree_path; [|lia]. split; [done|]. split; [done|].
  pose proof (pow2_pos k). pose proof (Z.mul_div_le i (2 ^ k)). pose proof (Z.mul_succ_div_gt i (2 ^ k)).
  assert (2 ^ h = 2 ^ k * 2 ^ (h - k)) by (rewrite <- Z.pow_add_r by lia; f_equal; lia). nia.
Qed.

Lemma child_below i k m b : 0 < k -> 0 <= b <= 1 -> i / 2 ^ (k - 1) = 2 * m + b -> i / 2 ^ k = m.
Proof.
  intros Hk Hb E. replace k with (k - 1 + 1) by lia. rewrite <- path_step, E by lia.
  symmetry. apply (Z.div_unique _ _ _ b); lia.
Qed.

(** Both subtrees of a non-blank parent have a member. *)
Lemma po_member s k m p : 0 < k -> parent_ok s k m p -> exists i, 0 <= i /\ i / 2 ^ k = m /\ is_Some (leaf_at s i).
Proof.
  intros Hk Hp. destruct (po_both _ _ _ _ Hp 0) as (i & Hi & E & Hs); [lia|]. exists i. split_and!; [done| |done].
  by apply (child_below i k m 0); [|lia|].
Qed.

Lemma parents_ok_blank s s' h i l : height h -> writes_path s s' h i l (fun _ => None) ->
  parents_ok s h -> parents_ok s' h.
Proof.
  intros Hh [Hl Hp] Hok k m p Hin Hk E. rewrite (Hp k m Hin Hk) in E.
  case_decide as Hne; [done|]. destruct (Hok k m p Hin Hk E) as [Hs Hb Hi Hboth].
  assert (Hother : forall j, 0 <= j -> j / 2 ^ k = m -> leaf_at s' j = leaf_at s j).
  { intros j Hj Ej. rewrite Hl by done. rewrite decide_False; [done|]. by intros ->. }
  split; [done| | |].
  - intros j Hj. destruct (Hb j Hj) as (? & ? & ?). by rewrite Hother.
  - intros j j' q Hj Hj' Eq. destruct (Hb j Hj) as (Hj0 & Ejm & _).
    assert (in_tree h j' (j / 2 ^ j')) as Hin' by (apply (below_in_tree h k m j); done || lia).
    rewrite (Hp _ _ Hin' ltac:(lia)) in Eq. case_decide; [done|]. by apply (Hi j j' q).
  - intros b Hb'. destruct (Hboth b Hb') as (w & Hw0 & Hw & Hws). exists w.
    by rewrite Hother by (done || by apply (child_below w k m b)).
Qed.

Lemma parents_ok_add s s' h i l : height h -> 0 <= i -> leaf_at s i = None ->
  writes_path s s' h i (Some l) (option_map (add_unmerged_leaf i)) ->
  parents_ok s h -> parents_ok s' h.
Proof.
  intros Hh Hi0 Hblank [Hl Hp] Hok k m p' Hin Hk E.
  assert (Hsome : forall j, 0 <= j -> is_Some (leaf_at s j) -> is_Some (leaf_at s' j)).
  { intros j Hj Hs. rewrite Hl by done. by case_decide. }
  assert (Hnew : is_Some (leaf_at s' i)) by (rewrite Hl by done; by rewrite decide_True).
  assert (exists p, parent_at s k m = Some p /\ (forall j, j ∈ unmerged_leaves p' ->
      j ∈ unmerged_leaves p \/ (j = i /\ i / 2 ^ k = m)) /\ StronglySorted Z.lt (unmerged_leaves p'))
    as (p & Ep & Hun & Hsort).
  { rewrite (Hp k m Hin Hk) in E. destruct (parent_at s k m) as [p|] eqn:Es; [|by case_decide].
    pose proof (Hok k m p Hin Hk Es) as [Hs Hb _ _]. exists p. split; [done|].
    case_decide as Hpath; simplify_eq/=; [|split; [by left|done]]. split.
    - intros j [->|]%UnmergedLeaves_add_elem_of; [by right|by left].
    - apply UnmergedLeaves_add_sorted; [done|]. intros (_ & _ & [x Hx])%Hb. congruence. }
  destruct (Hok k m p Hin Hk Ep) as [Hs Hb Hinh Hboth]. split; [done| | |].
  - intros j Hj. destruct (Hun j Hj) as [Hj'|[-> Hpath]]; [|done].
    destruct (Hb j Hj') as (? & ? & ?). split_and!; [done..|]. by apply Hsome.
  - intros j j' q Hj Hj' Eq.
    assert (0 <= j /\ j / 2 ^ k = m) as [Hj0 Ejm]
      by (destruct (Hun j Hj) as [(? & ? & _)%Hb|[-> ?]]; done).
    assert (in_tree h j' (j / 2 ^ j')) as Hin' by (apply (below_in_tree h k m j); done || lia).
    rewrite (Hp _ _ Hin' ltac:(lia)) in Eq. destruct (parent_at s j' (j / 2 ^ j')) as [q0|] eqn:Eq0; [|by case_decide].
    destruct (Hun j Hj) as [Hold|[-> _]].
    + pose proof (Hinh j j' q0 Hold Hj' Eq0). case_decide; simplify_eq/=; [|done].
      apply UnmergedLeaves_add_elem_of. by right.
    + rewrite decide_True in Eq by done. simplify_eq/=. apply UnmergedLeaves_add_elem_of. by left.
  - intros b Hb'. destruct (Hboth b Hb') as (w & Hw0 & Hw & Hws). exists w. split_and!; [done..|]. by apply Hsome.
Qed.

Lemma parents_ok_ext s s' h : (forall j, 0 <= j -> leaf_at s' j = leaf_at s j) ->
  (forall k m, parent_at s' k m = parent_at s k m) -> parents_ok s h -> parents_ok s' h.
Proof.
  intros Hl Hp Hok k m p Hin Hk E. rewrite Hp in E.
  destruct (Hok k m p Hin Hk E) as [Hs Hb Hi Hboth]. split; [done| | |].
  - intros j Hj. destruct (Hb j Hj) as (? & ? & ?). by rewrite Hl.
  - intros j j' q Hj Hj'. rewrite Hp. by apply Hi.
  - intros b Hb'. destruct (Hboth b Hb') as (w & Hw0 & Hw & Hws). exists w. by rewrite Hl.
Qed.

(** In a larger tree the new parents are blank. *)
Lemma parents_ok_grow s s' h : members_ok s h -> h + 1 <= 29 ->
  (forall j, 0 <= j -> leaf_at s' j = leaf_at s j) -> (forall k m, parent_at s' k m = parent_at s k m) ->
  parents_ok s h -> parents_ok s' (h + 1).
Proof.
  intros Hm Hh Hl Hp Hok k m p Hin Hk E. rewrite Hp in E. pose proof (dwf_height _ _ (mo_diff _ _ Hm)) as Hh0.
  assert (Hin' : in_tree h k m).
  { assert (height (h + 1)) as Hh1 by (destruct Hh0; split; lia).
    pose proof (in_tree_slot (h + 1) k m Hh1 Hin) as Hslot. rewrite <- index_at_parent in Hslot by done.
    destruct (Z.lt_ge_cases (pnode k m) (2 ^ h - 1)).
    - destruct (in_tree_exists h (pnode k m) Hh0 ltac:(lia)) as (k' & m' & Hin' & Hk' & Ek).
      apply pnode_inj in Ek as [-> ->]; [done|exact (in_tree_coord _ _ _ Hh1 Hin)|exact (in_tree_coord _ _ _ Hh0 Hin')|done|done].
    - exfalso. unfold parent_at in E.
      by rewrite (fits_parent_blank _ h _ (mo_diff _ _ Hm) (mo_fits _ _ Hm)) in E. }
  apply (parents_ok_ext s s' h Hl Hp Hok); [done|done|by rewrite Hp].
Qed.

Lemma blank_path_writes s h i l : diff_wf (diff s) h -> fits (diff s) h -> 0 <= i < 2 ^ h ->
  let s' := set_diff (set_direct_path_to_node (replace_leaf (diff s) i l) i blank) s in
  diff_wf (diff s') h /\ fits (diff s') h /\ writes_path s s' h i l (fun _ => None).
Proof.
  intros Hd Hf Hi s'. pose proof (members_leaf_in s h i Hd Hi) as Hin.
  split_and!.
  - apply set_direct_path_wf; [|done]. by apply replace_leaf_wf.
  - unfold fits. simpl. by rewrite set_direct_path_original.
  - split.
    + intros j Hj. unfold leaf_at, s'. cbn [diff set_diff]. rewrite set_direct_path_leaf.
      by rewrite (AbDiff_leaf_replace _ h) by done.
    + intros k m Hkm Hk. unfold parent_at, s'. cbn [diff set_diff]. rewrite set_direct_path_parent.
      change (AbDiff_direct_path (replace_leaf (diff s) i l) i) with (AbDiff_direct_path (diff s) i).
      rewrite (members_direct_path s h) by done.
      destruct (decide (i / 2 ^ k = m)) as [E|E].
      * rewrite decide_True; [done|]. by apply elem_of_direct_path.
      * rewrite decide_False; [done|]. by rewrite elem_of_direct_path.
Qed.

Lemma add_path_writes s h i l : diff_wf (diff s) h -> fits (diff s) h -> 0 <= i < 2 ^ h ->
  let s' := set_diff (add_unmerged i (replace_leaf (diff s) i (Some l))) s in
  diff_wf (diff s') h /\ fits (diff s') h /\
  writes_path s s' h i (Some l) (option_map (add_unmerged_leaf i)).
Proof.
  intros Hd Hf Hi s'. pose proof (members_leaf_in s h i Hd Hi) as Hin.
  assert (Ep : AbDiff_direct_path (replace_leaf (diff s) i (Some l)) i = direct_path i (tree_size h))
    by by apply members_direct_path.
  unfold s', add_unmerged. rewrite Ep. split_and!.
  - apply foldl_parent_mut_wf; [by apply replace_leaf_wf|].
    apply Forall_forall. intros p. by apply direct_path_range.
  - unfold fits. simpl. by rewrite foldl_parent_mut_original.
  - split.
    + intros j Hj. unfold leaf_at. cbn [diff set_diff]. rewrite foldl_parent_mut_leaf.
      by rewrite (AbDiff_leaf_replace _ h) by done.
    + intros k m Hkm Hk. unfold parent_at. cbn [diff set_diff].
      rewrite foldl_parent_mut_parent by by apply direct_path_NoDup.
      destruct (decide (i / 2 ^ k = m)) as [E|E].
      * rewrite decide_True; [done|]. by apply elem_of_direct_path.
      * rewrite decide_False; [done|]. by rewrite elem_of_direct_path.
Qed.

Lemma update_leaf_ok s h leaf i : tree_sync_ok s h -> 0 <= i -> is_Some (leaf_at s i) ->
  tree_sync_ok (update_leaf leaf i s) h.
Proof.
  intros [Hm Hp] Hi Hs. pose proof (members_leaf_lt s h i Hm Hi Hs).
  destruct (blank_path_writes s h i (Some leaf) (mo_diff _ _ Hm) (mo_fits _ _ Hm) ltac:(lia)) as (Hd & Hf & Hw).
  fold (update_leaf leaf i s) in *. split.
  - destruct Hm as [_ _ Hb Hn Ht Hmin Hl]. split; try done. intros j Hj.
    rewrite (proj1 Hw j Hj). case_decide as E; [|by apply Hl]. subst j.
    change (total (update_leaf leaf i s)) with (total s). rewrite <- Hl by done. by split.
  - eapply parents_ok_blank; [apply (dwf_height _ _ Hd)|exact Hw|done].
Qed.

Lemma blank_leaf_ok s h i : tree_sync_ok s h -> 0 <= i -> is_Some (leaf_at s i) ->
  tree_sync_ok (blank_leaf i s) h /\ num_members (blank_leaf i s) = num_members s - 1 /\
  writes_path s (blank_leaf i s) h i None (fun _ => None).
Proof.
  intros [Hm Hp] Hi Hs. pose proof (members_leaf_lt s h i Hm Hi Hs).
  destruct (proj1 (mo_leaves _ _ Hm i Hi) Hs) as [Hit Hib]. pose proof (members_positive s h i Hm Hi Hs).
  destruct (blank_path_writes s h i None (mo_diff _ _ Hm) (mo_fits _ _ Hm) ltac:(lia)) as (Hd & Hf & Hw).
  assert (E : blank_leaf i s = set_members (blanked_leaves s ++ [i]) (num_members s - 1)
      (set_diff (set_direct_path_to_node (replace_leaf (diff s) i None) i blank) s)).
  { unfold blank_leaf. cbn [diff set_diff].
    rewrite (trim_tree_id _ h) by (exact Hd || apply (mo_total _ _ Hm) || apply (mo_minimal _ _ Hm)).
    pose proof (mo_total _ _ Hm) as Ht. unfold total in Ht. destruct (dwf_height _ _ Hd). pose proof (pow2_le h 29).
    unfold usize_wrap. by rewrite Z.mod_small by (cbn; lia). }
  assert (Et : total (blank_leaf i s) = total s) by (rewrite E; unfold total; cbn; rewrite length_app; simpl; lia).
  assert (Hw' : writes_path s (blank_leaf i s) h i None (fun _ => None)) by (by rewrite E).
  split; [|split; [by rewrite E|done]]. split.
  - destruct Hm as [_ _ [Hnd Hb] Hn Ht Hmin Hl]. split; rewrite ?Et; try done.
    + by rewrite E.
    + by rewrite E.
    + rewrite E. cbn. split.
      * apply NoDup_app. split_and!; [done| |apply NoDup_singleton]. intros x Hx ->%list_elem_of_singleton. done.
      * intros j [Hj| ->%list_elem_of_singleton]%elem_of_app; [by apply Hb|lia].
    + rewrite E. cbn. lia.
    + intros j Hj. rewrite (proj1 Hw' j Hj). rewrite E. cbn. rewrite elem_of_app, list_elem_of_singleton.
      case_decide as Ej; [subst; split; [by intros []|tauto]|]. rewrite Hl by done. tauto.
  - eapply parents_ok_blank; [apply (dwf_height _ _ Hd)|exact Hw'|done].
Qed.

Lemma grow_loop_stop fuel i d : i < AbDiff_leaf_count d -> grow_loop fuel i d = (Ok tt, d).
Proof. intros H. destruct fuel; cbn [grow_loop]; [done|]. by rewrite (proj2 (Z.leb_gt _ _)) by lia. Qed.

(** At most one doubling is needed, since the index is at most [total]. *)
Lemma grow_loop_spec s h i : members_ok s h -> 0 <= i <= total s ->
  match grow_loop 32 i (diff s) with
  | (Ok _, d) => exists h', h <= h' /\ (h' = h \/ 2 ^ (h' - 1) = i) /\ i < 2 ^ h' /\ diff_wf d h' /\ fits d h' /\
      (forall j, 0 <= j -> AbDiff_leaf d j = AbDiff_leaf (diff s) j) /\
      (forall p, AbDiff_parent d p = AbDiff_parent (diff s) p) /\
      (h' = h \/ (h' = h + 1 /\ h + 1 <= 29))
  | (Err e, d) => e = TreeFull /\ d = diff s /\ h = 29 /\ i = 2 ^ h
  | (Panic, _) => False
  end.
Proof.
  intros Hm Hi. pose proof (mo_diff _ _ Hm) as Hd. pose proof (mo_total _ _ Hm) as Ht.
  pose proof (AbDiff_leaf_count_spec _ _ Hd) as Hc. destruct (Z.lt_ge_cases i (2 ^ h)) as [Hlt|Hge].
  - rewrite grow_loop_stop by lia. exists h. split_and!; try done; [by left|apply (mo_fits _ _ Hm)|by left].
  - assert (i = 2 ^ h) as -> by lia.
    change (grow_loop 32) with (fun i d => grow_loop (S 31) i d). cbv beta.
    assert (E : forall d, grow_loop (S 31) (2 ^ h) d = if AbDiff_leaf_count d <=? 2 ^ h then
      match grow_tree d with inr d => grow_loop 31 (2 ^ h) d | inl _ => (Err TreeFull, d) end else (Ok tt, d))
      by done.
    rewrite E, Hc, Z.leb_refl. pose proof (grow_tree_spec _ _ Hd) as Hg.
    destruct (grow_tree (diff s)) as [e|d] eqn:Eg; [by destruct Hg|].
    destruct Hg as (Hh & Hd' & _). destruct (grow_tree_reads _ _ _ Hd (mo_fits _ _ Hm) Eg) as (Hf & Hl & Hp).
    destruct (dwf_height _ _ Hd). pose proof (pow2_succ h). pose proof (pow2_pos h).
    rewrite grow_loop_stop by (rewrite (AbDiff_leaf_count_spec _ _ Hd'); lia).
    exists (h + 1). replace (h + 1 - 1) with h by lia. split_and!; try done; [lia|by right|lia|right; lia].
Qed.

Lemma filter_ne_spec (l : list Z) i : NoDup l ->
  let l' := List.filter (fun j => negb (j =? i)) l in
  NoDup l' /\ (forall j, j ∈ l' <-> j ∈ l /\ j <> i) /\
  Z.of_nat (length l') = Z.of_nat (length l) - (if decide (i ∈ l) then 1 else 0).
Proof.
  cbv zeta. induction 1 as [|x l Hx Hnd (IHn & IHe & IHl)]; simpl.
  - split_and!; [constructor|set_solver|reflexivity].
  - destruct (Z.eqb_spec x i) as [->|Hne]; simpl.
    + split_and!; [done| |].
      * intros j. rewrite IHe, elem_of_cons. split; [tauto|]. intros [[->|?] ?]; [done|tauto].
      * rewrite decide_True by (by left). rewrite decide_False in IHl by done. lia.
    + split_and!.
      * constructor; [|done]. rewrite IHe. tauto.
      * intros j. rewrite !elem_of_cons, IHe. split; [|tauto]. intros [->|?]; tauto.
      * destruct (decide (i ∈ l)); [rewrite decide_True by (by right)|rewrite decide_False]; [lia| |].
        -- lia.
        -- rewrite elem_of_cons. intros [->|?]; done.
Qed.

Lemma add_leaf_ok s h leaf : tree_sync_ok s h ->
  let i := free_leaf_index s in
  match add_leaf leaf s with
  | (Ok i', s') => i' = i /\ total s' = Z.max (total s) (i + 1) /\ exists h',
      h <= h' /\ tree_sync_ok s' h' /\ writes_path s s' h' i (Some leaf) (option_map (add_unmerged_leaf i))
  | (Err e, s') => e = TreeFull /\ s' = s /\ h = 29
  | (Panic, _) => False
  end.
Proof.
  intros [Hm Hp] i. destruct (free_leaf_index_spec s h Hm) as (Hi & Hnone & _ & Hor). fold i in Hi, Hnone, Hor.
  unfold add_leaf. run. fold i. pose proof (grow_loop_spec s h i Hm Hi) as Hg.
  destruct (grow_loop 32 i (diff s)) as [[u|e|] d]; [|destruct Hg as (-> & -> & -> & _); by destruct s|done].
  destruct Hg as (h' & Hh & Hh' & Hih & Hd & Hf & Hl & Hpar & Hcase).
  assert (Hp1 : parents_ok (set_diff d s) h').
  { destruct Hcase as [->|[-> ?]]; [apply (parents_ok_ext s)|apply (parents_ok_grow s)]; try done;
      intros k m; apply Hpar. }
  destruct (add_path_writes (set_diff d s) h' i leaf Hd Hf ltac:(lia)) as (Hd2 & Hf2 & Hw2 & Hw2').
  cbn [diff set_diff] in *. set (s1 := set_diff (add_unmerged i (replace_leaf d i (Some leaf))) s) in *.
  change (set_diff (add_unmerged i (replace_leaf d i (Some leaf))) (set_diff d s)) with s1 in *.
  assert (Hp2 : parents_ok s1 h').
  { eapply (parents_ok_add (set_diff d s) s1); [apply (dwf_height _ _ Hd)|apply Hi| |split; [exact Hw2|exact Hw2']|done].
    unfold leaf_at. cbn [diff set_diff]. rewrite Hl by lia. exact Hnone. }
  destruct (mo_blanked _ _ Hm) as [Hnd Hb]. pose proof (mo_total _ _ Hm) as Ht.
  destruct (filter_ne_spec (blanked_leaves s) i Hnd) as (Hnd' & Hel & Hlen).
  destruct (dwf_height _ _ Hd) as [Hh0 Hh29]. destruct (dwf_height _ _ (mo_diff _ _ Hm)). pose proof (pow2_le h h'). pose proof (pow2_le h' 29).
  pose proof (mo_members _ _ Hm) as Hn0.
  match goal with |- _ /\ total ?x = _ /\ _ => set (s2 := x) end.
  assert (En : num_members s2 = num_members s + 1)
    by (cbn; unfold usize_wrap; unfold total in Ht; rewrite Z.mod_small; lia).
  assert (Et : total s2 = Z.max (total s) (i + 1)).
  { unfold total in *. rewrite En. cbn. rewrite Hlen. case_decide as Hd3.
    - apply Hb in Hd3. lia.
    - destruct Hor as [?|[-> E]]; [done|]. cbn in *. lia. }
  split; [done|]. split; [done|]. exists h'. split; [done|].
  assert (Hleaf : forall j, 0 <= j -> leaf_at s2 j = if decide (j = i) then Some leaf else leaf_at s j).
  { intros j Hj. change (leaf_at s2 j) with (leaf_at s1 j). rewrite Hw2 by done.
    destruct (decide (j = i)); [done|]. by apply Hl. }
  split.
  - split; [split|]; try done; rewrite ?Et, ?En; try lia.
    + split; [done|]. intros j [Hj _]%Hel. apply Hb in Hj. lia.
    + destruct Hh' as [->|E]; [destruct (mo_minimal _ _ Hm); lia|lia].
    + intros j Hj. rewrite Hleaf by done. cbn. rewrite Hel. destruct (decide (j = i)) as [Ej|Ej].
      * subst. split; [intros _; split; [lia|tauto]|done].
      * rewrite (mo_leaves _ _ Hm) by done.
        assert (j < total s <-> j < Z.max (total s) (i + 1)) by lia. tauto.
    + by apply (parents_ok_ext s1).
  - split; [done|]. intros k m Hin Hk. change (parent_at s2 k m) with (parent_at s1 k m).
    rewrite Hw2' by done. unfold parent_at. cbn [diff set_diff]. by rewrite Hpar.
Qed.

(** ** Resolutions, without pruning

    The resolution of RFC 9420, section 7.1, by recursion on the level of the node. *)

Definition listed_leaves (s : TreeSyncDiff) (excluded : list LeafNodeIndex) (leaves : list LeafNodeIndex) :
    list (TreeNodeIndex * NodeReference) :=
  concat (map (fun i => if mem i excluded then [] else leaf_resolution s i) leaves).

Fixpoint resolution_ref (s : TreeSyncDiff) (k : nat) (m : Z) (excluded : list LeafNodeIndex) :
    list (TreeNodeIndex * NodeReference) :=
  match k with
  | O => listed_leaves s excluded [m]
  | S k' =>
    match parent_at s (Z.of_nat k) m with
    | Some p => (Parent (pnode (Z.of_nat k) m), RefParent p) :: listed_leaves s excluded (unmerged_leaves p)
    | None => resolution_ref s k' (2 * m) excluded ++ resolution_ref s k' (2 * m + 1) excluded
    end
  end.

(** Right of every leaf ever used there is nothing to resolve. *)
Lemma resolution_ref_beyond s h k m ex : tree_sync_ok s h -> in_tree h (Z.of_nat k) m ->
  total s <= 2 ^ Z.of_nat k * m -> resolution_ref s k m ex = [].
Proof.
  intros [Hm Hp]. revert m. induction k as [|k IH]; intros m Hin Hbeyond.
  - cbn [resolution_ref listed_leaves map concat]. rewrite app_nil_r. destruct (mem m ex); [done|].
    change (2 ^ Z.of_nat 0) with 1 in Hbeyond. unfold leaf_resolution. fold (leaf_at s m).
    destruct (leaf_at s m) as [l|] eqn:E; [|done].
    assert (is_Some (leaf_at s m)) as [? _]%(mo_leaves _ _ Hm) by done; [lia|apply Hin].
  - cbn [resolution_ref]. destruct (parent_at s (Z.of_nat (S k)) m) as [p|] eqn:E.
    + destruct (po_member s (Z.of_nat (S k)) m p ltac:(lia) (Hp _ _ p Hin ltac:(lia) E)) as (w & Hw0 & Hw & Hws).
      apply (mo_leaves _ _ Hm) in Hws as [? _]; [|done]. pose proof (pow2_pos (Z.of_nat (S k))).
      pose proof (Z.mul_div_le w (2 ^ Z.of_nat (S k))). rewrite Hw in *. lia.
    + replace (Z.of_nat (S k)) with (Z.of_nat k + 1) in * by lia. rewrite pow2_succ in Hbeyond by lia.
      pose proof (pow2_pos (Z.of_nat k)).
      pose proof (in_tree_child h (Z.of_nat k + 1) m 0 ltac:(lia) Hin ltac:(lia)) as H0.
      pose proof (in_tree_child h (Z.of_nat k + 1) m 1 ltac:(lia) Hin ltac:(lia)) as H1.
      replace (Z.of_nat k + 1 - 1) with (Z.of_nat k) in * by lia. rewrite Z.add_0_r in H0.
      rewrite (IH _ H0), (IH _ H1) by nia. done.
Qed.

Lemma resolution_rec_ref s h fuel k m ex : tree_sync_ok s h -> in_tree h (Z.of_nat k) m -> (k < fuel)%nat ->
  resolution_rec fuel s (index_at (Z.of_nat k) m) ex (total s - 1) = resolution_ref s k m ex.
Proof.
  intros Hok. pose proof (dwf_height _ _ (mo_diff _ _ (proj1 Hok))) as Hh. revert fuel m.
  induction k as [|k IH]; intros [|fuel] m Hin Hf; try lia.
  - cbn. by rewrite app_nil_r.
  - rewrite <- index_at_parent by lia. cbn [resolution_rec]. fold (parent_at s (Z.of_nat (S k)) m).
    pose proof (in_tree_coord _ _ _ Hh Hin) as Hc.
    destruct (parent_at s (Z.of_nat (S k)) m) as [p|] eqn:E; [cbn [resolution_ref]; by rewrite E|].
    rewrite leftmost_pnode, left_pnode, right_pnode by (done || lia).
    destruct (Z.ltb_spec (total s - 1) (2 ^ Z.of_nat (S k) * m)).
    + symmetry. apply (resolution_ref_beyond s h); [done|done|lia].
    + cbn [resolution_ref]. rewrite E.
      pose proof (in_tree_child h (Z.of_nat (S k)) m 0 ltac:(lia) Hin ltac:(lia)) as H0.
      pose proof (in_tree_child h (Z.of_nat (S k)) m 1 ltac:(lia) Hin ltac:(lia)) as H1.
      replace (Z.of_nat (S k) - 1) with (Z.of_nat k) in * by lia. rewrite Z.add_0_r in H0.
      by rewrite (IH fuel _ H0), (IH fuel _ H1) by lia.
Qed.

Lemma resolution_spec s h k m ex : tree_sync_ok s h -> in_tree h k m ->
  resolution s (index_at k m) ex (rightmost_full_leaf s) = resolution_ref s (Z.to_nat k) m ex.
Proof.
  intros Hok Hin. pose proof (proj1 Hok) as Hm. pose proof (dwf_height _ _ (mo_diff _ _ Hm)) as Hh.
  unfold resolution. rewrite (rightmost_full_leaf_spec s h Hh (mo_total _ _ Hm)).
  replace k with (Z.of_nat (Z.to_nat k)) in Hin |- * at 1 by (destruct Hin; lia).
  apply (resolution_rec_ref s h); [done|done|]. destruct Hin, Hh. lia.
Qed.

Lemma listed_leaves_elem_of s ex leaves x : x ∈ listed_leaves s ex leaves <->
  exists i l, i ∈ leaves /\ i ∉ ex /\ leaf_at s i = Some l /\ x = (Leaf i, RefLeaf l).
Proof.
  unfold listed_leaves. rewrite list_elem_of_In, in_concat. split.
  - intros (ys & Hys & Hx). apply list_elem_of_In, list_elem_of_fmap in Hys as (i & -> & Hi).
    apply list_elem_of_In in Hx. unfold mem, leaf_resolution in Hx. fold (leaf_at s i) in Hx.
    case_bool_decide; [by apply not_elem_of_nil in Hx|].
    destruct (leaf_at s i) as [l|] eqn:E; [|by apply not_elem_of_nil in Hx].
    apply list_elem_of_singleton in Hx. by exists i, l.
  - intros (i & l & Hi & Hn & E & ->). exists [(Leaf i, RefLeaf l)]. split; [|by left].
    apply list_elem_of_In, list_elem_of_fmap. exists i. split; [|done].
    unfold mem, leaf_resolution. fold (leaf_at s i). rewrite E. by rewrite bool_decide_false.
Qed.

(** A resolution covers the members below its node, each by its own leaf or by a
    parent whose key it holds, and nothing else. *)
Definition covers (s : TreeSyncDiff) (k m : Z) (r : list (TreeNodeIndex * NodeReference)) : Prop :=
  (forall i, 0 <= i -> i / 2 ^ k = m -> is_Some (leaf_at s i) ->
     (exists l, leaf_at s i = Some l /\ (Leaf i, RefLeaf l) ∈ r) \/
     (exists j p, 0 < j <= k /\ parent_at s j (i / 2 ^ j) = Some p /\
        (Parent (pnode j (i / 2 ^ j)), RefParent p) ∈ r /\ i ∉ unmerged_leaves p)) /\
  (forall x, x ∈ r -> exists i, 0 <= i /\ i / 2 ^ k = m /\ is_Some (leaf_at s i)).

Lemma covers_children s k m r0 r1 : 0 < k -> covers s (k - 1) (2 * m) r0 -> covers s (k - 1) (2 * m + 1) r1 ->
  covers s k m (r0 ++ r1).
Proof.
  intros Hk [H0 E0] [H1 E1].
  assert (Hdiv : forall i, i / 2 ^ k = i / 2 ^ (k - 1) / 2).
  { intros i. rewrite path_step by lia. f_equal. f_equal. lia. }
  split.
  - intros i Hi Him Hs. rewrite Hdiv in Him.
    assert (i / 2 ^ (k - 1) = 2 * m \/ i / 2 ^ (k - 1) = 2 * m + 1) as [E|E]
      by (Z.div_mod_to_equations; lia).
    + destruct (H0 i Hi E Hs) as [(l & El & Hin)|(j & p & Hj & Ep & Hin & Hn)]; [left|right].
      * exists l. rewrite elem_of_app. tauto.
      * exists j, p. rewrite elem_of_app. split_and!; [lia..|done|tauto|done].
    + destruct (H1 i Hi E Hs) as [(l & El & Hin)|(j & p & Hj & Ep & Hin & Hn)]; [left|right].
      * exists l. rewrite elem_of_app. tauto.
      * exists j, p. rewrite elem_of_app. split_and!; [lia..|done|tauto|done].
  - intros x [Hx|Hx]%elem_of_app.
    + destruct (E0 x Hx) as (i & Hi & E & Hs). exists i. split_and!; [done| |done].
      rewrite Hdiv, E. Z.div_mod_to_equations. lia.
    + destruct (E1 x Hx) as (i & Hi & E & Hs). exists i. split_and!; [done| |done].
      rewrite Hdiv, E. Z.div_mod_to_equations. lia.
Qed.

Lemma resolution_ref_covers s h k m : tree_sync_ok s h -> in_tree h (Z.of_nat k) m ->
  covers s (Z.of_nat k) m (resolution_ref s k m []).
Proof.
  intros [Hm Hp]. revert m. induction k as [|k IH]; intros m Hin.
  - split.
    + intros i Hi E [l Hl]. change (2 ^ Z.of_nat 0) with 1 in E. rewrite Z.div_1_r in E. subst m. left.
      exists l. split; [done|]. apply listed_leaves_elem_of. exists i, l. split_and!; [by left|apply not_elem_of_nil|done..].
    + intros x (i & l & ->%list_elem_of_singleton & _ & E & ->)%listed_leaves_elem_of. exists m.
      change (2 ^ Z.of_nat 0) with 1. rewrite Z.div_1_r, E. by split_and!; [apply Hin| |].
  - cbn [resolution_ref]. destruct (parent_at s (Z.of_nat (S k)) m) as [p|] eqn:E.
    + pose proof (po_member s (Z.of_nat (S k)) m p ltac:(lia) (Hp _ _ p Hin ltac:(lia) E)) as Hw.
      split; [|by intros x _].
      intros i Hi Ei [l Hl]. destruct (decide (i ∈ unmerged_leaves p)) as [Hu|Hu].
      * left. exists l. split; [done|]. right. apply listed_leaves_elem_of. exists i, l.
        split_and!; [done|apply not_elem_of_nil|done..].
      * right. exists (Z.of_nat (S k)), p. rewrite Ei. split_and!; [lia..|done|by left|done].
    + pose proof (in_tree_child h (Z.of_nat (S k)) m 0 ltac:(lia) Hin ltac:(lia)) as H0.
      pose proof (in_tree_child h (Z.of_nat (S k)) m 1 ltac:(lia) Hin ltac:(lia)) as H1.
      replace (Z.of_nat (S k) - 1) with (Z.of_nat k) in * by lia. rewrite Z.add_0_r in H0.
      apply covers_children; [lia|..]; replace (Z.of_nat (S k) - 1) with (Z.of_nat k) by lia; by apply IH.
Qed.

Lemma in_tree_flip h k m : in_tree h k m -> k < h -> in_tree h k (flip m).
Proof.
  intros [Hk Hm] Hlt. split; [done|]. unfold flip. pose proof (pow2_pred (h - k) ltac:(lia)).
  destruct (Z.even m) eqn:E; [apply even_half in E|apply odd_half in E]; lia.
Qed.

Lemma keep_resolved_elem_of {A R} (xs : list A) (rs : list (list R)) x :
  x ∈ keep_resolved xs rs <-> exists j r, xs !! j = Some x /\ rs !! j = Some r /\ r <> [].
Proof.
  unfold keep_resolved. rewrite list_elem_of_omap. split.
  - intros ([y r] & [j Hj]%list_elem_of_lookup & E). rewrite lookup_zip_with in Hj.
    destruct (xs !! j) as [y'|] eqn:Ex; [|done]. destruct (rs !! j) as [r'|] eqn:Er; [|done].
    simpl in Hj. simplify_eq. exists j, r. destruct r; simplify_eq/=; done.
  - intros (j & r & Hx & Hr & Hne). exists (x, r). split; [|by destruct r].
    apply list_elem_of_lookup. exists j. by rewrite lookup_zip_with, Hx, Hr.
Qed.

Lemma length_keep_resolved {A B R} (xs : list A) (ys : list B) (rs : list (list R)) :
  length xs = length ys -> length (keep_resolved xs rs) = length (keep_resolved ys rs).
Proof.
  unfold keep_resolved. revert ys rs. induction xs as [|x xs IH]; intros [|y ys] [|[|r1 r] rs] H; simpl in *;
    try done; [apply (IH ys rs); lia|f_equal; apply (IH ys rs); lia].
Qed.

(** The resolution of the copath node at level [j] of leaf [i]. *)
Lemma copath_resolution_lookup s h i (j : nat) : tree_sync_ok s h -> leaf_in h i -> (j < Z.to_nat h)%nat ->
  copath_resolutions s i !! j =
    Some (resolution_ref s j (flip (i / 2 ^ Z.of_nat j)) []).
Proof.
  intros Hok Hi Hj. pose proof (mo_diff _ _ (proj1 Hok)) as Hd. unfold copath_resolutions.
  rewrite (AbDiff_leaf_count_spec _ _ Hd). pose proof (pow2_le 1 h).
  rewrite (proj2 (Z.eqb_neq (2 ^ h) MIN_TREE_SIZE)) by (unfold MIN_TREE_SIZE; lia).
  unfold AbDiff_copath. rewrite (dwf_size _ _ Hd), copath_spec by (done || lia).
  rewrite list_lookup_fmap, list_lookup_fmap, below_root_lookup by done. cbn [fmap option_fmap option_map fst snd].
  f_equal. rewrite (resolution_spec s h); [by rewrite Nat2Z.id|done|].
  apply in_tree_flip; [|lia]. apply in_tree_path; [done|lia].
Qed.

Lemma covers_nonempty s k m r : covers s k m r ->
  r <> [] <-> exists i, 0 <= i /\ i / 2 ^ k = m /\ is_Some (leaf_at s i).
Proof.
  intros [Hc He]. split.
  - destruct r as [|x r]; [done|]. intros _. apply (He x). by left.
  - intros (i & Hi & E & Hs) ->. destruct (Hc i Hi E Hs) as [(l & _ & H)|(j & p & _ & _ & H & _)];
      by apply not_elem_of_nil in H.
Qed.

Lemma filtered_direct_path_spec s h i k : tree_sync_ok s h -> leaf_in h i -> 0 < k <= h ->
  pnode k (i / 2 ^ k) ∈ filtered_direct_path s i <->
  exists j, 0 <= j /\ j / 2 ^ (k - 1) = flip (i / 2 ^ (k - 1)) /\ is_Some (leaf_at s j).
Proof.
  intros Hok Hi Hk. pose proof (mo_diff _ _ (proj1 Hok)) as Hd.
  assert (Hin : in_tree h (k - 1) (flip (i / 2 ^ (k - 1)))).
  { apply in_tree_flip; [|lia]. apply in_tree_path; [done|lia]. }
  replace (k - 1) with (Z.of_nat (Z.to_nat (k - 1))) in Hin by lia.
  pose proof (covers_nonempty _ _ _ _ (resolution_ref_covers s h _ _ Hok Hin)) as Hne.
  replace (Z.of_nat (Z.to_nat (k - 1))) with (k - 1) in Hne by lia. rewrite <- Hne.
  pose proof (copath_resolution_lookup s h i (Z.to_nat (k - 1)) Hok Hi ltac:(lia)) as Hr.
  replace (Z.of_nat (Z.to_nat (k - 1))) with (k - 1) in Hr by lia.
  unfold filtered_direct_path. rewrite keep_resolved_elem_of, (members_direct_path s h) by done. split.
  - intros (j & r & Hp & Hrj & Hrne). pose proof (lookup_lt_Some _ _ _ Hp) as Hlt.
    rewrite length_direct_path in Hlt by done. rewrite direct_path_lookup in Hp by done.
    injection Hp as E. apply pnode_inj in E as [E _]; [|apply (coord_path h); [done|lia]..|lia|lia].
    replace (Z.to_nat (k - 1)) with j in Hr |- * by lia. congruence.
  - intros Hrne. eexists (Z.to_nat (k - 1)), _. split; [|split; [exact Hr|done]].
    rewrite direct_path_lookup by (done || lia). by replace (Z.of_nat (Z.to_nat (k - 1)) + 1) with k by lia.
Qed.

(** ** Membership changes *)

Inductive member_step : TreeSyncDiff -> TreeSyncDiff -> Prop :=
| member_add s leaf i s' : add_leaf leaf s = (Ok i, s') -> member_step s s'
| member_update s leaf i : 0 <= i -> is_Some (leaf_at s i) -> member_step s (update_leaf leaf i s)
| member_remove s i : 0 <= i -> is_Some (leaf_at s i) -> member_step s (blank_leaf i s).

Lemma member_step_ok s s' h : tree_sync_ok s h -> member_step s s' ->
  exists h', h <= h' /\ tree_sync_ok s' h'.
Proof.
  intros Hok Hstep. destruct Hstep as [s leaf i s' E|s leaf i Hi Hs|s i Hi Hs].
  - pose proof (add_leaf_ok s h leaf Hok) as Ha. rewrite E in Ha. destruct Ha as (_ & _ & h' & ? & ? & _). eauto.
  - exists h. split; [done|]. by apply update_leaf_ok.
  - exists h. split; [done|]. by apply blank_leaf_ok.
Qed.

(** ** Theorems *)

(** C19: the bookkeeping of members holds in every state reachable by adding,
    updating and removing members: a leaf is occupied exactly when it lies left
    of [num_members + blanked_leaves.len()] and is not among the blanked ones,
    and every non-blank parent node lists, in order, occupied unmerged leaves
    below it that the parents in between list too, and has members in both of
    its subtrees. *)
Theorem membership_invariant s s' h :
  tree_sync_ok s h -> rtc member_step s s' ->
  exists h', h <= h' /\ tree_sync_ok s' h'.
Proof.
  intros Hok Hsteps. revert h Hok. induction Hsteps as [s|s s1 s2 Hstep _ IH]; intros h Hok.
  - by exists h.
  - destruct (member_step_ok s s1 h Hok Hstep) as (h1 & Hle & Hok1).
    destruct (IH h1 Hok1) as (h2 & ? & ?). exists h2. split; [lia|done].
Qed.

(** [add_leaf] puts the new member into the leftmost blank leaf, marks it as
    unmerged in every non-blank node of its direct path and changes no other
    leaf and no other parent; it fails, with [TreeFull] and without a trace, only
    when the tree has its maximal size. *)
Theorem add_leaf_correct s h leaf :
  tree_sync_ok s h ->
  let i := free_leaf_index s in
  leaf_at s i = None /\ (forall j, 0 <= j < i -> is_Some (leaf_at s j)) /\
  match add_leaf leaf s with
  | (Ok i', s') => i' = i /\ num_members s' = num_members s + 1 /\ exists h', h <= h' /\ i < 2 ^ h' /\
      writes_path s s' h' i (Some leaf) (option_map (add_unmerged_leaf i))
  | (Err e, s') => e = TreeFull /\ s' = s /\ tsd_leaf_count s = 2 ^ 29
  | (Panic, _) => False
  end.
Proof.
  intros Hok i. destruct (free_leaf_index_spec s h (proj1 Hok)) as (Hi & Hnone & Hleft & _).
  split; [done|]. split; [done|]. pose proof (add_leaf_ok s h leaf Hok) as Ha. fold i in Ha, Hi.
  destruct (add_leaf leaf s) as [[i'|e|] s'] eqn:E; [| |done].
  - destruct Ha as (-> & Et & h' & Hle & Hok' & Hw). split; [done|].
    pose proof (mo_total _ _ (proj1 Hok')). split; [|exists h'; split_and!; [done|lia|done]].
    unfold add_leaf in E. run. destruct (grow_loop 32 _ _) as [[|?|] d]; simplify_eq. cbn. unfold usize_wrap.
    pose proof (mo_members _ _ (proj1 Hok)). pose proof (mo_total _ _ (proj1 Hok)). unfold total in *.
    destruct (dwf_height _ _ (mo_diff _ _ (proj1 Hok))). pose proof (pow2_le h 29). rewrite Z.mod_small; lia.
  - destruct Ha as (-> & -> & ->). split_and!; [done..|]. apply (AbDiff_leaf_count_spec _ 29), Hok.
Qed.

(** The tree never shrinks: removing a member blanks its leaf and its direct
    path, but [trim_tree] always leaves the size as it is, although the comment
    on [blank_leaf] promises that leaves are removed until the right-most leaf
    is non-blank. *)
Theorem blank_leaf_keeps_size s h i :
  tree_sync_ok s h -> 0 <= i -> is_Some (leaf_at s i) ->
  tsd_tree_size (blank_leaf i s) = tsd_tree_size s /\
  num_members (blank_leaf i s) = num_members s - 1 /\
  writes_path s (blank_leaf i s) h i None (fun _ => None).
Proof.
  intros Hok Hi Hs. destruct (blank_leaf_ok s h i Hok Hi Hs) as (Hok' & En & Hw). split; [|done].
  unfold tsd_tree_size. by rewrite (dwf_size _ _ (mo_diff _ _ (proj1 Hok'))), (dwf_size _ _ (mo_diff _ _ (proj1 Hok))).
Qed.

(** C35: cutting off the subtrees right of the rightmost occupied leaf does not
    change a resolution: for every node of the tree the pruned recursion returns
    the resolution of the protocol, which lists, for every member below the
    node, its leaf or a parent node whose private key it holds, and is empty
    only when there is no member below. *)
Theorem resolution_correct s h k m excluded :
  tree_sync_ok s h -> in_tree h k m ->
  resolution s (index_at k m) excluded (rightmost_full_leaf s) =
    resolution_ref s (Z.to_nat k) m excluded /\
  covers s k m (resolution s (index_at k m) [] (rightmost_full_leaf s)).
Proof.
  intros Hok Hin. rewrite !(resolution_spec s h) by done. split; [done|].
  pose proof (resolution_ref_covers s h (Z.to_nat k) m Hok) as Hc.
  rewrite Z2Nat.id in Hc by (destruct Hin; lia). by apply Hc.
Qed.

(** The filtered direct path of a leaf consists of the nodes of its direct
    path whose other child has a member below it, and the filtered copath has
    one node for each of them. *)
Theorem filtered_path_correct s h i :
  tree_sync_ok s h -> leaf_in h i ->
  (forall k, 0 < k <= h ->
     pnode k (i / 2 ^ k) ∈ filtered_direct_path s i <->
     exists j, 0 <= j /\ j / 2 ^ (k - 1) = flip (i / 2 ^ (k - 1)) /\ is_Some (leaf_at s j)) /\
  length (filtered_copath s i) = length (filtered_direct_path s i).
Proof.
  intros Hok Hi. split; [intros k Hk; by apply (filtered_direct_path_spec s h)|].
  pose proof (mo_diff _ _ (proj1 Hok)) as Hd. unfold filtered_copath, filtered_direct_path, AbDiff_copath.
  destruct (Z.eq_dec h 0) as [->|].
  - assert (copath_resolutions s i = []) as ->.
    { unfold copath_resolutions. by rewrite (AbDiff_leaf_count_spec (diff s) 0) by done. }
    unfold keep_resolved. by rewrite !zip_with_nil_r.
  - pose proof (proj1 (proj1 Hi)). apply length_keep_resolved. rewrite (dwf_size _ _ Hd), copath_spec by (done || lia).
    rewrite (members_direct_path s h), length_direct_path by done. by rewrite length_map, length_below_root.
Qed.

(** ** Witnesses *)

Definition sample_leaf (key : Z) : LeafNode := {|
  payload := {|
    leaf_encryption_key := [key]; leaf_signature_key := [key];
    leaf_credential := {| credential_type := CredBasic; serialized_credential_content := [key] |};
    leaf_capabilities := Capabilities_default;
    leaf_node_source := SourceUpdate;
    leaf_extensions := [] |};
  leaf_signature := [] |}.

(** A group of one member. *)
Definition single_tree (leaf : LeafNode) : ABinaryTree TreeSyncLeafNode TreeSyncParentNode :=
  {| leaf_nodes := [Some leaf]; parent_nodes := []; default_leaf := None; default_parent := None |}.

Definition single_member (leaf : LeafNode) : TreeSyncDiff :=
  {| diff := empty_diff (single_tree leaf); tree_hashes := [[]]; blanked_leaves := []; num_members := 1 |}.

Lemma single_tree_wf leaf : tree_wf (single_tree leaf) 0.
Proof. split; done. Qed.

Lemma single_member_ok leaf : tree_sync_ok (single_member leaf) 0.
Proof.
  split.
  - split; cbn [single_member diff blanked_leaves num_members].
    + by apply empty_diff_wf, single_tree_wf.
    + by apply empty_diff_fits, single_tree_wf.
    + split; [constructor|]. intros i Hi. by apply not_elem_of_nil in Hi.
    + lia.
    + vm_compute. split; [done|discriminate].
    + by left.
    + intros i Hi. change (total (single_member leaf)) with 1. unfold leaf_at. split.
      * intros Hs. split; [|apply not_elem_of_nil]. destruct (Z.lt_ge_cases i 1); [done|].
        pose proof (AbDiff_leaf_outside (empty_diff (single_tree leaf)) 0 i
          (empty_diff_wf _ _ (single_tree_wf leaf)) ltac:(simpl; lia)) as E.
        cbn [single_member diff] in Hs. rewrite E in Hs. by destruct Hs.
      * intros [? _]. assert (i = 0) as -> by lia. done.
  - intros k m p [Hk _] Hpos. lia.
Qed.

Definition sample_two : TreeSyncDiff := (add_leaf (sample_leaf 2) (single_member (sample_leaf 1))).2.
Definition sample_three : TreeSyncDiff := (add_leaf (sample_leaf 3) sample_two).2.

Lemma sample_steps : rtc member_step (single_member (sample_leaf 1)) sample_three.
Proof.
  eapply rtc_l; [eapply (member_add _ (sample_leaf 2) 1); vm_compute; reflexivity|].
  eapply rtc_once. eapply (member_add _ (sample_leaf 3) 2). vm_compute. reflexivity.
Qed.

Lemma sample_three_ok : tree_sync_ok sample_three 2.
Proof.
  pose proof sample_steps as Hs.
  assert (exists h, tree_sync_ok sample_three h) as [h Hok].
  { generalize (single_member_ok (sample_leaf 1)). generalize 0. induction Hs; [by eauto|].
    intros h Hok. destruct (member_step_ok _ _ _ Hok H) as (h' & _ & ?). eauto. }
  pose proof (dwf_size _ _ (mo_diff _ _ (proj1 Hok))) as E.
  replace (diff_size (diff sample_three)) with 7 in E by (vm_compute; reflexivity).
  unfold tree_size in E. destruct (dwf_height _ _ (mo_diff _ _ (proj1 Hok))).
  assert (h = 2) as <-; [|done]. assert (2 ^ (h + 1) = 2 ^ 3) as Ep by lia. apply Z.pow_inj_r in Ep; lia.
Qed.

Lemma membership_invariant_witness : exists h, 0 <= h /\ tree_sync_ok sample_three h.
Proof. exact (membership_invariant _ _ 0 (single_member_ok (sample_leaf 1)) sample_steps). Defined.

Lemma add_leaf_correct_witness :
  free_leaf_index sample_three = 3 /\ leaf_at sample_three (free_leaf_index sample_three) = None.
Proof.
  split; [vm_compute; reflexivity|].
  exact (proj1 (add_leaf_correct sample_three 2 (sample_leaf 4) sample_three_ok)).
Defined.

Lemma blank_leaf_keeps_size_witness : tsd_tree_size (blank_leaf 2 sample_three) = 7.
Proof.
  destruct (blank_leaf_keeps_size sample_three 2 2 sample_three_ok) as [-> _];
    [lia|vm_compute; eauto|]. vm_compute. reflexivity.
Defined.

Lemma resolution_correct_witness :
  map fst (resolution sample_three (Parent 1) [] (rightmost_full_leaf sample_three)) = [Leaf 0; Leaf 1; Leaf 2].
Proof.
  change (Parent 1) with (index_at 2 0).
  destruct (resolution_correct sample_three 2 2 0 [] sample_three_ok) as [-> _]; [split; lia|].
  vm_compute. reflexivity.
Defined.

Lemma filtered_path_correct_witness :
  length (filtered_copath sample_three 2) = length (filtered_direct_path sample_three 2).
Proof.
  destruct (filtered_path_correct sample_three 2 2 sample_three_ok) as [_ E];
    [split; [split; lia|lia]|exact E].
Defined.
