(* ===== verification/TreeHash.v ===== *)
(** * Tree hashes

    Models the part of [treesync/diff.rs] that maintains the cached tree hashes:
    [compute_tree_hash], [populate_tree_hashes] and the incremental
    [update_tree_hashes] of the authors.

    The cache is a vector indexed like the nodes of the tree; an empty entry is
    a node that was never hashed.  The main theorem says that the incremental
    update leaves the recursive tree hash of every node in the cache. *)

From S2P Require Import Prelude Crypto TreeMath SortedIter BinaryTree LeafNodes Nodes TreeSyncDiff.

Definition set_hashes (hashes : list bytes) (s : TreeSyncDiff) : TreeSyncDiff :=
  {| diff := diff s; tree_hashes := hashes; blanked_leaves := blanked_leaves s;
     num_members := num_members s |}.

(** [self.tree_hashes[i]] panics out of bounds. *)
Definition read_hash (node_index : TreeNodeIndex) : method TreeSyncDiff LibraryError bytes :=
  self ← get;
  match tree_hashes self !! Z.to_nat (TreeNodeIndex_u32 node_index) with
  | Some hash => mret hash
  | None => lift Panic
  end.

Definition write_hash (node_index : TreeNodeIndex) (hash : bytes) : method TreeSyncDiff LibraryError () :=
  self ← get;
  let i := Z.to_nat (TreeNodeIndex_u32 node_index) in
  if decide (i < length (tree_hashes self))%nat
  then modify (fun s => set_hashes (<[i := hash]> (tree_hashes s)) s)
  else lift Panic.

Definition tree_hash (node_index : TreeNodeIndex) : method TreeSyncDiff LibraryError bytes :=
  read_hash node_index.

Section TreeHash.
Context `{!TreeHashing}.

(** The recursion descends one level per call; 32 calls suffice. *)
Fixpoint compute_tree_hash_rec (fuel : nat) (c : Ciphersuite) (s : TreeSyncDiff) (node_index : TreeNodeIndex)
    (exclusion_list : list LeafNodeIndex) : outcome LibraryError bytes :=
  match fuel with
  | O => Panic
  | S fuel =>
    match node_index with
    | Leaf leaf_index =>
      let leaf := AbDiff_leaf (diff s) leaf_index in
      if mem leaf_index exclusion_list
      then Leaf_compute_tree_hash c blank leaf_index
      else Leaf_compute_tree_hash c leaf leaf_index
    | Parent parent_index =>
      left_hash ← compute_tree_hash_rec fuel c s (left parent_index) exclusion_list;
      right_hash ← compute_tree_hash_rec fuel c s (right parent_index) exclusion_list;
      Parent_compute_tree_hash c (AbDiff_parent (diff s) parent_index) left_hash right_hash exclusion_list
    end
  end.

Definition compute_tree_hash (c : Ciphersuite) (s : TreeSyncDiff) (node_index : TreeNodeIndex)
    (exclusion_list : list LeafNodeIndex) : outcome LibraryError bytes :=
  compute_tree_hash_rec 32 c s node_index exclusion_list.

Fixpoint populate_tree_hashes_rec (fuel : nat) (c : Ciphersuite) (node_index : TreeNodeIndex)
    (exclusion_list : list LeafNodeIndex) : method TreeSyncDiff LibraryError bytes :=
  match fuel with
  | O => lift Panic
  | S fuel =>
    match node_index with
    | Leaf leaf_index =>
      self ← get;
      let leaf := AbDiff_leaf (diff self) leaf_index in
      result ← lift (if mem leaf_index exclusion_list
                     then Leaf_compute_tree_hash c blank leaf_index
                     else Leaf_compute_tree_hash c leaf leaf_index);
      write_hash (Leaf leaf_index) result;;
      mret result
    | Parent parent_index =>
      left_hash ← populate_tree_hashes_rec fuel c (left parent_index) exclusion_list;
      right_hash ← populate_tree_hashes_rec fuel c (right parent_index) exclusion_list;
      self ← get;
      result ← lift (Parent_compute_tree_hash c (AbDiff_parent (diff self) parent_index)
                       left_hash right_hash exclusion_list);
      write_hash (Parent parent_index) result;;
      mret result
    end
  end.

Definition populate_tree_hashes (c : Ciphersuite) (node_index : TreeNodeIndex)
    (exclusion_list : list LeafNodeIndex) : method TreeSyncDiff LibraryError bytes :=
  populate_tree_hashes_rec 32 c node_index exclusion_list.

(** The leaf positions whose entry is empty, unless they are modified anyway. *)
Definition unhashed_leaves (hashes : list bytes) (modified : list (LeafNodeIndex * TreeSyncLeafNode)) :
    list (LeafNodeIndex * TreeSyncLeafNode) :=
  foldl (fun modified i =>
      match hashes !! Z.to_nat (2 * i)%Z with
      | Some [] =>
        if existsb (fun '(idx, _) => idx =? i) modified then modified else modified ++ [(i, blank)]
      | _ => modified
      end)
    modified (seqZ 0 ((Z.of_nat (length hashes) + 1) / 2)).

(** The first loop: hash the modified leaves and queue their parents. *)
Fixpoint hash_leaves (c : Ciphersuite) (modified : list (LeafNodeIndex * TreeSyncLeafNode)) :
    method TreeSyncDiff LibraryError (list ParentNodeIndex) :=
  match modified with
  | [] => mret []
  | (index, leaf) :: modified =>
    hash ← lift (Leaf_compute_tree_hash c leaf index);
    write_hash (Leaf index) hash;;
    self ← get;
    node_queue ← hash_leaves c modified;
    mret (if bool_decide (Leaf index = root (diff_size (diff self))) then node_queue
          else parent (Leaf index) :: node_queue)
  end.

(** The second loop: pop a parent, hash it, queue its own parent. *)
Fixpoint process_queue (fuel : nat) (c : Ciphersuite) (node_queue : list ParentNodeIndex) :
    method TreeSyncDiff LibraryError () :=
  match node_queue with
  | [] => mret tt
  | parent_index :: node_queue =>
    match fuel with
    | O => lift Panic
    | S fuel =>
      self ← get;
      left_hash ← read_hash (left parent_index);
      right_hash ← read_hash (right parent_index);
      hash ← lift (Parent_compute_tree_hash c (AbDiff_parent (diff self) parent_index)
                     left_hash right_hash []);
      write_hash (Parent parent_index) hash;;
      process_queue fuel c
        (if bool_decide (Parent parent_index = root (diff_size (diff self))) then node_queue
         else node_queue ++ [parent (Parent parent_index)])
    end
  end.

(** Each queued node climbs at most 29 levels, so 32 rounds per leaf suffice. *)
Definition update_tree_hashes (c : Ciphersuite) (modified_leaves : list (LeafNodeIndex * TreeSyncLeafNode)) :
    method TreeSyncDiff LibraryError bytes :=
  self ← get;
  let num_leaves := Z.max (tsd_leaf_count self) MIN_TREE_SIZE in
  modify (fun s => set_hashes (resize (Z.to_nat (num_leaves * 2 - 1)) [] (tree_hashes s)) s);;
  self ← get;
  let modified_leaves := unhashed_leaves (tree_hashes self) modified_leaves in
  node_queue ← hash_leaves c modified_leaves;
  process_queue (32 * length modified_leaves) c node_queue;;
  self ← get;
  read_hash (root (diff_size (diff self))).

(** [into_staged_diff] reads the root's hash. *)
Definition root_hash (s : TreeSyncDiff) : outcome LibraryError bytes := (read_hash (root (diff_size (diff s))) s).1.

(** ** Specification *)

Definition digest (o : outcome LibraryError bytes) : bytes := match o with Ok x => x | _ => [] end.

(** The tree hash of the node at level [k], position [m] of a tree with the given
    leaves and parents. *)
Fixpoint hash_of (c : Ciphersuite) (leaves : Z -> option LeafNode) (parents : Z -> Z -> option ParentNode)
    (k : nat) (m : Z) : bytes :=
  match k with
  | O => digest (Leaf_compute_tree_hash c (leaves m) m)
  | S k' => digest (Parent_compute_tree_hash c (parents (Z.of_nat k) m)
              (hash_of c leaves parents k' (2 * m)) (hash_of c leaves parents k' (2 * m + 1)) [])
  end.

(** The entry of the cache for a node. *)
Definition hash_at (s : TreeSyncDiff) (k m : Z) : option bytes := tree_hashes s !! Z.to_nat (node k m).

(** The cache is right at the nodes of [P]. *)
Definition right_at (c : Ciphersuite) (leaves : Z -> option LeafNode) (h : Z) (P : Z -> Z -> Prop)
    (s : TreeSyncDiff) : Prop :=
  forall k m, in_tree h k m -> P k m ->
    hash_at s k m = Some (hash_of c leaves (parent_at s) (Z.to_nat k) m).

(** A diff of height [h] with a cache of the right size. *)
Definition hashes_fit (s : TreeSyncDiff) (h : Z) : Prop :=
  height h /\ diff_size (diff s) = tree_size h /\ Z.of_nat (length (tree_hashes s)) = tree_size h.

(** [s'] differs from [s] in the cache only. *)
Definition hashes_only (s s' : TreeSyncDiff) : Prop := s' = set_hashes (tree_hashes s') s.

#[local] Instance hashes_only_preorder : PreOrder hashes_only.
Proof.
  split; [by intros []|]. intros s1 s2 s3 E1 E2. unfold hashes_only in *. rewrite E2, E1. done.
Qed.

(** ** Lemmas *)

Context `{!HashLaws}.

Lemma node_in_tree h k m : in_tree h k m -> 0 <= node k m < tree_size h.
Proof.
  intros [Hk Hm]. unfold node, tree_size. pose proof (pow2_pos k). rewrite (pow2_succ k), (pow2_succ h) by lia.
  assert (2 ^ h = 2 ^ k * 2 ^ (h - k)) by (rewrite <- Z.pow_add_r by lia; f_equal; lia). nia.
Qed.

Lemma digest_leaf c leaf i : Leaf_compute_tree_hash c leaf i = Ok (digest (Leaf_compute_tree_hash c leaf i)).
Proof. by destruct (Leaf_compute_tree_hash_ok c leaf i) as (d & -> & _). Qed.

Lemma digest_parent c node l r ex :
  Parent_compute_tree_hash c node l r ex = Ok (digest (Parent_compute_tree_hash c node l r ex)).
Proof. by destruct (Parent_compute_tree_hash_ok c node l r ex) as (d & -> & _). Qed.

Lemma hash_of_nonempty c leaves parents k m : hash_of c leaves parents k m <> [].
Proof.
  destruct k as [|k]; cbn [hash_of].
  - by destruct (Leaf_compute_tree_hash_ok c (leaves m) m) as (d & -> & ?).
  - by destruct (Parent_compute_tree_hash_ok c (parents (Z.of_nat (S k)) m)
      (hash_of c leaves parents k (2 * m)) (hash_of c leaves parents k (2 * m + 1)) []) as (d & -> & ?).
Qed.

(** The recursive computation is the specification. *)
Lemma compute_tree_hash_spec c s h fuel k m : height h -> in_tree h (Z.of_nat k) m -> (k < fuel)%nat ->
  compute_tree_hash_rec fuel c s (index_at (Z.of_nat k) m) [] = Ok (hash_of c (leaf_at s) (parent_at s) k m).
Proof.
  intros Hh. revert fuel m. induction k as [|k IH]; intros [|fuel] m Hin Hf; try lia.
  - cbn [hash_of]. rewrite <- digest_leaf. done.
  - pose proof (in_tree_coord _ _ _ Hh Hin) as Hc. rewrite <- index_at_parent by lia.
    cbn [compute_tree_hash_rec]. rewrite left_pnode, right_pnode by (done || lia).
    pose proof (in_tree_child h (Z.of_nat (S k)) m 0 ltac:(lia) Hin ltac:(lia)) as H0'.
    pose proof (in_tree_child h (Z.of_nat (S k)) m 1 ltac:(lia) Hin ltac:(lia)) as H1'.
    replace (Z.of_nat (S k) - 1) with (Z.of_nat k) in * by lia. rewrite Z.add_0_r in H0'.
    rewrite (IH fuel _ H0'), (IH fuel _ H1') by lia. cbn [mbind outcome_bind hash_of].
    rewrite <- digest_parent. done.
Qed.

Lemma read_hash_spec s h k m : hashes_fit s h -> in_tree h k m ->
  read_hash (index_at k m) s = (Ok (default [] (hash_at s k m)), s).
Proof.
  intros (Hh & _ & Hlen) Hin. unfold read_hash, hash_at. run.
  rewrite (TreeNodeIndex_u32_index_at _ _ (in_tree_coord _ _ _ Hh Hin)).
  pose proof (node_in_tree h k m Hin). destruct (lookup_lt_is_Some_2 (tree_hashes s) (Z.to_nat (node k m))) as [x ->];
    [lia|done].
Qed.

Lemma write_hash_spec s h k m x : hashes_fit s h -> in_tree h k m ->
  let s' := set_hashes (<[Z.to_nat (node k m) := x]> (tree_hashes s)) s in
  write_hash (index_at k m) x s = (Ok tt, s') /\ hashes_fit s' h /\
  (forall k' m', in_tree h k' m' -> hash_at s' k' m' = if decide ((k', m') = (k, m)) then Some x else hash_at s k' m').
Proof.
  intros (Hh & Hs & Hlen) Hin s'. pose proof (node_in_tree h k m Hin).
  pose proof (in_tree_coord _ _ _ Hh Hin) as Hc. split_and!.
  - unfold write_hash. run. rewrite (TreeNodeIndex_u32_index_at _ _ Hc). by rewrite decide_True by lia.
  - split_and!; [done..|]. cbn. by rewrite length_insert.
  - intros k' m' Hin'. unfold hash_at, s'. cbn [tree_hashes set_hashes]. pose proof (node_in_tree h k' m' Hin').
    case_decide as E.
    + simplify_eq. by rewrite list_lookup_insert_eq by lia.
    + rewrite list_lookup_insert_ne; [done|]. intros En. apply E.
      destruct (node_inj k m k' m' Hc (in_tree_coord _ _ _ Hh Hin')) as [-> ->]; [lia|done].
Qed.

Lemma right_at_write c leaves h P s k m : hashes_fit s h -> in_tree h k m -> right_at c leaves h P s ->
  right_at c leaves h (fun k' m' => P k' m' \/ (k', m') = (k, m))
    (set_hashes (<[Z.to_nat (node k m) := hash_of c leaves (parent_at s) (Z.to_nat k) m]> (tree_hashes s)) s).
Proof.
  intros Hf Hin Hr k' m' Hin' HP.
  destruct (write_hash_spec s h k m (hash_of c leaves (parent_at s) (Z.to_nat k) m) Hf Hin) as (_ & _ & Hat).
  rewrite Hat by done. case_decide as E; [by simplify_eq|]. destruct HP as [HP|HP]; [|done]. by apply Hr.
Qed.

Lemma right_at_weaken c leaves h (P Q : Z -> Z -> Prop) s :
  (forall k m, in_tree h k m -> Q k m -> P k m) -> right_at c leaves h P s -> right_at c leaves h Q s.
Proof. intros HQ Hr k m Hin Hq. apply Hr; [done|]. by apply HQ. Qed.

Lemma is_root h k m : height h -> in_tree h k m ->
  bool_decide (index_at k m = root (tree_size h)) = (k =? h).
Proof.
  intros Hh Hin. rewrite root_tree_size by done. pose proof (in_tree_coord _ _ _ Hh Hin) as Hc.
  destruct (Z.eqb_spec k h) as [->|Hne].
  - destruct Hin as [_ Hm]. rewrite Z.sub_diag in Hm. assert (m = 0) as -> by lia. by apply bool_decide_true.
  - apply bool_decide_false. intros E. apply index_at_inj in E as [? _]; [done|done|by apply coord_root].
Qed.

(** One round of the queue, when the children's hashes are right. *)
Lemma process_one c leaves h P s fuel k m q : hashes_fit s h -> in_tree h k m -> 0 < k ->
  right_at c leaves h P s -> P (k - 1) (2 * m) -> P (k - 1) (2 * m + 1) ->
  exists s', process_queue (S fuel) c (pnode k m :: q) s =
      process_queue fuel c (if k =? h then q else q ++ [pnode (k + 1) (m / 2)]) s' /\
    hashes_fit s' h /\ hashes_only s s' /\
    right_at c leaves h (fun k' m' => P k' m' \/ (k', m') = (k, m)) s'.
Proof.
  intros Hf Hin Hk Hr HP0 HP1. pose proof Hf as (Hh & Hsz & _).
  pose proof (in_tree_coord _ _ _ Hh Hin) as Hc.
  pose proof (in_tree_child h k m 0 Hk Hin ltac:(lia)) as H0'. rewrite Z.add_0_r in H0'.
  pose proof (in_tree_child h k m 1 Hk Hin ltac:(lia)) as H1'.
  eexists. split; [|split; [|split; [|by apply right_at_write]]].
  - cbn [process_queue]. run. rewrite left_pnode, right_pnode by (done || lia).
    rewrite (read_hash_spec s h _ _ Hf H0'), (read_hash_spec s h _ _ Hf H1').
    rewrite (Hr _ _ H0' HP0), (Hr _ _ H1' HP1). cbn [default from_option]. unfold id. rewrite digest_parent.
    rewrite index_at_parent by done.
    assert (E : digest (Parent_compute_tree_hash c (AbDiff_parent (diff s) (pnode k m))
        (hash_of c leaves (parent_at s) (Z.to_nat (k - 1)) (2 * m))
        (hash_of c leaves (parent_at s) (Z.to_nat (k - 1)) (2 * m + 1)) []) =
      hash_of c leaves (parent_at s) (Z.to_nat k) m).
    { replace (Z.to_nat k) with (S (Z.to_nat (k - 1))) by lia. cbn [hash_of].
      replace (Z.of_nat (S (Z.to_nat (k - 1)))) with k by lia. done. }
    rewrite E. destruct (write_hash_spec s h k m (hash_of c leaves (parent_at s) (Z.to_nat k) m) Hf Hin) as (-> & _ & _).
    rewrite Hsz, is_root by done. destruct (Z.eqb_spec k h); [done|]. rewrite parent_index_at; [done|done|].
    destruct Hin, Hh. lia.
  - by apply write_hash_spec.
  - done.
Qed.

(** A pass over one level: the nodes above [dirty2] are still queued at level [k],
    those above [dirty1] have been hashed and queued at level [k + 1]. *)
Definition level_done (dirty dirty1 : list Z) (k k' m' : Z) : Prop :=
  k' < k \/ (forall i, i ∈ dirty -> i / 2 ^ k' <> m') \/ (k' = k /\ exists i, i ∈ dirty1 /\ i / 2 ^ k = m').

Lemma process_level c leaves h dirty k dirty2 : 0 < k <= h -> (forall i, i ∈ dirty -> leaf_in h i) ->
  forall dirty1 s fuel, dirty2 ⊆ dirty -> hashes_fit s h ->
  right_at c leaves h (level_done dirty dirty1 k) s ->
  let at_level k i := pnode k (i / 2 ^ k) in
  exists s', process_queue (length dirty2 + fuel) c
      (map (at_level k) dirty2 ++ if k =? h then [] else map (at_level (k + 1)) dirty1) s =
    process_queue fuel c (if k =? h then [] else map (at_level (k + 1)) (dirty1 ++ dirty2)) s' /\
    hashes_fit s' h /\ hashes_only s s' /\
    right_at c leaves h (level_done dirty (dirty1 ++ dirty2) k) s'.
Proof.
  intros Hk Hd. cbv zeta. induction dirty2 as [|i dirty2 IH]; intros dirty1 s fuel Hsub Hf Hr.
  - exists s. rewrite app_nil_r. done.
  - assert (i ∈ dirty) as Hi by (apply Hsub; by left). pose proof (Hd i Hi) as Hin.
    pose proof (in_tree_path h i k Hin ltac:(lia)) as Hit.
    assert (Hchild : forall b, 0 <= b <= 1 -> level_done dirty dirty1 k (k - 1) (2 * (i / 2 ^ k) + b)).
    { intros b Hb. left. lia. }
    cbn [length map app Nat.add].
    destruct (process_one c leaves h _ s (length dirty2 + fuel) k (i / 2 ^ k)
      (map (fun i => pnode k (i / 2 ^ k)) dirty2 ++ if k =? h then [] else map (fun i => pnode (k + 1) (i / 2 ^ (k + 1))) dirty1)
      Hf Hit ltac:(lia) Hr) as (s1 & -> & Hf1 & Ed1 & Hr1).
    { pose proof (Hchild 0). rewrite Z.add_0_r in *. auto with lia. }
    { apply Hchild. lia. }
    destruct (IH (dirty1 ++ [i]) s1 fuel) as (s2 & E2 & Hf2 & Ed2 & Hr2).
    { intros x Hx. apply Hsub. by right. }
    { done. }
    { eapply right_at_weaken; [|exact Hr1]. intros k' m' _ [?|[?|(-> & j & Hj & Ej)]].
      - left. by left.
      - left. right. by left.
      - apply elem_of_app in Hj as [Hj|Hj]; [left; right; right; eauto|].
        apply list_elem_of_singleton in Hj as ->. right. congruence. }
    exists s2. rewrite <- app_assoc in E2, Hr2. cbn [app] in E2, Hr2. split_and!; [|done|by transitivity s1|done].
    rewrite <- E2. destruct (k =? h); [done|]. rewrite map_app, <- app_assoc. cbn [map].
    by rewrite path_step by lia.
Qed.

Lemma level_done_next dirty k k' m' : level_done dirty [] (k + 1) k' m' -> level_done dirty dirty k k' m'.
Proof.
  intros [Hk|[Hd|(_ & i & Hi & _)]]; [|by right; left|by apply not_elem_of_nil in Hi].
  destruct (Z.lt_ge_cases k' k); [by left|]. assert (k' = k) as -> by lia.
  destruct (decide (m' ∈ map (fun i => i / 2 ^ k) dirty)) as [Hin|Hin].
  - apply list_elem_of_fmap in Hin as (i & -> & Hi). right. right. eauto.
  - right. left. intros i Hi E. apply Hin. rewrite <- E. by apply (list_elem_of_fmap_2 (fun i => i / 2 ^ k)).
Qed.

(** All levels from [k] up to the root, [n] more above it. *)
Lemma process_levels c leaves h dirty n : (forall i, i ∈ dirty -> leaf_in h i) ->
  forall k s fuel, 0 < k <= h -> h = k + Z.of_nat n -> hashes_fit s h ->
  right_at c leaves h (level_done dirty [] k) s -> (length dirty * S n <= fuel)%nat ->
  exists s', process_queue fuel c (map (fun i => pnode k (i / 2 ^ k)) dirty) s = (Ok tt, s') /\
    hashes_fit s' h /\ hashes_only s s' /\ right_at c leaves h (fun _ _ => True) s'.
Proof.
  intros Hd. induction n as [|n IH]; intros k s fuel Hk Hn Hf Hr Hfuel.
  all: replace fuel with (length dirty + (fuel - length dirty))%nat by lia.
  all: destruct (process_level c leaves h dirty k dirty Hk Hd [] s (fuel - length dirty) ltac:(done) Hf Hr)
    as (s1 & E1 & Hf1 & Ho1 & Hr1); cbn [map app] in E1, Hr1.
  all: assert (Hr2 : right_at c leaves h (level_done dirty [] (k + 1)) s1)
    by (eapply right_at_weaken; [|exact Hr1]; intros k' m' _; apply level_done_next).
  - assert ((k =? h) = true) as Ek by lia. rewrite Ek in E1. rewrite app_nil_r in E1. exists s1. rewrite E1.
    split; [by destruct (fuel - length dirty)%nat|]. split_and!; [done..|].
    eapply right_at_weaken; [|exact Hr2]. intros k' m' [Hk' _] _. left. lia.
  - assert ((k =? h) = false) as Ek by lia. rewrite Ek, app_nil_r in E1. rewrite E1.
    destruct (IH (k + 1) s1 (fuel - length dirty)%nat) as (s2 & -> & Hf2 & Ho2 & Hr3); [lia|lia|done|done|lia|].
    exists s2. split_and!; [done|done|by transitivity s1|done].
Qed.

(** The first loop writes the hashes of the modified leaves. *)
Lemma hash_leaves_spec c leaves h modified : forall P s, hashes_fit s h ->
  (forall i l, (i, l) ∈ modified -> leaf_in h i /\ leaves i = l) -> right_at c leaves h P s ->
  exists s', hash_leaves c modified s =
      (Ok (if h =? 0 then [] else map (fun i => pnode 1 (i / 2 ^ 1)) modified.*1), s') /\
    hashes_fit s' h /\ hashes_only s s' /\
    right_at c leaves h (fun k m => P k m \/ (k = 0 /\ m ∈ modified.*1)) s'.
Proof.
  induction modified as [|[i l] modified IH]; intros P s Hf Hm Hr.
  - exists s. split_and!; [by destruct (h =? 0)|done|done|]. eapply right_at_weaken; [|exact Hr].
    intros k m _ [?|[_ Hn]]; [done|]. by apply not_elem_of_nil in Hn.
  - pose proof (Hm i l ltac:(by left)) as [Hi El]. pose proof Hf as (Hh & Hsz & _).
    pose proof (in_tree_path h i 0 Hi ltac:(destruct Hh; lia)) as Hin. rewrite Z.div_1_r in Hin.
    cbn [hash_leaves]. run. rewrite digest_leaf. change (Leaf i) with (index_at 0 i).
    destruct (write_hash_spec s h 0 i (digest (Leaf_compute_tree_hash c l i)) Hf Hin) as (-> & Hf1 & _).
    set (s1 := set_hashes _ s) in *.
    assert (Hr1 : right_at c leaves h (fun k m => P k m \/ (k, m) = (0, i)) s1).
    { pose proof (right_at_write c leaves h P s 0 i Hf Hin Hr) as Hw. unfold s1. rewrite <- El. exact Hw. }
    destruct (IH _ s1 Hf1 (fun i l Hil => Hm i l ltac:(by right)) Hr1) as (s2 & E2 & Hf2 & Ho2 & Hr2).
    rewrite E2. exists s2. split_and!; [|done|by transitivity s1|].
    + change (diff s1) with (diff s). rewrite Hsz, is_root by done. rewrite Z.eqb_sym.
      destruct (Z.eqb_spec h 0); [done|]. cbn [fmap list_fmap map fst]. rewrite parent_index_at.
      * done.
      * exact (in_tree_coord _ _ _ Hh Hin).
      * lia.
    + eapply right_at_weaken; [|exact Hr2]. intros k m _ [?|[-> Hm']]; [by left; left|].
      apply elem_of_cons in Hm' as [->|?]; [left; by right|by right].
Qed.

(** The positions of the unhashed leaves are added, with a blank leaf. *)
Lemma foldl_unhashed (hashes : list bytes) positions :
  forall (modified : list (LeafNodeIndex * TreeSyncLeafNode)) (i : Z) (l : TreeSyncLeafNode),
  (i, l) ∈ foldl (fun (modified : list (LeafNodeIndex * TreeSyncLeafNode)) (i : Z) =>
      match hashes !! Z.to_nat (2 * i)%Z with
      | Some [] => if existsb (fun '(idx, _) => idx =? i) modified then modified else modified ++ [(i, blank)]
      | _ => modified
      end) modified positions <->
  (i, l) ∈ modified \/
  (l = blank /\ i ∉ (modified.*1) /\ i ∈ positions /\ hashes !! Z.to_nat (2 * i) = Some []).
Proof.
  induction positions as [|p positions IH]; intros modified i l; cbn [foldl].
  { split; [by left|]. intros [?|(_ & _ & Hn & _)]; [done|]. by apply not_elem_of_nil in Hn. }
  rewrite IH, elem_of_cons. clear IH.
  destruct (hashes !! Z.to_nat (2 * p)) as [[|x y]|] eqn:E.
  2, 3: split; [naive_solver|]; intros [?|(? & ? & [->|?] & ?)]; [by left|congruence|naive_solver].
  destruct (existsb (fun '(idx, _) => idx =? p) modified) eqn:Ex.
  - apply existsb_exists in Ex as ([i' l'] & Hin & Heq). apply Z.eqb_eq in Heq as ->.
    apply list_elem_of_In in Hin. apply (list_elem_of_fmap_2 fst) in Hin. cbn in Hin.
    split; [naive_solver|]. intros [?|(? & ? & [->|?] & ?)]; naive_solver.
  - assert (Hp : p ∉ (modified.*1)).
    { intros Hp. apply list_elem_of_fmap in Hp as ([i' l'] & Ei & Hin). cbn in Ei. subst i'.
      apply not_true_iff_false in Ex. apply Ex. apply existsb_exists. exists (p, l').
      split; [by apply list_elem_of_In|apply Z.eqb_refl]. }
    rewrite fmap_app, !elem_of_app. cbn [fmap list_fmap fst]. rewrite !list_elem_of_singleton. split.
    + intros [[?|[= -> ->]]|(? & ? & ? & ?)]; naive_solver.
    + intros [?|(-> & ? & [->|?] & ?)]; [by left; left|left; by right|].
      destruct (decide (i = p)) as [->|]; naive_solver.
Qed.

Lemma unhashed_leaves_spec hashes modified i l : (i, l) ∈ unhashed_leaves hashes modified <->
  (i, l) ∈ modified \/
  (l = blank /\ i ∉ (modified.*1) /\ 0 <= i < (Z.of_nat (length hashes) + 1) / 2 /\
   hashes !! Z.to_nat (2 * i) = Some []).
Proof. unfold unhashed_leaves. rewrite foldl_unhashed, elem_of_seqZ. done. Qed.

(** The tree hash of a node depends on the subtree below it only. *)
Lemma hash_of_ext c h leaves leaves' parents parents' k m : in_tree h (Z.of_nat k) m ->
  (forall i, 0 <= i -> i / 2 ^ Z.of_nat k = m -> leaves i = leaves' i) ->
  (forall j n, 0 < j <= Z.of_nat k -> in_tree h j n -> n / 2 ^ (Z.of_nat k - j) = m -> parents j n = parents' j n) ->
  hash_of c leaves parents k m = hash_of c leaves' parents' k m.
Proof.
  revert m. induction k as [|k IH]; intros m Hm Hl Hp; cbn [hash_of].
  - rewrite (Hl m); [done|apply Hm|]. by rewrite Z.div_1_r.
  - assert (Hchild : forall b, 0 <= b <= 1 -> hash_of c leaves parents k (2 * m + b) = hash_of c leaves' parents' k (2 * m + b)).
    { intros b Hb. assert (Hdiv : (2 * m + b) / 2 = m) by (symmetry; apply (Z.div_unique _ _ _ b); lia).
      apply IH.
      - pose proof (in_tree_child h (Z.of_nat (S k)) m b ltac:(lia) Hm Hb) as Hc.
        by replace (Z.of_nat (S k) - 1) with (Z.of_nat k) in Hc by lia.
      - intros i Hi E. apply Hl; [done|]. rewrite Nat2Z.inj_succ, <- Z.add_1_r, <- path_step by lia. by rewrite E.
      - intros j n Hj Hn E. apply Hp; [lia|done|].
        replace (Z.of_nat (S k) - j) with (Z.of_nat k - j + 1) by lia. rewrite <- path_step by lia. by rewrite E. }
    pose proof (Hchild 0 ltac:(lia)) as E0. rewrite Z.add_0_r in E0. rewrite E0, Hchild by lia.
    rewrite (Hp (Z.of_nat (S k)) m); [done|lia|done|]. by rewrite Z.sub_diag, Z.div_1_r.
Qed.

(** ** The incremental update *)

Definition unhashed (s : TreeSyncDiff) (i : Z) : Prop := default [] (hash_at s 0 i) = [].

(** The leaves with the modified ones replaced. *)
Definition patched (s : TreeSyncDiff) (modified : list (LeafNodeIndex * TreeSyncLeafNode)) (i : Z) : option LeafNode :=
  default (leaf_at s i) ((list_to_map modified : gmap Z TreeSyncLeafNode) !! i).

(** What [update_tree_hashes] relies on: the entries of the nodes without a
    modified or unhashed leaf below are right, and unhashed leaves are blank. *)
Record cache_for (c : Ciphersuite) (s : TreeSyncDiff) (h : Z)
    (modified : list (LeafNodeIndex * TreeSyncLeafNode)) : Prop := {
  cf_height : height h;
  cf_diff : diff_size (diff s) = tree_size h;
  cf_length : Z.of_nat (length (tree_hashes s)) <= tree_size h;
  cf_modified i l : (i, l) ∈ modified -> leaf_in h i;
  cf_unique : NoDup modified.*1;
  cf_blank i : leaf_in h i -> i ∉ (modified.*1) -> unhashed s i -> leaf_at s i = None;
  cf_clean k m : in_tree h k m ->
    (forall i, leaf_in h i -> i / 2 ^ k = m -> i ∉ (modified.*1) /\ ~ unhashed s i) ->
    hash_at s k m = Some (hash_of c (leaf_at s) (parent_at s) (Z.to_nat k) m)
}.

Lemma patched_in s modified i l : NoDup modified.*1 -> (i, l) ∈ modified -> patched s modified i = l.
Proof. intros Hn Hi. unfold patched. by rewrite (elem_of_list_to_map_1 _ _ _ Hn Hi). Qed.

Lemma patched_out s modified i : i ∉ (modified.*1) -> patched s modified i = leaf_at s i.
Proof. intros Hi. unfold patched. by rewrite not_elem_of_list_to_map_1. Qed.

(** Growing the cache leaves its entries as they are. *)
Lemma hash_at_resize s h k m : Z.of_nat (length (tree_hashes s)) <= tree_size h -> in_tree h k m ->
  hash_at (set_hashes (resize (Z.to_nat (tree_size h)) [] (tree_hashes s)) s) k m = Some (default [] (hash_at s k m)).
Proof.
  intros Hlen Hin. pose proof (node_in_tree h k m Hin). unfold hash_at. cbn [tree_hashes set_hashes].
  destruct (tree_hashes s !! Z.to_nat (node k m)) as [x|] eqn:E.
  - rewrite lookup_resize by (pose proof (lookup_lt_Some _ _ _ E); lia). by rewrite E.
  - rewrite lookup_resize_new; [done| |lia]. by apply lookup_ge_None_1.
Qed.

(** The leaves that are hashed again: the modified and the unhashed ones. *)
Lemma hashed_again c s s0 h modified : cache_for c s h modified -> hashes_fit s0 h ->
  (forall k m, in_tree h k m -> hash_at s0 k m = Some (default [] (hash_at s k m))) ->
  let modified' := unhashed_leaves (tree_hashes s0) modified in
  (forall i l, (i, l) ∈ modified' -> leaf_in h i /\ patched s modified i = l) /\
  (forall i, leaf_in h i -> i ∉ (modified'.*1) -> i ∉ (modified.*1) /\ ~ unhashed s i).
Proof.
  intros [Hh Hsz Hlen Hmod Hnd Hblank Hclean] (_ & _ & Hlen0) Hat. cbv zeta.
  assert (Hcount : (Z.of_nat (length (tree_hashes s0)) + 1) / 2 = 2 ^ h).
  { rewrite Hlen0. unfold tree_size. destruct Hh. rewrite pow2_succ by lia. symmetry. apply (Z.div_unique _ _ _ 0); lia. }
  assert (Hat0 : forall i, leaf_in h i -> tree_hashes s0 !! Z.to_nat (2 * i) = Some (default [] (hash_at s 0 i))).
  { intros i Hi. rewrite <- node_0. apply Hat. destruct Hi as [Hh' Hi]. destruct Hh.
    split; [lia|]. by rewrite Z.sub_0_r. }
  split.
  - intros i l. rewrite unhashed_leaves_spec, Hcount. intros [Hil|(-> & Hn & Hi & E)].
    + split; [by apply (Hmod i l)|by apply patched_in].
    + assert (Hin : leaf_in h i) by (by split). split; [done|]. rewrite patched_out by done. apply Hblank; [done|done|].
      rewrite (Hat0 i Hin) in E. unfold unhashed. congruence.
  - intros i Hi Hni. assert (Hn : i ∉ (modified.*1)).
    { intros ([i' l] & -> & Hil)%list_elem_of_fmap. apply Hni. apply (list_elem_of_fmap_2' _ _ (i', l)); [|done].
      apply unhashed_leaves_spec. by left. }
    split; [done|]. intros Hu. apply Hni. apply (list_elem_of_fmap_2' _ _ (i, blank)); [|done].
    apply unhashed_leaves_spec. right. rewrite Hcount. split_and!; [done|done|apply Hi..|]. rewrite Hat0 by done. by rewrite Hu.
Qed.

Lemma below_leaf_in h k m i : height h -> in_tree h k m -> 0 <= i -> i / 2 ^ k = m -> leaf_in h i.
Proof.
  intros Hh Hin Hi E. split; [done|].
  pose proof (below_in_tree h k m i 0 Hin Hi E ltac:(destruct Hin; lia) Hh) as [_ Hb].
  by rewrite Z.div_1_r, Z.sub_0_r in Hb.
Qed.

(** Before the first loop the entries above no leaf of [dirty] are right. *)
Lemma clean_right c s s0 h modified (dirty : list Z) : cache_for c s h modified -> hashes_only s s0 ->
  (forall k m, in_tree h k m -> hash_at s0 k m = Some (default [] (hash_at s k m))) ->
  (forall i, leaf_in h i -> i ∉ dirty -> i ∉ (modified.*1) /\ ~ unhashed s i) ->
  right_at c (patched s modified) h (fun k m => forall i, i ∈ dirty -> i / 2 ^ k <> m) s0.
Proof.
  intros [Hh _ _ _ _ _ Hclean] Ho Hat Hnot k m Hin Hno.
  assert (Hbelow : forall i, leaf_in h i -> i / 2 ^ k = m -> i ∉ (modified.*1) /\ ~ unhashed s i).
  { intros i Hi E. apply Hnot; [done|]. intros Hd. by apply (Hno i Hd). }
  rewrite Hat, (Hclean k m Hin Hbelow) by done. rewrite Ho. cbn. f_equal.
  apply (hash_of_ext _ h); [by rewrite Z2Nat.id by apply Hin| |done]. intros i Hi E. symmetry. apply patched_out, Hbelow; rewrite Z2Nat.id in E by apply Hin; [|done].
  by apply (below_leaf_in h k m).
Qed.

(** The second loop, started with the parents of the leaves hashed again. *)
Lemma process_dirty c leaves h dirty s : hashes_fit s h -> (forall i, i ∈ dirty -> leaf_in h i) ->
  right_at c leaves h (fun k m => (forall i, i ∈ dirty -> i / 2 ^ k <> m) \/ (k = 0 /\ m ∈ dirty)) s ->
  exists s', process_queue (32 * length dirty) c (if h =? 0 then [] else map (fun i => pnode 1 (i / 2 ^ 1)) dirty) s =
    (Ok tt, s') /\ hashes_fit s' h /\ hashes_only s s' /\ right_at c leaves h (fun _ _ => True) s'.
Proof.
  intros Hf Hd Hr. pose proof Hf as ([Hh Hh'] & _).
  assert (Hr1 : right_at c leaves h (level_done dirty [] 1) s).
  { eapply right_at_weaken; [|exact Hr]. intros k m [Hk _] [Hlt|[Hn|(_ & i & Hi & _)]];
      [|by left|by apply not_elem_of_nil in Hi].
    assert (k = 0) as -> by lia. destruct (decide (m ∈ dirty)) as [|Hn]; [by right|]. left. intros i Hi E.
    rewrite Z.div_1_r in E. by subst. }
  destruct (Z.eqb_spec h 0) as [->|].
  - exists s. split_and!; [by destruct (32 * length dirty)%nat|done|done|].
    eapply right_at_weaken; [|exact Hr1]. intros k m [Hk _] _. left. lia.
  - apply (process_levels c leaves h dirty (Z.to_nat (h - 1))); try done; lia || nia.
Qed.

Lemma in_tree_root h : height h -> in_tree h h 0.
Proof. intros [Hh _]. split; [lia|]. rewrite Z.sub_diag. lia. Qed.

Lemma update_tree_hashes_spec c s h modified : cache_for c s h modified ->
  exists s', update_tree_hashes c modified s = (Ok (hash_of c (patched s modified) (parent_at s) (Z.to_nat h) 0), s') /\
    hashes_fit s' h /\ hashes_only s s' /\ right_at c (patched s modified) h (fun _ _ => True) s'.
Proof.
  intros Hc. pose proof Hc as [Hh Hsz Hlen _ _ _ _]. unfold update_tree_hashes. run.
  set (s0 := set_hashes _ s).
  assert (En : Z.to_nat (Z.max (tsd_leaf_count s) MIN_TREE_SIZE * 2 - 1) = Z.to_nat (tree_size h)).
  { unfold tsd_leaf_count, AbDiff_leaf_count, MIN_TREE_SIZE. rewrite Hsz, TreeSize_leaf_count_spec by done.
    destruct Hh. pose proof (pow2_pos h). unfold tree_size. rewrite pow2_succ by lia. f_equal. lia. }
  assert (Hat : forall k m, in_tree h k m -> hash_at s0 k m = Some (default [] (hash_at s k m))).
  { intros k m Hin. unfold s0. rewrite En. by apply hash_at_resize. }
  assert (Hf0 : hashes_fit s0 h).
  { split_and!; [done|done|]. unfold s0. rewrite En. cbn [tree_hashes set_hashes]. rewrite length_resize.
    destruct Hh. pose proof (pow2_pos (h + 1)). unfold tree_size. lia. }
  destruct (hashed_again c s s0 h modified Hc Hf0 Hat) as [Hin' Hnot].
  set (modified' := unhashed_leaves _ modified) in *.
  destruct (hash_leaves_spec c (patched s modified) h modified' _ s0 Hf0 Hin'
    (clean_right c s s0 h modified _ Hc ltac:(done) Hat Hnot)) as (s1 & -> & Hf1 & Ho1 & Hr1).
  destruct (process_dirty c (patched s modified) h modified'.*1 s1 Hf1) as (s2 & E2 & Hf2 & Ho2 & Hr2); [|done|].
  { intros i ([i' l] & -> & Hil)%list_elem_of_fmap. by apply (Hin' i' l). }
  rewrite length_fmap in E2. rewrite E2.
  assert (Ho : hashes_only s s2) by (transitivity s1; [transitivity s0; done|done]).
  exists s2. split; [|done]. pose proof Hf2 as (_ & Hsz2 & _). rewrite Hsz2, root_tree_size by done.
  rewrite (read_hash_spec s2 h h 0 Hf2 (in_tree_root h Hh)), (Hr2 h 0 (in_tree_root h Hh) I). rewrite Ho. done.
Qed.

(** ** Changes of the membership keep the cache usable *)

Definition cache_ok (c : Ciphersuite) (s : TreeSyncDiff) (h : Z) : Prop :=
  cache_for c s h (diff_leaves (diff s)).

Lemma diff_leaves_elem_of {L P} (d : AbDiff L P) i : i ∈ ((diff_leaves d).*1) <-> is_Some (leaf_diff d !! i).
Proof.
  unfold diff_leaves. rewrite list_elem_of_fmap. split.
  - intros ([j l] & -> & Hj%btree_iter_elem_of). by exists l.
  - intros [l Hl]. exists (i, l). split; [done|]. by apply btree_iter_elem_of.
Qed.

Lemma diff_leaves_NoDup {L P} (d : AbDiff L P) : NoDup (diff_leaves d).*1.
Proof.
  unfold diff_leaves, btree_iter. rewrite merge_sort_Permutation. apply NoDup_fst_map_to_list.
Qed.

(** The leaves a diff holds are the ones it reads. *)
Lemma patched_diff_leaves s i : patched s (diff_leaves (diff s)) i = leaf_at s i.
Proof.
  destruct (leaf_diff (diff s) !! i) as [l|] eqn:E.
  - rewrite (patched_in s _ i l); [|apply diff_leaves_NoDup|by apply btree_iter_elem_of].
    unfold leaf_at, AbDiff_leaf. by rewrite E.
  - apply patched_out. rewrite diff_leaves_elem_of, E. by intros [].
Qed.

Lemma unhashed_outside s h i : Z.of_nat (length (tree_hashes s)) <= tree_size h -> 0 <= h -> 2 ^ h <= i -> unhashed s i.
Proof.
  intros Hlen Hh Hi. unfold unhashed, hash_at. rewrite node_0. rewrite lookup_ge_None_2; [done|].
  unfold tree_size in Hlen. rewrite pow2_succ in Hlen by lia. lia.
Qed.

(** A node of the larger tree without leaves beyond the smaller one lies in the smaller. *)
Lemma in_tree_smaller h h' k m : 0 <= h -> in_tree h' k m ->
  (forall i, 0 <= i -> i / 2 ^ k = m -> i < 2 ^ h) -> in_tree h k m.
Proof.
  intros Hh [Hk Hm] Hall. pose proof (pow2_pos k). pose proof (pow2_pos h Hh).
  pose proof (Hall (2 ^ k * m + (2 ^ k - 1)) ltac:(nia)) as Hlast.
  specialize (Hlast ltac:(symmetry; apply (Z.div_unique _ _ _ (2 ^ k - 1)); lia)).
  destruct (Z.le_gt_cases k h) as [Hle|Hgt].
  - split; [lia|]. assert (2 ^ h = 2 ^ k * 2 ^ (h - k)) by (rewrite <- Z.pow_add_r by lia; f_equal; lia).
    pose proof (pow2_pos (h - k)). nia.
  - pose proof (pow2_le (h + 1) k). rewrite pow2_succ in * by lia. nia.
Qed.

(** Writing one leaf and its direct path, possibly in a larger tree. *)
Lemma cache_ok_write c s s' h h' i l f : diff_wf (diff s) h -> diff_wf (diff s') h' -> h <= h' ->
  cache_ok c s h -> tree_hashes s' = tree_hashes s -> leaf_diff (diff s') = <[i := l]> (leaf_diff (diff s)) ->
  writes_path s s' h' i l f -> cache_ok c s' h'.
Proof.
  intros Hd Hd' Hle [Hh Hsz Hlen Hmod _ Hblank Hclean] Eh El [Hwl Hwp].
  assert (Hun : forall j, unhashed s' j <-> unhashed s j) by (intros j; unfold unhashed, hash_at; by rewrite Eh).
  assert (Hmem : forall j, j ∉ ((diff_leaves (diff s')).*1) -> j <> i /\ j ∉ ((diff_leaves (diff s)).*1)).
  { intros j. rewrite !diff_leaves_elem_of, El, lookup_insert. case_decide; [|naive_solver]. intros Hn. by destruct Hn. }
  split.
  - apply (dwf_height _ _ Hd').
  - apply (dwf_size _ _ Hd').
  - rewrite Eh. unfold tree_size in *. destruct Hh. pose proof (pow2_le (h + 1) (h' + 1)). lia.
  - intros j x Hj%btree_iter_elem_of. split; [apply (dwf_height _ _ Hd')|]. by apply (dwf_leaves _ _ Hd' _ _ Hj).
  - apply diff_leaves_NoDup.
  - intros j [_ Hj] Hn Hu. apply Hmem in Hn as [Hne Hn]. rewrite Hwl, decide_False by (done || lia).
    destruct (Z.lt_ge_cases j (2 ^ h)); [|by apply (AbDiff_leaf_outside _ h)].
    apply Hblank; [split; [done|lia]|done|by apply Hun].
  - intros k m Hin Hall.
    assert (Hall' : forall j, 0 <= j -> j / 2 ^ k = m -> j <> i /\ j ∉ ((diff_leaves (diff s)).*1) /\ ~ unhashed s j).
    { intros j Hj E. destruct (Hall j (below_leaf_in h' k m j (dwf_height _ _ Hd') Hin Hj E) E) as [Hn Hu].
      rewrite Hun in Hu. destruct (Hmem j Hn). done. }
    assert (Hin0 : in_tree h k m).
    { apply (in_tree_smaller h h'); [apply Hh|done|]. intros j Hj E. destruct (Z.lt_ge_cases j (2 ^ h)) as [|Hge]; [done|].
      destruct (Hall' j Hj E) as (_ & _ & Hu). destruct Hu. apply (unhashed_outside s h); [done|apply Hh|done]. }
    unfold hash_at. rewrite Eh. fold (hash_at s k m). rewrite (Hclean k m Hin0) by (intros j Hj E; apply Hall'; [apply Hj|done]).
    f_equal. assert (0 <= k) by apply Hin. apply (hash_of_ext _ h'); rewrite Z2Nat.id by done; [done| |].
    + intros j Hj E. rewrite Hwl by done. rewrite decide_False; [done|]. by apply Hall'.
    + intros j n Hj Hn E. rewrite Hwp by (done || lia). rewrite decide_False; [done|]. intros Ei.
      destruct (Hall' i) as [? _]; [by apply (dwf_leaves _ _ Hd' i l); rewrite El, lookup_insert_eq| |done].
      rewrite <- E, <- Ei, Z.div_div by (pose proof (pow2_pos j); pose proof (pow2_pos (k - j)); lia).
      rewrite <- Z.pow_add_r by lia. do 2 f_equal. lia.
Qed.

Lemma grow_loop_leaf_diff fuel i d : leaf_diff (grow_loop fuel i d).2 = leaf_diff d.
Proof.
  revert d. induction fuel as [|fuel IH]; intros d; cbn [grow_loop]; [done|].
  destruct (_ <=? _); [|done]. unfold grow_tree. destruct (_ <? _); [done|]. by rewrite IH.
Qed.

Lemma foldl_parent_mut_leaf_diff {L P} `{!Default P} (f : P -> P) ps (d : AbDiff L P) :
  leaf_diff (foldl (fun d i => parent_mut d i f) d ps) = leaf_diff d.
Proof.
  revert d. induction ps as [|p ps IH]; intros d; cbn [foldl]; [done|]. rewrite IH. by rewrite parent_mut_replace.
Qed.

Lemma set_direct_path_leaf_diff {L P} (d : AbDiff L P) i x :
  leaf_diff (set_direct_path_to_node d i x) = leaf_diff d.
Proof. unfold set_direct_path_to_node. by destruct (foldl_replace_parent (AbDiff_direct_path d i) x d) as (_ & ? & _). Qed.

Lemma blank_leaf_trim s h i : tree_sync_ok s h -> 0 <= i -> is_Some (leaf_at s i) ->
  diff (blank_leaf i s) = set_direct_path_to_node (replace_leaf (diff s) i None) i blank /\
  tree_hashes (blank_leaf i s) = tree_hashes s.
Proof.
  intros [Hm _] Hi Hs. pose proof (members_leaf_lt s h i Hm Hi Hs).
  destruct (blank_path_writes s h i None (mo_diff _ _ Hm) (mo_fits _ _ Hm) ltac:(lia)) as (Hd & _).
  unfold blank_leaf. cbn [diff set_diff].
  by rewrite (trim_tree_id _ h) by (exact Hd || apply (mo_total _ _ Hm) || apply (mo_minimal _ _ Hm)).
Qed.

Lemma add_leaf_diff_leaves s leaf i s' : add_leaf leaf s = (Ok i, s') ->
  tree_hashes s' = tree_hashes s /\ leaf_diff (diff s') = <[i := Some leaf]> (leaf_diff (diff s)).
Proof.
  unfold add_leaf. run. pose proof (grow_loop_leaf_diff 32 (free_leaf_index s) (diff s)) as El.
  destruct (grow_loop 32 (free_leaf_index s) (diff s)) as [[u|e|] d]; intros E; [|discriminate..].
  injection E as <- <-. split; [done|]. cbn [diff set_diff set_members].
  unfold add_unmerged. rewrite foldl_parent_mut_leaf_diff. cbn [snd] in El. by rewrite <- El.
Qed.

Lemma member_step_cache c s s' h : tree_sync_ok s h -> cache_ok c s h -> member_step s s' ->
  exists h', h <= h' /\ tree_sync_ok s' h' /\ cache_ok c s' h'.
Proof.
  intros Hok Hc Hstep. pose proof (mo_diff _ _ (proj1 Hok)) as Hd.
  destruct Hstep as [s leaf i s' E|s leaf i Hi Hs|s i Hi Hs].
  - pose proof (add_leaf_ok s h leaf Hok) as Ha. rewrite E in Ha. destruct Ha as (-> & _ & h' & Hle & Hok' & Hw).
    exists h'. split_and!; [done|done|].
    apply (cache_ok_write c s s' h h' (free_leaf_index s) (Some leaf) (option_map (add_unmerged_leaf (free_leaf_index s))));
      [done|apply Hok'|done|done|by apply (add_leaf_diff_leaves _ _ _ _ E)..|done].
  - pose proof (members_leaf_lt s h i (proj1 Hok) Hi Hs). exists h. split_and!; [done|by apply update_leaf_ok|].
    destruct (blank_path_writes s h i (Some leaf) Hd (mo_fits _ _ (proj1 Hok)) ltac:(lia)) as (Hd' & _ & Hw).
    apply (cache_ok_write c s _ h h i (Some leaf) (fun _ => None)); try done.
    unfold update_leaf. cbn [diff set_diff]. by rewrite set_direct_path_leaf_diff.
  - destruct (blank_leaf_ok s h i Hok Hi Hs) as (Hok' & _ & Hw). exists h. split_and!; [done|done|].
    destruct (blank_leaf_trim s h i Hok Hi Hs) as [Ed Eh].
    apply (cache_ok_write c s _ h h i None (fun _ => None)); try done; [apply Hok'|].
    rewrite Ed. by rewrite set_direct_path_leaf_diff.
Qed.

(** The cache holds the tree hash of every node. *)
Definition hashed (c : Ciphersuite) (s : TreeSyncDiff) (h : Z) : Prop :=
  hashes_fit s h /\ right_at c (leaf_at s) h (fun _ _ => True) s.

Lemma hashed_cache_ok c s h : diff_wf (diff s) h -> hashed c s h -> cache_ok c s h.
Proof.
  intros Hd [(Hh & Hsz & Hlen) Hr]. split; [done|done|lia| |apply diff_leaves_NoDup| |].
  - intros i l Hi%btree_iter_elem_of. split; [done|]. by apply (dwf_leaves _ _ Hd _ _ Hi).
  - intros i Hi _ Hu. exfalso. unfold unhashed in Hu. rewrite (Hr 0 i) in Hu; [|split|done].
    + by apply hash_of_nonempty in Hu.
    + destruct Hh. lia.
    + rewrite Z.sub_0_r. apply Hi.
  - intros k m Hin _. by apply Hr.
Qed.

Lemma cache_ok_steps c s s' h : tree_sync_ok s h -> cache_ok c s h -> rtc member_step s s' ->
  exists h', h <= h' /\ tree_sync_ok s' h' /\ cache_ok c s' h'.
Proof.
  intros Hok Hc Hsteps. revert h Hok Hc. induction Hsteps as [s|s s1 s2 Hstep _ IH]; intros h Hok Hc; [by exists h|].
  destruct (member_step_cache c s s1 h Hok Hc Hstep) as (h1 & ? & Hok1 & Hc1).
  destruct (IH h1 Hok1 Hc1) as (h2 & ? & ? & ?). exists h2. split_and!; [lia|done|done].
Qed.

Lemma compute_tree_hash_diff c s s' node ex : diff s = diff s' ->
  compute_tree_hash c s node ex = compute_tree_hash c s' node ex.
Proof.
  intros E. unfold compute_tree_hash. generalize 32%nat. intros fuel. revert node. induction fuel as [|fuel IH]; intros node; [done|].
  cbn [compute_tree_hash_rec]. rewrite E. destruct node as [i|p]; [done|]. by rewrite !IH.
Qed.

Lemma compute_root_spec c s h : hashes_fit s h ->
  compute_tree_hash c s (root (diff_size (diff s))) [] = Ok (hash_of c (leaf_at s) (parent_at s) (Z.to_nat h) 0).
Proof.
  intros (Hh & Hsz & _). rewrite Hsz, root_tree_size by done. unfold compute_tree_hash. pose proof Hh as [Hh0 Hh1].
  pose proof (compute_tree_hash_spec c s h 32 (Z.to_nat h) 0 Hh) as E. rewrite Z2Nat.id in E by done.
  apply E; [by apply in_tree_root|lia].
Qed.

Lemma root_hash_spec c s h : hashed c s h -> root_hash s = compute_tree_hash c s (root (diff_size (diff s))) [].
Proof.
  intros [Hf Hr]. rewrite (compute_root_spec c s h Hf). unfold root_hash. pose proof Hf as (Hh & Hsz & _).
  rewrite Hsz, root_tree_size by done. rewrite (read_hash_spec s h h 0 Hf (in_tree_root h Hh)).
  cbn [fst]. by rewrite (Hr h 0 (in_tree_root h Hh) I).
Qed.

Lemma update_diff_leaves c s h : cache_ok c s h ->
  exists s', update_tree_hashes c (diff_leaves (diff s)) s = (compute_tree_hash c s (root (diff_size (diff s))) [], s') /\
    hashes_only s s' /\ hashed c s' h.
Proof.
  intros Hc. destruct (update_tree_hashes_spec c s h _ Hc) as (s' & E & Hf & Ho & Hr).
  assert (Hext : forall k m, in_tree h (Z.of_nat k) m -> hash_of c (patched s (diff_leaves (diff s))) (parent_at s) k m =
    hash_of c (leaf_at s) (parent_at s) k m).
  { intros k m Hin. apply (hash_of_ext _ h); [done| |done]. intros i _ _. apply patched_diff_leaves. }
  pose proof Hf as (Hh & Hsz & _). exists s'. split; [|split; [done|split; [done|]]].
  - rewrite E. f_equal. rewrite Hext by (rewrite Z2Nat.id by apply Hh; by apply in_tree_root).
    symmetry. rewrite <- (compute_tree_hash_diff c s' s) by (by rewrite Ho).
    assert (Ed : diff s' = diff s) by (by rewrite Ho). rewrite <- Ed, (compute_root_spec c s' h Hf).
    unfold leaf_at, parent_at. by rewrite Ed.
  - intros k m Hin _. rewrite (Hr k m Hin I). f_equal. rewrite Ho. apply Hext. by rewrite Z2Nat.id by apply Hin.
Qed.

(** ** Filling the cache *)

Lemma subtree_split k k' m m' : 0 < k -> 0 <= k' <= k -> 0 <= m' -> m' / 2 ^ (k - k') = m ->
  (k', m') = (k, m) \/ exists b, 0 <= b <= 1 /\ k' <= k - 1 /\ m' / 2 ^ (k - 1 - k') = 2 * m + b.
Proof.
  intros Hk Hk' Hm E. destruct (Z.eq_dec k' k) as [->|Hne].
  - left. by rewrite Z.sub_diag, Z.div_1_r in E; subst.
  - right. exists (m' / 2 ^ (k - 1 - k') - 2 * m). replace (k - k') with (k - 1 - k' + 1) in E by lia.
    rewrite <- path_step in E by lia. generalize dependent (m' / 2 ^ (k - 1 - k')). intros x <-.
    pose proof (Z.div_mod x 2). pose proof (Z.mod_pos_bound x 2). lia.
Qed.

Lemma populate_rec_spec c h k : forall fuel m P s, (k < fuel)%nat -> hashes_fit s h -> in_tree h (Z.of_nat k) m ->
  right_at c (leaf_at s) h P s ->
  exists s', populate_tree_hashes_rec fuel c (index_at (Z.of_nat k) m) [] s =
      (Ok (hash_of c (leaf_at s) (parent_at s) k m), s') /\
    hashes_fit s' h /\ hashes_only s s' /\
    right_at c (leaf_at s) h (fun k' m' => P k' m' \/ (k' <= Z.of_nat k /\ m' / 2 ^ (Z.of_nat k - k') = m)) s'.
Proof.
  induction k as [|k IH]; intros [|fuel] m P s Hfuel Hf Hin Hr; try lia.
  - rewrite index_at_leaf. cbn [populate_tree_hashes_rec]. run. change (mem m []) with false. cbv iota. rewrite digest_leaf. rewrite <- (index_at_leaf m).
    destruct (write_hash_spec s h 0 m (digest (Leaf_compute_tree_hash c (AbDiff_leaf (diff s) m) m)) Hf Hin) as (-> & Hf1 & _).
    eexists. split_and!; [done|done|done|]. eapply right_at_weaken; [|exact (right_at_write c _ h P s 0 m Hf Hin Hr)].
    intros k' m' [Hk' _] [?|[? E]]; [by left|right]. assert (k' = 0) as -> by lia. by rewrite Z.div_1_r in E; subst.
  - pose proof Hf as (Hh & _). pose proof (in_tree_coord _ _ _ Hh Hin) as Hc.
    pose proof (in_tree_child h (Z.of_nat (S k)) m 0 ltac:(lia) Hin ltac:(lia)) as H0'. rewrite Z.add_0_r in H0'.
    pose proof (in_tree_child h (Z.of_nat (S k)) m 1 ltac:(lia) Hin ltac:(lia)) as H1'.
    rewrite <- index_at_parent by lia. cbn [populate_tree_hashes_rec]. rewrite left_pnode, right_pnode by (done || lia).
    replace (Z.of_nat (S k) - 1) with (Z.of_nat k) in * by lia. run.
    destruct (IH fuel _ P s ltac:(lia) Hf H0' Hr) as (s1 & -> & Hf1 & Ho1 & Hr1).
    assert (El : forall s', hashes_only s s' -> leaf_at s' = leaf_at s /\ parent_at s' = parent_at s /\ diff s' = diff s)
      by (intros s' ->; done).
    destruct (El s1 Ho1) as (El1 & Ep1 & _). rewrite <- El1 in Hr1.
    destruct (IH fuel _ _ s1 ltac:(lia) Hf1 H1' Hr1) as (s2 & -> & Hf2 & Ho2 & Hr2).
    assert (Ho : hashes_only s s2) by (by transitivity s1). destruct (El s2 Ho) as (El2 & Ep2 & Ed2). rewrite El1, Ep1, Ed2 in *.
    rewrite digest_parent, index_at_parent by lia.
    change (digest _) with (hash_of c (leaf_at s) (parent_at s) (S k) m).
    destruct (write_hash_spec s2 h _ m (hash_of c (leaf_at s) (parent_at s) (S k) m) Hf2 Hin) as (-> & Hf3 & _).
    eexists. split_and!; [done|done|by transitivity s2|].
    pose proof (right_at_write c _ h _ s2 _ m Hf2 Hin Hr2) as Hw. rewrite Nat2Z.id, Ep2 in Hw.
    eapply right_at_weaken; [|exact Hw]. cbv beta. intros k' m' [Hk' Hm'] [?|[Hle E]]; [by left; left; left|].
    destruct (subtree_split (Z.of_nat (S k)) k' m m' ltac:(lia) ltac:(lia) ltac:(lia) E) as [?|(b & Hb & Hkb & Eb)]; [by right|].
    replace (Z.of_nat (S k) - 1) with (Z.of_nat k) in * by lia. left.
    assert (b = 0 \/ b = 1) as [-> | ->] by lia; [left; right; rewrite Z.add_0_r in Eb|right]; done.
Qed.

Lemma populate_spec c s h : hashes_fit s h ->
  exists s', populate_tree_hashes c (root (diff_size (diff s))) [] s =
      (compute_tree_hash c s (root (diff_size (diff s))) [], s') /\
    hashes_only s s' /\ hashed c s' h.
Proof.
  intros Hf. rewrite (compute_root_spec c s h Hf). pose proof Hf as (Hh & Hsz & _). pose proof Hh as [Hh0 Hh1].
  rewrite Hsz, root_tree_size by done. unfold populate_tree_hashes.
  destruct (populate_rec_spec c h (Z.to_nat h) 32 0 (fun _ _ => False) s) as (s' & E & Hf' & Ho & Hr);
    [lia|done|rewrite Z2Nat.id by done; by apply in_tree_root|by intros ? ? _ []|].
  rewrite Z2Nat.id in E, Hr by done. exists s'. split; [done|]. split; [done|]. split; [done|].
  rewrite Ho. rewrite Ho in Hr. eapply right_at_weaken; [|exact Hr]. intros k m [Hk Hm] _. right.
  split; [lia|]. apply Z.div_small. lia.
Qed.

(** ** Theorems *)

(** [populate_tree_hashes], run on the root, fills every entry of the cache with
    the tree hash of its node and returns the tree hash of the root, the value
    of the recursive [compute_tree_hash]. *)
Theorem populate_tree_hashes_correct c s h :
  hashes_fit s h ->
  exists s', populate_tree_hashes c (root (diff_size (diff s))) [] s =
      (compute_tree_hash c s (root (diff_size (diff s))) [], s') /\
    hashes_only s s' /\ hashed c s' h.
Proof. apply populate_spec. Qed.

(** C17: the incremental update of the cache is as good as computing the tree hash
    from scratch: when the cache was right before any sequence of additions,
    updates and removals, [update_tree_hashes] with the leaves of the diff
    returns the recursive tree hash of the changed tree and leaves the right
    hash in the entry of every node, new nodes of a grown tree included. *)
Theorem update_tree_hashes_correct c s s' h :
  tree_sync_ok s h -> hashed c s h -> rtc member_step s s' ->
  exists h' s'', h <= h' /\
    update_tree_hashes c (diff_leaves (diff s')) s' =
      (compute_tree_hash c s' (root (diff_size (diff s'))) [], s'') /\
    hashes_only s' s'' /\ hashed c s'' h'.
Proof.
  intros Hok Hh Hsteps. pose proof (hashed_cache_ok c s h (mo_diff _ _ (proj1 Hok)) Hh) as Hc.
  destruct (cache_ok_steps c s s' h Hok Hc Hsteps) as (h' & Hle & _ & Hc').
  destruct (update_diff_leaves c s' h' Hc') as (s'' & E & Ho & Hr). by exists h', s''.
Qed.

End TreeHash.

(** ** Witnesses *)

Lemma tree_sync_ok_hashes s h hashes : tree_sync_ok s h -> tree_sync_ok (set_hashes hashes s) h.
Proof.
  intros [Hm Hp]. split; [destruct Hm; by split|]. intros k m p Hin Hk E. by destruct (Hp k m p Hin Hk E).
Qed.

Lemma single_member_fit leaf : hashes_fit (single_member leaf) 0.
Proof. split_and!; [split; lia|done|done]. Qed.

(** A group of one member with its hash computed; then two members are added and
    the first of them is removed. *)
Definition hash_suite : Ciphersuite := MLS_128_DHKEMX25519_AES128GCM_SHA256_Ed25519.

Definition hashed_single : TreeSyncDiff :=
  (@populate_tree_hashes toy_hashing hash_suite (root 1) [] (single_member (sample_leaf 1))).2.

Definition sample_changed : TreeSyncDiff :=
  blank_leaf 1 (add_leaf (sample_leaf 3) (add_leaf (sample_leaf 2) hashed_single).2).2.

Lemma populate_tree_hashes_correct_witness :
  exists s', @populate_tree_hashes toy_hashing hash_suite (root 1) [] (single_member (sample_leaf 1)) =
      (@compute_tree_hash toy_hashing hash_suite (single_member (sample_leaf 1)) (root 1) [], s').
Proof.
  destruct (@populate_tree_hashes_correct toy_hashing toy_hash_laws hash_suite (single_member (sample_leaf 1)) 0
    (single_member_fit _)) as (s' & E & _).
  exists s'. exact E.
Defined.

Lemma hashed_single_ok : tree_sync_ok hashed_single 0 /\ @hashed toy_hashing hash_suite hashed_single 0.
Proof.
  destruct (@populate_spec toy_hashing toy_hash_laws hash_suite (single_member (sample_leaf 1)) 0 (single_member_fit _))
    as (s' & E & Ho & Hr).
  assert (Es : hashed_single = s').
  { unfold hashed_single. change (root 1) with (root (diff_size (diff (single_member (sample_leaf 1))))). by rewrite E. }
  rewrite Es. split; [|done]. rewrite Ho. apply tree_sync_ok_hashes, single_member_ok.
Qed.

Lemma member_add_run s leaf i : (add_leaf leaf s).1 = Ok i -> member_step s (add_leaf leaf s).2.
Proof. intros E. apply (member_add s leaf i). destruct (add_leaf leaf s) as [o s']. cbn in *. by rewrite E. Qed.

Lemma sample_changed_steps : rtc member_step hashed_single sample_changed.
Proof.
  eapply rtc_l; [apply (member_add_run _ (sample_leaf 2) 1); by vm_compute|].
  eapply rtc_l; [apply (member_add_run _ (sample_leaf 3) 2); by vm_compute|].
  apply rtc_once, member_remove; [lia|]. vm_compute. eauto.
Qed.

Lemma update_tree_hashes_correct_witness :
  diff_size (diff sample_changed) = 7 /\
  (@update_tree_hashes toy_hashing hash_suite (diff_leaves (diff sample_changed)) sample_changed).1 =
    @compute_tree_hash toy_hashing hash_suite sample_changed (root 7) [].
Proof.
  split; [by vm_compute|].
  destruct (@update_tree_hashes_correct toy_hashing toy_hash_laws hash_suite hashed_single sample_changed 0
    (proj1 hashed_single_ok) (proj2 hashed_single_ok) sample_changed_steps) as (h' & s'' & _ & E & _).
  rewrite E. vm_compute. reflexivity.
Defined.
