(* ===== verification/UpdatePaths.v ===== *)
(** * Update paths

    Models the part of [treesync/diff.rs] that sets the parent hashes of a new path
    and applies update paths, the committer's own and received ones. *)

From S2P Require Import Prelude Crypto TreeMath SortedIter BinaryTree LeafNodes Nodes TreeSyncDiff TreeHash.

Section UpdatePaths.
Context `{!TreeHashing}.

(** The loop over the path from the root down: each node gets the parent hash
    of the one above and is hashed with its sibling's tree hash.  [path] is
    reversed. *)
Fixpoint chain_parent_hashes (c : Ciphersuite) (previous_parent_hash : bytes)
    (path : list (ParentNodeIndex * ParentNode)) (copath_tree_hashes : list bytes) :
    outcome LibraryError (list (ParentNodeIndex * ParentNode) * bytes) :=
  match path, copath_tree_hashes with
  | (index, path_node) :: path, original_sibling_tree_hash :: copath_tree_hashes =>
    let path_node := set_parent_hash previous_parent_hash path_node in
    parent_hash ← compute_parent_hash c path_node original_sibling_tree_hash;
    '(path, final_hash) ← chain_parent_hashes c parent_hash path copath_tree_hashes;
    Ok ((index, path_node) :: path, final_hash)
  | _, _ => Ok (path, previous_parent_hash)
  end.

(** [map(|node_index| self.tree_hash(node_index))] *)
Fixpoint read_hashes (nodes : list TreeNodeIndex) : method TreeSyncDiff LibraryError (list bytes) :=
  match nodes with
  | [] => mret []
  | node_index :: nodes =>
    hash ← tree_hash node_index;
    hashes ← read_hashes nodes;
    mret (hash :: hashes)
  end.

(** Returns the path with its parent hashes set and the parent hash of the leaf. *)
Definition set_parent_hashes (c : Ciphersuite) (path : list (ParentNodeIndex * ParentNode))
    (leaf_index : LeafNodeIndex) :
    method TreeSyncDiff LibraryError (list (ParentNodeIndex * ParentNode) * bytes) :=
  if is_empty path then mret (path, [])
  else
    self ← get;
    let filtered_copath := filtered_copath self leaf_index in
    update_tree_hashes c (diff_leaves (diff self));;
    copath_tree_hashes ← read_hashes filtered_copath;
    '(path, parent_hash) ← lift (chain_parent_hashes c [] (rev path) (rev copath_tree_hashes));
    mret (rev path, parent_hash).

(** The two loops of [process_update_path] over the nodes of the diff. *)
Definition blank_path (path : list ParentNodeIndex) (d : AbDiff TreeSyncLeafNode TreeSyncParentNode) :
    AbDiff TreeSyncLeafNode TreeSyncParentNode :=
  foldl (fun d node => parent_mut d node (fun _ => blank)) d path.

Definition write_path (path : list (ParentNodeIndex * ParentNode))
    (d : AbDiff TreeSyncLeafNode TreeSyncParentNode) : AbDiff TreeSyncLeafNode TreeSyncParentNode :=
  foldl (fun d '(index, node) => parent_mut d index (fun _ => Some node)) d path.

Definition process_update_path (c : Ciphersuite) (leaf_index : LeafNodeIndex)
    (path : list (ParentNodeIndex * ParentNode)) : method TreeSyncDiff LibraryError bytes :=
  '(path, parent_hash) ← set_parent_hashes c path leaf_index;
  modify (fun s => set_diff (blank_path (AbDiff_direct_path (diff s) leaf_index) (diff s)) s);;
  modify (fun s => set_diff (write_path path (diff s)) s);;
  mret parent_hash.

(** What a member signs into its leaf when it commits. *)
Record UpdateLeafNodeParams := {
  params_credential : Credential;
  params_signature_key : bytes;
  params_capabilities : Capabilities;
  params_extensions : Extensions
}.

(** The random key pair and the signature come from the provider. *)
Definition new_with_parent_hash (encryption_key_pair : outcome LibraryError EncryptionKeyPair)
    (sign : LeafNodePayload -> outcome LibraryError bytes) (parent_hash : bytes)
    (params : UpdateLeafNodeParams) : outcome LibraryError (LeafNode * EncryptionKeyPair) :=
  keypair ← encryption_key_pair;
  let tbs := {|
    leaf_encryption_key := keypair.1;
    leaf_signature_key := params_signature_key params;
    leaf_credential := params_credential params;
    leaf_capabilities := params_capabilities params;
    leaf_node_source := SourceCommit parent_hash;
    leaf_extensions := params_extensions params |} in
  signature ← sign tbs;
  Ok ({| payload := tbs; leaf_signature := signature |}, keypair).

Definition lift_state {S E F A} (f : E -> F) (m : method S E A) : method S F A :=
  fun s => let '(o, s) := m s in (map_err f o, s).

Definition apply_own_update_path (encryption_key_pair : outcome LibraryError EncryptionKeyPair)
    (sign : LeafNodePayload -> outcome LibraryError bytes) (c : Ciphersuite) (leaf_index : LeafNodeIndex)
    (leaf_node_params : UpdateLeafNodeParams) (path : list (ParentNodeIndex * ParentNode)) :
    method TreeSyncDiff TreeSyncAddLeaf (list EncryptionKeyPair) :=
  parent_hash ← lift_state AddLeafLibraryError (process_update_path c leaf_index path);
  '(leaf_node, node_keypair) ← lift (map_err AddLeafLibraryError
     (new_with_parent_hash encryption_key_pair sign parent_hash leaf_node_params));
  lift_state AddLeafLibraryError (update_tree_hashes c [(leaf_index, Some leaf_node)]);;
  modify (fun s => set_diff (replace_leaf (diff s) leaf_index (Some leaf_node)) s);;
  mret [node_keypair].

Inductive ApplyUpdatePathError :=
| ApplyLibraryError (e : LibraryError)
| PathLengthMismatch
| PathMismatch
| ParentHashMismatch
| MissingParentHash
| UnableToDecrypt
| MissingSender
| ApplyTreeFull
| InconsistentSenderIndex.

(** The public part of an [UpdatePath]: the new leaf and the public keys of the nodes. *)
Record UpdatePath := mkUpdatePath { up_leaf_node : LeafNode; up_public_keys : list bytes }.

Definition add_leaf_error (e : TreeSyncAddLeaf) : ApplyUpdatePathError :=
  match e with AddLeafLibraryError e => ApplyLibraryError e | TreeFull => ApplyTreeFull end.

Definition apply_received_update_path (c : Ciphersuite) (sender_leaf_index : LeafNodeIndex)
    (update_path : UpdatePath) : method TreeSyncDiff ApplyUpdatePathError () :=
  self ← get;
  (if negb (bool_decide (is_Some (AbDiff_leaf (diff self) sender_leaf_index))) ||
      (tsd_leaf_count self <=? sender_leaf_index)
   then
     new_leaf_index ← lift_state add_leaf_error (add_leaf (up_leaf_node update_path));
     if negb (sender_leaf_index =? new_leaf_index) then fail InconsistentSenderIndex else mret tt
   else mret tt);;
  self ← get;
  let filtered_direct_path := filtered_direct_path self sender_leaf_index in
  if negb (length filtered_direct_path =? length (up_public_keys update_path))%nat
  then fail PathLengthMismatch
  else
    let path := zip filtered_direct_path (map ParentNode_from (up_public_keys update_path)) in
    parent_hash ← lift_state ApplyLibraryError (process_update_path c sender_leaf_index path);
    leaf_node_parent_hash ← lift (ok_or (leaf_parent_hash (up_leaf_node update_path)) MissingParentHash);
    if negb (bool_decide (leaf_node_parent_hash = parent_hash)) then fail ParentHashMismatch
    else
      lift_state ApplyLibraryError
        (update_tree_hashes c [(sender_leaf_index, Some (up_leaf_node update_path))]);;
      modify (fun s => set_diff
        (replace_leaf (diff s) sender_leaf_index (Some (up_leaf_node update_path))) s).

(** ** Specification *)

(** The tree hash of a node, computed from scratch. *)
Definition node_hash (c : Ciphersuite) (s : TreeSyncDiff) (node_index : TreeNodeIndex) : bytes :=
  digest (compute_tree_hash c s node_index []).

(** The parent hash chain of RFC 9420, section 7.9: [hash] is the parent hash the
    node below the path carries, [siblings] are the tree hashes of the copath. *)
Fixpoint chained (c : Ciphersuite) (hash : bytes) (path : list (ParentNodeIndex * ParentNode))
    (siblings : list bytes) : Prop :=
  match path, siblings with
  | (_, p) :: path, sibling :: siblings =>
    compute_parent_hash c p sibling = Ok hash /\ chained c (parent_parent_hash p) path siblings
  | _, _ => hash = []
  end.

(** A node of the path as it was given, but for its parent hash. *)
Definition same_node (x y : ParentNodeIndex * ParentNode) : Prop :=
  x.1 = y.1 /\ parent_encryption_key x.2 = parent_encryption_key y.2 /\
  unmerged_leaves x.2 = unmerged_leaves y.2.

(** A diff whose members are consistent and whose cache the next update can use. *)
Definition ready (c : Ciphersuite) (s : TreeSyncDiff) (h : Z) : Prop := tree_sync_ok s h /\ cache_ok c s h.

(** ** Lemmas *)

Context `{!HashLaws}.

(** The loop runs from the root down; appended to the part above, the chain is complete. *)
Lemma chain_parent_hashes_spec c path : forall siblings top upper upper_siblings, length path = length siblings ->
  chained c top upper upper_siblings -> length upper = length upper_siblings ->
  exists path' hash, chain_parent_hashes c top path siblings = Ok (path', hash) /\ Forall2 same_node path path' /\
    chained c hash (rev path' ++ upper) (rev siblings ++ upper_siblings).
Proof.
  induction path as [|[i p] path IH]; intros [|sib siblings] top upper upper_siblings Hlen Hc Hu; try done.
  - exists [], top. cbn. split_and!; [done|constructor|done].
  - injection Hlen as Hlen. cbn [chain_parent_hashes].
    destruct (compute_parent_hash_ok c (set_parent_hash top p) sib) as [d Ed]. rewrite Ed. cbn [mbind outcome_bind].
    destruct (IH siblings d ((i, set_parent_hash top p) :: upper) (sib :: upper_siblings) Hlen) as (path' & hash & -> & Hf & Hc').
    + cbn [chained]. split; [done|]. exact Hc.
    + cbn. by f_equal.
    + exists ((i, set_parent_hash top p) :: path'), hash. cbn [mbind outcome_bind rev]. split_and!; [done| |].
      * constructor; [|done]. by destruct p.
      * by rewrite <- !app_assoc.
Qed.

Lemma tree_hash_spec c s h k m : hashed c s h -> in_tree h k m ->
  tree_hash (index_at k m) s = (Ok (node_hash c s (index_at k m)), s).
Proof.
  intros [Hf Hr] Hin. unfold tree_hash. rewrite (read_hash_spec s h k m Hf Hin), (Hr k m Hin I). cbn [default from_option].
  unfold node_hash, compute_tree_hash. pose proof Hf as ([_ Hh] & _). assert (0 <= k <= h) by apply Hin.
  pose proof (compute_tree_hash_spec c s h 32 (Z.to_nat k) m (proj1 Hf)) as E. rewrite Z2Nat.id in E by lia.
  rewrite E; [done|done|lia].
Qed.

Lemma read_hashes_spec c s h nodes : hashed c s h ->
  Forall (fun n => exists k m, in_tree h k m /\ n = index_at k m) nodes ->
  read_hashes nodes s = (Ok (map (node_hash c s) nodes), s).
Proof.
  intros Hr. induction 1 as [|n nodes (k & m & Hin & ->) _ IH]; cbn [read_hashes]; [done|].
  run. rewrite (tree_hash_spec c s h) by done. by rewrite IH.
Qed.

Lemma filtered_copath_in_tree s h i : diff_wf (diff s) h -> leaf_in h i ->
  Forall (fun n => exists k m, in_tree h k m /\ n = index_at k m) (filtered_copath s i).
Proof.
  intros Hd Hi. apply Forall_forall. intros n (j & r & Hj & Hr & _)%keep_resolved_elem_of.
  unfold AbDiff_copath in Hj. rewrite (dwf_size _ _ Hd) in Hj. pose proof Hi as [[Hh _] _].
  destruct (Z.eq_dec h 0) as [->|].
  { unfold copath_resolutions in Hr. by rewrite (AbDiff_leaf_count_spec (diff s) 0) in Hr by done. }
  rewrite copath_spec, list_lookup_fmap in Hj by (done || lia).
  destruct (decide (j < Z.to_nat h)%nat) as [Hlt|Hge].
  - rewrite below_root_lookup in Hj by done. cbn in Hj. injection Hj as <-.
    eexists _, _. split; [|done]. apply in_tree_flip; [|lia]. apply in_tree_path; [done|lia].
  - rewrite lookup_ge_None_2 in Hj by (rewrite length_below_root; lia). done.
Qed.

Lemma node_hash_diff c s s' n : diff s = diff s' -> node_hash c s n = node_hash c s' n.
Proof. intros E. unfold node_hash. by rewrite (compute_tree_hash_diff c s s'). Qed.

(** The cache is right once a path is applied: the path has a node, and then the changed
    leaves are hashed first, or nothing was changed since the cache was right. *)
Definition hashes_follow (c : Ciphersuite) (s : TreeSyncDiff) (h : Z) {A} (path : list A) : Prop := path <> [] \/ hashed c s h.

Lemma set_parent_hashes_spec c s h i path : ready c s h -> leaf_in h i -> hashes_follow c s h path ->
  length path = length (filtered_copath s i) ->
  exists path' hash s', set_parent_hashes c path i s = (Ok (path', hash), s') /\
    hashes_only s s' /\ hashed c s' h /\ Forall2 same_node path path' /\
    chained c hash path' (map (node_hash c s) (filtered_copath s i)).
Proof.
  intros [Hok Hc] Hi Hne Hlen. unfold set_parent_hashes. destruct (is_empty path) eqn:Ee.
  { destruct path; [|done]. destruct Hne as [|Hh]; [done|]. exists [], [], s. split_and!; [done|by destruct s|done|constructor|done]. }
  run.
  destruct (update_diff_leaves c s h Hc) as (s' & -> & Ho & Hr). pose proof (proj1 Hr) as Hf.
  assert (Ed : diff s' = diff s) by (by rewrite Ho).
  rewrite <- (compute_tree_hash_diff c s' s), <- Ed, (compute_root_spec c s' h Hf) by done.
  rewrite (read_hashes_spec c s' h) by (done || (apply filtered_copath_in_tree; [apply Hok|done])).
  rewrite (map_ext _ _ (fun n => node_hash_diff c s' s n Ed)).
  destruct (chain_parent_hashes_spec c (rev path) (rev (map (node_hash c s) (filtered_copath s i))) [] [] [])
    as (path' & hash & -> & Hsame & Hch); [by rewrite !length_rev, length_map|done|done|].
  rewrite !app_nil_r, rev_involutive in Hch. exists (rev path'), hash, s'. split_and!; [done..| |done].
  rewrite <- (rev_involutive path). rewrite !rev_reverse. apply Forall2_reverse. by rewrite <- rev_reverse.
Qed.

Lemma write_path_parent (d : AbDiff TreeSyncLeafNode TreeSyncParentNode) (path : list (ParentNodeIndex * ParentNode)) p :
  AbDiff_parent (write_path path d) p =
    match (list_to_map (reverse path) : gmap Z ParentNode) !! p with Some n => Some n | None => AbDiff_parent d p end.
Proof.
  unfold write_path. induction path as [|[i n] path IH] using rev_ind.
  - done.
  - rewrite foldl_app. cbn [foldl]. rewrite parent_mut_replace, AbDiff_parent_replace, IH.
    rewrite reverse_snoc. cbn [list_to_map foldr uncurry]. rewrite lookup_insert.
    destruct (decide (p = i)) as [->|Hne]; [by rewrite decide_True|by rewrite decide_False].
Qed.

Lemma write_path_wf (d : AbDiff TreeSyncLeafNode TreeSyncParentNode) h (path : list (ParentNodeIndex * ParentNode)) : diff_wf d h ->
  Forall (fun p => 0 <= p < 2 ^ h - 1) path.*1 ->
  let d' := write_path path d in
  diff_wf d' h /\ original_tree d' = original_tree d /\ leaf_diff d' = leaf_diff d /\
  (forall i, AbDiff_leaf d' i = AbDiff_leaf d i).
Proof.
  cbv zeta. revert d. unfold write_path. induction path as [|[i n] path IH]; intros d Hd Hp; cbn [foldl]; [done|].
  cbn in Hp. apply Forall_cons in Hp as [Hi Hp]. rewrite parent_mut_replace.
  destruct (IH (replace_parent d i (Some n))) as (? & Eo & El & Hl); [by apply replace_parent_wf|done|].
  split_and!; [done|exact Eo|exact El|exact Hl].
Qed.

(** The tree after the direct path of [i] was replaced: off the path nothing
    changes, on the path there are the nodes of [path] and blanks. *)
Definition replaces_path (s s' : TreeSyncDiff) (h i : Z) (path : list (ParentNodeIndex * ParentNode)) : Prop :=
  (forall j, leaf_at s' j = leaf_at s j) /\
  (forall k m, in_tree h k m -> 0 < k -> i / 2 ^ k <> m -> parent_at s' k m = parent_at s k m) /\
  (forall k, 0 < k <= h -> parent_at s' k (i / 2 ^ k) =
     (list_to_map (reverse path) : gmap Z ParentNode) !! pnode k (i / 2 ^ k)).

Lemma replace_path_spec s h i path : diff_wf (diff s) h -> leaf_in h i ->
  (forall p, p ∈ (path.*1) -> p ∈ direct_path i (tree_size h)) ->
  let d1 := blank_path (AbDiff_direct_path (diff s) i) (diff s) in
  let s' := set_diff (write_path path d1) s in
  diff_wf (diff s') h /\ original_tree (diff s') = original_tree (diff s) /\
  leaf_diff (diff s') = leaf_diff (diff s) /\ replaces_path s s' h i path.
Proof.
  intros Hd Hi Hpath. cbv zeta. rewrite (members_direct_path s h) by done.
  set (d1 := blank_path _ (diff s)).
  assert (Hd1 : diff_wf d1 h) by (apply foldl_parent_mut_wf; [done|]; apply Forall_forall; intros p; by apply direct_path_range).
  assert (Hr : Forall (fun p => 0 <= p < 2 ^ h - 1) path.*1).
  { apply Forall_forall. intros p Hp. by apply (direct_path_range h i), Hpath. }
  destruct (write_path_wf d1 h path Hd1 Hr) as (Hd2 & Eo & El & Hl).
  assert (Hl1 : forall j, AbDiff_leaf d1 j = AbDiff_leaf (diff s) j) by (intros j; apply foldl_parent_mut_leaf).
  assert (Hp1 : forall p, AbDiff_parent d1 p = if decide (p ∈ direct_path i (tree_size h)) then None else AbDiff_parent (diff s) p).
  { intros p. unfold d1, blank_path. by rewrite foldl_parent_mut_parent by by apply direct_path_NoDup. }
  cbn [diff set_diff]. split_and!; [done| | |split_and!].
  - rewrite Eo. apply foldl_parent_mut_original.
  - rewrite El. apply foldl_parent_mut_leaf_diff.
  - intros j. unfold leaf_at. cbn [diff set_diff]. by rewrite Hl, Hl1.
  - intros k m Hin Hk Hne. unfold parent_at. cbn [diff set_diff]. rewrite write_path_parent.
    assert (Hn : pnode k m ∉ direct_path i (tree_size h)) by (by rewrite elem_of_direct_path).
    rewrite not_elem_of_list_to_map_1, Hp1, decide_False; [done|done|].
    rewrite fmap_reverse, elem_of_reverse. intros Hp. by apply Hn, Hpath.
  - intros k Hk. unfold parent_at. cbn [diff set_diff]. rewrite write_path_parent, Hp1, decide_True; [by destruct (_ !! _)|].
    apply elem_of_direct_path; [done|by apply in_tree_path; [|lia]|lia|done].
Qed.

(** After the path was replaced, the cache is still right off the path. *)
Lemma replaces_path_cache c s s' h i path l : hashed c s h -> diff_wf (diff s') h ->
  tree_hashes s' = tree_hashes s -> leaf_in h i -> replaces_path s s' h i path ->
  cache_for c s' h [(i, l)].
Proof.
  intros [(Hh & _ & Hlen) Hr] Hd Eh Hi (Hl & Hp & _).
  assert (Hat : forall k m, in_tree h k m -> hash_at s' k m = Some (hash_of c (leaf_at s) (parent_at s) (Z.to_nat k) m)).
  { intros k m Hin. unfold hash_at. rewrite Eh. by apply Hr. }
  split; [done|apply (dwf_size _ _ Hd)|rewrite Eh; lia| |apply NoDup_singleton| |].
  - by intros j x [= -> ->]%list_elem_of_singleton.
  - intros j Hj _ Hu. unfold unhashed in Hu. rewrite Hat in Hu; [by apply hash_of_nonempty in Hu|].
    destruct Hj as [[? ?] ?]. split; [lia|]. by rewrite Z.sub_0_r.
  - intros k m Hin Hall. assert (0 <= k <= h) as Hk by apply Hin. rewrite Hat by done. f_equal.
    apply (hash_of_ext _ h); rewrite Z2Nat.id by lia; [done|by intros|].
    intros j n Hj Hn E. symmetry. apply Hp; [done|lia|]. intros Ei. destruct (Hall i Hi) as [Hni _]; [|by apply Hni; left].
    rewrite <- E, <- Ei, Z.div_div by (pose proof (pow2_pos j); pose proof (pow2_pos (k - j)); lia).
    rewrite <- Z.pow_add_r by lia. do 2 f_equal. lia.
Qed.

(** The last steps of both appliers: hash the new leaf, then write it. *)
Lemma commit_leaf_spec c s h i l : diff_wf (diff s) h -> leaf_in h i -> cache_for c s h [(i, Some l)] ->
  exists root s', update_tree_hashes c [(i, Some l)] s = (Ok root, s') /\ hashes_only s s' /\
    hashed c (set_diff (replace_leaf (diff s') i (Some l)) s') h.
Proof.
  intros Hd Hi Hc. destruct (update_tree_hashes_spec c s h _ Hc) as (s' & E & Hf & Ho & Hr).
  eexists _, s'. split; [exact E|]. split; [done|]. split; [exact Hf|].
  assert (Ed : diff s' = diff s) by (by rewrite Ho).
  intros k m Hin _. change (hash_at (set_diff (replace_leaf (diff s') i (Some l)) s') k m) with (hash_at s' k m).
  rewrite (Hr k m Hin I). f_equal. apply (hash_of_ext _ h); rewrite ?Z2Nat.id by apply Hin; [done| |done].
  intros j Hj _. unfold leaf_at at 1. cbn [diff set_diff]. rewrite Ed, (AbDiff_leaf_replace _ h) by done.
  destruct (decide (j = i)) as [->|Hne].
  - apply patched_in; [apply NoDup_singleton|by left].
  - apply patched_out. cbn. by rewrite list_elem_of_singleton.
Qed.

(** New path nodes have no unmerged leaves, so the rules for parents hold. *)
Lemma parents_ok_path s s' h i l path : tree_sync_ok s h -> leaf_in h i ->
  (forall j, 0 <= j -> leaf_at s' j = if decide (j = i) then Some l else leaf_at s j) ->
  (forall k m, in_tree h k m -> 0 < k -> i / 2 ^ k <> m -> parent_at s' k m = parent_at s k m) ->
  (forall k, 0 < k <= h -> parent_at s' k (i / 2 ^ k) =
     (list_to_map (reverse path) : gmap Z ParentNode) !! pnode k (i / 2 ^ k)) ->
  Forall (fun x => unmerged_leaves x.2 = []) path -> (forall p, p ∈ (path.*1) -> p ∈ filtered_direct_path s i) ->
  parents_ok s' h.
Proof.
  intros Hts Hi Hl Hoff Hon Hempty Hfilt k m p Hin Hk E. pose proof (proj2 Hts) as Hok. pose proof Hi as [Hh [Hi0 _]].
  destruct (decide (i / 2 ^ k = m)) as [<-|Hne].
  - rewrite Hon in E by (destruct Hin; lia). apply elem_of_list_to_map_2 in E. rewrite elem_of_reverse in E.
    rewrite Forall_forall in Hempty. specialize (Hempty _ E). cbn in Hempty. split; rewrite ?Hempty.
    + constructor.
    + by intros j Hj%not_elem_of_nil.
    + by intros j ? ? Hj%not_elem_of_nil.
    + intros b Hb. apply (list_elem_of_fmap_2 fst), Hfilt in E. cbn [fst] in E.
      apply (filtered_direct_path_spec s h) in E as (j & Hj & Ej & Hs); [|done|done|destruct Hin; lia].
      assert (Hhalf : i / 2 ^ (k - 1) / 2 = i / 2 ^ k) by (rewrite path_step by lia; do 2 f_equal; lia).
      destruct (decide (i / 2 ^ (k - 1) = 2 * (i / 2 ^ k) + b)) as [Ei|Ei].
      * exists i. split_and!; [done|done|]. by rewrite Hl, decide_True by done.
      * exists j. split_and!; [done| |rewrite Hl by done; by case_decide].
        rewrite Ej. unfold flip. rewrite <- Hhalf in Ei |- *.
        destruct (Z.even (i / 2 ^ (k - 1))) eqn:Ev; [apply even_half in Ev|apply odd_half in Ev]; lia.
  - rewrite Hoff in E by done. destruct (Hok k m p Hin Hk E) as [Hs Hb Hinh Hboth].
    assert (Hother : forall j, 0 <= j -> j / 2 ^ k = m -> leaf_at s' j = leaf_at s j).
    { intros j Hj Ej. rewrite Hl by done. rewrite decide_False; [done|]. by intros ->. }
    split; [done| | |].
    3: { intros b Hb'. destruct (Hboth b Hb') as (w & Hw0 & Hw & Hws). exists w.
         by rewrite Hother by (done || by apply (child_below w k m b)). }
    + intros j Hj. destruct (Hb j Hj) as (? & ? & ?). by rewrite Hother.
    + intros j j' q Hj Hj' Eq. destruct (Hb j Hj) as (Hj0 & Ejm & _).
      assert (in_tree h j' (j / 2 ^ j')) as Hin' by (apply (below_in_tree h k m j); done || lia).
      rewrite Hoff in Eq; [by apply (Hinh j j' q)|done|lia|]. intros Eij. apply Hne. rewrite <- Ejm.
      replace k with (j' + (k - j')) by lia. rewrite !Z.pow_add_r, <- !Z.div_div by (pose proof (pow2_pos j'); pose proof (pow2_pos (k - j')); lia).
      by rewrite Eij.
Qed.

Lemma members_ok_path s s' h i l : members_ok s h -> is_Some (leaf_at s i) -> diff_wf (diff s') h ->
  original_tree (diff s') = original_tree (diff s) -> blanked_leaves s' = blanked_leaves s -> num_members s' = num_members s ->
  (forall j, 0 <= j -> leaf_at s' j = if decide (j = i) then Some l else leaf_at s j) -> members_ok s' h.
Proof.
  intros [_ Hf Hb Hn Ht Hmin Hlv] Hs Hd Eo Eb En Hl.
  assert (Et : total s' = total s) by (unfold total; by rewrite Eb, En).
  split; rewrite ?Et, ?Eb, ?En; try done.
  - unfold fits in *. by rewrite Eo.
  - intros j Hj. rewrite Hl by done. rewrite <- Hlv by done. destruct (decide (j = i)) as [->|]; [|done]. by split.
Qed.

Lemma filtered_direct_path_range s h i p : diff_wf (diff s) h -> p ∈ filtered_direct_path s i ->
  p ∈ direct_path i (tree_size h).
Proof.
  intros Hd (j & r & Hj & _)%keep_resolved_elem_of. rewrite (members_direct_path s h) in Hj by done.
  by apply list_elem_of_lookup_2 in Hj.
Qed.

Lemma length_filtered s h i : tree_sync_ok s h -> leaf_in h i ->
  length (filtered_copath s i) = length (filtered_direct_path s i).
Proof.
  intros Hok Hi. pose proof (mo_diff _ _ (proj1 Hok)) as Hd. unfold filtered_copath, filtered_direct_path, AbDiff_copath.
  destruct (Z.eq_dec h 0) as [->|].
  - assert (copath_resolutions s i = []) as ->.
    { unfold copath_resolutions. by rewrite (AbDiff_leaf_count_spec (diff s) 0) by done. }
    unfold keep_resolved. by rewrite !zip_with_nil_r.
  - pose proof (proj1 (proj1 Hi)). apply length_keep_resolved. rewrite (dwf_size _ _ Hd), copath_spec by (done || lia).
    rewrite (members_direct_path s h), length_direct_path by done. by rewrite length_map, length_below_root.
Qed.

(** What both appliers do to the tree: [leaf] at [i] above it the nodes of [path],
    chained to the leaf by [hash]. *)
Record path_applied (c : Ciphersuite) (s s' : TreeSyncDiff) (h i : Z) (leaf : LeafNode)
    (path path' : list (ParentNodeIndex * ParentNode)) (hash : bytes) : Prop := {
  pa_ok : tree_sync_ok s' h;
  pa_hashed : hashed c s' h;
  pa_original : original_tree (diff s') = original_tree (diff s);
  pa_leaves j : 0 <= j -> leaf_at s' j = if decide (j = i) then Some leaf else leaf_at s j;
  pa_off k m : in_tree h k m -> 0 < k -> i / 2 ^ k <> m -> parent_at s' k m = parent_at s k m;
  pa_on k : 0 < k <= h -> parent_at s' k (i / 2 ^ k) =
     (list_to_map (reverse path') : gmap Z ParentNode) !! pnode k (i / 2 ^ k);
  pa_same : Forall2 same_node path path';
  pa_chain : chained c hash path' (map (node_hash c s) (filtered_copath s i))
}.

Section Apply.
Context (c : Ciphersuite) (s : TreeSyncDiff) (h i : Z) (path : list (ParentNodeIndex * ParentNode)).
Context (Hready : ready c s h) (Hi : 0 <= i) (Hmember : is_Some (leaf_at s i)).
Context (Hpath : path.*1 = filtered_direct_path s i) (Hne : hashes_follow c s h path).
Context (Hnew : Forall (fun x => unmerged_leaves x.2 = []) path).

Lemma apply_leaf_in : leaf_in h i.
Proof.
  pose proof (proj1 Hready) as [Hm _]. split; [apply (dwf_height _ _ (mo_diff _ _ Hm))|].
  pose proof (members_leaf_lt s h i Hm Hi Hmember). lia.
Qed.

(** [process_update_path] followed by the hash and the write of the leaf. *)
Lemma process_update_path_spec :
  exists path' hash s2, process_update_path c i path s = (Ok hash, s2) /\
    forall leaf, exists root s3, update_tree_hashes c [(i, Some leaf)] s2 = (Ok root, s3) /\
      path_applied c s (set_diff (replace_leaf (diff s3) i (Some leaf)) s3) h i leaf path path' hash.
Proof.
  pose proof apply_leaf_in as Hin. pose proof (proj1 Hready) as Hok. pose proof (mo_diff _ _ (proj1 Hok)) as Hd.
  destruct (set_parent_hashes_spec c s h i path Hready Hin Hne) as (path' & hash & s1 & E1 & Ho1 & Hh1 & Hsame & Hch).
  { rewrite (length_filtered s h) by done. by rewrite <- Hpath, length_fmap. }
  assert (Ep : path'.*1 = path.*1) by (clear -Hsame; induction Hsame as [|x y ? ? [? _]]; cbn; congruence).
  assert (Hd1 : diff_wf (diff s1) h) by (by rewrite Ho1).
  destruct (replace_path_spec s1 h i path' Hd1 Hin) as (Hd2 & Eo & El & Hrep).
  { intros p. rewrite Ep, Hpath. by apply filtered_direct_path_range. }
  unfold process_update_path. run. rewrite E1. eexists path', hash, _. split; [reflexivity|]. intros leaf.
  cbn [set_diff diff]. set (s2 := set_diff (write_path path' _) _) in *.
  destruct (commit_leaf_spec c s2 h i leaf Hd2 Hin) as (root & s3 & E3 & Ho3 & Hh3).
  { by apply (replaces_path_cache c s1 s2 h i path' _ Hh1). }
  exists root, s3. split; [exact E3|]. destruct Hrep as (Hl & Hoff & Hon).
  assert (Hls : forall j, 0 <= j -> leaf_at (set_diff (replace_leaf (diff s3) i (Some leaf)) s3) j =
    if decide (j = i) then Some leaf else leaf_at s j).
  { intros j Hj. unfold leaf_at at 1. cbn [diff set_diff]. rewrite Ho3. cbn [diff set_hashes].
    rewrite (AbDiff_leaf_replace _ h) by done. destruct (decide (j = i)); [done|].
    fold (leaf_at s2 j). rewrite Hl, Ho1. done. }
  assert (Hoff' : forall k m, in_tree h k m -> 0 < k -> i / 2 ^ k <> m ->
    parent_at (set_diff (replace_leaf (diff s3) i (Some leaf)) s3) k m = parent_at s k m).
  { intros k m Hkm Hk Hnm. rewrite Ho3. etrans; [apply (Hoff k m Hkm Hk Hnm)|]. by rewrite Ho1. }
  assert (Hon' : forall k, 0 < k <= h -> parent_at (set_diff (replace_leaf (diff s3) i (Some leaf)) s3) k (i / 2 ^ k) =
    (list_to_map (reverse path') : gmap Z ParentNode) !! pnode k (i / 2 ^ k)).
  { intros k Hk. rewrite Ho3. apply (Hon k Hk). }
  assert (Eo' : original_tree (diff (set_diff (replace_leaf (diff s3) i (Some leaf)) s3)) = original_tree (diff s)).
  { cbn [diff set_diff]. rewrite Ho3. cbn [diff set_hashes replace_leaf original_tree with_diffs]. rewrite Ho1 in Eo. exact Eo. }
  split; try done. split.
  - apply (members_ok_path s _ h i leaf (proj1 Hok) Hmember); try done.
    + cbn [diff set_diff]. rewrite Ho3. by apply replace_leaf_wf; [|apply Hin].
    + rewrite Ho3. cbn. by rewrite Ho1.
    + rewrite Ho3. cbn. by rewrite Ho1.
  - apply (parents_ok_path s _ h i leaf path' Hok Hin Hls Hoff' Hon'); [|by rewrite Ep, Hpath].
    clear -Hsame Hnew. induction Hsame as [|x y path path' [_ [_ E]]]; [constructor|].
    apply Forall_cons in Hnew as [? ?]. constructor; [congruence|auto].
Qed.

End Apply.

(** The path a committer derives has no unmerged leaves and the keys it publishes. *)
Lemma zip_path (indices : list ParentNodeIndex) (keys : list bytes) : length indices = length keys ->
  (zip indices (map ParentNode_from keys)).*1 = indices /\
  Forall (fun x => unmerged_leaves x.2 = []) (zip indices (map ParentNode_from keys)) /\
  (forall c s h, hashes_follow c s h keys -> hashes_follow c s h (zip indices (map ParentNode_from keys))).
Proof.
  intros Hlen. split; [|split; [|intros c s h [Hne|?]; [left|by right]; by destruct indices, keys]]; [apply fst_zip; rewrite length_map; lia|].
  apply Forall_forall. intros [p n] Hin. apply elem_of_zip_r in Hin. apply list_elem_of_fmap in Hin as (k & -> & _). done.
Qed.

Lemma own_update_path_spec keypair signature c s h i params keys :
  let path := zip (filtered_direct_path s i) (map ParentNode_from keys) in
  ready c s h -> 0 <= i -> is_Some (leaf_at s i) -> hashes_follow c s h keys -> length (filtered_direct_path s i) = length keys ->
  exists leaf path' hash s',
    apply_own_update_path (Ok keypair) (fun tbs => Ok (signature tbs)) c i params path s = (Ok [keypair], s') /\
    (leaf_parent_hash leaf = Some hash /\ leaf_encryption_key (payload leaf) = keypair.1) /\ path_applied c s s' h i leaf path path' hash.
Proof.
  intros path Hr Hi Hs Hne Hlen. destruct (zip_path _ _ Hlen) as (Ep & Hnew & Hnp).
  destruct (process_update_path_spec c s h i path Hr Hi Hs Ep (Hnp _ _ _ Hne) Hnew) as (path' & hash & s2 & E2 & Hfin).
  set (tbs := {| leaf_encryption_key := keypair.1; leaf_signature_key := params_signature_key params;
    leaf_credential := params_credential params; leaf_capabilities := params_capabilities params;
    leaf_node_source := SourceCommit hash; leaf_extensions := params_extensions params |}).
  destruct (Hfin {| payload := tbs; leaf_signature := signature tbs |}) as (root & s3 & E3 & Hpa).
  eexists _, path', hash, _. split; [|split; [|exact Hpa]]; [|done].
  unfold apply_own_update_path, lift_state, new_with_parent_hash. run. rewrite E2. fold tbs. by rewrite E3.
Qed.

Lemma received_update_path_spec c s h i update_path :
  ready c s h -> 0 <= i -> is_Some (leaf_at s i) -> hashes_follow c s h (filtered_direct_path s i) ->
  let keys := up_public_keys update_path in
  let leaf := up_leaf_node update_path in
  let path := zip (filtered_direct_path s i) (map ParentNode_from keys) in
  if decide (length (filtered_direct_path s i) = length keys) then
    exists path' hash, chained c hash path' (map (node_hash c s) (filtered_copath s i)) /\
      match leaf_parent_hash leaf with
      | None => (apply_received_update_path c i update_path s).1 = Err MissingParentHash
      | Some hash' =>
        if decide (hash' = hash)
        then exists s', apply_received_update_path c i update_path s = (Ok tt, s') /\
          path_applied c s s' h i leaf path path' hash
        else (apply_received_update_path c i update_path s).1 = Err ParentHashMismatch
      end
  else apply_received_update_path c i update_path s = (Err PathLengthMismatch, s).
Proof.
  intros Hr Hi Hs Hne keys leaf path. pose proof (mo_diff _ _ (proj1 (proj1 Hr))) as Hd.
  pose proof (members_leaf_lt s h i (proj1 (proj1 Hr)) Hi Hs) as Hlt.
  unfold apply_received_update_path, lift_state. run. fold (leaf_at s i). rewrite bool_decide_true by done. cbn [negb orb].
  rewrite (proj2 (Z.leb_gt _ _)) by (unfold tsd_leaf_count; rewrite (AbDiff_leaf_count_spec _ h) by done; done).
  fold keys. fold leaf. fold path. destruct (decide (_ = _)) as [Hlen|Hlen].
  2: { rewrite (proj2 (Nat.eqb_neq _ _)) by done. done. }
  rewrite Hlen, Nat.eqb_refl. cbn [negb]. destruct (zip_path _ _ Hlen) as (Ep & Hnew & Hnp).
  assert (Hk : hashes_follow c s h keys). { destruct Hne as [Hne|]; [left|by right]. intros E. rewrite E in Hlen. by destruct (filtered_direct_path s i). }
  destruct (process_update_path_spec c s h i path Hr Hi Hs Ep (Hnp _ _ _ Hk) Hnew) as (path' & hash & s2 & E2 & Hfin).
  destruct (Hfin leaf) as (root & s3 & E3 & Hpa). rewrite E2. exists path', hash. split; [apply Hpa|].
  destruct (leaf_parent_hash leaf) as [hash'|]; [|done]. destruct (decide (hash' = hash)) as [->|Hneq].
  - rewrite bool_decide_true by done. cbn [negb]. rewrite E3. eexists. split; [done|exact Hpa].
  - rewrite bool_decide_false by done. done.
Qed.

(** ** Theorems *)

(** When a member commits, its new leaf and path are installed consistently:
    nothing changes off its direct path, the path holds the new nodes, the
    parent hashes form the chain of the protocol from the root down to the
    signed leaf, every entry of the tree hash cache is right afterwards, and the
    root hash that goes into the group context is the recursive tree hash of
    the new tree.  This holds for every path with a node, and for a path without
    nodes when no leaf was changed before it since the cache was right; after a
    removal of all other members the path has no nodes and the hash is stale
    ([empty_path_leaves_stale_hash]). *)
Theorem own_update_path_correct keypair signature c s h i params keys :
  let path := zip (filtered_direct_path s i) (map ParentNode_from keys) in
  ready c s h -> 0 <= i -> is_Some (leaf_at s i) -> hashes_follow c s h keys -> length (filtered_direct_path s i) = length keys ->
  exists leaf path' hash s',
    apply_own_update_path (Ok keypair) (fun tbs => Ok (signature tbs)) c i params path s = (Ok [keypair], s') /\
    leaf_parent_hash leaf = Some hash /\ path_applied c s s' h i leaf path path' hash /\
    root_hash s' = compute_tree_hash c s' (root (diff_size (diff s'))) [].
Proof.
  intros path Hr Hi Hs Hne Hlen.
  destruct (own_update_path_spec keypair signature c s h i params keys Hr Hi Hs Hne Hlen) as (leaf & path' & hash & s' & E & [Hp _] & Hpa).
  exists leaf, path', hash, s'. split_and!; [done..|]. apply (root_hash_spec c s' h), Hpa.
Qed.

(** The receiver of a path repeats what the committer did. *)
Lemma received_path_agrees keypair sign c s i params keys kps s' leaf :
  is_Some (leaf_at s i) -> i < tsd_leaf_count s -> length (filtered_direct_path s i) = length keys ->
  apply_own_update_path keypair sign c i params (zip (filtered_direct_path s i) (map ParentNode_from keys)) s = (Ok kps, s') ->
  leaf_at s' i = Some leaf ->
  apply_received_update_path c i {| up_leaf_node := leaf; up_public_keys := keys |} s = (Ok tt, s').
Proof.
  intros Hs Hi Hlen. unfold apply_own_update_path, apply_received_update_path, lift_state, new_with_parent_hash. run.
  fold (leaf_at s i). rewrite bool_decide_true by done. cbn [negb orb]. rewrite (proj2 (Z.leb_gt _ _)) by done.
  cbn [up_public_keys up_leaf_node]. rewrite Hlen, Nat.eqb_refl. cbn [negb].
  destruct (process_update_path c i _ s) as [[hash|e|] s2]; [|discriminate..].
  destruct keypair as [[pk sk]|e|]; [|discriminate..]. cbn [fst]. destruct (sign _) as [sig|e|]; [|discriminate..].
  match goal with |- context [update_tree_hashes c [(i, Some ?l)] s2] => set (new_leaf := l) end.
  destruct (update_tree_hashes c [(i, Some new_leaf)] s2) as [[root|e|] s3] eqn:E3; [|discriminate..].
  intros [= <- <-] Hleaf. unfold leaf_at, AbDiff_leaf in Hleaf. cbn in Hleaf. rewrite lookup_insert_eq in Hleaf.
  injection Hleaf as <-. cbn [leaf_parent_hash new_leaf payload leaf_node_source]. rewrite bool_decide_true by done. cbn [negb].
  by rewrite E3.
Qed.

(** C18: committer and receivers agree: whenever a member's commit succeeds, a
    member in the same state that receives the new leaf and the public keys of
    the path accepts them and ends in the same state, cached hashes included. *)
Theorem received_update_path_agrees keypair sign c s i params keys kps s' leaf :
  is_Some (leaf_at s i) -> i < tsd_leaf_count s -> length (filtered_direct_path s i) = length keys ->
  apply_own_update_path keypair sign c i params (zip (filtered_direct_path s i) (map ParentNode_from keys)) s = (Ok kps, s') ->
  leaf_at s' i = Some leaf ->
  apply_received_update_path c i {| up_leaf_node := leaf; up_public_keys := keys |} s = (Ok tt, s').
Proof. apply received_path_agrees. Qed.

(** A received path with at least one node is judged exactly by its length and
    its parent hash: it is refused, before anything changes, when it does not
    have a key for each node of the filtered direct path; refused when the leaf
    carries no or another parent hash than the chain ends in; and accepted
    otherwise, with the effect a commit has. *)
Theorem received_update_path_correct c s h i update_path :
  ready c s h -> 0 <= i -> is_Some (leaf_at s i) -> hashes_follow c s h (filtered_direct_path s i) ->
  let keys := up_public_keys update_path in
  let leaf := up_leaf_node update_path in
  let path := zip (filtered_direct_path s i) (map ParentNode_from keys) in
  if decide (length (filtered_direct_path s i) = length keys) then
    exists path' hash, chained c hash path' (map (node_hash c s) (filtered_copath s i)) /\
      match leaf_parent_hash leaf with
      | None => (apply_received_update_path c i update_path s).1 = Err MissingParentHash
      | Some hash' =>
        if decide (hash' = hash)
        then exists s', apply_received_update_path c i update_path s = (Ok tt, s') /\
          path_applied c s s' h i leaf path path' hash
        else (apply_received_update_path c i update_path s).1 = Err ParentHashMismatch
      end
  else apply_received_update_path c i update_path s = (Err PathLengthMismatch, s).
Proof. apply received_update_path_spec. Qed.

End UpdatePaths.

(** ** Witnesses *)

Lemma sample_changed_ready : @ready toy_hashing hash_suite sample_changed 2.
Proof.
  destruct hashed_single_ok as [Hok Hh].
  pose proof (@hashed_cache_ok toy_hashing toy_hash_laws hash_suite _ 0 (mo_diff _ _ (proj1 Hok)) Hh) as Hc.
  destruct (@cache_ok_steps toy_hashing hash_suite _ _ 0 Hok Hc sample_changed_steps)
    as (h & _ & Hok' & Hc').
  pose proof (dwf_size _ _ (mo_diff _ _ (proj1 Hok'))) as E.
  replace (diff_size (diff sample_changed)) with (tree_size 2) in E by (vm_compute; reflexivity).
  destruct (dwf_height _ _ (mo_diff _ _ (proj1 Hok'))).
  assert (h = 2) as ->; [|by split]. unfold tree_size in E.
  assert (2 + 1 = h + 1); [|lia]. apply (Z.pow_inj_r 2); lia.
Qed.

Definition sample_params : UpdateLeafNodeParams := {|
  params_credential := {| credential_type := CredBasic; serialized_credential_content := [1] |};
  params_signature_key := [1]; params_capabilities := Capabilities_default; params_extensions := [] |}.

(** The commit of the first member of [sample_changed]. *)
Definition sample_commit :=
  @apply_own_update_path toy_hashing (Ok ([11], [12])) (fun _ => Ok [0]) hash_suite 0 sample_params
    (zip (filtered_direct_path sample_changed 0) (map ParentNode_from [[9]])) sample_changed.

Lemma sample_member : is_Some (leaf_at sample_changed 0).
Proof. vm_compute. eauto. Qed.

Lemma own_update_path_correct_witness :
  exists leaf path' hash s', sample_commit = (Ok [([11], [12])], s') /\
    @path_applied toy_hashing hash_suite sample_changed s' 2 0 leaf
      (zip (filtered_direct_path sample_changed 0) (map ParentNode_from [[9]])) path' hash.
Proof.
  destruct (@own_update_path_correct toy_hashing toy_hash_laws ([11], [12]) (fun _ => [0]) hash_suite sample_changed 2 0
    sample_params [[9]] sample_changed_ready ltac:(lia) sample_member ltac:(left; discriminate) ltac:(vm_compute; reflexivity))
    as (leaf & path' & hash & s' & E & _ & Hpa & _).
  exists leaf, path', hash, s'. split; [exact E|exact Hpa].
Defined.

Lemma received_update_path_agrees_witness :
  exists leaf, (@apply_received_update_path toy_hashing hash_suite 0
     {| up_leaf_node := leaf; up_public_keys := [[9]] |} sample_changed) = (Ok tt, sample_commit.2).
Proof.
  destruct (leaf_at sample_commit.2 0) as [leaf|] eqn:E; [|vm_compute in E; discriminate].
  exists leaf. apply (@received_update_path_agrees toy_hashing (Ok ([11], [12])) (fun _ => Ok [0]) hash_suite
    sample_changed 0 sample_params [[9]] [([11], [12])]).
  - exact sample_member.
  - vm_compute. reflexivity.
  - vm_compute. reflexivity.
  - vm_compute. reflexivity.
  - exact E.
Defined.

Lemma received_update_path_correct_witness :
  @apply_received_update_path toy_hashing hash_suite 0 {| up_leaf_node := sample_leaf 1; up_public_keys := [] |}
    sample_changed = (Err PathLengthMismatch, sample_changed).
Proof.
  pose proof (@received_update_path_correct toy_hashing toy_hash_laws hash_suite sample_changed 2 0
    {| up_leaf_node := sample_leaf 1; up_public_keys := [] |} sample_changed_ready ltac:(lia) sample_member) as H.
  specialize (H ltac:(left; vm_compute; discriminate)). cbv zeta in H. rewrite decide_False in H by (vm_compute; discriminate).
  exact H.
Defined.

(** ** The cache after an empty path *)

(** Two members whose hashes are up to date. *)
Definition hashed_two : TreeSyncDiff :=
  let s := (add_leaf (sample_leaf 2) hashed_single).2 in
  (@update_tree_hashes toy_hashing hash_suite (diff_leaves (diff s)) s).2.

(** The first of them removes the second: its path is empty. *)
Definition removal_commit :=
  @apply_own_update_path toy_hashing (Ok ([11], [12])) (fun _ => Ok [0]) hash_suite 0 sample_params []
    (blank_leaf 1 hashed_two).

(** The tree hash is wrong after a commit with an empty path, which is not only the path
    of a tree with one leaf, as the comment in [set_parent_hashes] says: in a
    group of two whose cache is right, one member removes the other, the
    filtered direct path is empty, [set_parent_hashes] returns before the
    hashes of the changed leaves are updated, and the root hash differs from
    the tree hash of the tree.  When a member is added by a commit without a
    path and the tree grows, there is no entry for the root at all and reading
    the root hash panics. *)
Theorem empty_path_leaves_stale_hash :
  root_hash hashed_two = @compute_tree_hash toy_hashing hash_suite hashed_two (root (diff_size (diff hashed_two))) [] /\
  filtered_direct_path (blank_leaf 1 hashed_two) 0 = [] /\
  removal_commit.1 = Ok [([11], [12])] /\
  root_hash removal_commit.2 <>
    @compute_tree_hash toy_hashing hash_suite removal_commit.2 (root (diff_size (diff removal_commit.2))) [] /\
  root_hash (add_leaf (sample_leaf 2) hashed_single).2 = Panic.
Proof. split_and!; vm_compute; (reflexivity || discriminate). Qed.
