(* ===== verification/TreeKem.v ===== *)
(** * TreeKEM: path secrets and their distribution

    Models the derivation of a path from a path secret ([PathSecret] in
    [messages/mod.rs], [ParentNode::derive_path]), the labelled public-key
    encryption ([ciphersuite/hpke.rs], [encryption_keys.rs]) and the encryption
    and decryption of update paths ([treesync/treekem.rs] and the wrapper in
    [group/public_group/diff.rs]).

    The theorem is the correctness of TreeKEM for one commit: every member that is
    not excluded recovers, from the one ciphertext addressed to it, the path
    secret of the lowest node it shares with the committer, and derives the
    committer's key pairs and commit secret from it. *)

From Stdlib Require Import String.
From S2P Require Import Prelude Crypto TreeMath SortedIter BinaryTree LeafNodes Nodes TreeSyncDiff TreeHash UpdatePaths.

(** ** Public-key encryption *)

Record HpkeCiphertext := mkHpkeCiphertext { kem_output : bytes; hpke_ciphertext : bytes }.

Class OpenMlsHpke := {
  (** [derive_hpke_keypair(config, ikm)]: the public and the private key *)
  provider_derive_hpke_keypair :
    HpkeKemType * HpkeKdfType * HpkeAeadType -> bytes -> outcome CryptoError (bytes * bytes);
  (** [hpke_seal(config, pk_r, info, aad, ptxt)] *)
  provider_hpke_seal : HpkeKemType * HpkeKdfType * HpkeAeadType -> bytes -> bytes -> bytes -> bytes ->
    outcome CryptoError HpkeCiphertext;
  (** [hpke_open(config, input, sk_r, info, aad)] *)
  provider_hpke_open : HpkeKemType * HpkeKdfType * HpkeAeadType -> HpkeCiphertext -> bytes -> bytes -> bytes ->
    outcome CryptoError bytes;
  (** [tls_serialize_detached] of an [EncryptContext { label, context }] *)
  encrypt_context_tls_serialize : bytes -> bytes -> option bytes
}.

Inductive HpkeError := MissingBoundCheck | DecryptionFailed.

Abbreviation PathSecret := bytes (only parsing).
Abbreviation CommitSecret := bytes (only parsing).

Record PlainUpdatePathNode := mkPlainUpdatePathNode {
  plain_public_key : bytes;
  plain_path_secret : PathSecret
}.

Record UpdatePathNode := mkUpdatePathNode {
  node_public_key : bytes;
  encrypted_path_secrets : list HpkeCiphertext
}.

Record DecryptPathParams := mkDecryptPathParams {
  dp_update_path : list UpdatePathNode;
  dp_sender_leaf_index : LeafNodeIndex;
  dp_exclusion_list : list LeafNodeIndex;
  dp_group_context : bytes
}.

Section TreeKem.
Context `{!OpenMlsCrypto} `{!OpenMlsHpke}.

Definition encrypt_with_label (public_key : bytes) (label : string) (context plaintext : bytes)
    (c : Ciphersuite) : outcome HpkeError HpkeCiphertext :=
  context ← ok_or (encrypt_context_tls_serialize (str_bytes ("MLS 1.0 " ++ label)) context) MissingBoundCheck;
  map_err (fun _ => DecryptionFailed)
    (provider_hpke_seal (hpke_config c) public_key context [] plaintext).

Definition decrypt_with_label (private_key : bytes) (label : string) (context : bytes)
    (ciphertext : HpkeCiphertext) (c : Ciphersuite) : outcome HpkeError bytes :=
  context ← ok_or (encrypt_context_tls_serialize (str_bytes ("MLS 1.0 " ++ label)) context) MissingBoundCheck;
  map_err (fun _ => DecryptionFailed)
    (provider_hpke_open (hpke_config c) ciphertext private_key context []).

Definition EncryptionKey_encrypt (key : bytes) (c : Ciphersuite) (context plaintext : bytes) :
    outcome LibraryError HpkeCiphertext :=
  map_err (fun _ => LibraryCustom) (encrypt_with_label key "UpdatePathNode" context plaintext c).

Definition EncryptionPrivateKey_decrypt (key : bytes) (c : Ciphersuite) (ciphertext : HpkeCiphertext)
    (group_context : bytes) : outcome HpkeError Secret :=
  decrypt_with_label key "UpdatePathNode" group_context ciphertext c.

(** ** Path secrets *)

Definition derive_key_pair (path_secret : PathSecret) (c : Ciphersuite) : outcome LibraryError EncryptionKeyPair :=
  node_secret ← map_err LibraryCryptoError (kdf_expand_label path_secret c "node" [] (hash_length c));
  map_err LibraryCryptoError (provider_derive_hpke_keypair (hpke_config c) node_secret).

Definition derive_path_secret (path_secret : PathSecret) (c : Ciphersuite) : outcome LibraryError PathSecret :=
  map_err LibraryCryptoError (kdf_expand_label path_secret c "path" [] (hash_length c)).

(** The first loop of [derive_path]: one secret per node and the next one. *)
Fixpoint path_secrets (c : Ciphersuite) (n : nat) (next_path_secret : PathSecret) :
    outcome LibraryError (list PathSecret * PathSecret) :=
  match n with
  | O => Ok ([], next_path_secret)
  | S n =>
    let path_secret := next_path_secret in
    next_path_secret ← derive_path_secret path_secret c;
    '(secrets, last) ← path_secrets c n next_path_secret;
    Ok (path_secret :: secrets, last)
  end.

(** The closure of the second loop. *)
Definition derive_node (c : Ciphersuite) (secret_index : PathSecret * ParentNodeIndex) :
    outcome LibraryError ((ParentNodeIndex * ParentNode) * EncryptionKeyPair * PlainUpdatePathNode) :=
  let '(path_secret, index) := secret_index in
  keypair ← derive_key_pair path_secret c;
  let parent_node := ParentNode_from keypair.1 in
  Ok ((index, parent_node), keypair, {| plain_public_key := keypair.1; plain_path_secret := path_secret |}).

Definition derive_path (c : Ciphersuite) (path_secret : PathSecret) (path_indices : list ParentNodeIndex) :
    outcome LibraryError
      (list (ParentNodeIndex * ParentNode) * list PlainUpdatePathNode * list EncryptionKeyPair * CommitSecret) :=
  '(secrets, next_path_secret) ← path_secrets c (length path_indices) path_secret;
  results ← mapM (derive_node c) (zip secrets path_indices);
  Ok (map (fun r => r.1.1) results, map snd results, map (fun r => r.1.2) results, next_path_secret).

Definition PathSecret_encrypt (path_secret : PathSecret) (c : Ciphersuite) (public_key group_context : bytes) :
    outcome LibraryError HpkeCiphertext :=
  EncryptionKey_encrypt public_key c group_context path_secret.

Definition PathSecret_decrypt (c : Ciphersuite) (ciphertext : HpkeCiphertext) (private_key group_context : bytes) :
    outcome HpkeError PathSecret :=
  EncryptionPrivateKey_decrypt private_key c ciphertext group_context.

Definition PlainUpdatePathNode_encrypt (node : PlainUpdatePathNode) (c : Ciphersuite)
    (public_keys : list bytes) (group_context : bytes) : outcome LibraryError UpdatePathNode :=
  encrypted_path_secrets ← mapM (fun pk => PathSecret_encrypt (plain_path_secret node) c pk group_context) public_keys;
  Ok {| node_public_key := plain_public_key node; encrypted_path_secrets := encrypted_path_secrets |}.

Definition encrypt_path (c : Ciphersuite) (path : list PlainUpdatePathNode) (group_context : bytes)
    (copath_resolutions : list (list bytes)) : outcome LibraryError (list UpdatePathNode) :=
  mapM (fun '(node, resolution) => PlainUpdatePathNode_encrypt node c resolution group_context)
    (zip path copath_resolutions).

(** The loop that compares the derived public keys with the received ones. *)
Definition keys_match (received : list UpdatePathNode) (derived : list (ParentNodeIndex * ParentNode)) : bool :=
  forallb (fun '(node, (_, parent)) => bool_decide (node_public_key node = parent_encryption_key parent))
    (zip received derived).

Definition decrypt_path (s : TreeSyncDiff) (c : Ciphersuite) (params : DecryptPathParams)
    (owned_keys : list EncryptionKeyPair) (own_leaf_index : LeafNodeIndex)
    (common_path : list ParentNodeIndex) (path_position : nat) :
    outcome ApplyUpdatePathError (list EncryptionKeyPair * CommitSecret) :=
  update_path_node ← ok_or (dp_update_path params !! path_position) (ApplyLibraryError LibraryCustom);
  '(key, resolution_position) ← map_err (fun _ => ApplyLibraryError LibraryCustom)
    (decryption_key s (dp_sender_leaf_index params) (dp_exclusion_list params) owned_keys own_leaf_index);
  ciphertext ← ok_or (encrypted_path_secrets update_path_node !! resolution_position)
    (ApplyLibraryError LibraryCustom);
  path_secret ← map_err (fun _ => UnableToDecrypt)
    (PathSecret_decrypt c ciphertext key (dp_group_context params));
  '(derived_path, _, keypairs, commit_secret) ← map_err ApplyLibraryError (derive_path c path_secret common_path);
  if keys_match (drop path_position (dp_update_path params)) derived_path
  then Ok (keypairs, commit_secret)
  else Err PathMismatch.

(** The wrapper of [PublicGroupDiff], for a serialised group context. *)
Definition PublicGroupDiff_decrypt_path (s : TreeSyncDiff) (c : Ciphersuite) (group_context : bytes)
    (owned_keys : list EncryptionKeyPair) (own_leaf_index sender_leaf_index : LeafNodeIndex)
    (update_path : list UpdatePathNode) (exclusion_list : list LeafNodeIndex) :
    outcome ApplyUpdatePathError (list EncryptionKeyPair * CommitSecret) :=
  let params := {| dp_update_path := update_path; dp_sender_leaf_index := sender_leaf_index;
                   dp_exclusion_list := exclusion_list; dp_group_context := group_context |} in
  path_position ← map_err (fun _ => ApplyLibraryError LibraryCustom)
    (subtree_root_position s sender_leaf_index own_leaf_index);
  let common_path := filtered_common_direct_path s own_leaf_index sender_leaf_index in
  decrypt_path s c params owned_keys own_leaf_index common_path path_position.

(** What the committer encrypts to: the keys of the filtered copath resolutions. *)
Definition copath_keys (s : TreeSyncDiff) (leaf_index : LeafNodeIndex) (exclusion_list : list LeafNodeIndex) :
    list (list bytes) :=
  map (map (fun x => reference_key x.2)) (filtered_copath_resolutions s leaf_index exclusion_list).

End TreeKem.

(** ** Filtered paths, by level *)

(** The copath node at level [k - 1] of leaf [i] has a non-empty resolution. *)
Definition copath_ref (s : TreeSyncDiff) (i k : Z) (excluded : list LeafNodeIndex) :
    list (TreeNodeIndex * NodeReference) :=
  resolution_ref s (Z.to_nat (k - 1)) (flip (i / 2 ^ (k - 1))) excluded.

Definition kept (s : TreeSyncDiff) (i k : Z) : bool := negb (is_empty (copath_ref s i k [])).

(** The levels of the filtered direct path of leaf [i] among [ks]. *)
Definition kept_levels (s : TreeSyncDiff) (i : Z) (ks : list Z) : list Z := List.filter (kept s i) ks.

Section Levels.
Context (s : TreeSyncDiff) (h : Z) (Hok : tree_sync_ok s h).

Lemma levels_lookup (n : nat) : (n < Z.to_nat h)%nat -> seqZ 1 h !! n = Some (Z.of_nat n + 1).
Proof. intros Hn. rewrite lookup_seqZ_lt by lia. f_equal. lia. Qed.

Lemma direct_path_levels i : leaf_in h i ->
  direct_path i (tree_size h) = map (fun k => pnode k (i / 2 ^ k)) (seqZ 1 h).
Proof.
  intros Hi. apply list_eq. intros n. rewrite list_lookup_fmap. destruct (decide (n < Z.to_nat h)%nat).
  - by rewrite direct_path_lookup, levels_lookup.
  - rewrite !lookup_ge_None_2; [done|rewrite length_seqZ; lia|rewrite length_direct_path by done; lia].
Qed.

Lemma copath_resolutions_levels i : leaf_in h i ->
  copath_resolutions s i = map (fun k => copath_ref s i k []) (seqZ 1 h).
Proof.
  intros Hi. pose proof (mo_diff _ _ (proj1 Hok)) as Hd. destruct (Z.eq_dec h 0) as [E|Hh].
  { unfold copath_resolutions. by rewrite (AbDiff_leaf_count_spec _ h), E by done. }
  pose proof Hi as [[? _] _]. apply list_eq. intros n. rewrite list_lookup_fmap. destruct (decide (n < Z.to_nat h)%nat).
  - rewrite (copath_resolution_lookup s h), levels_lookup by done. cbn [fmap option_fmap option_map]. unfold copath_ref.
    replace (Z.of_nat n + 1 - 1) with (Z.of_nat n) by lia. by rewrite Nat2Z.id.
  - rewrite !lookup_ge_None_2; [done|rewrite length_seqZ; lia|]. unfold copath_resolutions.
    destruct (_ =? _); [cbn; lia|]. rewrite length_map. unfold AbDiff_copath.
    rewrite (dwf_size _ _ Hd), copath_spec, length_map, length_below_root by (done || lia). lia.
Qed.

Lemma keep_resolved_map {A R} (f : Z -> A) (g : Z -> list R) ks :
  keep_resolved (map f ks) (map g ks) = map f (List.filter (fun k => negb (is_empty (g k))) ks).
Proof.
  unfold keep_resolved. induction ks as [|k ks IH]; cbn; [done|]. destruct (g k); cbn; [done|]. by f_equal.
Qed.

Lemma filtered_direct_path_levels i : leaf_in h i ->
  filtered_direct_path s i = map (fun k => pnode k (i / 2 ^ k)) (kept_levels s i (seqZ 1 h)).
Proof.
  intros Hi. unfold filtered_direct_path.
  rewrite (members_direct_path s h), copath_resolutions_levels, direct_path_levels by (done || apply Hok).
  apply keep_resolved_map.
Qed.

(** Excluding leaves from a resolution, during or after its computation. *)
Lemma keep_included_app ex l1 l2 : keep_included ex (l1 ++ l2) = keep_included ex l1 ++ keep_included ex l2.
Proof. apply omap_app. Qed.

Lemma keep_included_listed ex leaves : keep_included ex (listed_leaves s [] leaves) = listed_leaves s ex leaves.
Proof.
  unfold listed_leaves. induction leaves as [|i leaves IH]; cbn [map concat]; [done|].
  rewrite keep_included_app, IH. f_equal. change (mem i []) with false. cbv iota. unfold leaf_resolution.
  destruct (AbDiff_leaf (diff s) i); cbn; by destruct (mem i ex).
Qed.

Lemma keep_included_ref ex k m : keep_included ex (resolution_ref s k m []) = resolution_ref s k m ex.
Proof.
  revert m. induction k as [|k IH]; intros m; cbn [resolution_ref]; [apply keep_included_listed|].
  destruct (parent_at s (Z.of_nat (S k)) m) as [p|].
  - change (?x :: ?l) with ([x] ++ l). rewrite keep_included_app, keep_included_listed. done.
  - by rewrite keep_included_app, !IH.
Qed.

Lemma filtered_copath_resolutions_levels i ex : leaf_in h i ->
  filtered_copath_resolutions s i ex = map (fun k => copath_ref s i k ex) (kept_levels s i (seqZ 1 h)).
Proof.
  intros Hi. pose proof (mo_diff _ _ (proj1 Hok)) as Hd. unfold filtered_copath_resolutions.
  rewrite (AbDiff_leaf_count_spec _ h) by done. destruct (Z.eq_dec h 0) as [E0|Hh]; [by rewrite E0|].
  pose proof Hi as [[? _] _]. pose proof (pow2_le 1 h). rewrite (proj2 (Z.eqb_neq (2 ^ h) 1)) by lia.
  unfold AbDiff_copath. rewrite (dwf_size _ _ Hd), copath_spec by (done || lia).
  assert (E : below_root h i = map (fun k => (k - 1, i / 2 ^ (k - 1))) (seqZ 1 h)).
  { apply list_eq. intros n. rewrite list_lookup_fmap. destruct (decide (n < Z.to_nat h)%nat).
    - rewrite below_root_lookup, levels_lookup by done. cbn. do 3 f_equal; [lia|]. do 2 f_equal. lia.
    - rewrite !lookup_ge_None_2; [done|rewrite length_seqZ; lia|rewrite length_below_root; lia]. }
  rewrite E, map_map. cbn [fst snd]. unfold kept_levels.
  assert (Hr : forall k, k ∈ seqZ 1 h -> resolution s (index_at (k - 1) (flip (i / 2 ^ (k - 1)))) [] (rightmost_full_leaf s) = copath_ref s i k []).
  { intros k Hk%elem_of_seqZ. apply (resolution_spec s h); [done|]. apply in_tree_flip; [|lia]. apply in_tree_path; [done|lia]. }
  clear E. induction (seqZ 1 h) as [|k ks IH]; [done|]. cbn [map omap list_omap List.filter]. rewrite Hr by (by left).
  rewrite IH by (intros k' Hk'; apply Hr; by right). unfold kept. destruct (is_empty (copath_ref s i k [])) eqn:Ee; cbn [negb]; [done|].
  cbn [map]. f_equal. apply keep_included_ref.
Qed.

End Levels.

(** ** The part of the path two members share *)

Lemma meet_flip i j k : meet_at i j k -> 0 < k -> flip (i / 2 ^ (k - 1)) = j / 2 ^ (k - 1).
Proof.
  intros (_ & E & Hne) Hk. specialize (Hne (k - 1) ltac:(lia)).
  assert (Hhalf : forall x, x / 2 ^ (k - 1) / 2 = x / 2 ^ k) by (intros x; rewrite path_step by lia; do 2 f_equal; lia).
  pose proof (Hhalf j) as Ej. rewrite <- E, <- (Hhalf i) in Ej. clear -Ej Hne. unfold flip.
  generalize dependent (j / 2 ^ (k - 1)). generalize (i / 2 ^ (k - 1)). intros x y Exy Hne.
  pose proof (Z.div_mod x 2). pose proof (Z.div_mod y 2). pose proof (Z.mod_pos_bound x 2). pose proof (Z.mod_pos_bound y 2).
  destruct (Z.even x) eqn:Ev; [apply even_half in Ev|apply odd_half in Ev]; lia.
Qed.

Lemma position_spec {A} (p : A -> bool) (l1 l2 : list A) x :
  (forall y, y ∈ l1 -> p y = false) -> p x = true -> position p (l1 ++ x :: l2) = Some (length l1).
Proof.
  intros H1 Hx. induction l1 as [|y l1 IH]; cbn [position app length]; [by rewrite Hx|].
  rewrite H1 by (by left). rewrite IH by (intros z Hz; apply H1; by right). done.
Qed.

Section Shared.
Context (s : TreeSyncDiff) (h i j k : Z) (Hok : tree_sync_ok s h).
Context (Hi : leaf_in h i) (Hj : leaf_in h j) (Hne : i <> j) (Hmeet : meet_at i j k).
Context (Hmi : is_Some (leaf_at s i)) (Hmj : is_Some (leaf_at s j)).

Lemma meet_range : 0 < k <= h.
Proof.
  destruct Hmeet as (Hk & E & Hlow). split.
  - destruct (Z.eq_dec k 0) as [->|]; [|lia]. rewrite !Z.div_1_r in E. lia.
  - destruct (meet_at_exists h i j Hi Hj) as (q & Hq & ?). rewrite (meet_at_unique _ _ _ _ Hmeet Hq). lia.
Qed.

Lemma meet_sym : meet_at j i k.
Proof. destruct Hmeet as (Hk & E & Hlow). split_and!; [done..|]. intros l Hl El. by apply (Hlow l). Qed.

Lemma kept_above l : k < l -> kept s i l = kept s j l.
Proof.
  intros Hl. unfold kept, copath_ref. by rewrite (meet_at_above i j k (l - 1)) by (done || lia).
Qed.

Lemma kept_meet x y : meet_at x y k -> leaf_in h x -> is_Some (leaf_at s y) -> leaf_in h y -> kept s x k = true.
Proof.
  intros Hm Hx Hs [_ [Hy _]]. pose proof meet_range as Hk. unfold kept.
  assert (Hin : in_tree h (k - 1) (flip (x / 2 ^ (k - 1)))) by (apply in_tree_flip; [apply in_tree_path; [done|lia]|lia]).
  assert (copath_ref s x k [] <> []) as Hc; [|by destruct (copath_ref s x k [])].
  pose proof (resolution_ref_covers s h (Z.to_nat (k - 1)) (flip (x / 2 ^ (k - 1))) Hok) as Hcov.
  rewrite Z2Nat.id in Hcov by lia. apply (covers_nonempty _ _ _ _ (Hcov Hin)).
  exists y. split_and!; [done|by rewrite (meet_flip x y) by (done || lia)|done].
Qed.

(** The levels of a filtered path: below, at and above the shared node. *)
Lemma kept_levels_split x : kept s x k = true ->
  kept_levels s x (seqZ 1 h) = kept_levels s x (seqZ 1 (k - 1)) ++ k :: kept_levels s x (seqZ (k + 1) (h - k)).
Proof.
  intros Hkeep. pose proof meet_range. unfold kept_levels.
  replace h with (k - 1 + (1 + (h - k))) at 1 by lia. rewrite seqZ_app by lia. rewrite List.filter_app. f_equal.
  rewrite seqZ_cons by lia. cbn [List.filter]. replace (1 + (k - 1)) with k by lia. rewrite Hkeep. do 2 f_equal.
  replace (Z.succ k) with (k + 1) by lia. f_equal. lia.
Qed.

Definition above : list ParentNodeIndex :=
  map (fun l => pnode l (i / 2 ^ l)) (k :: kept_levels s i (seqZ (k + 1) (h - k))).
Definition below (x : Z) : list ParentNodeIndex := map (fun l => pnode l (x / 2 ^ l)) (kept_levels s x (seqZ 1 (k - 1))).

Lemma filtered_path_sender : filtered_direct_path s i = below i ++ above.
Proof.
  rewrite (filtered_direct_path_levels s h) by done.
  rewrite kept_levels_split by by apply (kept_meet i j). apply map_app.
Qed.

Lemma filtered_path_receiver : filtered_direct_path s j = below j ++ above.
Proof.
  rewrite (filtered_direct_path_levels s h) by done.
  rewrite kept_levels_split by (apply (kept_meet j i); done || apply meet_sym). rewrite map_app. f_equal.
  assert (El : kept_levels s j (seqZ (k + 1) (h - k)) = kept_levels s i (seqZ (k + 1) (h - k))).
  { apply List.filter_ext_in. intros l Hl%list_elem_of_In%elem_of_seqZ. symmetry. apply kept_above. lia. }
  unfold above. rewrite El. apply map_ext_in. intros l Hl. rewrite (meet_at_above i j k l); [done|done|].
  destruct Hl as [->|Hl]; [lia|]. apply filter_In in Hl as [Hl%list_elem_of_In%elem_of_seqZ _]. lia.
Qed.

Lemma below_levels x p : p ∈ below x -> exists l, 0 < l < k /\ p = pnode l (x / 2 ^ l).
Proof.
  intros (l & -> & Hl)%list_elem_of_fmap. exists l. split; [|done].
  apply list_elem_of_In, filter_In in Hl as [Hl%list_elem_of_In%elem_of_seqZ _]. lia.
Qed.

Lemma pnode_path_inj x y l l' : leaf_in h x -> leaf_in h y -> 0 < l <= h -> 0 < l' <= h ->
  pnode l (x / 2 ^ l) = pnode l' (y / 2 ^ l') -> l = l' /\ x / 2 ^ l = y / 2 ^ l'.
Proof. intros Hx Hy Hl Hl' E. apply pnode_inj in E; [done|apply (coord_path h); done || lia..|lia|lia]. Qed.

Lemma shared_common_path : filtered_common_direct_path s j i = above.
Proof.
  pose proof meet_range as Hk. unfold filtered_common_direct_path. rewrite filtered_path_sender, filtered_path_receiver.
  rewrite !rev_app_distr, common_prefix_spec; [apply rev_involutive|].
  intros x y Hx Hy ->. rewrite rev_reverse in *. apply list_elem_of_lookup_2 in Hx, Hy. rewrite elem_of_reverse in Hx, Hy.
  apply below_levels in Hx as (l & Hl & ->). apply below_levels in Hy as (l' & Hl' & E).
  apply pnode_path_inj in E as [-> E]; [|done|done|lia|lia]. destruct Hmeet as (_ & _ & Hlow). by apply (Hlow l' ltac:(lia)).
Qed.

Lemma shared_position : subtree_root_position s i j = Ok (length (below i)).
Proof.
  pose proof meet_range as Hk. unfold subtree_root_position. rewrite (lca_spec h i j k) by done. rewrite filtered_path_sender.
  unfold above. cbn [map]. rewrite position_spec; [done| |apply Z.eqb_refl].
  intros p Hp. apply below_levels in Hp as (l & Hl & ->). apply Z.eqb_neq. intros E.
  apply pnode_path_inj in E as [? _]; [lia|done|done|lia|lia].
Qed.

(** The copath node of the sender above the receiver, and its resolution. *)
Lemma shared_copath_node : subtree_root_copath_node (diff s) i j = index_at (k - 1) (j / 2 ^ (k - 1)).
Proof.
  pose proof meet_range as Hk. unfold subtree_root_copath_node. rewrite (lca_spec h i j k) by done.
  assert (Hc : coord k (i / 2 ^ k)) by (apply (coord_path h); [done|lia]).
  pose proof (meet_flip i j k Hmeet ltac:(lia)) as Ef. destruct Hmeet as (_ & E & Hlow).
  assert (Hhalf : forall x, x / 2 ^ (k - 1) / 2 = x / 2 ^ k) by (intros x; rewrite path_step by lia; do 2 f_equal; lia).
  pose proof (Hhalf i) as Ei. pose proof (Hhalf j) as Ej. pose proof (pow2_pos (k - 1)).
  assert (Hlt : j < i <-> j / 2 ^ (k - 1) < i / 2 ^ (k - 1)).
  { specialize (Hlow (k - 1) ltac:(lia)). split; intros Hlt.
    - pose proof (Z.div_le_mono j i (2 ^ (k - 1))). lia.
    - destruct (Z.lt_ge_cases j i) as [|Hge]; [done|]. pose proof (Z.div_le_mono i j (2 ^ (k - 1))). lia. }
  destruct (Z.ltb_spec j i) as [Hji|Hji].
  - rewrite left_pnode by (done || lia). f_equal. rewrite <- Ei. apply Hlt in Hji. unfold flip in Ef.
    destruct (Z.even (i / 2 ^ (k - 1))) eqn:Ev; [lia|]. apply odd_half in Ev. lia.
  - rewrite right_pnode by (done || lia). f_equal. rewrite <- Ei. unfold flip in Ef.
    destruct (Z.even (i / 2 ^ (k - 1))) eqn:Ev; [apply even_half in Ev|]; lia.
Qed.

Lemma shared_copath_keys ex : copath_keys s i ex !! length (below i) =
  Some (map (fun x => reference_key x.2) (resolution s (subtree_root_copath_node (diff s) i j) ex (rightmost_full_leaf s))).
Proof.
  pose proof meet_range as Hk. unfold copath_keys. rewrite (filtered_copath_resolutions_levels s h) by done.
  rewrite kept_levels_split by by apply (kept_meet i j). rewrite map_map, list_lookup_fmap.
  unfold below. rewrite length_map, list_lookup_middle by done. cbn [fmap option_fmap option_map]. do 2 f_equal.
  rewrite shared_copath_node, (resolution_spec s h).
  - unfold copath_ref. by rewrite (meet_flip i j) by (done || lia).
  - done.
  - apply in_tree_path; [done|lia].
Qed.

End Shared.

(** ** Derivation and encryption *)

(** What is assumed of the provider: derivation of key pairs succeeds, and what is
    sealed to the public key of a derived pair opens with its private key. *)
Class HpkeLaws `{!OpenMlsHpke} : Prop := {
  hpke_derive_ok config ikm : exists kp, provider_derive_hpke_keypair config ikm = Ok kp;
  hpke_seal_ok config ikm kp info aad plaintext : provider_derive_hpke_keypair config ikm = Ok kp ->
    exists ciphertext, provider_hpke_seal config kp.1 info aad plaintext = Ok ciphertext;
  hpke_open_seal config ikm kp info aad plaintext ciphertext :
    provider_derive_hpke_keypair config ikm = Ok kp ->
    provider_hpke_seal config kp.1 info aad plaintext = Ok ciphertext ->
    provider_hpke_open config ciphertext kp.2 info aad = Ok plaintext;
  encrypt_context_serializes label context : exists data, encrypt_context_tls_serialize label context = Some data
}.

Section Secrecy.
Context `{!OpenMlsCrypto} `{!KdfLaws} `{!OpenMlsHpke} `{!HpkeLaws} (c : Ciphersuite).

(** A key pair the provider generated. *)
Definition generated (kp : EncryptionKeyPair) : Prop :=
  exists ikm, provider_derive_hpke_keypair (hpke_config c) ikm = Ok kp.

(** The path secret [n] nodes further up. *)
Definition nth_secret (n : nat) (path_secret : PathSecret) : PathSecret :=
  Nat.iter n (fun x => kdf c x "path" [] (hash_length c)) path_secret.

Definition node_pair (path_secret : PathSecret) : EncryptionKeyPair :=
  match derive_key_pair path_secret c with Ok kp => kp | _ => ([], []) end.

Lemma kdf_hash_ok secret label :
  kdf_expand_label secret c label [] (hash_length c) = Ok (kdf c secret label [] (hash_length c)).
Proof. destruct (lengths_in_range c) as [? _]. apply kdf_expand_label_ok; lia. Qed.

Lemma derive_path_secret_ok secret : derive_path_secret secret c = Ok (nth_secret 1 secret).
Proof. unfold derive_path_secret. by rewrite kdf_hash_ok. Qed.

Lemma derive_key_pair_ok secret : derive_key_pair secret c = Ok (node_pair secret).
Proof.
  unfold node_pair, derive_key_pair. run. rewrite kdf_hash_ok.
  by destruct (hpke_derive_ok (hpke_config c) (kdf c secret "node" [] (hash_length c))) as [kp ->].
Qed.

Lemma derive_node_ok x index : derive_node c (x, index) = Ok ((index, ParentNode_from (node_pair x).1), node_pair x,
  {| plain_public_key := (node_pair x).1; plain_path_secret := x |}).
Proof. unfold derive_node. by rewrite derive_key_pair_ok. Qed.

Lemma nth_secret_add n m secret : nth_secret n (nth_secret m secret) = nth_secret (n + m) secret.
Proof. unfold nth_secret. by rewrite <- Nat.iter_add. Qed.

(** The path derived from [secret] over [indices], the first of them at distance [n]. *)
Definition derived (n : nat) (secret : PathSecret) (indices : list ParentNodeIndex) :
    list ((ParentNodeIndex * ParentNode) * EncryptionKeyPair * PlainUpdatePathNode) :=
  imap (fun m index => let x := nth_secret (n + m) secret in
    ((index, ParentNode_from (node_pair x).1), node_pair x,
     {| plain_public_key := (node_pair x).1; plain_path_secret := x |})) indices.

Lemma derived_cons n secret index indices :
  derived n secret (index :: indices) =
    (let x := nth_secret n secret in
     ((index, ParentNode_from (node_pair x).1), node_pair x,
      {| plain_public_key := (node_pair x).1; plain_path_secret := x |})) :: derived (S n) secret indices.
Proof.
  unfold derived. cbn [imap]. rewrite Nat.add_0_r. f_equal. apply imap_ext. intros m index' _. cbn.
  by rewrite Nat.add_succ_r.
Qed.

Lemma path_secrets_spec n : forall m secret,
  path_secrets c n (nth_secret m secret) =
    Ok (map (fun l => nth_secret l secret) (seq m n), nth_secret (n + m) secret).
Proof.
  induction n as [|n IH]; intros m secret; cbn [path_secrets seq map]; [done|].
  rewrite derive_path_secret_ok, nth_secret_add. cbn [mbind outcome_bind]. rewrite IH. cbn [mbind outcome_bind].
  do 3 f_equal. lia.
Qed.

Lemma derive_path_value secret indices :
  derive_path c secret indices = Ok (map (fun r => r.1.1) (derived 0 secret indices), map snd (derived 0 secret indices),
    map (fun r => r.1.2) (derived 0 secret indices), nth_secret (length indices) secret).
Proof.
  unfold derive_path. change secret with (nth_secret 0 secret) at 1. rewrite path_secrets_spec. cbn [mbind outcome_bind].
  assert (E : forall n, mapM (derive_node c) (zip (map (fun l => nth_secret l secret) (seq n (length indices))) indices) =
    Ok (derived n secret indices)).
  { induction indices as [|index indices IH]; intros n; cbn [length seq map zip zip_with mapM]; [done|].
    rewrite derived_cons, derive_node_ok. cbn [mbind outcome_bind]. by rewrite (IH (S n)). }
  rewrite E. cbn [mbind outcome_bind]. by rewrite Nat.add_0_r.
Qed.

(** Deriving from a later secret gives the rest of the path. *)
Lemma derived_drop n secret l1 l2 :
  derived (n + length l1) secret l2 = drop (length l1) (derived n secret (l1 ++ l2)).
Proof.
  revert n. induction l1 as [|x l1 IH]; intros n; cbn [length app]; [by rewrite Nat.add_0_r|].
  rewrite derived_cons. cbn [drop]. rewrite <- IH. f_equal. lia.
Qed.

Lemma derived_shift n secret l : derived 0 (nth_secret n secret) l = derived n secret l.
Proof.
  unfold derived. apply imap_ext. intros m x _. cbv zeta. change (0 + m)%nat with m. by rewrite nth_secret_add, (Nat.add_comm m n).
Qed.

Lemma encrypt_ok kp plaintext context : generated kp -> exists ciphertext,
  PathSecret_encrypt plaintext c kp.1 context = Ok ciphertext /\
  PathSecret_decrypt c ciphertext kp.2 context = Ok plaintext.
Proof.
  intros [ikm E]. unfold PathSecret_encrypt, EncryptionKey_encrypt, encrypt_with_label,
    PathSecret_decrypt, EncryptionPrivateKey_decrypt, decrypt_with_label. run.
  destruct (encrypt_context_serializes (str_bytes ("MLS 1.0 " ++ "UpdatePathNode")) context) as [data ->].
  destruct (hpke_seal_ok _ _ _ data [] plaintext E) as [ciphertext Es]. rewrite Es.
  exists ciphertext. split; [done|]. by rewrite (hpke_open_seal _ _ _ _ _ _ _ E Es).
Qed.

Lemma mapM_ok {A B} (f : A -> outcome LibraryError B) l : (forall x, x ∈ l -> exists y, f x = Ok y) ->
  exists ys, mapM f l = Ok ys /\ Forall2 (fun x y => f x = Ok y) l ys.
Proof.
  induction l as [|x l IH]; intros Hf; cbn [mapM]; [by exists []|].
  destruct (Hf x) as [y Ey]; [by left|]. destruct IH as (ys & Eys & Hys); [intros z Hz; apply Hf; by right|].
  exists (y :: ys). rewrite Ey. cbn [mbind outcome_bind]. rewrite Eys. split; [done|by constructor].
Qed.

(** [encrypt_path] succeeds when the keys are well formed, with one ciphertext per key. *)
Definition encrypts (context : bytes) (x : PlainUpdatePathNode * list bytes) (node : UpdatePathNode) : Prop :=
  node_public_key node = plain_public_key x.1 /\
  Forall2 (fun pk ciphertext => PathSecret_encrypt (plain_path_secret x.1) c pk context = Ok ciphertext)
    x.2 (encrypted_path_secrets node).

Lemma encrypt_path_spec path context keys :
  (forall ks pk, ks ∈ keys -> pk ∈ ks -> exists kp, generated kp /\ kp.1 = pk) ->
  exists nodes, encrypt_path c path context keys = Ok nodes /\ Forall2 (encrypts context) (zip path keys) nodes.
Proof.
  intros Hk. unfold encrypt_path.
  destruct (mapM_ok (fun '(node, resolution) => PlainUpdatePathNode_encrypt node c resolution context) (zip path keys))
    as (nodes & -> & Hn).
  { intros [node ks] Hin. destruct (mapM_ok (fun pk => PathSecret_encrypt (plain_path_secret node) c pk context) ks) as (ys & E & _).
    - intros pk Hpk. destruct (Hk ks pk) as (kp & Hg & <-); [by eapply elem_of_zip_r|done|].
      destruct (encrypt_ok kp (plain_path_secret node) context Hg) as (ct & ? & _). eauto.
    - unfold PlainUpdatePathNode_encrypt. rewrite E. cbn. eauto. }
  exists nodes. split; [done|]. eapply Forall2_impl; [exact Hn|]. intros [node ks] upn E.
  unfold PlainUpdatePathNode_encrypt in E. destruct (mapM _ ks) as [cts|e|] eqn:Em; [|discriminate..]. injection E as <-.
  split; [done|]. cbn [snd fst encrypted_path_secrets]. clear -Em.
  revert cts Em. induction ks as [|pk ks IH]; intros cts Em; cbn [mapM] in Em.
  - injection Em as <-. constructor.
  - destruct (PathSecret_encrypt _ c pk context) as [ct|e|] eqn:E; [|discriminate..]. cbn [mbind outcome_bind] in Em.
    destruct (mapM _ ks) as [cts'|e|]; [|discriminate..]. injection Em as <-. constructor; [done|by apply IH].
Qed.

Lemma find_owned_spec keys owned : forall pos, (exists pk, pk ∈ keys /\ pk ∈ owned.*1) ->
  exists kp n, find_owned pos keys owned = Some (kp, (pos + n)%nat) /\ kp ∈ owned /\ keys !! n = Some kp.1.
Proof.
  induction keys as [|pk keys IH]; intros pos (k & Hk & Ho); [by apply not_elem_of_nil in Hk|]. cbn [find_owned].
  destruct (List.find (fun o => bool_decide (o.1 = pk)) owned) as [kp|] eqn:E.
  - apply find_some in E as [Hin Hp]. apply bool_decide_eq_true in Hp. exists kp, O. rewrite Nat.add_0_r.
    split_and!; [done|by apply list_elem_of_In|by rewrite Hp].
  - destruct (IH (S pos)) as (kp & n & Ef & Hin & Hn).
    + exists k. split; [|done]. apply elem_of_cons in Hk as [->|?]; [|done]. exfalso.
      apply list_elem_of_fmap in Ho as (o & -> & Ho). pose proof (find_none _ _ E o) as Hn. cbn in Hn.
      rewrite bool_decide_true in Hn by done. by specialize (Hn (proj1 (list_elem_of_In _ _) Ho)).
    + exists kp, (S n). rewrite Ef. split_and!; [|done|done]. do 2 f_equal. lia.
Qed.

End Secrecy.

(** ** A commit and its receivers *)

Section Commit.
Context `{!OpenMlsCrypto} `{!KdfLaws} `{!OpenMlsHpke} `{!HpkeLaws} (c : Ciphersuite).

Lemma length_derived n secret indices : length (derived c n secret indices) = length indices.
Proof. apply length_imap. Qed.

Lemma derived_lookup secret indices (n : nat) index : indices !! n = Some index ->
  derived c 0 secret indices !! n = Some (let x := nth_secret c n secret in
    ((index, ParentNode_from (node_pair c x).1), node_pair c x,
     {| plain_public_key := (node_pair c x).1; plain_path_secret := x |})).
Proof. intros E. unfold derived. by rewrite list_lookup_imap, E. Qed.

Lemma derived_key secret indices r : r ∈ derived c 0 secret indices ->
  plain_public_key r.2 = parent_encryption_key r.1.1.2 /\ r.1.2.1 = parent_encryption_key r.1.1.2.
Proof.
  intros [n Hn]%list_elem_of_lookup. destruct (indices !! n) as [index|] eqn:E.
  - rewrite (derived_lookup _ _ _ _ E) in Hn. by injection Hn as <-.
  - apply lookup_lt_Some in Hn. rewrite length_derived in Hn. apply lookup_ge_None in E. lia.
Qed.

(** The receiver's keys cover a key of the resolution it belongs to. *)
Definition reaches (s : TreeSyncDiff) (i j : Z) (ex : list LeafNodeIndex) (owned : list EncryptionKeyPair) : Prop :=
  exists pk, pk ∈ map (fun x => reference_key x.2)
      (resolution s (subtree_root_copath_node (diff s) i j) ex (rightmost_full_leaf s)) /\ pk ∈ owned.*1.

Lemma keys_match_spec (nodes : list UpdatePathNode) (rs : list ((ParentNodeIndex * ParentNode) * EncryptionKeyPair * PlainUpdatePathNode)) :
  Forall2 (fun node r => node_public_key node = parent_encryption_key r.1.1.2) nodes rs ->
  keys_match nodes (map (fun r => r.1.1) rs) = true.
Proof.
  unfold keys_match. induction 1 as [|node [[[p n] kp] u] nodes rs E _ IH]; cbn; [done|]. cbn in E.
  rewrite bool_decide_true by done. exact IH.
Qed.

Lemma map_drop {A B} (f : A -> B) n l : map f (drop n l) = drop n (map f l).
Proof. apply fmap_drop. Qed.

Lemma length_copath_keys s h i ex : tree_sync_ok s h -> leaf_in h i ->
  length (copath_keys s i ex) = length (filtered_direct_path s i).
Proof.
  intros Hok Hi. unfold copath_keys.
  rewrite length_map, (filtered_copath_resolutions_levels s h), (filtered_direct_path_levels s h) by done.
  by rewrite !length_map.
Qed.

(** The published keys are the derived ones. *)
Lemma encrypted_public_keys context secret indices keys nodes : length keys = length indices ->
  let rs := derived c 0 secret indices in
  Forall2 (encrypts c context) (zip (map snd rs) keys) nodes ->
  Forall2 (fun node r => node_public_key node = parent_encryption_key r.1.1.2) nodes rs.
Proof.
  intros Elen rs Hn. apply Forall2_same_length_lookup. split.
  - apply Forall2_length in Hn. rewrite <- Hn, length_zip, length_map, Elen. unfold rs. rewrite length_derived. lia.
  - intros n node r En Er. destruct (Forall2_lookup_r _ _ _ _ _ Hn En) as ([u ks] & Eu & Hu & _).
    rewrite lookup_zip_with, list_lookup_fmap, Er in Eu. cbn in Eu. destruct (keys !! n); [|done].
    injection Eu as <- <-. rewrite Hu. cbn. apply (derived_key secret indices). by apply list_elem_of_lookup_2 in Er.
Qed.

(** Decryption at position [length l1] of a path over [l1 ++ l2]. *)
Lemma decrypt_at s i j ex secret context nodes owned (l1 l2 : list ParentNodeIndex) keys_list keys :
  subtree_root_position s i j = Ok (length l1) -> filtered_common_direct_path s j i = l2 -> l2 <> [] ->
  map (fun x => reference_key x.2)
    (resolution s (subtree_root_copath_node (diff s) i j) ex (rightmost_full_leaf s)) = keys ->
  keys_list !! length l1 = Some keys -> length keys_list = length (l1 ++ l2) ->
  Forall (generated c) owned -> (exists pk, pk ∈ keys /\ pk ∈ owned.*1) ->
  let rs := derived c 0 secret (l1 ++ l2) in
  Forall2 (encrypts c context) (zip (map snd rs) keys_list) nodes ->
  PublicGroupDiff_decrypt_path s c context owned j i nodes ex =
    Ok (drop (length l1) (map (fun r => r.1.2) rs), nth_secret c (length (l1 ++ l2)) secret).
Proof.
  intros Epos Ecommon Hne Eres Ekeys Elen Hgen Hreach rs Hn.
  pose proof (encrypted_public_keys _ _ _ _ _ Elen Hn) as Hpub.
  destruct l2 as [|index l2]; [done|].
  pose proof (derived_lookup secret (l1 ++ index :: l2) (length l1) index (list_lookup_middle _ _ _ _ eq_refl)) as Er.
  set (x := nth_secret c (length l1) secret) in Er. fold rs in Er.
  assert (Ezip : zip (map snd rs) keys_list !! length l1 =
      Some ({| plain_public_key := (node_pair c x).1; plain_path_secret := x |}, keys)).
  { rewrite lookup_zip_with, list_lookup_fmap. by rewrite Er, Ekeys. }
  destruct (Forall2_lookup_l _ _ _ _ _ Hn Ezip) as (node & Enode & _ & Hcts). cbn [fst snd plain_path_secret] in Hcts.
  destruct (find_owned_spec keys owned 0 Hreach) as (kp & n & Efind & Hkp & Ekp).
  destruct (Forall2_lookup_l _ _ _ _ _ Hcts Ekp) as (ct & Ect & Eenc).
  rewrite Forall_forall in Hgen. destruct (encrypt_ok c kp x context (Hgen kp Hkp)) as (ct' & Eenc' & Edec).
  rewrite Eenc in Eenc'. injection Eenc' as <-.
  unfold PublicGroupDiff_decrypt_path, decrypt_path, decryption_key. rewrite Epos, Ecommon. cbn [map_err mbind outcome_bind].
  cbn [dp_update_path dp_sender_leaf_index dp_exclusion_list dp_group_context].
  rewrite Enode, Eres, Efind. cbn [ok_or map_err mbind outcome_bind]. rewrite Nat.add_0_l, Ect.
  cbn [ok_or map_err mbind outcome_bind]. rewrite Edec. cbn [ok_or map_err mbind outcome_bind].
  unfold x. rewrite derive_path_value, derived_shift. cbn [ok_or map_err mbind outcome_bind].
  pose proof (derived_drop c 0 secret l1 (index :: l2)) as Ed. rewrite Nat.add_0_l in Ed. fold rs in Ed.
  rewrite Ed, keys_match_spec by (apply Forall2_drop, Hpub). rewrite nth_secret_add, map_drop. do 3 f_equal.
  rewrite length_app. lia.
Qed.

Lemma decrypt_path_spec s h i j k ex secret context nodes owned :
  tree_sync_ok s h -> leaf_in h i -> leaf_in h j -> i <> j -> meet_at i j k ->
  is_Some (leaf_at s i) -> is_Some (leaf_at s j) -> Forall (generated c) owned -> reaches s i j ex owned ->
  Forall2 (encrypts c context) (zip (map snd (derived c 0 secret (filtered_direct_path s i))) (copath_keys s i ex)) nodes ->
  PublicGroupDiff_decrypt_path s c context owned j i nodes ex =
    Ok (drop (length (below s k i)) (map (fun r => r.1.2) (derived c 0 secret (filtered_direct_path s i))),
        nth_secret c (length (filtered_direct_path s i)) secret).
Proof.
  intros Hok Hi Hj Hne Hmeet Hsi Hsj Hgen Hreach Hn.
  pose proof (shared_copath_keys s h i j k Hok Hi Hj Hne Hmeet Hsj ex) as Ekeys.
  pose proof (length_copath_keys s h i ex Hok Hi) as Elen.
  pose proof (filtered_path_sender s h i j k Hok Hi Hj Hne Hmeet Hsj) as Ep. rewrite Ep in *.
  eapply decrypt_at; [by apply (shared_position s h)|by apply (shared_common_path s h)|done|reflexivity|exact Ekeys|exact Elen|done|exact Hreach|exact Hn].
Qed.

(** ** The keys of a member *)

Lemma encryption_keys_elem_of s j key : key ∈ encryption_keys s j <->
  (exists leaf, leaf_at s j = Some leaf /\ key = leaf_encryption_key (payload leaf)) \/
  (exists p node, p ∈ filtered_direct_path s j /\ AbDiff_parent (diff s) p = Some node /\
     j ∉ unmerged_leaves node /\ key = parent_encryption_key node).
Proof.
  unfold encryption_keys. rewrite elem_of_app, list_elem_of_omap. fold (leaf_at s j). split.
  - intros [Hk|(p & Hp & E)].
    + left. destruct (leaf_at s j) as [leaf|]; [|by apply not_elem_of_nil in Hk].
      apply list_elem_of_singleton in Hk as ->. eauto.
    + right. destruct (AbDiff_parent (diff s) p) as [node|] eqn:En; [|done]. unfold mem in E.
      case_bool_decide as Em; cbn [negb] in E; [discriminate|]. injection E as <-.
      exists p, node. done.
  - intros [(leaf & -> & ->)|(p & node & Hp & En & Hn & ->)]; [left; by left|right].
    exists p. split; [done|]. rewrite En. unfold mem. by rewrite bool_decide_false.
Qed.

(** A non-blank node above a member is on its filtered path. *)
Lemma parent_on_filtered_path s h j l p : tree_sync_ok s h -> leaf_in h j -> 0 < l <= h ->
  parent_at s l (j / 2 ^ l) = Some p -> pnode l (j / 2 ^ l) ∈ filtered_direct_path s j.
Proof.
  intros Hok Hj Hl E. apply (filtered_direct_path_spec s h); [done|done|done|].
  pose proof (proj2 Hok l (j / 2 ^ l) p (in_tree_path h j l Hj ltac:(lia)) ltac:(lia) E) as Hp.
  assert (Hhalf : j / 2 ^ (l - 1) / 2 = j / 2 ^ l) by (rewrite path_step by lia; do 2 f_equal; lia).
  destruct (po_both _ _ _ _ Hp (flip (j / 2 ^ (l - 1)) - 2 * (j / 2 ^ l))) as (w & Hw & Ew & Hs).
  - unfold flip. rewrite <- Hhalf. destruct (Z.even (j / 2 ^ (l - 1))) eqn:Ev; [apply even_half in Ev|apply odd_half in Ev]; lia.
  - exists w. split_and!; [done|lia|done].
Qed.

(** Which levels are kept depends on the occupied leaves only. *)
Lemma kept_ext s s' h i l : tree_sync_ok s h -> tree_sync_ok s' h -> leaf_in h i -> 0 < l <= h ->
  (forall j, 0 <= j -> is_Some (leaf_at s j) <-> is_Some (leaf_at s' j)) -> kept s i l = kept s' i l.
Proof.
  intros Hok Hok' Hi Hl Hocc. unfold kept.
  assert (Hin : in_tree h (l - 1) (flip (i / 2 ^ (l - 1)))) by (apply in_tree_flip; [apply in_tree_path; [done|lia]|lia]).
  assert (Hcov : forall s, tree_sync_ok s h -> copath_ref s i l [] <> [] <->
    exists j, 0 <= j /\ j / 2 ^ (l - 1) = flip (i / 2 ^ (l - 1)) /\ is_Some (leaf_at s j)).
  { intros s1 Hok1. pose proof (resolution_ref_covers s1 h (Z.to_nat (l - 1)) (flip (i / 2 ^ (l - 1))) Hok1) as Hc.
    rewrite Z2Nat.id in Hc by lia. apply (covers_nonempty _ _ _ _ (Hc Hin)). }
  assert (Hiff : copath_ref s i l [] <> [] <-> copath_ref s' i l [] <> []).
  { rewrite (Hcov s Hok), (Hcov s' Hok'). split; intros (j & Hj & Ej & Hs); exists j; (split_and!; [done..|]); by apply Hocc. }
  destruct (copath_ref s i l []), (copath_ref s' i l []); cbn; intuition congruence.
Qed.

Lemma filtered_direct_path_ext s s' h i : tree_sync_ok s h -> tree_sync_ok s' h -> leaf_in h i ->
  (forall j, 0 <= j -> is_Some (leaf_at s j) <-> is_Some (leaf_at s' j)) ->
  filtered_direct_path s i = filtered_direct_path s' i.
Proof.
  intros Hok Hok' Hi Hocc. rewrite !(filtered_direct_path_levels _ h) by done. f_equal.
  apply List.filter_ext_in. intros l Hl%list_elem_of_In%elem_of_seqZ. apply (kept_ext _ _ h); try done. lia.
Qed.

Context `{!TreeHashing}.

Section Applied.
Context (s0 s : TreeSyncDiff) (h i : Z) (leaf : LeafNode) (path path' : list (ParentNodeIndex * ParentNode)) (hash : bytes).
Context (Hok0 : tree_sync_ok s0 h) (Happ : path_applied c s0 s h i leaf path path' hash).
Context (Hi : leaf_in h i) (Hsi : is_Some (leaf_at s0 i)).

Lemma applied_occupied j : 0 <= j -> is_Some (leaf_at s0 j) <-> is_Some (leaf_at s j).
Proof. intros Hj. rewrite (pa_leaves _ _ _ _ _ _ _ _ _ Happ j Hj). by destruct (decide (j = i)) as [->|]. Qed.

Lemma applied_filtered_path j : leaf_in h j -> filtered_direct_path s j = filtered_direct_path s0 j.
Proof. intros Hj. symmetry. apply (filtered_direct_path_ext _ _ h); [done|apply Happ|done|apply applied_occupied]. Qed.

Lemma applied_below k : k <= h -> below s k i = below s0 k i.
Proof.
  intros Hk. unfold below. f_equal. apply List.filter_ext_in. intros l Hl%list_elem_of_In%elem_of_seqZ. symmetry.
  apply (kept_ext _ _ h); [done|apply Happ|done|lia|apply applied_occupied].
Qed.

(** Below the node shared with the committer, a member's keys are the old ones. *)
Lemma applied_old_key j k l p : leaf_in h j -> meet_at i j k -> 0 < l < k -> l <= h ->
  parent_at s l (j / 2 ^ l) = Some p -> j ∉ unmerged_leaves p -> parent_encryption_key p ∈ encryption_keys s0 j.
Proof.
  intros Hj (_ & _ & Hlow) Hl Hlh E Hn.
  rewrite (pa_off _ _ _ _ _ _ _ _ _ Happ l (j / 2 ^ l)) in E by (apply Hlow || apply in_tree_path || lia; done || lia).
  apply encryption_keys_elem_of. right. exists (pnode l (j / 2 ^ l)), p. split_and!; [|done|done|done].
  apply (parent_on_filtered_path s0 h j l p); done || lia.
Qed.

(** The ciphertexts of the sender reach every member that is not excluded. *)
Lemma applied_reaches j k ex owned : leaf_in h j -> i <> j -> meet_at i j k -> is_Some (leaf_at s0 j) -> j ∉ ex ->
  (forall key, key ∈ encryption_keys s0 j -> key ∈ owned.*1) -> reaches s i j ex owned.
Proof.
  intros Hj Hne Hmeet Hsj Hex Hown. pose proof (pa_ok _ _ _ _ _ _ _ _ _ Happ) as Hok.
  pose proof (meet_range h i j k Hi Hj Hne Hmeet) as Hk. unfold reaches.
  rewrite (shared_copath_node s h i j k), (resolution_spec s h) by (done || (apply in_tree_path; done || lia)).
  rewrite <- (keep_included_ref s ex).
  pose proof (resolution_ref_covers s h (Z.to_nat (k - 1)) (j / 2 ^ (k - 1)) Hok) as Hcov. rewrite Z2Nat.id in Hcov by lia.
  destruct (Hcov (in_tree_path h j (k - 1) Hj ltac:(lia))) as [Hc _]. destruct Hj as [Hh [Hj0 Hj1]].
  destruct (Hc j Hj0 eq_refl (proj1 (applied_occupied j Hj0) Hsj)) as [(lf & El & Hin)|(l & p & Hl & Ep & Hin & Hn)].
  - exists (leaf_encryption_key (payload lf)). split.
    + apply (list_elem_of_fmap_2' (fun x => reference_key x.2) _ (Leaf j, RefLeaf lf)); [|done].
      apply list_elem_of_omap. exists (Leaf j, RefLeaf lf). split; [done|]. unfold mem. by rewrite bool_decide_false.
    + apply Hown, encryption_keys_elem_of. left. exists lf. split; [|done].
      rewrite (pa_leaves _ _ _ _ _ _ _ _ _ Happ j Hj0) in El. by rewrite decide_False in El.
  - exists (parent_encryption_key p). split.
    + apply (list_elem_of_fmap_2' (fun x => reference_key x.2) _ (Parent (pnode l (j / 2 ^ l)), RefParent p)); [|done].
      apply list_elem_of_omap. by exists (Parent (pnode l (j / 2 ^ l)), RefParent p).
    + apply Hown. apply (applied_old_key j k l p); [done|done|lia|lia|done|done].
Qed.

(** On the path, the node at level [l] carries a derived key. *)
Lemma applied_new_key secret j k l p : path = map (fun r => r.1.1) (derived c 0 secret (filtered_direct_path s0 i)) ->
  leaf_in h j -> i <> j -> meet_at i j k -> is_Some (leaf_at s0 j) -> k <= l <= h ->
  parent_at s l (j / 2 ^ l) = Some p ->
  parent_encryption_key p ∈
    ((drop (length (below s0 k i)) (map (fun r => r.1.2) (derived c 0 secret (filtered_direct_path s0 i)))).*1).
Proof.
  intros Epath Hj Hne Hmeet Hsj Hl E. pose proof (meet_range h i j k Hi Hj Hne Hmeet) as Hk.
  rewrite <- (meet_at_above i j k l) in E by (done || lia). rewrite (pa_on _ _ _ _ _ _ _ _ _ Happ) in E by lia.
  apply elem_of_list_to_map_2 in E. rewrite elem_of_reverse in E.
  apply list_elem_of_lookup in E as [n En]. destruct (Forall2_lookup_r _ _ _ _ _ (pa_same _ _ _ _ _ _ _ _ _ Happ) En)
    as ([q p0] & Eq & Eindex & Ekey & _). cbn [fst snd] in Eindex, Ekey. subst q.
  rewrite Epath, list_lookup_fmap in Eq. destruct (derived c 0 secret _ !! n) as [[[[q n0] kp] u]|] eqn:Er; [|done]. cbn in Eq. injection Eq as -> ->.
  pose proof (proj2 (derived_key secret (filtered_direct_path s0 i) _ (list_elem_of_lookup_2 _ _ _ Er))) as Hr.
  cbn in Hr. rewrite Ekey in Hr.
  apply list_elem_of_lookup. exists (n - length (below s0 k i))%nat.
  assert (Hpos : (length (below s0 k i) <= n)%nat).
  { apply Nat.nlt_ge. intros Hlt. destruct (filtered_direct_path s0 i !! n) as [index|] eqn:Ei.
    - rewrite (derived_lookup _ _ _ _ Ei) in Er. injection Er as -> _ _ _.
      rewrite (filtered_path_sender s0 h i j k Hok0 Hi Hj Hne Hmeet Hsj), lookup_app_l in Ei by done.
      apply list_elem_of_lookup_2, below_levels in Ei as (l' & Hl' & E).
      apply (pnode_path_inj h) in E as [? _]; [lia|done|done|lia|lia].
    - apply lookup_lt_Some in Er. rewrite length_derived in Er. apply lookup_ge_None in Ei. lia. }
  rewrite list_lookup_fmap, lookup_drop, list_lookup_fmap.
  replace (length (below s0 k i) + (n - length (below s0 k i)))%nat with n by lia. rewrite Er. cbn. by rewrite Hr.
Qed.

End Applied.

Lemma treekem_commit_spec secret s0 s h i leaf path plain keypairs commit_secret path' hash ex context :
  tree_sync_ok s0 h -> 0 <= i -> is_Some (leaf_at s0 i) ->
  derive_path c secret (filtered_direct_path s0 i) = Ok (path, plain, keypairs, commit_secret) ->
  path_applied c s0 s h i leaf path path' hash ->
  (forall ks pk, ks ∈ copath_keys s i ex -> pk ∈ ks -> exists kp, generated c kp /\ kp.1 = pk) ->
  exists nodes, encrypt_path c plain context (copath_keys s i ex) = Ok nodes /\
    forall j owned, 0 <= j -> j <> i -> is_Some (leaf_at s0 j) -> j ∉ ex -> Forall (generated c) owned ->
      (forall key, key ∈ encryption_keys s0 j -> key ∈ owned.*1) ->
      exists new_keypairs,
        PublicGroupDiff_decrypt_path s c context owned j i nodes ex = Ok (new_keypairs, commit_secret) /\
        (exists n, new_keypairs = drop n keypairs) /\
        (forall key, key ∈ encryption_keys s j -> key ∈ (owned ++ new_keypairs).*1).
Proof.
  intros Hok Hi0 Hsi Eder Happ Hkeys. rewrite derive_path_value in Eder. injection Eder as Epath Eplain Epairs Ecommit.
  pose proof (dwf_height _ _ (mo_diff _ _ (proj1 Hok))) as Hh.
  assert (Hin : forall x, 0 <= x -> is_Some (leaf_at s0 x) -> leaf_in h x).
  { intros x Hx Hs. split; [done|]. pose proof (members_leaf_lt s0 h x (proj1 Hok) Hx Hs). lia. }
  pose proof (Hin i Hi0 Hsi) as Hi. pose proof (applied_filtered_path s0 s h i leaf path path' hash Hok Happ Hsi i Hi) as Ef.
  destruct (encrypt_path_spec c plain context (copath_keys s i ex) Hkeys) as (nodes & En & Hn). exists nodes. split; [done|].
  intros j owned Hj0 Hne Hsj Hex Hgen Hown. pose proof (Hin j Hj0 Hsj) as Hj.
  destruct (meet_at_exists h i j Hi Hj) as (k & Hmeet & Hkh).
  pose proof (applied_reaches s0 s h i leaf path path' hash Hok Happ Hi Hsi j k ex owned Hj (not_eq_sym Hne) Hmeet Hsj Hex Hown) as Hr.
  pose proof (applied_occupied s0 s h i leaf path path' hash Happ Hsi) as Hocc.
  rewrite <- Eplain, <- Ef in Hn.
  pose proof (decrypt_path_spec s h i j k ex secret context nodes owned (pa_ok _ _ _ _ _ _ _ _ _ Happ) Hi Hj (not_eq_sym Hne)
    Hmeet (proj1 (Hocc i Hi0) Hsi) (proj1 (Hocc j Hj0) Hsj) Hgen Hr Hn) as E.
  rewrite Ef, Epairs, Ecommit in E. eexists. split; [exact E|]. split; [by eexists|].
  intros key. rewrite (encryption_keys_elem_of s j), fmap_app, elem_of_app.
  intros [(lf & El & ->)|(p & node & Hp & Enode & Hum & ->)].
  - left. apply Hown, encryption_keys_elem_of. left. exists lf. split; [|done].
    rewrite (pa_leaves _ _ _ _ _ _ _ _ _ Happ j Hj0) in El. by rewrite decide_False in El.
  - rewrite (filtered_direct_path_levels s h) in Hp by (done || apply Happ).
    apply list_elem_of_fmap in Hp as (l & -> & Hl). apply list_elem_of_In, filter_In in Hl as [Hl%list_elem_of_In%elem_of_seqZ _].
    destruct (Z.lt_ge_cases l k).
    + left. apply Hown. apply (applied_old_key s0 s h i leaf path path' hash Hok Happ j k l node); done || lia.
    + right. rewrite <- Epairs, (applied_below s0 s h i leaf path path' hash) by done.
      apply (applied_new_key s0 s h i leaf path path' hash Hok Happ Hi secret j k l node); done || lia.
Qed.

(** ** Theorem *)

(** C5: TreeKEM delivers the commit secret: the committer derives a path over its
    filtered direct path, installs it and encrypts each path secret to the
    resolution of the copath node, without the members being added.  Every other
    member that is not excluded, holding the private keys of its leaf and of the
    nodes above it that do not list it as unmerged, finds its ciphertext,
    decrypts it, passes the check of the public keys and ends with the
    committer's commit secret; with the key pairs it gains it holds again the
    keys of all nodes above it in the new tree. *)
Theorem treekem_commit_correct secret s0 s h i leaf path plain keypairs commit_secret path' hash ex context :
  tree_sync_ok s0 h -> 0 <= i -> is_Some (leaf_at s0 i) ->
  derive_path c secret (filtered_direct_path s0 i) = Ok (path, plain, keypairs, commit_secret) ->
  path_applied c s0 s h i leaf path path' hash ->
  (forall ks pk, ks ∈ copath_keys s i ex -> pk ∈ ks -> exists kp, generated c kp /\ kp.1 = pk) ->
  exists nodes, encrypt_path c plain context (copath_keys s i ex) = Ok nodes /\
    forall j owned, 0 <= j -> j <> i -> is_Some (leaf_at s0 j) -> j ∉ ex -> Forall (generated c) owned ->
      (forall key, key ∈ encryption_keys s0 j -> key ∈ owned.*1) ->
      exists new_keypairs,
        PublicGroupDiff_decrypt_path s c context owned j i nodes ex = Ok (new_keypairs, commit_secret) /\
        (exists n, new_keypairs = drop n keypairs) /\
        (forall key, key ∈ encryption_keys s j -> key ∈ (owned ++ new_keypairs).*1).
Proof. apply treekem_commit_spec. Qed.

End Commit.

(** ** Witness *)

(** A scheme that satisfies the laws, for evaluating the model: the public key is
    the private key, and a ciphertext shows its plaintext. *)
Definition toy_hpke : OpenMlsHpke := {|
  provider_derive_hpke_keypair _ ikm := Ok (ikm, ikm);
  provider_hpke_seal _ pk info aad plaintext := Ok {| kem_output := pk; hpke_ciphertext := plaintext |};
  provider_hpke_open _ input sk info aad :=
    if bool_decide (kem_output input = sk) then Ok (hpke_ciphertext input) else Err HpkeDecryptionError;
  encrypt_context_tls_serialize label context := Some (label ++ context)
|}.

Lemma toy_hpke_laws : @HpkeLaws toy_hpke.
Proof.
  split; cbn; [eauto..| |eauto].
  - intros ? ikm kp info aad plaintext ct [= <-] [= <-]. cbn. by rewrite bool_decide_true.
Qed.

(** The first member of [sample_changed] commits; the other member, at leaf 2, follows. *)
Definition sample_secret : PathSecret := [42].

Definition sample_keys : list bytes := [(@node_pair toy_crypto toy_hpke hash_suite sample_secret).1].

Lemma treekem_commit_correct_witness :
  exists s nodes commit_secret new_keypairs,
    @PublicGroupDiff_decrypt_path toy_crypto toy_hpke s hash_suite [7] [([3], [3])] 2 0 nodes [] =
      Ok (new_keypairs, commit_secret) /\
    commit_secret = @nth_secret toy_crypto hash_suite 1 sample_secret.
Proof.
  destruct (@own_update_path_spec toy_hashing toy_hash_laws ([11], [11]) (fun _ => [0]) hash_suite sample_changed 2 0
    sample_params sample_keys sample_changed_ready ltac:(lia) sample_member ltac:(left; discriminate) ltac:(vm_compute; reflexivity))
    as (leaf & path' & hash & s & E & _ & Happ).
  assert (Ep : zip (filtered_direct_path sample_changed 0) (map ParentNode_from sample_keys) =
    map (fun r => r.1.1) (@derived toy_crypto toy_hpke hash_suite 0 sample_secret (filtered_direct_path sample_changed 0)))
    by (vm_compute; reflexivity).
  rewrite Ep in Happ.
  destruct (@treekem_commit_correct toy_crypto toy_laws toy_hpke toy_hpke_laws hash_suite toy_hashing sample_secret
    sample_changed s 2 0 leaf _ _ _ _ path' hash [] [7] (proj1 sample_changed_ready) ltac:(lia) sample_member
    (@derive_path_value toy_crypto toy_laws toy_hpke toy_hpke_laws hash_suite sample_secret (filtered_direct_path sample_changed 0))
    Happ) as (nodes & _ & Hrecv).
  - intros ks pk _ _. exists (pk, pk). split; [|done]. by exists pk.
  - destruct (Hrecv 2 [([3], [3])]) as (kps & Edec & _).
    + lia.
    + lia.
    + vm_compute. eauto.
    + apply not_elem_of_nil.
    + repeat constructor. by exists [3].
    + intros key Hkey. vm_compute in Hkey |- *. exact Hkey.
    + eexists s, nodes, _, kps. split; [exact Edec|]. vm_compute. reflexivity.
Defined.
