(* ===== verification/TreeSync.v ===== *)
(** * TreeSync: the tree of a group

    Models [treesync/mod.rs]: the tree a member keeps between commits with its
    cached hashes and bookkeeping, merging of staged diffs, creation of a tree,
    export and import of ratchet trees with the verification of parent hashes,
    and the derivation of path secrets by a new member. *)

From Stdlib Require Import String.
From S2P Require Import Prelude Crypto TreeMath SortedIter BinaryTree LeafNodes Nodes TreeSyncDiff TreeHash UpdatePaths TreeKem.

Record TreeSync := mkTreeSync {
  ts_tree : ABinaryTree TreeSyncLeafNode TreeSyncParentNode;
  ts_tree_hash : bytes;
  ts_tree_hashes : list bytes;
  ts_blanked_leaves : list LeafNodeIndex;
  ts_num_members : Z
}.

Record StagedTreeSyncDiff := mkStagedTreeSyncDiff {
  staged_diff : StagedAbDiff TreeSyncLeafNode TreeSyncParentNode;
  new_tree_hash : bytes;
  new_tree_hashes : list bytes;
  staged_blanked_leaves : list LeafNodeIndex;
  staged_num_members : Z
}.

(** [RatchetTree(Vec<Option<Node>>)] *)
Definition RatchetTree := list (option Node).

Inductive RatchetTreeError := MissingNodes | TrailingBlankNodes | InvalidNodeSignature | RatchetWrongNodeType.

Inductive TreeSyncParentHashError := ParentHashLibraryError (e : LibraryError) | InvalidParentHash.

(** The variants of [PublicTreeError] this file returns. *)
Inductive PublicTreeError := MalformedTree | PublicInvalidParentHash.

Inductive TreeSyncFromNodesError :=
| FromNodesLibraryError (e : LibraryError)
| FromNodesPublicTreeError (e : PublicTreeError)
| FromNodesRatchetTreeError (e : RatchetTreeError).

Inductive DerivePathError := DeriveLibraryError (e : LibraryError) | PublicKeyMismatch.

Definition TreeSync_empty_diff (ts : TreeSync) : TreeSyncDiff := {|
  diff := empty_diff (ts_tree ts);
  tree_hashes := ts_tree_hashes ts;
  blanked_leaves := ts_blanked_leaves ts;
  num_members := ts_num_members ts |}.

(** The check of the parent hashes is a [debug_assert]. *)
Definition into_staged_diff (s : TreeSyncDiff) : outcome LibraryError StagedTreeSyncDiff :=
  new_tree_hash ← root_hash s;
  Ok {| staged_diff := stage (diff s); new_tree_hash := new_tree_hash; new_tree_hashes := tree_hashes s;
        staged_blanked_leaves := blanked_leaves s; staged_num_members := num_members s |}.

Definition TreeSync_merge_diff (staged : StagedTreeSyncDiff) (ts : TreeSync) : TreeSync := {|
  ts_tree := merge_diff (ts_tree ts) (staged_diff staged);
  ts_tree_hash := new_tree_hash staged;
  ts_tree_hashes := new_tree_hashes staged;
  ts_blanked_leaves := staged_blanked_leaves staged;
  ts_num_members := staged_num_members staged |}.

Definition TreeSync_tree_size (ts : TreeSync) : TreeSize := ABinaryTree_tree_size (ts_tree ts).

Definition full_leaves (ts : TreeSync) : list LeafNode :=
  omap (fun '(_, tsn) => tsn) (ABinaryTree_leaves (ts_tree ts)).

Definition full_parents (ts : TreeSync) : list (ParentNodeIndex * ParentNode) :=
  omap (fun '(index, tsn) => pair index <$> tsn) (ABinaryTree_parents (ts_tree ts)).

Definition rightmost_full_leaf_complete (ts : TreeSync) : LeafNodeIndex :=
  foldl (fun index '(leaf_index, leaf) => if bool_decide (is_Some leaf) then leaf_index else index) 0
    (ABinaryTree_leaves (ts_tree ts)).

(** [take_while] *)
Fixpoint take_while {A} (p : A -> bool) (l : list A) : list A :=
  match l with
  | [] => []
  | x :: l => if p x then x :: take_while p l else []
  end.

Definition set_blanked (blanked : list LeafNodeIndex) (ts : TreeSync) : TreeSync := {|
  ts_tree := ts_tree ts; ts_tree_hash := ts_tree_hash ts; ts_tree_hashes := ts_tree_hashes ts;
  ts_blanked_leaves := blanked; ts_num_members := ts_num_members ts |}.

Definition calculate_blanked_leaves (ts : TreeSync) : TreeSync :=
  let rightmost := rightmost_full_leaf_complete ts in
  set_blanked
    (omap (fun '(leaf_index, leaf) => if bool_decide (leaf = None) then Some leaf_index else None)
       (take_while (fun '(leaf_index, _) => leaf_index <? rightmost) (ABinaryTree_leaves (ts_tree ts)))) ts.

Definition calculate_num_members (ts : TreeSync) : TreeSync := {|
  ts_tree := ts_tree ts; ts_tree_hash := ts_tree_hash ts; ts_tree_hashes := ts_tree_hashes ts;
  ts_blanked_leaves := ts_blanked_leaves ts; ts_num_members := Z.of_nat (length (full_leaves ts)) |}.

(** Keeps the nodes up to the rightmost non-blank one. *)
Definition trimmed (nodes : list (option Node)) : RatchetTree :=
  match foldl (fun found '(position, node) => if bool_decide (is_Some node) then Some position else found)
          None (enumerate nodes) with
  | Some rightmost_nonempty_position => resize (Z.to_nat (rightmost_nonempty_position + 1)) None nodes
  | None => []
  end.

(** The loop over the received nodes; [verify] checks the signature of a leaf at its position. *)
Fixpoint verify_nodes (verify : LeafNodeIndex -> LeafNode -> bool) (index : Z) (nodes : list (option Node)) :
    outcome RatchetTreeError (list (option Node)) :=
  match nodes with
  | [] => Ok []
  | node :: nodes =>
    verified ←
      match node with
      | None => Ok None
      | Some (NodeLeaf leaf) =>
        if index mod 2 =? 0 then
          if verify (u32_wrap (index / 2)) leaf then Ok (Some (NodeLeaf leaf)) else Err InvalidNodeSignature
        else Err RatchetWrongNodeType
      | Some (NodeParent parent) =>
        if index mod 2 =? 1 then Ok (Some (NodeParent parent)) else Err RatchetWrongNodeType
      end;
    rest ← verify_nodes verify (index + 1) nodes;
    Ok (verified :: rest)
  end.

Definition try_from_nodes (verify : LeafNodeIndex -> LeafNode -> bool) (nodes : list (option Node)) :
    outcome RatchetTreeError RatchetTree :=
  match last nodes with
  | Some None => Err TrailingBlankNodes
  | None => Err MissingNodes
  | Some (Some _) => verified_nodes ← verify_nodes verify 0 nodes; Ok (trimmed verified_nodes)
  end.

(** The leaves and parents are interleaved; the padding with blank parents is empty
    when there is one parent less than leaves. *)
Definition export_ratchet_tree (ts : TreeSync) : RatchetTree :=
  let max_length := rightmost_full_leaf_complete ts in
  let leaves := take (Z.to_nat max_length + 1) (leaf_nodes (ts_tree ts)) in
  match leaves with
  | [] => trimmed []
  | leaf :: leaves =>
    let parents := take (Z.to_nat max_length) (parent_nodes (ts_tree ts)) ++
      replicate (length (leaf_nodes (ts_tree ts)) - 1 - length (parent_nodes (ts_tree ts))) blank in
    trimmed ((NodeLeaf <$> leaf) ::
      concat (zip_with (fun leaf parent => [NodeParent <$> parent; NodeLeaf <$> leaf]) leaves parents))
  end.

Definition TreeSync_leaf (ts : TreeSync) (leaf_index : LeafNodeIndex) : option LeafNode :=
  ABinaryTree_leaf (ts_tree ts) leaf_index.

Definition TreeSync_parent (ts : TreeSync) (node_index : ParentNodeIndex) : option ParentNode :=
  ABinaryTree_parent (ts_tree ts) node_index.

Definition is_leaf_in_tree (ts : TreeSync) (leaf_index : LeafNodeIndex) : bool :=
  is_node_in_tree (Leaf leaf_index) (ABinaryTree_tree_size (ts_tree ts)).

Definition TreeSync_free_leaf_index (ts : TreeSync) : LeafNodeIndex := free_leaf_index (TreeSync_empty_diff ts).

Definition owned_encryption_keys (ts : TreeSync) (leaf_index : LeafNodeIndex) : list bytes :=
  encryption_keys (TreeSync_empty_diff ts) leaf_index.

(** [Member { index, encryption_key, signature_key, credential }] *)
Record Member := mkMember {
  member_index : LeafNodeIndex;
  member_encryption_key : bytes;
  member_signature_key : bytes;
  member_credential : Credential
}.

Definition full_leave_members (ts : TreeSync) : list Member :=
  omap (fun '(index, tsn) => (fun leaf => {|
      member_index := index; member_encryption_key := leaf_encryption_key (payload leaf);
      member_signature_key := leaf_signature_key (payload leaf); member_credential := leaf_credential (payload leaf) |}) <$> tsn)
    (ABinaryTree_leaves (ts_tree ts)).

Section TreeSync.
Context `{!TreeHashing}.

(** A node of a resolution carries [parent_hash]. *)
Definition carries (parent_hash : bytes) (x : TreeNodeIndex * NodeReference) : bool :=
  match x.2 with
  | RefLeaf leaf => match leaf_parent_hash leaf with Some hash => bool_decide (hash = parent_hash) | None => false end
  | RefParent parent => bool_decide (parent_parent_hash parent = parent_hash)
  end.

(** The body of the loop of [verify_parent_hashes] for a non-blank parent. *)
Definition verify_parent (c : Ciphersuite) (s : TreeSyncDiff) (parent_index : ParentNodeIndex)
    (parent_node : ParentNode) : outcome TreeSyncParentHashError () :=
  let left_child := left parent_index in
  let right_child := right parent_index in
  let exclusion_list := unmerged_leaves parent_node in
  oth_left ← map_err ParentHashLibraryError
    (if is_empty exclusion_list then (tree_hash left_child s).1
     else compute_tree_hash c s left_child exclusion_list);
  oth_right ← map_err ParentHashLibraryError
    (if is_empty exclusion_list then (tree_hash right_child s).1
     else compute_tree_hash c s right_child exclusion_list);
  parent_hash_left ← map_err ParentHashLibraryError (compute_parent_hash c parent_node oth_right);
  parent_hash_right ← map_err ParentHashLibraryError (compute_parent_hash c parent_node oth_left);
  let rightmost := rightmost_full_leaf s in
  let left_descendant := List.find (carries parent_hash_left) (resolution s left_child exclusion_list rightmost) in
  let right_descendant := List.find (carries parent_hash_right) (resolution s right_child exclusion_list rightmost) in
  if xorb (bool_decide (left_descendant = None)) (bool_decide (is_Some right_descendant))
  then Err InvalidParentHash else Ok tt.

Fixpoint verify_parents (c : Ciphersuite) (s : TreeSyncDiff) (parents : list (ParentNodeIndex * TreeSyncParentNode)) :
    outcome TreeSyncParentHashError () :=
  match parents with
  | [] => Ok tt
  | (parent_index, Some parent_node) :: parents => verify_parent c s parent_index parent_node ;; verify_parents c s parents
  | (_, None) :: parents => verify_parents c s parents
  end.

Definition verify_parent_hashes (c : Ciphersuite) (s : TreeSyncDiff) : outcome TreeSyncParentHashError () :=
  verify_parents c s (AbDiff_parents (diff s)).

Definition TreeSync_populate_tree_hashes (c : Ciphersuite) : method TreeSync LibraryError () :=
  modify (fun ts => {| ts_tree := ts_tree ts; ts_tree_hash := ts_tree_hash ts;
    ts_tree_hashes := resize (Z.to_nat (TreeSync_tree_size ts)) [] (ts_tree_hashes ts);
    ts_blanked_leaves := ts_blanked_leaves ts; ts_num_members := ts_num_members ts |});;
  self ← get;
  let '(result, diff) := populate_tree_hashes c (root (TreeSync_tree_size self)) [] (TreeSync_empty_diff self) in
  lift result;;
  staged_diff ← lift (into_staged_diff diff);
  modify (TreeSync_merge_diff staged_diff).

Definition populate_parent_hashes : method TreeSync LibraryError () :=
  self ← get;
  staged_diff ← lift (into_staged_diff (TreeSync_empty_diff self));
  modify (TreeSync_merge_diff staged_diff).

Definition TreeSync_of (tree : ABinaryTree TreeSyncLeafNode TreeSyncParentNode) : TreeSync :=
  {| ts_tree := tree; ts_tree_hash := []; ts_tree_hashes := []; ts_blanked_leaves := []; ts_num_members := 0 |}.

Definition outcome_state {S E A} (x : outcome E A * S) : outcome E S :=
  match x with (Ok _, s) => Ok s | (Err e, _) => Err e | (Panic, _) => Panic end.

Definition parent_hash_error (e : TreeSyncParentHashError) : TreeSyncFromNodesError :=
  match e with
  | ParentHashLibraryError e => FromNodesLibraryError e
  | InvalidParentHash => FromNodesPublicTreeError PublicInvalidParentHash
  end.

(** The conversion of the nodes; blanks take their type from their position. *)
Definition tree_nodes (ratchet_tree : RatchetTree) : list (TreeNode TreeSyncLeafNode TreeSyncParentNode) :=
  imap (fun node_index node_option =>
    match node_option with
    | Some node => TreeNode_from node
    | None => if (node_index mod 2 =? 0)%nat then TreeNode_Leaf blank else TreeNode_Parent blank
    end) ratchet_tree.

Definition from_ratchet_tree (c : Ciphersuite) (ratchet_tree : RatchetTree) :
    outcome TreeSyncFromNodesError TreeSync :=
  match ABinaryTree_new (tree_nodes ratchet_tree) with
  | inl _ => Err (FromNodesPublicTreeError MalformedTree)
  | inr tree =>
    outcome_state
      ((lift_state FromNodesLibraryError (TreeSync_populate_tree_hashes c);;
        modify calculate_num_members;;
        modify calculate_blanked_leaves;;
        self ← get;
        lift (map_err parent_hash_error (verify_parent_hashes c (TreeSync_empty_diff self)));;
        lift_state FromNodesLibraryError populate_parent_hashes) (TreeSync_of tree))
  end.

Context `{!OpenMlsCrypto} `{!OpenMlsHpke}.

(** The new leaf with its key pair and the random secret come from the provider. *)
Definition TreeSync_new (leaf : outcome LibraryError (LeafNode * EncryptionKeyPair))
    (random : outcome CryptoError Secret) (c : Ciphersuite) :
    outcome LibraryError (TreeSync * CommitSecret * EncryptionKeyPair) :=
  '(leaf, encryption_key_pair) ← leaf;
  path_secret ← map_err LibraryCryptoError random;
  commit_secret ← derive_path_secret path_secret c;
  match ABinaryTree_new [TreeNode_from (NodeLeaf leaf)] with
  | inl _ => Err LibraryCustom
  | inr tree =>
    tree_sync ← outcome_state
      ((TreeSync_populate_tree_hashes c;; populate_parent_hashes;; modify calculate_num_members) (TreeSync_of tree));
    Ok (tree_sync, commit_secret, encryption_key_pair)
  end.

(** The loop of [derive_path_secrets] over the shared path. *)
Fixpoint derive_along (c : Ciphersuite) (ts : TreeSync) (leaf_index : LeafNodeIndex)
    (path : list ParentNodeIndex) (path_secret : PathSecret) :
    outcome DerivePathError (list EncryptionKeyPair * CommitSecret) :=
  match path with
  | [] => Ok ([], path_secret)
  | parent_index :: path =>
    match parent_by_index (ts_tree ts) parent_index with
    | Some parent_node =>
      if negb (mem leaf_index (unmerged_leaves parent_node)) then
        keypair ← map_err DeriveLibraryError (derive_key_pair path_secret c);
        if negb (bool_decide (parent_encryption_key parent_node = keypair.1)) then Err PublicKeyMismatch
        else
          path_secret ← map_err DeriveLibraryError (derive_path_secret path_secret c);
          '(keypairs, commit_secret) ← derive_along c ts leaf_index path path_secret;
          Ok (keypair :: keypairs, commit_secret)
      else derive_along c ts leaf_index path path_secret
    | None => derive_along c ts leaf_index path path_secret
    end
  end.

Definition derive_path_secrets (c : Ciphersuite) (ts : TreeSync) (path_secret : PathSecret)
    (sender_index leaf_index : LeafNodeIndex) : outcome DerivePathError (list EncryptionKeyPair * CommitSecret) :=
  derive_along c ts leaf_index (subtree_path (ts_tree ts) leaf_index sender_index) path_secret.

End TreeSync.

(** ** Invariant *)

(** The tree of a group between commits: members and parents are consistent and every
    cached hash is right. *)
Definition tree_ok `{!TreeHashing} (c : Ciphersuite) (ts : TreeSync) (h : Z) : Prop :=
  tree_wf (ts_tree ts) h /\ tree_sync_ok (TreeSync_empty_diff ts) h /\ hashed c (TreeSync_empty_diff ts) h /\
  Ok (ts_tree_hash ts) = compute_tree_hash c (TreeSync_empty_diff ts) (root (TreeSync_tree_size ts)) [].

(** A commit of a member with a path, from the empty diff to the merge: after any changes
    of the members when the path has a node, and after none when it has no node. *)
Inductive epoch_step `{!TreeHashing} (c : Ciphersuite) (ts : TreeSync) : TreeSync -> Prop :=
| epoch_commit s i keypair signature params keys kps s' staged :
    rtc member_step (TreeSync_empty_diff ts) s ->
    0 <= i -> is_Some (leaf_at s i) -> keys <> [] \/ s = TreeSync_empty_diff ts -> length (filtered_direct_path s i) = length keys ->
    apply_own_update_path (Ok keypair) (fun tbs => Ok (signature tbs)) c i params
      (zip (filtered_direct_path s i) (map ParentNode_from keys)) s = (Ok kps, s') ->
    into_staged_diff s' = Ok staged ->
    epoch_step c ts (TreeSync_merge_diff staged ts).

(** ** Lemmas *)

Lemma grow_loop_original fuel i d : original_tree (grow_loop fuel i d).2 = original_tree d.
Proof.
  revert d. induction fuel as [|fuel IH]; intros d; cbn [grow_loop]; [done|].
  destruct (_ <=? _); [|done]. unfold grow_tree. destruct (_ <? _); [done|]. by rewrite IH.
Qed.

(** A diff keeps the tree it was made from. *)
Lemma member_step_original s s' h : tree_sync_ok s h -> member_step s s' -> original_tree (diff s') = original_tree (diff s).
Proof.
  intros Hok Hstep. destruct Hstep as [s leaf i s' E|s leaf i Hi Hs|s i Hi Hs].
  - unfold add_leaf in E. run. pose proof (grow_loop_original 32 (free_leaf_index s) (diff s)) as Eo.
    destruct (grow_loop 32 (free_leaf_index s) (diff s)) as [[u|e|] d]; [|discriminate..]. injection E as <- <-.
    cbn [diff set_diff set_members]. unfold add_unmerged. rewrite foldl_parent_mut_original. exact Eo.
  - unfold update_leaf. cbn [diff set_diff]. by rewrite set_direct_path_original.
  - destruct (blank_leaf_trim s h i Hok Hi Hs) as [-> _]. by rewrite set_direct_path_original.
Qed.

Lemma member_steps_original s s' h : tree_sync_ok s h -> rtc member_step s s' ->
  original_tree (diff s') = original_tree (diff s).
Proof.
  intros Hok Hsteps. revert h Hok. induction Hsteps as [s|s s1 s2 Hstep _ IH]; intros h Hok; [done|].
  destruct (member_step_ok s s1 h Hok Hstep) as (h1 & _ & Hok1).
  rewrite (IH h1 Hok1). by apply (member_step_original s s1 h).
Qed.

(** The invariants read a tree inside its bounds only. *)
Lemma parents_ok_in_tree s s' h : height h -> (forall j, 0 <= j -> leaf_at s' j = leaf_at s j) ->
  (forall k m, in_tree h k m -> 0 < k -> parent_at s' k m = parent_at s k m) -> parents_ok s h -> parents_ok s' h.
Proof.
  intros Hh Hl Hp Hok k m p Hin Hk E. rewrite (Hp k m Hin Hk) in E.
  destruct (Hok k m p Hin Hk E) as [Hs Hb Hi Hboth]. split; [done| | |].
  - intros j Hj. destruct (Hb j Hj) as (? & ? & ?). by rewrite Hl.
  - intros j j' q Hj Hj' Eq. destruct (Hb j Hj) as (Hj0 & Ejm & _).
    assert (in_tree h j' (j / 2 ^ j')) as Hin' by (apply (below_in_tree h k m j); done || lia).
    rewrite (Hp _ _ Hin' ltac:(lia)) in Eq. by apply (Hi j j' q).
  - intros b Hb'. destruct (Hboth b Hb') as (w & Hw0 & Hw & Hws). exists w. by rewrite Hl.
Qed.


(** An empty diff reads like the tree. *)
Lemma empty_diff_leaf {L P} `{!Default L} `{!Default P} (t : ABinaryTree L P) h i : tree_wf t h -> 0 <= i ->
  AbDiff_leaf (empty_diff t) i = leaf_by_index t i.
Proof.
  intros Ht Hi. pose proof (empty_diff_wf t h Ht) as Hd. destruct (Z.lt_ge_cases i (2 ^ h)).
  - unfold AbDiff_leaf. rewrite (AbDiff_leaf_count_spec _ h Hd). by destruct (Z.leb_spec (2 ^ h) i); [lia|].
  - rewrite (AbDiff_leaf_outside _ h) by done. rewrite (leaf_by_index_spec t h) by done.
    rewrite lookup_ge_None_2 by (pose proof (twf_leaves _ _ Ht); lia). done.
Qed.

Lemma empty_diff_parent {L P} `{!Default L} `{!Default P} (t : ABinaryTree L P) i :
  AbDiff_parent (empty_diff t) i = parent_by_index t i.
Proof. done. Qed.

Lemma pnode_in_tree h k m : in_tree h k m -> 0 < k -> 0 <= pnode k m < 2 ^ h - 1.
Proof.
  intros [Hk' Hm] Hk. pose proof (node_in_tree (h - 1) (k - 1) m) as Hn. unfold tree_size in Hn.
  rewrite Z.sub_add in Hn. apply Hn. split; [lia|]. by replace (h - 1 - (k - 1)) with (h - k) by lia.
Qed.

Section Merge.
Context `{!TreeHashing} `{!HashLaws}.

(** What is known of a diff carries over to a diff that reads the same. *)
Lemma members_ok_reads s s' h : diff_wf (diff s') h -> fits (diff s') h ->
  blanked_leaves s' = blanked_leaves s -> num_members s' = num_members s ->
  (forall j, 0 <= j -> leaf_at s' j = leaf_at s j) -> members_ok s h -> members_ok s' h.
Proof.
  intros Hd Hf Eb En Hl Hm. assert (Et : total s' = total s) by (unfold total; by rewrite Eb, En).
  destruct Hm. split; rewrite ?Et, ?Eb, ?En; try done. intros i Hi. rewrite Hl by done. auto.
Qed.

Lemma tree_sync_ok_reads s s' h : diff_wf (diff s') h -> fits (diff s') h ->
  blanked_leaves s' = blanked_leaves s -> num_members s' = num_members s ->
  (forall j, 0 <= j -> leaf_at s' j = leaf_at s j) ->
  (forall k m, in_tree h k m -> 0 < k -> parent_at s' k m = parent_at s k m) ->
  tree_sync_ok s h -> tree_sync_ok s' h.
Proof.
  intros Hd Hf Eb En Hl Hp [Hm Hps]. split; [by apply (members_ok_reads s)|].
  by apply (parents_ok_in_tree s s' h (dwf_height _ _ Hd)).
Qed.

Lemma hashed_reads c s s' h : diff_size (diff s') = diff_size (diff s) -> tree_hashes s' = tree_hashes s ->
  (forall j, 0 <= j -> leaf_at s' j = leaf_at s j) ->
  (forall k m, in_tree h k m -> 0 < k -> parent_at s' k m = parent_at s k m) ->
  hashed c s h -> hashed c s' h.
Proof.
  intros Es Eh Hl Hp [(Hh & Hsz & Hlen) Hr]. split; [split_and!; [done|congruence|congruence]|].
  intros k m Hin _. unfold hash_at. rewrite Eh. fold (hash_at s k m). rewrite (Hr k m Hin I). f_equal.
  apply (hash_of_ext _ h); [by rewrite Z2Nat.id by apply Hin|by intros; rewrite Hl|].
  intros j n Hj Hn _. symmetry. apply Hp; [done|lia].
Qed.

(** The tree [ts] reads like the diff [s], and so does a diff made from it. *)
Definition reads_like (s : TreeSyncDiff) (ts : TreeSync) (h : Z) : Prop :=
  (forall j, 0 <= j -> leaf_at (TreeSync_empty_diff ts) j = leaf_at s j) /\
  (forall k m, in_tree h k m -> 0 < k -> parent_at (TreeSync_empty_diff ts) k m = parent_at s k m).

(** Every cached hash of a tree is right. *)
Definition hashes_ok (c : Ciphersuite) (ts : TreeSync) (h : Z) : Prop :=
  tree_wf (ts_tree ts) h /\ hashed c (TreeSync_empty_diff ts) h /\
  Ok (ts_tree_hash ts) = compute_tree_hash c (TreeSync_empty_diff ts) (root (TreeSync_tree_size ts)) [].

(** Merging a staged diff gives the tree the diff stands for. *)
Lemma merge_reads c ts s h : original_tree (diff s) = ts_tree ts -> diff_wf (diff s) h -> hashed c s h ->
  exists staged, into_staged_diff s = Ok staged /\
    let ts' := TreeSync_merge_diff staged ts in
    hashes_ok c ts' h /\ reads_like s ts' h /\
    ts_blanked_leaves ts' = blanked_leaves s /\ ts_num_members ts' = num_members s.
Proof.
  intros Eo Hd Hh. pose proof (dwf_height _ _ Hd) as Hht.
  destruct (merge_diff_agrees (diff s) h (ts_tree ts) Hd (eq_sym Eo)) as [Hwf (Es & Hl & Hp)].
  unfold into_staged_diff. rewrite (root_hash_spec c s h Hh), (compute_root_spec c s h (proj1 Hh)).
  cbn [mbind outcome_bind]. eexists. split; [reflexivity|]. set (ts' := TreeSync_merge_diff _ ts). cbn zeta.
  assert (Hl' : forall j, 0 <= j -> leaf_at (TreeSync_empty_diff ts') j = leaf_at s j).
  { intros j Hj. etrans; [|exact (Hl j Hj)]. by apply (empty_diff_leaf _ h). }
  assert (Hp' : forall k m, in_tree h k m -> 0 < k -> parent_at (TreeSync_empty_diff ts') k m = parent_at s k m).
  { intros k m Hin Hk. etrans; [|apply (Hp (pnode k m))]; [apply empty_diff_parent|].
    rewrite Es. cbn [tl_size tree_like_diff]. rewrite (dwf_size _ _ Hd), TreeSize_parent_count_spec by done.
    by apply pnode_in_tree. }
  assert (Hh' : hashed c (TreeSync_empty_diff ts') h) by (by apply (hashed_reads c s)).
  split_and!; [|done..]. split_and!; [exact Hwf|exact Hh'|].
  etrans; [|symmetry; apply (compute_root_spec c _ h (proj1 Hh'))]. cbn [ts_tree_hash ts' TreeSync_merge_diff new_tree_hash].
  f_equal. apply (hash_of_ext _ h); [rewrite Z2Nat.id by apply Hht; by apply in_tree_root| |].
  - intros i Hi _. by rewrite Hl'.
  - intros j n Hj Hn _. symmetry. apply Hp'; [done|lia].
Qed.

Lemma merge_spec c ts s h : original_tree (diff s) = ts_tree ts -> tree_sync_ok s h -> hashed c s h ->
  exists staged, into_staged_diff s = Ok staged /\
    tree_ok c (TreeSync_merge_diff staged ts) h /\ reads_like s (TreeSync_merge_diff staged ts) h.
Proof.
  intros Eo Hok Hh. destruct (merge_reads c ts s h Eo (mo_diff _ _ (proj1 Hok)) Hh) as (staged & E & (Hwf & Hh' & Er) & [Hl Hp] & Eb & En).
  exists staged. split; [done|]. split; [|by split]. split_and!; try done.
  apply (tree_sync_ok_reads s); try done; [by apply empty_diff_wf|by apply empty_diff_fits].
Qed.

(** The hash cache is filled from any state of a tree. *)
Lemma populate_ok c ts h : tree_wf (ts_tree ts) h ->
  exists ts', TreeSync_populate_tree_hashes c ts = (Ok tt, ts') /\ hashes_ok c ts' h /\
    reads_like (TreeSync_empty_diff ts) ts' h /\
    ts_blanked_leaves ts' = ts_blanked_leaves ts /\ ts_num_members ts' = ts_num_members ts.
Proof.
  intros Hwf. unfold TreeSync_populate_tree_hashes. run.
  set (ts1 := mkTreeSync (ts_tree ts) _ _ _ _).
  assert (Hf : hashes_fit (TreeSync_empty_diff ts1) h).
  { split_and!; [apply Hwf|apply Hwf|]. cbn. rewrite length_resize.
    unfold TreeSync_tree_size. rewrite (twf_size _ _ Hwf). unfold tree_size. pose proof (pow2_pos (h + 1)).
    pose proof (twf_height _ _ Hwf) as [? _]. lia. }
  destruct (populate_spec c _ h Hf) as (s' & E & Ho & Hh).
  change (root (diff_size (diff (TreeSync_empty_diff ts1)))) with (root (TreeSync_tree_size ts1)) in E.
  rewrite E.
  change (TreeSync_tree_size ts1) with (diff_size (diff (TreeSync_empty_diff ts1))). rewrite (compute_root_spec c _ h Hf).
  destruct (merge_reads c ts1 s' h) as (staged & Em & Hok & [Hl Hp] & Eb & En); [by rewrite Ho|rewrite Ho; by apply empty_diff_wf|done|].
  rewrite Em. eexists. split; [reflexivity|]. split; [exact Hok|]. rewrite Ho in Hl, Hp, Eb, En. by split_and!.
Qed.

Lemma populate_parent_ok c ts h : hashes_ok c ts h ->
  exists ts', populate_parent_hashes ts = (Ok tt, ts') /\ hashes_ok c ts' h /\
    reads_like (TreeSync_empty_diff ts) ts' h /\
    ts_blanked_leaves ts' = ts_blanked_leaves ts /\ ts_num_members ts' = ts_num_members ts.
Proof.
  intros (Hwf & Hh & _). unfold populate_parent_hashes. run.
  destruct (merge_reads c ts (TreeSync_empty_diff ts) h) as (staged & Em & ?); [done|by apply empty_diff_wf|done|].
  rewrite Em. eexists. split; [reflexivity|]. done.
Qed.

Lemma reads_like_trans s ts ts' h : reads_like s ts h -> reads_like (TreeSync_empty_diff ts) ts' h -> reads_like s ts' h.
Proof.
  intros [Hl Hp] [Hl' Hp']. split; intros; [rewrite Hl', Hl by done; done|]. rewrite Hp', Hp by done. done.
Qed.

(** The bookkeeping of members does not touch the hashes. *)
Lemma hashes_ok_book c ts h blanked n : hashes_ok c ts h ->
  let ts' := mkTreeSync (ts_tree ts) (ts_tree_hash ts) (ts_tree_hashes ts) blanked n in
  hashes_ok c ts' h /\ reads_like (TreeSync_empty_diff ts) ts' h.
Proof.
  intros (Hwf & Hh & Er) ts'. split; [|by split]. split_and!; [done|by apply (hashed_reads c (TreeSync_empty_diff ts))|].
  etrans; [exact Er|]. by apply compute_tree_hash_diff.
Qed.

End Merge.

(** ** Bookkeeping of members

    The leaves of a tree are [a ++ Some x :: blanks]: [x] is the rightmost member. *)

Lemma rightmost_split {A} (l : list (option A)) i x : l !! i = Some (Some x) ->
  exists a y n, l = a ++ Some y :: replicate n None /\ (i <= length a)%nat.
Proof.
  induction l as [|o l IH] using rev_ind; [done|]. rewrite lookup_app. destruct (l !! i) as [v|] eqn:E.
  - intros [= ->]. destruct (IH eq_refl) as (a & y & n & -> & Hi). destruct o as [z|].
    + exists (a ++ Some y :: replicate n None), z, 0%nat. split; [done|]. rewrite length_app. cbn. lia.
    + exists a, y, (S n). split; [|done]. by rewrite <- app_assoc, <- app_comm_cons, <- replicate_S_end.
  - intros Hl. apply lookup_ge_None_1 in E. apply list_lookup_singleton_Some in Hl as [Hi ->]. exists l, x, 0%nat. split; [done|lia].
Qed.

Lemma enumerate_app {A} (l k : list A) :
  enumerate (l ++ k) = enumerate l ++ imap (fun i x => (Z.of_nat (length l + i), x)) k.
Proof. unfold enumerate. by rewrite imap_app. Qed.

Lemma take_while_app {A} (p : A -> bool) xs y ys : (forall x, x ∈ xs -> p x = true) -> p y = false ->
  take_while p (xs ++ y :: ys) = xs.
Proof.
  intros Hxs Hy. induction xs as [|x xs IH]; cbn [take_while app]; [by rewrite Hy|].
  rewrite (Hxs x) by (by left). f_equal. apply IH. intros z Hz. apply Hxs. by right.
Qed.

Lemma rightmost_foldl {A} (xs ys : list (Z * option A)) z i x : Forall (fun y => y.2 = None) ys ->
  foldl (fun index '(leaf_index, leaf) => if bool_decide (is_Some leaf) then leaf_index else index) z
    (xs ++ (i, Some x) :: ys) = i.
Proof.
  intros Hys. rewrite foldl_app. cbn [foldl]. rewrite bool_decide_true by (by eexists).
  induction Hys as [|[j o] ys E _ IH]; [done|]. cbn [foldl]. cbn in E. subst o. rewrite bool_decide_false by (by intros []). done.
Qed.

Lemma imap_blanks {A B} (f : nat -> B) n : Forall (fun y : B * option A => y.2 = None) (imap (fun i x => (f i, x)) (replicate n None)).
Proof.
  apply Forall_forall. intros [j o] (i & Hi)%list_elem_of_lookup. rewrite list_lookup_imap in Hi.
  destruct (replicate n None !! i) eqn:E; [|done]. apply lookup_replicate in E as [-> _]. by injection Hi as <- <-.
Qed.

Lemma omap_nil_blanks {A B} (l : list (B * option A)) : Forall (fun y => y.2 = None) l -> omap (fun '(_, leaf) => leaf) l = [].
Proof. induction 1 as [|[b o] l E _ IH]; [done|]. cbn in *. by rewrite E. Qed.

Lemma members_count {A} (a : list (option A)) x n :
  length (omap (fun '(_, leaf) => leaf) (enumerate (a ++ Some x :: replicate n None))) =
  S (length (omap (fun '(_, leaf) => leaf) (enumerate a))).
Proof.
  rewrite enumerate_app, omap_app, length_app. cbn [imap omap list_omap length].
  pose proof (omap_nil_blanks _ (imap_blanks (A := A) (fun i => Z.of_nat (length a + S i)) n)) as E.
  change (compose ?f S) with (fun i => f (S i)). cbn in E |- *. rewrite E. cbn. lia.
Qed.

Lemma blanked_count {A} (l : list (option A)) :
  (length (omap (fun '(i, leaf) => if bool_decide (leaf = None) then Some i else None) (enumerate l)) +
   length (omap (fun '(_, leaf) => leaf) (enumerate l)) = length l)%nat.
Proof.
  induction l as [|o l IH] using rev_ind; [done|]. rewrite enumerate_app, !omap_app, !length_app. cbn.
  destruct o; cbn; lia.
Qed.

Lemma blanked_elem_of {A} (l : list (option A)) i :
  i ∈ omap (fun '(i, leaf) => if bool_decide (leaf = None) then Some i else None) (enumerate l) <->
  0 <= i /\ l !! Z.to_nat i = Some None.
Proof.
  rewrite list_elem_of_omap. split.
  - intros ([j o] & Hj & E). case_bool_decide; [|done]. injection E as ->. subst o. by apply enumerate_elem_of.
  - intros H. exists (i, None). split; [by apply enumerate_elem_of|]. by rewrite bool_decide_true.
Qed.

Lemma blanked_NoDup {A} (l : list (option A)) :
  NoDup (omap (fun '(i, leaf) => if bool_decide (leaf = None) then Some i else None) (enumerate l)).
Proof.
  induction l as [|o l IH] using rev_ind; [constructor|]. rewrite enumerate_app, omap_app. apply NoDup_app. split_and!; [done| |].
  - intros i Hi Hj. apply blanked_elem_of in Hi as [Hi0 Hi]. apply lookup_lt_Some in Hi.
    cbn in Hj. destruct o; cbn in Hj; [by apply not_elem_of_nil in Hj|]. apply list_elem_of_singleton in Hj. lia.
  - destruct o; cbn; [constructor|apply NoDup_singleton].
Qed.

(** What the bookkeeping computes from the leaves. *)
Lemma bookkeeping ts a x n : leaf_nodes (ts_tree ts) = a ++ Some x :: replicate n None ->
  rightmost_full_leaf_complete ts = Z.of_nat (length a) /\
  ts_num_members (calculate_num_members ts) = Z.of_nat (length (omap (fun '(_, leaf) => leaf) (enumerate a))) + 1 /\
  ts_blanked_leaves (calculate_blanked_leaves ts) =
    omap (fun '(i, leaf) => if bool_decide (leaf = None) then Some i else None) (enumerate a).
Proof.
  intros El. assert (Er : rightmost_full_leaf_complete ts = Z.of_nat (length a)).
  { unfold rightmost_full_leaf_complete, ABinaryTree_leaves. rewrite El, enumerate_app. cbn [imap].
    etrans; [apply rightmost_foldl, imap_blanks|]. by rewrite Nat.add_0_r. }
  split; [done|]. split.
  - cbn [ts_num_members calculate_num_members]. unfold full_leaves, ABinaryTree_leaves. rewrite El.
    etrans; [apply f_equal, members_count|]. by rewrite Nat2Z.inj_succ, <- Z.add_1_r.
  - cbn [ts_blanked_leaves calculate_blanked_leaves set_blanked]. rewrite Er. f_equal. unfold ABinaryTree_leaves. rewrite El, enumerate_app. cbn [imap].
    unfold TreeSyncLeafNode. apply take_while_app; [|apply Z.ltb_ge; lia]. intros [i o] [Hi Hl]%enumerate_elem_of. apply lookup_lt_Some in Hl.
    apply Z.ltb_lt. lia.
Qed.

(** A tree whose rightmost member sits in the right half has consistent bookkeeping. *)
Lemma members_of_leaves ts h a x n : tree_wf (ts_tree ts) h -> leaf_nodes (ts_tree ts) = a ++ Some x :: replicate n None ->
  h = 0 \/ 2 ^ (h - 1) <= Z.of_nat (length a) ->
  ts_num_members ts = Z.of_nat (length (omap (fun '(_, leaf) => leaf) (enumerate a))) + 1 ->
  ts_blanked_leaves ts = omap (fun '(i, leaf) => if bool_decide (leaf = None) then Some i else None) (enumerate a) ->
  members_ok (TreeSync_empty_diff ts) h /\ is_Some (leaf_at (TreeSync_empty_diff ts) (total (TreeSync_empty_diff ts) - 1)).
Proof.
  intros Hwf El Hmin En Eb. pose proof (twf_leaves _ _ Hwf) as Hlen.
  assert (Et : total (TreeSync_empty_diff ts) = Z.of_nat (length a) + 1).
  { unfold total. cbn. rewrite En, Eb. pose proof (blanked_count a). lia. }
  rewrite El, length_app in Hlen. cbn [length] in Hlen. split.
  2: { rewrite Et, Z.add_simpl_r. unfold leaf_at. cbn [diff TreeSync_empty_diff].
    rewrite (empty_diff_leaf _ h), (leaf_by_index_spec _ h) by (done || lia). rewrite El, Nat2Z.id, list_lookup_middle by done. by eexists. }
  split; rewrite ?Et; cbn [diff blanked_leaves num_members TreeSync_empty_diff]; rewrite ?Eb, ?En.
  - by apply empty_diff_wf.
  - by apply empty_diff_fits.
  - split; [apply blanked_NoDup|]. intros i [Hi Hl]%blanked_elem_of. apply lookup_lt_Some in Hl. lia.
  - lia.
  - lia.
  - lia.
  - intros i Hi. unfold leaf_at. cbn [diff TreeSync_empty_diff]. rewrite (empty_diff_leaf _ h), (leaf_by_index_spec _ h) by done.
    rewrite El, blanked_elem_of. unfold TreeSyncLeafNode. destruct (Z.lt_trichotomy i (Z.of_nat (length a))) as [H|[->|H]].
    + rewrite lookup_app_l by lia. destruct (lookup_lt_is_Some_2 a (Z.to_nat i)) as [[y|] ->]; [lia|split; [|eauto]..].
      * intros _. split; [lia|]. by intros [_ ?].
      * by intros [? ?].
      * intros [_ []]. done.
    + rewrite Nat2Z.id, list_lookup_middle by done. split; [|eauto]. intros _. split; [lia|]. intros [_ Hl]. apply lookup_lt_Some in Hl. lia.
    + rewrite lookup_app_r by lia. split; [|lia]. destruct (Z.to_nat i - length a)%nat as [|j] eqn:E; [lia|]. cbn.
      destruct (replicate n None !! j) as [o|] eqn:E'; [|by intros []]. apply lookup_replicate in E' as [-> _]. by intros [].
Qed.

Section Epochs.
Context `{!TreeHashing} `{!HashLaws}.

Lemma same_size_height s s' h h' : tree_sync_ok s h -> tree_sync_ok s' h' -> diff_size (diff s) = diff_size (diff s') -> h = h'.
Proof.
  intros Hok Hok' E. rewrite (dwf_size _ _ (mo_diff _ _ (proj1 Hok))), (dwf_size _ _ (mo_diff _ _ (proj1 Hok'))) in E. unfold tree_size in E.
  destruct (dwf_height _ _ (mo_diff _ _ (proj1 Hok))), (dwf_height _ _ (mo_diff _ _ (proj1 Hok'))).
  assert (h + 1 = h' + 1); [|lia]. apply (Z.pow_inj_r 2); lia.
Qed.


Lemma tree_ok_ready c ts h s : tree_ok c ts h -> rtc member_step (TreeSync_empty_diff ts) s ->
  exists h', h <= h' /\ ready c s h' /\ original_tree (diff s) = ts_tree ts.
Proof.
  intros (_ & Hok & Hh & _) Hsteps. pose proof (hashed_cache_ok c _ h (mo_diff _ _ (proj1 Hok)) Hh) as Hc.
  destruct (cache_ok_steps c _ s h Hok Hc Hsteps) as (h' & Hle & Hok' & Hc'). exists h'. split_and!; [done|by split|].
  by apply (member_steps_original _ _ h Hok).
Qed.

(** A commit can always be staged and merged. *)
Lemma commit_epoch c ts h s i keypair signature params keys :
  tree_ok c ts h -> rtc member_step (TreeSync_empty_diff ts) s ->
  0 <= i -> is_Some (leaf_at s i) -> keys <> [] \/ s = TreeSync_empty_diff ts -> length (filtered_direct_path s i) = length keys ->
  exists leaf path hash s' staged h',
    apply_own_update_path (Ok keypair) (fun tbs => Ok (signature tbs)) c i params
      (zip (filtered_direct_path s i) (map ParentNode_from keys)) s = (Ok [keypair], s') /\
    path_applied c s s' h' i leaf (zip (filtered_direct_path s i) (map ParentNode_from keys)) path hash /\
    into_staged_diff s' = Ok staged /\ h <= h' /\
    tree_ok c (TreeSync_merge_diff staged ts) h' /\ reads_like s' (TreeSync_merge_diff staged ts) h'.
Proof.
  intros Hok Hsteps Hi Hs Hne Hlen. destruct (tree_ok_ready c ts h s Hok Hsteps) as (h' & Hle & Hr & Eo).
  assert (Hf : hashes_follow c s h' keys).
  { destruct Hne as [|Es]; [by left|right]. subst s. destruct Hok as (Hwf & Hts & Hh & _).
    by rewrite <- (same_size_height _ _ _ _ Hts (proj1 Hr) eq_refl). }
  destruct (own_update_path_spec keypair signature c s h' i params keys Hr Hi Hs Hf Hlen) as (leaf & path & hash & s' & E & _ & Hpa).
  destruct (merge_spec c ts s' h') as (staged & Es & Hok' & Hreads); [by rewrite (pa_original _ _ _ _ _ _ _ _ _ Hpa)|apply Hpa|apply Hpa|].
  by exists leaf, path, hash, s', staged, h'.
Qed.

Lemma epoch_step_ok c ts ts' h : tree_ok c ts h -> epoch_step c ts ts' -> exists h', h <= h' /\ tree_ok c ts' h'.
Proof.
  intros Hok Hstep. destruct Hstep as [s i keypair signature params keys kps s' staged Hsteps Hi Hs Hne Hlen E Est].
  destruct (commit_epoch c ts h s i keypair signature params keys Hok Hsteps Hi Hs Hne Hlen)
    as (leaf & path & hash & s1 & staged1 & h' & E1 & _ & Est1 & Hle & Hok' & _).
  rewrite E1 in E. injection E as _ <-. rewrite Est1 in Est. injection Est as <-. by exists h'.
Qed.

Lemma epochs_ok c ts ts' h : tree_ok c ts h -> rtc (epoch_step c) ts ts' -> exists h', h <= h' /\ tree_ok c ts' h'.
Proof.
  intros Hok Hsteps. revert h Hok. induction Hsteps as [ts|ts ts1 ts2 Hstep _ IH]; intros h Hok; [by exists h|].
  destruct (epoch_step_ok c ts ts1 h Hok Hstep) as (h1 & ? & Hok1). destruct (IH h1 Hok1) as (h2 & ? & ?).
  exists h2. split; [lia|done].
Qed.

(** A list of one leaf is determined by what is read from it. *)
Lemma single_leaf ts h x : tree_wf (ts_tree ts) h -> h = 0 -> leaf_at (TreeSync_empty_diff ts) 0 = Some x ->
  leaf_nodes (ts_tree ts) = [] ++ Some x :: replicate 0 None.
Proof.
  intros Hwf -> E. unfold leaf_at in E. cbn [diff TreeSync_empty_diff] in E.
  rewrite (empty_diff_leaf _ 0), (leaf_by_index_spec _ 0) in E by done. pose proof (twf_leaves _ _ Hwf) as Hl. change (2 ^ 0) with 1 in Hl.
  destruct (leaf_nodes (ts_tree ts)) as [|y [|z l]]; cbn in *; [lia| |lia]. change (Z.to_nat 0) with 0%nat in E. cbn in E. by rewrite E.
Qed.

Lemma new_tree_spec `{!OpenMlsCrypto} `{!KdfLaws} c leaf encryption_key_pair secret :
  exists ts commit_secret,
    TreeSync_new (Ok (leaf, encryption_key_pair)) (Ok secret) c = Ok (ts, commit_secret, encryption_key_pair) /\
    derive_path_secret secret c = Ok commit_secret /\
    tree_ok c ts 0 /\ TreeSync_leaf ts 0 = Some leaf /\ ts_num_members ts = 1 /\ ts_blanked_leaves ts = [].
Proof.
  assert (Hwf : tree_wf (ts_tree (TreeSync_of (single_tree leaf))) 0) by apply single_tree_wf.
  destruct (populate_ok c _ 0 Hwf) as (ts1 & E1 & Hh1 & Hr1 & Eb1 & _).
  destruct (populate_parent_ok c ts1 0 Hh1) as (ts2 & E2 & Hh2 & Hr2 & Eb2 & _).
  pose proof (reads_like_trans _ _ _ _ Hr1 Hr2) as [Hl Hp].
  pose proof Hh2 as (Hwf2 & Hhd2 & Er2).
  pose proof (single_leaf ts2 0 leaf Hwf2 eq_refl (Hl 0 ltac:(lia))) as El.
  destruct (bookkeeping ts2 [] leaf 0 El) as (_ & En & _). set (ts3 := calculate_num_members ts2) in *.
  assert (Eb3 : ts_blanked_leaves ts3 = []) by (cbn; by rewrite Eb2, Eb1).
  destruct (hashes_ok_book c ts2 0 (ts_blanked_leaves ts2) (ts_num_members ts3) Hh2) as [(Hwf3 & Hh3 & Er3) _].
  change (mkTreeSync _ _ _ _ _) with ts3 in Hwf3, Hh3, Er3.
  eexists ts3, _. split_and!; [|apply derive_path_secret_ok|..].
  - unfold TreeSync_new. cbn [mbind outcome_bind map_err]. rewrite derive_path_secret_ok. cbn [mbind outcome_bind].
    change (ABinaryTree_new [TreeNode_from (NodeLeaf leaf)]) with
      (inr (single_tree leaf) : ABinaryTreeError + ABinaryTree TreeSyncLeafNode TreeSyncParentNode).
    cbn match. run. rewrite E1. run. rewrite E2. done.
  - split_and!; try done. split; [|intros k m p [Hk _] Hpos; lia].
    by apply (members_of_leaves ts3 0 [] leaf 0 Hwf3 El); [left|..].
  - change (leaf_by_index (ts_tree ts2) 0 = Some leaf). rewrite <- (empty_diff_leaf _ 0) by done. exact (Hl 0 ltac:(lia)).
  - exact En.
  - exact Eb3.
Qed.

End Epochs.

(** ** Verification of parent hashes *)

Lemma AbDiff_parents_range {L P} `{!Default L} `{!Default P} (d : AbDiff L P) h i x : diff_wf d h ->
  (i, x) ∈ AbDiff_parents d -> 0 <= i < 2 ^ h - 1.
Proof.
  intros Hd. pose proof (dwf_height _ _ Hd) as [? ?]. pose proof (pow2_pos h).
  unfold AbDiff_parents, ABinaryTree_parents. rewrite (AbDiff_parent_count_spec _ _ Hd).
  rewrite sorted_iter_overlay by (try lia; apply (dwf_parents _ _ Hd)).
  by intros (? & ?)%overlay_items_elem_of.
Qed.

(** The non-blank parents of a diff. *)
Lemma AbDiff_parents_Some (d : AbDiff TreeSyncLeafNode TreeSyncParentNode) h i node : diff_wf d h ->
  (i, Some node) ∈ AbDiff_parents d <-> 0 <= i < 2 ^ h - 1 /\ AbDiff_parent d i = Some node.
Proof.
  intros Hd. pose proof (dwf_height _ _ Hd) as [? ?]. pose proof (pow2_pos h).
  unfold AbDiff_parents, ABinaryTree_parents. rewrite (AbDiff_parent_count_spec _ _ Hd).
  rewrite sorted_iter_overlay by (try lia; apply (dwf_parents _ _ Hd)).
  rewrite overlay_items_elem_of, (AbDiff_parent_overlay _ h) by done.
  unfold TreeSyncParentNode in *. destruct (overlay (parent_diff d) (parent_nodes (original_tree d)) i) as [x|]; [cbn|by split; intros [_ ?]].
  split; intros [? ?]; split; congruence.
Qed.

Section Verify.
Context `{!TreeHashing} `{!HashLaws}.

Lemma verify_parents_Ok c s ps : verify_parents c s ps = Ok tt <->
  forall i node, (i, Some node) ∈ ps -> verify_parent c s i node = Ok tt.
Proof.
  induction ps as [|[i [node|]] ps IH]; cbn [verify_parents].
  - split; [|done]. intros _ i node Hi. by apply not_elem_of_nil in Hi.
  - destruct (verify_parent c s i node) as [[]|e|] eqn:E; cbn [mbind outcome_bind].
    + rewrite IH. split; intros Hps j n; [|intros Hj; apply Hps; by right].
      intros [Hj|Hj]%elem_of_cons; [by simplify_eq|by apply Hps].
    + split; [done|]. intros Hps. rewrite (Hps i node) in E; [done|by left].
    + split; [done|]. intros Hps. rewrite (Hps i node) in E; [done|by left].
  - rewrite IH. split; intros Hps j n; [|intros Hj; apply Hps; by right].
    intros [Hj|Hj]%elem_of_cons; [by simplify_eq|by apply Hps].
Qed.

Lemma compute_tree_hash_total c s h fuel k m ex : height h -> in_tree h (Z.of_nat k) m -> (k < fuel)%nat ->
  exists x, compute_tree_hash_rec fuel c s (index_at (Z.of_nat k) m) ex = Ok x.
Proof.
  intros Hh. revert fuel m. induction k as [|k IH]; intros [|fuel] m Hin Hf; try lia.
  - change (index_at (Z.of_nat 0) m) with (Leaf m). cbn [compute_tree_hash_rec]. destruct (mem m ex); rewrite digest_leaf; eauto.
  - pose proof (in_tree_coord _ _ _ Hh Hin) as Hc. rewrite <- index_at_parent by lia.
    cbn [compute_tree_hash_rec]. rewrite left_pnode, right_pnode by (done || lia).
    pose proof (in_tree_child h (Z.of_nat (S k)) m 0 ltac:(lia) Hin ltac:(lia)) as H0'.
    pose proof (in_tree_child h (Z.of_nat (S k)) m 1 ltac:(lia) Hin ltac:(lia)) as H1'.
    replace (Z.of_nat (S k) - 1) with (Z.of_nat k) in * by lia. rewrite Z.add_0_r in H0'.
    destruct (IH fuel _ H0') as [x ->]; [lia|]. destruct (IH fuel _ H1') as [y ->]; [lia|]. cbn [mbind outcome_bind].
    rewrite digest_parent. eauto.
Qed.

(** The hash of a child without the excluded leaves can be computed. *)
Lemma original_child_hash c s h k m ex : hashed c s h -> in_tree h k m ->
  exists x, (if is_empty ex then (tree_hash (index_at k m) s).1 else compute_tree_hash c s (index_at k m) ex) = Ok x.
Proof.
  intros Hh Hin. rewrite (tree_hash_spec c s h) by done. destruct (is_empty ex); [by eexists|].
  pose proof (proj1 Hh) as ([_ Hle] & _). pose proof Hin as [[Hk Hkh] _].
  pose proof (compute_tree_hash_total c s h 32 (Z.to_nat k) m ex (proj1 (proj1 Hh))) as E. rewrite Z2Nat.id in E by done.
  apply E; [done|lia].
Qed.

(** The verification of the parent hashes accepts or rejects; it does not fail otherwise. *)
Lemma verify_parent_total c s h p node : hashed c s h -> 0 <= p < 2 ^ h - 1 ->
  verify_parent c s p node = Ok tt \/ verify_parent c s p node = Err InvalidParentHash.
Proof.
  intros Hh Hp. destruct (in_tree_exists h p (proj1 (proj1 Hh)) Hp) as (k & m & Hin & Hk & ->).
  pose proof (in_tree_coord _ _ _ (proj1 (proj1 Hh)) Hin) as Hc. unfold verify_parent.
  rewrite left_pnode, right_pnode by done.
  pose proof (in_tree_child h k m 0 Hk Hin ltac:(lia)) as Hl. rewrite Z.add_0_r in Hl.
  pose proof (in_tree_child h k m 1 Hk Hin ltac:(lia)) as Hr.
  destruct (original_child_hash c s h _ _ (unmerged_leaves node) Hh Hl) as [x ->].
  destruct (original_child_hash c s h _ _ (unmerged_leaves node) Hh Hr) as [y ->]. cbn [map_err mbind outcome_bind].
  destruct (compute_parent_hash_ok c node x) as [x' ->]. destruct (compute_parent_hash_ok c node y) as [y' ->].
  cbn [map_err mbind outcome_bind]. destruct (xorb _ _); auto.
Qed.

Lemma verify_parent_hashes_total c s h : diff_wf (diff s) h -> hashed c s h ->
  verify_parent_hashes c s = Ok tt \/ verify_parent_hashes c s = Err InvalidParentHash.
Proof.
  intros Hd Hh. unfold verify_parent_hashes.
  assert (Hps : forall i x, (i, x) ∈ AbDiff_parents (diff s) -> 0 <= i < 2 ^ h - 1) by (intros i x; by apply AbDiff_parents_range).
  induction (AbDiff_parents (diff s)) as [|[i [node|]] ps IH]; cbn [verify_parents]; [by left| |].
  - destruct (verify_parent_total c s h i node Hh) as [-> | ->]; [apply (Hps i (Some node)); by left| |by right].
    cbn [mbind outcome_bind]. apply IH. intros j y Hj. apply (Hps j y). by right.
  - apply IH. intros j y Hj. apply (Hps j y). by right.
Qed.

End Verify.

(** ** Import of a ratchet tree *)

Section RatchetImport.
Context `{!TreeHashing} `{!HashLaws}.

(** The rightmost member of the tree sits in the right half of the tree. *)
Definition ends_full (t : ABinaryTree TreeSyncLeafNode TreeSyncParentNode) (h : Z) : Prop :=
  exists i x, leaf_by_index t i = Some x /\ 0 <= i < 2 ^ h /\ (h = 0 \/ 2 ^ (h - 1) <= i).

(** The leaf with the largest index ever used is a member. *)
Definition last_full (s : TreeSyncDiff) : Prop := is_Some (leaf_at s (total s - 1)).

(** Import computes the hashes and the bookkeeping, then verifies the parent hashes. *)
Lemma import_spec c ratchet_tree t h : ABinaryTree_new (tree_nodes ratchet_tree) = inr t -> tree_wf t h -> ends_full t h ->
  exists ts, hashes_ok c ts h /\ members_ok (TreeSync_empty_diff ts) h /\ last_full (TreeSync_empty_diff ts) /\
    reads_like (TreeSync_empty_diff (TreeSync_of t)) ts h /\
    ((verify_parent_hashes c (TreeSync_empty_diff ts) = Ok tt /\
      exists ts', from_ratchet_tree c ratchet_tree = Ok ts' /\ hashes_ok c ts' h /\ members_ok (TreeSync_empty_diff ts') h /\
        reads_like (TreeSync_empty_diff ts) ts' h /\
        ts_blanked_leaves ts' = ts_blanked_leaves ts /\ ts_num_members ts' = ts_num_members ts) \/
     (verify_parent_hashes c (TreeSync_empty_diff ts) = Err InvalidParentHash /\
      from_ratchet_tree c ratchet_tree = Err (FromNodesPublicTreeError PublicInvalidParentHash))).
Proof.
  intros Et Hwf (i & x & Ex & Hi & Hmin). unfold from_ratchet_tree. rewrite Et.
  destruct (populate_ok c (TreeSync_of t) h Hwf) as (ts1 & E1 & Hh1 & Hr1 & _ & _).
  assert (Ex1 : leaf_nodes (ts_tree ts1) !! Z.to_nat i = Some (Some x)).
  { pose proof (proj1 Hr1 i ltac:(lia)) as E. unfold leaf_at in E. cbn [diff TreeSync_empty_diff TreeSync_of ts_tree] in E.
    rewrite !(empty_diff_leaf _ h) in E by (apply Hh1 || done || lia). rewrite Ex in E.
    rewrite (leaf_by_index_spec _ h) in E by (apply Hh1 || lia).
    destruct (leaf_nodes (ts_tree ts1) !! Z.to_nat i); cbn in E; [by rewrite E|done]. }
  destruct (rightmost_split _ _ _ Ex1) as (a & y & n & El & Hia).
  destruct (bookkeeping ts1 a y n El) as (_ & En & Eb). set (ts2 := calculate_blanked_leaves (calculate_num_members ts1)).
  destruct (hashes_ok_book c ts1 h (ts_blanked_leaves ts2) (ts_num_members ts2) Hh1) as [Hh2 Hr2].
  change (mkTreeSync _ _ _ _ _) with ts2 in Hh2, Hr2.
  destruct (members_of_leaves ts2 h a y n) as [Hm2 Hfull]; [apply Hh2|exact El|lia|exact En|exact Eb|].
  exists ts2. split_and!; [done..|by apply (reads_like_trans _ ts1)|].
  destruct (verify_parent_hashes_total c (TreeSync_empty_diff ts2) h (mo_diff _ _ Hm2) (proj1 (proj2 Hh2))) as [Ev|Ev].
  - left. split; [done|]. destruct (populate_parent_ok c ts2 h Hh2) as (ts3 & E3 & Hh3 & Hr3 & Eb3 & En3).
    exists ts3. split_and!; try done.
    + unfold lift_state. run. rewrite E1. run. fold ts2. rewrite Ev. run. by rewrite E3.
    + apply (members_ok_reads (TreeSync_empty_diff ts2)); [apply empty_diff_wf, Hh3|apply empty_diff_fits, Hh3|done|done|apply Hr3|done].
  - right. split; [done|]. unfold lift_state. run. rewrite E1. run. fold ts2. by rewrite Ev.
Qed.

End RatchetImport.

(** Leaves sit at the even positions of the node list, parents at the odd ones. *)
Lemma split_nodes_lookup {L P} (nodes : list (TreeNode L P)) : forall i ls ps, split_nodes i nodes = inr (ls, ps) -> forall j,
  ((i mod 2 = 0)%nat -> (forall l, ls !! j = Some l <-> nodes !! (2 * j)%nat = Some (TreeNode_Leaf l)) /\
                (forall p, ps !! j = Some p <-> nodes !! (2 * j + 1)%nat = Some (TreeNode_Parent p))) /\
  ((i mod 2 = 1)%nat -> (forall l, ls !! j = Some l <-> nodes !! (2 * j + 1)%nat = Some (TreeNode_Leaf l)) /\
                (forall p, ps !! j = Some p <-> nodes !! (2 * j)%nat = Some (TreeNode_Parent p))).
Proof.
  induction nodes as [|x nodes IH]; intros i ls ps E j; cbn [split_nodes] in E.
  { injection E as <- <-. rewrite !lookup_nil. split; intros _; split; intros; by split. }
  assert (Hp : ((i mod 2 = 0 -> S i mod 2 = 1) /\ (i mod 2 = 1 -> S i mod 2 = 0))%nat).
  { pose proof (Nat.div_mod_eq i 2). pose proof (Nat.div_mod_eq (S i) 2). pose proof (Nat.mod_upper_bound (S i) 2). lia. }
  replace (2 * j + 1)%nat with (S (2 * j)) by lia. cbn [lookup list_lookup].
  destruct x as [l0|p0].
  - destruct (Nat.eqb_spec (i mod 2) 0) as [Hi|]; [|done]. destruct (split_nodes (S i) nodes) as [|[ls' ps']] eqn:E'; [done|].
    injection E as <- <-. split; [|lia]. intros _. pose proof (proj1 Hp Hi) as Hi'. destruct j as [|j].
    + split; intros; cbn; [split; congruence|]. by apply (proj2 (proj2 (IH _ _ _ E' 0%nat) Hi')).
    + replace (2 * S j)%nat with (S (2 * j + 1)) by lia. split; intros; cbn.
      * apply (proj1 (proj2 (IH _ _ _ E' j) Hi')).
      * replace (S (j + (j + 0) + 1)) with (2 * S j)%nat by lia. apply (proj2 (proj2 (IH _ _ _ E' (S j)) Hi')).
  - destruct (Nat.eqb_spec (i mod 2) 1) as [Hi|]; [|done]. destruct (split_nodes (S i) nodes) as [|[ls' ps']] eqn:E'; [done|].
    injection E as <- <-. split; [lia|]. intros _. pose proof (proj2 Hp Hi) as Hi'. destruct j as [|j].
    + split; intros; cbn; [|split; congruence]. by apply (proj1 (proj1 (IH _ _ _ E' 0%nat) Hi')).
    + replace (2 * S j)%nat with (S (2 * j + 1)) by lia. split; intros; cbn.
      * replace (S (j + (j + 0) + 1)) with (2 * S j)%nat by lia. apply (proj1 (proj1 (IH _ _ _ E' (S j)) Hi')).
      * apply (proj2 (proj1 (IH _ _ _ E' j) Hi')).
Qed.

(** The leaf and the parent with a given index in a ratchet tree. *)
Definition ratchet_leaf (ratchet_tree : RatchetTree) (i : LeafNodeIndex) : option LeafNode :=
  match ratchet_tree !! Z.to_nat (2 * i) with Some (Some (NodeLeaf leaf)) => Some leaf | _ => None end.

Definition ratchet_parent (ratchet_tree : RatchetTree) (i : ParentNodeIndex) : option ParentNode :=
  match ratchet_tree !! Z.to_nat (2 * i + 1) with Some (Some (NodeParent parent)) => Some parent | _ => None end.

Lemma ratchet_leaf_Some (ratchet_tree : RatchetTree) i leaf : ratchet_leaf ratchet_tree i = Some leaf ->
  ratchet_tree !! Z.to_nat (2 * i) = Some (Some (NodeLeaf leaf)).
Proof. unfold ratchet_leaf. destruct (ratchet_tree !! _) as [[[l|]|]|]; congruence. Qed.

Lemma tree_nodes_lookup ratchet_tree i : tree_nodes ratchet_tree !! i =
  (fun node => match node with Some node => TreeNode_from node
     | None => if (i mod 2 =? 0)%nat then TreeNode_Leaf blank else TreeNode_Parent blank end) <$> ratchet_tree !! i.
Proof. apply list_lookup_imap. Qed.

Lemma new_tree_leaves (nodes : list (TreeNode TreeSyncLeafNode TreeSyncParentNode)) t i l : ABinaryTree_new nodes = inr t ->
  leaf_nodes t !! i = Some l -> nodes !! (2 * i)%nat = Some (TreeNode_Leaf l).
Proof.
  unfold ABinaryTree_new. destruct (_ <? _); [done|]. destruct (negb _); [done|].
  destruct (split_nodes 0 _) as [|[ls ps]] eqn:E; [done|]. intros [= <-]. cbn [leaf_nodes].
  apply (proj1 (proj1 (split_nodes_lookup _ _ _ _ E i) eq_refl)).
Qed.

Lemma new_tree_reads ratchet_tree t i : ABinaryTree_new (tree_nodes ratchet_tree) = inr t -> 0 <= i ->
  leaf_by_index t i = ratchet_leaf ratchet_tree i /\ parent_by_index t i = ratchet_parent ratchet_tree i.
Proof.
  unfold ABinaryTree_new. destruct (_ <? _); [done|]. destruct (negb _); [done|].
  destruct (split_nodes 0 _) as [|[ls ps]] eqn:E; [done|]. intros [= <-] Hi.
  destruct (split_nodes_lookup _ _ _ _ E (Z.to_nat i)) as [Hs _]. specialize (Hs eq_refl) as [Hls Hps].
  unfold leaf_by_index, parent_by_index, ratchet_leaf, ratchet_parent. cbn [leaf_nodes parent_nodes default_leaf default_parent].
  replace (Z.to_nat (2 * i)) with (2 * Z.to_nat i)%nat by lia. replace (Z.to_nat (2 * i + 1)) with (2 * Z.to_nat i + 1)%nat by lia.
  setoid_rewrite tree_nodes_lookup in Hls. setoid_rewrite tree_nodes_lookup in Hps.
  assert (E0 : ((2 * Z.to_nat i) mod 2 =? 0)%nat = true) by (rewrite Nat.mul_comm, Nat.Div0.mod_mul; done).
  assert (E1 : ((2 * Z.to_nat i + 1) mod 2 =? 0)%nat = false).
  { rewrite Nat.add_comm, Nat.mul_comm, Nat.Div0.mod_add. done. }
  rewrite E0 in Hls. rewrite E1 in Hps. clear -Hls Hps. split.
  - destruct (ratchet_tree !! (2 * Z.to_nat i)%nat) as [[[l|p]|]|]; cbn in Hls; destruct (ls !! Z.to_nat i) as [y|]; cbn;
      try done; try (specialize (Hls y) as [Hls _]; specialize (Hls eq_refl); congruence);
      match goal with |- _ = ?r => specialize (Hls r) as [_ Hls]; specialize (Hls eq_refl); congruence end.
  - destruct (ratchet_tree !! (2 * Z.to_nat i + 1)%nat) as [[[l|p]|]|]; cbn in Hps; destruct (ps !! Z.to_nat i) as [y|]; cbn;
      try done; try (specialize (Hps y) as [Hps _]; specialize (Hps eq_refl); congruence);
      match goal with |- _ = ?r => specialize (Hps r) as [_ Hps]; specialize (Hps eq_refl); congruence end.
Qed.

Lemma new_tree_count (nodes : list (TreeNode TreeSyncLeafNode TreeSyncParentNode)) t : ABinaryTree_new nodes = inr t ->
  length nodes = (length (leaf_nodes t) + length (parent_nodes t))%nat.
Proof.
  unfold ABinaryTree_new. destruct (_ <? _); [done|]. destruct (negb _); [done|].
  destruct (split_nodes 0 nodes) as [|[ls ps]] eqn:Es; [done|]. intros [= <-].
  by destruct (split_nodes_length _ _ _ _ Es) as [<- _].
Qed.

(** The height of an imported tree is the least for its number of nodes. *)
Lemma new_tree_height (nodes : list (TreeNode TreeSyncLeafNode TreeSyncParentNode)) t : ABinaryTree_new nodes = inr t ->
  exists h r, tree_wf t h /\ Z.of_nat (length nodes) = 2 * r + 1 /\ 0 <= r < 2 ^ h /\ (h = 0 \/ 2 ^ (h - 1) <= r).
Proof.
  intros E. destruct (ABinaryTree_new_wf nodes t E) as (h & Hwf & _). exists h, (Z.of_nat (length (parent_nodes t))).
  pose proof (twf_leaves _ _ Hwf) as Hl. pose proof (twf_parents _ _ Hwf) as Hp. pose proof (twf_height _ _ Hwf) as [Hh0 Hh1].
  pose proof (new_tree_count nodes t E) as En.
  split_and!; [done|lia|lia|lia|]. destruct (Z.eq_dec h 0) as [|Hne]; [by left|right].
  pose proof (twf_size _ _ Hwf) as Es. unfold ABinaryTree_tree_size in Es. pose proof (pow2_le h 29).
  rewrite u32_wrap_small in Es by lia. rewrite TreeSize_new_spec in Es by (unfold MAX_TREE_SIZE; lia).
  set (n := Z.of_nat (length (leaf_nodes t) + length (parent_nodes t))) in *.
  pose proof (Z.log2_spec n ltac:(lia)) as [Hlo _]. pose proof (Z.log2_nonneg n). unfold tree_size in Es.
  assert (Z.log2 n + 1 = h + 1) as Eh by (apply (Z.pow_inj_r 2); lia). replace (Z.log2 n) with h in Hlo by lia.
  replace h with (h - 1 + 1) in Hlo by lia. rewrite pow2_succ in Hlo by lia. lia.
Qed.

Lemma trimmed_full nodes node : last nodes = Some (Some node) -> trimmed nodes = nodes.
Proof.
  intros (nodes' & ->)%last_Some. unfold trimmed. rewrite enumerate_app, foldl_app. cbn [imap foldl].
  rewrite bool_decide_true by (by eexists). apply resize_all_alt. rewrite length_app. cbn. lia.
Qed.

Lemma verify_nodes_ok verify nodes : forall i r, verify_nodes verify i nodes = Ok r ->
  r = nodes /\ forall j leaf, nodes !! j = Some (Some (NodeLeaf leaf)) -> verify (u32_wrap ((i + Z.of_nat j) / 2)) leaf = true.
Proof.
  induction nodes as [|node nodes IH]; intros i r E; cbn [verify_nodes] in E.
  { injection E as <-. split; [done|]. intros j leaf Hj. by rewrite lookup_nil in Hj. }
  assert (Hnode : exists rest, verify_nodes verify (i + 1) nodes = Ok rest /\ r = node :: rest /\
    forall leaf, node = Some (NodeLeaf leaf) -> verify (u32_wrap (i / 2)) leaf = true).
  { destruct node as [[leaf|parent]|].
    - destruct (i mod 2 =? 0); [|done]. destruct (verify _ leaf) eqn:Ev; [|done]. cbn [mbind outcome_bind] in E.
      destruct (verify_nodes verify (i + 1) nodes) as [rest| |]; [|done..]. injection E as <-. exists rest. split_and!; [done..|].
      by intros ? [= <-].
    - destruct (i mod 2 =? 1); [|done]. cbn [mbind outcome_bind] in E.
      destruct (verify_nodes verify (i + 1) nodes) as [rest| |]; [|done..]. injection E as <-. by exists rest.
    - cbn [mbind outcome_bind] in E.
      destruct (verify_nodes verify (i + 1) nodes) as [rest| |]; [|done..]. injection E as <-. by exists rest. }
  destruct Hnode as (rest & Er & -> & Hv). destruct (IH _ _ Er) as [-> Hrest]. split; [done|].
  intros [|j] leaf Hj; cbn in Hj.
  - injection Hj as ->. rewrite Z.add_0_r. by apply Hv.
  - rewrite Nat2Z.inj_succ. replace (i + Z.succ (Z.of_nat j)) with (i + 1 + Z.of_nat j) by lia. by apply Hrest.
Qed.

(** A verified tree ends in a node and its leaves are signed for their position. *)
Lemma try_from_nodes_ok verify nodes ratchet_tree : try_from_nodes verify nodes = Ok ratchet_tree ->
  ratchet_tree = nodes /\ (exists node, last nodes = Some (Some node)) /\
  forall i leaf, 0 <= i < 2 ^ 32 -> ratchet_leaf nodes i = Some leaf -> verify i leaf = true.
Proof.
  unfold try_from_nodes. destruct (last nodes) as [[node|]|] eqn:El; [|done..].
  destruct (verify_nodes verify 0 nodes) as [r| |] eqn:E; [|done..]. cbn. intros [= <-].
  destruct (verify_nodes_ok _ _ _ _ E) as [-> Hv]. split_and!; [by apply (trimmed_full _ node)|by exists node|].
  intros i leaf Hi En%ratchet_leaf_Some.
  pose proof (Hv _ _ En) as Hl. rewrite Z.add_0_l, Z2Nat.id, (Z.mul_comm 2), Z.div_mul, u32_wrap_small in Hl by lia. done.
Qed.

Lemma reads_like_tree t ts h : tree_wf t h -> tree_wf (ts_tree ts) h -> reads_like (TreeSync_empty_diff (TreeSync_of t)) ts h ->
  (forall i, 0 <= i -> TreeSync_leaf ts i = leaf_by_index t i) /\
  (forall i, 0 <= i < 2 ^ h - 1 -> TreeSync_parent ts i = parent_by_index t i).
Proof.
  intros Ht Hts [Hl Hp]. split; intros i Hi.
  - etrans; [symmetry; apply (empty_diff_leaf _ h i Hts Hi)|]. etrans; [exact (Hl i Hi)|]. by apply (empty_diff_leaf _ h).
  - destruct (in_tree_exists h i (twf_height _ _ Ht) Hi) as (k & m & Hin & Hk & ->). exact (Hp k m Hin Hk).
Qed.

(** ** Export of a ratchet tree *)

(** Leaves and parents interleaved. *)
Definition interleave (leaf : TreeSyncLeafNode) (leaves : list TreeSyncLeafNode) (parents : list TreeSyncParentNode) :
    list (option Node) :=
  (NodeLeaf <$> leaf) :: concat (zip_with (fun leaf parent => [NodeParent <$> parent; NodeLeaf <$> leaf]) leaves parents).

(** The typed node at position [n] of a ratchet tree. *)
Definition typed (n : nat) (node : option Node) : TreeNode TreeSyncLeafNode TreeSyncParentNode :=
  match node with
  | Some node => TreeNode_from node
  | None => if (n mod 2 =? 0)%nat then TreeNode_Leaf blank else TreeNode_Parent blank
  end.

Lemma typed_leaf n (leaf : TreeSyncLeafNode) : (n mod 2 = 0)%nat -> typed n (NodeLeaf <$> leaf) = TreeNode_Leaf leaf.
Proof. intros E. destruct leaf; [done|]. unfold typed. cbn [fmap option_fmap option_map]. by rewrite E. Qed.

Lemma typed_parent n (parent : TreeSyncParentNode) : (n mod 2 = 1)%nat ->
  typed n (NodeParent <$> parent) = TreeNode_Parent parent.
Proof. intros E. destruct parent; [done|]. unfold typed. cbn [fmap option_fmap option_map]. by rewrite E. Qed.

Lemma split_interleaved (leaves : list TreeSyncLeafNode) : forall (parents : list TreeSyncParentNode) i,
  (i mod 2 = 1)%nat -> length leaves = length parents ->
  split_nodes i (imap (fun j => typed (i + j))
    (concat (zip_with (fun leaf parent => [NodeParent <$> parent; NodeLeaf <$> leaf]) leaves parents))) = inr (leaves, parents).
Proof.
  induction leaves as [|l leaves IH]; intros [|p parents] i Hi Hlen; try done.
  assert (Hi' : (S i mod 2 = 0 /\ S (S i) mod 2 = 1)%nat).
  { pose proof (Nat.div_mod_eq i 2). pose proof (Nat.div_mod_eq (S i) 2). pose proof (Nat.mod_upper_bound (S i) 2).
    pose proof (Nat.div_mod_eq (S (S i)) 2). pose proof (Nat.mod_upper_bound (S (S i)) 2). lia. }
  cbn [zip_with concat app imap]. unfold compose. rewrite Nat.add_0_r, typed_parent, Nat.add_1_r, typed_leaf by apply Hi' || done.
  cbn [split_nodes]. rewrite Hi, (proj1 Hi'). cbn [Nat.eqb].
  rewrite (imap_ext _ (fun j => typed (S (S i) + j))); [|intros j x _; f_equal; lia].
  rewrite IH; [done|apply Hi'|]. by injection Hlen.
Qed.

Lemma new_interleaved leaf leaves parents : length leaves = length parents -> Z.of_nat (length parents) < 2 ^ 29 ->
  ABinaryTree_new (tree_nodes (interleave leaf leaves parents)) =
    inr {| leaf_nodes := leaf :: leaves; parent_nodes := parents; default_leaf := blank; default_parent := blank |}.
Proof.
  intros Hlen Hmax. assert (Hl : length (tree_nodes (interleave leaf leaves parents)) = (1 + length parents * 2)%nat).
  { unfold tree_nodes. rewrite length_imap. unfold interleave. cbn [length Nat.add]. f_equal. clear Hmax.
    revert leaves Hlen. induction parents as [|p parents IH]; intros [|l leaves] Hlen; try done.
    injection Hlen as Hlen. cbn [zip_with concat app length Nat.mul Nat.add]. by rewrite (IH leaves Hlen). }
  unfold ABinaryTree_new. rewrite Hl. destruct (Z.ltb_spec MAX_TREE_SIZE (Z.of_nat (1 + length parents * 2))) as [Hm|_].
  { unfold MAX_TREE_SIZE in Hm. lia. }
  rewrite Nat.Div0.mod_add. change (negb (1 mod 2 =? 1)%nat) with false. cbn match.
  change (tree_nodes (interleave leaf leaves parents)) with (imap typed (interleave leaf leaves parents)).
  unfold interleave. cbn [imap]. rewrite (typed_leaf 0) by done. cbn [split_nodes]. change (0 mod 2 =? 0)%nat with true. cbn match.
  pose proof (split_interleaved leaves parents 1 eq_refl Hlen) as E. rewrite (imap_ext _ (fun j => typed (1 + j))) by done.
  by rewrite E.
Qed.

Lemma take_members {A} (a : list (option A)) x n : take (length a + 1) (a ++ Some x :: replicate n None) = a ++ [Some x].
Proof. rewrite take_app_ge by lia. by replace (length a + 1 - length a)%nat with 1%nat by lia. Qed.

Lemma interleave_last leaf leaves parents x : length leaves = length parents -> last (leaf :: leaves) = Some (Some x) ->
  last (interleave leaf leaves parents) = Some (Some (NodeLeaf x)).
Proof.
  unfold interleave. revert leaf parents. induction leaves as [|l leaves IH]; intros leaf [|p parents] Hlen Hlast; try done.
  - cbn in *. by injection Hlast as ->.
  - injection Hlen as Hlen. exact (IH l parents Hlen Hlast).
Qed.

(** The exported nodes: leaves up to the rightmost member with the parents between them. *)
Lemma export_spec ts h a x n : tree_wf (ts_tree ts) h -> leaf_nodes (ts_tree ts) = a ++ Some x :: replicate n None ->
  exists leaf leaves, a ++ [Some x] = leaf :: leaves /\
    export_ratchet_tree ts = interleave leaf leaves (take (length a) (parent_nodes (ts_tree ts))) /\
    length leaves = length a /\ length (take (length a) (parent_nodes (ts_tree ts))) = length a.
Proof.
  intros Hwf El. destruct (bookkeeping ts a x n El) as (Er & _).
  assert (Hp : length (parent_nodes (ts_tree ts)) = (length a + n)%nat).
  { pose proof (twf_parents _ _ Hwf) as Hp. rewrite El, length_app in Hp. cbn [length] in Hp. rewrite length_replicate in Hp.
    unfold TreeSyncLeafNode in *. lia. }
  assert (Hpl : length (take (length a) (parent_nodes (ts_tree ts))) = length a) by (rewrite length_take; lia).
  assert (Hll : length (a ++ [Some x]) = S (length a)) by (rewrite length_app, Nat.add_1_r; done).
  pose proof (last_snoc (Some x) a) as Hlast. pose proof (take_members a x n) as Et.
  unfold export_ratchet_tree. rewrite (twf_parents _ _ Hwf). rewrite Er, El, Nat2Z.id, Nat.sub_succ, Nat.sub_0_r, Nat.sub_diag.
  cbn [replicate]. rewrite app_nil_r. unfold TreeSyncLeafNode in *. rewrite Et.
  destruct (a ++ [Some x]) as [|leaf leaves]; [done|]. injection Hll as Hll. exists leaf, leaves. split_and!; [done| |done|done].
  apply (trimmed_full _ (NodeLeaf x)), (interleave_last leaf leaves); [|exact Hlast]. by rewrite Hpl.
Qed.

(** ** Verification reads the nodes of the tree only *)

Section VerifyReads.
Context `{!TreeHashing} `{!HashLaws} (c : Ciphersuite) (s s' : TreeSyncDiff) (h : Z).
Context (Hok : tree_sync_ok s h) (Hm' : members_ok s' h) (Hh : hashed c s h) (Hh' : hashed c s' h).
Context (Hl : forall j, 0 <= j -> leaf_at s' j = leaf_at s j).
Context (Hp : forall k m, in_tree h k m -> 0 < k -> parent_at s' k m = parent_at s k m).
Context (Hfull : last_full s) (Hfull' : last_full s').

Lemma same_total : total s' = total s.
Proof using Hok Hm' Hl Hfull Hfull'.
  pose proof (mo_total _ _ (proj1 Hok)). pose proof (mo_total _ _ Hm'). unfold last_full in *.
  rewrite Hl in Hfull' by lia. rewrite <- Hl in Hfull by lia.
  apply (mo_leaves _ _ (proj1 Hok)) in Hfull' as [? _]; [|lia]. apply (mo_leaves _ _ Hm') in Hfull as [? _]; [|lia]. lia.
Qed.

Lemma resolution_reads fuel k m ex r : in_tree h k m ->
  resolution_rec fuel s' (index_at k m) ex r = resolution_rec fuel s (index_at k m) ex r.
Proof using Hok Hl Hp.
  pose proof (dwf_height _ _ (mo_diff _ _ (proj1 Hok))) as Hht. revert k m. induction fuel as [|fuel IH]; intros k m Hin; [done|].
  assert (Hres : forall i, 0 <= i -> leaf_resolution s' i = leaf_resolution s i).
  { intros i Hi. unfold leaf_resolution. change (AbDiff_leaf (diff s') i) with (leaf_at s' i). by rewrite Hl. }
  pose proof Hin as [[Hk _] Hm0]. destruct (Z.eq_dec k 0) as [->|Hne].
  { change (index_at 0 m) with (Leaf m). cbn [resolution_rec]. destruct (mem m ex); [done|]. apply Hres. lia. }
  pose proof (in_tree_coord _ _ _ Hht Hin) as Hc. rewrite <- index_at_parent by lia. cbn [resolution_rec].
  change (AbDiff_parent (diff s') (pnode k m)) with (parent_at s' k m). rewrite Hp by (done || lia).
  change (AbDiff_parent (diff s) (pnode k m)) with (parent_at s k m). destruct (parent_at s k m) as [p|] eqn:Ep.
  - do 2 f_equal. apply map_ext_in. intros i Hi%list_elem_of_In. destruct (mem i ex); [done|]. apply Hres.
    by apply (po_below _ _ _ _ (proj2 Hok k m p Hin ltac:(lia) Ep)).
  - rewrite left_pnode, right_pnode by (done || lia). pose proof (in_tree_child h k m 0 ltac:(lia) Hin ltac:(lia)) as Hc0.
    rewrite Z.add_0_r in Hc0. rewrite (IH _ _ Hc0), (IH _ _ (in_tree_child h k m 1 ltac:(lia) Hin ltac:(lia))). done.
Qed.

Lemma hash_reads fuel k m ex : in_tree h k m ->
  compute_tree_hash_rec fuel c s' (index_at k m) ex = compute_tree_hash_rec fuel c s (index_at k m) ex.
Proof using Hok Hl Hp.
  pose proof (dwf_height _ _ (mo_diff _ _ (proj1 Hok))) as Hht. revert k m. induction fuel as [|fuel IH]; intros k m Hin; [done|].
  pose proof Hin as [[Hk _] Hm0]. destruct (Z.eq_dec k 0) as [->|Hne].
  { change (index_at 0 m) with (Leaf m). cbn [compute_tree_hash_rec]. change (AbDiff_leaf (diff s') m) with (leaf_at s' m).
    rewrite Hl by lia. done. }
  pose proof (in_tree_coord _ _ _ Hht Hin) as Hc. rewrite <- index_at_parent by lia. cbn [compute_tree_hash_rec].
  change (AbDiff_parent (diff s') (pnode k m)) with (parent_at s' k m). rewrite Hp by (done || lia).
  rewrite left_pnode, right_pnode by (done || lia). pose proof (in_tree_child h k m 0 ltac:(lia) Hin ltac:(lia)) as Hc0.
  rewrite Z.add_0_r in Hc0. rewrite (IH _ _ Hc0), (IH _ _ (in_tree_child h k m 1 ltac:(lia) Hin ltac:(lia))). done.
Qed.

Lemma verify_parent_reads p node : 0 <= p < 2 ^ h - 1 -> verify_parent c s' p node = verify_parent c s p node.
Proof.
  intros Hr. pose proof (proj1 (proj1 Hh)) as Hht. destruct (in_tree_exists h p Hht Hr) as (k & m & Hin & Hk & ->).
  pose proof (in_tree_coord _ _ _ Hht Hin) as Hc. unfold verify_parent. rewrite left_pnode, right_pnode by done.
  pose proof (in_tree_child h k m 0 Hk Hin ltac:(lia)) as Hc0. rewrite Z.add_0_r in Hc0.
  pose proof (in_tree_child h k m 1 Hk Hin ltac:(lia)) as Hc1.
  rewrite !(tree_hash_spec c s h), !(tree_hash_spec c s' h) by done. unfold node_hash, compute_tree_hash, resolution.
  rewrite !hash_reads, !resolution_reads by done.
  rewrite !(rightmost_full_leaf_spec _ h) by (done || apply (mo_total _ _ (proj1 Hok)) || apply (mo_total _ _ Hm')).
  by rewrite same_total.
Qed.

Lemma verify_reads : verify_parent_hashes c s' = Ok tt <-> verify_parent_hashes c s = Ok tt.
Proof.
  unfold verify_parent_hashes. rewrite !verify_parents_Ok.
  assert (Hps : forall i node, (i, Some node) ∈ AbDiff_parents (diff s') <-> (i, Some node) ∈ AbDiff_parents (diff s)).
  { intros i node. rewrite (AbDiff_parents_Some _ h i node (mo_diff _ _ Hm')), (AbDiff_parents_Some _ h i node (mo_diff _ _ (proj1 Hok))).
    split; intros [Hi E]; (split; [done|]); destruct (in_tree_exists h i (proj1 (proj1 Hh)) Hi) as (k & m & Hin & Hk & ->);
      rewrite <- E; [symmetry|]; by apply (Hp k m). }
  split; intros Hv i node Hi; pose proof (proj1 (AbDiff_parents_Some _ h i node (mo_diff _ _ (proj1 Hok)))) as Hr.
  - rewrite <- verify_parent_reads by (by apply Hr). by apply Hv, Hps.
  - rewrite verify_parent_reads by (by apply Hr, Hps). by apply Hv, Hps.
Qed.

End VerifyReads.

(** ** The exported tree *)

(** Right of the last member all parents are blank. *)
Lemma parents_beyond_blank s h i : tree_sync_ok s h -> total s - 1 <= i < 2 ^ h - 1 -> AbDiff_parent (diff s) i = None.
Proof.
  intros [Hm Hps] Hi. pose proof (mo_total _ _ Hm). pose proof (dwf_height _ _ (mo_diff _ _ Hm)) as Hht.
  destruct (in_tree_exists h i Hht ltac:(lia)) as (k & m & Hin & Hk & ->).
  destruct (AbDiff_parent (diff s) (pnode k m)) as [p|] eqn:E; [|done]. exfalso.
  destruct (po_both _ _ _ _ (Hps k m p Hin Hk E) 1 ltac:(lia)) as (j & Hj0 & Hj & Hs).
  apply (mo_leaves _ _ Hm) in Hs as [Hjt _]; [|done]. unfold pnode, node in Hi. rewrite Z.sub_add in Hi.
  pose proof (Z.mul_div_le j (2 ^ (k - 1)) (pow2_pos (k - 1) ltac:(lia))) as Hle. rewrite Hj in Hle.
  assert (2 ^ k = 2 * 2 ^ (k - 1)) as Ek by (rewrite <- pow2_succ by lia; f_equal; lia). rewrite Ek in Hi. nia.
Qed.

(** The leaves up to the last member. *)
Lemma last_full_split ts h : tree_wf (ts_tree ts) h -> members_ok (TreeSync_empty_diff ts) h -> last_full (TreeSync_empty_diff ts) ->
  exists a x n, leaf_nodes (ts_tree ts) = a ++ Some x :: replicate n None /\ total (TreeSync_empty_diff ts) = Z.of_nat (length a) + 1.
Proof.
  intros Hwf Hm [x Hx]. pose proof (mo_total _ _ Hm) as Ht. set (r := total (TreeSync_empty_diff ts) - 1) in *.
  assert (Hread : forall j y, 0 <= j -> leaf_nodes (ts_tree ts) !! Z.to_nat j = Some (Some y) <-> leaf_at (TreeSync_empty_diff ts) j = Some y).
  { intros j y Hj. unfold leaf_at. cbn [diff TreeSync_empty_diff]. rewrite (empty_diff_leaf _ h), (leaf_by_index_spec _ h) by done.
    unfold TreeSyncLeafNode in *. match goal with |- context [?l !! Z.to_nat j] => destruct (l !! Z.to_nat j) as [o|] end;
      [|by split]. cbn. split; congruence. }
  apply Hread in Hx; [|lia]. destruct (rightmost_split _ _ _ Hx) as (a & y & n & El & Hle). exists a, y, n. split; [done|].
  assert (Hy : leaf_at (TreeSync_empty_diff ts) (Z.of_nat (length a)) = Some y).
  { apply Hread; [lia|]. rewrite El, Nat2Z.id. by rewrite list_lookup_middle. }
  destruct (proj1 (mo_leaves _ _ Hm (Z.of_nat (length a)) ltac:(lia))) as [? _]; [by eexists|]. lia.
Qed.

Lemma height_unique h h' r : 0 <= h -> 0 <= h' -> 0 <= r < 2 ^ h -> 0 <= r < 2 ^ h' ->
  h = 0 \/ 2 ^ (h - 1) <= r -> h' = 0 \/ 2 ^ (h' - 1) <= r -> h = h'.
Proof.
  intros H0 H0' Hr Hr' Hm Hm'. destruct (Z.lt_trichotomy h h') as [Hlt|[?|Hlt]]; [|done|].
  - pose proof (pow2_le h (h' - 1)). lia.
  - pose proof (pow2_le h' (h - 1)). lia.
Qed.

(** The exported nodes stand for the same tree. *)
Lemma export_tree ts h : tree_wf (ts_tree ts) h -> tree_sync_ok (TreeSync_empty_diff ts) h -> last_full (TreeSync_empty_diff ts) ->
  exists t, ABinaryTree_new (tree_nodes (export_ratchet_tree ts)) = inr t /\ tree_wf t h /\ ends_full t h /\
    (forall i, 0 <= i -> leaf_by_index t i = leaf_by_index (ts_tree ts) i) /\
    (forall i, 0 <= i < 2 ^ h - 1 -> parent_by_index t i = parent_by_index (ts_tree ts) i).
Proof.
  intros Hwf Hok Hfull. destruct (last_full_split ts h Hwf (proj1 Hok) Hfull) as (a & x & n & El & Et).
  destruct (export_spec ts h a x n Hwf El) as (leaf & leaves & Ea & Ee & Hll & Hpl).
  pose proof (mo_total _ _ (proj1 Hok)) as Ht. pose proof (mo_minimal _ _ (proj1 Hok)) as Hmin. rewrite Et in Ht, Hmin.
  pose proof (twf_height _ _ Hwf) as [Hh0 Hh1]. pose proof (pow2_le h 29).
  pose proof (new_interleaved leaf leaves (take (length a) (parent_nodes (ts_tree ts))) (eq_trans Hll (eq_sym Hpl))) as En.
  rewrite Hpl in En. specialize (En ltac:(lia)). rewrite <- Ee in En. eexists. split; [exact En|].
  pose proof (new_tree_count _ _ En) as Hc. destruct (new_tree_height _ _ En) as (h' & r & Hwf' & Hlen & Hr & Hmin').
  cbn [leaf_nodes parent_nodes length] in Hc. rewrite Hpl in Hc. change (length leaves) with (length (leaves : list (option LeafNode))) in Hc.
  unfold TreeSyncLeafNode in Hll, Hc, Hlen. rewrite Hll in Hc.
  assert (r = Z.of_nat (length a)) as -> by lia.
  assert (h' = h) as -> by (apply (height_unique h' h (Z.of_nat (length a))); [apply (twf_height _ _ Hwf')|lia..]).
  set (t := mkABinaryTree _ _ _ _) in *.
  assert (Hleaf : forall i, 0 <= i -> leaf_by_index t i = leaf_by_index (ts_tree ts) i).
  { intros i Hi. rewrite !(leaf_by_index_spec _ h) by done. rewrite (eq_sym Ea : leaf_nodes t = a ++ [Some x]), El. unfold TreeSyncLeafNode.
    destruct (Nat.lt_trichotomy (Z.to_nat i) (length a)) as [Hlt|[Heq|Hgt]].
    - by rewrite !lookup_app_l by done.
    - by rewrite !list_lookup_middle by done.
    - rewrite lookup_ge_None_2 by (rewrite length_app; cbn; lia). rewrite lookup_app_r by lia.
      destruct (Z.to_nat i - length a)%nat as [|j] eqn:E; [lia|]. cbn. destruct (replicate n None !! j) eqn:Er; [|done].
      by apply lookup_replicate in Er as [-> _]. }
  split; [done|]. split; [|split; [done|]].
  - exists (Z.of_nat (length a)), x. split; [|lia]. rewrite Hleaf by lia. rewrite (leaf_by_index_spec _ h), El by (done || lia).
    by rewrite Nat2Z.id, list_lookup_middle.
  - intros i Hi. destruct (Z.lt_ge_cases i (Z.of_nat (length a))) as [Hlt|Hge].
    + unfold parent_by_index. cbn [parent_nodes default_parent t]. rewrite lookup_take_lt by lia. by rewrite (twf_default_parent _ _ Hwf).
    + pose proof (parents_beyond_blank _ h i Hok ltac:(lia)) as Eb. cbn [diff TreeSync_empty_diff] in Eb. rewrite empty_diff_parent in Eb.
      rewrite Eb. unfold parent_by_index. cbn [parent_nodes default_parent t]. by rewrite lookup_ge_None_2 by (rewrite Hpl; lia).
Qed.

(** ** Theorems *)

Section Theorems.
Context `{!TreeHashing} `{!HashLaws}.

(** A ratchet tree that ends in a node has its last leaf in the right half. *)
Lemma imported_ends_full ratchet_tree t node : ABinaryTree_new (tree_nodes ratchet_tree) = inr t ->
  last ratchet_tree = Some (Some node) -> exists h, tree_wf t h /\ ends_full t h.
Proof.
  intros E Hlast. destruct (new_tree_height _ _ E) as (h & r & Hwf & Hn & Hr & Hmin). exists h. split; [done|].
  unfold tree_nodes in Hn. rewrite length_imap in Hn.
  assert (En : ratchet_tree !! Z.to_nat (2 * r) = Some (Some node)).
  { rewrite last_lookup in Hlast. by replace (Z.to_nat (2 * r)) with (pred (length ratchet_tree)) by lia. }
  destruct (new_tree_reads _ _ r E ltac:(lia)) as [El _]. unfold ratchet_leaf in El. rewrite En in El.
  destruct node as [x|p]; [by exists r, x|]. exfalso.
  pose proof (twf_parents _ _ Hwf) as Hp. pose proof (new_tree_count _ _ E) as Hc. unfold tree_nodes in Hc. rewrite length_imap in Hc.
  destruct (lookup_lt_is_Some_2 (leaf_nodes t) (Z.to_nat r)) as [l Hl]; [lia|].
  apply (new_tree_leaves _ _ _ _ E) in Hl. rewrite tree_nodes_lookup in Hl.
  replace (2 * Z.to_nat r)%nat with (Z.to_nat (2 * r)) in Hl by lia. by rewrite En in Hl.
Qed.

(** Importing a received ratchet tree never panics and rejects a tree only as malformed
    or for its parent hashes. What it accepts has the leaves and parents of the
    received nodes, each leaf verified for its position, consistent member
    bookkeeping, and the right hash in every entry of the cache. *)
Theorem import_correct c verify nodes ratchet_tree :
  try_from_nodes verify nodes = Ok ratchet_tree ->
  (exists e, from_ratchet_tree c ratchet_tree = Err (FromNodesPublicTreeError e)) \/
  (exists ts h, from_ratchet_tree c ratchet_tree = Ok ts /\
    hashes_ok c ts h /\ members_ok (TreeSync_empty_diff ts) h /\
    (forall i, 0 <= i -> TreeSync_leaf ts i = ratchet_leaf nodes i) /\
    (forall i, 0 <= i < 2 ^ h - 1 -> TreeSync_parent ts i = ratchet_parent nodes i) /\
    (forall i leaf, 0 <= i < 2 ^ 32 -> TreeSync_leaf ts i = Some leaf -> verify i leaf = true)).
Proof.
  intros (-> & (node & Hlast) & Hv)%try_from_nodes_ok.
  destruct (ABinaryTree_new (tree_nodes nodes)) as [e|t] eqn:Et.
  { left. exists MalformedTree. unfold from_ratchet_tree. by rewrite Et. }
  destruct (imported_ends_full _ _ _ Et Hlast) as (h & Hwf & Hends).
  destruct (import_spec c nodes t h Et Hwf Hends) as (ts1 & _ & _ & _ & Hr1 & [(_ & ts & E & Hh & Hm & Hr & _)|[_ E]]); [right|left; eauto].
  destruct (reads_like_tree _ _ _ Hwf (proj1 Hh) (reads_like_trans _ _ _ _ Hr1 Hr)) as [Hl Hp].
  assert (Hleaf : forall i, 0 <= i -> TreeSync_leaf ts i = ratchet_leaf nodes i).
  { intros i Hi. etrans; [apply (Hl i Hi)|]. by apply (new_tree_reads _ _ i Et). }
  exists ts, h. split_and!; try done.
  - intros i Hi. etrans; [apply (Hp i Hi)|]. apply (new_tree_reads _ _ i Et); lia.
  - intros i leaf Hi. rewrite Hleaf by lia. by apply Hv.
Qed.

(** The imported tree is the exported one. *)
Lemma roundtrip_spec c ts h : tree_ok c ts h -> last_full (TreeSync_empty_diff ts) ->
  (verify_parent_hashes c (TreeSync_empty_diff ts) = Ok tt /\
   exists ts', from_ratchet_tree c (export_ratchet_tree ts) = Ok ts' /\ tree_ok c ts' h /\
     reads_like (TreeSync_empty_diff ts) ts' h /\
     total (TreeSync_empty_diff ts') = total (TreeSync_empty_diff ts)) \/
  (verify_parent_hashes c (TreeSync_empty_diff ts) <> Ok tt /\
   from_ratchet_tree c (export_ratchet_tree ts) = Err (FromNodesPublicTreeError PublicInvalidParentHash)).
Proof.
  intros (Hwf & Hok & Hh & Er) Hfull. destruct (export_tree ts h Hwf Hok Hfull) as (t & Et & Hwft & Hends & Hl & Hp).
  destruct (import_spec c _ t h Et Hwft Hends) as (ts1 & Hh1 & Hm1 & Hf1 & Hr1 & Himp).
  assert (Hr : reads_like (TreeSync_empty_diff ts) ts1 h).
  { apply (reads_like_trans _ (TreeSync_of t)); [|done]. split.
    - intros j Hj. unfold leaf_at. cbn [diff TreeSync_empty_diff TreeSync_of ts_tree]. rewrite !(empty_diff_leaf _ h) by done. by apply Hl.
    - intros k m Hin Hk. exact (Hp (pnode k m) (pnode_in_tree h k m Hin Hk)). }
  pose proof (verify_reads c _ (TreeSync_empty_diff ts1) h Hok Hm1 Hh (proj1 (proj2 Hh1)) (proj1 Hr) (proj2 Hr) Hfull Hf1) as Hv.
  pose proof (same_total _ (TreeSync_empty_diff ts1) h Hok Hm1 (proj1 Hr) Hfull Hf1) as Ht.
  destruct Himp as [(Ev & ts2 & E2 & (Hwf2 & Hhd2 & Er2) & Hm2 & Hr2 & Eb & En)|[Ev E]].
  - left. split; [by apply Hv|]. pose proof (reads_like_trans _ _ _ _ Hr Hr2) as Hr3. exists ts2. split; [done|]. split; [|split; [done|]].
    + split_and!; [done| |done|done]. split; [done|].
      by apply (parents_ok_in_tree (TreeSync_empty_diff ts) _ h (twf_height _ _ Hwf) (proj1 Hr3) (proj2 Hr3)), Hok.
    + rewrite <- Ht. unfold total. cbn [num_members blanked_leaves TreeSync_empty_diff]. by rewrite Eb, En.
  - right. split; [|done]. rewrite <- Hv. by rewrite Ev.
Qed.

(** A tree that reads the same has the same root hash and the same members. *)
Lemma same_tree c ts ts' h : tree_ok c ts h -> tree_ok c ts' h -> reads_like (TreeSync_empty_diff ts) ts' h ->
  total (TreeSync_empty_diff ts') = total (TreeSync_empty_diff ts) ->
  ts_tree_hash ts' = ts_tree_hash ts /\
  ts_blanked_leaves ts' ≡ₚ ts_blanked_leaves ts /\ ts_num_members ts' = ts_num_members ts.
Proof.
  intros (Hwf & [Hm _] & Hh & Er) (Hwf' & [Hm' _] & Hh' & Er') [Hl Hp] Ht. pose proof (twf_height _ _ Hwf) as Hht.
  assert (Hb : ts_blanked_leaves ts' ≡ₚ ts_blanked_leaves ts).
  { apply NoDup_Permutation; [apply (mo_blanked _ _ Hm')|apply (mo_blanked _ _ Hm)|]. intros i.
    pose proof (proj2 (mo_blanked _ _ Hm) i) as Hr. pose proof (proj2 (mo_blanked _ _ Hm') i) as Hr'.
    pose proof (mo_leaves _ _ Hm i) as Hi. pose proof (mo_leaves _ _ Hm' i) as Hi'. rewrite Ht in Hr', Hi'.
    cbn [blanked_leaves TreeSync_empty_diff] in Hr, Hr', Hi, Hi'.
    split; intros Hin; [specialize (Hr' Hin)|specialize (Hr Hin)];
      (rewrite Hl in Hi' by lia; specialize (Hi ltac:(lia)); specialize (Hi' ltac:(lia));
       apply dec_stable; intros Hn; tauto). }
  split_and!; [|done|].
  - enough (Ok (ts_tree_hash ts') = Ok (E := LibraryError) (ts_tree_hash ts)) as [= ->] by done. rewrite Er, Er'. etrans; [apply (compute_root_spec c _ h (proj1 Hh'))|].
    etrans; [|symmetry; apply (compute_root_spec c _ h (proj1 Hh))]. f_equal.
    apply (hash_of_ext _ h); [rewrite Z2Nat.id by apply Hht; by apply in_tree_root|intros; by apply Hl|].
    intros j n Hj Hn _. apply Hp; [done|lia].
  - unfold total in Ht. cbn [num_members blanked_leaves TreeSync_empty_diff] in Ht. rewrite Hb in Ht. lia.
Qed.

(** C33: joining from an exported ratchet tree reproduces the exporter's tree: when the
    leaf with the largest index in use is a member and the parent hashes of
    the tree verify, [from_ratchet_tree] of [export_ratchet_tree] succeeds with
    a consistent tree with the same leaves, parents, size, members and root
    hash; when they do not verify, it is rejected for its parent hashes. *)
Theorem export_import_roundtrip c ts h :
  tree_ok c ts h -> last_full (TreeSync_empty_diff ts) ->
  (verify_parent_hashes c (TreeSync_empty_diff ts) = Ok tt /\
   exists ts', from_ratchet_tree c (export_ratchet_tree ts) = Ok ts' /\ tree_ok c ts' h /\
     (forall i, 0 <= i -> TreeSync_leaf ts' i = TreeSync_leaf ts i) /\
     (forall i, 0 <= i < 2 ^ h - 1 -> TreeSync_parent ts' i = TreeSync_parent ts i) /\
     ts_tree_hash ts' = ts_tree_hash ts /\ ts_num_members ts' = ts_num_members ts /\
     ts_blanked_leaves ts' ≡ₚ ts_blanked_leaves ts) \/
  (verify_parent_hashes c (TreeSync_empty_diff ts) <> Ok tt /\
   from_ratchet_tree c (export_ratchet_tree ts) = Err (FromNodesPublicTreeError PublicInvalidParentHash)).
Proof.
  intros Hok Hfull. destruct (roundtrip_spec c ts h Hok Hfull) as [(Hv & ts' & E & Hok' & Hr & Ht)|?]; [left|by right].
  split; [done|]. destruct (same_tree c ts ts' h Hok Hok' Hr Ht) as (? & ? & ?).
  destruct (reads_like_tree (ts_tree ts) ts' h) as [Hl Hp]; [apply Hok|apply Hok'|exact Hr|]. by exists ts'.
Qed.

(** C15: [TreeSync::new] yields a tree of one member that is consistent, with every hash
    right; and whatever commits with update paths follow, each after any additions,
    updates and removals, every tree of the group stays so, as long as a commit whose
    path has no nodes changes no other leaf.  (The one commit this leaves out, a member
    that removes all others, is that of [empty_path_leaves_stale_hash].) *)
Theorem group_tree_invariant `{!OpenMlsCrypto} `{!KdfLaws} c leaf encryption_key_pair secret :
  exists ts commit_secret,
    TreeSync_new (Ok (leaf, encryption_key_pair)) (Ok secret) c = Ok (ts, commit_secret, encryption_key_pair) /\
    TreeSync_leaf ts 0 = Some leaf /\ ts_num_members ts = 1 /\
    forall ts', rtc (epoch_step c) ts ts' -> exists h, tree_ok c ts' h.
Proof.
  destruct (new_tree_spec c leaf encryption_key_pair secret) as (ts & cs & E & _ & Hok & El & En & _).
  exists ts, cs. split_and!; [done..|]. intros ts' Hsteps. destruct (epochs_ok c ts ts' 0 Hok Hsteps) as (h & _ & ?). by exists h.
Qed.

(** A commit with an update path always goes through: after any additions, updates
    and removals on the current tree, applying the committer's path, staging and
    merging succeed; the merged tree is consistent, reads like the staged diff
    and carries its recursive tree hash. *)
Theorem commit_merges c ts h s i keypair signature params keys :
  tree_ok c ts h -> rtc member_step (TreeSync_empty_diff ts) s ->
  0 <= i -> is_Some (leaf_at s i) -> keys <> [] \/ s = TreeSync_empty_diff ts -> length (filtered_direct_path s i) = length keys ->
  exists s' staged h',
    apply_own_update_path (Ok keypair) (fun tbs => Ok (signature tbs)) c i params
      (zip (filtered_direct_path s i) (map ParentNode_from keys)) s = (Ok [keypair], s') /\
    into_staged_diff s' = Ok staged /\ h <= h' /\
    tree_ok c (TreeSync_merge_diff staged ts) h' /\ reads_like s' (TreeSync_merge_diff staged ts) h'.
Proof.
  intros Hok Hsteps Hi Hs Hne Hlen.
  destruct (commit_epoch c ts h s i keypair signature params keys Hok Hsteps Hi Hs Hne Hlen)
    as (leaf & path & hash & s' & staged & h' & ? & _ & ?). by exists s', staged, h'.
Qed.

End Theorems.

(** ** Witnesses *)

(** A commit of member [i] after the changes [f]. *)
Definition sample_epoch (ts : TreeSync) (f : TreeSyncDiff -> TreeSyncDiff) (i : LeafNodeIndex) (keys : list bytes) : TreeSync :=
  let s := f (TreeSync_empty_diff ts) in
  let s' := (@apply_own_update_path toy_hashing (Ok ([50], [50])) (fun _ => Ok []) hash_suite i sample_params
    (zip (filtered_direct_path s i) (map ParentNode_from keys)) s).2 in
  match into_staged_diff s' with Ok staged => TreeSync_merge_diff staged ts | _ => ts end.

Definition sample_creation :=
  @TreeSync_new toy_hashing toy_crypto (Ok (sample_leaf 1, ([1], [1]))) (Ok [9]) hash_suite.

Definition sample_new : TreeSync :=
  match sample_creation with
  | Ok (ts, _, _) => ts
  | _ => TreeSync_of (single_tree (sample_leaf 1))
  end.

(** Two members join; later both are removed and another one joins. *)
Definition joined (s : TreeSyncDiff) : TreeSyncDiff := (add_leaf (sample_leaf 3) (add_leaf (sample_leaf 2) s).2).2.
Definition exchanged (s : TreeSyncDiff) : TreeSyncDiff := (add_leaf (sample_leaf 4) (blank_leaf 2 (blank_leaf 1 s))).2.

Definition sample_joined : TreeSync := sample_epoch sample_new joined 0 [[21]; [22]].
Definition sample_exchanged : TreeSync := sample_epoch sample_joined exchanged 0 [[31]].

Lemma sample_epoch_step ts f i keys : rtc member_step (TreeSync_empty_diff ts) (f (TreeSync_empty_diff ts)) -> 0 <= i ->
  bool_decide (is_Some (leaf_at (f (TreeSync_empty_diff ts)) i)) = true -> keys <> [] \/ f (TreeSync_empty_diff ts) = TreeSync_empty_diff ts ->
  length (filtered_direct_path (f (TreeSync_empty_diff ts)) i) = length keys ->
  (exists h, @tree_ok toy_hashing hash_suite ts h) ->
  @epoch_step toy_hashing hash_suite ts (sample_epoch ts f i keys).
Proof.
  intros Hsteps Hi Hs%bool_decide_eq_true Hne Hlen [h Hok].
  destruct (@commit_epoch toy_hashing toy_hash_laws hash_suite ts h _ i ([50], [50]) (fun _ => []) sample_params keys Hok Hsteps Hi Hs Hne Hlen)
    as (leaf & path & hash & s' & staged & h' & E & _ & Est & _).
  unfold sample_epoch. cbv zeta.
  match goal with |- context [snd ?x] => replace (snd x) with s' by (symmetry; exact (f_equal snd E)) end.
  rewrite Est. by apply (@epoch_commit toy_hashing hash_suite ts (f (TreeSync_empty_diff ts)) i ([50], [50]) (fun _ => []) sample_params keys [([50], [50])] s').
Qed.

Lemma sample_new_ok : @tree_ok toy_hashing hash_suite sample_new 0.
Proof.
  destruct (@new_tree_spec toy_hashing toy_hash_laws toy_crypto toy_laws hash_suite (sample_leaf 1) ([1], [1]) [9])
    as (ts & cs & E & _ & Hok & _).
  unfold sample_new. by rewrite (E : sample_creation = _).
Qed.

Lemma sample_joined_steps : rtc member_step (TreeSync_empty_diff sample_new) (joined (TreeSync_empty_diff sample_new)).
Proof.
  eapply rtc_l; [apply (member_add_run _ (sample_leaf 2) 1); by vm_compute|].
  apply rtc_once, (member_add_run _ (sample_leaf 3) 2). by vm_compute.
Qed.

Lemma sample_joined_step : @epoch_step toy_hashing hash_suite sample_new sample_joined.
Proof.
  apply sample_epoch_step; [apply sample_joined_steps|lia|by vm_compute|by left|by vm_compute|exists 0; apply sample_new_ok].
Qed.

Lemma sample_joined_ok : exists h, @tree_ok toy_hashing hash_suite sample_joined h.
Proof.
  destruct (@epoch_step_ok toy_hashing toy_hash_laws hash_suite _ _ 0 sample_new_ok sample_joined_step) as (h & _ & Hok). by exists h.
Qed.

Lemma sample_exchanged_step : @epoch_step toy_hashing hash_suite sample_joined sample_exchanged.
Proof.
  apply sample_epoch_step; [|lia|by vm_compute|by left|by vm_compute|apply sample_joined_ok].
  eapply rtc_l; [apply (member_remove _ 1); [lia|vm_compute; eauto]|].
  eapply rtc_l; [apply (member_remove _ 2); [lia|vm_compute; eauto]|].
  apply rtc_once, (member_add_run _ (sample_leaf 4) 1). by vm_compute.
Qed.

Lemma import_correct_witness :
  exists ts, @from_ratchet_tree toy_hashing hash_suite [Some (NodeLeaf (sample_leaf 1)); None; Some (NodeLeaf (sample_leaf 2))] = Ok ts /\
    TreeSync_leaf ts 1 = Some (sample_leaf 2).
Proof.
  destruct (@import_correct toy_hashing toy_hash_laws hash_suite (fun _ _ => true)
    [Some (NodeLeaf (sample_leaf 1)); None; Some (NodeLeaf (sample_leaf 2))] _ ltac:(vm_compute; reflexivity))
    as [[e E]|(ts & h & E & _ & _ & Hl & _)].
  - vm_compute in E. discriminate E.
  - exists ts. split; [exact E|]. rewrite Hl by lia. vm_compute. reflexivity.
Defined.

Lemma export_import_roundtrip_witness :
  exists ts', @from_ratchet_tree toy_hashing hash_suite (export_ratchet_tree sample_joined) = Ok ts' /\
    ts_tree_hash ts' = ts_tree_hash sample_joined.
Proof.
  destruct sample_joined_ok as [h Hok].
  destruct (@export_import_roundtrip toy_hashing toy_hash_laws hash_suite sample_joined h Hok) as [(_ & ts' & E & _ & _ & _ & Eh & _)|[Hv _]].
  - unfold last_full. vm_compute. eauto.
  - exists ts'. split; [exact E|exact Eh].
  - exfalso. apply Hv. vm_compute. reflexivity.
Defined.

(** The first member refreshes its leaf when it is alone. *)
Definition sample_refreshed : TreeSync := sample_epoch sample_new (fun s => s) 0 [].

Lemma sample_refreshed_step : @epoch_step toy_hashing hash_suite sample_new sample_refreshed.
Proof.
  apply sample_epoch_step; [apply rtc_refl|lia|by vm_compute|by right|by vm_compute|exists 0; apply sample_new_ok].
Qed.

(** A group is created, and its only member refreshes its leaf; or two join, and later both are removed
    and another one joins. *)
Lemma group_tree_invariant_witness :
  exists ts cs, sample_creation = Ok (ts, cs, ([1], [1])) /\ ts_num_members ts = 1 /\
    (exists h, @tree_ok toy_hashing hash_suite sample_refreshed h) /\ (exists h, @tree_ok toy_hashing hash_suite sample_exchanged h).
Proof.
  destruct (@group_tree_invariant toy_hashing toy_hash_laws toy_crypto toy_laws hash_suite (sample_leaf 1) ([1], [1]) [9])
    as (ts & cs & E & _ & En & Hsteps).
  assert (Ets : sample_new = ts).
  { change (match sample_creation with Ok (ts, _, _) => ts | _ => TreeSync_of (single_tree (sample_leaf 1)) end = ts). change (sample_creation = Ok (ts, cs, ([1], [1]))) in E. rewrite E. reflexivity. }
  exists ts, cs. split; [exact E|]. split; [exact En|]. rewrite <- Ets in Hsteps. split; apply Hsteps.
  - apply rtc_once, sample_refreshed_step.
  - eapply rtc_l; [apply sample_joined_step|]. apply rtc_once, sample_exchanged_step.
Defined.

Lemma commit_merges_witness :
  exists s' staged, into_staged_diff s' = Ok staged /\ exists h, @tree_ok toy_hashing hash_suite (TreeSync_merge_diff staged sample_new) h.
Proof.
  destruct (@commit_merges toy_hashing toy_hash_laws hash_suite sample_new 0 (joined (TreeSync_empty_diff sample_new)) 0 ([50], [50])
    (fun _ => []) sample_params [[21]; [22]] sample_new_ok) as (s' & staged & h' & _ & E & _ & Hok & _).
  - exact sample_joined_steps.
  - lia.
  - vm_compute. eauto.
  - left. discriminate.
  - vm_compute. reflexivity.
  - exists s', staged. split; [exact E|]. exists h'. exact Hok.
Defined.

(** A new member can end up with a different tree hash than the group: the tree of the
    group never shrinks, but the exported nodes stop at the rightmost member. In
    a group that only made regular commits (two members join; then both are
    removed while another one joins at the freed leaf), the members keep a tree
    of size 7 while a tree imported from their export has size 3 and another
    root hash, although its parent hashes verify. *)
Theorem unshrunk_tree_export_mismatch :
  rtc (@epoch_step toy_hashing hash_suite) sample_new sample_exchanged /\
  exists ts', @from_ratchet_tree toy_hashing hash_suite (export_ratchet_tree sample_exchanged) = Ok ts' /\
    TreeSync_tree_size sample_exchanged = 7 /\ TreeSync_tree_size ts' = 3 /\
    ts_tree_hash ts' <> ts_tree_hash sample_exchanged.
Proof.
  split; [eapply rtc_l; [apply sample_joined_step|]; apply rtc_once, sample_exchanged_step|].
  destruct (@from_ratchet_tree toy_hashing hash_suite (export_ratchet_tree sample_exchanged)) as [ts'|e|] eqn:E;
    [|vm_compute in E; discriminate E..].
  exists ts'. split; [done|]. split; [by vm_compute|].
  assert (Es : ts' = match @from_ratchet_tree toy_hashing hash_suite (export_ratchet_tree sample_exchanged) with Ok x => x | _ => ts' end)
    by (by rewrite E).
  vm_compute in Es. rewrite Es. split; [by vm_compute|]. vm_compute. discriminate.
Qed.
