(* ===== verification/EpochStores.v ===== *)
(** * Secrets kept for past epochs

    Models [group/mls_group/past_secrets.rs] ([MessageSecretsStore], the message
    secrets of past epochs) and the module [store] of [schedule/psk.rs]
    ([ResumptionPskStore], a ring buffer of resumption secrets).  The secrets
    themselves are opaque here: [M] stands for [MessageSecrets] and [R] for
    [ResumptionPskSecret]. *)

From S2P Require Import Prelude TreeMath TreeSync.

(** ** [VecDeque] *)

(** [rotate_left] panics when it is asked to rotate further than the length. *)
Definition rotate_left {E A} (n : nat) (l : list A) : outcome E (list A) :=
  if decide (n <= length l)%nat then Ok (drop n l ++ take n l) else Panic.

Definition truncate {A} (n : nat) (l : list A) : list A := take n l.

(** ** Message secrets of past epochs *)

Record EpochTree (M : Type) := mkEpochTree {
  tree_epoch : Z;
  tree_secrets : M;
  tree_leaves : list Member
}.
Arguments mkEpochTree {M}.
Arguments tree_epoch {M}.
Arguments tree_secrets {M}.
Arguments tree_leaves {M}.

Record MessageSecretsStore (M : Type) := mkMessageSecretsStore {
  max_epochs : nat;
  past_epoch_trees : list (EpochTree M);
  current_secrets : M
}.
Arguments mkMessageSecretsStore {M}.
Arguments max_epochs {M}.
Arguments past_epoch_trees {M}.
Arguments current_secrets {M}.

Section MessageSecretsStore.
Context {M : Type}.

Definition new_with_secret (max_epochs : nat) (message_secrets : M) : MessageSecretsStore M :=
  {| max_epochs := max_epochs; past_epoch_trees := []; current_secrets := message_secrets |}.

Definition set_trees (trees : list (EpochTree M)) (s : MessageSecretsStore M) : MessageSecretsStore M :=
  {| max_epochs := max_epochs s; past_epoch_trees := trees; current_secrets := current_secrets s |}.

(** [resize], used by [set_max_past_epochs]. *)
Definition resize_store (max_past_epochs : nat) (s : MessageSecretsStore M) : outcome Empty_set (MessageSecretsStore M) :=
  let old_size := max_epochs s in
  let s := {| max_epochs := max_past_epochs; past_epoch_trees := past_epoch_trees s; current_secrets := current_secrets s |} in
  if decide (max_past_epochs < old_size)%nat then
    let num_epochs_out := (old_size - max_past_epochs)%nat in
    trees ← rotate_left num_epochs_out (past_epoch_trees s);
    Ok (set_trees (truncate max_past_epochs trees) s)
  else Ok s.

(** [add]; the check of the length is a [debug_assert]. *)
Definition add_epoch (group_epoch : Z) (message_secrets : M) (leaves : list Member) (s : MessageSecretsStore M) :
    outcome Empty_set (MessageSecretsStore M) :=
  if decide (max_epochs s = 0)%nat then Ok s
  else
    trees ←
      (if decide (max_epochs s <= length (past_epoch_trees s))%nat
       then trees ← rotate_left 1 (past_epoch_trees s); Ok (truncate (max_epochs s - 1) trees)
       else Ok (past_epoch_trees s));
    Ok (set_trees (trees ++ [{| tree_epoch := group_epoch; tree_secrets := message_secrets; tree_leaves := leaves |}]) s).

Definition secrets_for_epoch (s : MessageSecretsStore M) (group_epoch : Z) : option M :=
  tree_secrets <$> List.find (fun t => tree_epoch t =? group_epoch) (past_epoch_trees s).

Definition leaves_for_epoch (s : MessageSecretsStore M) (group_epoch : Z) : list Member :=
  match List.find (fun t => tree_epoch t =? group_epoch) (past_epoch_trees s) with
  | Some t => tree_leaves t
  | None => []
  end.

Definition epoch_has_leaf (s : MessageSecretsStore M) (group_epoch : Z) (leaf_index : LeafNodeIndex) : bool :=
  existsb (fun t => (tree_epoch t =? group_epoch) &&
    existsb (fun m => member_index m =? leaf_index) (tree_leaves t)) (past_epoch_trees s).

(** [secrets_for_epoch_mut] hands out a mutable reference to the first entry found;
    the model applies what the caller writes through it. *)
Fixpoint update_first (group_epoch : Z) (f : M -> M) (trees : list (EpochTree M)) : option (list (EpochTree M)) :=
  match trees with
  | [] => None
  | t :: trees =>
    if tree_epoch t =? group_epoch
    then Some ({| tree_epoch := tree_epoch t; tree_secrets := f (tree_secrets t); tree_leaves := tree_leaves t |} :: trees)
    else cons t <$> update_first group_epoch f trees
  end.

Definition secrets_for_epoch_mut (group_epoch : Z) (f : M -> M) (s : MessageSecretsStore M) : option (MessageSecretsStore M) :=
  (fun trees => set_trees trees s) <$> update_first group_epoch f (past_epoch_trees s).

End MessageSecretsStore.

(** ** Resumption secrets *)

Record ResumptionPskStore (R : Type) := mkResumptionPskStore {
  max_number_of_secrets : nat;
  resumption_psk : list (Z * R);
  cursor : nat
}.
Arguments mkResumptionPskStore {R}.
Arguments max_number_of_secrets {R}.
Arguments resumption_psk {R}.
Arguments cursor {R}.

Section ResumptionPskStore.
Context {R : Type}.

Definition ResumptionPskStore_new (max_number_of_secrets : nat) : ResumptionPskStore R :=
  {| max_number_of_secrets := max_number_of_secrets; resumption_psk := []; cursor := 0 |}.

Definition ResumptionPskStore_add (epoch : Z) (secret : R) (s : ResumptionPskStore R) : ResumptionPskStore R :=
  if decide (max_number_of_secrets s = 0)%nat then s
  else
    let item := (epoch, secret) in
    if decide (length (resumption_psk s) < max_number_of_secrets s)%nat then
      {| max_number_of_secrets := max_number_of_secrets s; resumption_psk := resumption_psk s ++ [item];
         cursor := cursor s + 1 |}
    else
      let cursor := ((cursor s + 1) mod length (resumption_psk s))%nat in
      {| max_number_of_secrets := max_number_of_secrets s; resumption_psk := <[cursor := item]> (resumption_psk s);
         cursor := cursor |}.

Definition ResumptionPskStore_get (s : ResumptionPskStore R) (epoch : Z) : option R :=
  snd <$> List.find (fun x => x.1 =? epoch) (resumption_psk s).

End ResumptionPskStore.

(** ** Specification *)

(** The last [n] elements of a list. *)
Definition last_n {A} (n : nat) (l : list A) : list A := drop (length l - n) l.

(** The store after recording epochs in order. *)
Definition store_after {M} (n : nat) (current : M) (epochs : list (EpochTree M)) : outcome Empty_set (MessageSecretsStore M) :=
  foldl (fun s t => s ← s; add_epoch (tree_epoch t) (tree_secrets t) (tree_leaves t) s) (Ok (new_with_secret n current)) epochs.

Definition psks_after {R} (n : nat) (epochs : list (Z * R)) : ResumptionPskStore R :=
  foldl (fun s x => ResumptionPskStore_add x.1 x.2 s) (ResumptionPskStore_new n) epochs.

(** ** Lemmas *)

Lemma last_n_snoc {A} n (l : list A) x : (0 < n)%nat -> last_n n (l ++ [x]) = last_n (n - 1) l ++ [x].
Proof.
  intros Hn. unfold last_n. rewrite length_app. cbn [length].
  replace (length l + 1 - n)%nat with (length l - (n - 1))%nat by lia. rewrite drop_app_le by lia. done.
Qed.

Lemma find_elem_of {A} (key : A -> Z) (l : list A) x : NoDup (key <$> l) -> x ∈ l ->
  List.find (fun y => key y =? key x) l = Some x.
Proof.
  induction l as [|y l IH]; cbn; [by intros _ ?%not_elem_of_nil|]. intros [Hn Hd]%NoDup_cons [->|Hx]%elem_of_cons.
  - by rewrite Z.eqb_refl.
  - destruct (Z.eqb_spec (key y) (key x)) as [E|]; [|by apply IH]. exfalso. apply Hn. rewrite E. by apply list_elem_of_fmap_2.
Qed.

Lemma find_Some_elem {A} (p : A -> bool) l x : List.find p l = Some x -> x ∈ l /\ p x = true.
Proof. intros [? ?]%find_some. by rewrite list_elem_of_In. Qed.

Section StoreLemmas.
Context {M : Type}.

Lemma add_epoch_spec e (m : M) leaves s : (length (past_epoch_trees s) <= max_epochs s)%nat ->
  add_epoch e m leaves s = Ok (set_trees (last_n (max_epochs s)
    (past_epoch_trees s ++ [{| tree_epoch := e; tree_secrets := m; tree_leaves := leaves |}])) s).
Proof.
  intros Hle. unfold add_epoch. destruct s as [n trees cur]; cbn [max_epochs past_epoch_trees] in *. case_decide as H0.
  { subst n. destruct trees; [|cbn in Hle; lia]. unfold last_n. cbn. done. }
  rewrite last_n_snoc by lia. unfold last_n. case_decide as Hf.
  - assert (length trees = n) as En by lia. unfold rotate_left. rewrite decide_True by lia. cbn [mbind outcome_bind].
    unfold truncate, set_trees. cbn [max_epochs past_epoch_trees current_secrets]. rewrite take_app_le by (rewrite length_drop; lia).
    rewrite take_ge by (rewrite length_drop; lia). by replace (length trees - (n - 1))%nat with 1%nat by lia.
  - cbn [mbind outcome_bind]. by replace (length trees - (n - 1))%nat with 0%nat by lia.
Qed.

Lemma last_n_last_n {A} n (l : list A) x : last_n n (last_n n l ++ [x]) = last_n n (l ++ [x]).
Proof.
  destruct n as [|n]; [unfold last_n; rewrite !Nat.sub_0_r, !drop_all; done|]. rewrite !last_n_snoc by lia. f_equal.
  unfold last_n. rewrite length_drop, drop_drop. f_equal. lia.
Qed.

Lemma length_last_n {A} n (l : list A) : (length (last_n n l) <= n)%nat.
Proof. unfold last_n. rewrite length_drop. lia. Qed.

Lemma store_after_spec n (cur : M) epochs : store_after n cur epochs = Ok (mkMessageSecretsStore n (last_n n epochs) cur).
Proof.
  induction epochs as [|t epochs IH] using rev_ind; [done|]. unfold store_after in *. rewrite foldl_app, IH.
  cbn [foldl mbind outcome_bind]. rewrite add_epoch_spec by apply length_last_n. cbn [max_epochs past_epoch_trees].
  destruct t. rewrite last_n_last_n. done.
Qed.

End StoreLemmas.

Section ResumptionLemmas.
Context {R : Type}.

Lemma NoDup_insert_fresh (l : list Z) i k : NoDup l -> k ∉ l -> NoDup (<[i := k]> l).
Proof.
  rewrite !NoDup_alt. intros Hd Hk a b x Ha Hb.
  assert (Hcase : forall j, <[i := k]> l !! j = Some x -> (j = i /\ x = k) \/ (j <> i /\ l !! j = Some x)).
  { intros j Hj. apply list_lookup_insert_Some in Hj as [(-> & -> & _)|[? ?]]; [by left|by right]. }
  destruct (Hcase a Ha) as [[-> ->]|[Hai Ha']], (Hcase b Hb) as [[-> Ex]|[Hbi Hb']]; try done.
  - exfalso. apply Hk. by apply list_elem_of_lookup_2 in Hb'.
  - subst x. exfalso. apply Hk. by apply list_elem_of_lookup_2 in Ha'.
  - by apply (Hd a b x).
Qed.

(** A store of positive capacity that was filled with [epochs]. *)
Record psks_ok (n : nat) (epochs : list (Z * R)) (s : ResumptionPskStore R) : Prop := {
  psks_max : max_number_of_secrets s = n;
  psks_length : length (resumption_psk s) = Nat.min n (length epochs);
  psks_added x : x ∈ resumption_psk s -> x ∈ epochs;
  psks_unique : NoDup (fst <$> resumption_psk s);
  psks_last x : last epochs = Some x -> x ∈ resumption_psk s
}.

Lemma psks_after_ok n (epochs : list (Z * R)) : (0 < n)%nat -> NoDup (fst <$> epochs) -> psks_ok n epochs (psks_after n epochs).
Proof.
  intros Hn. induction epochs as [|x epochs IH] using rev_ind; intros Hd.
  { split; cbn; rewrite ?Nat.min_0_r; done || constructor. }
  rewrite fmap_app in Hd. apply NoDup_app in Hd as (Hd & Hfresh & _). destruct (IH Hd) as [Hmax Hlen Hadd Huniq _].
  assert (Hx : x.1 ∉ (fst <$> resumption_psk (psks_after n epochs))).
  { intros (y & Ey & Hy)%list_elem_of_fmap. apply (Hfresh x.1); [|by left]. rewrite Ey. by apply list_elem_of_fmap_2, Hadd. }
  unfold psks_after in *. rewrite foldl_app. cbn [foldl]. set (s := foldl _ _ epochs) in *. unfold ResumptionPskStore_add.
  rewrite decide_False by lia. rewrite Hmax, Hlen. destruct x as [e r]. cbn [fst snd] in *. case_decide as Hlt.
  - split; cbn [max_number_of_secrets resumption_psk]; rewrite ?length_app, ?Hlen; cbn [length]; [done|lia| | |].
    + intros y [Hy|Hy]%elem_of_app; apply elem_of_app; [left; by apply Hadd|by right].
    + rewrite fmap_app. apply NoDup_app. split_and!; [done| |apply NoDup_singleton]. intros y Hy ->%list_elem_of_singleton. done.
    + intros y. rewrite last_snoc. intros [= <-]. apply elem_of_app. right. by left.
  - set (c := ((cursor s + 1) mod Nat.min n (length epochs))%nat).
    assert (c < length (resumption_psk s))%nat as Hc by (rewrite Hlen; apply Nat.mod_upper_bound; lia).
    split; cbn [max_number_of_secrets resumption_psk]; rewrite ?length_insert, ?length_app; cbn [length]; [done|lia| | |].
    + intros y [j Hj]%list_elem_of_lookup. apply list_lookup_insert_Some in Hj as [(_ & <- & _)|[_ Hj]];
        apply elem_of_app; [right; by left|left; by apply Hadd, (list_elem_of_lookup_2 _ j)].
    + rewrite list_fmap_insert. by apply NoDup_insert_fresh.
    + intros y. rewrite last_snoc. intros [= <-]. apply (list_elem_of_lookup_2 _ c). by apply list_lookup_insert_eq.
Qed.

(** While there is room the store keeps everything. *)
Lemma psks_filling n (epochs : list (Z * R)) : (length epochs <= n)%nat ->
  psks_after n epochs = mkResumptionPskStore n epochs (length epochs).
Proof.
  induction epochs as [|x epochs IH] using rev_ind; [done|]. rewrite length_app. cbn [length]. intros Hle.
  unfold psks_after in *. rewrite foldl_app, IH by lia. cbn [foldl]. unfold ResumptionPskStore_add. cbn [max_number_of_secrets resumption_psk cursor].
  rewrite decide_False by lia. rewrite decide_True by lia. by destruct x.
Qed.

End ResumptionLemmas.

(** ** Theorems *)

(** C40: the store of past message secrets is a window on the epochs: recording epochs
    never panics and keeps exactly the last [max_epochs] of them; the secrets of
    an epoch are found, and a leaf is known in an epoch, exactly when the epoch
    is one of these. *)
Theorem past_epochs_window {M} n (current : M) epochs :
  NoDup (tree_epoch <$> epochs) ->
  exists s, store_after n current epochs = Ok s /\ past_epoch_trees s = last_n n epochs /\ current_secrets s = current /\
    (forall e m, secrets_for_epoch s e = Some m <-> exists t, t ∈ last_n n epochs /\ tree_epoch t = e /\ tree_secrets t = m) /\
    (forall e i, epoch_has_leaf s e i = true <->
       exists t, t ∈ last_n n epochs /\ tree_epoch t = e /\ exists member, member ∈ tree_leaves t /\ member_index member = i).
Proof.
  intros Hd. eexists. split; [apply store_after_spec|]. split; [done|]. split; [done|].
  unfold secrets_for_epoch, epoch_has_leaf. cbn [past_epoch_trees]. split.
  - intros e m. split.
    + destruct (List.find _ _) as [t|] eqn:E; [|done]. cbn. intros [= <-]. apply find_Some_elem in E as [Ht E%Z.eqb_eq]. by exists t.
    + intros (t & Ht & <- & <-). rewrite (find_elem_of tree_epoch); [done| |done]. unfold last_n. rewrite fmap_drop.
      eapply sublist_NoDup; [exact Hd|apply sublist_drop].
  - intros e i. rewrite existsb_exists. split.
    + intros (t & Ht%list_elem_of_In & [E%Z.eqb_eq (mb & Hm%list_elem_of_In & Ei%Z.eqb_eq)%existsb_exists]%andb_prop). exists t. eauto.
    + intros (t & Ht%list_elem_of_In & <- & mb & Hm%list_elem_of_In & <-). exists t. split; [done|]. rewrite Z.eqb_refl.
      apply existsb_exists. exists mb. by rewrite Z.eqb_refl.
Qed.

Definition sample_epochs : list (EpochTree Z) := [mkEpochTree 0 10 []; mkEpochTree 1 11 []; mkEpochTree 2 12 []].

Lemma past_epochs_window_witness : exists s, store_after 2 13 sample_epochs = Ok s /\ secrets_for_epoch s 1 = Some 11 /\ secrets_for_epoch s 0 <> Some 10.
Proof.
  destruct (past_epochs_window 2 13 sample_epochs) as (s & E & _ & _ & Hs & _).
  { apply (bool_decide_unpack _). by vm_compute. }
  exists s. split; [exact E|]. rewrite !Hs. split.
  - exists (mkEpochTree 1 11 []). split; [by left|done].
  - intros (t & Ht & E0 & _). cbn in Ht. rewrite !elem_of_cons in Ht.
    destruct Ht as [-> | [-> | Ht]]; [discriminate..|]. by apply not_elem_of_nil in Ht.
Defined.

(** Shrinking the store of past message secrets works only when it is full: a full
    store keeps the most recent epochs, but a store that holds fewer epochs than
    its capacity is reduced by panics. *)
Theorem resize_needs_full_store {M} n n' (current : M) epochs : (n' < n)%nat ->
  ((n <= length epochs)%nat ->
     (s ← store_after n current epochs; resize_store n' s) = Ok (mkMessageSecretsStore n' (last_n n' epochs) current)) /\
  ((length epochs < n - n')%nat -> (s ← store_after n current epochs; resize_store n' s) = Panic).
Proof.
  intros Hn. rewrite store_after_spec. cbn [mbind outcome_bind]. unfold resize_store, rotate_left. cbn [max_epochs past_epoch_trees].
  rewrite !decide_True by done. assert (El : length (last_n n epochs) = Nat.min n (length epochs)) by (unfold last_n; rewrite length_drop; lia).
  rewrite El. split; intros Hlen.
  - rewrite decide_True by lia. cbn [mbind outcome_bind]. unfold set_trees, truncate. cbn [max_epochs current_secrets]. do 2 f_equal.
    rewrite take_app_le, take_ge by (rewrite length_drop, El; lia). unfold last_n. rewrite drop_drop. f_equal. lia.
  - by rewrite decide_False by lia.
Qed.

Lemma resize_needs_full_store_witness :
  (s ← store_after 3 13 sample_epochs; resize_store 2 s) = Ok (mkMessageSecretsStore 2 (last_n 2 sample_epochs) 13) /\
  (s ← store_after 5 13 sample_epochs; resize_store 1 s) = Panic.
Proof.
  split.
  - apply (resize_needs_full_store 3 2 13 sample_epochs); cbn; lia.
  - apply (resize_needs_full_store 5 1 13 sample_epochs); cbn; lia.
Defined.

(** The ring buffer of resumption secrets stays within its capacity, holds only secrets
    that were recorded, and always has the most recent one. It is not a window on
    the most recent epochs: the first addition beyond the capacity replaces the
    second oldest secret, the oldest one stays. *)
Theorem resumption_store_correct {R} n (epochs : list (Z * R)) :
  (0 < n)%nat -> NoDup (fst <$> epochs) ->
  let s := psks_after n epochs in
  length (resumption_psk s) = Nat.min n (length epochs) /\
  (forall e r, ResumptionPskStore_get s e = Some r -> (e, r) ∈ epochs) /\
  (forall x, last epochs = Some x -> ResumptionPskStore_get s x.1 = Some x.2) /\
  (forall x0 x1 rest, epochs = x0 :: x1 :: rest -> n = S (length rest) -> (2 <= n)%nat ->
     ResumptionPskStore_get s x0.1 = Some x0.2 /\ ResumptionPskStore_get s x1.1 = None).
Proof.
  intros Hn Hd s. destruct (psks_after_ok n epochs Hn Hd) as [_ Hlen Hadd Huniq Hlast]. fold s in Hlen, Hadd, Huniq, Hlast.
  assert (Hget : forall x, x ∈ resumption_psk s -> ResumptionPskStore_get s x.1 = Some x.2).
  { intros x Hx. unfold ResumptionPskStore_get. by rewrite (find_elem_of fst). }
  split_and!; [done| |intros x Hx; by apply Hget, Hlast|].
  - intros e r. unfold ResumptionPskStore_get. destruct (List.find _ _) as [[e' r']|] eqn:E; [|done]. cbn. intros [= ->].
    apply find_Some_elem in E as [Hx E%Z.eqb_eq]. cbn in E. subst e'. by apply Hadd.
  - intros x0 x1 rest -> -> Hn2. destruct rest as [|x2 rest] using rev_ind; [cbn in Hn2; lia|]. clear IHrest.
    assert (Es : resumption_psk s = x0 :: x2 :: rest).
    { unfold s. rewrite length_app, Nat.add_1_r. change (x0 :: x1 :: rest ++ [x2]) with ((x0 :: x1 :: rest) ++ [x2]).
      unfold psks_after. rewrite foldl_app. fold (psks_after (S (S (length rest))) (x0 :: x1 :: rest)).
      rewrite psks_filling by (cbn; lia). cbn [foldl]. unfold ResumptionPskStore_add. cbn [max_number_of_secrets resumption_psk cursor length].
      rewrite decide_False by lia. rewrite decide_False by lia. cbn [resumption_psk].
      replace (S (S (length rest)) + 1)%nat with (1 + 1 * S (S (length rest)))%nat by lia.
      rewrite Nat.Div0.mod_add, Nat.mod_small by lia. by destruct x2. }
    split; [apply Hget; rewrite Es; by left|]. unfold ResumptionPskStore_get. rewrite Es.
    destruct (List.find _ _) as [y|] eqn:E; [|done]. exfalso. apply find_Some_elem in E as [Hy E%Z.eqb_eq].
    rewrite fmap_cons, fmap_cons, fmap_app in Hd. apply NoDup_cons in Hd as [Hd0 Hd]. apply NoDup_cons in Hd as [Hd1 _].
    apply elem_of_cons in Hy as [->|[->|Hy]%elem_of_cons].
    + apply Hd0. rewrite E. by left.
    + apply Hd1. rewrite <- E. apply elem_of_app. right. by left.
    + apply Hd1. rewrite <- E. apply elem_of_app. left. by apply list_elem_of_fmap_2.
Qed.

Lemma resumption_store_correct_witness :
  ResumptionPskStore_get (psks_after 2 [(0, 10); (1, 11); (2, 12)]) 0 = Some 10 /\
  ResumptionPskStore_get (psks_after 2 [(0, 10); (1, 11); (2, 12)]) 1 = None.
Proof.
  destruct (resumption_store_correct 2 [(0, 10); (1, 11); (2, 12)]) as (_ & _ & _ & H).
  - lia.
  - apply (bool_decide_unpack _). by vm_compute.
  - exact (H (0, 10) (1, 11) [(2, 12)] eq_refl eq_refl ltac:(lia)).
Defined.
