(* ===== verification/Proposals.v ===== *)
(** * Proposals, the proposal store and the proposal queue

    Models [messages/proposals.rs], [framing/sender.rs], the identifiers of
    [schedule/psk.rs], [ciphersuite/hash_ref.rs] and
    [group/mls_group/proposal_store.rs].  The TLS encodings of a proposal and
    of a hash reference input and the hash of the provider are parameters
    ([ProposalHashing]). The queue keeps its proposals in a [HashMap]; the order
    in which the map of members is traversed is a parameter too. *)

From Stdlib Require Import String.
From S2P Require Import Prelude TreeMath Crypto LeafNodes Nodes.

(** ** Data *)

Inductive ResumptionPskUsage := UsageApplication | UsageReinit | UsageBranch.

Record ResumptionPsk := mkResumptionPsk { usage : ResumptionPskUsage; psk_group_id : bytes; psk_epoch : Z }.

Inductive Psk := ExternalPsk (psk_id : bytes) | Resumption (psk : ResumptionPsk).

Record PreSharedKeyId := mkPreSharedKeyId { psk : Psk; psk_nonce : bytes }.

#[export] Instance ResumptionPskUsage_eq_dec : EqDecision ResumptionPskUsage.
Proof. solve_decision. Defined.
#[export] Instance ResumptionPsk_eq_dec : EqDecision ResumptionPsk.
Proof. solve_decision. Defined.
#[export] Instance Psk_eq_dec : EqDecision Psk.
Proof. solve_decision. Defined.
#[export] Instance PreSharedKeyId_eq_dec : EqDecision PreSharedKeyId.
Proof. solve_decision. Defined.

(** [KeyPackage] with its [KeyPackageTbs] *)
Record KeyPackage := mkKeyPackage {
  kp_protocol_version : ProtocolVersion;
  kp_ciphersuite : Ciphersuite;
  kp_init_key : bytes;
  kp_leaf_node : LeafNode;
  kp_extensions : Extensions;
  kp_signature : bytes
}.

Record ReInitProposal := mkReInitProposal {
  reinit_group_id : bytes;
  reinit_version : ProtocolVersion;
  reinit_ciphersuite : Ciphersuite;
  reinit_extensions : Extensions
}.

Record MessageRange := mkMessageRange { range_sender : bytes; first_generation : Z; last_generation : Z }.

Record CustomProposal := mkCustomProposal { custom_proposal_type : Z; custom_payload : bytes }.

Inductive Proposal :=
| Add (key_package : KeyPackage)
| Update (leaf_node : LeafNode)
| Remove (removed : LeafNodeIndex)
| PreSharedKey (psk : PreSharedKeyId)
| ReInit (p : ReInitProposal)
| ExternalInit (kem_output : bytes)
| GroupContextExtensions (extensions : Extensions)
| AppAck (received_ranges : list MessageRange)
| Custom (p : CustomProposal).

Definition proposal_type (p : Proposal) : ProposalType :=
  match p with
  | Add _ => PtAdd
  | Update _ => PtUpdate
  | Remove _ => PtRemove
  | PreSharedKey _ => PtPreSharedKey
  | ReInit _ => PtReinit
  | ExternalInit _ => PtExternalInit
  | GroupContextExtensions _ => PtGroupContextExtensions
  | AppAck _ => PtAppAck
  | Custom p => PtCustom (custom_proposal_type p)
  end.

Definition is_type (p : Proposal) (ty : ProposalType) : bool := bool_decide (proposal_type p = ty).

Definition Proposal_is_path_required (p : Proposal) : bool := is_path_required (proposal_type p).

(** ** Senders *)

Inductive Sender :=
| Sender_Member (leaf_index : LeafNodeIndex)
| Sender_External (index : Z)
| NewMemberProposal
| NewMemberCommit.

Definition is_member (s : Sender) : bool := match s with Sender_Member _ => true | _ => false end.
Definition as_member (s : Sender) : option LeafNodeIndex :=
  match s with Sender_Member leaf_index => Some leaf_index | _ => None end.

(** ** Proposal references *)

(** [HashReference { value }] *)
Definition ProposalRef := bytes.

Class ProposalHashing := {
  (** [tls_serialize_detached] of a [Proposal] *)
  tls_proposal : Proposal -> option bytes;
  (** [tls_serialize_detached] of a [HashReferenceInput { label, value }] *)
  tls_hash_reference_input : bytes -> bytes -> option bytes;
  (** [crypto.hash(hash_type, data)] *)
  reference_hash : HashType -> bytes -> outcome CryptoError bytes
}.

Section References.
Context `{!ProposalHashing}.

Definition HashReference_new (value : bytes) (c : Ciphersuite) (label : bytes) : outcome CryptoError bytes :=
  payload ← ok_or (tls_hash_reference_input label value) TlsSerializationError;
  reference_hash (hash_algorithm c) payload.

Definition make_proposal_ref (value : bytes) (c : Ciphersuite) : outcome CryptoError ProposalRef :=
  HashReference_new value c (str_bytes "MLS 1.0 Proposal Reference").

Definition from_raw_proposal (c : Ciphersuite) (proposal : Proposal) : outcome LibraryError ProposalRef :=
  let data := str_bytes "Internal OpenMLS ProposalRef Label" in
  encoded ← ok_or (tls_proposal proposal) LibraryMissingBoundsCheck;
  map_err LibraryCryptoError (make_proposal_ref (data ++ encoded) c).

End References.

(** ** Queued proposals and the store *)

Inductive ProposalOrRefType := ByProposal | ByReference.

Inductive ProposalOrRef := ProposalOrRef_Proposal (p : Proposal) | ProposalOrRef_Reference (r : ProposalRef).

Record QueuedProposal := mkQueuedProposal {
  proposal : Proposal;
  proposal_reference : ProposalRef;
  sender : Sender;
  proposal_or_ref_type : ProposalOrRefType
}.

(** [ProposalStore { queued_proposals }] *)
Definition ProposalStore := list QueuedProposal.

Definition ProposalStore_new : ProposalStore := [].
Definition ProposalStore_add (queued_proposal : QueuedProposal) (s : ProposalStore) : ProposalStore := s ++ [queued_proposal].
Definition ProposalStore_is_empty (s : ProposalStore) : bool := is_empty s.
Definition ProposalStore_empty (s : ProposalStore) : ProposalStore := [].

(** Removes the first proposal with the reference; [None] when there is none. *)
Fixpoint ProposalStore_remove (proposal_ref : ProposalRef) (s : ProposalStore) : option ProposalStore :=
  match s with
  | [] => None
  | p :: s =>
    if bool_decide (proposal_reference p = proposal_ref) then Some s
    else cons p <$> ProposalStore_remove proposal_ref s
  end.

(** ** The queue *)

Inductive ProposalQueueError := QueueLibraryError (e : LibraryError) | QueueProposalNotFound | UpdateFromExternalSender.

Inductive FromCommittedProposalsError := CommittedLibraryError (e : LibraryError) | CommittedProposalNotFound | SelfRemoval.

Record OrderedProposalRefs := mkOrderedProposalRefs {
  proposal_refs : gset ProposalRef;
  ordered_proposal_refs : list ProposalRef
}.

Definition OrderedProposalRefs_new : OrderedProposalRefs := {| proposal_refs := ∅; ordered_proposal_refs := [] |}.

Definition OrderedProposalRefs_add (proposal_ref : ProposalRef) (s : OrderedProposalRefs) : OrderedProposalRefs :=
  if decide (proposal_ref ∈ proposal_refs s) then s
  else {| proposal_refs := {[proposal_ref]} ∪ proposal_refs s;
          ordered_proposal_refs := ordered_proposal_refs s ++ [proposal_ref] |}.

Record ProposalQueue := mkProposalQueue {
  proposal_references : list ProposalRef;
  queued_map : gmap ProposalRef QueuedProposal
}.

Definition ProposalQueue_default : ProposalQueue := {| proposal_references := []; queued_map := ∅ |}.

Definition ProposalQueue_is_empty (q : ProposalQueue) : bool := is_empty (proposal_references q).

Definition ProposalQueue_get (q : ProposalQueue) (r : ProposalRef) : option QueuedProposal := queued_map q !! r.

Definition ProposalQueue_add (queued_proposal : QueuedProposal) (q : ProposalQueue) : ProposalQueue :=
  match queued_map q !! proposal_reference queued_proposal with
  | Some _ => q
  | None => {| proposal_references := proposal_references q ++ [proposal_reference queued_proposal];
               queued_map := <[proposal_reference queued_proposal := queued_proposal]> (queued_map q) |}
  end.

(** [queued_proposals], the proposals in the order of the queue *)
Definition queued_proposals (q : ProposalQueue) : list QueuedProposal :=
  omap (ProposalQueue_get q) (proposal_references q).

Definition filtered_by_type (q : ProposalQueue) (ty : ProposalType) : list QueuedProposal :=
  omap (ProposalQueue_get q)
    (List.filter (fun pr => match queued_map q !! pr with Some p => is_type (proposal p) ty | None => false end)
       (proposal_references q)).

(** [add_proposals], [remove_proposals], [update_proposals] and [psk_proposals]: the content with its sender *)
Definition add_proposals (q : ProposalQueue) : list (KeyPackage * Sender) :=
  omap (fun p => match proposal p with Add key_package => Some (key_package, sender p) | _ => None end) (queued_proposals q).
Definition remove_proposals (q : ProposalQueue) : list (LeafNodeIndex * Sender) :=
  omap (fun p => match proposal p with Remove removed => Some (removed, sender p) | _ => None end) (queued_proposals q).
Definition update_proposals (q : ProposalQueue) : list (LeafNode * Sender) :=
  omap (fun p => match proposal p with Update leaf_node => Some (leaf_node, sender p) | _ => None end) (queued_proposals q).
Definition psk_proposals (q : ProposalQueue) : list (PreSharedKeyId * Sender) :=
  omap (fun p => match proposal p with PreSharedKey psk => Some (psk, sender p) | _ => None end) (queued_proposals q).

(** Every proposal is put into the commit by value. *)
Definition commit_list (q : ProposalQueue) : list ProposalOrRef :=
  map (fun queued_proposal => ProposalOrRef_Proposal (proposal queued_proposal))
    (omap (fun r => queued_map q !! r) (proposal_references q)).

Section Queue.
Context `{!ProposalHashing}.

Definition from_proposal_and_sender (c : Ciphersuite) (p : Proposal) (s : Sender) : outcome LibraryError QueuedProposal :=
  r ← from_raw_proposal c p;
  Ok {| proposal := p; proposal_reference := r; sender := s; proposal_or_ref_type := ByProposal |}.

(** ValSem200 *)
Definition removes_itself (p : Proposal) (s : Sender) : bool :=
  match p, s with
  | Remove removed, Sender_Member leaf_index => removed =? leaf_index
  | _, _ => false
  end.

(** The body of the loop of [from_committed_proposals]. *)
Definition committed_proposal (c : Ciphersuite) (known : gmap ProposalRef QueuedProposal) (s : Sender) (p : ProposalOrRef) :
    outcome FromCommittedProposalsError QueuedProposal :=
  match p with
  | ProposalOrRef_Proposal p =>
    if removes_itself p s then Err SelfRemoval
    else map_err CommittedLibraryError (from_proposal_and_sender c p s)
  | ProposalOrRef_Reference r =>
    match known !! r with
    | Some queued_proposal =>
      if removes_itself (proposal queued_proposal) s then Err SelfRemoval else Ok queued_proposal
    | None => Err CommittedProposalNotFound
    end
  end.

Fixpoint add_committed (c : Ciphersuite) (known : gmap ProposalRef QueuedProposal) (s : Sender)
    (committed : list ProposalOrRef) (q : ProposalQueue) : outcome FromCommittedProposalsError ProposalQueue :=
  match committed with
  | [] => Ok q
  | p :: committed =>
    queued_proposal ← committed_proposal c known s p;
    add_committed c known s committed (ProposalQueue_add queued_proposal q)
  end.

Definition from_committed_proposals (c : Ciphersuite) (committed_proposals : list ProposalOrRef)
    (proposal_store : ProposalStore) (s : Sender) : outcome FromCommittedProposalsError ProposalQueue :=
  let known := foldl (fun m p => <[proposal_reference p := p]> m) ∅ proposal_store in
  add_committed c known s committed_proposals ProposalQueue_default.

(** ** Filtering *)

(** The local [struct Member] of [filter_proposals] *)
Record FilterMember := mkFilterMember { updates : list QueuedProposal; removes : list QueuedProposal }.

Record Filter := mkFilter {
  members : gmap LeafNodeIndex FilterMember;
  adds : OrderedProposalRefs;
  valid_proposals : OrderedProposalRefs;
  proposal_pool : gmap ProposalRef QueuedProposal;
  contains_own_updates : bool;
  contains_external_init : bool
}.

Definition Filter_new : Filter := {|
  members := ∅; adds := OrderedProposalRefs_new; valid_proposals := OrderedProposalRefs_new;
  proposal_pool := ∅; contains_own_updates := false; contains_external_init := false |}.

Definition no_proposals : FilterMember := {| updates := []; removes := [] |}.

Definition push_update (i : LeafNodeIndex) (p : QueuedProposal) (f : Filter) : Filter :=
  let m := default no_proposals (members f !! i) in
  {| members := <[i := {| updates := updates m ++ [p]; removes := removes m |}]> (members f); adds := adds f;
     valid_proposals := valid_proposals f; proposal_pool := proposal_pool f;
     contains_own_updates := contains_own_updates f; contains_external_init := contains_external_init f |}.

Definition push_remove (i : LeafNodeIndex) (p : QueuedProposal) (f : Filter) : Filter :=
  let m := default no_proposals (members f !! i) in
  {| members := <[i := {| updates := updates m; removes := removes m ++ [p] |}]> (members f); adds := adds f;
     valid_proposals := valid_proposals f; proposal_pool := proposal_pool f;
     contains_own_updates := contains_own_updates f; contains_external_init := contains_external_init f |}.

Definition pool_insert (p : QueuedProposal) (f : Filter) : Filter :=
  {| members := members f; adds := adds f; valid_proposals := valid_proposals f;
     proposal_pool := <[proposal_reference p := p]> (proposal_pool f);
     contains_own_updates := contains_own_updates f; contains_external_init := contains_external_init f |}.

Definition mark_add (p : QueuedProposal) (f : Filter) : Filter :=
  {| members := members f; adds := OrderedProposalRefs_add (proposal_reference p) (adds f);
     valid_proposals := valid_proposals f; proposal_pool := proposal_pool f;
     contains_own_updates := contains_own_updates f; contains_external_init := contains_external_init f |}.

Definition mark_valid (p : QueuedProposal) (f : Filter) : Filter :=
  {| members := members f; adds := adds f;
     valid_proposals := OrderedProposalRefs_add (proposal_reference p) (valid_proposals f);
     proposal_pool := proposal_pool f;
     contains_own_updates := contains_own_updates f; contains_external_init := contains_external_init f |}.

Definition set_own_updates (f : Filter) : Filter :=
  {| members := members f; adds := adds f; valid_proposals := valid_proposals f; proposal_pool := proposal_pool f;
     contains_own_updates := true; contains_external_init := contains_external_init f |}.

Definition set_external_init (f : Filter) : Filter :=
  {| members := members f; adds := adds f; valid_proposals := valid_proposals f; proposal_pool := proposal_pool f;
     contains_own_updates := contains_own_updates f; contains_external_init := true |}.

(** The body of the first loop; [unimplemented!] panics. *)
Definition parse_proposal (own_index : LeafNodeIndex) (p : QueuedProposal) (f : Filter) : outcome ProposalQueueError Filter :=
  match proposal p with
  | Add _ => Ok (pool_insert p (mark_add p f))
  | Update _ =>
    match sender p with
    | Sender_Member leaf_index =>
      Ok (pool_insert p (if negb (leaf_index =? own_index) then push_update leaf_index p f else set_own_updates f))
    | _ => Err UpdateFromExternalSender
    end
  | Remove removed => Ok (pool_insert p (push_remove removed p f))
  | PreSharedKey _ => Ok (pool_insert p (mark_valid p f))
  | ReInit _ => Ok (pool_insert p f)
  | ExternalInit _ =>
    if negb (contains_external_init f) then Ok (set_external_init (pool_insert p (mark_valid p f))) else Ok f
  | GroupContextExtensions _ => Ok (pool_insert p (mark_valid p f))
  | AppAck _ => Panic
  | Custom _ => Ok (pool_insert p (mark_valid p f))
  end.

Fixpoint parse_proposals (own_index : LeafNodeIndex) (l : list QueuedProposal) (f : Filter) : outcome ProposalQueueError Filter :=
  match l with
  | [] => Ok f
  | p :: l => f ← parse_proposal own_index p f; parse_proposals own_index l f
  end.

(** The second loop: the last Remove of a member, or else its last Update. *)
Definition keep_last (valid : OrderedProposalRefs) (m : FilterMember) : OrderedProposalRefs :=
  match last (removes m) with
  | Some last_remove => OrderedProposalRefs_add (proposal_reference last_remove) valid
  | None =>
    match last (updates m) with
    | Some last_update => OrderedProposalRefs_add (proposal_reference last_update) valid
    | None => valid
    end
  end.

(** The third loop. *)
Fixpoint retain (pool : gmap ProposalRef QueuedProposal) (refs : list ProposalRef) (q : ProposalQueue) :
    outcome ProposalQueueError ProposalQueue :=
  match refs with
  | [] => Ok q
  | r :: refs =>
    queued_proposal ← ok_or (pool !! r) QueueProposalNotFound;
    retain pool refs (ProposalQueue_add queued_proposal q)
  end.

(** The order in which a [HashMap] is traversed. *)
Context (map_order : gmap LeafNodeIndex FilterMember -> list (LeafNodeIndex * FilterMember)).

Definition filter_proposals_without_inline (l : list QueuedProposal) (own_index : LeafNodeIndex) :
    outcome ProposalQueueError (ProposalQueue * bool) :=
  f ← parse_proposals own_index l Filter_new;
  let valid := foldl (fun valid x => keep_last valid x.2) (valid_proposals f) (map_order (members f)) in
  q ← retain (proposal_pool f) (ordered_proposal_refs (adds f) ++ ordered_proposal_refs valid) ProposalQueue_default;
  Ok (q, contains_own_updates f).

Fixpoint inline_queued (c : Ciphersuite) (s : Sender) (inline_proposals : list Proposal) : outcome LibraryError (list QueuedProposal) :=
  match inline_proposals with
  | [] => Ok []
  | p :: ps => x ← from_proposal_and_sender c p s; xs ← inline_queued c s ps; Ok (x :: xs)
  end.

(** [filter_proposals] runs the same loops over the stored and the inline proposals. *)
Definition filter_proposals (c : Ciphersuite) (s : Sender) (proposal_store : ProposalStore)
    (inline_proposals : list Proposal) (own_index : LeafNodeIndex) : outcome ProposalQueueError (ProposalQueue * bool) :=
  inline ← map_err QueueLibraryError (inline_queued c s inline_proposals);
  filter_proposals_without_inline (proposal_store ++ inline) own_index.

End Queue.

(** ** Specification *)

(** A proposal that stops the filter, with its result. *)
Definition bad {A} (p : QueuedProposal) : option (outcome ProposalQueueError A) :=
  match proposal p with
  | AppAck _ => Some Panic
  | Update _ => if is_member (sender p) then None else Some (Err UpdateFromExternalSender)
  | _ => None
  end.

Fixpoint first_bad {A} (l : list QueuedProposal) : option (outcome ProposalQueueError A) :=
  match l with
  | [] => None
  | p :: l => match bad p with Some o => Some o | None => first_bad l end
  end.

Definition is_update_of (i : LeafNodeIndex) (p : QueuedProposal) : bool :=
  match proposal p, sender p with Update _, Sender_Member j => j =? i | _, _ => false end.
Definition is_remove_of (i : LeafNodeIndex) (p : QueuedProposal) : bool :=
  match proposal p with Remove j => j =? i | _ => false end.
Definition is_external_init (p : QueuedProposal) : bool :=
  match proposal p with ExternalInit _ => true | _ => false end.
Definition is_add (p : QueuedProposal) : bool := match proposal p with Add _ => true | _ => false end.

(** The leaf a proposal is about. *)
Definition target (p : QueuedProposal) : option LeafNodeIndex :=
  match proposal p with
  | Update _ => as_member (sender p)
  | Remove removed => Some removed
  | _ => None
  end.

(** The proposals among [l] a commit of [own] covers. *)
Definition kept (own : LeafNodeIndex) (l : list QueuedProposal) (p : QueuedProposal) : Prop :=
  match proposal p with
  | Add _ | PreSharedKey _ | GroupContextExtensions _ | Custom _ => True
  | ReInit _ | AppAck _ => False
  | ExternalInit _ => List.find is_external_init l = Some p
  | Update _ => exists i, sender p = Sender_Member i /\ i <> own /\
      last (List.filter (is_update_of i) l) = Some p /\ List.filter (is_remove_of i) l = []
  | Remove i => last (List.filter (is_remove_of i) l) = Some p
  end.

(** A reference identifies one proposal. *)
Definition refs_unique (l : list QueuedProposal) : Prop :=
  forall p q, p ∈ l -> q ∈ l -> proposal_reference p = proposal_reference q -> p = q.

(** ** Lemmas *)

Definition ordered_ok (o : OrderedProposalRefs) : Prop :=
  NoDup (ordered_proposal_refs o) /\ forall r, r ∈ proposal_refs o <-> r ∈ ordered_proposal_refs o.

Lemma OrderedProposalRefs_add_spec r o : ordered_ok o ->
  ordered_ok (OrderedProposalRefs_add r o) /\
  forall r', r' ∈ ordered_proposal_refs (OrderedProposalRefs_add r o) <-> r' ∈ ordered_proposal_refs o \/ r' = r.
Proof.
  intros [Hd Hs]. unfold OrderedProposalRefs_add. case_decide as Hr.
  - split; [done|]. intros r'. split; [by left|]. intros [?| ->]; [done|by apply Hs].
  - rewrite Hs in Hr. split; [split; cbn|].
    + apply NoDup_app. split_and!; [done| |apply NoDup_singleton]. by intros x Hx ->%list_elem_of_singleton.
    + intros r'. rewrite elem_of_union, elem_of_singleton, elem_of_app, list_elem_of_singleton, Hs. tauto.
    + intros r'. cbn. rewrite elem_of_app, list_elem_of_singleton. done.
Qed.

Lemma filter_snoc {A} (f : A -> bool) l x : List.filter f (l ++ [x]) = List.filter f l ++ if f x then [x] else [].
Proof. rewrite List.filter_app. cbn. by destruct (f x). Qed.

Lemma find_snoc {A} (f : A -> bool) l x :
  List.find f (l ++ [x]) = match List.find f l with Some y => Some y | None => if f x then Some x else None end.
Proof. induction l as [|y l IH]; cbn; [by destruct (f x)|]. by destruct (f y). Qed.

Lemma existsb_find {A} (f : A -> bool) l : existsb f l = match List.find f l with Some _ => true | None => false end.
Proof. induction l as [|x l IH]; cbn; [done|]. by destruct (f x). Qed.

Lemma exists_snoc {A} (P : A -> Prop) l x : (exists p, p ∈ l ++ [x] /\ P p) <-> (exists p, p ∈ l /\ P p) \/ P x.
Proof.
  split.
  - intros (p & [Hp| ->%list_elem_of_singleton]%elem_of_app & HP); [left; by exists p|by right].
  - intros [(p & Hp & HP)|HP]; [exists p|exists x]; (split; [|done]); apply elem_of_app; [by left|right; by left].
Qed.

Section FilterLemmas.
Context `{!ProposalHashing} (own : LeafNodeIndex).

(** [parse_proposal] for a proposal that does not stop it. *)
Definition absorb (p : QueuedProposal) (f : Filter) : Filter :=
  match proposal p with
  | Add _ => pool_insert p (mark_add p f)
  | Update _ =>
    match sender p with
    | Sender_Member i => pool_insert p (if negb (i =? own) then push_update i p f else set_own_updates f)
    | _ => f
    end
  | Remove removed => pool_insert p (push_remove removed p f)
  | ReInit _ => pool_insert p f
  | ExternalInit _ => if negb (contains_external_init f) then set_external_init (pool_insert p (mark_valid p f)) else f
  | AppAck _ => f
  | PreSharedKey _ | GroupContextExtensions _ | Custom _ => pool_insert p (mark_valid p f)
  end.

Lemma parse_proposals_spec l f : parse_proposals own l f =
  match first_bad l with Some o => o | None => Ok (foldl (fun f p => absorb p f) f l) end.
Proof.
  revert f. induction l as [|p l IH]; intros f; [done|]. cbn [parse_proposals first_bad foldl].
  unfold parse_proposal, bad, absorb.
  destruct (proposal p); cbn [mbind outcome_bind]; try apply IH; try done.
  - destruct (sender p); cbn; done || apply IH.
  - destruct (negb (contains_external_init f)); cbn [mbind outcome_bind]; apply IH.
Qed.

(** What the first loop has collected after [l]. *)
Record parsed (l : list QueuedProposal) (f : Filter) : Prop := {
  parsed_members i : default no_proposals (members f !! i) =
    mkFilterMember (if i =? own then [] else List.filter (is_update_of i) l) (List.filter (is_remove_of i) l);
  parsed_adds : ordered_ok (adds f) /\
    forall r, r ∈ ordered_proposal_refs (adds f) <-> exists p, p ∈ l /\ proposal_reference p = r /\ is_add p = true;
  parsed_valid : ordered_ok (valid_proposals f) /\
    forall r, r ∈ ordered_proposal_refs (valid_proposals f) <->
      exists p, p ∈ l /\ proposal_reference p = r /\ is_add p = false /\ target p = None /\ kept own l p;
  parsed_pool r p : proposal_pool f !! r = Some p -> p ∈ l /\ proposal_reference p = r;
  parsed_pooled p : p ∈ l -> (is_external_init p = true -> List.find is_external_init l = Some p) ->
    is_Some (proposal_pool f !! proposal_reference p);
  parsed_own : contains_own_updates f = existsb (is_update_of own) l;
  parsed_external : contains_external_init f = existsb is_external_init l
}.

Lemma absorb_members l f x i : bad (A := Filter) x = None -> parsed l f ->
  default no_proposals (members (absorb x f) !! i) =
    mkFilterMember (if i =? own then [] else List.filter (is_update_of i) (l ++ [x])) (List.filter (is_remove_of i) (l ++ [x])).
Proof.
  intros Hb Hp. pose proof (parsed_members _ _ Hp i) as Hm. rewrite !filter_snoc.
  unfold absorb, is_update_of, is_remove_of, bad in *. destruct (proposal x) as [| |j| | | | | |];
    try (rewrite !app_nil_r; exact Hm); try discriminate.
  - destruct (sender x) as [j| | |]; try discriminate. cbn [members pool_insert].
    destruct (Z.eqb_spec j own) as [->|Hj]; cbn [negb].
    + cbn [members set_own_updates]. rewrite Hm, app_nil_r. destruct (Z.eqb_spec own i) as [->|]; [by rewrite Z.eqb_refl|by rewrite app_nil_r].
    + cbn [members push_update]. destruct (Z.eqb_spec j i) as [->|Hji].
      * rewrite lookup_insert_eq. simpl. rewrite Hm. cbn [updates removes].
        rewrite (proj2 (Z.eqb_neq i own) Hj), app_nil_r. done.
      * rewrite lookup_insert_ne by done. rewrite Hm, !app_nil_r. done.
  - cbn [members pool_insert push_remove]. rewrite app_nil_r. destruct (Z.eqb_spec j i) as [->|Hji].
    + rewrite lookup_insert_eq. simpl. by rewrite Hm.
    + rewrite lookup_insert_ne by done. rewrite Hm, app_nil_r. done.
  - destruct (negb _); rewrite !app_nil_r; exact Hm.
Qed.

Lemma absorb_adds l f x : bad (A := Filter) x = None -> parsed l f ->
  ordered_ok (adds (absorb x f)) /\
  forall r, r ∈ ordered_proposal_refs (adds (absorb x f)) <-> exists p, p ∈ l ++ [x] /\ proposal_reference p = r /\ is_add p = true.
Proof.
  intros Hb Hp. destruct (parsed_adds _ _ Hp) as [Hok Ha].
  assert (Hstep : forall r, (exists p, p ∈ l ++ [x] /\ proposal_reference p = r /\ is_add p = true) <->
    r ∈ ordered_proposal_refs (adds f) \/ (proposal_reference x = r /\ is_add x = true)) by (intros r; by rewrite exists_snoc, Ha).
  destruct (is_add x) eqn:Ex.
  - assert (Ea : adds (absorb x f) = OrderedProposalRefs_add (proposal_reference x) (adds f)).
    { unfold absorb, is_add in *. by destruct (proposal x). }
    rewrite Ea. destruct (OrderedProposalRefs_add_spec (proposal_reference x) _ Hok) as [Hok' Hr]. split; [done|].
    intros r. rewrite Hr, Hstep. clear. intuition congruence.
  - assert (Ea : adds (absorb x f) = adds f).
    { unfold absorb, is_add in *. destruct (proposal x); try done; [destruct (sender x); [|done..]|]; by destruct (negb _). }
    rewrite Ea. split; [done|]. intros r. rewrite Hstep. clear. intuition congruence.
Qed.

(** Outside updates and removes, what is kept of a prefix does not change. *)
Lemma kept_snoc l x p : p ∈ l -> target p = None -> kept own (l ++ [x]) p <-> kept own l p.
Proof.
  intros Hp Ht. unfold kept, target in *. destruct (proposal p) eqn:E; try done.
  - split; intros (i & Es & _); by rewrite Es in Ht.
  - rewrite find_snoc. destruct (List.find is_external_init l) eqn:Ef; [done|].
    pose proof (find_none _ _ Ef p (proj1 (list_elem_of_In _ _) Hp)) as Hn. unfold is_external_init in Hn. by rewrite E in Hn.
Qed.

Lemma absorb_valid l f x : bad (A := Filter) x = None -> parsed l f ->
  ordered_ok (valid_proposals (absorb x f)) /\
  forall r, r ∈ ordered_proposal_refs (valid_proposals (absorb x f)) <->
    exists p, p ∈ l ++ [x] /\ proposal_reference p = r /\ is_add p = false /\ target p = None /\ kept own (l ++ [x]) p.
Proof.
  intros Hb Hp. destruct (parsed_valid _ _ Hp) as [Hok Hv]. pose proof (parsed_external _ _ Hp) as Hext.
  assert (Hstep : forall r, (exists p, p ∈ l ++ [x] /\ proposal_reference p = r /\ is_add p = false /\ target p = None /\ kept own (l ++ [x]) p) <->
    r ∈ ordered_proposal_refs (valid_proposals f) \/ (proposal_reference x = r /\ is_add x = false /\ target x = None /\ kept own (l ++ [x]) x)).
  { intros r. rewrite exists_snoc, Hv. apply or_iff_compat_r. split; intros (p & Hpl & ? & ? & Ht & Hk); exists p; split_and!; try done;
      by apply (kept_snoc l x p). }
  assert (Hcase : (valid_proposals (absorb x f) = OrderedProposalRefs_add (proposal_reference x) (valid_proposals f) /\
      is_add x = false /\ target x = None /\ kept own (l ++ [x]) x) \/
    (valid_proposals (absorb x f) = valid_proposals f /\
      (is_add x = false -> target x = None -> kept own (l ++ [x]) x -> proposal_reference x ∈ ordered_proposal_refs (valid_proposals f)))).
  { unfold absorb, is_add, target, kept, bad in *. destruct (proposal x) eqn:E; try (by left); try (by right).
    - destruct (sender x) as [i| | |]; try discriminate. right. split; [by destruct (negb _)|]. done.
    - rewrite Hext, existsb_find, find_snoc. destruct (List.find is_external_init l) as [y|] eqn:Ef.
      + cbn [negb]. right. split; [done|]. intros _ _ [= ->].
        apply Hv. pose proof (find_some _ _ Ef) as [Hin%list_elem_of_In _]. exists x. unfold target, kept. by rewrite E.
      + cbn [negb]. left. split; [done|]. split; [done|]. split; [done|].
        unfold is_external_init. by rewrite E. }
  destruct Hcase as [(-> & Hx)|[-> Hx]].
  - destruct (OrderedProposalRefs_add_spec (proposal_reference x) _ Hok) as [Hok' Hr]. split; [done|]. intros r. rewrite Hr, Hstep. clear -Hx. intuition congruence.
  - split; [done|]. intros r. rewrite Hstep. split; [by left|]. intros [?|(<- & ? & ? & ?)]; auto.
Qed.

Lemma absorb_pool l f x r p : parsed l f -> proposal_pool (absorb x f) !! r = Some p -> p ∈ l ++ [x] /\ proposal_reference p = r.
Proof.
  intros Hp E. assert (Hold : proposal_pool f !! r = Some p -> p ∈ l ++ [x] /\ proposal_reference p = r).
  { intros [? ?]%(parsed_pool _ _ Hp). split; [apply elem_of_app; by left|done]. }
  assert (Hpool : proposal_pool (absorb x f) = proposal_pool f \/ proposal_pool (absorb x f) = <[proposal_reference x := x]> (proposal_pool f)).
  { unfold absorb. destruct (proposal x); try (by left); try (by right).
    - destruct (sender x); try (by left). right. by destruct (negb _).
    - destruct (negb _); [by right|by left]. }
  destruct Hpool as [Ep|Ep]; rewrite Ep in E; [by apply Hold|].
  apply lookup_insert_Some in E as [[<- <-]|[_ E]]; [|by apply Hold]. split; [apply elem_of_app; right; by left|done].
Qed.

Lemma absorb_pooled l f x p : bad (A := Filter) x = None -> parsed l f -> p ∈ l ++ [x] ->
  (is_external_init p = true -> List.find is_external_init (l ++ [x]) = Some p) ->
  is_Some (proposal_pool (absorb x f) !! proposal_reference p).
Proof.
  intros Hb Hp Hin Hext.
  assert (Hpool : (proposal_pool (absorb x f) = <[proposal_reference x := x]> (proposal_pool f)) \/
    (proposal_pool (absorb x f) = proposal_pool f /\ is_external_init x = true /\ is_Some (List.find is_external_init l))).
  { unfold absorb, bad in *. destruct (proposal x) eqn:E; try (by left); try discriminate.
    - destruct (sender x); try discriminate. left. by destruct (negb _).
    - rewrite (parsed_external _ _ Hp), existsb_find. destruct (List.find is_external_init l); cbn [negb]; [right|by left].
      split; [done|]. split; [|by eexists]. unfold is_external_init at 1. by rewrite E. }
  rewrite find_snoc in Hext. destruct Hpool as [->|(-> & Hx & [y Hy])].
  - destruct (decide (proposal_reference p = proposal_reference x)) as [->|Hne]; [rewrite lookup_insert_eq; eauto|].
    rewrite lookup_insert_ne by done. apply elem_of_app in Hin as [Hin| ->%list_elem_of_singleton]; [|done].
    apply (parsed_pooled _ _ Hp p Hin). intros Hpe. specialize (Hext Hpe). destruct (List.find is_external_init l) eqn:Ef; [done|].
    pose proof (find_none _ _ Ef p (proj1 (list_elem_of_In _ _) Hin)). congruence.
  - rewrite Hy in Hext. assert (Hpl : p ∈ l).
    { apply elem_of_app in Hin as [Hin| ->%list_elem_of_singleton]; [done|]. injection (Hext Hx) as ->.
      by apply find_some in Hy as [?%list_elem_of_In _]. }
    apply (parsed_pooled _ _ Hp p Hpl). intros Hpe. by rewrite Hy, Hext.
Qed.

Lemma absorb_parsed l f x : bad (A := Filter) x = None -> parsed l f -> parsed (l ++ [x]) (absorb x f).
Proof.
  intros Hb Hp. split.
  - intros i. by apply absorb_members.
  - by apply absorb_adds.
  - by apply absorb_valid.
  - intros r p. by apply absorb_pool.
  - intros p. by apply absorb_pooled.
  - rewrite existsb_app. cbn [existsb]. rewrite orb_false_r, <- (parsed_own _ _ Hp).
    unfold absorb, is_update_of, bad in *. destruct (proposal x); try (by rewrite orb_false_r); try discriminate.
    + destruct (sender x) as [j| | |]; try discriminate. destruct (j =? own); cbn; [by rewrite orb_true_r|by rewrite orb_false_r].
    + destruct (negb _); by rewrite orb_false_r.
  - pose proof (parsed_external _ _ Hp) as He. rewrite existsb_app. cbn [existsb]. rewrite orb_false_r, <- He.
    unfold absorb, is_external_init, bad in *. destruct (proposal x); try (by rewrite orb_false_r); try discriminate.
    + destruct (sender x); try discriminate. destruct (negb _); by rewrite orb_false_r.
    + destruct (contains_external_init f) eqn:Ef; cbn [negb orb]; done.
Qed.

Lemma first_bad_snoc {A} l x : first_bad (A := A) (l ++ [x]) = match first_bad l with Some o => Some o | None => bad x end.
Proof. induction l as [|y l IH]; cbn; [by destruct (bad x)|]. by destruct (bad y). Qed.

Lemma parse_parsed l : first_bad (A := Filter) l = None -> parsed l (foldl (fun f p => absorb p f) Filter_new l).
Proof.
  induction l as [|x l IH] using rev_ind; intros Hb.
  - assert (Hnil : forall P : QueuedProposal -> Prop, ~ exists p, p ∈ [] /\ P p) by (intros P (p & Hp & _); by apply not_elem_of_nil in Hp).
    assert (Hok : ordered_ok OrderedProposalRefs_new) by (split; [apply NoDup_nil_2|intros r; split; [by intros ?%elem_of_empty|by intros ?%not_elem_of_nil]]).
    split; cbn; try done.
    + intros i. by destruct (i =? own).
    + split; [done|]. intros r. split; [by intros ?%not_elem_of_nil|by intros ?%Hnil].
    + split; [done|]. intros r. split; [by intros ?%not_elem_of_nil|by intros ?%Hnil].
    + by intros p ?%not_elem_of_nil.
  - rewrite first_bad_snoc in Hb. destruct (first_bad l); [done|]. rewrite foldl_app. cbn [foldl]. apply absorb_parsed; auto.
Qed.

(** The proposal the second loop keeps for a member. *)
Definition chosen (m : FilterMember) : option QueuedProposal :=
  match last (removes m) with Some p => Some p | None => last (updates m) end.

Lemma keep_last_spec valid m : ordered_ok valid -> ordered_ok (keep_last valid m) /\
  forall r, r ∈ ordered_proposal_refs (keep_last valid m) <->
    r ∈ ordered_proposal_refs valid \/ exists p, chosen m = Some p /\ proposal_reference p = r.
Proof.
  intros Hok. unfold keep_last, chosen. destruct (last (removes m)) as [p|]; [|destruct (last (updates m)) as [p|]].
  1,2: destruct (OrderedProposalRefs_add_spec (proposal_reference p) _ Hok) as [Hok' Hr]; split; [done|]; intros r; rewrite Hr;
    split; (intros [?|H']; [by left|right]); [subst; by exists p|destruct H' as (q & [= <-] & <-); done].
  split; [done|]. intros r. split; [by left|]. by intros [?|(? & ? & _)].
Qed.

Lemma keep_all_spec (ms : list (LeafNodeIndex * FilterMember)) valid : ordered_ok valid ->
  let valid' := foldl (fun valid x => keep_last valid x.2) valid ms in
  ordered_ok valid' /\ forall r, r ∈ ordered_proposal_refs valid' <->
    r ∈ ordered_proposal_refs valid \/ exists x p, x ∈ ms /\ chosen x.2 = Some p /\ proposal_reference p = r.
Proof.
  revert valid. induction ms as [|x ms IH]; intros valid Hok; cbn [foldl].
  - split; [done|]. intros r. split; [by left|]. intros [?|(x & p & Hx & _)]; [done|by apply not_elem_of_nil in Hx].
  - destruct (keep_last_spec valid x.2 Hok) as [Hok' Hr]. destruct (IH _ Hok') as [Hok'' Hr'']. split; [done|].
    intros r. rewrite Hr'', Hr. split.
    + intros [[?|(p & ? & ?)]|(y & p & ? & ? & ?)]; [by left|right; exists x, p; split; [by left|done]|right; exists y, p; split; [by right|done]].
    + intros [?|(y & p & [-> |Hy]%elem_of_cons & ? & ?)]; [by left; left|left; right; eauto|right; eauto].
Qed.

Lemma last_filter {A} (f : A -> bool) l x : last (List.filter f l) = Some x -> x ∈ l /\ f x = true.
Proof. intros Hl%last_Some_elem_of. by apply list_elem_of_In, filter_In in Hl as [?%list_elem_of_In ?]. Qed.

Lemma chosen_kept l i p :
  chosen (mkFilterMember (if i =? own then [] else List.filter (is_update_of i) l) (List.filter (is_remove_of i) l)) = Some p <->
  p ∈ l /\ target p = Some i /\ kept own l p.
Proof.
  unfold chosen. cbn [removes updates]. split.
  - destruct (last (List.filter (is_remove_of i) l)) as [q|] eqn:Er.
    + intros [= ->]. pose proof (last_filter _ _ _ Er) as [Hin Hf]. unfold is_remove_of, target, kept in *.
      destruct (proposal p); try discriminate. apply Z.eqb_eq in Hf. by subst removed.
    + apply last_None in Er. destruct (Z.eqb_spec i own) as [->|Hi]; [done|]. intros Eu.
      pose proof (last_filter _ _ _ Eu) as [Hin Hf]. unfold is_update_of, target, kept in *.
      destruct (proposal p); try discriminate. destruct (sender p) as [j| | |]; try discriminate. apply Z.eqb_eq in Hf. subst j. eauto 10.
  - intros (Hin & Ht & Hk). unfold target, kept in *. destruct (proposal p) eqn:E; try discriminate.
    + destruct Hk as (j & Es & Hj & Hl & Hr). rewrite Es in Ht. injection Ht as ->. by rewrite Hr, (proj2 (Z.eqb_neq i own) Hj).
    + injection Ht as ->. by rewrite Hk.
Qed.

End FilterLemmas.

(** The queue holds a proposal for each of its references. *)
Definition queue_ok (q : ProposalQueue) : Prop :=
  NoDup (proposal_references q) /\
  forall r, (is_Some (queued_map q !! r) <-> r ∈ proposal_references q) /\
    forall p, queued_map q !! r = Some p -> proposal_reference p = r.

Lemma ProposalQueue_add_spec q p : queue_ok q -> proposal_reference p ∉ proposal_references q ->
  queue_ok (ProposalQueue_add p q) /\ queued_proposals (ProposalQueue_add p q) = queued_proposals q ++ [p] /\
  proposal_references (ProposalQueue_add p q) = proposal_references q ++ [proposal_reference p].
Proof.
  intros [Hd Hq] Hp. unfold ProposalQueue_add. destruct (queued_map q !! proposal_reference p) eqn:E.
  { exfalso. apply Hp, (proj1 (Hq _)). by rewrite E. }
  split; [split; cbn|split; [|done]].
  - apply NoDup_app. split_and!; [done| |apply NoDup_singleton]. by intros x Hx ->%list_elem_of_singleton.
  - intros r. rewrite elem_of_app, list_elem_of_singleton. destruct (decide (r = proposal_reference p)) as [->|Hr].
    + rewrite lookup_insert_eq. split; [split; eauto|]. by intros ? [= <-].
    + rewrite lookup_insert_ne by done. destruct (Hq r) as [H1 H2]. split; [|done]. rewrite H1. tauto.
  - unfold queued_proposals, ProposalQueue_get. cbn [proposal_references queued_map]. rewrite omap_app. cbn.
    rewrite lookup_insert_eq. f_equal. apply list_omap_ext. apply Forall2_same_length_lookup. split; [done|].
    intros k r r' Hr Hr'. rewrite lookup_insert_ne; [congruence|]. intros <-. apply Hp. apply list_elem_of_lookup_2 in Hr. congruence.
Qed.

Lemma retain_spec pool refs : forall q, queue_ok q -> NoDup refs -> (forall r, r ∈ refs -> r ∉ proposal_references q) ->
  (forall r, r ∈ refs -> exists p, pool !! r = Some p /\ proposal_reference p = r) ->
  exists q', retain pool refs q = Ok q' /\ queue_ok q' /\
    queued_proposals q' = queued_proposals q ++ omap (fun r => pool !! r) refs.
Proof.
  induction refs as [|r refs IH]; intros q Hq Hd Hfresh Hpool; cbn [retain omap list_omap].
  { exists q. by rewrite app_nil_r. }
  destruct (Hpool r) as (p & Ep & Er); [by left|]. rewrite Ep. cbn [ok_or mbind outcome_bind]. apply NoDup_cons in Hd as [Hr Hd].
  destruct (ProposalQueue_add_spec q p Hq) as (Hq' & El & Erefs); [rewrite Er; apply Hfresh; by left|].
  destruct (IH _ Hq' Hd) as (q' & E & Hok & El').
  - intros r' Hr'. rewrite Erefs, Er, elem_of_app, list_elem_of_singleton. intros [Hin| ->]; [|done]. apply (Hfresh r'); [by right|done].
  - intros r' Hr'. apply Hpool. by right.
  - exists q'. split; [done|]. split; [done|]. rewrite El', El, <- app_assoc. done.
Qed.

Lemma first_bad_case {A B} l : first_bad (A := A) l = None <-> first_bad (A := B) l = None.
Proof.
  induction l as [|p l IH]; [done|]. cbn. unfold bad. destruct (proposal p); try done. by destruct (is_member (sender p)).
Qed.

Lemma first_bad_bind {A B} l (k : A -> outcome ProposalQueueError B) : first_bad (A := A) l <> None ->
  exists o, first_bad (A := B) l = Some o /\ (x ← match first_bad (A := A) l with Some o => o | None => Panic end; k x) = o.
Proof.
  induction l as [|p l IH]; [done|]. cbn. unfold bad. destruct (proposal p); try apply IH.
  - destruct (is_member (sender p)); [apply IH|]. intros _. by eexists.
  - intros _. by eexists.
Qed.

Section FilterSpec.
Context `{!ProposalHashing}.
Context (map_order : gmap LeafNodeIndex FilterMember -> list (LeafNodeIndex * FilterMember)).
Context (Horder : forall m, map_order m ≡ₚ map_to_list m).

(** The proposals the second loop finds, in terms of the specification. *)
Lemma members_chosen own l f r : parsed own l f ->
  (exists x p, x ∈ map_order (members f) /\ chosen x.2 = Some p /\ proposal_reference p = r) <->
  (exists p i, p ∈ l /\ proposal_reference p = r /\ target p = Some i /\ kept own l p).
Proof using Horder.
  intros Hp. split.
  - intros ([i m] & p & Hx & Hc & Hr). rewrite Horder in Hx. apply elem_of_map_to_list in Hx.
    pose proof (parsed_members _ _ _ Hp i) as Hm. rewrite Hx in Hm. cbn in Hm. subst m. apply chosen_kept in Hc as (? & ? & ?). by exists p, i.
  - intros (p & i & Hpl & Hr & Ht & Hk). pose proof (proj2 (chosen_kept own l i p) (conj Hpl (conj Ht Hk))) as Hc.
    rewrite <- (parsed_members _ _ _ Hp i) in Hc. destruct (members f !! i) as [m|] eqn:E; [|done].
    exists (i, m), p. split_and!; [|done..]. rewrite Horder. by apply elem_of_map_to_list.
Qed.

Lemma kept_external own l p : kept own l p -> is_external_init p = true -> List.find is_external_init l = Some p.
Proof. unfold kept, is_external_init. by destruct (proposal p). Qed.

Lemma target_of_kept own l p i : target p = Some i -> kept own l p ->
  chosen (mkFilterMember (if i =? own then [] else List.filter (is_update_of i) l) (List.filter (is_remove_of i) l)) = Some p.
Proof.
  intros Ht Hk. apply chosen_kept. split; [|done]. unfold kept, target in *. destruct (proposal p); try discriminate.
  - destruct Hk as (j & _ & _ & Hl & _). by apply last_filter in Hl as [? _].
  - by apply last_filter in Hk as [? _].
Qed.

Lemma filter_spec l own : refs_unique l -> first_bad (A := Filter) l = None ->
  exists q, filter_proposals_without_inline map_order l own = Ok (q, existsb (is_update_of own) l) /\ queue_ok q /\
    (forall p, p ∈ queued_proposals q <-> p ∈ l /\ kept own l p) /\
    exists adds rest, queued_proposals q = adds ++ rest /\ Forall (fun p => is_add p = true) adds /\ Forall (fun p => is_add p = false) rest.
Proof using Horder.
  intros Hu Hb. unfold filter_proposals_without_inline. rewrite parse_proposals_spec, Hb. cbn [mbind outcome_bind].
  pose proof (parse_parsed own l Hb) as Hp. set (f := foldl _ Filter_new l) in *.
  destruct (parsed_adds _ _ _ Hp) as [[Had _] Ha]. destruct (parsed_valid _ _ _ Hp) as [Hvok Hv].
  destruct (keep_all_spec (map_order (members f)) _ Hvok) as [[Hvd _] Hv']. cbv zeta in Hvd, Hv'.
  set (valid := foldl _ (valid_proposals f) _) in *.
  assert (Hvalid : forall r, r ∈ ordered_proposal_refs valid <-> exists p, p ∈ l /\ proposal_reference p = r /\ is_add p = false /\ kept own l p).
  { intros r. rewrite Hv', Hv, members_chosen by done. split.
    - intros [(p & ? & ? & ? & _ & ?)|(p & i & ? & ? & Ht & ?)]; exists p; split_and!; try done.
      unfold is_add, target in *. by destruct (proposal p).
    - intros (p & ? & ? & ? & ?). destruct (target p) as [i|] eqn:Ht; [right; by exists p, i|left; by exists p]. }
  assert (Hpool : forall p, p ∈ l -> (is_external_init p = true -> List.find is_external_init l = Some p) ->
    proposal_pool f !! proposal_reference p = Some p).
  { intros p Hpl He. destruct (parsed_pooled _ _ _ Hp p Hpl He) as [q Eq]. rewrite Eq. f_equal.
    destruct (parsed_pool _ _ _ Hp _ _ Eq) as [Hql Er]. by apply Hu. }
  assert (Hread : forall P (refs : list ProposalRef), (forall r, r ∈ refs <-> exists p, p ∈ l /\ proposal_reference p = r /\ is_add p = P /\ kept own l p) ->
    forall p, p ∈ omap (fun r => proposal_pool f !! r) refs <-> p ∈ l /\ is_add p = P /\ kept own l p).
  { intros P refs Hrefs p. rewrite list_elem_of_omap. split.
    - intros (r & (q & Hq & <- & ? & Hk)%Hrefs & E). rewrite (Hpool q Hq (kept_external own l q Hk)) in E. by injection E as <-.
    - intros (Hpl & HP & Hk). exists (proposal_reference p). split; [apply Hrefs; by exists p|]. by apply Hpool, (kept_external own). }
  assert (Hadds : forall r, r ∈ ordered_proposal_refs (adds f) <-> exists p, p ∈ l /\ proposal_reference p = r /\ is_add p = true /\ kept own l p).
  { intros r. rewrite Ha. split; intros (p & Hpl & Hr & Hadd); exists p; split_and!; try done; [|by destruct Hadd].
    unfold is_add, kept in *. by destruct (proposal p). }
  destruct (retain_spec (proposal_pool f) (ordered_proposal_refs (adds f) ++ ordered_proposal_refs valid) ProposalQueue_default)
    as (q & E & Hq & El).
  - split; [apply NoDup_nil_2|]. intros r. cbn. rewrite lookup_empty. split; [|done]. split; [by intros []|by intros ?%not_elem_of_nil].
  - apply NoDup_app. split_and!; [done| |done]. intros r (p & Hpl & Er & Hp1 & _)%Hadds (p' & Hpl' & Er' & Hp2 & _)%Hvalid.
    rewrite (Hu p p') in Hp1 by (done || congruence). congruence.
  - by intros r _ ?%not_elem_of_nil.
  - intros r Hr. assert (exists p, p ∈ l /\ proposal_reference p = r /\ kept own l p) as (p & Hpl & <- & Hk).
    { apply elem_of_app in Hr as [(p & ? & ? & _ & ?)%Hadds|(p & ? & ? & _ & ?)%Hvalid]; by exists p. }
    exists p. split; [|done]. by apply Hpool, (kept_external own).
  - rewrite E. cbn [mbind outcome_bind]. exists q. rewrite (parsed_own _ _ _ Hp). split; [done|]. split; [done|].
    rewrite El. cbn [queued_proposals ProposalQueue_default proposal_references omap list_omap app]. rewrite omap_app. split.
    + intros p. rewrite elem_of_app, (Hread true _ Hadds), (Hread false _ Hvalid). destruct (is_add p); intuition congruence.
    + eexists _, _. split; [reflexivity|]. split; apply Forall_forall; intros p Hin.
      * by apply (Hread true _ Hadds) in Hin as (_ & ? & _).
      * by apply (Hread false _ Hvalid) in Hin as (_ & ? & _).
Qed.

End FilterSpec.

(** ** Commits carry their proposals by value *)

Section Committed.
Context `{!ProposalHashing}.

Lemma inline_queued_spec c s ps inline : inline_queued c s ps = Ok inline ->
  map proposal inline = ps /\ Forall (fun p => sender p = s /\ proposal_or_ref_type p = ByProposal) inline.
Proof.
  revert inline. induction ps as [|p ps IH]; intros inline E; cbn [inline_queued] in E; [by injection E as <-|].
  unfold from_proposal_and_sender in E. destruct (from_raw_proposal c p) as [r| |]; try discriminate. cbn [mbind outcome_bind] in E.
  destruct (inline_queued c s ps) as [xs| |]; try discriminate. injection E as <-. destruct (IH xs eq_refl) as [<- Hf]. by split; [|constructor].
Qed.

Lemma add_committed_inline c known s ps : forall inline q, inline_queued c s ps = Ok inline -> queue_ok q ->
  Forall (fun p => removes_itself p s = false) ps -> NoDup (map proposal_reference inline) ->
  (forall p, p ∈ inline -> proposal_reference p ∉ proposal_references q) ->
  exists q', add_committed c known s (map ProposalOrRef_Proposal ps) q = Ok q' /\ queue_ok q' /\
    queued_proposals q' = queued_proposals q ++ inline.
Proof.
  induction ps as [|p ps IH]; intros inline q E Hq Hself Hd Hfresh; cbn [inline_queued] in E.
  { injection E as <-. exists q. by rewrite app_nil_r. }
  apply Forall_cons in Hself as [Hp Hself]. destruct (from_proposal_and_sender c p s) as [x| |] eqn:Ex; try discriminate.
  cbn [mbind outcome_bind] in E. destruct (inline_queued c s ps) as [xs| |] eqn:Exs; try discriminate. injection E as <-.
  cbn [map] in Hd |- *. apply NoDup_cons in Hd as [Hx Hd]. cbn [add_committed committed_proposal]. rewrite Hp, Ex. cbn [map_err mbind outcome_bind].
  destruct (ProposalQueue_add_spec q x Hq) as (Hq' & El & Erefs); [apply Hfresh; by left|].
  destruct (IH xs _ eq_refl Hq' Hself Hd) as (q' & E & Hok & El').
  - intros y Hy. rewrite Erefs, elem_of_app, list_elem_of_singleton. intros [Hin|Ey]; [apply (Hfresh y); [by right|done]|].
    apply Hx. rewrite <- Ey. by apply (list_elem_of_fmap_2 proposal_reference).
  - exists q'. split; [done|]. split; [done|]. by rewrite El', El, <- app_assoc.
Qed.

Lemma commit_list_proposals q : commit_list q = map ProposalOrRef_Proposal (map proposal (queued_proposals q)).
Proof. unfold commit_list, queued_proposals, ProposalQueue_get. by rewrite map_map. Qed.

Lemma committed_queue c q store s inline :
  inline_queued c s (map proposal (queued_proposals q)) = Ok inline -> NoDup (map proposal_reference inline) ->
  Forall (fun p => removes_itself (proposal p) s = false) (queued_proposals q) ->
  exists q', from_committed_proposals c (commit_list q) store s = Ok q' /\ queue_ok q' /\ queued_proposals q' = inline.
Proof.
  intros E Hd Hself. unfold from_committed_proposals. rewrite commit_list_proposals.
  destruct (add_committed_inline c (foldl (fun m p => <[proposal_reference p := p]> m) ∅ store) s
    (map proposal (queued_proposals q)) inline ProposalQueue_default E) as (q' & E' & Hok & El).
  - split; [apply NoDup_nil_2|]. intros r. cbn. rewrite lookup_empty. split; [|done]. split; [by intros []|by intros ?%not_elem_of_nil].
  - by apply Forall_map.
  - done.
  - by intros p _ ?%not_elem_of_nil.
  - by exists q'.
Qed.

(** ** Theorems *)

(** C34: [filter_proposals] selects what a commit covers: of the stored and inline
    proposals it keeps all additions, PSKs, group context extensions and custom
    proposals, the first external init, and for each leaf either its last Remove
    or else its last Update, never one of the committer itself and never two
    proposals for one leaf; additions come first. It reports whether the
    committer had proposed an update. It panics at an AppAck and fails at an
    Update of a non-member, whichever comes first. The order in which the map of
    members is traversed does not matter.  The references are taken to be different.
    (Its documentation says that of several Adds for one client one is kept and that
    invalid indexes are dropped: that is left to the validation.) *)
Theorem filter_proposals_correct map_order c s store inline_proposals inline own :
  (forall m, map_order m ≡ₚ map_to_list m) ->
  inline_queued c s inline_proposals = Ok inline -> refs_unique (store ++ inline) ->
  let l := store ++ inline in
  match first_bad l with
  | Some o => filter_proposals map_order c s store inline_proposals own = o
  | None => exists q, filter_proposals map_order c s store inline_proposals own = Ok (q, existsb (is_update_of own) l) /\
      (forall p, p ∈ queued_proposals q <-> p ∈ l /\ kept own l p) /\
      (forall p p' i, p ∈ queued_proposals q -> p' ∈ queued_proposals q -> target p = Some i -> target p' = Some i -> p = p') /\
      exists adds rest, queued_proposals q = adds ++ rest /\
        Forall (fun p => is_add p = true) adds /\ Forall (fun p => is_add p = false) rest
  end.
Proof.
  intros Horder Ei Hu l. unfold filter_proposals. rewrite Ei. cbn [map_err mbind outcome_bind]. fold l in Hu |- *.
  destruct (first_bad (A := Filter) l) as [o'|] eqn:Eb.
  - unfold filter_proposals_without_inline. rewrite parse_proposals_spec.
    destruct (first_bad_bind l (fun f => q ← retain (proposal_pool f) (ordered_proposal_refs (adds f) ++
        ordered_proposal_refs (foldl (fun valid x => keep_last valid x.2) (valid_proposals f) (map_order (members f)))) ProposalQueue_default;
      Ok (q, contains_own_updates f))) as (o & -> & Eo); [by rewrite Eb|].
    rewrite Eb in Eo |- *. exact Eo.
  - rewrite (proj1 (first_bad_case l) Eb). destruct (filter_spec map_order Horder l own Hu Eb) as (q & E & _ & Hk & Hadds).
    exists q. split_and!; [done|done| |done]. intros p p' i [_ Hp]%Hk [_ Hp']%Hk Ht Ht'.
    pose proof (target_of_kept own l p i Ht Hp) as E1. pose proof (target_of_kept own l p' i Ht' Hp') as E2. congruence.
Qed.

End Committed.

(** ** Witnesses *)

Definition toy_proposal_hashing : ProposalHashing := {|
  tls_proposal p := Some (ProposalType_u16 (proposal_type p) :: match p with Remove i => [i] | _ => [] end);
  tls_hash_reference_input label value := Some (label ++ value);
  reference_hash _ data := Ok data
|}.

Definition sample_proposal (r : Z) (p : Proposal) (i : LeafNodeIndex) : QueuedProposal :=
  {| proposal := p; proposal_reference := [r]; sender := Sender_Member i; proposal_or_ref_type := ByReference |}.

(** Member 3 updates twice and is removed twice, member 2 updates, member 0 commits. *)
Definition sample_store : ProposalStore := [
  sample_proposal 1 (Update new_placeholder) 3; sample_proposal 2 (Update new_placeholder) 2;
  sample_proposal 3 (Remove 3) 1; sample_proposal 4 (Remove 3) 2; sample_proposal 5 (Update new_placeholder) 0 ].

Lemma filter_proposals_correct_witness :
  exists q, @filter_proposals toy_proposal_hashing map_to_list MLS_128_DHKEMX25519_AES128GCM_SHA256_Ed25519
      (Sender_Member 0) sample_store [Remove 4] 0 = Ok (q, true) /\
    sample_proposal 4 (Remove 3) 2 ∈ queued_proposals q /\ sample_proposal 1 (Update new_placeholder) 3 ∉ queued_proposals q.
Proof.
  destruct (@filter_proposals_correct toy_proposal_hashing map_to_list MLS_128_DHKEMX25519_AES128GCM_SHA256_Ed25519
    (Sender_Member 0) sample_store [Remove 4] [{| proposal := Remove 4; proposal_reference :=
      str_bytes "MLS 1.0 Proposal Reference" ++ str_bytes "Internal OpenMLS ProposalRef Label" ++ [3; 4];
      sender := Sender_Member 0; proposal_or_ref_type := ByProposal |}] 0) as (q & E & Hk & _).
  - intros m. reflexivity.
  - vm_compute. reflexivity.
  - intros p p' Hp Hp'. cbn in Hp, Hp'. rewrite !elem_of_cons in Hp, Hp'.
    destruct_or! Hp; destruct_or! Hp'; try (by apply not_elem_of_nil in Hp); try (by apply not_elem_of_nil in Hp'); subst;
      solve [reflexivity | intros Hr; vm_compute in Hr; discriminate Hr].
  - exists q. split; [exact E|]. rewrite !Hk. split.
    + split; [|vm_compute; reflexivity]. do 3 right. left.
    + intros [_ (i & Hi & _ & _ & Hr)]. injection Hi as <-. vm_compute in Hr. discriminate Hr.
Defined.
