(* ===== verification/PublicGroup.v ===== *)
(** * Public groups and their diffs

    Models the authenticated content of messages ([framing/mls_content.rs],
    [framing/mls_auth_content.rs], [Commit] of [messages/mod.rs]), the transcript
    hashes ([framing/public_message.rs]), the group context
    ([group/group_context.rs]), the public state of a group
    ([group/public_group/mod.rs]), its diff ([group/public_group/diff.rs]) and
    the application of proposals ([diff/apply_proposals.rs]).  The TLS encodings
    of the two transcript hash inputs are the parameters of the class
    [TranscriptEncoding]; hashing is the provider of [Nodes.TreeHashing]. *)

From S2P Require Import Prelude TreeMath Crypto BinaryTree SecretTree LeafNodes Nodes TreeSyncDiff TreeHash UpdatePaths TreeKem TreeSync Proposals.

(** ** Authenticated content *)

Inductive WireFormat := WirePublicMessage | WirePrivateMessage | WireWelcome | WireGroupInfo | WireKeyPackage.

#[export] Instance WireFormat_eq_dec : EqDecision WireFormat.
Proof. solve_decision. Defined.
#[export] Instance ContentType_eq_dec : EqDecision ContentType.
Proof. solve_decision. Defined.
#[export] Instance Sender_eq_dec : EqDecision Sender.
Proof. solve_decision. Defined.

(** [UpdatePath { leaf_node, nodes }] as a commit carries it, with the ciphertexts;
    [UpdatePaths.UpdatePath] is its public part. *)
Record CommitPath := mkCommitPath { cp_leaf_node : LeafNode; cp_nodes : list UpdatePathNode }.

Definition public_part (path : CommitPath) : UpdatePath :=
  {| up_leaf_node := cp_leaf_node path; up_public_keys := map node_public_key (cp_nodes path) |}.

Record Commit := mkCommit { commit_proposals : list ProposalOrRef; commit_path : option CommitPath }.

Inductive FramedContentBody :=
| BodyApplication (application_data : bytes)
| BodyProposal (p : Proposal)
| BodyCommit (c : Commit).

Definition content_type (b : FramedContentBody) : ContentType :=
  match b with
  | BodyApplication _ => ContentApplication
  | BodyProposal _ => ContentProposal
  | BodyCommit _ => ContentCommit
  end.

Record FramedContent := mkFramedContent {
  content_group_id : bytes;
  content_epoch : Z;
  content_sender : Sender;
  authenticated_data : bytes;
  content_body : FramedContentBody
}.

Record FramedContentAuthData := mkFramedContentAuthData {
  auth_signature : bytes;
  auth_confirmation_tag : option bytes
}.

Record AuthenticatedContent := mkAuthenticatedContent {
  ac_wire_format : WireFormat;
  ac_content : FramedContent;
  ac_auth : FramedContentAuthData
}.

(** ** Transcript hashes *)

Class TranscriptEncoding := {
  (** [tls_serialize_detached] of [ConfirmedTranscriptHashInput { wire_format, mls_content, signature }] *)
  tls_confirmed_input : WireFormat -> FramedContent -> bytes -> option bytes;
  (** [tls_serialize_detached] of [InterimTranscriptHashInput { confirmation_tag }] *)
  tls_interim_input : bytes -> option bytes
}.

(** ** Group context *)

Record GroupContext := mkGroupContext {
  gc_protocol_version : ProtocolVersion;
  gc_ciphersuite : Ciphersuite;
  gc_group_id : bytes;
  gc_epoch : Z;
  gc_tree_hash : bytes;
  gc_confirmed_transcript_hash : bytes;
  gc_extensions : Extensions
}.

Definition GroupContext_new (c : Ciphersuite) (group_id : bytes) (epoch : Z) (tree_hash confirmed_transcript_hash : bytes)
    (es : Extensions) : GroupContext := {|
  gc_ciphersuite := c; gc_protocol_version := Mls10; gc_group_id := group_id; gc_epoch := epoch;
  gc_tree_hash := tree_hash; gc_confirmed_transcript_hash := confirmed_transcript_hash; gc_extensions := es |}.

Definition create_initial_group_context (c : Ciphersuite) (group_id tree_hash : bytes) (es : Extensions) : GroupContext :=
  GroupContext_new c group_id 0 tree_hash [] es.

(** [GroupEpoch::increment] on a [u64] *)
Definition increment_epoch (g : GroupContext) : GroupContext := {|
  gc_protocol_version := gc_protocol_version g; gc_ciphersuite := gc_ciphersuite g; gc_group_id := gc_group_id g;
  gc_epoch := u64_wrap (gc_epoch g + 1); gc_tree_hash := gc_tree_hash g;
  gc_confirmed_transcript_hash := gc_confirmed_transcript_hash g; gc_extensions := gc_extensions g |}.

Definition update_tree_hash (new_tree_hash : bytes) (g : GroupContext) : GroupContext := {|
  gc_protocol_version := gc_protocol_version g; gc_ciphersuite := gc_ciphersuite g; gc_group_id := gc_group_id g;
  gc_epoch := gc_epoch g; gc_tree_hash := new_tree_hash;
  gc_confirmed_transcript_hash := gc_confirmed_transcript_hash g; gc_extensions := gc_extensions g |}.

Definition set_extensions (es : Extensions) (g : GroupContext) : GroupContext := {|
  gc_protocol_version := gc_protocol_version g; gc_ciphersuite := gc_ciphersuite g; gc_group_id := gc_group_id g;
  gc_epoch := gc_epoch g; gc_tree_hash := gc_tree_hash g;
  gc_confirmed_transcript_hash := gc_confirmed_transcript_hash g; gc_extensions := es |}.

Definition set_confirmed_transcript_hash (hash : bytes) (g : GroupContext) : GroupContext := {|
  gc_protocol_version := gc_protocol_version g; gc_ciphersuite := gc_ciphersuite g; gc_group_id := gc_group_id g;
  gc_epoch := gc_epoch g; gc_tree_hash := gc_tree_hash g;
  gc_confirmed_transcript_hash := hash; gc_extensions := gc_extensions g |}.

Section Transcript.
Context `{!TreeHashing} `{!TranscriptEncoding}.

Definition calculate_confirmed_transcript_hash (c : Ciphersuite) (interim_transcript_hash : bytes)
    (w : WireFormat) (content : FramedContent) (signature : bytes) : outcome LibraryError bytes :=
  serialized ← ok_or (tls_confirmed_input w content signature) LibraryMissingBoundsCheck;
  map_err LibraryCryptoError (provider_hash (hash_algorithm c) (interim_transcript_hash ++ serialized)).

Definition calculate_interim_transcript_hash (c : Ciphersuite) (confirmed_transcript_hash confirmation_tag : bytes) :
    outcome LibraryError bytes :=
  serialized ← ok_or (tls_interim_input confirmation_tag) LibraryMissingBoundsCheck;
  map_err LibraryCryptoError (provider_hash (hash_algorithm c) (confirmed_transcript_hash ++ serialized)).

(** [ConfirmedTranscriptHashInput::try_from] accepts commits only. *)
Definition update_confirmed_transcript_hash (interim_transcript_hash : bytes) (m : AuthenticatedContent) :
    method GroupContext LibraryError () :=
  if negb (bool_decide (content_type (content_body (ac_content m)) = ContentCommit)) then fail LibraryCustom
  else
    self ← get;
    hash ← lift (calculate_confirmed_transcript_hash (gc_ciphersuite self) interim_transcript_hash
      (ac_wire_format m) (ac_content m) (auth_signature (ac_auth m)));
    modify (set_confirmed_transcript_hash hash).

End Transcript.

(** ** Public groups *)

Record PublicGroup := mkPublicGroup {
  treesync : TreeSync;
  proposal_store : ProposalStore;
  group_context : GroupContext;
  interim_transcript_hash : bytes;
  confirmation_tag : bytes
}.

Record PublicGroupDiff := mkPublicGroupDiff {
  pgd_diff : TreeSyncDiff;
  pgd_context : GroupContext;
  pgd_interim_transcript_hash : bytes;
  pgd_confirmation_tag : bytes
}.

Record StagedPublicGroupDiff := mkStagedPublicGroupDiff {
  spg_staged_diff : StagedTreeSyncDiff;
  spg_context : GroupContext;
  spg_interim_transcript_hash : bytes;
  spg_confirmation_tag : bytes
}.

Definition PublicGroup_ciphersuite (g : PublicGroup) : Ciphersuite := gc_ciphersuite (group_context g).
Definition PublicGroup_version (g : PublicGroup) : ProtocolVersion := gc_protocol_version (group_context g).
Definition PublicGroup_group_id (g : PublicGroup) : bytes := gc_group_id (group_context g).

Definition PublicGroup_empty_diff (g : PublicGroup) : PublicGroupDiff := {|
  pgd_diff := TreeSync_empty_diff (treesync g); pgd_context := group_context g;
  pgd_interim_transcript_hash := interim_transcript_hash g; pgd_confirmation_tag := confirmation_tag g |}.

Definition PublicGroup_merge_diff (d : StagedPublicGroupDiff) (g : PublicGroup) : PublicGroup := {|
  treesync := TreeSync_merge_diff (spg_staged_diff d) (treesync g);
  proposal_store := proposal_store g;
  group_context := spg_context d;
  interim_transcript_hash := spg_interim_transcript_hash d;
  confirmation_tag := spg_confirmation_tag d |}.

(** [leftmost_free_index]: the first Remove among the inline proposals frees its leaf. *)
Definition leftmost_free_index (g : PublicGroup) (inline_proposals : list Proposal) : outcome LibraryError LeafNodeIndex :=
  let free_leaf_index := TreeSync_free_leaf_index (treesync g) in
  match List.find (fun p => is_type p PtRemove) inline_proposals with
  | Some (Remove removed_index) => Ok (if removed_index <? free_leaf_index then removed_index else free_leaf_index)
  | Some _ => Err LibraryCustom
  | None => Ok free_leaf_index
  end.

Definition set_pgd_diff (d : TreeSyncDiff) (s : PublicGroupDiff) : PublicGroupDiff := {|
  pgd_diff := d; pgd_context := pgd_context s;
  pgd_interim_transcript_hash := pgd_interim_transcript_hash s; pgd_confirmation_tag := pgd_confirmation_tag s |}.

Definition set_pgd_context (g : GroupContext) (s : PublicGroupDiff) : PublicGroupDiff := {|
  pgd_diff := pgd_diff s; pgd_context := g;
  pgd_interim_transcript_hash := pgd_interim_transcript_hash s; pgd_confirmation_tag := pgd_confirmation_tag s |}.

Definition set_pgd_interim (hash tag : bytes) (s : PublicGroupDiff) : PublicGroupDiff := {|
  pgd_diff := pgd_diff s; pgd_context := pgd_context s;
  pgd_interim_transcript_hash := hash; pgd_confirmation_tag := tag |}.

(** Methods of the parts of a diff *)
Definition on_tree {E A} : method TreeSyncDiff E A -> method PublicGroupDiff E A := on_part pgd_diff set_pgd_diff.
Definition on_context {E A} : method GroupContext E A -> method PublicGroupDiff E A := on_part pgd_context set_pgd_context.

(** The tree hash is taken from the cache; it is not recomputed here. *)
Definition update_group_context (es : option Extensions) : method PublicGroupDiff LibraryError () :=
  self ← get;
  new_tree_hash ← lift (root_hash (pgd_diff self));
  modify (fun s => set_pgd_context (update_tree_hash new_tree_hash (pgd_context s)) s);;
  modify (fun s => set_pgd_context (increment_epoch (pgd_context s)) s);;
  match es with
  | Some es => modify (fun s => set_pgd_context (set_extensions es (pgd_context s)) s)
  | None => mret tt
  end.

Definition PublicGroupDiff_into_staged_diff (s : PublicGroupDiff) : outcome LibraryError StagedPublicGroupDiff :=
  staged_diff ← into_staged_diff (pgd_diff s);
  Ok {| spg_staged_diff := staged_diff; spg_context := pgd_context s;
        spg_interim_transcript_hash := pgd_interim_transcript_hash s; spg_confirmation_tag := pgd_confirmation_tag s |}.

Section PublicGroup.
Context `{!TreeHashing} `{!TranscriptEncoding}.

Definition PublicGroup_new (ts : TreeSync) (context : GroupContext) (initial_confirmation_tag : bytes) :
    outcome LibraryError PublicGroup :=
  hash ← calculate_interim_transcript_hash (gc_ciphersuite context) (gc_confirmed_transcript_hash context) initial_confirmation_tag;
  Ok {| treesync := ts; proposal_store := ProposalStore_new; group_context := context;
        interim_transcript_hash := hash; confirmation_tag := initial_confirmation_tag |}.

Definition update_interim_transcript_hash (c : Ciphersuite) (tag : bytes) : method PublicGroupDiff LibraryError () :=
  self ← get;
  hash ← lift (calculate_interim_transcript_hash c (gc_confirmed_transcript_hash (pgd_context self)) tag);
  modify (set_pgd_interim hash tag).

Definition PublicGroupDiff_update_confirmed_transcript_hash (m : AuthenticatedContent) : method PublicGroupDiff LibraryError () :=
  self ← get;
  on_context (update_confirmed_transcript_hash (pgd_interim_transcript_hash self) m).

End PublicGroup.

(** ** Applying proposals *)

Record ApplyProposalsValues := mkApplyProposalsValues {
  path_required : bool;
  self_removed : bool;
  invitation_list : list (LeafNodeIndex * KeyPackage);
  presharedkeys : list PreSharedKeyId;
  external_init_proposal_option : option bytes;
  new_extensions : option Extensions
}.

Definition exclusion_list (v : ApplyProposalsValues) : list LeafNodeIndex := map fst (invitation_list v).

Definition apply_update (queued_proposal : QueuedProposal) : method PublicGroupDiff LibraryError () :=
  match proposal queued_proposal with
  | Update leaf_node =>
    match sender queued_proposal with
    | Sender_Member sender_index => on_tree (modify (update_leaf leaf_node sender_index))
    | _ => fail LibraryCustom
    end
  | _ => mret tt
  end.

Fixpoint apply_removes (own_leaf_index : option LeafNodeIndex) (l : list QueuedProposal) (self_removed : bool) :
    method PublicGroupDiff LibraryError bool :=
  match l with
  | [] => mret self_removed
  | queued_proposal :: l =>
    match proposal queued_proposal with
    | Remove removed =>
      let self_removed := match own_leaf_index with
        | Some leaf_index => if removed =? leaf_index then true else self_removed
        | None => self_removed
        end in
      on_tree (modify (blank_leaf removed));;
      apply_removes own_leaf_index l self_removed
    | _ => apply_removes own_leaf_index l self_removed
    end
  end.

Fixpoint apply_adds (l : list QueuedProposal) (invitation_list : list (LeafNodeIndex * KeyPackage)) :
    method PublicGroupDiff LibraryError (list (LeafNodeIndex * KeyPackage)) :=
  match l with
  | [] => mret invitation_list
  | queued_proposal :: l =>
    match proposal queued_proposal with
    | Add key_package =>
      leaf_index ← lift_state (fun _ => LibraryCustom) (on_tree (add_leaf (kp_leaf_node key_package)));
      apply_adds l (invitation_list ++ [(leaf_index, key_package)])
    | _ => apply_adds l invitation_list
    end
  end.

Definition first_external_init (q : ProposalQueue) : option bytes :=
  match filtered_by_type q PtExternalInit with
  | queued_proposal :: _ => match proposal queued_proposal with ExternalInit kem_output => Some kem_output | _ => None end
  | [] => None
  end.

Definition apply_proposals (q : ProposalQueue) (own_leaf_index : option LeafNodeIndex) :
    method PublicGroupDiff LibraryError ApplyProposalsValues :=
  for_each_m (filtered_by_type q PtUpdate) apply_update;;
  self_removed ← apply_removes own_leaf_index (filtered_by_type q PtRemove) false;
  invitation_list ← apply_adds (filtered_by_type q PtAdd) [];
  let presharedkeys := omap (fun p => match proposal p with PreSharedKey psk => Some psk | _ => None end)
    (filtered_by_type q PtPreSharedKey) in
  let es := head (omap (fun p => match proposal p with GroupContextExtensions es => Some es | _ => None end)
    (filtered_by_type q PtGroupContextExtensions)) in
  let proposals_require_path := existsb (fun p => Proposal_is_path_required (proposal p)) (queued_proposals q) in
  mret {|
    path_required := proposals_require_path || bool_decide (is_Some (first_external_init q)) || ProposalQueue_is_empty q;
    self_removed := self_removed; invitation_list := invitation_list; presharedkeys := presharedkeys;
    external_init_proposal_option := first_external_init q; new_extensions := es |}.

(** ** Specification of applied proposals *)

(** The leaves a queue removes. *)
Definition removed_leaves (q : ProposalQueue) : list LeafNodeIndex := map fst (remove_proposals q).

(** The leaf nodes a queue brings to leaf [j] by updates, in order. *)
Definition updates_of (j : LeafNodeIndex) (l : list QueuedProposal) : list LeafNode :=
  omap (fun p => match proposal p, sender p with
    | Update leaf_node, Sender_Member i => if i =? j then Some leaf_node else None
    | _, _ => None
    end) l.

(** What the checks on a commit establish for the proposals it covers: they change
    leaves of members only, and no leaf is removed twice or both removed and updated. *)
Record applicable (s : TreeSyncDiff) (q : ProposalQueue) : Prop := {
  ap_updates p leaf_node : p ∈ queued_proposals q -> proposal p = Update leaf_node ->
    exists i, sender p = Sender_Member i /\ 0 <= i /\ is_Some (leaf_at s i);
  ap_removes i : i ∈ removed_leaves q -> 0 <= i /\ is_Some (leaf_at s i);
  ap_distinct : NoDup (removed_leaves q)
}.

(** ** Lemmas *)

Lemma filtered_by_type_spec q ty :
  filtered_by_type q ty = List.filter (fun p => is_type (proposal p) ty) (queued_proposals q).
Proof.
  unfold filtered_by_type, queued_proposals, ProposalQueue_get. induction (proposal_references q) as [|r rs IH]; [done|].
  cbn [List.filter omap list_omap]. destruct (queued_map q !! r) as [p|] eqn:E; cbn [List.filter]; [|done].
  destruct (is_type (proposal p) ty); cbn [omap list_omap]; rewrite ?E; by rewrite <- IH.
Qed.

Lemma elem_of_filtered q ty p :
  p ∈ filtered_by_type q ty <-> p ∈ queued_proposals q /\ proposal_type (proposal p) = ty.
Proof.
  rewrite filtered_by_type_spec, !list_elem_of_In, filter_In. unfold is_type. by rewrite bool_decide_eq_true.
Qed.

(** The proposals of one type, read through a function that looks at that type only. *)
Lemma omap_filtered {A} (f : QueuedProposal -> option A) q ty :
  (forall p, is_Some (f p) -> proposal_type (proposal p) = ty) ->
  omap f (filtered_by_type q ty) = omap f (queued_proposals q).
Proof.
  intros Hf. rewrite filtered_by_type_spec. induction (queued_proposals q) as [|p l IH]; [done|]. cbn [List.filter].
  destruct (is_type (proposal p) ty) eqn:E; cbn [omap list_omap]; [by rewrite <- IH|].
  destruct (f p) eqn:Ef; [|done]. apply bool_decide_eq_false in E. destruct E. apply Hf. by rewrite Ef.
Qed.

(** [add_proposals] and the like list the proposals of one type with their senders. *)
Lemma filtered_contents {A} (f : Proposal -> option A) (g : QueuedProposal -> option (A * Sender)) q ty :
  (forall p, is_Some (f p) -> proposal_type p = ty) -> (forall p, g p = (fun x => (x, sender p)) <$> f (proposal p)) ->
  omap (fun p => f (proposal p)) (filtered_by_type q ty) = map fst (omap g (queued_proposals q)).
Proof.
  intros Hf Hg. rewrite omap_filtered; [|intros p; apply Hf]. induction (queued_proposals q) as [|p l IH]; [done|].
  cbn [omap list_omap]. rewrite Hg. destruct (f (proposal p)); cbn; by rewrite IH.
Qed.

Lemma removes_filtered q : omap (fun p => match proposal p with Remove i => Some i | _ => None end) (filtered_by_type q PtRemove) =
  removed_leaves q.
Proof. apply (filtered_contents (fun p => match p with Remove i => Some i | _ => None end)); intros p; [destruct p; by intros []|by destruct (proposal p)]. Qed.

Lemma adds_filtered q : omap (fun p => match proposal p with Add kp => Some kp | _ => None end) (filtered_by_type q PtAdd) =
  map fst (add_proposals q).
Proof. apply (filtered_contents (fun p => match p with Add kp => Some kp | _ => None end)); intros p; [destruct p; by intros []|by destruct (proposal p)]. Qed.

Lemma psks_filtered q : omap (fun p => match proposal p with PreSharedKey psk => Some psk | _ => None end) (filtered_by_type q PtPreSharedKey) =
  map fst (psk_proposals q).
Proof. apply (filtered_contents (fun p => match p with PreSharedKey psk => Some psk | _ => None end)); intros p; [destruct p; by intros []|by destruct (proposal p)]. Qed.

Lemma updates_filtered q j : updates_of j (filtered_by_type q PtUpdate) = updates_of j (queued_proposals q).
Proof. apply omap_filtered. intros p. destruct (proposal p), (sender p); by intros []. Qed.

Lemma update_leaf_reads s h leaf i : tree_sync_ok s h -> 0 <= i -> is_Some (leaf_at s i) ->
  forall j, 0 <= j -> leaf_at (update_leaf leaf i s) j = if decide (j = i) then Some leaf else leaf_at s j.
Proof.
  intros [Hm _] Hi Hs. pose proof (members_leaf_lt s h i Hm Hi Hs).
  destruct (blank_path_writes s h i (Some leaf) (mo_diff _ _ Hm) (mo_fits _ _ Hm) ltac:(lia)) as (_ & _ & Hw & _). exact Hw.
Qed.

Lemma for_each_m_cons {S E A} (x : A) l (c : A -> method S E ()) s : for_each_m (x :: l) c s =
  match c x s with (Ok _, s') => for_each_m l c s' | (Err e, s') => (Err e, s') | (Panic, s') => (Panic, s') end.
Proof. done. Qed.

Lemma updates_of_cons j p l : updates_of j (p :: l) =
  match proposal p, sender p with
  | Update leaf_node, Sender_Member i => if i =? j then leaf_node :: updates_of j l else updates_of j l
  | _, _ => updates_of j l
  end.
Proof. unfold updates_of. cbn [omap list_omap]. destruct (proposal p), (sender p); try done. by destruct (_ =? j). Qed.

Lemma apply_updates_spec l d h : tree_sync_ok (pgd_diff d) h ->
  Forall (fun p => forall leaf_node, proposal p = Update leaf_node ->
    exists i, sender p = Sender_Member i /\ 0 <= i /\ is_Some (leaf_at (pgd_diff d) i)) l ->
  exists s', for_each_m l apply_update d = (Ok tt, set_pgd_diff s' d) /\
    rtc member_step (pgd_diff d) s' /\ tree_sync_ok s' h /\
    forall j, 0 <= j -> leaf_at s' j = match last (updates_of j l) with Some leaf => Some leaf | None => leaf_at (pgd_diff d) j end.
Proof.
  revert d. induction l as [|p l IH]; intros d Hok Hl.
  { exists (pgd_diff d). split_and!; [by destruct d|apply rtc_refl|done..]. }
  apply Forall_cons in Hl as [Hp Hl]. rewrite for_each_m_cons.
  assert (Hskip : (forall j, updates_of j (p :: l) = updates_of j l) -> exists s', for_each_m l apply_update d = (Ok tt, set_pgd_diff s' d) /\
    rtc member_step (pgd_diff d) s' /\ tree_sync_ok s' h /\
    forall j, 0 <= j -> leaf_at s' j = match last (updates_of j (p :: l)) with Some leaf => Some leaf | None => leaf_at (pgd_diff d) j end).
  { intros E. destruct (IH d Hok Hl) as (s' & ? & ? & ? & Hr). exists s'. split_and!; try done. intros j Hj. rewrite E. by apply Hr. }
  unfold apply_update at 1. destruct (proposal p) as [| leaf_node | | | | | | |] eqn:Ep; try (apply Hskip; intros j; by rewrite updates_of_cons, Ep).
  destruct (Hp leaf_node eq_refl) as (i & Es & Hi & Hs). rewrite Es. unfold on_tree, on_part, modify.
  set (s1 := update_leaf leaf_node i (pgd_diff d)).
  pose proof (update_leaf_reads _ h leaf_node i Hok Hi Hs) as Hw. fold s1 in Hw.
  destruct (IH (set_pgd_diff s1 d)) as (s' & E & Hst & Hok' & Hr); [by apply update_leaf_ok| |].
  { eapply Forall_impl; [exact Hl|]. intros p' Hp' leaf' E'. destruct (Hp' leaf' E') as (i' & ? & ? & ?). exists i'.
    split_and!; [done..|]. cbn [pgd_diff set_pgd_diff]. rewrite Hw by done. case_decide; [by eexists|done]. }
  exists s'. split_and!; [exact E|eapply rtc_l; [by apply member_update|exact Hst]|done|].
  intros j Hj. rewrite Hr by done. cbn [pgd_diff set_pgd_diff]. rewrite (Hw j Hj), updates_of_cons, Ep, Es.
  destruct (Z.eqb_spec i j) as [->|Hij].
  - rewrite last_cons. rewrite decide_True by done. by destruct (last (updates_of j l)).
  - by rewrite decide_False by done.
Qed.

Lemma apply_removes_spec own l : forall d h b, let rs := omap (fun p => match proposal p with Remove i => Some i | _ => None end) l in
  tree_sync_ok (pgd_diff d) h -> NoDup rs -> (forall i, i ∈ rs -> 0 <= i /\ is_Some (leaf_at (pgd_diff d) i)) ->
  exists s', apply_removes own l b d = (Ok (b || existsb (fun i => bool_decide (own = Some i)) rs), set_pgd_diff s' d) /\
    rtc member_step (pgd_diff d) s' /\ tree_sync_ok s' h /\
    forall j, 0 <= j -> leaf_at s' j = if decide (j ∈ rs) then None else leaf_at (pgd_diff d) j.
Proof.
  induction l as [|p l IH]; intros d h b rs Hok Hd Hrs.
  { exists (pgd_diff d). cbn. rewrite orb_false_r. split_and!; [by destruct d|apply rtc_refl|done..]. }
  subst rs. cbn [omap list_omap apply_removes] in *. destruct (proposal p) as [| |r| | | | | |] eqn:Ep; try (by apply IH).
  apply NoDup_cons in Hd as [Hr Hd]. destruct (Hrs r ltac:(by left)) as [Hr0 Hs].
  destruct (blank_leaf_ok _ h r Hok Hr0 Hs) as (Hok1 & _ & Hw & _).
  set (b1 := match own with Some leaf_index => if r =? leaf_index then true else b | None => b end).
  destruct (IH (set_pgd_diff (blank_leaf r (pgd_diff d)) d) h b1 Hok1 Hd) as (s' & E & Hst & Hok' & Hl).
  { intros i Hi. destruct (Hrs i ltac:(by right)) as [Hi0 Hs']. split; [done|]. cbn [pgd_diff set_pgd_diff].
    rewrite Hw by done. by rewrite decide_False by (intros ->; done). }
  exists s'. split_and!; [|eapply rtc_l; [by apply member_remove|exact Hst]|done|].
  - run. unfold on_tree. run. cbv zeta. fold b1. rewrite E. do 2 f_equal. cbn [existsb]. subst b1. destruct own as [o|].
    + destruct (Z.eqb_spec r o) as [->|Hne]; [by rewrite bool_decide_true, orb_true_r|]. by rewrite bool_decide_false by congruence.
    + by rewrite bool_decide_false.
  - intros j Hj. rewrite Hl by done. cbn [pgd_diff set_pgd_diff]. rewrite (Hw j Hj).
    destruct (decide (j ∈ r :: _)) as [Hin|Hin].
    + apply elem_of_cons in Hin as [->|Hin]; [rewrite (decide_True (P := r = r)) by done; by destruct (decide _)|by rewrite decide_True].
    + apply not_elem_of_cons in Hin as [Hne Hin]. by rewrite !decide_False.
Qed.

(** No parent of [s'] is new, and none has lost an unmerged leaf. *)
Definition parents_kept (s s' : TreeSyncDiff) : Prop :=
  forall p node', 0 <= p -> AbDiff_parent (diff s') p = Some node' -> exists node, AbDiff_parent (diff s) p = Some node /\
    parent_encryption_key node' = parent_encryption_key node /\ (forall j, j ∈ unmerged_leaves node -> j ∈ unmerged_leaves node').

#[export] Instance parents_kept_preorder : PreOrder parents_kept.
Proof.
  split.
  - intros s p node _ E. by exists node.
  - intros s1 s2 s3 H12 H23 p node3 Hp E3. destruct (H23 p node3 Hp E3) as (node2 & E2 & Ek2 & Hu2).
    destruct (H12 p node2 Hp E2) as (node1 & E1 & Ek1 & Hu1). exists node1. split_and!; [done|congruence|auto].
Qed.

Lemma parent_in_tree s h p node : members_ok s h -> 0 <= p -> AbDiff_parent (diff s) p = Some node ->
  exists k m, in_tree h k m /\ 0 < k /\ p = pnode k m.
Proof.
  intros Hm Hp E. apply in_tree_exists; [apply (dwf_height _ _ (mo_diff _ _ Hm))|]. split; [done|].
  destruct (Z.lt_ge_cases p (2 ^ h - 1)) as [|Hge]; [done|].
  by rewrite (fits_parent_blank _ h p (mo_diff _ _ Hm) (mo_fits _ _ Hm) Hge) in E.
Qed.

Lemma writes_path_kept s s' h i l f : members_ok s' h -> writes_path s s' h i l f ->
  (forall p p', f p = Some p' -> exists q, p = Some q /\ parent_encryption_key p' = parent_encryption_key q /\
     forall j, j ∈ unmerged_leaves q -> j ∈ unmerged_leaves p') -> parents_kept s s'.
Proof.
  intros Hm [_ Hw] Hf p node' Hp E. destruct (parent_in_tree s' h p node' Hm Hp E) as (k & m & Hin & Hk & ->).
  specialize (Hw k m Hin Hk). unfold parent_at in Hw. rewrite E in Hw. destruct (decide _); [by apply Hf|by exists node'].
Qed.

Lemma member_step_kept s s' h : tree_sync_ok s h -> member_step s s' -> parents_kept s s'.
Proof.
  intros Hok Hst. destruct Hst as [s leaf i s' E|s leaf i Hi Hs|s i Hi Hs].
  - pose proof (add_leaf_ok s h leaf Hok) as Ha. rewrite E in Ha. destruct Ha as (_ & _ & h' & _ & Hok' & Hw).
    apply (writes_path_kept _ _ _ _ _ _ (proj1 Hok') Hw). intros [q|] p'; [|done]. intros [= <-]. exists q. split_and!; [done..|].
    intros j Hj. cbn. apply UnmergedLeaves_add_elem_of. by right.
  - pose proof (members_leaf_lt s h i (proj1 Hok) Hi Hs).
    destruct (blank_path_writes s h i (Some leaf) (mo_diff _ _ (proj1 Hok)) (mo_fits _ _ (proj1 Hok)) ltac:(lia)) as (_ & _ & Hw).
    by apply (writes_path_kept _ _ _ _ _ _ (proj1 (update_leaf_ok s h leaf i Hok Hi Hs)) Hw).
  - destruct (blank_leaf_ok s h i Hok Hi Hs) as (Hok' & _ & Hw). by apply (writes_path_kept _ _ _ _ _ _ (proj1 Hok') Hw).
Qed.

Lemma member_steps_kept s s' h : tree_sync_ok s h -> rtc member_step s s' -> parents_kept s s'.
Proof.
  intros Hok Hsteps. revert h Hok. induction Hsteps as [s|s s1 s2 Hst _ IH]; intros h Hok; [reflexivity|].
  destruct (member_step_ok s s1 h Hok Hst) as (h1 & _ & Hok1). etrans; [by eapply member_step_kept|by eapply IH].
Qed.

(** [j] is listed by every node above it that is not blank. *)
Definition unmerged_above (s : TreeSyncDiff) (j : LeafNodeIndex) : Prop :=
  forall k node, 0 < k <= 29 -> parent_at s k (j / 2 ^ k) = Some node -> j ∈ unmerged_leaves node.

Lemma unmerged_above_kept s s' j : 0 <= j < 2 ^ 29 -> parents_kept s s' -> unmerged_above s j -> unmerged_above s' j.
Proof.
  intros Hj Hk Hu k node' Hr E. destruct (Hk (pnode k (j / 2 ^ k)) node') as (node & En & _ & Hn); [|done|by apply Hn, (Hu k)].
  apply (pnode_in_tree 29 k); [apply in_tree_path; [by split|lia]|lia].
Qed.

Lemma writes_unmerged s s' h i l : members_ok s' h -> leaf_in h i -> writes_path s s' h i l (option_map (add_unmerged_leaf i)) -> unmerged_above s' i.
Proof.
  intros Hm Hi [_ Hw] k node Hk E. pose proof Hi as [Hh Hr]. assert (Hi29 : leaf_in 29 i) by (split; [done|pose proof (pow2_le h 29); destruct Hh; lia]).
  pose proof (in_tree_path 29 i k Hi29 ltac:(lia)) as Hin.
  destruct (parent_in_tree s' h _ node Hm (proj1 (pnode_in_tree 29 k _ Hin ltac:(lia))) E) as (k' & m' & Hin' & Hk' & Ep).
  apply pnode_inj in Ep as [<- <-]; [|by apply (in_tree_coord 29)|by apply (in_tree_coord h)|lia|lia].
  specialize (Hw k (i / 2 ^ k) Hin' ltac:(lia)). rewrite decide_True, E in Hw by done.
  destruct (parent_at s k (i / 2 ^ k)) as [p|]; [|done]. injection Hw as ->. cbn. apply UnmergedLeaves_add_elem_of. by left.
Qed.

(** What a list of additions does from [s]: each new member takes the leftmost free leaf. *)
Inductive added : TreeSyncDiff -> list (LeafNodeIndex * KeyPackage) -> TreeSyncDiff -> Prop :=
| added_none s : added s [] s
| added_one s i kp s1 l s2 : add_leaf (kp_leaf_node kp) s = (Ok i, s1) -> added s1 l s2 -> added s ((i, kp) :: l) s2.

Lemma added_spec s l s' h : added s l s' -> tree_sync_ok s h ->
  rtc member_step s s' /\ (exists h', h <= h' /\ tree_sync_ok s' h') /\
  NoDup (map fst l) /\ (forall i kp, (i, kp) ∈ l -> 0 <= i /\ leaf_at s i = None /\ leaf_at s' i = Some (kp_leaf_node kp) /\ unmerged_above s' i) /\
  (forall j, 0 <= j -> j ∉ map fst l -> leaf_at s' j = leaf_at s j).
Proof.
  intros Ha. revert h. induction Ha as [s|s i kp s1 l s2 E Ha IH]; intros h Hok.
  { split_and!; [apply rtc_refl|by exists h|constructor|by intros ?? ?%not_elem_of_nil|done]. }
  pose proof (add_leaf_ok s h (kp_leaf_node kp) Hok) as Hadd. rewrite E in Hadd.
  destruct Hadd as (-> & _ & h1 & Hle & Hok1 & Hwr). pose proof (proj1 Hwr) as Hw. destruct (free_leaf_index_spec s h (proj1 Hok)) as (Hi & Hnone & _).
  cbv zeta in Hi, Hnone. set (i := free_leaf_index s) in *.
  destruct (IH h1 Hok1) as (Hst & (h2 & Hle2 & Hok2) & Hd & Hin & Hout).
  assert (Hni : i ∉ map fst l).
  { intros ([i' kp'] & Ei & Hl)%list_elem_of_fmap. cbn in Ei. subst i'. destruct (Hin _ _ Hl) as (_ & Hn & _ & _).
    rewrite Hw in Hn by lia. by rewrite decide_True in Hn. }
  split_and!.
  - eapply rtc_l; [by eapply member_add|exact Hst].
  - exists h2. split; [lia|done].
  - cbn. by constructor.
  - intros j kp' [[= -> ->]|Hl]%elem_of_cons.
    + assert (El : leaf_at s1 i = Some (kp_leaf_node kp)) by (rewrite Hw by lia; by rewrite decide_True).
      assert (Hi1 : leaf_in h1 i) by (apply (members_leaf_in s1 h1 i (mo_diff _ _ (proj1 Hok1))); split; [lia|by apply (members_leaf_lt s1 h1 i (proj1 Hok1)); [lia|rewrite El]]).
      split_and!; [lia|done|by rewrite Hout by (done || lia)|]. eapply (unmerged_above_kept s1); [|by eapply member_steps_kept|by eapply writes_unmerged; [apply Hok1|..]].
      pose proof Hi1 as [[? ?] ?]. pose proof (pow2_le h1 29). lia.
    + destruct (Hin _ _ Hl) as (Hj & Hn & ? & ?). split_and!; try done. rewrite Hw in Hn by done. by case_decide.
  - intros j Hj [Hne Hl]%not_elem_of_cons. rewrite Hout, Hw by done. by rewrite decide_False.
Qed.

Lemma apply_adds_spec l : forall d h inv, tree_sync_ok (pgd_diff d) h ->
  match apply_adds l inv d with
  | (Ok inv', d') => exists new s', inv' = inv ++ new /\ d' = set_pgd_diff s' d /\ added (pgd_diff d) new s' /\
      map snd new = omap (fun p => match proposal p with Add kp => Some kp | _ => None end) l
  | (Err e, d') => e = LibraryCustom /\ tsd_leaf_count (pgd_diff d') = 2 ^ 29 /\
      omap (fun p => match proposal p with Add kp => Some kp | _ => None end) l <> []
  | (Panic, _) => False
  end.
Proof.
  induction l as [|p l IH]; intros d h inv Hok.
  { exists [], (pgd_diff d). rewrite app_nil_r. split_and!; [done|by destruct d|constructor|done]. }
  cbn [apply_adds omap list_omap]. destruct (proposal p) as [kp| | | | | | | |]; try (by eapply IH).
  unfold lift_state, on_tree. run. pose proof (add_leaf_ok (pgd_diff d) h (kp_leaf_node kp) Hok) as Ha.
  destruct (add_leaf (kp_leaf_node kp) (pgd_diff d)) as [[i|e|] s1] eqn:E; [| |done].
  - destruct Ha as (-> & _ & h1 & _ & Hok1 & _). specialize (IH (set_pgd_diff s1 d) h1 (inv ++ [(free_leaf_index (pgd_diff d), kp)]) Hok1).
    destruct (apply_adds l _ _) as [[inv'|e|] d']; [|by destruct IH as (? & ? & _)|done]. destruct IH as (new & s' & -> & -> & Hadd & En).
    exists ((free_leaf_index (pgd_diff d), kp) :: new), s'. split_and!; [by rewrite <- app_assoc|done|by eapply added_one|].
    cbn. by rewrite En.
  - destruct Ha as (_ & -> & ->). split_and!; [done| |done]. apply (AbDiff_leaf_count_spec _ 29), Hok.
Qed.

(** The tree after the proposals of [q]: the leaves after updates and removals, and
    the invited members on leaves that were free then. *)
Record proposals_applied (s : TreeSyncDiff) (q : ProposalQueue) (invited : list (LeafNodeIndex * KeyPackage))
    (s' : TreeSyncDiff) : Prop := {
  pr_steps : rtc member_step s s';
  pr_invited : map snd invited = map fst (add_proposals q);
  pr_fresh : NoDup (map fst invited);
  pr_leaf i kp : (i, kp) ∈ invited -> 0 <= i /\ leaf_at s' i = Some (kp_leaf_node kp) /\
    (leaf_at s i = None \/ i ∈ removed_leaves q);
  pr_unmerged i kp : (i, kp) ∈ invited -> unmerged_above s' i;
  pr_other j : 0 <= j -> j ∉ map fst invited -> leaf_at s' j =
    if decide (j ∈ removed_leaves q) then None
    else match last (updates_of j (queued_proposals q)) with Some leaf => Some leaf | None => leaf_at s j end
}.

Lemma apply_proposals_spec q own d h : tree_sync_ok (pgd_diff d) h -> applicable (pgd_diff d) q ->
  match apply_proposals q own d with
  | (Ok v, d') => exists s' h', d' = set_pgd_diff s' d /\ h <= h' /\ tree_sync_ok s' h' /\
      proposals_applied (pgd_diff d) q (invitation_list v) s' /\
      self_removed v = existsb (fun i => bool_decide (own = Some i)) (removed_leaves q) /\
      path_required v = existsb (fun p => Proposal_is_path_required (proposal p)) (queued_proposals q) ||
        bool_decide (is_Some (first_external_init q)) || ProposalQueue_is_empty q /\
      presharedkeys v = map fst (psk_proposals q) /\
      external_init_proposal_option v = first_external_init q
  | (Err e, d') => e = LibraryCustom /\ tsd_leaf_count (pgd_diff d') = 2 ^ 29 /\ add_proposals q <> []
  | (Panic, _) => False
  end.
Proof.
  intros Hok [Hu Hr Hd]. unfold apply_proposals. run.
  destruct (apply_updates_spec (filtered_by_type q PtUpdate) d h Hok) as (s1 & E1 & Hst1 & Hok1 & Hl1).
  { apply Forall_forall. intros p [Hp _]%elem_of_filtered leaf_node E. by eapply Hu. }
  rewrite E1. assert (Hs1 : forall i, 0 <= i -> is_Some (leaf_at (pgd_diff d) i) -> is_Some (leaf_at s1 i)).
  { intros i Hi Hs. rewrite Hl1 by done. by destruct (last _). }
  destruct (apply_removes_spec own (filtered_by_type q PtRemove) (set_pgd_diff s1 d) h false Hok1) as (s2 & E2 & Hst2 & Hok2 & Hl2).
  { by rewrite removes_filtered. }
  { intros i. rewrite removes_filtered. intros [Hi Hs]%Hr. split; [done|]. by apply Hs1. }
  rewrite E2. rewrite removes_filtered in E2, Hl2 |- *. cbn [pgd_diff set_pgd_diff orb] in Hst2, Hl2 |- *.
  pose proof (apply_adds_spec (filtered_by_type q PtAdd) (set_pgd_diff s2 (set_pgd_diff s1 d)) h [] Hok2) as Ha.
  destruct (apply_adds _ _ _) as [[inv|e|] d']; [| |done]; [|destruct Ha as (? & ? & Hne); split_and!; [done..|by intros Hn; apply Hne; rewrite adds_filtered, Hn]]. destruct Ha as (new & s3 & -> & -> & Hadd & Enew).
  rewrite adds_filtered in Enew. cbn [app pgd_diff set_pgd_diff] in *.
  destruct (added_spec _ _ _ h Hadd Hok2) as (Hst3 & (h' & Hle & Hok3) & Hnd & Hin & Hout).
  exists s3, h'. split_and!; try done.
  - split; [by etrans; [exact Hst1|]; etrans|done|done| |by intros i kp Hi; apply (Hin i kp)|].
    + intros i kp Hi. destruct (Hin i kp Hi) as (Hi0 & Hn & ? & _). split_and!; [done..|]. rewrite Hl2 in Hn by done.
      destruct (decide _) as [|Hnr]; [by right|left]. rewrite Hl1 in Hn by done. by destruct (last _).
    + intros j Hj Hnj. rewrite Hout, Hl2 by done. destruct (decide _); [done|]. rewrite Hl1 by done. by rewrite updates_filtered.
  - apply psks_filtered.
Qed.
