(* ===== verification/Validation.v ===== *)
(** * Validation of messages, proposals and commits

    Models [group/public_group/validation.rs] and the validation of a commit in
    [group/public_group/staged_commit.rs].  The clock is a parameter of the
    checks of leaf nodes; the flag that disables lifetime checks in tests is off. *)

From S2P Require Import Prelude TreeMath Crypto BinaryTree SenderRatchet SecretTree LeafNodes Nodes TreeSyncDiff TreeHash UpdatePaths TreeKem TreeSync EpochStores Proposals PublicGroup.

(** ** Errors *)

Inductive MessageDecryptionError :=
| DecryptionLibraryError (e : LibraryError)
| GenerationOutOfBound
| AeadError
| DecryptionWrongWireFormat
| MalformedContent
| DecryptionSecretTreeError (e : SecretTreeError).

Inductive ValidationError :=
| ValidationLibraryError (e : LibraryError)
| UnableToDecrypt (e : MessageDecryptionError)
| CannotDecryptOwnMessage | NoExternalSendersExtension | UnauthorizedExternalSender
| WrongGroupId | WrongEpoch | NotACommit | NotAnExternalAddProposal | ValidationNoPath
| UnencryptedApplicationMessage | UnknownMember | MissingMembershipTag | InvalidMembershipTag
| MissingConfirmationTag | WrongWireFormat | ValidationInvalidSignature | NonMemberApplicationMessage | NoPastEpochData.

Inductive PskType := PskTypeExternal | PskTypeResumption.

Inductive PskError :=
| PskLibraryError (e : LibraryError)
| TooManyKeys
| PskKeyNotFound
| PskStorage
| PskTypeMismatch (allowed : list PskType) (got : PskType)
| UsageMismatch (allowed : list ResumptionPskUsage) (got : ResumptionPskUsage)
| NonceLengthMismatch (expected got : Z)
| PskDuplicate (first : PreSharedKeyId).

Inductive ProposalValidationError :=
| ProposalLibraryError (e : LibraryError)
| ProposalUnknownMember
| DuplicateSignatureKey
| DuplicateEncryptionKey
| DuplicateInitKey
| InitEncryptionKeyCollision
| DuplicateMemberRemoval
| UnknownMemberRemoval
| UpdateFromNonMember
| CommitterIncludedOwnUpdate
| InsufficientCapabilities
| InvalidAddProposalCiphersuiteOrVersion
| ProposalPsk (e : PskError)
| UnsupportedProposalType
| ProposalLeafNodeValidation (e : LeafNodeValidationError)
| ExternalInitProposalInRegularCommit.

Inductive ExternalCommitValidationError :=
| ExternalLibraryError (e : LibraryError)
| NoExternalInitProposals
| MultipleExternalInitProposals
| InvalidInlineProposals
| MultipleRemoveProposals
| InvalidRemoveProposal
| ExternalNoPath
| ReferencedProposal.

Inductive GroupContextExtensionsProposalValidationError :=
| TooManyGCEProposals
| GCELibraryError (e : LibraryError)
| ExtensionNotSupportedByAllMembers
| ChangedImmutableMetadata
| RequiredExtensionNotSupportedByAllMembers
| ExtensionNotInRequiredCapabilities.

Inductive StageCommitError :=
| StageLibraryError (e : LibraryError)
| EpochMismatch
| OwnCommit
| WrongPlaintextContentType
| PathLeafNodeVerificationFailure
| RequiredPathNotFound
| ConfirmationTagMissing
| ConfirmationTagMismatch
| AttemptedSelfRemoval
| MissingProposal
| OwnKeyNotFound
| StageInconsistentSenderIndex
| SenderTypeExternal
| SenderTypeNewMemberProposal
| TooManyNewMembers
| StageProposalValidation (e : ProposalValidationError)
| StagePskError (e : PskError)
| StageExternalCommitValidation (e : ExternalCommitValidationError)
| StageUpdatePathError (e : ApplyUpdatePathError)
| MissingDecryptionKey
| StageGCEProposalValidation (e : GroupContextExtensionsProposalValidationError)
| StageLeafNodeValidation (e : LeafNodeValidationError).

(** ** Framing *)

(** [ProtocolMessage] as [validate_framing] reads it: group id, epoch, content type. *)
Record ProtocolMessage := mkProtocolMessage {
  pm_group_id : bytes;
  pm_epoch : Z;
  pm_content_type : ContentType
}.

Definition validate_framing (g : PublicGroup) (message : ProtocolMessage) : outcome ValidationError () :=
  if negb (bool_decide (pm_group_id message = PublicGroup_group_id g)) then Err WrongGroupId
  else match pm_content_type message with
  | ContentApplication => if gc_epoch (group_context g) <? pm_epoch message then Err WrongEpoch else Ok tt
  | _ => if negb (pm_epoch message =? gc_epoch (group_context g)) then Err WrongEpoch else Ok tt
  end.

(** With the sender, the epoch, the content type, the wire format and the confirmation
    tag of the content. *)
Definition validate_verifiable_content {M} (g : PublicGroup) (s : Sender) (epoch : Z) (t : ContentType) (w : WireFormat)
    (tag : option bytes) (message_secrets_store_option : option (MessageSecretsStore M)) : outcome ValidationError () :=
  let unknown_member :=
    match s with
    | Sender_Member leaf_index =>
      let is_in_secrets_store := match message_secrets_store_option with
        | Some mss => epoch_has_leaf mss epoch leaf_index
        | None => false
        end in
      negb (is_leaf_in_tree (treesync g) leaf_index) && negb is_in_secrets_store
    | _ => false
    end in
  if unknown_member then Err UnknownMember
  else match t with
  | ContentApplication =>
    if negb (bool_decide (w = WirePrivateMessage)) then Err UnencryptedApplicationMessage
    else if negb (is_member s) then Err NonMemberApplicationMessage
    else Ok tt
  | ContentCommit => if bool_decide (tag = None) then Err MissingConfirmationTag else Ok tt
  | ContentProposal => Ok tt
  end.

(** ** Proposals *)

(** [HashSet] of proposal types as a list *)
Definition validate_proposal_type_support (g : PublicGroup) (q : ProposalQueue) : outcome ProposalValidationError () :=
  match full_leaves (treesync g) with
  | [] => Ok tt
  | first_leaf :: leaves =>
    let capabilities_intersection :=
      foldl (fun acc leaf_node => List.filter (fun p => mem p (proposals (leaf_capabilities (payload leaf_node)))) acc)
        (proposals (leaf_capabilities (payload first_leaf))) leaves in
    if existsb (fun p => match proposal_type (proposal p) with
                         | PtCustom _ as ty => negb (mem ty capabilities_intersection)
                         | _ => false
                         end) (queued_proposals q)
    then Err UnsupportedProposalType else Ok tt
  end.

(** [full_leave_members_opt]: index, encryption key and signature key of the members *)
Definition full_leave_members_opt (ts : TreeSync) : list (LeafNodeIndex * bytes * bytes) :=
  omap (fun '(index, tsn) => (fun leaf => (index, leaf_encryption_key (payload leaf), leaf_signature_key (payload leaf))) <$> tsn)
    (ABinaryTree_leaves (ts_tree ts)).

(** The three loops of [validate_key_uniqueness]; [insert] of a [HashSet] says whether the key is new. *)
Fixpoint insert_signature_keys (keys : list bytes) (signature_key_set : gset bytes) : outcome ProposalValidationError (gset bytes) :=
  match keys with
  | [] => Ok signature_key_set
  | k :: keys =>
    if decide (k ∈ signature_key_set) then Err DuplicateSignatureKey
    else insert_signature_keys keys ({[k]} ∪ signature_key_set)
  end.

Fixpoint insert_encryption_keys (init_key_set : gset bytes) (keys : list bytes) (encryption_key_set : gset bytes) :
    outcome ProposalValidationError (gset bytes) :=
  match keys with
  | [] => Ok encryption_key_set
  | k :: keys =>
    if decide (k ∈ init_key_set) then Err InitEncryptionKeyCollision
    else if decide (k ∈ encryption_key_set) then Err DuplicateEncryptionKey
    else insert_encryption_keys init_key_set keys ({[k]} ∪ encryption_key_set)
  end.

Fixpoint insert_init_keys (encryption_key_set : gset bytes) (keys : list bytes) (init_key_set : gset bytes) :
    outcome ProposalValidationError (gset bytes) :=
  match keys with
  | [] => Ok init_key_set
  | k :: keys =>
    if decide (k ∈ encryption_key_set) then Err InitEncryptionKeyCollision
    else if decide (k ∈ init_key_set) then Err DuplicateInitKey
    else insert_init_keys encryption_key_set keys ({[k]} ∪ init_key_set)
  end.

(** The encryption keys a commit brings: those of additions, updates, the leaf and the nodes of the path. *)
Definition new_encryption_keys (q : ProposalQueue) (commit : option Commit) : list bytes :=
  map (fun x => leaf_encryption_key (payload (kp_leaf_node x.1))) (add_proposals q) ++
  map (fun x => leaf_encryption_key (payload x.1)) (update_proposals q) ++
  match c ← commit; commit_path c with
  | Some path => leaf_encryption_key (payload (cp_leaf_node path)) :: map node_public_key (cp_nodes path)
  | None => []
  end.

(** The members that stay. *)
Definition remaining_members (g : PublicGroup) (q : ProposalQueue) : list (LeafNodeIndex * bytes * bytes) :=
  List.filter (fun x => negb (mem x.1.1 (removed_leaves q))) (full_leave_members_opt (treesync g)).

Definition validate_key_uniqueness (g : PublicGroup) (q : ProposalQueue) (commit : option Commit) :
    outcome ProposalValidationError () :=
  let signature_key_set := list_to_set (map snd (remaining_members g q)) in
  let encryption_key_set := list_to_set (map (fun x => x.1.2) (remaining_members g q)) in
  let signature_keys := map (fun x => leaf_signature_key (payload (kp_leaf_node x.1))) (add_proposals q) in
  let init_keys := map (fun x => kp_init_key x.1) (add_proposals q) in
  _ ← insert_signature_keys signature_keys signature_key_set;
  encryption_key_set ← insert_encryption_keys ∅ (new_encryption_keys q commit) encryption_key_set;
  _ ← insert_init_keys encryption_key_set init_keys ∅;
  Ok tt.

Section Clock.
(** Seconds since the Unix epoch *)
Context (now : option Z).

Definition validate_leaf_node_capabilities (g : PublicGroup) (leaf_node : LeafNode) : outcome LeafNodeValidationError () :=
  _ ← validate_locally leaf_node;
  let capabilities := leaf_capabilities (payload leaf_node) in
  if negb (contains_ciphersuite capabilities (Ciphersuite_u16 (PublicGroup_ciphersuite g))) ||
     negb (contains_version capabilities (PublicGroup_version g))
  then Err CiphersuiteNotInCapabilities
  else
    _ ← (match required_capabilities (gc_extensions (group_context g)) with
         | Some required => supports_required_capabilities capabilities required
         | None => Ok tt
         end);
    if negb (forallb (fun node => contains_credential (leaf_capabilities (payload node))
               (credential_type (leaf_credential (payload leaf_node)))) (full_leaves (treesync g)))
    then Err UnsupportedCredentials
    else if negb (forallb (fun node => contains_credential capabilities
               (credential_type (leaf_credential (payload node)))) (full_leaves (treesync g)))
    then Err UnsupportedCredentials
    else Ok tt.

Definition validate_leaf_node (g : PublicGroup) (leaf_node : LeafNode) : outcome LeafNodeValidationError () :=
  _ ← validate_leaf_node_capabilities g leaf_node;
  match leaf_life_time leaf_node with
  | Some lifetime => if negb (Lifetime_is_valid now lifetime) then Err (LeafNodeLifetime NotCurrent) else Ok tt
  | None => Ok tt
  end.

(** [try_for_each] *)
Fixpoint try_for_each {E A} (f : A -> outcome E ()) (l : list A) : outcome E () :=
  match l with
  | [] => Ok tt
  | x :: l => _ ← f x; try_for_each f l
  end.

Definition validate_capabilities (g : PublicGroup) (q : ProposalQueue) : outcome ProposalValidationError () :=
  try_for_each (fun leaf_node => map_err (fun _ => InsufficientCapabilities) (validate_leaf_node_capabilities g leaf_node))
    (omap (fun p => match proposal p with
      | Add key_package => Some (kp_leaf_node key_package)
      | Update leaf_node => Some leaf_node
      | _ => None
      end) (queued_proposals q)).

Definition validate_add_proposals (g : PublicGroup) (q : ProposalQueue) : outcome ProposalValidationError () :=
  try_for_each (fun '(key_package, _) =>
    if negb (bool_decide (kp_ciphersuite key_package = PublicGroup_ciphersuite g)) ||
       negb (bool_decide (kp_protocol_version key_package = PublicGroup_version g))
    then Err InvalidAddProposalCiphersuiteOrVersion
    else map_err ProposalLeafNodeValidation (validate_leaf_node g (kp_leaf_node key_package))) (add_proposals q).

(** [collect::<Result<HashSet<_>, _>>] *)
Fixpoint update_senders (l : list (LeafNode * Sender)) : outcome ProposalValidationError (list LeafNodeIndex) :=
  match l with
  | [] => Ok []
  | (_, Sender_Member index) :: l => xs ← update_senders l; Ok (index :: xs)
  | _ => Err UpdateFromNonMember
  end.

Fixpoint check_removes (g : PublicGroup) (updates_set removes : list LeafNodeIndex) (removes_set : list LeafNodeIndex) :
    outcome ProposalValidationError () :=
  match removes with
  | [] => Ok tt
  | removed :: removes =>
    if negb (is_leaf_in_tree (treesync g) removed) then Err UnknownMemberRemoval
    else if mem removed removes_set then Err DuplicateMemberRemoval
    else if mem removed updates_set then Err DuplicateMemberRemoval
    else if bool_decide (TreeSync_leaf (treesync g) removed = None) then Err UnknownMemberRemoval
    else check_removes g updates_set removes (removed :: removes_set)
  end.

Definition validate_remove_proposals (g : PublicGroup) (q : ProposalQueue) : outcome ProposalValidationError () :=
  updates_set ← update_senders (update_proposals q);
  check_removes g updates_set (removed_leaves q) [].

Definition validate_update_proposals (g : PublicGroup) (q : ProposalQueue) (committer : LeafNodeIndex) :
    outcome ProposalValidationError () :=
  try_for_each (fun '(leaf_node, sender) =>
    match sender with
    | Sender_Member sender_index =>
      if committer =? sender_index then Err CommitterIncludedOwnUpdate
      else map_err ProposalLeafNodeValidation (validate_leaf_node g leaf_node)
    | _ => Err UpdateFromNonMember
    end) (update_proposals q).

Definition validate_in_proposal (psk_id : PreSharedKeyId) (c : Ciphersuite) : outcome PskError PreSharedKeyId :=
  let bad_usage := match psk psk_id with
    | Resumption resumption_psk =>
      if bool_decide (usage resumption_psk = UsageApplication) then None else Some (usage resumption_psk)
    | ExternalPsk _ => None
    end in
  match bad_usage with
  | Some got => Err (UsageMismatch [UsageApplication] got)
  | None =>
    let got_nonce_length := Z.of_nat (length (psk_nonce psk_id)) in
    if negb (hash_length c =? got_nonce_length) then Err (NonceLengthMismatch (hash_length c) got_nonce_length)
    else Ok psk_id
  end.

Fixpoint check_psks (c : Ciphersuite) (l : list PreSharedKeyId) (visited_psk_ids : list PreSharedKeyId) :
    outcome ProposalValidationError () :=
  match l with
  | [] => Ok tt
  | psk_id :: l =>
    psk_id ← map_err ProposalPsk (validate_in_proposal psk_id c);
    if mem psk_id visited_psk_ids then Err (ProposalPsk (PskDuplicate psk_id))
    else check_psks c l (psk_id :: visited_psk_ids)
  end.

Definition validate_pre_shared_key_proposals (g : PublicGroup) (q : ProposalQueue) : outcome ProposalValidationError () :=
  check_psks (PublicGroup_ciphersuite g) (map fst (psk_proposals q)) [].

#[export] Instance ProposalOrRefType_eq_dec : EqDecision ProposalOrRefType.
Proof. solve_decision. Defined.

Definition validate_external_commit (q : ProposalQueue) : outcome ExternalCommitValidationError () :=
  let count_external_init_proposals := length (filtered_by_type q PtExternalInit) in
  if (count_external_init_proposals =? 0)%nat then Err NoExternalInitProposals
  else if (1 <? count_external_init_proposals)%nat then Err MultipleExternalInitProposals
  else if existsb (fun p =>
      bool_decide (proposal_or_ref_type p = ByProposal) &&
      negb (match proposal p with ExternalInit _ | Remove _ | PreSharedKey _ | Custom _ => true | _ => false end))
    (queued_proposals q)
  then Err InvalidInlineProposals
  else Ok tt.

(** [PublicGroup::check_extension_support] *)
Definition PublicGroup_check_extension_support (g : PublicGroup) (es : list ExtensionType) : outcome LeafNodeValidationError () :=
  try_for_each (fun leaf => check_extension_support leaf es) (full_leaves (treesync g)).

Definition requires_extension_type_support (r : RequiredCapabilitiesExtension) (ty : ExtensionType) : bool :=
  mem ty (extension_types r).

(** The body of the loop for the proposal at position [i]. *)
Definition check_extensions_proposal (g : PublicGroup) (i : nat) (p : QueuedProposal) :
    outcome GroupContextExtensionsProposalValidationError () :=
  if (0 <? i)%nat then Err TooManyGCEProposals
  else match proposal p with
  | GroupContextExtensions es =>
    required ← (match required_capabilities es with
      | Some required_capabilities_new =>
        _ ← map_err (fun _ => RequiredExtensionNotSupportedByAllMembers)
          (PublicGroup_check_extension_support g (extension_types required_capabilities_new));
        Ok required_capabilities_new
      | None => Ok {| extension_types := []; proposal_types := []; credential_types := [] |}
      end);
    if negb (forallb (fun ext_type => ExtensionType_is_default ext_type || requires_extension_type_support required ext_type)
               (map extension_type es))
    then Err ExtensionNotInRequiredCapabilities else Ok tt
  | _ => Err (GCELibraryError LibraryCustom)
  end.

Definition validate_group_context_extensions_proposal (g : PublicGroup) (q : ProposalQueue) :
    outcome GroupContextExtensionsProposalValidationError () :=
  try_for_each (fun x => check_extensions_proposal g x.1 x.2)
    (imap pair (filtered_by_type q PtGroupContextExtensions)).

Definition validate_no_external_init_proposals (q : ProposalQueue) : outcome ProposalValidationError () :=
  if existsb (fun p => bool_decide (proposal_type (proposal p) = PtExternalInit)) (queued_proposals q)
  then Err ExternalInitProposalInRegularCommit else Ok tt.

(** ** Commits *)

Section Commit.
Context `{!ProposalHashing}.

(** The checks on a commit of a new member. *)
Definition validate_external_sender (commit : Commit) : outcome StageCommitError () :=
  if bool_decide (commit_path commit = None) then Err (StageExternalCommitValidation ExternalNoPath)
  else if existsb (fun p => match p with ProposalOrRef_Reference _ => true | _ => false end) (commit_proposals commit)
  then Err (StageExternalCommitValidation ReferencedProposal)
  else if (1 <? length (List.filter (fun p => match p with ProposalOrRef_Proposal (Remove _) => true | _ => false end)
                          (commit_proposals commit)))%nat
  then Err (StageExternalCommitValidation MultipleExternalInitProposals)
  else Ok tt.

Definition committed_error (e : FromCommittedProposalsError) : StageCommitError :=
  match e with
  | CommittedLibraryError e => StageLibraryError e
  | CommittedProposalNotFound => MissingProposal
  | SelfRemoval => AttemptedSelfRemoval
  end.

(** The checks of the proposals that do not depend on the sender. *)
Definition validate_queue (g : PublicGroup) (q : ProposalQueue) (commit : Commit) : outcome StageCommitError () :=
  _ ← map_err StageProposalValidation (validate_key_uniqueness g q (Some commit));
  _ ← map_err StageProposalValidation (validate_add_proposals g q);
  _ ← map_err StageProposalValidation (validate_capabilities g q);
  _ ← map_err StageProposalValidation (validate_remove_proposals g q);
  _ ← map_err StageProposalValidation (validate_proposal_type_support g q);
  _ ← map_err StageGCEProposalValidation (validate_group_context_extensions_proposal g q);
  map_err StageProposalValidation (validate_pre_shared_key_proposals g q).

Definition inline_proposals (commit : Commit) : list Proposal :=
  omap (fun p => match p with ProposalOrRef_Proposal p => Some p | _ => None end) (commit_proposals commit).

(** The checks of the proposals for each kind of sender, and the sender's leaf. *)
Definition validate_sender (g : PublicGroup) (q : ProposalQueue) (commit : Commit) (s : Sender) : outcome StageCommitError LeafNodeIndex :=
  match s with
  | Sender_Member leaf_index =>
    _ ← map_err StageProposalValidation (validate_update_proposals g q leaf_index);
    _ ← map_err StageProposalValidation (validate_no_external_init_proposals q);
    Ok leaf_index
  | Sender_External _ => Err SenderTypeExternal
  | NewMemberProposal => Err SenderTypeNewMemberProposal
  | NewMemberCommit =>
    _ ← map_err StageExternalCommitValidation (validate_external_commit q);
    map_err StageLibraryError (leftmost_free_index g (inline_proposals commit))
  end.

Definition validate_commit (g : PublicGroup) (m : AuthenticatedContent) :
    outcome StageCommitError (Commit * ProposalQueue * LeafNodeIndex) :=
  if negb (content_epoch (ac_content m) =? gc_epoch (group_context g)) then Err EpochMismatch
  else match content_body (ac_content m) with
  | BodyCommit commit =>
    let s := content_sender (ac_content m) in
    _ ← (if bool_decide (s = NewMemberCommit) then validate_external_sender commit else Ok tt);
    q ← map_err committed_error
      (from_committed_proposals (PublicGroup_ciphersuite g) (commit_proposals commit) (proposal_store g) s);
    _ ← (match commit_path commit with
         | Some update_path => map_err StageLeafNodeValidation (validate_leaf_node g (cp_leaf_node update_path))
         | None => Ok tt
         end);
    _ ← validate_queue g q commit;
    sender_index ← validate_sender g q commit s;
    Ok (commit, q, sender_index)
  | _ => Err WrongPlaintextContentType
  end.

End Commit.
End Clock.

(** ** What the checks establish *)

(** [leaf] and [diff.leaf] of a fresh diff read the same. *)
Lemma TreeSync_leaf_at ts h i : tree_wf (ts_tree ts) h -> 0 <= i -> leaf_at (TreeSync_empty_diff ts) i = TreeSync_leaf ts i.
Proof. intros Hwf Hi. unfold leaf_at. cbn [diff TreeSync_empty_diff]. by rewrite (empty_diff_leaf _ h). Qed.

Section Committed.
Context `{!ProposalHashing}.

(** Every proposal of a commit is one of the store or was sent with it. *)
Definition from_commit (committed : list ProposalOrRef) (store : ProposalStore) (s : Sender) (p : QueuedProposal) : Prop :=
  p ∈ store \/ (sender p = s /\ proposal_or_ref_type p = ByProposal /\ ProposalOrRef_Proposal (proposal p) ∈ committed).

Lemma known_in_store (store : ProposalStore) r p :
  foldl (fun m p => <[proposal_reference p := p]> m) (∅ : gmap ProposalRef QueuedProposal) store !! r = Some p -> p ∈ store.
Proof.
  induction store as [|x store IH] using rev_ind; [done|]. rewrite foldl_app. cbn. intros [[_ <-]|[_ Hm]]%lookup_insert_Some; rewrite elem_of_app, list_elem_of_singleton; auto.
Qed.

Lemma queue_add_elem q p x : queue_ok q -> x ∈ queued_proposals (ProposalQueue_add p q) -> x ∈ queued_proposals q \/ x = p.
Proof.
  intros Hq. destruct (decide (proposal_reference p ∈ proposal_references q)) as [Hin|Hin].
  - apply (proj1 (proj2 Hq _)) in Hin as [y E]. unfold ProposalQueue_add. rewrite E. by left.
  - destruct (ProposalQueue_add_spec q p Hq Hin) as (_ & -> & _). rewrite elem_of_app, list_elem_of_singleton. tauto.
Qed.

Lemma queue_add_ok q p : queue_ok q -> queue_ok (ProposalQueue_add p q).
Proof.
  intros Hq. destruct (decide (proposal_reference p ∈ proposal_references q)) as [Hin|Hin].
  - apply (proj1 (proj2 Hq _)) in Hin as [y E]. unfold ProposalQueue_add. by rewrite E.
  - by apply ProposalQueue_add_spec.
Qed.

Lemma add_committed_from c known s store committed : (forall r p, known !! r = Some p -> p ∈ store) ->
  forall l q q', (forall x, x ∈ l -> x ∈ committed) -> queue_ok q -> (forall p, p ∈ queued_proposals q -> from_commit committed store s p) ->
  add_committed c known s l q = Ok q' -> queue_ok q' /\ forall p, p ∈ queued_proposals q' -> from_commit committed store s p.
Proof.
  intros Hknown. induction l as [|x l IH]; intros q q' Hl Hq Hp E; cbn [add_committed] in E; [by injection E as <-|].
  destruct (committed_proposal c known s x) as [p| |] eqn:Ep; try discriminate. cbn [mbind outcome_bind] in E.
  apply (IH (ProposalQueue_add p q)) in E; [done|intros y Hy; apply Hl; by right|by apply queue_add_ok|].
  intros y [Hy| ->]%queue_add_elem; [by apply Hp| |done]. destruct x as [px|r]; cbn [committed_proposal] in Ep.
  - right. destruct (removes_itself px s); [discriminate|]. unfold from_proposal_and_sender in Ep.
    destruct (from_raw_proposal c px); try discriminate. injection Ep as <-. cbn. split_and!; try done. apply Hl. by left.
  - left. destruct (known !! r) as [y|] eqn:Ek; [|discriminate]. destruct (removes_itself _ _); [discriminate|]. injection Ep as <-. by eapply Hknown.
Qed.

(** A proposal sent with a commit ends up in the receiver's queue as one of the committer. *)
Lemma add_inline_elem c known s (ps : list Proposal) : (forall p1 p2 r, p1 ∈ ps -> p2 ∈ ps -> from_raw_proposal c p1 = Ok r -> from_raw_proposal c p2 = Ok r -> p1 = p2) ->
  forall l q q', (forall x, x ∈ l -> x ∈ ps) -> queue_ok q ->
  (forall x, x ∈ queued_proposals q -> sender x = s /\ proposal x ∈ ps /\ from_raw_proposal c (proposal x) = Ok (proposal_reference x)) ->
  add_committed c known s (map ProposalOrRef_Proposal l) q = Ok q' ->
  (forall x, x ∈ queued_proposals q -> x ∈ queued_proposals q') /\
  forall p, p ∈ l -> exists x, x ∈ queued_proposals q' /\ proposal x = p /\ sender x = s.
Proof.
  intros Hinj. induction l as [|p l IH]; intros q q' Hl Hq Hinv E; cbn [map add_committed] in E.
  { injection E as <-. split; [done|]. by intros p ?%not_elem_of_nil. }
  ok_inv E. cbn [committed_proposal] in Hx. destruct (removes_itself p s); [discriminate|]. unfold from_proposal_and_sender in Hx. ok_inv Hx.
  injection Hx as <-. rename x0 into r, Hx0 into Er. set (x := mkQueuedProposal p r s ByProposal) in *.
  assert (Hp : p ∈ ps) by (apply Hl; by left).
  assert (Hin : exists y, y ∈ queued_proposals (ProposalQueue_add x q) /\ proposal y = p /\ sender y = s).
  { destruct (decide (r ∈ proposal_references q)) as [Hr|Hr].
    - pose proof Hr as [y Ey]%(proj2 Hq). exists y. assert (Hy : y ∈ queued_proposals q) by (apply list_elem_of_omap; by exists r).
      pose proof (proj2 (proj2 Hq r) y Ey) as Eyr. destruct (Hinv y Hy) as (Hs & Hpy & Ery). unfold ProposalQueue_add. cbn [proposal_reference x].
      rewrite Ey. split_and!; [done| |done]. rewrite Eyr in Ery. by apply (Hinj _ _ r).
    - destruct (ProposalQueue_add_spec q x Hq Hr) as (_ & El & _). exists x. rewrite El. split_and!; [|done..]. apply elem_of_app. right. by left. }
  assert (Hkeep : forall y, y ∈ queued_proposals q -> y ∈ queued_proposals (ProposalQueue_add x q)).
  { intros y Hy. destruct (decide (r ∈ proposal_references q)) as [[z Ez]%(proj2 Hq)|Hr]; [unfold ProposalQueue_add; cbn [proposal_reference x]; by rewrite Ez|].
    destruct (ProposalQueue_add_spec q x Hq Hr) as (_ & El & _). rewrite El. apply elem_of_app. by left. }
  destruct (IH (ProposalQueue_add x q) q') as [Hk Hall]; [intros y Hy; apply Hl; by right|by apply queue_add_ok| |done|].
  - intros y [Hy| ->]%queue_add_elem; [by apply Hinv|by split_and!|done].
  - split; [intros y Hy; by apply Hk, Hkeep|]. intros y [->|Hy]%elem_of_cons; [|by apply Hall].
    destruct Hin as (z & Hz & ? & ?). exists z. split; [by apply Hk|done].
Qed.

Lemma add_inline_from c known s (ps : list Proposal) : forall l q q', (forall x, x ∈ l -> x ∈ ps) -> queue_ok q ->
  (forall x, x ∈ queued_proposals q -> sender x = s /\ proposal x ∈ ps /\ proposal_or_ref_type x = ByProposal) ->
  add_committed c known s (map ProposalOrRef_Proposal l) q = Ok q' ->
  forall x, x ∈ queued_proposals q' -> sender x = s /\ proposal x ∈ ps /\ proposal_or_ref_type x = ByProposal.
Proof.
  induction l as [|p l IH]; intros q q' Hl Hq Hinv E; cbn [map add_committed] in E; [by injection E as <-|].
  ok_inv E. cbn [committed_proposal] in Hx. destruct (removes_itself p s); [discriminate|]. unfold from_proposal_and_sender in Hx. ok_inv Hx.
  injection Hx as <-. eapply IH; [intros y Hy; apply Hl; by right|by apply queue_add_ok| |exact E].
  intros y [Hy| ->]%queue_add_elem; [by apply Hinv| |done]. cbn. split_and!; [done| |done]. apply Hl. by left.
Qed.

Lemma empty_queue_ok : queue_ok ProposalQueue_default.
Proof. split; [apply NoDup_nil_2|]. intros r. cbn. rewrite lookup_empty. split; [|done]. split; [by intros []|by intros ?%not_elem_of_nil]. Qed.

Lemma from_committed_spec c committed store s q : from_committed_proposals c committed store s = Ok q ->
  queue_ok q /\ forall p, p ∈ queued_proposals q -> from_commit committed store s p.
Proof.
  unfold from_committed_proposals. apply add_committed_from; [|done|apply empty_queue_ok|by intros p ?%not_elem_of_nil].
  intros r p. apply known_in_store.
Qed.

Lemma inline_committed c (ps : list Proposal) store s q p : from_committed_proposals c (map ProposalOrRef_Proposal ps) store s = Ok q -> p ∈ ps ->
  (forall p1 p2 r, p1 ∈ ps -> p2 ∈ ps -> from_raw_proposal c p1 = Ok r -> from_raw_proposal c p2 = Ok r -> p1 = p2) ->
  exists x, x ∈ queued_proposals q /\ proposal x = p /\ sender x = s.
Proof.
  intros E Hp Hinj. unfold from_committed_proposals in E. eapply (add_inline_elem c _ s ps Hinj ps) in E as [_ Hall]; [by apply Hall|done|apply empty_queue_ok|].
  by intros x ?%not_elem_of_nil.
Qed.

Lemma inline_committed_from c (ps : list Proposal) store s q x : from_committed_proposals c (map ProposalOrRef_Proposal ps) store s = Ok q ->
  x ∈ queued_proposals q -> sender x = s /\ proposal x ∈ ps /\ proposal_or_ref_type x = ByProposal.
Proof.
  intros E. unfold from_committed_proposals in E. eapply (add_inline_from c _ s ps ps); [| | |exact E]; [done|apply empty_queue_ok|].
  by intros y ?%not_elem_of_nil.
Qed.

End Committed.

(** *** Keys *)

Lemma insert_signature_keys_spec keys set set' : insert_signature_keys keys set = Ok set' ->
  NoDup keys /\ (forall k, k ∈ keys -> k ∉ set) /\ set' = list_to_set keys ∪ set.
Proof.
  revert set. induction keys as [|k keys IH]; intros set; cbn [insert_signature_keys].
  { intros [= <-]. split_and!; [constructor|by intros ? ?%not_elem_of_nil|set_solver]. }
  destruct (decide _) as [|Hk]; [done|]. intros (Hd & Hn & ->)%IH. split_and!; [|set_solver..].
  constructor; [|done]. intros Hin%Hn. set_solver.
Qed.

Lemma insert_encryption_keys_spec keys set set' : insert_encryption_keys ∅ keys set = Ok set' ->
  NoDup keys /\ (forall k, k ∈ keys -> k ∉ set) /\ set' = list_to_set keys ∪ set.
Proof.
  revert set. induction keys as [|k keys IH]; intros set; cbn [insert_encryption_keys].
  { intros [= <-]. split_and!; [constructor|by intros ? ?%not_elem_of_nil|set_solver]. }
  rewrite decide_False by set_solver. destruct (decide _) as [|Hk]; [done|]. intros (Hd & Hn & ->)%IH. split_and!; [|set_solver..].
  constructor; [|done]. intros Hin%Hn. set_solver.
Qed.

Lemma insert_init_keys_spec set keys init init' : insert_init_keys set keys init = Ok init' ->
  NoDup keys /\ forall k, k ∈ keys -> k ∉ init /\ k ∉ set.
Proof.
  revert init. induction keys as [|k keys IH]; intros init; cbn [insert_init_keys].
  { intros _. split; [constructor|by intros ? ?%not_elem_of_nil]. }
  destruct (decide _) as [|Hk]; [done|]. destruct (decide _) as [|Hk']; [done|]. intros [Hd Hn]%IH. split.
  - constructor; [|done]. intros Hin%Hn. set_solver.
  - intros x [->|Hx]%elem_of_cons; [done|]. apply Hn in Hx. set_solver.
Qed.

(** *** Commits *)

(** The stored updates are from members. *)
Definition store_ok (g : PublicGroup) : Prop :=
  forall p leaf_node i, p ∈ proposal_store g -> proposal p = Update leaf_node -> sender p = Sender_Member i ->
    0 <= i /\ is_Some (TreeSync_leaf (treesync g) i).

(** Leaf indices are [u32]: those of the removals of a commit and of the store, and of the sender. *)
Definition indices_ok (g : PublicGroup) (commit : Commit) (s : Sender) : Prop :=
  (forall i, ProposalOrRef_Proposal (Remove i) ∈ commit_proposals commit -> 0 <= i) /\
  (forall p i, p ∈ proposal_store g -> proposal p = Remove i -> 0 <= i) /\
  (forall i, s = Sender_Member i -> 0 <= i).

Lemma check_removes_ok g us rs : forall set, check_removes g us rs set = Ok tt ->
  NoDup rs /\ forall r, r ∈ rs -> r ∉ set /\ is_Some (TreeSync_leaf (treesync g) r).
Proof.
  induction rs as [|r rs IH]; intros set; cbn [check_removes]; [intros _; split; [constructor|by intros ? ?%not_elem_of_nil]|].
  intros E. ok_inv E. apply IH in E as [Hd Hr]. unfold mem in *.
  repeat match goal with H : bool_decide _ = false |- _ => apply bool_decide_eq_false in H end. split.
  - constructor; [|done]. intros [Hn _]%Hr. apply Hn. by left.
  - intros x [->|[Hn Hs]%Hr]%elem_of_cons; [split; [done|by apply not_eq_None_Some]|]. split; [|done]. intros Hx. apply Hn. by right.
Qed.

Lemma update_senders_ok l : forall xs, update_senders l = Ok xs -> forall leaf_node s, (leaf_node, s) ∈ l -> exists i, s = Sender_Member i.
Proof.
  induction l as [|[x s] l IH]; intros xs E leaf_node s'; [by intros ?%not_elem_of_nil|]. destruct s as [i| | |]; try discriminate.
  cbn [update_senders] in E. ok_inv E. intros [[= -> ->]|Hl]%elem_of_cons; [by exists i|by eapply IH].
Qed.

Lemma elem_of_updates q leaf_node s : (leaf_node, s) ∈ update_proposals q <->
  exists p, p ∈ queued_proposals q /\ proposal p = Update leaf_node /\ sender p = s.
Proof.
  unfold update_proposals. rewrite list_elem_of_omap. split.
  - intros (p & Hp & E). exists p. destruct (proposal p); try discriminate. by injection E as -> ->.
  - intros (p & Hp & E & <-). exists p. by rewrite E.
Qed.

Lemma elem_of_removed q i : i ∈ removed_leaves q <-> exists p, p ∈ queued_proposals q /\ proposal p = Remove i.
Proof.
  unfold removed_leaves, remove_proposals. rewrite list_elem_of_fmap. split.
  - intros ([i' s] & -> & (p & Hp & E)%list_elem_of_omap). exists p. destruct (proposal p); try discriminate. by injection E as -> _.
  - intros (p & Hp & E). exists (i, sender p). split; [done|]. apply list_elem_of_omap. exists p. by rewrite E.
Qed.

Lemma try_for_each_ok {E A} (f : A -> outcome E ()) l : try_for_each f l = Ok tt <-> forall x, x ∈ l -> f x = Ok tt.
Proof.
  induction l as [|x l IH]; cbn [try_for_each]; [split; [by intros _ ? ?%not_elem_of_nil|done]|].
  rewrite bind_ok. split.
  - intros ([] & Hx & Hl) y [->|Hy]%elem_of_cons; [done|]. by apply IH.
  - intros Hl. exists tt. split; [apply Hl; by left|]. apply IH. intros y Hy. apply Hl. by right.
Qed.

Section Validated.
Context `{!ProposalHashing} (now : option Z).

Lemma validate_commit_ok g m commit q i : validate_commit now g m = Ok (commit, q, i) ->
  let s := content_sender (ac_content m) in
  content_body (ac_content m) = BodyCommit commit /\ content_epoch (ac_content m) = gc_epoch (group_context g) /\
  from_committed_proposals (PublicGroup_ciphersuite g) (commit_proposals commit) (proposal_store g) s = Ok q /\
  validate_queue now g q commit = Ok tt /\ validate_sender now g q commit s = Ok i.
Proof.
  unfold validate_commit. destruct (Z.eqb_spec (content_epoch (ac_content m)) (gc_epoch (group_context g))); cbn [negb]; [|discriminate].
  destruct (content_body (ac_content m)) as [| |commit']; try discriminate. intros E. ok_inv E. injection E as -> -> ->. destruct x2. by split_and!.
Qed.

Lemma external_sender_ok g m commit q i : validate_commit now g m = Ok (commit, q, i) -> content_sender (ac_content m) = NewMemberCommit ->
  validate_external_sender commit = Ok tt.
Proof.
  unfold validate_commit. destruct (negb _); [discriminate|]. destruct (content_body (ac_content m)) as [| |commit']; try discriminate.
  intros E Hs. rewrite Hs in E. ok_inv E. injection E as -> -> ->. by destruct x.
Qed.

Lemma validate_external_sender_ok commit : validate_external_sender commit = Ok tt ->
  commit_proposals commit = map ProposalOrRef_Proposal (inline_proposals commit) /\
  forall r r', Remove r ∈ inline_proposals commit -> Remove r' ∈ inline_proposals commit -> r = r'.
Proof.
  intros E. unfold validate_external_sender in E. ok_inv E. apply Nat.ltb_ge in Hb1. unfold inline_proposals. split.
  - clear -Hb0. induction (commit_proposals commit) as [|[p|r] l IH]; [done| |discriminate]. cbn in Hb0 |- *. f_equal. by apply IH.
  - assert (Hf : forall r, Remove r ∈ omap (fun p => match p with ProposalOrRef_Proposal p => Some p | _ => None end) (commit_proposals commit) ->
      ProposalOrRef_Proposal (Remove r) ∈ List.filter (fun p => match p with ProposalOrRef_Proposal (Remove _) => true | _ => false end) (commit_proposals commit)).
    { intros r (x & Hx & Ex)%list_elem_of_omap. destruct x as [p|]; [|discriminate]. injection Ex as ->. apply list_elem_of_In, filter_In.
      split; [by apply list_elem_of_In|done]. }
    intros r r' Hr%Hf Hr'%Hf. destruct (List.filter _ _) as [|x [|y l]]; [by apply not_elem_of_nil in Hr| |cbn in Hb1; lia].
    apply list_elem_of_singleton in Hr, Hr'. congruence.
Qed.

Lemma validate_queue_ok g q commit : validate_queue now g q commit = Ok tt ->
  validate_key_uniqueness g q (Some commit) = Ok tt /\ validate_remove_proposals g q = Ok tt.
Proof. intros E. unfold validate_queue in E. ok_inv E. destruct x, x2. done. Qed.

Lemma committing_own_update g q commit j i leaf_node : validate_sender now g q commit (Sender_Member j) = Ok i ->
  (leaf_node, Sender_Member j) ∉ update_proposals q.
Proof.
  intros E Hin. cbn [validate_sender] in E. ok_inv E. destruct x. unfold validate_update_proposals in Hx. rewrite try_for_each_ok in Hx.
  specialize (Hx _ Hin). cbn in Hx. by rewrite Z.eqb_refl in Hx.
Qed.

Lemma validate_sender_ok g h q commit s i : members_ok (TreeSync_empty_diff (treesync g)) h -> indices_ok g commit s -> validate_sender now g q commit s = Ok i ->
  0 <= i /\ (forall leaf_node, (leaf_node, s) ∉ update_proposals q \/ is_member s = false).
Proof.
  intros Hm (Hr & _ & Hs) E. destruct s as [j| | |]; try discriminate.
  - split; [|intros leaf_node; left; by eapply committing_own_update]. cbn [validate_sender] in E. ok_inv E. injection E as <-. by apply Hs.
  - ok_inv E. split; [|by right]. unfold leftmost_free_index in E.
    destruct (free_leaf_index_spec _ h Hm) as ((Hf & _) & _). fold (TreeSync_free_leaf_index (treesync g)) in Hf.
    destruct (List.find _ _) as [p|] eqn:Ef; [|by injection E as <-]. apply find_some in Ef as [Hin _].
    destruct p as [| |r| | | | | |]; try discriminate. injection E as <-. destruct (_ <? _); [|done]. apply Hr.
    apply list_elem_of_In in Hin. unfold inline_proposals in Hin. apply list_elem_of_omap in Hin as (x' & Hx' & E).
    destruct x'; [|discriminate]. by injection E as ->.
Qed.

(** A commit that passes validation only changes leaves it may change. *)
Lemma validated_applicable g h m commit q i : tree_wf (ts_tree (treesync g)) h -> members_ok (TreeSync_empty_diff (treesync g)) h ->
  store_ok g -> indices_ok g commit (content_sender (ac_content m)) -> validate_commit now g m = Ok (commit, q, i) ->
  applicable (TreeSync_empty_diff (treesync g)) q /\ 0 <= i.
Proof.
  intros Hwf Hm Hstore Hidx (Hbody & _ & Hq & Hvq & Hvs)%validate_commit_ok.
  destruct (from_committed_spec _ _ _ _ _ Hq) as [_ Hfrom]. apply validate_queue_ok in Hvq as [_ Hrem].
  unfold validate_remove_proposals in Hrem. ok_inv Hrem. apply check_removes_ok in Hrem as [Hnd Hrem].
  destruct (validate_sender_ok g h q commit _ i Hm Hidx Hvs) as [Hi Hown]. split; [split|done].
  - intros p leaf_node Hp Ep. destruct (update_senders_ok _ _ Hx leaf_node (sender p)) as [k Ek]; [apply elem_of_updates; eauto|].
    exists k. split; [done|]. destruct (Hfrom p Hp) as [Hin|(Es & _ & _)].
    + destruct (Hstore p leaf_node k Hin Ep Ek) as [Hk Hs]. split; [done|]. by rewrite (TreeSync_leaf_at _ h).
    + exfalso. destruct (Hown leaf_node) as [Hn|Hn]; [apply Hn, elem_of_updates; eauto|]. rewrite <- Es, Ek in Hn. done.
  - intros r Hr. assert (0 <= r) as Hr0.
    { apply elem_of_removed in Hr as (p & Hp & Ep). destruct Hidx as (H1 & H2 & _).
      destruct (Hfrom p Hp) as [Hin|(_ & _ & Hin)]; [by eapply H2|]. rewrite Ep in Hin. by apply H1. }
    split; [done|]. rewrite (TreeSync_leaf_at _ h) by done. by apply Hrem.
  - done.
Qed.

End Validated.

(** *** Unique keys *)

(** No two leaves have the same key. *)
Definition keys_unique (key : LeafNode -> bytes) (leaves : Z -> option LeafNode) : Prop :=
  forall i j a b, 0 <= i -> 0 <= j -> leaves i = Some a -> leaves j = Some b -> key a = key b -> i = j.

Definition encryption_key (leaf : LeafNode) : bytes := leaf_encryption_key (payload leaf).

Lemma NoDup_map_inj {A B} (f : A -> B) (l : list A) x y : NoDup (map f l) -> x ∈ l -> y ∈ l -> f x = f y -> x = y.
Proof.
  induction l as [|z l IH]; intros Hd Hx Hy E; [by apply not_elem_of_nil in Hx|]. cbn in Hd. apply NoDup_cons in Hd as [Hn Hd].
  rewrite elem_of_cons in Hx, Hy. destruct Hx as [->|Hx], Hy as [->|Hy]; [done| | |by apply IH].
  - exfalso. apply Hn. rewrite E. by apply (list_elem_of_fmap_2 f).
  - exfalso. apply Hn. rewrite <- E. by apply (list_elem_of_fmap_2 f).
Qed.

(** Keys stay unique when the new ones, listed with their leaves, are distinct and differ
    from those of the members that stay. *)
Lemma keys_unique_after key leaves leaves' (removed : list Z) (new : list (Z * bytes)) : keys_unique key leaves ->
  NoDup (map snd new) ->
  (forall i k j old, (i, k) ∈ new -> 0 <= j -> leaves j = Some old -> j ∉ removed -> key old <> k) ->
  (forall j a, 0 <= j -> leaves' j = Some a -> (leaves j = Some a /\ j ∉ removed) \/ (j, key a) ∈ new) ->
  keys_unique key leaves'.
Proof.
  intros Hu Hd Hdisj Horigin i j a b Hi Hj Ha Hb E.
  destruct (Horigin i a Hi Ha) as [[Ha' Hri]|Ha'], (Horigin j b Hj Hb) as [[Hb' Hrj]|Hb'].
  - by eapply Hu.
  - exfalso. eapply (Hdisj j (key b) i a); eauto.
  - exfalso. eapply (Hdisj i (key a) j b); eauto.
  - rewrite E in Ha'. pose proof (NoDup_map_inj snd new _ _ Hd Ha' Hb' eq_refl). congruence.
Qed.

Lemma member_listed ts h i leaf : tree_wf (ts_tree ts) h -> 0 <= i -> leaf_at (TreeSync_empty_diff ts) i = Some leaf ->
  (i, encryption_key leaf, leaf_signature_key (payload leaf)) ∈ full_leave_members_opt ts.
Proof.
  intros Hwf Hi E. rewrite (TreeSync_leaf_at _ h) in E by done. unfold TreeSync_leaf, ABinaryTree_leaf in E.
  rewrite (leaf_by_index_spec _ h) in E by done. unfold full_leave_members_opt. apply list_elem_of_omap. exists (i, Some leaf).
  split; [|done]. apply enumerate_elem_of. split; [done|]. 
  assert (Hd : forall o : option TreeSyncLeafNode, default default_value o = Some leaf -> o = Some (Some leaf)).
  { intros [l|] E'; [by f_equal|discriminate E']. }
  exact (Hd _ E).
Qed.

Lemma validate_key_uniqueness_ok g h q commit : tree_wf (ts_tree (treesync g)) h -> validate_key_uniqueness g q commit = Ok tt ->
  NoDup (new_encryption_keys q commit) /\
  forall k j old, k ∈ new_encryption_keys q commit -> 0 <= j -> leaf_at (TreeSync_empty_diff (treesync g)) j = Some old ->
    j ∉ removed_leaves q -> encryption_key old <> k.
Proof.
  intros Hwf E. unfold validate_key_uniqueness in E. ok_inv E. apply insert_encryption_keys_spec in Hx0 as (Hd & Hn & _). split; [done|].
  intros k j old Hk Hj Hold Hr <-. apply (Hn _ Hk), elem_of_list_to_set. apply list_elem_of_fmap.
  exists (j, encryption_key old, leaf_signature_key (payload old)). split; [done|]. unfold remaining_members.
  apply list_elem_of_In, filter_In. split; [apply list_elem_of_In; by apply (member_listed _ h)|]. cbn.
  unfold mem. by rewrite bool_decide_false.
Qed.

(** The new encryption keys of a commit with the leaves they go to. *)
Definition owned_keys (q : ProposalQueue) (invited : list (LeafNodeIndex * KeyPackage)) : list (Z * bytes) :=
  map (fun x => (x.1, encryption_key (kp_leaf_node x.2))) invited ++
  map (fun x => (default (-1) (as_member x.2), encryption_key x.1)) (update_proposals q).

Lemma owned_keys_snd q invited : map snd invited = map fst (add_proposals q) ->
  map snd (owned_keys q invited) =
    map (fun x => leaf_encryption_key (payload (kp_leaf_node x.1))) (add_proposals q) ++
    map (fun x => leaf_encryption_key (payload x.1)) (update_proposals q).
Proof.
  intros E. unfold owned_keys. rewrite map_app, !map_map. f_equal. cbn.
  transitivity (map (fun kp => encryption_key (kp_leaf_node kp)) (map snd invited)); [by rewrite map_map|]. by rewrite E, map_map.
Qed.

Lemma last_update q j leaf : last (updates_of j (queued_proposals q)) = Some leaf -> (leaf, Sender_Member j) ∈ update_proposals q.
Proof.
  intros Hl. assert (Hin : leaf ∈ updates_of j (queued_proposals q)) by (by apply last_Some_elem_of). unfold updates_of in Hin.
  apply list_elem_of_omap in Hin as (p & Hp & E). apply elem_of_updates. exists p. destruct (proposal p), (sender p) as [i| | |]; try discriminate.
  destruct (i =? j) eqn:Eij; [|discriminate]. apply Z.eqb_eq in Eij as ->. by injection E as ->.
Qed.

Lemma applied_owners s q invited s' j a : proposals_applied s q invited s' -> 0 <= j -> leaf_at s' j = Some a ->
  (leaf_at s j = Some a /\ j ∉ removed_leaves q) \/ (j, encryption_key a) ∈ owned_keys q invited.
Proof.
  intros Hpr Hj Ha. unfold owned_keys. destruct (decide (j ∈ map fst invited)) as [Hin|Hin].
  - right. apply list_elem_of_fmap in Hin as ([j' kp] & E & Hin). cbn in E. subst j'.
    destruct (pr_leaf _ _ _ _ Hpr j kp Hin) as (_ & El & _). rewrite El in Ha. injection Ha as <-.
    apply elem_of_app. left. apply list_elem_of_fmap. by exists (j, kp).
  - rewrite (pr_other _ _ _ _ Hpr) in Ha by done. destruct (decide _) as [|Hr]; [done|].
    destruct (last _) as [leaf|] eqn:El; [|by left]. injection Ha as ->. right. apply elem_of_app. right. apply list_elem_of_fmap.
    exists (a, Sender_Member j). split; [done|]. by apply last_update.
Qed.
