(* ===== verification/Storage.v ===== *)
(** * The key store of the emulated clients

    Models [memory_storage/src/lib.rs]: a map from labelled, versioned keys to
    serialised values, with the operations of the [StorageProvider] trait.
    Entities are generic in the source and here; their JSON encodings
    ([serde_json]) are the parameter class [Serde].  The [RwLock] around the map
    is not modelled: each operation holds it from beginning to end, and a
    poisoned lock is not reached before the panic that poisons it. *)

From Stdlib Require Import String.
From S2P Require Import Prelude Crypto.

(** ** JSON *)

Class Serde (A : Type) := {
  (** [serde_json::to_vec] *)
  to_vec : A -> option bytes;
  (** [serde_json::from_slice] *)
  from_slice : bytes -> option A
}.

(** What is written can be read back. *)
Class SerdeLaws (A : Type) `{!Serde A} : Prop := {
  to_vec_ok (x : A) : exists b, to_vec x = Some b /\ from_slice b = Some x
}.

Inductive MemoryStorageError := UnsupportedValueTypeBytes | UnsupportedMethod | SerializationError.

(** ** The store *)

(** [MemoryStorage { values }] *)
Abbreviation MemoryStorage := (gmap bytes bytes).

Definition CURRENT_VERSION : Z := 1.

(** [u16::to_be_bytes] *)
Definition u16_be_bytes (v : Z) : bytes := [v / 256; v mod 256].

Definition KEY_PACKAGE_LABEL : bytes := Eval cbv in str_bytes "KeyPackage".
Definition PSK_LABEL : bytes := Eval cbv in str_bytes "Psk".
Definition ENCRYPTION_KEY_PAIR_LABEL : bytes := Eval cbv in str_bytes "EncryptionKeyPair".
Definition SIGNATURE_KEY_PAIR_LABEL : bytes := Eval cbv in str_bytes "SignatureKeyPair".
Definition EPOCH_KEY_PAIRS_LABEL : bytes := Eval cbv in str_bytes "EpochKeyPairs".
Definition TREE_LABEL : bytes := Eval cbv in str_bytes "Tree".
Definition GROUP_CONTEXT_LABEL : bytes := Eval cbv in str_bytes "GroupContext".
Definition INTERIM_TRANSCRIPT_HASH_LABEL : bytes := Eval cbv in str_bytes "InterimTranscriptHash".
Definition CONFIRMATION_TAG_LABEL : bytes := Eval cbv in str_bytes "ConfirmationTag".
Definition JOIN_CONFIG_LABEL : bytes := Eval cbv in str_bytes "MlsGroupJoinConfig".
Definition OWN_LEAF_NODES_LABEL : bytes := Eval cbv in str_bytes "OwnLeafNodes".
Definition GROUP_STATE_LABEL : bytes := Eval cbv in str_bytes "GroupState".
Definition QUEUED_PROPOSAL_LABEL : bytes := Eval cbv in str_bytes "QueuedProposal".
Definition PROPOSAL_QUEUE_REFS_LABEL : bytes := Eval cbv in str_bytes "ProposalQueueRefs".
Definition OWN_LEAF_NODE_INDEX_LABEL : bytes := Eval cbv in str_bytes "OwnLeafNodeIndex".
Definition EPOCH_SECRETS_LABEL : bytes := Eval cbv in str_bytes "EpochSecrets".
Definition RESUMPTION_PSK_STORE_LABEL : bytes := Eval cbv in str_bytes "ResumptionPsk".
Definition MESSAGE_SECRETS_LABEL : bytes := Eval cbv in str_bytes "MessageSecrets".

Definition labels : list bytes := [
  KEY_PACKAGE_LABEL; PSK_LABEL; ENCRYPTION_KEY_PAIR_LABEL; SIGNATURE_KEY_PAIR_LABEL; EPOCH_KEY_PAIRS_LABEL; TREE_LABEL;
  GROUP_CONTEXT_LABEL; INTERIM_TRANSCRIPT_HASH_LABEL; CONFIRMATION_TAG_LABEL; JOIN_CONFIG_LABEL; OWN_LEAF_NODES_LABEL;
  GROUP_STATE_LABEL; QUEUED_PROPOSAL_LABEL; PROPOSAL_QUEUE_REFS_LABEL; OWN_LEAF_NODE_INDEX_LABEL; EPOCH_SECRETS_LABEL;
  RESUMPTION_PSK_STORE_LABEL; MESSAGE_SECRETS_LABEL ].

(** A constant is one of the labels, or is another label. *)
Ltac known_label := apply (bool_decide_eq_true_1 _); reflexivity.

Definition build_key_from_vec (label key : bytes) : bytes := label ++ key ++ u16_be_bytes CURRENT_VERSION.

(** The store reacts to a failing encoding with [?] or with [unwrap]. *)
Definition or_fail {S A} (o : option A) : method S MemoryStorageError A := lift (ok_or o SerializationError).

Module Memory.

Definition m (A : Type) : Type := method MemoryStorage MemoryStorageError A.

Definition write (label key value : bytes) : m () := modify (<[build_key_from_vec label key := value]>).

Definition delete (label key : bytes) : m () := modify (base.delete (build_key_from_vec label key)).

Section Lists.
(** [Vec<Vec<u8>>] *)
Context `{!Serde (list bytes)}.

(** The empty JSON array is inserted before the old value is parsed. *)
Definition append (label key value : bytes) : m () :=
  let storage_key := build_key_from_vec label key in
  modify (fun values => match values !! storage_key with Some _ => values | None => <[storage_key := str_bytes "[]"]> values end);;
  values ← get;
  list_bytes ← unwrap (values !! storage_key);
  list ← or_fail (from_slice list_bytes);
  modify (<[storage_key := []]>);;
  new_bytes ← or_fail (to_vec (list ++ [value]));
  modify (<[storage_key := new_bytes]>).

Definition remove_first (value : bytes) (l : list bytes) : list bytes :=
  match list_find (fun stored_item => stored_item = value) l with
  | Some (pos, _) => base.delete pos l
  | None => l
  end.

Definition remove_item (label key value : bytes) : m () :=
  let storage_key := build_key_from_vec label key in
  modify (fun values => match values !! storage_key with Some _ => values | None => <[storage_key := str_bytes "[]"]> values end);;
  values ← get;
  list_bytes ← unwrap (values !! storage_key);
  list ← or_fail (from_slice list_bytes);
  modify (<[storage_key := []]>);;
  new_bytes ← or_fail (to_vec (remove_first value list));
  modify (<[storage_key := new_bytes]>).

Fixpoint from_slices {V} `{!Serde V} (l : list bytes) : option (list V) :=
  match l with
  | [] => Some []
  | b :: l => x ← from_slice b; xs ← from_slices l; Some (x :: xs)
  end.

Definition read_list {V} `{!Serde V} (label key : bytes) : m (list V) :=
  values ← get;
  value ← (match values !! build_key_from_vec label key with
           | Some list_bytes => unwrap (from_slice list_bytes)
           | None => mret []
           end);
  or_fail (from_slices value).

End Lists.

Definition read {V} `{!Serde V} (label key : bytes) : m (option V) :=
  values ← get;
  match values !! build_key_from_vec label key with
  | Some value => v ← or_fail (from_slice value); mret (Some v)
  | None => mret None
  end.

(** The getters that parse with [unwrap]. *)
Definition read_unwrap {V} `{!Serde V} (label key : bytes) : m (option V) :=
  values ← get;
  match values !! build_key_from_vec label key with
  | Some value => v ← unwrap (from_slice value); mret (Some v)
  | None => mret None
  end.

Section Entities.
Context {K V : Type} `{!Serde K} `{!Serde V}.

(** Writers that encode with [unwrap] or with [?]. *)
Definition put_unwrap (label : bytes) (key : K) (value : V) : m () :=
  k ← unwrap (to_vec key); v ← unwrap (to_vec value); write label k v.
Definition put (label : bytes) (key : K) (value : V) : m () :=
  k ← or_fail (to_vec key); v ← or_fail (to_vec value); write label k v.

(** *** Public group *)
Definition write_tree : K -> V -> m () := put_unwrap TREE_LABEL.
Definition write_interim_transcript_hash : K -> V -> m () := put_unwrap INTERIM_TRANSCRIPT_HASH_LABEL.
Definition write_context : K -> V -> m () := put_unwrap GROUP_CONTEXT_LABEL.
Definition write_confirmation_tag : K -> V -> m () := put_unwrap CONFIRMATION_TAG_LABEL.
Definition tree (group_id : K) : m (option V) := k ← unwrap (to_vec group_id); read_unwrap TREE_LABEL k.
Definition group_context (group_id : K) : m (option V) := k ← unwrap (to_vec group_id); read_unwrap GROUP_CONTEXT_LABEL k.
Definition interim_transcript_hash (group_id : K) : m (option V) :=
  k ← unwrap (to_vec group_id); read_unwrap INTERIM_TRANSCRIPT_HASH_LABEL k.
Definition confirmation_tag (group_id : K) : m (option V) := k ← unwrap (to_vec group_id); read_unwrap CONFIRMATION_TAG_LABEL k.
Definition delete_tree (group_id : K) : m () := k ← unwrap (to_vec group_id); delete TREE_LABEL k.
Definition delete_confirmation_tag (group_id : K) : m () := k ← unwrap (to_vec group_id); delete CONFIRMATION_TAG_LABEL k.
Definition delete_context (group_id : K) : m () := k ← unwrap (to_vec group_id); delete GROUP_CONTEXT_LABEL k.
Definition delete_interim_transcript_hash (group_id : K) : m () := k ← unwrap (to_vec group_id); delete INTERIM_TRANSCRIPT_HASH_LABEL k.

(** *** Keys *)
Definition write_signature_key_pair : K -> V -> m () := put_unwrap SIGNATURE_KEY_PAIR_LABEL.
Definition signature_key_pair (public_key : K) : m (option V) := k ← unwrap (to_vec public_key); read_unwrap SIGNATURE_KEY_PAIR_LABEL k.
Definition delete_signature_key_pair (public_key : K) : m () := k ← unwrap (to_vec public_key); delete SIGNATURE_KEY_PAIR_LABEL k.
Definition write_key_package : K -> V -> m () := put_unwrap KEY_PACKAGE_LABEL.
Definition key_package (hash_ref : K) : m (option V) := k ← unwrap (to_vec hash_ref); read KEY_PACKAGE_LABEL k.
Definition delete_key_package (hash_ref : K) : m () := k ← or_fail (to_vec hash_ref); delete KEY_PACKAGE_LABEL k.
Definition write_psk : K -> V -> m () := put_unwrap PSK_LABEL.
Definition psk (psk_id : K) : m (option V) := k ← unwrap (to_vec psk_id); read PSK_LABEL k.
Definition delete_psk (psk_id : K) : m () := k ← or_fail (to_vec psk_id); delete PSK_LABEL k.
Definition write_encryption_key_pair : K -> V -> m () := put_unwrap ENCRYPTION_KEY_PAIR_LABEL.
Definition encryption_key_pair (public_key : K) : m (option V) := k ← unwrap (to_vec public_key); read ENCRYPTION_KEY_PAIR_LABEL k.
Definition delete_encryption_key_pair (public_key : K) : m () := k ← unwrap (to_vec public_key); delete ENCRYPTION_KEY_PAIR_LABEL k.

(** *** Group *)
Definition write_group_state : K -> V -> m () := put GROUP_STATE_LABEL.
Definition group_state (group_id : K) : m (option V) := k ← or_fail (to_vec group_id); read GROUP_STATE_LABEL k.
Definition delete_group_state (group_id : K) : m () := k ← or_fail (to_vec group_id); delete GROUP_STATE_LABEL k.
Definition write_message_secrets : K -> V -> m () := put MESSAGE_SECRETS_LABEL.
Definition message_secrets (group_id : K) : m (option V) := k ← or_fail (to_vec group_id); read MESSAGE_SECRETS_LABEL k.
Definition delete_message_secrets (group_id : K) : m () := k ← or_fail (to_vec group_id); delete MESSAGE_SECRETS_LABEL k.
Definition write_resumption_psk_store : K -> V -> m () := put RESUMPTION_PSK_STORE_LABEL.
Definition resumption_psk_store (group_id : K) : m (option V) := k ← or_fail (to_vec group_id); read RESUMPTION_PSK_STORE_LABEL k.
Definition delete_all_resumption_psk_secrets (group_id : K) : m () := k ← or_fail (to_vec group_id); delete RESUMPTION_PSK_STORE_LABEL k.
Definition write_own_leaf_index : K -> V -> m () := put OWN_LEAF_NODE_INDEX_LABEL.
Definition own_leaf_index (group_id : K) : m (option V) := k ← or_fail (to_vec group_id); read OWN_LEAF_NODE_INDEX_LABEL k.
Definition delete_own_leaf_index (group_id : K) : m () := k ← or_fail (to_vec group_id); delete OWN_LEAF_NODE_INDEX_LABEL k.
Definition write_group_epoch_secrets : K -> V -> m () := put EPOCH_SECRETS_LABEL.
Definition group_epoch_secrets (group_id : K) : m (option V) := k ← or_fail (to_vec group_id); read EPOCH_SECRETS_LABEL k.
Definition delete_group_epoch_secrets (group_id : K) : m () := k ← or_fail (to_vec group_id); delete EPOCH_SECRETS_LABEL k.
Definition write_mls_join_config : K -> V -> m () := put_unwrap JOIN_CONFIG_LABEL.
Definition mls_group_join_config (group_id : K) : m (option V) := k ← unwrap (to_vec group_id); read JOIN_CONFIG_LABEL k.
Definition delete_group_config (group_id : K) : m () := k ← unwrap (to_vec group_id); delete JOIN_CONFIG_LABEL k.

End Entities.

Section OwnLeafNodes.
Context {K V : Type} `{!Serde K} `{!Serde V} `{!Serde (list bytes)}.

Definition own_leaf_nodes (group_id : K) : m (list V) := k ← unwrap (to_vec group_id); read_list OWN_LEAF_NODES_LABEL k.
Definition append_own_leaf_node (group_id : K) (leaf_node : V) : m () :=
  k ← or_fail (to_vec group_id); v ← or_fail (to_vec leaf_node); append OWN_LEAF_NODES_LABEL k v.
Definition delete_own_leaf_nodes (group_id : K) : m () := k ← unwrap (to_vec group_id); delete OWN_LEAF_NODES_LABEL k.

End OwnLeafNodes.

Section EpochKeyPairs.
Context {K Epoch Pair : Type} `{!Serde K} `{!Serde Epoch} `{!Serde Z} `{!Serde (list Pair)}.

(** The encodings of the three parts, one after the other. *)
Definition epoch_key_pairs_id (group_id : K) (epoch : Epoch) (leaf_index : Z) : m bytes :=
  g ← or_fail (to_vec group_id); e ← or_fail (to_vec epoch); l ← or_fail (to_vec leaf_index); mret (g ++ e ++ l).

Definition write_encryption_epoch_key_pairs (group_id : K) (epoch : Epoch) (leaf_index : Z) (key_pairs : list Pair) : m () :=
  key ← epoch_key_pairs_id group_id epoch leaf_index;
  value ← or_fail (to_vec key_pairs);
  write EPOCH_KEY_PAIRS_LABEL key value.

Definition encryption_epoch_key_pairs (group_id : K) (epoch : Epoch) (leaf_index : Z) : m (list Pair) :=
  key ← epoch_key_pairs_id group_id epoch leaf_index;
  values ← get;
  match values !! build_key_from_vec EPOCH_KEY_PAIRS_LABEL key with
  | Some value => unwrap (from_slice value)
  | None => mret []
  end.

Definition delete_encryption_epoch_key_pairs (group_id : K) (epoch : Epoch) (leaf_index : Z) : m () :=
  key ← epoch_key_pairs_id group_id epoch leaf_index;
  delete EPOCH_KEY_PAIRS_LABEL key.

End EpochKeyPairs.

(** *** Proposal queue *)

Section ProposalQueue.
Context {K Ref P : Type} `{!Serde K} `{!Serde Ref} `{!Serde P} `{!Serde (K * Ref)} `{!Serde (list bytes)}.

Definition queue_proposal (group_id : K) (proposal_ref : Ref) (proposal : P) : m () :=
  key ← or_fail (to_vec (group_id, proposal_ref));
  value ← or_fail (to_vec proposal);
  write QUEUED_PROPOSAL_LABEL key value;;
  key ← or_fail (to_vec group_id);
  value ← or_fail (to_vec proposal_ref);
  append PROPOSAL_QUEUE_REFS_LABEL key value.

Definition queued_proposal_refs (group_id : K) : m (list Ref) :=
  k ← or_fail (to_vec group_id); read_list PROPOSAL_QUEUE_REFS_LABEL k.

Fixpoint read_proposals (group_id : K) (refs : list Ref) : m (list (Ref * P)) :=
  match refs with
  | [] => mret []
  | proposal_ref :: refs =>
    key ← or_fail (to_vec (group_id, proposal_ref));
    found ← read QUEUED_PROPOSAL_LABEL key;
    proposal ← unwrap found;
    rest ← read_proposals group_id refs;
    mret ((proposal_ref, proposal) :: rest)
  end.

Definition queued_proposals (group_id : K) : m (list (Ref * P)) :=
  k ← or_fail (to_vec group_id);
  refs ← read_list PROPOSAL_QUEUE_REFS_LABEL k;
  read_proposals group_id refs.

(** The key that is removed has neither label nor version. *)
Fixpoint remove_refs (group_id : K) (refs : list Ref) : m () :=
  match refs with
  | [] => mret tt
  | proposal_ref :: refs =>
    key ← or_fail (to_vec (group_id, proposal_ref));
    modify (base.delete key);;
    remove_refs group_id refs
  end.

Definition clear_proposal_queue (group_id : K) : m () :=
  k ← or_fail (to_vec group_id);
  proposal_refs ← read_list PROPOSAL_QUEUE_REFS_LABEL k;
  remove_refs group_id proposal_refs;;
  k ← unwrap (to_vec group_id);
  delete PROPOSAL_QUEUE_REFS_LABEL k.

Definition remove_proposal (group_id : K) (proposal_ref : Ref) : m () :=
  key ← unwrap (to_vec group_id);
  value ← unwrap (to_vec proposal_ref);
  remove_item PROPOSAL_QUEUE_REFS_LABEL key value;;
  key ← unwrap (to_vec (group_id, proposal_ref));
  delete QUEUED_PROPOSAL_LABEL key.

End ProposalQueue.

End Memory.

(** ** Lemmas *)

Definition starts_with (p l : bytes) : bool := bool_decide (take (length p) l = p).

(** No label is the beginning of another one. *)
Lemma labels_prefix_free l1 l2 : l1 ∈ labels -> l2 ∈ labels -> starts_with l1 l2 = true -> l1 = l2.
Proof.
  intros H1 H2 Hp.
  assert (H : forallb (fun l1 => forallb (fun l2 => implb (starts_with l1 l2) (bool_decide (l1 = l2))) labels) labels = true) by (vm_compute; reflexivity).
  rewrite forallb_forall in H. specialize (H l1 (proj1 (list_elem_of_In _ _) H1)). rewrite forallb_forall in H.
  specialize (H l2 (proj1 (list_elem_of_In _ _) H2)). rewrite Hp in H. by apply bool_decide_eq_true in H.
Qed.

Lemma starts_with_app (p k l k' : bytes) : p ++ k = l ++ k' -> starts_with p l = true \/ starts_with l p = true.
Proof.
  intros E. unfold starts_with. rewrite !bool_decide_eq_true. destruct (Nat.le_ge_cases (length p) (length l)) as [Hle|Hle]; [left|right].
  - rewrite <- (take_app_le l k') by done. rewrite <- E. by rewrite take_app_length.
  - rewrite <- (take_app_le p k) by done. rewrite E. by rewrite take_app_length.
Qed.

(** A storage key determines its label and its key. *)
Lemma build_key_inj l1 l2 k1 k2 : l1 ∈ labels -> l2 ∈ labels ->
  build_key_from_vec l1 k1 = build_key_from_vec l2 k2 -> l1 = l2 /\ k1 = k2.
Proof.
  intros H1 H2 E. unfold build_key_from_vec in E.
  assert (l1 = l2) as ->.
  { destruct (starts_with_app _ _ _ _ E); [by apply labels_prefix_free|]. symmetry. by apply labels_prefix_free. }
  split; [done|]. apply app_inv_head in E. by apply app_inv_tail in E.
Qed.

Lemma to_vec_inj {A} `{!Serde A} `{!SerdeLaws A} (x y : A) b : to_vec x = Some b -> to_vec y = Some b -> x = y.
Proof.
  intros Hx Hy. destruct (to_vec_ok x) as (b1 & E1 & R1). destruct (to_vec_ok y) as (b2 & E2 & R2). congruence.
Qed.

Lemma from_to {A} `{!Serde A} `{!SerdeLaws A} (x : A) b : to_vec x = Some b -> from_slice b = Some x.
Proof. intros Hx. destruct (to_vec_ok x) as (b1 & E1 & R1). congruence. Qed.

Definition encode {A} `{!Serde A} (x : A) : bytes := default [] (to_vec x).

Lemma to_vec_encode {A} `{!Serde A} `{!SerdeLaws A} (x : A) : to_vec x = Some (encode x).
Proof. unfold encode. by destruct (to_vec_ok x) as (b & -> & _). Qed.

Lemma from_slice_encode {A} `{!Serde A} `{!SerdeLaws A} (x : A) : from_slice (encode x) = Some x.
Proof. apply from_to, to_vec_encode. Qed.

Lemma encode_inj {A} `{!Serde A} `{!SerdeLaws A} (x y : A) : encode x = encode y -> x = y.
Proof. intros E. apply (to_vec_inj x y (encode x)); rewrite to_vec_encode; congruence. Qed.

(** The entry of an entity. *)
Definition entry {K} `{!Serde K} (label : bytes) (key : K) : bytes := build_key_from_vec label (encode key).

Lemma entry_inj {K} `{!Serde K} `{!SerdeLaws K} l (k1 k2 : K) : l ∈ labels -> entry l k1 = entry l k2 -> k1 = k2.
Proof. intros Hl E. apply build_key_inj in E as [_ E]; [|done..]. by apply encode_inj. Qed.

Lemma entry_label {K K'} `{!Serde K} `{!Serde K'} l l' (k : K) (k' : K') : l ∈ labels -> l' ∈ labels -> l <> l' -> entry l k <> entry l' k'.
Proof. intros Hl Hl' Hne E. by apply build_key_inj in E as [? _]. Qed.

Section EntityLemmas.
Context {K V : Type} `{!Serde K} `{!SerdeLaws K} `{!Serde V} `{!SerdeLaws V}.

Lemma put_spec l (k : K) (v : V) s : Memory.put l k v s = (Ok tt, <[entry l k := encode v]> s).
Proof. unfold Memory.put, or_fail, Memory.write. run. by rewrite !to_vec_encode. Qed.

Lemma put_unwrap_spec l (k : K) (v : V) s : Memory.put_unwrap l k v s = (Ok tt, <[entry l k := encode v]> s).
Proof. unfold Memory.put_unwrap, unwrap, Memory.write. run. by rewrite !to_vec_encode. Qed.

(** What an entry holds. *)
Definition holds (s : MemoryStorage) (l : bytes) (k : K) (o : option V) : Prop := s !! entry l k = encode <$> o.

Lemma read_spec l (k : K) (o : option V) s : holds s l k o -> Memory.read l (encode k) s = (Ok o, s).
Proof.
  intros E. unfold holds, entry in E. unfold Memory.read, or_fail. run. rewrite E. destruct o as [v|]; [|done]. cbn. by rewrite from_slice_encode.
Qed.

Lemma read_unwrap_spec l (k : K) (o : option V) s : holds s l k o -> Memory.read_unwrap l (encode k) s = (Ok o, s).
Proof.
  intros E. unfold holds, entry in E. unfold Memory.read_unwrap, unwrap. run. rewrite E. destruct o as [v|]; [|done]. cbn. by rewrite from_slice_encode.
Qed.

End EntityLemmas.

(** Documented shapes of JSON: the empty array and arrays for tuples. *)
Class JsonArrays (K Ref : Type) `{!Serde (list bytes)} `{!Serde (K * Ref)} : Prop := {
  empty_array : from_slice (str_bytes "[]") = Some ([] : list bytes);
  tuple_array (x : K * Ref) b : to_vec x = Some b -> head b = Some 91
}.

Section Queue.
Context {K Ref P : Type} `{!Serde K} `{!SerdeLaws K} `{!Serde Ref} `{!SerdeLaws Ref} `{!EqDecision K} `{!EqDecision Ref} `{!Serde P} `{!SerdeLaws P}.
Context `{!Serde (list bytes)} `{!SerdeLaws (list bytes)} `{!Serde (K * Ref)} `{!SerdeLaws (K * Ref)} `{!JsonArrays K Ref}.

Definition stored_list (s : MemoryStorage) (key : bytes) (l : list bytes) : Prop :=
  match s !! key with Some b => from_slice b = Some l | None => l = [] end.

Lemma append_spec s label key value l : stored_list s (build_key_from_vec label key) l ->
  Memory.append label key value s = (Ok tt, <[build_key_from_vec label key := encode (l ++ [value])]> s).
Proof.
  unfold stored_list, Memory.append, unwrap, or_fail. run. set (k := build_key_from_vec label key).
  destruct (s !! k) as [b|] eqn:E.
  - intros Hl. rewrite E. run. rewrite Hl, to_vec_encode. f_equal. apply insert_insert_eq.
  - intros ->. etrans; [rewrite lookup_insert_eq; run; rewrite empty_array, to_vec_encode; reflexivity|]. f_equal.
    etrans; [apply insert_insert_eq|apply insert_insert_eq].
Qed.

Lemma remove_item_spec s label key value l : stored_list s (build_key_from_vec label key) l ->
  Memory.remove_item label key value s = (Ok tt, <[build_key_from_vec label key := encode (Memory.remove_first value l)]> s).
Proof.
  unfold stored_list, Memory.remove_item, unwrap, or_fail. run. set (k := build_key_from_vec label key).
  destruct (s !! k) as [b|] eqn:E.
  - intros Hl. rewrite E. run. rewrite Hl, to_vec_encode. f_equal. apply insert_insert_eq.
  - intros ->. etrans; [rewrite lookup_insert_eq; run; rewrite empty_array, to_vec_encode; reflexivity|]. f_equal.
    etrans; [apply insert_insert_eq|apply insert_insert_eq].
Qed.

Lemma from_slices_encode {A} `{!Serde A} `{!SerdeLaws A} (l : list A) : Memory.from_slices (map encode l) = Some l.
Proof. induction l as [|x l IH]; [done|]. cbn. by rewrite from_slice_encode, IH. Qed.

Lemma read_list_spec {A} `{!Serde A} `{!SerdeLaws A} s label key (l : list A) :
  stored_list s (build_key_from_vec label key) (map encode l) -> Memory.read_list label key s = (Ok l, s).
Proof.
  unfold stored_list, Memory.read_list, unwrap, or_fail. run. destruct (s !! _) as [b|].
  - intros ->. by rewrite from_slices_encode.
  - intros E. destruct l; [done|discriminate].
Qed.

Lemma remove_first_spec (r : Ref) (l : list (Ref * P)) : NoDup l.*1 ->
  Memory.remove_first (encode r) (map encode l.*1) = map encode (List.filter (fun x => bool_decide (x.1 <> r)) l).*1.
Proof.
  unfold Memory.remove_first. induction l as [|[r' p] l IH]; [done|]. rewrite !fmap_cons. intros [Hn Hd]%NoDup_cons.
  cbn [map list_find fst] in *. destruct (decide (encode r' = encode r)) as [E|E].
  - apply encode_inj in E as ->. cbn [List.filter fst]. rewrite bool_decide_false by tauto.
    assert (Hf : forall x, x ∈ l -> bool_decide (x.1 <> r) = true).
    { intros x Hx. apply bool_decide_eq_true. intros <-. apply Hn. by apply (list_elem_of_fmap_2 fst). }
    change (map encode l.*1 = map encode (List.filter (fun x => bool_decide (x.1 <> r)) l).*1). do 2 f_equal.
    clear -Hf. induction l as [|x l IH]; [done|]. cbn [List.filter]. rewrite (Hf x) by (by left). f_equal. apply IH. intros y Hy. apply Hf. by right.
  - specialize (IH Hd). cbn [List.filter fst]. rewrite bool_decide_true by (intros ->; done). rewrite fmap_cons. cbn [map fst]. rewrite <- IH.
    by destruct (list_find _ _) as [[pos x]|].
Qed.

(** The queue of a group: the references in the order they were queued, each with its proposal. *)
Record queue_holds (s : MemoryStorage) (g : K) (l : list (Ref * P)) : Prop := {
  qh_distinct : NoDup l.*1;
  qh_refs : stored_list s (entry PROPOSAL_QUEUE_REFS_LABEL g) (map encode l.*1);
  qh_proposals r p : (r, p) ∈ l -> s !! entry QUEUED_PROPOSAL_LABEL (g, r) = Some (encode p)
}.

Lemma queued_label : QUEUED_PROPOSAL_LABEL ∈ labels.
Proof. unfold labels. set_solver. Qed.
Lemma refs_label : PROPOSAL_QUEUE_REFS_LABEL ∈ labels.
Proof. unfold labels. set_solver. Qed.

Lemma queued_refs_differ (x : K * Ref) (g : K) : entry QUEUED_PROPOSAL_LABEL x <> entry PROPOSAL_QUEUE_REFS_LABEL g.
Proof. apply entry_label; [apply queued_label|apply refs_label|discriminate]. Qed.

Lemma read_proposals_spec s (g : K) (l : list (Ref * P)) : (forall r p, (r, p) ∈ l -> s !! entry QUEUED_PROPOSAL_LABEL (g, r) = Some (encode p)) ->
  Memory.read_proposals g l.*1 s = (Ok l, s).
Proof.
  induction l as [|[r p] l IH]; intros Hp; [done|]. cbn [fmap list_fmap Memory.read_proposals fst]. unfold or_fail at 1, unwrap at 1. run.
  rewrite to_vec_encode. rewrite (read_spec QUEUED_PROPOSAL_LABEL (g, r) (Some p)) by (apply Hp; by left).
  rewrite IH; [done|]. intros r' p' Hin. apply Hp. by right.
Qed.

Lemma queued_proposals_spec s (g : K) (l : list (Ref * P)) : queue_holds s g l -> Memory.queued_proposals g s = (Ok l, s).
Proof.
  intros [_ Hr Hp]. unfold Memory.queued_proposals, or_fail. run. rewrite to_vec_encode, (read_list_spec s _ _ l.*1) by done.
  by apply read_proposals_spec.
Qed.

Lemma queue_proposal_spec s (g : K) (l : list (Ref * P)) r p : queue_holds s g l -> r ∉ l.*1 ->
  exists s', Memory.queue_proposal g r p s = (Ok tt, s') /\ queue_holds s' g (l ++ [(r, p)]) /\
    forall k, k <> entry QUEUED_PROPOSAL_LABEL (g, r) -> k <> entry PROPOSAL_QUEUE_REFS_LABEL g -> s' !! k = s !! k.
Proof.
  intros [Hd Hr Hp] Hn. unfold Memory.queue_proposal, or_fail, Memory.write. run. rewrite !to_vec_encode.
  set (s1 := <[build_key_from_vec QUEUED_PROPOSAL_LABEL (encode (g, r)) := encode p]> s).
  assert (Hs1 : stored_list s1 (build_key_from_vec PROPOSAL_QUEUE_REFS_LABEL (encode g)) (map encode l.*1)).
  { unfold stored_list, s1. rewrite lookup_insert_ne; [exact Hr|apply queued_refs_differ]. }
  rewrite (append_spec s1 _ _ _ _ Hs1). eexists. split; [done|]. split.
  - split.
    + rewrite fmap_app. apply NoDup_app. split_and!; [done| |apply NoDup_singleton]. by intros x Hx ->%list_elem_of_singleton.
    + unfold stored_list. rewrite lookup_insert_eq. rewrite from_slice_encode, fmap_app, map_app. done.
    + intros r' p' Hin. rewrite lookup_insert_ne by (apply not_eq_sym, queued_refs_differ). unfold s1.
      apply elem_of_app in Hin as [Hin|Hin].
      * rewrite lookup_insert_ne; [by apply Hp|]. intros [_ [= ->]%encode_inj]%build_key_inj; [|apply queued_label..].
        apply Hn. by apply (list_elem_of_fmap_2 fst _ (r', p')).
      * apply list_elem_of_singleton in Hin as [= -> ->]. by rewrite lookup_insert_eq.
  - intros k Hk1 Hk2. unfold s1. by rewrite !lookup_insert_ne by (by apply not_eq_sym).
Qed.

Lemma remove_proposal_spec s (g : K) (l : list (Ref * P)) r : queue_holds s g l ->
  exists s', Memory.remove_proposal g r s = (Ok tt, s') /\ queue_holds s' g (List.filter (fun x => bool_decide (x.1 <> r)) l) /\
    forall k, k <> entry QUEUED_PROPOSAL_LABEL (g, r) -> k <> entry PROPOSAL_QUEUE_REFS_LABEL g -> s' !! k = s !! k.
Proof.
  intros [Hd Hr Hp]. unfold Memory.remove_proposal, unwrap, Memory.delete. run. rewrite !to_vec_encode.
  rewrite (remove_item_spec s _ _ _ (map encode l.*1)), remove_first_spec by done. eexists. split; [done|]. split.
  - split.
    + clear -Hd. induction l as [|[r' p] l IH]; [done|]. rewrite fmap_cons in Hd. apply NoDup_cons in Hd as [Hn Hd]. cbn [List.filter fst].
      case_bool_decide; [|by apply IH]. rewrite fmap_cons. apply NoDup_cons. split; [|by apply IH]. intros ([r1 p1] & E & Hin)%list_elem_of_fmap.
      cbn in E. subst r1. apply list_elem_of_In, filter_In in Hin as [Hin _]. apply Hn. apply list_elem_of_In in Hin. by apply (list_elem_of_fmap_2 fst _ (r', p1)).
    + unfold stored_list. rewrite lookup_delete_ne by apply queued_refs_differ. by rewrite lookup_insert_eq, from_slice_encode.
    + intros r' p' Hin. apply list_elem_of_In, filter_In in Hin as [Hin Hne%bool_decide_eq_true]. apply list_elem_of_In in Hin.
      rewrite lookup_delete_ne, lookup_insert_ne; [by apply Hp|apply not_eq_sym, queued_refs_differ|].
      intros [_ [= ->]%encode_inj]%build_key_inj; [done|apply queued_label..].
  - intros k Hk1 Hk2. by rewrite lookup_delete_ne, lookup_insert_ne by (by apply not_eq_sym).
Qed.

Lemma entry_head label key : label ∈ labels -> head (build_key_from_vec label key) <> Some 91.
Proof.
  intros Hl. assert (H : forallb (fun l => match l with x :: _ => negb (x =? 91) | [] => false end) labels = true) by reflexivity.
  rewrite forallb_forall in H. specialize (H label (proj1 (list_elem_of_In _ _) Hl)). destruct label as [|x label]; [done|].
  cbn. apply negb_true_iff, Z.eqb_neq in H. congruence.
Qed.

Lemma remove_refs_spec s (g : K) (refs : list Ref) : exists s', Memory.remove_refs g refs s = (Ok tt, s') /\
  forall k, head k <> Some 91 -> s' !! k = s !! k.
Proof.
  revert s. induction refs as [|r refs IH]; intros s; [by exists s|]. cbn [Memory.remove_refs]. unfold or_fail at 1. run.
  rewrite to_vec_encode. destruct (IH (base.delete (encode (g, r)) s)) as (s' & E & Hk). exists s'. split; [exact E|].
  intros k Hh. rewrite Hk by done. apply lookup_delete_ne. intros <-. apply Hh, (tuple_array (g, r)), to_vec_encode.
Qed.

Lemma clear_proposal_queue_spec s (g : K) (l : list (Ref * P)) : queue_holds s g l ->
  exists s', Memory.clear_proposal_queue (Ref := Ref) g s = (Ok tt, s') /\ queue_holds s' g ([] : list (Ref * P)) /\
    forall label key, label ∈ labels -> build_key_from_vec label key <> entry PROPOSAL_QUEUE_REFS_LABEL g ->
      s' !! build_key_from_vec label key = s !! build_key_from_vec label key.
Proof.
  intros [_ Hr _]. unfold Memory.clear_proposal_queue, or_fail, unwrap, Memory.delete. run. rewrite to_vec_encode.
  rewrite (read_list_spec s _ _ l.*1) by done. destruct (remove_refs_spec s g l.*1) as (s1 & -> & Hk).
  eexists. split; [done|]. split.
  - split; [constructor| |by intros ?? ?%not_elem_of_nil]. unfold stored_list. by rewrite lookup_delete_eq.
  - intros label key Hl Hne. rewrite lookup_delete_ne by (by apply not_eq_sym). apply Hk. by apply entry_head.
Qed.

(** The queues of the other groups stay as they are. *)
Lemma other_queues s s' (g g' : K) (l : list (Ref * P)) : g' <> g ->
  (forall label key, label ∈ labels -> build_key_from_vec label key <> entry PROPOSAL_QUEUE_REFS_LABEL g ->
     (forall r, build_key_from_vec label key <> entry QUEUED_PROPOSAL_LABEL (g, r)) ->
     s' !! build_key_from_vec label key = s !! build_key_from_vec label key) ->
  queue_holds s g' l -> queue_holds s' g' l.
Proof.
  intros Hne Hk [Hd Hr Hp]. split; [done| |].
  - unfold stored_list, entry in *. rewrite Hk; [done|apply refs_label| |].
    + intros E. apply Hne, (entry_inj PROPOSAL_QUEUE_REFS_LABEL); [apply refs_label|exact E].
    + intros r E. by apply (queued_refs_differ (g, r) g').
  - intros r p Hin. unfold entry in *. rewrite Hk; [by apply Hp|apply queued_label|apply queued_refs_differ|].
    intros r' E. apply (entry_inj QUEUED_PROPOSAL_LABEL) in E; [congruence|apply queued_label].
Qed.

(** ** Theorems *)

(** C38: the store keeps, for each group, a queue of proposals with different references
    in the order they were queued: [queued_proposals] returns it, [queue_proposal]
    appends a proposal with a new reference (a repeated one overwrites the entry), [remove_proposal] removes one, [clear_proposal_queue]
    empties it, and none of them touches the queue of another group.  Clearing
    does not delete the proposals themselves: it removes keys without label and
    version, and their entries stay in the store. *)
Theorem proposal_queue_correct s (g : K) (l : list (Ref * P)) r p : queue_holds s g l ->
  Memory.queued_proposals g s = (Ok l, s) /\
  (r ∉ l.*1 -> exists s', Memory.queue_proposal g r p s = (Ok tt, s') /\ queue_holds s' g (l ++ [(r, p)]) /\
     forall g' (l' : list (Ref * P)), g' <> g -> queue_holds s g' l' -> queue_holds s' g' l') /\
  (exists s', Memory.remove_proposal g r s = (Ok tt, s') /\ queue_holds s' g (List.filter (fun x => bool_decide (x.1 <> r)) l) /\
     forall g' (l' : list (Ref * P)), g' <> g -> queue_holds s g' l' -> queue_holds s' g' l') /\
  (exists s', Memory.clear_proposal_queue (Ref := Ref) g s = (Ok tt, s') /\ queue_holds s' g ([] : list (Ref * P)) /\
     (forall g' (l' : list (Ref * P)), g' <> g -> queue_holds s g' l' -> queue_holds s' g' l') /\
     forall r p, (r, p) ∈ l -> s' !! entry QUEUED_PROPOSAL_LABEL (g, r) = Some (encode p)).
Proof.
  intros Hq. split; [by apply queued_proposals_spec|]. split; [|split].
  - intros Hn. destruct (queue_proposal_spec s g l r p Hq Hn) as (s' & E & Hq' & Hk). exists s'. split_and!; [done..|].
    intros g' l' Hne. apply (other_queues s s' g g'); [done|]. intros label key _ Hl1 Hl2. by apply Hk.
  - destruct (remove_proposal_spec s g l r Hq) as (s' & E & Hq' & Hk). exists s'. split_and!; [done..|].
    intros g' l' Hne. apply (other_queues s s' g g'); [done|]. intros label key _ Hl1 Hl2. by apply Hk.
  - destruct (clear_proposal_queue_spec s g l Hq) as (s' & E & Hq' & Hk). exists s'. split_and!; [done..| |].
    + intros g' l' Hne. apply (other_queues s s' g g'); [done|]. intros label key Hlab Hl1 _. by apply Hk.
    + intros r' p' Hin. unfold entry in *. rewrite Hk; [by apply (qh_proposals _ _ _ Hq)|apply queued_label|apply queued_refs_differ].
Qed.

End Queue.

(** Every entity can be read back: after writing a value under a label and a
    key, by either kind of writer, both kinds of getters return it for that key and
    what they returned before for every other key and every other label; after
    deleting it they return nothing. *)
Theorem entities_read_back {K V} `{!Serde K} `{!SerdeLaws K} `{!EqDecision K} `{!Serde V} `{!SerdeLaws V} s l (k : K) (v : V) :
  l ∈ labels ->
  exists s', Memory.put l k v s = (Ok tt, s') /\ Memory.put_unwrap l k v s = (Ok tt, s') /\
    Memory.read l (encode k) s' = (Ok (Some v), s') /\ Memory.read_unwrap l (encode k) s' = (Ok (Some v), s') /\
    (forall k', k' <> k -> (Memory.read (V := V) l (encode k') s').1 = (Memory.read l (encode k') s).1) /\
    (forall l' key (V' : Type) (H : Serde V'), l' ∈ labels -> l' <> l ->
       (Memory.read (V := V') l' key s').1 = (Memory.read l' key s).1 /\
       (Memory.read_unwrap (V := V') l' key s').1 = (Memory.read_unwrap l' key s).1) /\
    exists s'', Memory.delete l (encode k) s' = (Ok tt, s'') /\ Memory.read (V := V) l (encode k) s'' = (Ok None, s'').
Proof.
  intros Hl. exists (<[entry l k := encode v]> s). split_and!; [apply put_spec|apply put_unwrap_spec| | | | |].
  - apply (read_spec l k (Some v)). unfold holds. by rewrite lookup_insert_eq.
  - apply (read_unwrap_spec l k (Some v)). unfold holds. by rewrite lookup_insert_eq.
  - intros k' Hne. unfold Memory.read. run. change (build_key_from_vec l (encode k')) with (entry l k').
    rewrite lookup_insert_ne by (intros E; apply entry_inj in E; [by apply Hne|done]). by destruct (s !! entry l k') as [b|]; [destruct (from_slice b)|].
  - intros l' key V' H' Hl' Hne. unfold Memory.read, Memory.read_unwrap, unwrap, or_fail. run.
    rewrite lookup_insert_ne by (unfold entry; intros E; apply build_key_inj in E as [? _]; [by apply Hne|done|done]).
    by destruct (s !! build_key_from_vec l' key) as [b|]; [destruct (from_slice b)|].
  - eexists. split; [done|]. apply (read_spec l k None). unfold holds, entry. by rewrite lookup_delete_eq.
Qed.

(** ** Key pairs of epochs *)

(** The digits of an unsigned integer; 20 suffice for 64 bits. *)
Fixpoint decimal_digits (fuel : nat) (n : Z) : bytes :=
  match fuel with
  | O => []
  | S fuel => if n <? 10 then [48 + n] else decimal_digits fuel (n / 10) ++ [48 + n mod 10]
  end.
Definition decimal (n : Z) : bytes := decimal_digits 20 n.

(** JSON writes an integer with its digits. *)
Class DecimalIntegers `{!Serde Z} : Prop := { json_decimal n : 0 <= n < 2 ^ 64 -> to_vec n = Some (decimal n) }.

Section EpochKeys.
Context {K Pair : Type} `{!Serde K} `{!SerdeLaws K} `{!Serde Z} `{!SerdeLaws Z} `{!Serde (list Pair)} `{!SerdeLaws (list Pair)}.

Definition epoch_entry (g : K) (e i : Z) : bytes := build_key_from_vec EPOCH_KEY_PAIRS_LABEL (encode g ++ encode e ++ encode i).

Lemma write_epoch_keys_spec (g : K) (e i : Z) (ps : list Pair) s :
  Memory.write_encryption_epoch_key_pairs g e i ps s = (Ok tt, <[epoch_entry g e i := encode ps]> s).
Proof. unfold Memory.write_encryption_epoch_key_pairs, Memory.epoch_key_pairs_id, or_fail, Memory.write. run. by rewrite !to_vec_encode. Qed.

Lemma read_epoch_keys_spec (g : K) (e i : Z) (o : option (list Pair)) s : s !! epoch_entry g e i = encode <$> o ->
  Memory.encryption_epoch_key_pairs g e i s = (Ok (default [] o), s).
Proof.
  unfold epoch_entry. intros E. unfold Memory.encryption_epoch_key_pairs, Memory.epoch_key_pairs_id, or_fail, unwrap. run.
  rewrite !to_vec_encode, E. destruct o as [ps|]; [|done]. cbn. by rewrite from_slice_encode.
Qed.

(** The key pairs a member stores for an epoch are read back and do not disturb
    those it stored for its other epochs.  But epoch and leaf index are written one
    after the other without a separator: the pairs of leaf 12 in epoch 1 and of
    leaf 2 in epoch 11 share an entry, and the later write replaces the earlier. *)
Theorem epoch_key_pairs_collide `{!DecimalIntegers} (g : K) (ps ps' : list Pair) s :
  (forall e e' i : Z, e <> e' -> exists s1 s2,
     Memory.write_encryption_epoch_key_pairs g e i ps s = (Ok tt, s1) /\
     Memory.write_encryption_epoch_key_pairs g e' i ps' s1 = (Ok tt, s2) /\
     Memory.encryption_epoch_key_pairs g e i s2 = (Ok ps, s2) /\
     Memory.encryption_epoch_key_pairs g e' i s2 = (Ok ps', s2)) /\
  exists s1 s2,
    Memory.write_encryption_epoch_key_pairs g 1 12 ps s = (Ok tt, s1) /\
    Memory.write_encryption_epoch_key_pairs g 11 2 ps' s1 = (Ok tt, s2) /\
    Memory.encryption_epoch_key_pairs g 1 12 s2 = (Ok ps', s2).
Proof.
  split.
  - intros e e' i Hne. eexists _, _. split_and!; [apply write_epoch_keys_spec|apply write_epoch_keys_spec|..].
    + apply (read_epoch_keys_spec g e i (Some ps)). rewrite lookup_insert_ne; [by rewrite lookup_insert_eq|].
      intros [_ E%app_inv_head%app_inv_tail]%build_key_inj; [|known_label..]. by apply Hne, encode_inj.
    + apply (read_epoch_keys_spec g e' i (Some ps')). by rewrite lookup_insert_eq.
  - assert (E : epoch_entry g 11 2 = epoch_entry g 1 12).
    { unfold epoch_entry, encode. rewrite !json_decimal by lia. done. }
    eexists _, _. split_and!; [apply write_epoch_keys_spec|apply write_epoch_keys_spec|].
    apply (read_epoch_keys_spec g 1 12 (Some ps')). by rewrite E, lookup_insert_eq.
Qed.

End EpochKeys.

(** ** Witnesses *)

(** A toy encoding: a marker and the number of the value in an enumeration of its type. *)
Definition toy_serde (A : Type) `{Countable A} : Serde A := {|
  to_vec x := Some [91; 0; Z.pos (countable.encode x)];
  from_slice b := match b with [91; 0; Z.pos p] => countable.decode p | _ => None end
|}.

Lemma toy_serde_laws (A : Type) `{Countable A} : @SerdeLaws A (toy_serde A).
Proof. split. intros x. eexists. split; [done|]. cbn. apply countable.decode_encode. Qed.

(** The same with the empty array of JSON. *)
Definition toy_serde_lists : Serde (list bytes) := {|
  to_vec l := Some (match l with [] => [91; 93] | _ => [91; 0; Z.pos (countable.encode l)] end);
  from_slice b := match b with [91; 93] => Some [] | [91; 0; Z.pos p] => countable.decode p | _ => None end
|}.

Lemma toy_serde_lists_laws : @SerdeLaws (list bytes) toy_serde_lists.
Proof. split. intros [|b l]; eexists; (split; [done|]); cbn; [done|]. apply countable.decode_encode. Qed.

(** Integers with their digits. *)
Definition digits_value (b : bytes) : Z := foldl (fun n d => 10 * n + (d - 48)) 0 b.

Lemma decimal_digits_spec fuel n : 0 <= n < 10 ^ Z.of_nat (S fuel) ->
  digits_value (decimal_digits (S fuel) n) = n /\ exists d l, decimal_digits (S fuel) n = d :: l /\ 48 <= d <= 57.
Proof.
  revert n. induction fuel as [|fuel IH]; intros n Hn; cbn [decimal_digits].
  - change (10 ^ Z.of_nat 1) with 10 in Hn. rewrite (proj2 (Z.ltb_lt _ _)) by lia. unfold digits_value. cbn. split; [lia|]. eexists _, _. split; [done|lia].
  - destruct (Z.ltb_spec n 10); [unfold digits_value; cbn; split; [lia|]; eexists _, _; split; [done|lia]|].
    destruct (IH (n / 10)) as [Ev (d & l & Ed & Hd)].
    { split; [apply Z.div_pos; lia|]. apply Z.div_lt_upper_bound; [lia|]. 
      rewrite (Nat2Z.inj_succ (S fuel)), Z.pow_succ_r in Hn by lia. lia. }
    cbn [decimal_digits] in Ev, Ed. rewrite Ed in Ev |- *. split; [|by exists d, (l ++ [48 + n mod 10])].
    unfold digits_value in *. rewrite foldl_app, Ev. cbn. pose proof (Z.div_mod n 10). lia.
Qed.

Definition toy_integers : Serde Z := {|
  to_vec n := Some (if (0 <=? n) && (n <? 2 ^ 64) then decimal n else [91; 0; Z.pos (countable.encode n)]);
  from_slice b := match b with [91; 0; Z.pos p] => countable.decode p | _ => Some (digits_value b) end
|}.

Lemma toy_integers_laws : @SerdeLaws Z toy_integers.
Proof.
  split. intros n. eexists. split; [done|]. cbn [from_slice toy_integers].
  destruct (Z.leb_spec 0 n), (Z.ltb_spec n (2 ^ 64)); cbn [andb]; try apply countable.decode_encode.
  destruct (decimal_digits_spec 19 n ltac:(lia)) as [Ev (d & l & Ed & Hd)]. unfold decimal. rewrite Ed in Ev |- *. rewrite Ev.
  by repeat (case_match; try lia).
Qed.

Lemma toy_decimal : @DecimalIntegers toy_integers.
Proof. split. intros n Hn. cbn. by rewrite (proj2 (Z.leb_le _ _)), (proj2 (Z.ltb_lt _ _)) by lia. Qed.

Lemma epoch_key_pairs_collide_witness :
  exists s, (@Memory.encryption_epoch_key_pairs Z Z Z (toy_serde Z) toy_integers toy_integers (toy_serde (list Z)) 7 1 12 s).1 = Ok [20].
Proof.
  destruct (@epoch_key_pairs_collide Z Z (toy_serde Z) (toy_serde_laws Z) toy_integers toy_integers_laws (toy_serde (list Z))
    (toy_serde_laws (list Z)) toy_decimal 7 [10] [20] ∅) as (_ & s1 & s2 & _ & _ & E).
  exists s2. exact (f_equal fst E).
Defined.

Lemma toy_json_arrays : @JsonArrays Z Z toy_serde_lists (toy_serde (Z * Z)).
Proof. split; [done|]. intros x b [= <-]. done. Qed.

Lemma proposal_queue_correct_witness :
  exists s, @Memory.queue_proposal Z Z Z (toy_serde Z) (toy_serde Z) (toy_serde Z) (toy_serde (Z * Z)) toy_serde_lists 7 1 10 ∅ = (Ok tt, s) /\
    @Memory.queued_proposals Z Z Z (toy_serde Z) (toy_serde Z) (toy_serde Z) (toy_serde (Z * Z)) toy_serde_lists 7 s = (Ok [(1, 10)], s).
Proof.
  pose proof (@proposal_queue_correct Z Z Z (toy_serde Z) (toy_serde_laws Z) (toy_serde Z) (toy_serde_laws Z) _ (toy_serde Z) (toy_serde_laws Z)
    toy_serde_lists toy_serde_lists_laws (toy_serde (Z * Z)) (toy_serde_laws (Z * Z)) toy_json_arrays ∅ 7 [] 1 10) as H.
  destruct H as (_ & H & _).
  - split; [constructor|by vm_compute|]. intros r p []%not_elem_of_nil.
  - destruct H as (s & E & Hq & _); [apply not_elem_of_nil|]. exists s. split; [exact E|].
    apply (@queued_proposals_spec Z Z Z (toy_serde Z) (toy_serde_laws Z) (toy_serde Z) (toy_serde_laws Z) (toy_serde Z) (toy_serde_laws Z)
      toy_serde_lists (toy_serde (Z * Z)) (toy_serde_laws (Z * Z))). exact Hq.
Defined.

Lemma entities_read_back_witness :
  exists s, @Memory.put Z Z (toy_serde Z) (toy_serde Z) TREE_LABEL 7 10 ∅ = (Ok tt, s) /\
    (@Memory.read Z (toy_serde Z) TREE_LABEL (@encode Z (toy_serde Z) 7) s).1 = Ok (Some 10).
Proof.
  destruct (@entities_read_back Z Z (toy_serde Z) (toy_serde_laws Z) _ (toy_serde Z) (toy_serde_laws Z) ∅ TREE_LABEL 7 10)
    as (s & E & _ & Er & _).
  - unfold labels. set_solver.
  - exists s. split; [exact E|]. by rewrite Er.
Defined.
