(* ===== verification/NullStorage.v ===== *)
(** * The storage provider that keeps less

    Models [provider/null_storage_provider.rs] of the emulated client, an alternative
    to the memory storage for runs that are not resumed: it drops the three large
    entities that are rewritten all the time, the tree, the group state and the
    message secrets, and does not remove single proposals.  Everything else it stores
    as the memory storage does, with the same labels and keys; the private helpers of
    the two files are the same code.

    The theorem makes this precise: a program that uses the storage without reading
    the three entities gets the same answers from both, and the null store is the
    memory store with the entries of the three left out. *)

From Stdlib Require Import String.
From S2P Require Import Prelude Crypto Storage.

Module Null.

Abbreviation m := Memory.m.

(** ** Helpers *)

Definition write : bytes -> bytes -> bytes -> m () := Memory.write.
Definition append `{!Serde (list bytes)} : bytes -> bytes -> bytes -> m () := Memory.append.
Definition read {V} `{!Serde V} : bytes -> bytes -> m (option V) := Memory.read.
Definition read_list {V} `{!Serde (list bytes)} `{!Serde V} : bytes -> bytes -> m (list V) := Memory.read_list.
Definition delete : bytes -> bytes -> m () := Memory.delete.

Section Entities.
Context {K V : Type} `{!Serde K} `{!Serde V}.

(** [values.insert(build_key(label, key), to_vec(value).unwrap())] *)
Definition insert_unwrap (label : bytes) (key : K) (value : V) : m () :=
  k ← unwrap (to_vec key); v ← unwrap (to_vec value); modify (<[build_key_from_vec label k := v]>).
(** the getters of the public group, which parse with [unwrap] *)
Definition get_unwrap (label : bytes) (key : K) : m (option V) :=
  values ← get;
  k ← unwrap (to_vec key);
  match values !! build_key_from_vec label k with
  | Some value => v ← unwrap (from_slice value); mret (Some v)
  | None => mret None
  end.

(** ** Public group *)
Definition write_tree (group_id : K) (tree : V) : m () := mret tt.
Definition write_interim_transcript_hash : K -> V -> m () := insert_unwrap INTERIM_TRANSCRIPT_HASH_LABEL.
Definition write_context : K -> V -> m () := insert_unwrap GROUP_CONTEXT_LABEL.
Definition write_confirmation_tag : K -> V -> m () := insert_unwrap CONFIRMATION_TAG_LABEL.
Definition tree : K -> m (option V) := get_unwrap TREE_LABEL.
Definition group_context : K -> m (option V) := get_unwrap GROUP_CONTEXT_LABEL.
Definition interim_transcript_hash : K -> m (option V) := get_unwrap INTERIM_TRANSCRIPT_HASH_LABEL.
Definition confirmation_tag : K -> m (option V) := get_unwrap CONFIRMATION_TAG_LABEL.
Definition delete_tree (group_id : K) : m () := k ← unwrap (to_vec group_id); delete TREE_LABEL k.
Definition delete_confirmation_tag (group_id : K) : m () := k ← unwrap (to_vec group_id); delete CONFIRMATION_TAG_LABEL k.
Definition delete_context (group_id : K) : m () := k ← unwrap (to_vec group_id); delete GROUP_CONTEXT_LABEL k.
Definition delete_interim_transcript_hash (group_id : K) : m () := k ← unwrap (to_vec group_id); delete INTERIM_TRANSCRIPT_HASH_LABEL k.

(** ** Keys *)
Definition write_signature_key_pair : K -> V -> m () := insert_unwrap SIGNATURE_KEY_PAIR_LABEL.
Definition signature_key_pair : K -> m (option V) := get_unwrap SIGNATURE_KEY_PAIR_LABEL.
Definition delete_signature_key_pair (public_key : K) : m () := k ← unwrap (to_vec public_key); delete SIGNATURE_KEY_PAIR_LABEL k.
Definition write_key_package (hash_ref : K) (key_package : V) : m () :=
  key ← unwrap (to_vec hash_ref); value ← unwrap (to_vec key_package); write KEY_PACKAGE_LABEL key value.
Definition key_package (hash_ref : K) : m (option V) := key ← unwrap (to_vec hash_ref); read KEY_PACKAGE_LABEL key.
Definition delete_key_package (hash_ref : K) : m () := k ← or_fail (to_vec hash_ref); delete KEY_PACKAGE_LABEL k.
Definition write_psk (psk_id : K) (psk : V) : m () := k ← unwrap (to_vec psk_id); v ← unwrap (to_vec psk); write PSK_LABEL k v.
Definition psk (psk_id : K) : m (option V) := k ← unwrap (to_vec psk_id); read PSK_LABEL k.
Definition delete_psk (psk_id : K) : m () := k ← or_fail (to_vec psk_id); delete PSK_LABEL k.
Definition write_encryption_key_pair (public_key : K) (key_pair : V) : m () :=
  k ← unwrap (to_vec public_key); v ← unwrap (to_vec key_pair); write ENCRYPTION_KEY_PAIR_LABEL k v.
Definition encryption_key_pair (public_key : K) : m (option V) := k ← unwrap (to_vec public_key); read ENCRYPTION_KEY_PAIR_LABEL k.
Definition delete_encryption_key_pair (public_key : K) : m () := k ← unwrap (to_vec public_key); delete ENCRYPTION_KEY_PAIR_LABEL k.

(** ** Group *)
Definition write_group_state (group_id : K) (group_state : V) : m () := mret tt.
Definition group_state (group_id : K) : m (option V) := k ← or_fail (to_vec group_id); read GROUP_STATE_LABEL k.
Definition delete_group_state (group_id : K) : m () := k ← or_fail (to_vec group_id); delete GROUP_STATE_LABEL k.
Definition write_message_secrets (group_id : K) (message_secrets : V) : m () := mret tt.
Definition message_secrets (group_id : K) : m (option V) := k ← or_fail (to_vec group_id); read MESSAGE_SECRETS_LABEL k.
Definition delete_message_secrets (group_id : K) : m () := k ← or_fail (to_vec group_id); delete MESSAGE_SECRETS_LABEL k.
Definition write_resumption_psk_store (group_id : K) (resumption_psk_store : V) : m () :=
  k ← or_fail (to_vec group_id); v ← or_fail (to_vec resumption_psk_store); write RESUMPTION_PSK_STORE_LABEL k v.
Definition resumption_psk_store (group_id : K) : m (option V) := k ← or_fail (to_vec group_id); read RESUMPTION_PSK_STORE_LABEL k.
Definition delete_all_resumption_psk_secrets (group_id : K) : m () := k ← or_fail (to_vec group_id); delete RESUMPTION_PSK_STORE_LABEL k.
Definition write_own_leaf_index (group_id : K) (own_leaf_index : V) : m () :=
  k ← or_fail (to_vec group_id); v ← or_fail (to_vec own_leaf_index); write OWN_LEAF_NODE_INDEX_LABEL k v.
Definition own_leaf_index (group_id : K) : m (option V) := k ← or_fail (to_vec group_id); read OWN_LEAF_NODE_INDEX_LABEL k.
Definition delete_own_leaf_index (group_id : K) : m () := k ← or_fail (to_vec group_id); delete OWN_LEAF_NODE_INDEX_LABEL k.
Definition write_group_epoch_secrets (group_id : K) (group_epoch_secrets : V) : m () :=
  k ← or_fail (to_vec group_id); v ← or_fail (to_vec group_epoch_secrets); write EPOCH_SECRETS_LABEL k v.
Definition group_epoch_secrets (group_id : K) : m (option V) := k ← or_fail (to_vec group_id); read EPOCH_SECRETS_LABEL k.
Definition delete_group_epoch_secrets (group_id : K) : m () := k ← or_fail (to_vec group_id); delete EPOCH_SECRETS_LABEL k.
Definition write_mls_join_config (group_id : K) (config : V) : m () :=
  key ← unwrap (to_vec group_id); value ← unwrap (to_vec config); write JOIN_CONFIG_LABEL key value.
Definition mls_group_join_config (group_id : K) : m (option V) := k ← unwrap (to_vec group_id); read JOIN_CONFIG_LABEL k.
Definition delete_group_config (group_id : K) : m () := k ← unwrap (to_vec group_id); delete JOIN_CONFIG_LABEL k.

End Entities.

Section OwnLeafNodes.
Context {K V : Type} `{!Serde K} `{!Serde V} `{!Serde (list bytes)}.

Definition own_leaf_nodes (group_id : K) : m (list V) := k ← unwrap (to_vec group_id); read_list OWN_LEAF_NODES_LABEL k.
Definition append_own_leaf_node (group_id : K) (leaf_node : V) : m () :=
  key ← or_fail (to_vec group_id); value ← or_fail (to_vec leaf_node); append OWN_LEAF_NODES_LABEL key value.
Definition delete_own_leaf_nodes (group_id : K) : m () := k ← unwrap (to_vec group_id); delete OWN_LEAF_NODES_LABEL k.

End OwnLeafNodes.

Section EpochKeyPairs.
Context {K Epoch Pair : Type} `{!Serde K} `{!Serde Epoch} `{!Serde Z} `{!Serde (list Pair)}.

Definition epoch_key_pairs_id (group_id : K) (epoch : Epoch) (leaf_index : Z) : m bytes :=
  g ← or_fail (to_vec group_id); e ← or_fail (to_vec epoch); l ← or_fail (to_vec leaf_index); mret (g ++ e ++ l).

Definition write_encryption_epoch_key_pairs (group_id : K) (epoch : Epoch) (leaf_index : Z) (key_pairs : list Pair) : m () :=
  key ← epoch_key_pairs_id group_id epoch leaf_index;
  value ← or_fail (to_vec key_pairs);
  write EPOCH_KEY_PAIRS_LABEL key value.

Definition encryption_epoch_key_pairs (group_id : K) (epoch : Epoch) (leaf_index : Z) : m (list Pair) :=
  key ← epoch_key_pairs_id group_id epoch leaf_index;
  values ← get;
  match values !! build_key_from_vec EPOCH_KEY_PAIRS_LABEL key with
  | Some value => unwrap (from_slice value)
  | None => mret []
  end.

Definition delete_encryption_epoch_key_pairs (group_id : K) (epoch : Epoch) (leaf_index : Z) : m () :=
  key ← epoch_key_pairs_id group_id epoch leaf_index;
  delete EPOCH_KEY_PAIRS_LABEL key.

End EpochKeyPairs.

(** ** Proposal queue *)

Section ProposalQueue.
Context {K Ref P : Type} `{!Serde K} `{!Serde Ref} `{!Serde P} `{!Serde (K * Ref)} `{!Serde (list bytes)}.

Definition queue_proposal (group_id : K) (proposal_ref : Ref) (proposal : P) : m () :=
  key ← or_fail (to_vec (group_id, proposal_ref));
  value ← or_fail (to_vec proposal);
  write QUEUED_PROPOSAL_LABEL key value;;
  key ← or_fail (to_vec group_id);
  value ← or_fail (to_vec proposal_ref);
  append PROPOSAL_QUEUE_REFS_LABEL key value.

Definition queued_proposal_refs (group_id : K) : m (list Ref) :=
  k ← or_fail (to_vec group_id); read_list PROPOSAL_QUEUE_REFS_LABEL k.

Fixpoint read_proposals (group_id : K) (refs : list Ref) : m (list (Ref * P)) :=
  match refs with
  | [] => mret []
  | proposal_ref :: refs =>
    key ← or_fail (to_vec (group_id, proposal_ref));
    found ← read QUEUED_PROPOSAL_LABEL key;
    proposal ← unwrap found;
    rest ← read_proposals group_id refs;
    mret ((proposal_ref, proposal) :: rest)
  end.

Definition queued_proposals (group_id : K) : m (list (Ref * P)) :=
  k ← or_fail (to_vec group_id);
  refs ← read_list PROPOSAL_QUEUE_REFS_LABEL k;
  read_proposals group_id refs.

(** The loop of [clear_proposal_queue]; as in the memory storage the key has neither
    label nor version. *)
Fixpoint remove_refs (group_id : K) (refs : list Ref) : m () :=
  match refs with
  | [] => mret tt
  | proposal_ref :: refs =>
    key ← or_fail (to_vec (group_id, proposal_ref));
    modify (base.delete key);;
    remove_refs group_id refs
  end.

Definition clear_proposal_queue (group_id : K) : m () :=
  k ← or_fail (to_vec group_id);
  proposal_refs ← read_list PROPOSAL_QUEUE_REFS_LABEL k;
  remove_refs group_id proposal_refs;;
  k ← unwrap (to_vec group_id);
  modify (base.delete (build_key_from_vec PROPOSAL_QUEUE_REFS_LABEL k)).

Definition remove_proposal (group_id : K) (proposal_ref : Ref) : m () := mret tt.

End ProposalQueue.

End Null.

(** ** The two providers side by side *)

(** The labels under which the null storage holds nothing *)
Definition dropped_labels : list bytes := [TREE_LABEL; GROUP_STATE_LABEL; MESSAGE_SECRETS_LABEL].
Definition dropped (key : bytes) : bool := existsb (fun l => starts_with l key) dropped_labels.

(** The memory store without the entries under these labels *)
Definition forget (s : MemoryStorage) : MemoryStorage := filter (fun kv => dropped kv.1 = false) s.

(** The second does to the forgotten store what the first does to the store, with the
    same outcome. *)
Definition tracks {A} (c d : Memory.m A) : Prop := forall s, d (forget s) = ((c s).1, forget (c s).2).

(** Programs over the storage that do not read a tree, a group state or message secrets
    and do not remove single proposals, written for the memory storage and for the
    null storage *)
Inductive ported : forall A : Type, Memory.m A -> Memory.m A -> Prop :=
| ported_ret A (x : A) : ported A (mret x) (mret x)
| ported_fail A e : ported A (fail e) (fail e)
| ported_bind A B (c d : Memory.m A) (f g : A -> Memory.m B) : ported A c d -> (forall x, ported B (f x) (g x)) -> ported B (c ≫= f) (d ≫= g)
| ported_write_tree K V `{!Serde K} `{!SerdeLaws K} `{!Serde V} `{!SerdeLaws V} (k : K) (v : V) : ported () (Memory.write_tree k v) (Null.write_tree k v)
| ported_write_group_state K V `{!Serde K} `{!SerdeLaws K} `{!Serde V} `{!SerdeLaws V} (k : K) (v : V) : ported () (Memory.write_group_state k v) (Null.write_group_state k v)
| ported_write_message_secrets K V `{!Serde K} `{!SerdeLaws K} `{!Serde V} `{!SerdeLaws V} (k : K) (v : V) :
    ported () (Memory.write_message_secrets k v) (Null.write_message_secrets k v)
| ported_write K V `{!Serde K} `{!Serde V} (k : K) (v : V) c d :
    (c, d) ∈ [(Memory.write_interim_transcript_hash k v, Null.write_interim_transcript_hash k v); (Memory.write_context k v, Null.write_context k v);
      (Memory.write_confirmation_tag k v, Null.write_confirmation_tag k v); (Memory.write_signature_key_pair k v, Null.write_signature_key_pair k v);
      (Memory.write_key_package k v, Null.write_key_package k v); (Memory.write_psk k v, Null.write_psk k v);
      (Memory.write_encryption_key_pair k v, Null.write_encryption_key_pair k v); (Memory.write_resumption_psk_store k v, Null.write_resumption_psk_store k v);
      (Memory.write_own_leaf_index k v, Null.write_own_leaf_index k v); (Memory.write_group_epoch_secrets k v, Null.write_group_epoch_secrets k v);
      (Memory.write_mls_join_config k v, Null.write_mls_join_config k v)] -> ported () c d
| ported_read K V `{!Serde K} `{!Serde V} (k : K) c d :
    (c, d) ∈ [(Memory.group_context k, Null.group_context k); (Memory.interim_transcript_hash k, Null.interim_transcript_hash k);
      (Memory.confirmation_tag k, Null.confirmation_tag k); (Memory.signature_key_pair k, Null.signature_key_pair k);
      (Memory.key_package k, Null.key_package k); (Memory.psk k, Null.psk k); (Memory.encryption_key_pair k, Null.encryption_key_pair k);
      (Memory.resumption_psk_store k, Null.resumption_psk_store k); (Memory.own_leaf_index k, Null.own_leaf_index k);
      (Memory.group_epoch_secrets k, Null.group_epoch_secrets k); (Memory.mls_group_join_config k, Null.mls_group_join_config k)] ->
    ported (option V) c d
| ported_delete K `{!Serde K} (k : K) c d :
    (c, d) ∈ [(Memory.delete_tree k, Null.delete_tree k); (Memory.delete_confirmation_tag k, Null.delete_confirmation_tag k);
      (Memory.delete_context k, Null.delete_context k); (Memory.delete_interim_transcript_hash k, Null.delete_interim_transcript_hash k);
      (Memory.delete_signature_key_pair k, Null.delete_signature_key_pair k); (Memory.delete_key_package k, Null.delete_key_package k);
      (Memory.delete_psk k, Null.delete_psk k); (Memory.delete_encryption_key_pair k, Null.delete_encryption_key_pair k);
      (Memory.delete_group_state k, Null.delete_group_state k); (Memory.delete_message_secrets k, Null.delete_message_secrets k);
      (Memory.delete_all_resumption_psk_secrets k, Null.delete_all_resumption_psk_secrets k); (Memory.delete_own_leaf_index k, Null.delete_own_leaf_index k);
      (Memory.delete_group_epoch_secrets k, Null.delete_group_epoch_secrets k); (Memory.delete_group_config k, Null.delete_group_config k);
      (Memory.delete_own_leaf_nodes k, Null.delete_own_leaf_nodes k)] -> ported () c d
| ported_leaf_nodes K V `{!Serde K} `{!Serde V} `{!Serde (list bytes)} (k : K) : ported (list V) (Memory.own_leaf_nodes k) (Null.own_leaf_nodes k)
| ported_append_leaf K V `{!Serde K} `{!Serde V} `{!Serde (list bytes)} (k : K) (v : V) : ported () (Memory.append_own_leaf_node k v) (Null.append_own_leaf_node k v)
| ported_write_epoch_keys K E P `{!Serde K} `{!Serde E} `{!Serde Z} `{!Serde (list P)} (k : K) (e : E) i (ps : list P) :
    ported () (Memory.write_encryption_epoch_key_pairs k e i ps) (Null.write_encryption_epoch_key_pairs k e i ps)
| ported_epoch_keys K E P `{!Serde K} `{!Serde E} `{!Serde Z} `{!Serde (list P)} (k : K) (e : E) i :
    ported (list P) (Memory.encryption_epoch_key_pairs k e i) (Null.encryption_epoch_key_pairs k e i)
| ported_delete_epoch_keys K E `{!Serde K} `{!Serde E} `{!Serde Z} (k : K) (e : E) i :
    ported () (Memory.delete_encryption_epoch_key_pairs k e i) (Null.delete_encryption_epoch_key_pairs k e i)
| ported_queue K R P `{!Serde K} `{!Serde R} `{!Serde P} `{!Serde (K * R)} `{!Serde (list bytes)} (k : K) (r : R) (p : P) :
    ported () (Memory.queue_proposal k r p) (Null.queue_proposal k r p)
| ported_refs K R `{!Serde K} `{!Serde R} `{!Serde (list bytes)} (k : K) : ported (list R) (Memory.queued_proposal_refs k) (Null.queued_proposal_refs k)
| ported_proposals K R P `{!Serde K} `{!Serde R} `{!Serde P} `{!Serde (K * R)} `{!Serde (list bytes)} (k : K) :
    ported (list (R * P)) (Memory.queued_proposals k) (Null.queued_proposals k)
| ported_clear K R `{!Serde K} `{!Serde R} `{!Serde (K * R)} `{!Serde (list bytes)} (k : K) :
    ported () (Memory.clear_proposal_queue (Ref := R) k) (Null.clear_proposal_queue (Ref := R) k).

(** ** Lemmas *)

Lemma dropped_key l k : l ∈ labels -> dropped (build_key_from_vec l k) = bool_decide (l ∈ dropped_labels).
Proof.
  intros Hl. assert (forall l', l' ∈ labels -> starts_with l' (build_key_from_vec l k) = bool_decide (l' = l)) as Hs.
  { intros l' Hl'. destruct (bool_decide_reflect (l' = l)) as [->|Hne].
    - unfold starts_with, build_key_from_vec. apply bool_decide_eq_true. by rewrite take_app_length.
    - apply not_true_is_false. intros Hp. apply Hne. unfold starts_with, build_key_from_vec in Hp. apply bool_decide_eq_true in Hp.
      assert (Hx : l' ++ drop (length l') (l ++ k ++ u16_be_bytes CURRENT_VERSION) = l ++ k ++ u16_be_bytes CURRENT_VERSION).
      { rewrite <- Hp at 1. apply take_drop. }
      destruct (starts_with_app _ _ _ _ Hx); [by apply labels_prefix_free|]. symmetry. by apply labels_prefix_free. }
  unfold dropped, dropped_labels. cbn [existsb]. rewrite !Hs by known_label.
  repeat case_bool_decide; subst; cbn; first [done|set_solver].
Qed.

Lemma lookup_forget s k : dropped k = false -> forget s !! k = s !! k.
Proof.
  intros Hk. unfold forget. destruct (s !! k) as [v|] eqn:E.
  - by apply map_lookup_filter_Some_2.
  - by apply map_lookup_filter_None_2; left.
Qed.

Lemma forget_insert s k v : dropped k = false -> forget (<[k := v]> s) = <[k := v]> (forget s).
Proof. intros Hk. unfold forget. by rewrite map_filter_insert_True. Qed.

Lemma forget_dropped s k v : dropped k = true -> forget (<[k := v]> s) = forget s.
Proof.
  intros Hk. unfold forget. apply map_eq. intros k'. apply option_eq. intros x. rewrite !map_lookup_filter_Some. cbn [fst].
  destruct (decide (k' = k)) as [->|Hne]; [|by rewrite lookup_insert_ne by done]. split; intros [_ E]; congruence.
Qed.

Lemma forget_delete s k : forget (base.delete k s) = base.delete k (forget s).
Proof. unfold forget. apply map_filter_delete. Qed.

Lemma tracks_refl_lift {A} (o : outcome MemoryStorageError A) : tracks (lift o) (lift o).
Proof. by intros s. Qed.

Lemma tracks_bind {A B} (c d : Memory.m A) (f g : A -> Memory.m B) : tracks c d -> (forall x, tracks (f x) (g x)) -> tracks (c ≫= f) (d ≫= g).
Proof.
  intros Hc Hf s. unfold mbind, method_bind. rewrite Hc. destruct (c s) as [[x|e|] s1]; cbn [fst snd]; [|done..]. apply Hf.
Qed.

Lemma tracks_unwrap {A} (o : option A) : tracks (unwrap (E := MemoryStorageError) o) (unwrap o).
Proof. intros s. by destruct o. Qed.

Lemma tracks_or_fail {A} (o : option A) : tracks (or_fail o) (or_fail o).
Proof. apply tracks_refl_lift. Qed.

Lemma tracks_ret {A} (x : A) : tracks (mret x) (mret x).
Proof. by intros s. Qed.

Lemma tracks_insert k v : dropped k = false -> tracks (modify <[k := v]>) (modify <[k := v]>).
Proof. intros Hk s. unfold modify. cbn [fst snd]. by rewrite forget_insert. Qed.

Lemma tracks_delete k : tracks (modify (base.delete k)) (modify (base.delete k)).
Proof. intros s. unfold modify. cbn [fst snd]. by rewrite forget_delete. Qed.

(** What a program does with one entry it looks up *)
Lemma tracks_lookup {A} k (f g : option bytes -> Memory.m A) : dropped k = false -> (forall o, tracks (f o) (g o)) ->
  tracks (values ← get; f (values !! k)) (values ← get; g (values !! k)).
Proof. intros Hk Hf s. unfold mbind, method_bind, get. rewrite lookup_forget by done. apply Hf. Qed.

Create HintDb tracks.
#[export] Hint Resolve tracks_refl_lift tracks_unwrap tracks_or_fail tracks_ret tracks_delete : tracks.

Definition kept (l : bytes) : Prop := l ∈ labels /\ l ∉ dropped_labels.

Lemma kept_key l k : kept l -> dropped (build_key_from_vec l k) = false.
Proof. intros [Hl Hd]. rewrite dropped_key by done. by apply bool_decide_eq_false. Qed.

Lemma tracks_write l k v : kept l -> tracks (Memory.write l k v) (Memory.write l k v).
Proof. intros Hl. by apply tracks_insert, kept_key. Qed.

Lemma tracks_read {V} `{!Serde V} l k : kept l -> tracks (Memory.read (V := V) l k) (Memory.read l k).
Proof.
  intros Hl. unfold Memory.read.
  apply (tracks_lookup _ (fun o => match o with Some value => v ← or_fail (from_slice value); mret (Some v) | None => mret None end)
    (fun o => match o with Some value => v ← or_fail (from_slice value); mret (Some v) | None => mret None end)); [by apply kept_key|].
  intros [b|]; [|apply tracks_ret]. apply tracks_bind; auto with tracks.
Qed.

Lemma tracks_read_unwrap {V} `{!Serde V} l k : kept l -> tracks (Memory.read_unwrap (V := V) l k) (Memory.read_unwrap l k).
Proof.
  intros Hl. unfold Memory.read_unwrap.
  apply (tracks_lookup _ (fun o => match o with Some value => v ← unwrap (from_slice value); mret (Some v) | None => mret None end)
    (fun o => match o with Some value => v ← unwrap (from_slice value); mret (Some v) | None => mret None end)); [by apply kept_key|].
  intros [b|]; [|apply tracks_ret]. apply tracks_bind; auto with tracks.
Qed.

Lemma tracks_read_list {V} `{!Serde (list bytes)} `{!Serde V} l k : kept l -> tracks (Memory.read_list (V := V) l k) (Memory.read_list l k).
Proof.
  intros Hl s. unfold Memory.read_list. run. rewrite lookup_forget by (by apply kept_key). destruct (s !! _) as [b|]; cbn; [destruct (from_slice b); cbn|];
    by try destruct (Memory.from_slices _).
Qed.

Lemma tracks_append `{!Serde (list bytes)} l k v : kept l -> tracks (Memory.append l k v) (Memory.append l k v).
Proof.
  intros Hl. unfold Memory.append. apply tracks_bind.
  - intros s. unfold modify. cbn [fst snd]. rewrite lookup_forget by (by apply kept_key). destruct (s !! _); [done|]. by rewrite forget_insert by (by apply kept_key).
  - intros _. apply (tracks_lookup _ (fun o => list_bytes ← unwrap o; _) (fun o => list_bytes ← unwrap o; _)); [by apply kept_key|].
    intros o. repeat (apply tracks_bind; [auto with tracks; by apply tracks_insert, kept_key|intros ?]). by apply tracks_insert, kept_key.
Qed.

Lemma tracks_get {K V} `{!Serde K} `{!Serde V} l (key : K) : kept l -> tracks (k ← unwrap (to_vec key); Memory.read_unwrap (V := V) l k) (Null.get_unwrap l key).
Proof.
  intros Hl s. unfold Null.get_unwrap. destruct (to_vec key) as [k|]; [|done]. exact (tracks_read_unwrap (V := V) l k Hl s).
Qed.

Lemma kept_labels l : bool_decide (l ∈ labels) && bool_decide (l ∉ dropped_labels) = true -> kept l.
Proof. rewrite andb_true_iff, !bool_decide_eq_true. done. Qed.

Ltac kept := apply kept_labels; reflexivity.

Lemma tracks_read_proposals {K R P} `{!Serde K} `{!Serde R} `{!Serde P} `{!Serde (K * R)} (k : K) (refs : list R) :
  tracks (Memory.read_proposals (P := P) k refs) (Null.read_proposals k refs).
Proof.
  induction refs as [|r refs IH]; [apply tracks_ret|]. cbn [Memory.read_proposals Null.read_proposals].
  repeat (apply tracks_bind; [first [exact IH|apply tracks_read; kept|solve [auto with tracks]]|intros ?]). apply tracks_ret.
Qed.

Lemma tracks_remove_refs {K R} `{!Serde K} `{!Serde R} `{!Serde (K * R)} (k : K) (refs : list R) :
  tracks (Memory.remove_refs k refs) (Null.remove_refs k refs).
Proof.
  induction refs as [|r refs IH]; [apply tracks_ret|]. cbn [Memory.remove_refs Null.remove_refs].
  repeat (apply tracks_bind; [auto with tracks|intros ?]). exact IH.
Qed.

(** A dropped write *)
Lemma forget_entry {K} `{!Serde K} l (k : K) v s : l ∈ dropped_labels -> forget (<[entry l k := v]> s) = forget s.
Proof.
  intros Hd. apply forget_dropped. unfold entry. rewrite dropped_key; [by apply bool_decide_eq_true|]. unfold dropped_labels in Hd. unfold labels. set_solver.
Qed.

Lemma tracks_epoch_keys {K E P} `{!Serde K} `{!Serde E} `{!Serde Z} `{!Serde (list P)} (k : K) (e : E) i :
  tracks (Memory.encryption_epoch_key_pairs (Pair := P) k e i) (Null.encryption_epoch_key_pairs k e i).
Proof.
  apply tracks_bind; [repeat (apply tracks_bind; [auto with tracks|intros ?]); apply tracks_ret|]. intros key.
  apply (tracks_lookup _ (fun o => match o with Some value => unwrap (from_slice value) | None => mret [] end)
    (fun o => match o with Some value => unwrap (from_slice value) | None => mret [] end)); [apply kept_key; kept|].
  intros [b|]; auto with tracks.
Qed.

(** One step of a pair of operations of the two providers *)
Ltac track := first
  [ solve [auto with tracks] | apply tracks_write; kept | apply tracks_read; kept | apply tracks_read_unwrap; kept | apply tracks_read_list; kept
  | apply tracks_append; kept | apply tracks_read_proposals | apply tracks_remove_refs | apply tracks_delete
  | apply tracks_insert, kept_key; kept | apply tracks_get; kept
  | apply tracks_bind; [|intros ?] ].

Ltac each_pair H := repeat (apply elem_of_cons in H as [H|H]; [injection H as -> ->|]); [..|by apply not_elem_of_nil in H].

Lemma ported_tracks A (c d : Memory.m A) : ported A c d -> tracks c d.
Proof.
  induction 1 as [| |A B c d f g _ IH1 _ IH2|????????|????????|????????|?????? c d Hin|????? c d Hin|??? c d Hin|?|?|?|?|?|?|?|?|?].
  - apply tracks_ret.
  - by intros s.
  - by apply tracks_bind.
  - intros s. unfold Memory.write_tree. rewrite put_unwrap_spec. cbn [fst snd]. by rewrite forget_entry by (unfold dropped_labels; set_solver).
  - intros s. unfold Memory.write_group_state. rewrite put_spec. cbn [fst snd]. by rewrite forget_entry by (unfold dropped_labels; set_solver).
  - intros s. unfold Memory.write_message_secrets. rewrite put_spec. cbn [fst snd]. by rewrite forget_entry by (unfold dropped_labels; set_solver).
  - each_pair Hin; repeat track.
  - each_pair Hin; repeat track.
  - each_pair Hin; repeat track.
  - repeat track.
  - repeat track.
  - repeat track.
  - apply tracks_epoch_keys.
  - repeat track.
  - repeat track.
  - repeat track.
  - repeat track.
  - repeat track.
Qed.

(** Nothing is ever found under a label that is dropped. *)
Lemma forget_absent l k s : l ∈ dropped_labels -> forget s !! build_key_from_vec l k = None.
Proof.
  intros Hd. apply map_lookup_filter_None_2. right. intros v _ Hv. cbn [fst] in Hv. rewrite dropped_key, bool_decide_eq_false in Hv; [done|].
  unfold dropped_labels in Hd. unfold labels. set_solver.
Qed.

(** ** The theorem *)

(** C39: the null storage is the memory storage less what it drops: a program that stores,
    reads and deletes entities, without reading trees, group states or message
    secrets and without removing single proposals, ends with the same outcome on
    both, from an empty store, and the null store then holds what the memory store
    holds outside these three; a tree, a group state or message secrets are never
    found in it, so no group can be loaded from it. *)
Theorem null_storage_tracks_memory A (c d : Memory.m A) : ported A c d ->
  let '(o, s) := c ∅ in let '(o', s') := d ∅ in
  o' = o /\ s' = forget s /\
  forall K V (HK : Serde K) (HKL : SerdeLaws K) (HV : Serde V) (group_id : K),
    Null.tree (V := V) group_id s' = (Ok None, s') /\ Null.group_state (V := V) group_id s' = (Ok None, s') /\
    Null.message_secrets (V := V) group_id s' = (Ok None, s').
Proof.
  intros Hp. pose proof (ported_tracks _ _ _ Hp ∅) as Ht. destruct (c ∅) as [o s]. change (forget ∅) with (∅ : MemoryStorage) in Ht.
  destruct (d ∅) as [o' s']. injection Ht as -> ->. cbn [fst snd]. split_and!; [done..|]. intros K V HK HKL HV g.
  unfold Null.tree, Null.get_unwrap, Null.group_state, Null.message_secrets, Null.read, Memory.read, or_fail, unwrap. run. rewrite to_vec_encode.
  by rewrite !forget_absent by (unfold dropped_labels; set_solver).
Qed.

(** ** Witness *)

(** Writes the tree and the context of a group and reads the context *)
Definition sample_memory : Memory.m (option Z) :=
  @Memory.write_tree Z Z (toy_serde Z) (toy_serde Z) 7 1;; @Memory.write_context Z Z (toy_serde Z) (toy_serde Z) 7 2;;
  @Memory.group_context Z Z (toy_serde Z) (toy_serde Z) 7.
Definition sample_null : Memory.m (option Z) :=
  @Null.write_tree Z Z 7 1;; @Null.write_context Z Z (toy_serde Z) (toy_serde Z) 7 2;; @Null.group_context Z Z (toy_serde Z) (toy_serde Z) 7.

Lemma null_storage_tracks_memory_witness :
  (sample_null ∅).1 = Ok (Some 2) /\ (sample_null ∅).2 = forget (sample_memory ∅).2 /\ size (sample_memory ∅).2 = 2%nat /\ size (sample_null ∅).2 = 1%nat.
Proof.
  pose proof (null_storage_tracks_memory _ sample_memory sample_null) as H.
  destruct H as (_ & E & _).
  - unfold sample_memory, sample_null. apply ported_bind; [apply (@ported_write_tree Z Z (toy_serde Z) (toy_serde_laws Z) (toy_serde Z) (toy_serde_laws Z))|]. intros _.
    apply ported_bind; [apply (@ported_write Z Z (toy_serde Z) (toy_serde Z) 7 2); set_solver|]. intros _. apply (@ported_read Z Z (toy_serde Z) (toy_serde Z) 7). set_solver.
  - split; [vm_compute; reflexivity|]. split; [exact E|]. split; vm_compute; reflexivity.
Defined.
