(* ===== verification/Commits.v ===== *)
(** * Staging and merging commits

    Models [stage_diff], [stage_commit] and [merge_commit] of
    [group/public_group/staged_commit.rs] and the storage operations of
    [group/public_group/mod.rs] ([store], [load], [add_proposal],
    [remove_proposal]).  A public group is kept together with the key store of
    [Storage]; a member's own staged state is opaque here. *)

From Stdlib Require Import String.
From S2P Require Import Prelude TreeMath Crypto BinaryTree SecretTree LeafNodes Nodes TreeSyncDiff TreeHash UpdatePaths TreeKem TreeSync Proposals PublicGroup Validation Storage.

(** ** Staged commits *)

Record PublicStagedCommitState := mkPublicStagedCommitState {
  psc_staged_diff : StagedPublicGroupDiff;
  psc_update_path_leaf_node : option LeafNode
}.

(** [M] stands for [MemberStagedCommitState]. *)
Inductive StagedCommitState (M : Type) :=
| PublicState (s : PublicStagedCommitState)
| GroupMember (m : M).
Arguments PublicState {M}.
Arguments GroupMember {M}.

Record StagedCommit (M : Type) := mkStagedCommit {
  staged_proposal_queue : ProposalQueue;
  staged_state : StagedCommitState M
}.
Arguments mkStagedCommit {M}.
Arguments staged_proposal_queue {M}.
Arguments staged_state {M}.

Section Stage.
Context `{!TreeHashing} `{!TranscriptEncoding} `{!ProposalHashing}.

(** [stage_diff] on the diff it makes *)
Definition stage_diff_on (c : Ciphersuite) (m : AuthenticatedContent) (q : ProposalQueue) (sender_index : LeafNodeIndex) :
    method PublicGroupDiff StageCommitError StagedPublicGroupDiff :=
  apply_proposals_values ← lift_state StageLibraryError (apply_proposals q None);
  commit ← (match content_body (ac_content m) with BodyCommit commit => mret commit | _ => fail WrongPlaintextContentType end);
  (match commit_path commit with
   | Some update_path =>
     lift_state StageUpdatePathError (on_tree (apply_received_update_path c sender_index (public_part update_path)))
   | None => if path_required apply_proposals_values then fail RequiredPathNotFound else mret tt
   end);;
  lift_state StageLibraryError (update_group_context (new_extensions apply_proposals_values));;
  lift_state StageLibraryError (PublicGroupDiff_update_confirmed_transcript_hash m);;
  received_confirmation_tag ← lift (ok_or (auth_confirmation_tag (ac_auth m)) ConfirmationTagMissing);
  lift_state StageLibraryError (update_interim_transcript_hash c received_confirmation_tag);;
  self ← get;
  lift (map_err StageLibraryError (PublicGroupDiff_into_staged_diff self)).

Definition stage_diff (g : PublicGroup) (m : AuthenticatedContent) (q : ProposalQueue) (sender_index : LeafNodeIndex) :
    outcome StageCommitError StagedPublicGroupDiff :=
  (stage_diff_on (PublicGroup_ciphersuite g) m q sender_index (PublicGroup_empty_diff g)).1.

Definition stage_commit {M} (now : option Z) (g : PublicGroup) (m : AuthenticatedContent) : outcome StageCommitError (StagedCommit M) :=
  '(commit, proposal_queue, sender_index) ← validate_commit now g m;
  staged_diff ← stage_diff g m proposal_queue sender_index;
  Ok {| staged_proposal_queue := proposal_queue;
        staged_state := PublicState {| psc_staged_diff := staged_diff;
                                       psc_update_path_leaf_node := cp_leaf_node <$> commit_path commit |} |}.

End Stage.

(** ** Groups and their storage *)

Record InterimTranscriptHash := mkInterimTranscriptHash { interim_bytes : bytes }.
Record ConfirmationTag := mkConfirmationTag { tag_mac : bytes }.

Definition set_proposal_store (store : ProposalStore) (g : PublicGroup) : PublicGroup := {|
  treesync := treesync g; proposal_store := store; group_context := group_context g;
  interim_transcript_hash := interim_transcript_hash g; confirmation_tag := confirmation_tag g |}.

(** A group and the store of its client *)
Definition session : Type := PublicGroup * MemoryStorage.
Definition on_group {E A} : method PublicGroup E A -> method session E A := on_part fst (fun g s => (g, s.2)).
Definition on_storage {E A} : method MemoryStorage E A -> method session E A := on_part snd (fun st s => (s.1, st)).

Section Persistence.
Context `{!Serde bytes} `{!Serde TreeSync} `{!Serde GroupContext} `{!Serde InterimTranscriptHash} `{!Serde ConfirmationTag}.
Context `{!Serde QueuedProposal} `{!Serde (bytes * bytes)} `{!Serde (list bytes)}.

Definition PublicGroup_store (g : PublicGroup) : Memory.m () :=
  let group_id := PublicGroup_group_id g in
  Memory.write_tree group_id (treesync g);;
  Memory.write_confirmation_tag group_id (mkConfirmationTag (confirmation_tag g));;
  Memory.write_context group_id (group_context g);;
  Memory.write_interim_transcript_hash group_id (mkInterimTranscriptHash (interim_transcript_hash g)).

Definition PublicGroup_delete (group_id : bytes) : Memory.m () :=
  Memory.delete_tree group_id;;
  Memory.delete_confirmation_tag group_id;;
  Memory.delete_context group_id;;
  Memory.delete_interim_transcript_hash group_id.

Definition PublicGroup_load (group_id : bytes) : Memory.m (option PublicGroup) :=
  ts ← Memory.tree group_id;
  proposals ← Memory.queued_proposals (Ref := bytes) (P := QueuedProposal) group_id;
  context ← Memory.group_context group_id;
  interim ← Memory.interim_transcript_hash group_id;
  tag ← Memory.confirmation_tag group_id;
  let store := foldl (fun store x => ProposalStore_add x.2 store) ProposalStore_new proposals in
  mret (ts ← ts; context ← context; interim ← interim; tag ← tag;
        Some {| treesync := ts; proposal_store := store; group_context := context;
                interim_transcript_hash := interim_bytes interim; confirmation_tag := tag_mac tag |}).

Definition PublicGroup_add_proposal (p : QueuedProposal) : method session MemoryStorageError () :=
  self ← get;
  on_storage (Memory.queue_proposal (PublicGroup_group_id self.1) (proposal_reference p) p);;
  on_group (modify (fun g => set_proposal_store (ProposalStore_add p (proposal_store g)) g)).

Definition PublicGroup_remove_proposal (proposal_ref : ProposalRef) : method session MemoryStorageError () :=
  self ← get;
  on_storage (Memory.remove_proposal (PublicGroup_group_id self.1) (proposal_ref : bytes));;
  on_group (modify (fun g => set_proposal_store (default (proposal_store g) (ProposalStore_remove proposal_ref (proposal_store g))) g)).

(** [MergeCommitError] carries a storage error or a library error *)
Definition merge_commit {M} (staged_commit : StagedCommit M) : method session MemoryStorageError () :=
  (match staged_state staged_commit with
   | PublicState s => on_group (modify (PublicGroup_merge_diff (psc_staged_diff s)))
   | GroupMember _ => mret tt
   end);;
  on_group (modify (fun g => set_proposal_store (ProposalStore_empty (proposal_store g)) g));;
  self ← get;
  on_storage (Memory.clear_proposal_queue (Ref := bytes) (PublicGroup_group_id self.1));;
  on_storage (PublicGroup_store self.1).

End Persistence.

(** ** Lemmas *)

Section CommitLemmas.
Context `{!TreeHashing} `{!HashLaws} `{!TranscriptEncoding}.

(** A public group between commits: its tree is consistent and the group context
    carries the hash of the tree. *)
Definition group_ok (g : PublicGroup) (h : Z) : Prop :=
  tree_ok (PublicGroup_ciphersuite g) (treesync g) h /\ gc_tree_hash (group_context g) = ts_tree_hash (treesync g).

(** A path for a leaf that is not there starts with adding it. *)
Lemma received_path_absent c i path s h : tree_sync_ok s h -> 0 <= i -> leaf_at s i = None ->
  match apply_received_update_path c i path s with
  | (Ok _, s') => exists s1, add_leaf (up_leaf_node path) s = (Ok i, s1) /\ apply_received_update_path c i path s1 = (Ok tt, s')
  | _ => True
  end.
Proof.
  intros Hok Hi Hn. destruct (apply_received_update_path c i path s) as [[[]|e|] s'] eqn:E; [|done..].
  unfold apply_received_update_path in E. run. fold (leaf_at s i) in E.
  rewrite Hn, bool_decide_false in E by (by intros []). cbn [negb orb] in E. unfold lift_state at 1 in E.
  pose proof (add_leaf_ok s h (up_leaf_node path) Hok) as Ha.
  destruct (add_leaf (up_leaf_node path) s) as [[j|e|] s1] eqn:Ea; [| |done].
  2: { run. discriminate. }
  destruct Ha as (-> & _ & h1 & Hle & Hok1 & Hw & _). run. destruct (Z.eqb_spec i (free_leaf_index s)) as [->|Hne]; [|discriminate].
  exists s1. split; [done|]. assert (Hs1 : leaf_at s1 (free_leaf_index s) = Some (up_leaf_node path)).
  { rewrite Hw by done. by rewrite decide_True. }
  unfold apply_received_update_path. run. fold (leaf_at s1 (free_leaf_index s)). rewrite Hs1, bool_decide_true by eauto. cbn [negb orb].
  assert (free_leaf_index s < 2 ^ h1) as Hlt by (apply (members_leaf_lt s1 h1); [apply Hok1|done|by rewrite Hs1]).
  rewrite (proj2 (Z.leb_gt _ _)) by (unfold tsd_leaf_count; rewrite (AbDiff_leaf_count_spec _ h1) by apply Hok1; done).
  exact E.
Qed.

Lemma filtered_path_nonempty s h i j : tree_sync_ok s h -> 0 <= i -> 0 <= j -> i <> j -> is_Some (leaf_at s i) -> is_Some (leaf_at s j) ->
  filtered_direct_path s i <> [].
Proof.
  intros Hok Hi0 Hj0 Hne Hsi Hsj. pose proof (dwf_height _ _ (mo_diff _ _ (proj1 Hok))) as Hh.
  assert (Hin : forall x, 0 <= x -> is_Some (leaf_at s x) -> leaf_in h x).
  { intros x Hx Hs. split; [done|]. pose proof (members_leaf_lt s h x (proj1 Hok) Hx Hs). lia. }
  pose proof (Hin i Hi0 Hsi) as Hi. pose proof (Hin j Hj0 Hsj) as Hj. destruct (meet_at_exists h i j Hi Hj) as (k & Hmeet & Hkh).
  rewrite (filtered_direct_path_levels s h) by done.
  rewrite (kept_levels_split s h i j k Hi Hj Hne Hmeet) by (by apply (kept_meet s h i j k Hok Hi Hj Hne Hmeet i j)).
  rewrite map_app. by destruct (map _ (kept_levels s i (seqZ 1 (k - 1)))).
Qed.


(** The length of a path is checked against the tree. *)
Lemma received_path_length c i path s h s' : tree_sync_ok s h -> 0 <= i -> is_Some (leaf_at s i) -> apply_received_update_path c i path s = (Ok tt, s') ->
  length (filtered_direct_path s i) = length (up_public_keys path).
Proof.
  intros Hok Hi Hs E. unfold apply_received_update_path in E. run. fold (leaf_at s i) in E. rewrite bool_decide_true in E by done. cbn [negb orb] in E.
  rewrite (proj2 (Z.leb_gt _ _)) in E by (unfold tsd_leaf_count; rewrite (AbDiff_leaf_count_spec _ h) by apply Hok; apply (members_leaf_lt s h); [apply Hok|done..]).
  destruct (Nat.eqb_spec (length (filtered_direct_path s i)) (length (up_public_keys path))) as [|Hne]; [done|discriminate E].
Qed.

(** A received path that is accepted installs its leaf and leaves every hash right. *)
Lemma received_path_ok c i path s h s' : ready c s h -> 0 <= i -> up_public_keys path <> [] \/ (is_Some (leaf_at s i) /\ hashed c s h) ->
  apply_received_update_path c i path s = (Ok tt, s') ->
  exists h', h <= h' /\ tree_sync_ok s' h' /\ hashed c s' h' /\ original_tree (diff s') = original_tree (diff s) /\
    forall j, 0 <= j -> leaf_at s' j = if decide (j = i) then Some (up_leaf_node path) else leaf_at s j.
Proof.
  assert (Hpresent : forall s h, ready c s h -> 0 <= i -> hashes_follow c s h (up_public_keys path) -> is_Some (leaf_at s i) ->
    apply_received_update_path c i path s = (Ok tt, s') ->
    tree_sync_ok s' h /\ hashed c s' h /\ original_tree (diff s') = original_tree (diff s) /\
    forall j, 0 <= j -> leaf_at s' j = if decide (j = i) then Some (up_leaf_node path) else leaf_at s j).
  { clear s h. intros s h Hr Hi Hk Hs E. pose proof (received_path_length c i path s h s' (proj1 Hr) Hi Hs E) as Hl.
    assert (Hne : hashes_follow c s h (filtered_direct_path s i)).
    { destruct Hk as [Hk|]; [left|by right]. intros E0. rewrite E0 in Hl. by destruct (up_public_keys path). }
    pose proof (received_update_path_spec c s h i path Hr Hi Hs Hne) as Hspec. cbv zeta in Hspec.
    destruct (decide _) as [Hlen|Hlen]; [|congruence]. destruct Hspec as (path' & hash & _ & Hspec).
    destruct (leaf_parent_hash (up_leaf_node path)) as [hash'|]; [|by rewrite E in Hspec].
    destruct (decide _) as [->|]; [|by rewrite E in Hspec]. destruct Hspec as (s1 & E1 & Hpa). rewrite E1 in E. injection E as <-.
    split_and!; [apply Hpa..|]. intros j Hj. by rewrite (pa_leaves _ _ _ _ _ _ _ _ _ Hpa). }
  intros Hr Hi Hk E. destruct (leaf_at s i) as [old|] eqn:Ei.
  { destruct (Hpresent s h Hr Hi) as (? & ? & ? & ?); [by destruct Hk as [|[_ ?]]; [left|right]|by rewrite Ei|done|]. by exists h. }
  destruct Hk as [Hk|[[] _]]; [|done].
  pose proof (received_path_absent c i path s h (proj1 Hr) Hi Ei) as Ha. rewrite E in Ha. destruct Ha as (s1 & Ea & E1).
  assert (Hst : member_step s s1) by (by eapply member_add).
  pose proof (add_leaf_ok s h (up_leaf_node path) (proj1 Hr)) as Hok. rewrite Ea in Hok. destruct Hok as (Efree & _ & h1 & _ & _ & Hw & _).
  rewrite <- Efree in Hw. destruct (cache_ok_steps c s s1 h (proj1 Hr) (proj2 Hr) (rtc_once _ _ Hst)) as (h2 & Hle2 & Hok2 & Hc2).
  destruct (Hpresent s1 h2 (conj Hok2 Hc2) Hi (or_introl Hk)) as (Hok' & Hh' & Eo & Hl); [|done|].
  { rewrite Hw by done. rewrite decide_True by done. eauto. }
  exists h2. split_and!; [done..| |].
  - rewrite Eo. by apply (member_step_original s s1 h (proj1 Hr)).
  - intros j Hj. rewrite Hl, Hw by done. by case_decide.
Qed.

(** Proposals that concern no member do not change the tree. *)
Lemma no_member_proposals q own d : (forall ty, ty ∈ [PtUpdate; PtRemove; PtAdd] -> filtered_by_type q ty = []) ->
  exists v, apply_proposals q own d = (Ok v, d) /\ invitation_list v = [] /\ proposals_applied (pgd_diff d) q [] (pgd_diff d).
Proof.
  intros Hnone. pose proof (Hnone PtUpdate ltac:(set_solver)) as Eu. pose proof (Hnone PtRemove ltac:(set_solver)) as Er. pose proof (Hnone PtAdd ltac:(set_solver)) as Ea.
  eexists. split; [|split].
  - unfold apply_proposals. rewrite Eu, Er, Ea. cbn [for_each_m apply_removes apply_adds]. run. reflexivity.
  - done.
  - assert (Hadds : map fst (add_proposals q) = []) by (by rewrite <- adds_filtered, Ea).
    assert (Hrem : removed_leaves q = []) by (by rewrite <- removes_filtered, Er).
    split; [apply rtc_refl|by rewrite Hadds|constructor|by intros ?? ?%not_elem_of_nil|by intros ?? ?%not_elem_of_nil|].
    intros j Hj _. rewrite Hrem, decide_False by apply not_elem_of_nil. by rewrite <- updates_filtered, Eu.
Qed.

(** Proposals that need no path do not change the tree. *)
Lemma no_tree_proposals q own d : existsb (fun p => Proposal_is_path_required (proposal p)) (queued_proposals q) = false ->
  exists v, apply_proposals q own d = (Ok v, d) /\ invitation_list v = [] /\ proposals_applied (pgd_diff d) q [] (pgd_diff d).
Proof.
  intros Hp. apply no_member_proposals. intros ty Hty. destruct (filtered_by_type q ty) as [|p l] eqn:E; [done|]. exfalso.
  assert (Hin : p ∈ filtered_by_type q ty) by (rewrite E; by left). apply elem_of_filtered in Hin as [Hin Et].
  enough (existsb (fun p => Proposal_is_path_required (proposal p)) (queued_proposals q) = true) by congruence.
  apply existsb_exists. exists p. split; [by apply list_elem_of_In|]. unfold Proposal_is_path_required. rewrite Et.
  apply elem_of_cons in Hty as [->|Hty]; [done|]. apply elem_of_cons in Hty as [->| ->%list_elem_of_singleton]; done.
Qed.

(** A member that commits with an empty path and removes nobody is alone, and its commit
    concerns no other leaf. *)
Lemma lone_member_proposals c q own d h v s1 h1 i path s2 : proposals_applied (pgd_diff d) q (invitation_list v) s1 -> applicable (pgd_diff d) q ->
  tree_sync_ok (pgd_diff d) h -> tree_sync_ok s1 h1 -> 0 <= i -> is_Some (leaf_at (pgd_diff d) i) -> removed_leaves q = [] ->
  (forall leaf, (leaf, Sender_Member i) ∉ update_proposals q) -> up_public_keys path = [] -> apply_received_update_path c i path s1 = (Ok tt, s2) ->
  exists v', apply_proposals q own d = (Ok v', d).
Proof.
  intros Hpr Hap Hok Hok1 Hi Hs Hrem Hown Hk E.
  assert (Hold : forall j, 0 <= j -> is_Some (leaf_at (pgd_diff d) j) -> is_Some (leaf_at s1 j)).
  { intros j Hj Hsj. destruct (decide (j ∈ map fst (invitation_list v))) as [([j' kp] & -> & Hin)%list_elem_of_fmap|Hn].
    - destruct (pr_leaf _ _ _ _ Hpr _ _ Hin) as (_ & El & _). cbn [fst]. rewrite El. by eexists.
    - rewrite (pr_other _ _ _ _ Hpr) by done. rewrite Hrem, decide_False by apply not_elem_of_nil. by destruct (list.last _). }
  assert (Halone : forall j, 0 <= j -> is_Some (leaf_at s1 j) -> j = i).
  { intros j Hj Hsj. destruct (decide (i = j)) as [|Hne]; [done|]. exfalso. apply (filtered_path_nonempty s1 h1 i j Hok1 Hi Hj Hne (Hold i Hi Hs) Hsj).
    apply nil_length_inv. rewrite (received_path_length c i path s1 h1 s2 Hok1 Hi (Hold i Hi Hs) E). by rewrite Hk. }
  destruct (no_member_proposals q own d) as (v' & E' & _); [|by exists v']. intros ty Hty. destruct (filtered_by_type q ty) as [|p l] eqn:Ef; [done|]. exfalso.
  assert (Hin : p ∈ filtered_by_type q ty) by (rewrite Ef; by left). apply elem_of_filtered in Hin as [Hin Et].
  destruct (proposal p) as [kp|leaf|r| | | | | |] eqn:Ep; cbn in Et; subst ty; try by (revert Hty; rewrite !elem_of_cons, elem_of_nil; naive_solver).
  - assert (Ha : kp ∈ map snd (invitation_list v)).
    { rewrite (pr_invited _ _ _ _ Hpr). apply (list_elem_of_fmap_2 fst _ (kp, sender p)), list_elem_of_omap. exists p. by rewrite Ep. }
    apply list_elem_of_fmap in Ha as ([j kp'] & _ & Ha). destruct (pr_leaf _ _ _ _ Hpr _ _ Ha) as (Hj & El & Hfree).
    rewrite (Halone j Hj) in Hfree by (by rewrite El). rewrite Hrem in Hfree. destruct Hfree as [Hn|?%not_elem_of_nil]; [|done]. rewrite Hn in Hs. by destruct Hs.
  - destruct (ap_updates _ _ Hap p leaf Hin Ep) as (j & Ej & Hj & Hsj). apply (Hown leaf), elem_of_updates. exists p. split_and!; [done|done|].
    by rewrite Ej, (Halone j Hj (Hold j Hj Hsj)).
  - assert (Hr : r ∈ removed_leaves q) by (apply elem_of_removed; by exists p). rewrite Hrem in Hr. by apply not_elem_of_nil in Hr.
Qed.

(** The path of a commit has a node, or it has none and a member commits that removes nobody.
    The other case is that of [empty_path_leaves_stale_hash]. *)
Definition path_or_refresh (s : TreeSyncDiff) (commit : Commit) (q : ProposalQueue) (i : LeafNodeIndex) : Prop :=
  forall path, commit_path commit = Some path -> cp_nodes path <> [] \/
    (is_Some (leaf_at s i) /\ removed_leaves q = [] /\ forall leaf, (leaf, Sender_Member i) ∉ update_proposals q).

(** The tree of a staged commit, before the group context is updated. *)
Lemma staged_tree c m commit q i own d h : tree_sync_ok (pgd_diff d) h -> hashed c (pgd_diff d) h -> applicable (pgd_diff d) q -> 0 <= i ->
  content_body (ac_content m) = BodyCommit commit -> path_or_refresh (pgd_diff d) commit q i ->
  forall v d1 d2, apply_proposals q own d = (Ok v, d1) ->
  (match commit_path commit with
   | Some path => lift_state StageUpdatePathError (on_tree (apply_received_update_path c i (public_part path)))
   | None => if path_required v then fail RequiredPathNotFound else mret tt
   end) d1 = (Ok tt, d2) ->
  exists s1 s2 h', d2 = set_pgd_diff s2 d /\ h <= h' /\ proposals_applied (pgd_diff d) q (invitation_list v) s1 /\
    tree_sync_ok s2 h' /\ hashed c s2 h' /\ original_tree (diff s2) = original_tree (diff (pgd_diff d)) /\
    forall j, 0 <= j -> leaf_at s2 j = match commit_path commit with
      | Some path => if decide (j = i) then Some (cp_leaf_node path) else leaf_at s1 j
      | None => leaf_at s1 j
      end.
Proof.
  intros Hok Hh Hap Hi Hbody Hpath v d1 d2 Ev Ep.
  pose proof (apply_proposals_spec q own d h Hok Hap) as Hspec. rewrite Ev in Hspec.
  destruct Hspec as (s1 & h1 & -> & Hle & Hok1 & Hpr & _ & Epr & _).
  destruct (commit_path commit) as [path|] eqn:Ecp.
  - unfold lift_state, on_tree in Ep. run. destruct (apply_received_update_path c i (public_part path) (pgd_diff (set_pgd_diff s1 d))) as [[[]|e|] s2] eqn:E;
      [|discriminate..]. injection Ep as <-.
    pose proof (hashed_cache_ok c _ h (mo_diff _ _ (proj1 Hok)) Hh) as Hc.
    destruct (cache_ok_steps c _ s1 h Hok Hc (pr_steps _ _ _ _ Hpr)) as (h2 & Hle2 & Hok2 & Hc2).
    destruct (received_path_ok c i (public_part path) s1 h2 s2 (conj Hok2 Hc2) Hi) as (h3 & Hle3 & Hok3 & Hh3 & Eo & Hl); [|exact E|].
    { destruct (up_public_keys (public_part path)) as [|key keys] eqn:Ek; [right|by left].
      destruct (Hpath path Ecp) as [Hne|(Hs & Hrem & Hown)]; [by apply map_eq_nil in Ek|].
      destruct (lone_member_proposals c q own d h v s1 h1 i (public_part path) s2 Hpr Hap Hok Hok1 Hi Hs Hrem Hown Ek E) as (v' & E').
      rewrite Ev in E'. injection E' as _ E'. assert (Es : s1 = pgd_diff d) by (by rewrite <- E'). subst s1. split; [done|].
      by rewrite <- (same_size_height _ _ _ _ Hok Hok2 eq_refl). }
    exists s1, s2, h3. split_and!; [done|lia|done|done|done| |exact Hl].
    rewrite Eo. by apply (member_steps_original _ _ h Hok), Hpr.
  - destruct (path_required v); [discriminate|]. symmetry in Epr. apply orb_false_iff in Epr as [Epr _]. apply orb_false_iff in Epr as [Evr _].
    destruct (no_tree_proposals q own d Evr) as (v' & E' & Ei' & Hpr'). rewrite Ev in E'. injection E' as <- E1. run. injection Ep as <-.
    rewrite Ei'. exists (pgd_diff d), (pgd_diff d), h. split_and!; try done. by rewrite E1, <- E1.
Qed.

(** What merging a staged commit does to the group. *)
Record commit_merged (g : PublicGroup) (commit : Commit) (q : ProposalQueue) (i : LeafNodeIndex) (g' : PublicGroup) (h : Z) : Prop := {
  cm_ok : group_ok g' h;
  cm_epoch : gc_epoch (group_context g') = u64_wrap (gc_epoch (group_context g) + 1);
  cm_suite : PublicGroup_ciphersuite g' = PublicGroup_ciphersuite g;
  cm_group_id : PublicGroup_group_id g' = PublicGroup_group_id g;
  cm_leaves : exists invited s1, proposals_applied (TreeSync_empty_diff (treesync g)) q invited s1 /\
    forall j, 0 <= j -> leaf_at (TreeSync_empty_diff (treesync g')) j = match commit_path commit with
      | Some path => if decide (j = i) then Some (cp_leaf_node path) else leaf_at s1 j
      | None => leaf_at s1 j
      end
}.

Lemma method_bind_ok {S E A B} (x : method S E A) (f : A -> method S E B) s r s' :
  (a ← x; f a) s = (Ok r, s') <-> exists a s1, x s = (Ok a, s1) /\ f a s1 = (Ok r, s').
Proof.
  cbv [mbind method_bind]. destruct (x s) as [[a|e|] s1]; split; try done; [by exists a, s1|by intros (? & ? & [= <- <-] & ?)|by intros (? & ? & ? & _)..].
Qed.

Lemma lift_state_ok {S E F A} (f : E -> F) (x : method S E A) s r s' : lift_state f x s = (Ok r, s') <-> x s = (Ok r, s').
Proof. unfold lift_state. destruct (x s) as [[a|e|] s1]; cbn; split; congruence. Qed.

Lemma update_group_context_ok es d d' : update_group_context es d = (Ok tt, d') ->
  exists hash, root_hash (pgd_diff d) = Ok hash /\ pgd_diff d' = pgd_diff d /\
    pgd_context d' = (let c := increment_epoch (update_tree_hash hash (pgd_context d)) in match es with Some es => set_extensions es c | None => c end).
Proof.
  unfold update_group_context. run. destruct (root_hash (pgd_diff d)) as [hash|e|]; [|discriminate..]. intros E. exists hash. split; [done|].
  destruct es; injection E as <-; done.
Qed.

(** The transcript hashes leave the tree, and the rest of the context, as they are. *)
Lemma update_transcript_ok c m tag d d1 d2 : PublicGroupDiff_update_confirmed_transcript_hash m d = (Ok tt, d1) ->
  update_interim_transcript_hash c tag d1 = (Ok tt, d2) ->
  pgd_diff d2 = pgd_diff d /\ exists hash, pgd_context d2 = set_confirmed_transcript_hash hash (pgd_context d).
Proof.
  unfold PublicGroupDiff_update_confirmed_transcript_hash, update_interim_transcript_hash, update_confirmed_transcript_hash, on_context. run.
  destruct (negb _); [discriminate|]. destruct (calculate_confirmed_transcript_hash _ _ _ _ _) as [hash|e|]; [|discriminate..]. intros [= <-].
  destruct (calculate_interim_transcript_hash _ _ _) as [hash'|e|]; [|discriminate..]. intros [= <-]. split; [done|]. by exists hash.
Qed.

Lemma stage_diff_ok g h m commit q i staged : group_ok g h -> applicable (TreeSync_empty_diff (treesync g)) q -> 0 <= i ->
  content_body (ac_content m) = BodyCommit commit -> path_or_refresh (TreeSync_empty_diff (treesync g)) commit q i ->
  stage_diff g m q i = Ok staged ->
  exists h', h <= h' /\ commit_merged g commit q i (PublicGroup_merge_diff staged g) h'.
Proof.
  intros [(Hwf & Hok & Hh & Er) _] Hap Hi Hbody Hpath E. unfold stage_diff in E. set (c := PublicGroup_ciphersuite g) in *.
  destruct (stage_diff_on c m q i (PublicGroup_empty_diff g)) as [o d'] eqn:Es. cbn in E. subst o. unfold stage_diff_on in Es.
  apply method_bind_ok in Es as (v & d1 & E1 & Es). apply lift_state_ok in E1. rewrite Hbody in Es.
  apply method_bind_ok in Es as (commit' & d1' & E1' & Es). injection E1' as <- <-.
  apply method_bind_ok in Es as ([] & d2 & E2 & Es).
  destruct (staged_tree c m commit q i None (PublicGroup_empty_diff g) h Hok Hh Hap Hi Hbody Hpath v d1 d2 E1 E2)
    as (s1 & s2 & h' & -> & Hle & Hpr & Hok2 & Hh2 & Eo & Hl).
  apply method_bind_ok in Es as ([] & d3 & E3%lift_state_ok & Es). apply method_bind_ok in Es as ([] & d4 & E4%lift_state_ok & Es).
  apply method_bind_ok in Es as (tag & d5 & E5 & Es). unfold lift, ok_or in E5.
  destruct (auth_confirmation_tag (ac_auth m)) as [tag'|]; [|discriminate]. injection E5 as <- <-.
  apply method_bind_ok in Es as ([] & d6 & E6%lift_state_ok & Es). run.
  destruct (update_group_context_ok _ _ _ E3) as (hash & Eh & Ed3 & Ec3).
  destruct (update_transcript_ok c m tag' d3 d4 d6 E4 E6) as (Ed6 & hash' & Ec6). cbn [pgd_diff set_pgd_diff pgd_context PublicGroup_empty_diff] in *.
  unfold PublicGroupDiff_into_staged_diff in Es. rewrite Ed6, Ed3 in Es.
  destruct (merge_spec c (treesync g) s2 h') as (st & Est & Hok' & [Hl' _]); [by rewrite Eo|done|done|].
  rewrite Est in Es. injection Es as <- _. exists h'. split; [done|].
  assert (Eth : new_tree_hash st = hash).
  { unfold into_staged_diff in Est. rewrite Eh in Est. by injection Est as <-. }
  split; cbn [PublicGroup_merge_diff group_context treesync spg_context spg_staged_diff PublicGroup_ciphersuite PublicGroup_group_id].
  - split; cbn [PublicGroup_merge_diff group_context treesync spg_context spg_staged_diff PublicGroup_ciphersuite]; rewrite Ec6, Ec3.
    + by destruct (new_extensions v).
    + cbn. rewrite Eth. by destruct (new_extensions v).
  - rewrite Ec6, Ec3. by destruct (new_extensions v).
  - unfold PublicGroup_ciphersuite. cbn. rewrite Ec6, Ec3. by destruct (new_extensions v).
  - unfold PublicGroup_group_id. cbn. rewrite Ec6, Ec3. by destruct (new_extensions v).
  - exists (invitation_list v), s1. split; [done|]. intros j Hj. cbn. rewrite Hl' by done. by apply Hl.
Qed.

End CommitLemmas.

(** ** The group over time *)

Section GroupSteps.
Context `{!TreeHashing} `{!HashLaws} `{!TranscriptEncoding} `{!ProposalHashing}.

Definition leaves_of (g : PublicGroup) (i : Z) : option LeafNode := leaf_at (TreeSync_empty_diff (treesync g)) i.

Definition store_indices_ok (g : PublicGroup) : Prop := forall p i, p ∈ proposal_store g -> proposal p = Remove i -> 0 <= i.

(** What holds of a public group at all times. *)
Record group_inv (g : PublicGroup) : Prop := {
  gi_ok : exists h, group_ok g h;
  gi_store : store_ok g;
  gi_indices : store_indices_ok g;
  gi_keys : keys_unique encryption_key (leaves_of g)
}.

(** The group after a staged commit is merged. *)
Definition merged (g : PublicGroup) (st : PublicStagedCommitState) : PublicGroup :=
  set_proposal_store (ProposalStore_empty (proposal_store g)) (PublicGroup_merge_diff (psc_staged_diff st) g).

(** The path of a commit has a node, or it has none and a member commits that removes
    nobody: the group is told a hash that follows the changes.  The other case, a path
    without nodes after removals, is that of [empty_path_leaves_stale_hash]. *)
Definition hashes_kept (now : option Z) (g : PublicGroup) (m : AuthenticatedContent) (commit : Commit) : Prop :=
  forall q i path, validate_commit now g m = Ok (commit, q, i) -> commit_path commit = Some path ->
    cp_nodes path <> [] \/ (content_sender (ac_content m) = Sender_Member i /\ is_Some (leaves_of g i) /\ removed_leaves q = []).

Lemma hashes_kept_refresh now g m commit q i : hashes_kept now g m commit -> validate_commit now g m = Ok (commit, q, i) ->
  path_or_refresh (TreeSync_empty_diff (treesync g)) commit q i.
Proof.
  intros Hk Hv path Ep. destruct (Hk q i path Hv Ep) as [|(Hs & Hm & Hr)]; [by left|right]. split_and!; [done|done|].
  apply validate_commit_ok in Hv as (_ & _ & _ & _ & Hvs). rewrite Hs in Hvs. intros leaf. exact (committing_own_update now g q commit i i leaf Hvs).
Qed.

(** A group receives proposals of its members, drops proposals and merges commits. *)
Inductive group_step : PublicGroup -> PublicGroup -> Prop :=
| step_proposal g p :
    (forall leaf_node i, proposal p = Update leaf_node -> sender p = Sender_Member i -> 0 <= i /\ is_Some (TreeSync_leaf (treesync g) i)) ->
    (forall i, proposal p = Remove i -> 0 <= i) ->
    group_step g (set_proposal_store (ProposalStore_add p (proposal_store g)) g)
| step_drop g r store : ProposalStore_remove r (proposal_store g) = Some store -> group_step g (set_proposal_store store g)
| step_commit M now g m commit (staged : StagedCommit M) st :
    content_body (ac_content m) = BodyCommit commit -> hashes_kept now g m commit ->
    (forall i, ProposalOrRef_Proposal (Remove i) ∈ commit_proposals commit -> 0 <= i) ->
    (forall i, content_sender (ac_content m) = Sender_Member i -> 0 <= i) ->
    stage_commit now g m = Ok staged -> staged_state staged = PublicState st ->
    group_step g (merged g st).

(** What a staged commit does. *)
Lemma stage_commit_spec {M} now g m commit (staged : StagedCommit M) : group_inv g ->
  content_body (ac_content m) = BodyCommit commit -> hashes_kept now g m commit ->
  (forall i, ProposalOrRef_Proposal (Remove i) ∈ commit_proposals commit -> 0 <= i) ->
  (forall i, content_sender (ac_content m) = Sender_Member i -> 0 <= i) ->
  stage_commit now g m = Ok staged ->
  exists st q i h, staged_state staged = PublicState st /\ validate_commit now g m = Ok (commit, q, i) /\
    commit_merged g commit q i (merged g st) h.
Proof.
  intros [[h Hok] Hstore Hidx _] Hbody Hpath Hr Hs E. unfold stage_commit in E. ok_inv E. destruct x as [[commit' q] i].
  ok_inv E. injection E as <-. destruct (validate_commit_ok now g m commit' q i Hx) as (Hbody' & _).
  rewrite Hbody in Hbody'. injection Hbody' as <-. destruct Hok as [(Hwf & Hts & ?) ?].
  destruct (validated_applicable now g h m commit q i Hwf (proj1 Hts) Hstore (conj Hr (conj Hidx Hs)) Hx) as [Hap Hi].
  destruct (stage_diff_ok g h m commit q i x) as (h' & _ & Hm); try done; [by apply (hashes_kept_refresh now g m)|].
  eexists _, q, i, h'. split; [done|]. split; [done|]. destruct Hm. by split.
Qed.

(** The new keys of a commit, with the leaves they go to, are distinct. *)
Lemma commit_keys_unique now g h m commit q i g' h' : tree_wf (ts_tree (treesync g)) h -> keys_unique encryption_key (leaves_of g) ->
  validate_commit now g m = Ok (commit, q, i) -> commit_merged g commit q i g' h' -> keys_unique encryption_key (leaves_of g').
Proof.
  intros Hwf Hu Hv Hm. destruct (cm_leaves _ _ _ _ _ _ Hm) as (invited & s1 & Hpr & Hl).
  apply validate_commit_ok in Hv as (_ & _ & _ & Hvq & _). apply validate_queue_ok in Hvq as [Hk _].
  destruct (validate_key_uniqueness_ok g h q (Some commit) Hwf Hk) as [Hd Hn]. unfold new_encryption_keys in Hd, Hn.
  rewrite app_assoc, <- (owned_keys_snd q invited (pr_invited _ _ _ _ Hpr)) in Hd, Hn. cbn [mbind option_bind] in Hd, Hn.
  set (path_keys := match commit_path commit with Some path => [(i, encryption_key (cp_leaf_node path))] | None => [] end).
  apply (keys_unique_after encryption_key (leaves_of g) (leaves_of g') (removed_leaves q) (owned_keys q invited ++ path_keys)); [done|..].
  - rewrite map_app. subst path_keys. destruct (commit_path commit) as [path|]; [|by rewrite app_nil_r in Hd |- *].
    eapply sublist_NoDup; [exact Hd|]. apply sublist_app; [done|]. cbn. apply sublist_skip, sublist_nil_l.
  - intros j k j' old Hin. apply Hn. subst path_keys. apply elem_of_app. apply elem_of_app in Hin as [Hin|Hin].
    + left. by apply (list_elem_of_fmap_2 snd _ (j, k)).
    + right. destruct (commit_path commit) as [path|]; [|by apply not_elem_of_nil in Hin]. apply list_elem_of_singleton in Hin as [= -> ->]. by left.
  - intros j a Hj Ha. unfold leaves_of in Ha |- *. rewrite Hl in Ha by done. rewrite elem_of_app. subst path_keys.
    assert (Hs1 : leaf_at s1 j = Some a -> (leaf_at (TreeSync_empty_diff (treesync g)) j = Some a /\ j ∉ removed_leaves q) \/ (j, encryption_key a) ∈ owned_keys q invited)
      by (by apply applied_owners).
    destruct (commit_path commit) as [path|]; [|tauto]. destruct (decide (j = i)) as [->|]; [|tauto].
    injection Ha as <-. right. right. by apply list_elem_of_singleton.
Qed.

Lemma group_step_inv g g' : group_inv g -> group_step g g' -> group_inv g'.
Proof.
  intros Hinv Hstep. destruct Hstep as [g p Hp Hr|g r store Es|M now g m commit staged st Hbody Hpath Hrem Hs Est Est'].
  - destruct Hinv as [Hok Hstore Hidx Hu]. split; [done| | |done].
    + intros p' leaf_node i [Hin| ->%list_elem_of_singleton]%elem_of_app; [by apply Hstore|by apply Hp].
    + intros p' i [Hin| ->%list_elem_of_singleton]%elem_of_app; [by apply Hidx|by apply Hr].
  - destruct Hinv as [Hok Hstore Hidx Hu].
    assert (Hsub : forall p, p ∈ store -> p ∈ proposal_store g).
    { clear -Es. revert store Es. induction (proposal_store g) as [|p l IH]; intros store Es; [done|]. cbn [ProposalStore_remove] in Es.
      destruct (bool_decide _); [injection Es as <-; intros x Hx; by right|]. destruct (ProposalStore_remove r l) as [store'|]; [|done].
      injection Es as <-. intros x [->|Hx]%elem_of_cons; [by left|right; by eapply IH]. }
    split; [done| | |done]; [intros p leaf_node i Hin|intros p i Hin]; [by apply Hstore, Hsub|by apply Hidx, Hsub].
  - destruct (stage_commit_spec now g m commit staged Hinv Hbody Hpath Hrem Hs Est) as (st' & q & i & h & E & Hv & Hm).
    rewrite Est' in E. injection E as <-. destruct Hinv as [[h0 [(Hwf & _) _]] _ _ Hu].
    split; [exists h; apply Hm|by intros ??? ?%not_elem_of_nil|by intros ?? ?%not_elem_of_nil|]. by eapply commit_keys_unique.
Qed.

(** The free leaf is the first blank one. *)
Lemma free_leaf_unique s h i : members_ok s h -> 0 <= i -> leaf_at s i = None -> (forall j, 0 <= j < i -> is_Some (leaf_at s j)) ->
  free_leaf_index s = i.
Proof.
  intros Hm Hi Hn Hleft. destruct (free_leaf_index_spec s h Hm) as ((Hf & _) & Hfn & Hfl & _). cbv zeta in *.
  destruct (Z.lt_trichotomy (free_leaf_index s) i) as [Hlt|[?|Hlt]]; [|done|].
  - specialize (Hleft _ (conj Hf Hlt)). rewrite Hfn in Hleft. by destruct Hleft.
  - specialize (Hfl i (conj Hi Hlt)). rewrite Hn in Hfl. by destruct Hfl.
Qed.

(** The committer's leaf was added at the index it used. *)
Lemma received_path_index c s h i path : tree_sync_ok s h -> free_leaf_index s = i ->
  (apply_received_update_path c i path s).1 <> Err InconsistentSenderIndex.
Proof.
  intros Hok Hi. unfold apply_received_update_path, lift_state. run. fold (leaf_at s i).
  destruct (free_leaf_index_spec s h (proj1 Hok)) as (_ & Hn & _). cbv zeta in Hn. rewrite Hi in Hn.
  rewrite Hn, bool_decide_false by (by intros []). cbn [negb orb].
  pose proof (add_leaf_ok s h (up_leaf_node path) Hok) as Ha. destruct (add_leaf (up_leaf_node path) s) as [[j|e|] s1]; [|by destruct e|done].
  destruct Ha as (-> & _). rewrite Hi, Z.eqb_refl. cbn [negb]. destruct (negb _); [done|].
  destruct (process_update_path _ _ _ _) as [[hash|e|] s2]; [|done..]. destruct (leaf_parent_hash _); [|done]. destruct (negb _); [done|].
  by destruct (update_tree_hashes _ _ _) as [[hash'|e|] s3].
Qed.

(** ** Theorems *)

(** C14: at all times a public group's tree is consistent with all its hashes right,
    its group context carries the hash of that tree, although
    [update_group_context] takes it from the cache, and no two members share
    an encryption key; whatever proposals of members it receives and whatever
    commits, of members or of new members, it accepts and merges, as long as
    no commit has a path without nodes after removing members (then the hash is
    stale, [empty_path_leaves_stale_hash]). *)
Theorem public_group_invariant g g' : group_inv g -> rtc group_step g g' -> group_inv g'.
Proof. intros Hinv Hsteps. induction Hsteps as [|g g1 g2 Hstep _ IH]; [done|]. by apply IH, (group_step_inv g). Qed.

(** C16: merging an accepted commit advances the epoch by one, keeps group id and
    ciphersuite, and changes exactly the members the commit names: leaves removed
    by its proposals are blank, updated leaves hold their last update, every
    invited client has a leaf of its own that was free, the committer's leaf is
    that of the path, and every other leaf is as before; the tree is consistent and
    all its hashes are right.  Left out is the commit whose path has no nodes after
    it removed all others ([empty_path_leaves_stale_hash]). *)
Theorem accepted_commit_correct {M} now g m commit (staged : StagedCommit M) : group_inv g ->
  content_body (ac_content m) = BodyCommit commit -> hashes_kept now g m commit ->
  (forall i, ProposalOrRef_Proposal (Remove i) ∈ commit_proposals commit -> 0 <= i) ->
  (forall i, content_sender (ac_content m) = Sender_Member i -> 0 <= i) ->
  stage_commit now g m = Ok staged ->
  exists st q i h, staged_state staged = PublicState st /\ validate_commit now g m = Ok (commit, q, i) /\
    commit_merged g commit q i (merged g st) h.
Proof. apply stage_commit_spec. Qed.

(** A commit that covers another member's Update is refused by every receiver:
    [commit_list] puts all proposals into the commit by value, so receivers
    take the Update for one of the committer and stop with an error, whatever
    their state, although the committer's own queue names the right sender. *)
Theorem inline_update_rejected {M} now g m commit q i leaf_node p :
  content_body (ac_content m) = BodyCommit commit -> commit_proposals commit = commit_list q ->
  content_sender (ac_content m) = Sender_Member i -> p ∈ queued_proposals q -> proposal p = Update leaf_node ->
  (forall p1 p2 r, p1 ∈ queued_proposals q -> p2 ∈ queued_proposals q ->
     from_raw_proposal (PublicGroup_ciphersuite g) (proposal p1) = Ok r ->
     from_raw_proposal (PublicGroup_ciphersuite g) (proposal p2) = Ok r -> proposal p1 = proposal p2) ->
  forall r : StagedCommit M, stage_commit now g m <> Ok r.
Proof.
  intros Hbody Hlist Hs Hp Ep Hinj r Hr. unfold stage_commit in Hr. ok_inv Hr. destruct x as [[commit' q'] i']. rename Hx into Hv.
  destruct (validate_commit_ok now g m commit' q' i' Hv) as (Hbody' & _ & Hq & _ & Hvs).
  rewrite Hbody in Hbody'. injection Hbody' as <-. rewrite Hs, Hlist, commit_list_proposals in Hq. rewrite Hs in Hvs.
  apply (committing_own_update now g q' commit i i' leaf_node Hvs).
  apply (inline_committed (PublicGroup_ciphersuite g) (map proposal (queued_proposals q)) (proposal_store g) (Sender_Member i) q' (Update leaf_node)) in Hq as (x & Hx & Ex & Esx).
  - apply elem_of_updates. by exists x.
  - rewrite <- Ep. by apply (list_elem_of_fmap_2 proposal).
  - intros a b r0 (x & -> & Hx)%list_elem_of_fmap (y & -> & Hy)%list_elem_of_fmap. by apply Hinj.
Qed.

Lemma existsb_false_elem {A} (f : A -> bool) (l : list A) : existsb f l = false -> forall x, x ∈ l -> f x = false.
Proof. intros E x Hx. destruct (f x) eqn:Ef; [|done]. rewrite (proj2 (existsb_exists f l)) in E; [done|]. exists x. by rewrite <- list_elem_of_In. Qed.

(** Without updates and additions, applying proposals blanks the leaves they remove. *)
Lemma only_removed s q s' : add_proposals q = [] -> update_proposals q = [] -> forall invited, proposals_applied s q invited s' ->
  invited = [] /\ forall j, 0 <= j -> leaf_at s' j = if decide (j ∈ removed_leaves q) then None else leaf_at s j.
Proof.
  intros Ha Hu invited Hpr. pose proof (pr_invited _ _ _ _ Hpr) as Hi. rewrite Ha in Hi. apply map_eq_nil in Hi as ->. split; [done|].
  intros j Hj. rewrite (pr_other _ _ _ _ Hpr) by (done || apply not_elem_of_nil). destruct (decide _); [done|].
  destruct (updates_of j (queued_proposals q)) as [|leaf l] eqn:E; [done|]. exfalso.
  assert (Hin : leaf ∈ updates_of j (queued_proposals q)) by (rewrite E; by left). apply list_elem_of_omap in Hin as (p & Hp & Ep).
  assert (Hup : exists x, x ∈ update_proposals q); [|destruct Hup as [x Hx]; rewrite Hu in Hx; by apply not_elem_of_nil in Hx].
  destruct (proposal p) as [|lf| | | | | | |] eqn:Epp; try discriminate. exists (lf, sender p). apply elem_of_updates. by exists p.
Qed.

(** The first free leaf once a leaf is blanked, if any. *)
Lemma freed_leaf s s' h h' removed : members_ok s h -> members_ok s' h' ->
  (forall r, removed = Some r -> 0 <= r) ->
  (forall j, 0 <= j -> leaf_at s' j = if decide (removed = Some j) then None else leaf_at s j) ->
  free_leaf_index s' = match removed with Some r => if r <? free_leaf_index s then r else free_leaf_index s | None => free_leaf_index s end.
Proof.
  intros Hm Hm' Hr Hs. destruct (free_leaf_index_spec s h Hm) as ((Hf & _) & Hn & Hl & _). cbv zeta in *.
  destruct removed as [r|]; [specialize (Hr r eq_refl); destruct (Z.ltb_spec r (free_leaf_index s)) as [Hlt|Hge]|];
    apply (free_leaf_unique _ h' _ Hm'); try done; rewrite ?Hs by done; try (by destruct (decide _));
    intros j Hj; rewrite Hs, decide_False by (lia || (intros [= ?]; lia)); apply Hl; lia.
Qed.

(** What an accepted external commit covers. *)
Lemma external_queue now g m commit q i : validate_commit now g m = Ok (commit, q, i) -> content_sender (ac_content m) = NewMemberCommit ->
  (forall p1 p2 r, p1 ∈ inline_proposals commit -> p2 ∈ inline_proposals commit ->
     from_raw_proposal (PublicGroup_ciphersuite g) p1 = Ok r -> from_raw_proposal (PublicGroup_ciphersuite g) p2 = Ok r -> p1 = p2) ->
  add_proposals q = [] /\ update_proposals q = [] /\ leftmost_free_index g (inline_proposals commit) = Ok i /\
  match List.find (fun p => is_type p PtRemove) (inline_proposals commit) with
  | Some p => exists r, p = Remove r /\ removed_leaves q = [r]
  | None => removed_leaves q = []
  end.
Proof.
  intros Hv Hs Hinj. pose proof (external_sender_ok now g m commit q i Hv Hs) as [El Hone]%validate_external_sender_ok.
  apply validate_commit_ok in Hv as (_ & _ & Hq & Hvq & Hvs). rewrite Hs in Hq, Hvs. rewrite El in Hq.
  apply validate_queue_ok in Hvq as [_ Hrem]. unfold validate_remove_proposals in Hrem. ok_inv Hrem. apply check_removes_ok in Hrem as [Hnd _].
  cbn [validate_sender] in Hvs. ok_inv Hvs. unfold validate_external_commit in Hx0. ok_inv Hx0.
  assert (Hno : forall p, p ∈ queued_proposals q -> match proposal p with ExternalInit _ | Remove _ | PreSharedKey _ | Custom _ => True | _ => False end).
  { intros p Hp. destruct (inline_committed_from _ _ _ _ _ p Hq Hp) as (_ & _ & Et).
    assert (Hf := existsb_false_elem _ _ Hb1 p Hp). cbn in Hf. rewrite Et, bool_decide_true in Hf by done.
    by destruct (proposal p). }
  assert (Hin : forall r, r ∈ removed_leaves q <-> Remove r ∈ inline_proposals commit).
  { intros r. rewrite elem_of_removed. split.
    - intros (p & Hp & Ep). rewrite <- Ep. by eapply inline_committed_from.
    - intros Hr. destruct (inline_committed _ _ _ _ _ _ Hq Hr Hinj) as (x' & ? & ? & _). by exists x'. }
  split_and!; [| |done|].
  - destruct (add_proposals q) as [|[kp s] l] eqn:E; [done|]. exfalso. assert (Hk : (kp, s) ∈ add_proposals q) by (rewrite E; by left).
    apply list_elem_of_omap in Hk as (p & Hp & Ep). specialize (Hno p Hp). by destruct (proposal p).
  - destruct (update_proposals q) as [|[lf s] l] eqn:E; [done|]. exfalso. assert (Hk : (lf, s) ∈ update_proposals q) by (rewrite E; by left).
    apply list_elem_of_omap in Hk as (p & Hp & Ep). specialize (Hno p Hp). by destruct (proposal p).
  - destruct (List.find _ _) as [p|] eqn:Ef.
    + apply find_some in Ef as [Hp%list_elem_of_In Ht%bool_decide_eq_true]. destruct p as [| |r| | | | | |]; try discriminate. exists r. split; [done|].
      assert (Hr : r ∈ removed_leaves q) by (by apply Hin). destruct (removed_leaves q) as [|a [|b l]]; [by apply not_elem_of_nil in Hr| |].
      * apply list_elem_of_singleton in Hr as ->. done.
      * exfalso. apply NoDup_cons in Hnd as [Hn _]. apply Hn. assert (a = b) as ->; [|by left]. apply Hone; apply Hin; set_solver.
    + destruct (removed_leaves q) as [|r l]; [done|]. assert (Hr : Remove r ∈ inline_proposals commit) by (apply Hin; by left).
      apply list_elem_of_In in Hr. by apply (find_none _ _ Ef) in Hr.
Qed.

(** A new member that joins by an external commit and the group agree on its leaf:
    the index the receivers compute before applying the proposals, the leaf it
    vacates or else the first free one, is the leaf the tree gives it after
    they are applied, so the path is never refused for an inconsistent index. *)
Theorem external_commit_index now g m commit q i path :
  group_inv g -> indices_ok g commit NewMemberCommit -> content_sender (ac_content m) = NewMemberCommit ->
  validate_commit now g m = Ok (commit, q, i) ->
  (forall p1 p2 r, p1 ∈ inline_proposals commit -> p2 ∈ inline_proposals commit ->
     from_raw_proposal (PublicGroup_ciphersuite g) p1 = Ok r -> from_raw_proposal (PublicGroup_ciphersuite g) p2 = Ok r -> p1 = p2) ->
  exists v s1, apply_proposals q None (PublicGroup_empty_diff g) = (Ok v, set_pgd_diff s1 (PublicGroup_empty_diff g)) /\
    invitation_list v = [] /\ free_leaf_index s1 = i /\
    (apply_received_update_path (PublicGroup_ciphersuite g) i path s1).1 <> Err InconsistentSenderIndex.
Proof.
  intros [[h [(Hwf & Hok & _) _]] Hstore _ _] Hidx Hs Hv Hinj.
  destruct (external_queue now g m commit q i Hv Hs Hinj) as (Hadds & Hups & Hi & Hr).
  destruct (validated_applicable now g h m commit q i Hwf (proj1 Hok) Hstore) as [Hap Hi0]; [by rewrite Hs|done|].
  pose proof (apply_proposals_spec q None (PublicGroup_empty_diff g) h Hok Hap) as Hspec.
  destruct (apply_proposals q None (PublicGroup_empty_diff g)) as [[v|e|] d'] eqn:E; [| |done].
  2: { by destruct Hspec as (_ & _ & []). }
  destruct Hspec as (s1 & h1 & -> & _ & Hok1 & Hpr & _). destruct (only_removed _ _ _ Hadds Hups _ Hpr) as [Hinv Hleaf].
  assert (Hfree : free_leaf_index s1 = i).
  { unfold leftmost_free_index in Hi. destruct (List.find _ _) as [p|].
    - destruct Hr as (r & -> & Er). injection Hi as <-. apply (freed_leaf _ s1 h h1 (Some r)); [apply Hok|apply Hok1| |].
      + intros r' [= <-]. apply (ap_removes _ _ Hap). rewrite Er. by left.
      + intros j Hj. rewrite Hleaf, Er by done. apply decide_ext. rewrite list_elem_of_singleton. naive_solver.
    - injection Hi as <-. apply (freed_leaf _ s1 h h1 None); [apply Hok|apply Hok1|done|]. intros j Hj. by rewrite Hleaf, Hr, decide_False by (done || apply not_elem_of_nil). }
  exists v, s1. split_and!; [done|done|done|]. by apply (received_path_index _ _ h1).
Qed.

End GroupSteps.

(** ** Witnesses *)

Definition toy_transcripts : TranscriptEncoding := {|
  tls_confirmed_input _ content signature := Some (content_epoch content :: signature);
  tls_interim_input tag := Some tag
|}.

(** A group of one member. *)
Definition group_over (ts : TreeSync) : PublicGroup := {|
  treesync := ts; proposal_store := [];
  group_context := GroupContext_new hash_suite [1] 0 (ts_tree_hash ts) [] [];
  interim_transcript_hash := [2]; confirmation_tag := [3] |}.

Definition sample_group : PublicGroup := group_over sample_new.

Definition sample_key_package : KeyPackage := {|
  kp_protocol_version := Mls10; kp_ciphersuite := hash_suite; kp_init_key := [72]; kp_leaf_node := sample_leaf 2;
  kp_extensions := []; kp_signature := [] |}.

(** The leaf of member 0 after it invited a client and rekeyed its path. *)
Definition sample_committer_leaf : LeafNode :=
  let s := (add_leaf (sample_leaf 2) (TreeSync_empty_diff sample_new)).2 in
  default (sample_leaf 1) (leaf_at (@apply_own_update_path toy_hashing (Ok ([50], [50])) (fun _ => Ok []) hash_suite 0 sample_params
    (zip (filtered_direct_path s 0) (map ParentNode_from [[21]])) s).2 0).

Definition sample_path : CommitPath :=
  {| cp_leaf_node := sample_committer_leaf; cp_nodes := [{| node_public_key := [21]; encrypted_path_secrets := [] |}] |}.

Definition sample_message (s : Sender) (c : Commit) : AuthenticatedContent := {|
  ac_wire_format := WirePublicMessage;
  ac_content := {| content_group_id := [1]; content_epoch := 0; content_sender := s; authenticated_data := []; content_body := BodyCommit c |};
  ac_auth := {| auth_signature := [4]; auth_confirmation_tag := Some [5] |} |}.

Definition sample_invitation : Commit :=
  {| commit_proposals := [ProposalOrRef_Proposal (Add sample_key_package)]; commit_path := Some sample_path |}.

Abbreviation sample_staged := (@stage_commit toy_hashing toy_transcripts toy_proposal_hashing () (Some 0) sample_group
  (sample_message (Sender_Member 0) sample_invitation)).

(** The group once the commit is merged. *)
Definition sample_next : PublicGroup :=
  match sample_staged with
  | Ok {| staged_state := PublicState st |} => merged sample_group st
  | _ => sample_group
  end.

Lemma group_over_inv ts : @tree_ok toy_hashing hash_suite ts 0 -> total (TreeSync_empty_diff ts) = 1 -> @group_inv toy_hashing (group_over ts).
Proof.
  intros Hok H1. split; [by exists 0|by intros ??? ?%not_elem_of_nil|by intros ?? ?%not_elem_of_nil|].
  destruct Hok as (_ & Hts & _). pose proof (mo_leaves _ _ (proj1 Hts)) as Hl. rewrite H1 in Hl.
  assert (H0 : forall i, 0 <= i -> is_Some (leaves_of (group_over ts) i) -> i = 0) by (intros i Hi [Hlt _]%Hl; [lia|done]).
  intros i j a b Hi Hj Ea Eb _. by rewrite (H0 i), (H0 j) by (done || (rewrite ?Ea, ?Eb; eauto)).
Qed.

Lemma sample_group_inv : @group_inv toy_hashing sample_group.
Proof. apply group_over_inv; [exact sample_new_ok|vm_compute; reflexivity]. Qed.

Lemma sample_staged_ok : exists q st, sample_staged = Ok {| staged_proposal_queue := q; staged_state := PublicState st |}.
Proof. vm_compute. eexists _, _. reflexivity. Qed.

Lemma sample_next_step : @group_step toy_hashing toy_transcripts toy_proposal_hashing sample_group sample_next.
Proof.
  unfold sample_next. destruct sample_staged_ok as (q & st & E). rewrite E.
  eapply (step_commit () (Some 0) sample_group (sample_message (Sender_Member 0) sample_invitation) sample_invitation); [reflexivity| | | |exact E|reflexivity].
  - intros q0 i0 path _ [= <-]. left. discriminate.
  - intros i Hi. apply list_elem_of_singleton in Hi. discriminate.
  - intros i [= <-]. lia.
Qed.

Lemma public_group_invariant_witness : @group_inv toy_hashing sample_next /\ gc_epoch (group_context sample_next) = 1.
Proof.
  split; [|vm_compute; reflexivity].
  exact (@public_group_invariant toy_hashing toy_hash_laws toy_transcripts toy_proposal_hashing sample_group sample_next sample_group_inv
    (rtc_once _ _ sample_next_step)).
Defined.

Lemma accepted_commit_correct_witness : exists st q i h, @validate_commit (Some 0) toy_proposal_hashing sample_group (sample_message (Sender_Member 0) sample_invitation) = Ok (sample_invitation, q, i) /\
  @commit_merged toy_hashing sample_group sample_invitation q i (merged sample_group st) h.
Proof.
  destruct sample_staged_ok as (q & st & E).
  destruct ((fun Hpath Hrem Hs => @accepted_commit_correct toy_hashing toy_hash_laws toy_transcripts toy_proposal_hashing () (Some 0) sample_group
    (sample_message (Sender_Member 0) sample_invitation) sample_invitation _ sample_group_inv eq_refl Hpath Hrem Hs E)) as (st' & q' & i & h & _ & Hv & Hm).
  - intros q0 i0 path _ [= <-]. left. discriminate.
  - intros i Hi. apply list_elem_of_singleton in Hi. discriminate.
  - intros i [= <-]. lia.
  - exists st', q', i, h. exact (conj Hv Hm).
Defined.

(** Member 0 commits an update of member 1. *)
Definition sample_updates : ProposalQueue := ProposalQueue_add (sample_proposal 1 (Update (sample_leaf 8)) 1) ProposalQueue_default.

Definition sample_update_commit : Commit := {| commit_proposals := commit_list sample_updates; commit_path := Some sample_path |}.

Lemma inline_update_rejected_witness : ~ exists r : StagedCommit (), @stage_commit toy_hashing toy_transcripts toy_proposal_hashing () (Some 0) sample_next
  {| ac_wire_format := WirePublicMessage;
     ac_content := {| content_group_id := [1]; content_epoch := 1; content_sender := Sender_Member 0; authenticated_data := [];
                      content_body := BodyCommit sample_update_commit |};
     ac_auth := {| auth_signature := [4]; auth_confirmation_tag := Some [5] |} |} = Ok r.
Proof.
  intros [r Hr]. revert Hr. apply (@inline_update_rejected toy_hashing toy_transcripts toy_proposal_hashing () (Some 0) sample_next _ sample_update_commit sample_updates 0 (sample_leaf 8)
    (sample_proposal 1 (Update (sample_leaf 8)) 1)); [reflexivity|reflexivity|reflexivity|by left|reflexivity|].
  intros p1 p2 r0 ->%list_elem_of_singleton ->%list_elem_of_singleton _ _. reflexivity.
Defined.

(** A client joins by an external commit. *)
Definition sample_external : Commit :=
  {| commit_proposals := [ProposalOrRef_Proposal (ExternalInit [6])];
     commit_path := Some {| cp_leaf_node := sample_leaf 5; cp_nodes := [] |} |}.

Definition sample_external_queue : ProposalQueue := ProposalQueue_add {|
  proposal := ExternalInit [6];
  proposal_reference := str_bytes "MLS 1.0 Proposal Reference"%string ++ str_bytes "Internal OpenMLS ProposalRef Label"%string ++ [6];
  sender := NewMemberCommit; proposal_or_ref_type := ByProposal |} ProposalQueue_default.

Lemma external_commit_index_witness : exists v s1,
  apply_proposals sample_external_queue None (PublicGroup_empty_diff sample_group) =
    (Ok v, set_pgd_diff s1 (PublicGroup_empty_diff sample_group)) /\ free_leaf_index s1 = 1.
Proof.
  destruct (@external_commit_index toy_hashing toy_hash_laws toy_proposal_hashing (Some 0) sample_group (sample_message NewMemberCommit sample_external) sample_external
    sample_external_queue 1 (public_part sample_path) sample_group_inv) as (v & s1 & E & _ & Hf & _).
  - split_and!; [intros i Hi; apply list_elem_of_singleton in Hi; discriminate|by intros ?? ?%not_elem_of_nil|discriminate].
  - reflexivity.
  - vm_compute. reflexivity.
  - intros p1 p2 r Hp1 Hp2 _ _. apply list_elem_of_singleton in Hp1 as ->, Hp2 as ->. reflexivity.
  - exists v, s1. exact (conj E Hf).
Defined.
