(* ===== verification/KeySchedule.v ===== *)
(** * The key schedule

    Models [schedule/mod.rs], [schedule/message_secrets.rs], the PSK part of
    [schedule/psk.rs], and the message authentication codes of
    [ciphersuite/mac.rs] with the comparison [equal_ct] of
    [ciphersuite/mod.rs].  The one-field structs that wrap a [Secret] are byte
    strings here; each keeps the functions of its [impl].  Random bytes are
    arguments, key export of HPKE is the provider [HpkeExport], and the TLS
    encoding of a [PskLabel] is the parameter of [PskEncoding]. *)

From Stdlib Require Import String.
From S2P Require Import Prelude TreeMath Crypto BinaryTree SenderRatchet SecretTree LeafNodes Nodes TreeSyncDiff TreeHash UpdatePaths TreeKem TreeSync EpochStores Proposals PublicGroup Validation Storage.

(** ** Providers *)

Class HpkeExport := {
  (** [hpke_setup_sender_and_export(config, pk_r, info, exporter_context, exporter_length)] *)
  provider_sender_export : HpkeKemType * HpkeKdfType * HpkeAeadType -> bytes -> bytes -> bytes -> Z ->
    outcome CryptoError (bytes * bytes);
  (** [hpke_setup_receiver_and_export(config, enc, sk_r, info, exporter_context, exporter_length)] *)
  provider_receiver_export : HpkeKemType * HpkeKdfType * HpkeAeadType -> bytes -> bytes -> bytes -> bytes -> Z ->
    outcome CryptoError bytes
}.

Class PskEncoding := {
  (** [tls_serialize_detached] of a [PskLabel { id, index, count }] *)
  tls_psk_label : PreSharedKeyId -> Z -> Z -> option bytes
}.

(** ** Comparison of secrets and tags *)

(** [zip] stops at the shorter of the two. *)
Definition equal_ct (a b : bytes) : bool :=
  foldl (fun diff '(l, r) => Z.lor diff (Z.lxor l r)) 0 (zip a b) =? 0.

Definition Secret_eq (a b : Secret) : bool :=
  if negb (length a =? length b)%nat then false else equal_ct a b.

Definition Mac_eq (a b : bytes) : bool := equal_ct a b.

(** ** Secrets of an epoch *)

Inductive ErrorState := ErrorInit | ErrorContext.

Inductive KeyScheduleError :=
| ScheduleLibraryError (e : LibraryError)
| InvalidState (e : ErrorState)
| ScheduleCryptoError (e : CryptoError).

Section Secrets.
Context `{!OpenMlsCrypto}.

(** [Mac::new] *)
Definition Mac_new (c : Ciphersuite) (salt : Secret) (ikm : bytes) : outcome CryptoError bytes :=
  Secret_hkdf_extract salt c (Some ikm).

Definition ResumptionPskSecret_new (c : Ciphersuite) (epoch_secret : Secret) : outcome CryptoError Secret :=
  derive_secret epoch_secret c "resumption".
Definition EpochAuthenticator_new (c : Ciphersuite) (epoch_secret : Secret) : outcome CryptoError Secret :=
  derive_secret epoch_secret c "authentication".
Definition InitSecret_new (c : Ciphersuite) (epoch_secret : Secret) : outcome CryptoError Secret :=
  derive_secret epoch_secret c "init".
Definition EncryptionSecret_new (c : Ciphersuite) (epoch_secret : Secret) : outcome CryptoError Secret :=
  derive_secret epoch_secret c "encryption".
Definition ExporterSecret_new (c : Ciphersuite) (epoch_secret : Secret) : outcome CryptoError Secret :=
  derive_secret epoch_secret c "exporter".
Definition ExternalSecret_new (c : Ciphersuite) (epoch_secret : Secret) : outcome CryptoError Secret :=
  derive_secret epoch_secret c "external".
Definition ConfirmationKey_new (c : Ciphersuite) (epoch_secret : Secret) : outcome CryptoError Secret :=
  derive_secret epoch_secret c "confirm".
Definition MembershipKey_new (c : Ciphersuite) (epoch_secret : Secret) : outcome CryptoError Secret :=
  derive_secret epoch_secret c "membership".
Definition SenderDataSecret_new (c : Ciphersuite) (epoch_secret : Secret) : outcome CryptoError Secret :=
  derive_secret epoch_secret c "sender data".

Definition CommitSecret_zero_secret (c : Ciphersuite) : Secret := Secret_zero c.

(** [InitSecret::random] with the answer of the random number generator *)
Definition InitSecret_random (random_vec : option bytes) : outcome CryptoError Secret :=
  ok_or random_vec InsufficientRandomness.

Definition JoinerSecret_new (c : Ciphersuite) (commit_secret_option : option Secret) (init_secret : Secret)
    (serialized_group_context : bytes) : outcome CryptoError Secret :=
  intermediate_secret ← Secret_hkdf_extract init_secret c commit_secret_option;
  kdf_expand_label intermediate_secret c "joiner" serialized_group_context (hash_length c).

Definition IntermediateSecret_new (c : Ciphersuite) (joiner_secret psk : Secret) : outcome CryptoError Secret :=
  Secret_hkdf_extract joiner_secret c (Some psk).

Definition EpochSecret_new (c : Ciphersuite) (intermediate_secret : Secret) (serialized_group_context : bytes) :
    outcome CryptoError Secret :=
  kdf_expand_label intermediate_secret c "epoch" serialized_group_context (hash_length c).

(** *** The welcome secret *)

Definition WelcomeSecret_new (c : Ciphersuite) (intermediate_secret : Secret) : outcome CryptoError Secret :=
  derive_secret intermediate_secret c "welcome".

Definition WelcomeSecret_derive_aead_key (c : Ciphersuite) (s : Secret) : outcome CryptoError AeadKey :=
  aead_secret ← kdf_expand_label s c "key" [] (aead_key_length c);
  Ok (AeadKey_from_secret aead_secret c).

Definition WelcomeSecret_derive_aead_nonce (c : Ciphersuite) (s : Secret) : outcome CryptoError AeadNonce :=
  nonce_secret ← kdf_expand_label s c "nonce" [] (aead_nonce_length c);
  AeadNonce_from_secret nonce_secret.

Definition derive_welcome_key_nonce (c : Ciphersuite) (s : Secret) : outcome CryptoError (AeadKey * AeadNonce) :=
  welcome_nonce ← WelcomeSecret_derive_aead_nonce c s;
  welcome_key ← WelcomeSecret_derive_aead_key c s;
  Ok (welcome_key, welcome_nonce).

(** *** Sender data *)

Definition ciphertext_sample (c : Ciphersuite) (ciphertext : bytes) : bytes :=
  let sample_length := hash_length c in
  if Z.of_nat (length ciphertext) <=? sample_length then ciphertext
  else take (Z.to_nat sample_length) ciphertext.

Definition SenderData_derive_aead_key (c : Ciphersuite) (s : Secret) (ciphertext : bytes) : outcome CryptoError AeadKey :=
  secret ← kdf_expand_label s c "key" (ciphertext_sample c ciphertext) (aead_key_length c);
  Ok (AeadKey_from_secret secret c).

Definition SenderData_derive_aead_nonce (c : Ciphersuite) (s : Secret) (ciphertext : bytes) : outcome CryptoError AeadNonce :=
  nonce_secret ← kdf_expand_label s c "nonce" (ciphertext_sample c ciphertext) (aead_nonce_length c);
  AeadNonce_from_secret nonce_secret.

(** *** Tags *)

Definition ConfirmationKey_tag (c : Ciphersuite) (key : Secret) (confirmed_transcript_hash : bytes) : outcome CryptoError bytes :=
  Mac_new c key confirmed_transcript_hash.

(** [tbm_payload] is the outcome of [into_bytes]. *)
Definition MembershipKey_tag_message (c : Ciphersuite) (key : Secret) (tbm_payload : option bytes) : outcome LibraryError bytes :=
  payload ← ok_or tbm_payload LibraryMissingBoundsCheck;
  map_err LibraryCryptoError (Mac_new c key payload).

Definition derive_exported_secret `{!TreeHashing} (c : Ciphersuite) (exporter_secret : Secret) (label : string) (context : bytes)
    (key_length : Z) : outcome CryptoError bytes :=
  context_hash ← provider_hash (hash_algorithm c) context;
  secret ← derive_secret exporter_secret c label;
  kdf_expand_label secret c "exported" context_hash key_length.

(** *** External initialisation *)

Definition derive_external_keypair `{!OpenMlsHpke} (c : Ciphersuite) (external_secret : Secret) : outcome CryptoError (bytes * bytes) :=
  provider_derive_hpke_keypair (hpke_config c) external_secret.

Definition hpke_info_from_version (version : ProtocolVersion) : string :=
  match version with
  | Mls10 => "MLS 1.0 external init secret"
  | _ => "<OpenMLS reserved; Don't use this.>"
  end.

Definition InitSecret_from_group_context `{!HpkeExport} (g : GroupContext) (external_pub : bytes) :
    outcome KeyScheduleError (Secret * bytes) :=
  let c := gc_ciphersuite g in
  let version := gc_protocol_version g in
  '(kem_output, raw_init_secret) ← map_err ScheduleCryptoError
    (provider_sender_export (hpke_config c) external_pub [] (str_bytes (hpke_info_from_version version)) (hash_length c));
  Ok (raw_init_secret, kem_output).

Definition InitSecret_from_kem_output `{!HpkeExport} (c : Ciphersuite) (version : ProtocolVersion) (external_priv kem_output : bytes) :
    outcome LibraryError Secret :=
  map_err LibraryCryptoError
    (provider_receiver_export (hpke_config c) kem_output external_priv [] (str_bytes (hpke_info_from_version version)) (hash_length c)).

End Secrets.

Record EpochSecrets := mkEpochSecrets {
  init_secret : Secret;
  sender_data_secret : Secret;
  encryption_secret : Secret;
  exporter_secret : Secret;
  epoch_authenticator : Secret;
  external_secret : Secret;
  confirmation_key : Secret;
  membership_key : Secret;
  resumption_psk : Secret
}.

Record GroupEpochSecrets := mkGroupEpochSecrets {
  ge_init_secret : Secret;
  ge_exporter_secret : Secret;
  ge_epoch_authenticator : Secret;
  ge_external_secret : Secret;
  ge_resumption_psk : Secret
}.

Record MessageSecrets := mkMessageSecrets {
  ms_sender_data_secret : Secret;
  ms_membership_key : Secret;
  ms_confirmation_key : Secret;
  ms_serialized_context : bytes;
  ms_secret_tree : SecretTree
}.

Definition create_secret_tree (encryption_secret : Secret) (treesize : TreeSize) (own_index : LeafNodeIndex) : SecretTree :=
  SecretTree_new encryption_secret treesize own_index.

Definition split_secrets (s : EpochSecrets) (serialized_context : bytes) (treesize : TreeSize) (own_index : LeafNodeIndex) :
    GroupEpochSecrets * MessageSecrets :=
  let secret_tree := create_secret_tree (encryption_secret s) treesize own_index in
  ({| ge_init_secret := init_secret s; ge_exporter_secret := exporter_secret s;
      ge_epoch_authenticator := epoch_authenticator s; ge_external_secret := external_secret s;
      ge_resumption_psk := resumption_psk s |},
   {| ms_sender_data_secret := sender_data_secret s; ms_membership_key := membership_key s;
      ms_confirmation_key := confirmation_key s; ms_serialized_context := serialized_context;
      ms_secret_tree := secret_tree |}).

(** ** The schedule *)

Inductive ScheduleState := StateInitial | StateContext | StateDone.

#[export] Instance ScheduleState_eq_dec : EqDecision ScheduleState.
Proof. solve_decision. Defined.

Record KeySchedule := mkKeySchedule {
  ks_ciphersuite : Ciphersuite;
  ks_intermediate_secret : option Secret;
  ks_epoch_secret : option Secret;
  ks_state : ScheduleState
}.

Definition set_state (state : ScheduleState) (s : KeySchedule) : KeySchedule := {|
  ks_ciphersuite := ks_ciphersuite s; ks_intermediate_secret := ks_intermediate_secret s;
  ks_epoch_secret := ks_epoch_secret s; ks_state := state |}.

Definition set_intermediate (o : option Secret) (s : KeySchedule) : KeySchedule := {|
  ks_ciphersuite := ks_ciphersuite s; ks_intermediate_secret := o;
  ks_epoch_secret := ks_epoch_secret s; ks_state := ks_state s |}.

Definition set_epoch (o : option Secret) (s : KeySchedule) : KeySchedule := {|
  ks_ciphersuite := ks_ciphersuite s; ks_intermediate_secret := ks_intermediate_secret s;
  ks_epoch_secret := o; ks_state := ks_state s |}.

Section Schedule.
Context `{!OpenMlsCrypto}.

Definition KeySchedule_init (c : Ciphersuite) (joiner_secret psk : Secret) : outcome LibraryError KeySchedule :=
  intermediate_secret ← map_err LibraryCryptoError (IntermediateSecret_new c joiner_secret psk);
  Ok {| ks_ciphersuite := c; ks_intermediate_secret := Some intermediate_secret; ks_epoch_secret := None; ks_state := StateInitial |}.

Definition welcome (s : KeySchedule) (c : Ciphersuite) : outcome KeyScheduleError Secret :=
  if negb (bool_decide (ks_state s = StateInitial)) || bool_decide (ks_intermediate_secret s = None)
  then Err (InvalidState ErrorInit)
  else
    intermediate_secret ← ok_or (ks_intermediate_secret s) (ScheduleLibraryError LibraryCustom);
    map_err ScheduleCryptoError (WelcomeSecret_new c intermediate_secret).

Definition add_context (serialized_group_context : bytes) : method KeySchedule KeyScheduleError () :=
  self ← get;
  if negb (bool_decide (ks_state self = StateInitial)) || bool_decide (ks_intermediate_secret self = None)
  then fail (InvalidState ErrorInit)
  else
    modify (set_state StateContext);;
    modify (set_intermediate None);;
    intermediate_secret ← lift (ok_or (ks_intermediate_secret self) (ScheduleLibraryError LibraryCustom));
    epoch_secret ← lift (map_err ScheduleCryptoError (EpochSecret_new (ks_ciphersuite self) intermediate_secret serialized_group_context));
    modify (set_epoch (Some epoch_secret));;
    modify (set_intermediate None).

Definition EpochSecrets_new (c : Ciphersuite) (epoch_secret : Secret) : outcome CryptoError EpochSecrets :=
  sender_data_secret ← SenderDataSecret_new c epoch_secret;
  encryption_secret ← EncryptionSecret_new c epoch_secret;
  exporter_secret ← ExporterSecret_new c epoch_secret;
  epoch_authenticator ← EpochAuthenticator_new c epoch_secret;
  external_secret ← ExternalSecret_new c epoch_secret;
  confirmation_key ← ConfirmationKey_new c epoch_secret;
  membership_key ← MembershipKey_new c epoch_secret;
  resumption_psk ← ResumptionPskSecret_new c epoch_secret;
  init_secret ← InitSecret_new c epoch_secret;
  Ok {| init_secret := init_secret; sender_data_secret := sender_data_secret; encryption_secret := encryption_secret;
        exporter_secret := exporter_secret; epoch_authenticator := epoch_authenticator; external_secret := external_secret;
        confirmation_key := confirmation_key; membership_key := membership_key; resumption_psk := resumption_psk |}.

Definition with_init_secret (c : Ciphersuite) (init : Secret) : outcome CryptoError EpochSecrets :=
  s ← EpochSecrets_new c (Secret_zero c);
  Ok {| init_secret := init; sender_data_secret := sender_data_secret s; encryption_secret := encryption_secret s;
        exporter_secret := exporter_secret s; epoch_authenticator := epoch_authenticator s; external_secret := external_secret s;
        confirmation_key := confirmation_key s; membership_key := membership_key s; resumption_psk := resumption_psk s |}.

Definition epoch_secrets (c : Ciphersuite) : method KeySchedule KeyScheduleError EpochSecrets :=
  self ← get;
  if negb (bool_decide (ks_state self = StateContext)) || bool_decide (ks_epoch_secret self = None)
  then fail (InvalidState ErrorContext)
  else
    modify (set_state StateDone);;
    modify (set_epoch None);;
    epoch_secret ← lift (ok_or (ks_epoch_secret self) (ScheduleLibraryError LibraryCustom));
    lift (map_err ScheduleCryptoError (EpochSecrets_new c epoch_secret)).

End Schedule.

(** ** Pre-shared keys *)

Definition PreSharedKeyId_external (psk_id psk_nonce : bytes) : PreSharedKeyId :=
  {| psk := ExternalPsk psk_id; psk_nonce := psk_nonce |}.

Definition PreSharedKeyId_resumption (usage : ResumptionPskUsage) (psk_group_id : bytes) (psk_epoch : Z) (psk_nonce : bytes) : PreSharedKeyId :=
  {| psk := Resumption {| usage := usage; psk_group_id := psk_group_id; psk_epoch := psk_epoch |}; psk_nonce := psk_nonce |}.

Definition PreSharedKeyId_new (random_vec : option bytes) (p : Psk) : outcome CryptoError PreSharedKeyId :=
  psk_nonce ← ok_or random_vec InsufficientRandomness;
  Ok {| psk := p; psk_nonce := psk_nonce |}.

Record PskBundle := mkPskBundle { bundle_secret : Secret }.

Section Psks.
Context `{!OpenMlsCrypto} `{!PskEncoding}.

(** The loop of [PskSecret::new] from position [index] on; [index as u16] wraps. *)
Fixpoint add_psks (c : Ciphersuite) (num_psks index : Z) (psks : list (PreSharedKeyId * Secret)) (psk_secret : Secret) :
    outcome PskError Secret :=
  match psks with
  | [] => Ok psk_secret
  | (psk_id, p) :: psks =>
    psk_extracted ← map_err (fun e => PskLibraryError (LibraryCryptoError e)) (Secret_hkdf_extract (Secret_zero c) c (Some p));
    psk_label ← ok_or (tls_psk_label psk_id (index mod 2 ^ 16) num_psks) (PskLibraryError LibraryMissingBoundsCheck);
    psk_input ← map_err (fun e => PskLibraryError (LibraryCryptoError e))
      (kdf_expand_label psk_extracted c "derived psk" psk_label (hash_length c));
    psk_secret ← map_err (fun e => PskLibraryError (LibraryCryptoError e)) (Secret_hkdf_extract psk_input c (Some psk_secret));
    add_psks c num_psks (index + 1) psks psk_secret
  end.

Definition PskSecret_new (c : Ciphersuite) (psks : list (PreSharedKeyId * Secret)) : outcome PskError Secret :=
  if 2 ^ 16 <=? Z.of_nat (length psks) then Err TooManyKeys
  else add_psks c (Z.of_nat (length psks)) 0 psks (Secret_zero c).

Context `{!Serde Psk} `{!Serde PskBundle}.

(** [PreSharedKeyId::store] *)
Definition PreSharedKeyId_store (id : PreSharedKeyId) (secret : bytes) : method MemoryStorage PskError () :=
  lift_state (fun _ => PskStorage) (Memory.write_psk (psk id) {| bundle_secret := secret |}).

(** The body of the loop of [load_psks]. *)
Definition load_psk (store : ResumptionPskStore Secret) (psk_id : PreSharedKeyId) : method MemoryStorage PskError Secret :=
  match psk psk_id with
  | Resumption resumption => lift (ok_or (ResumptionPskStore_get store (psk_epoch resumption)) PskKeyNotFound)
  | ExternalPsk _ =>
    psk_bundle ← lift_state (fun _ => PskKeyNotFound) (Memory.psk (psk psk_id));
    lift (ok_or (bundle_secret <$> (psk_bundle : option PskBundle)) PskKeyNotFound)
  end.

Fixpoint load_psks (store : ResumptionPskStore Secret) (psk_ids : list PreSharedKeyId) :
    method MemoryStorage PskError (list (PreSharedKeyId * Secret)) :=
  match psk_ids with
  | [] => mret []
  | psk_id :: psk_ids =>
    secret ← load_psk store psk_id;
    rest ← load_psks store psk_ids;
    mret ((psk_id, secret) :: rest)
  end.

End Psks.

(** ** Specification *)

(** HKDF extraction is defined for all inputs. *)
Class ExtractLaws `{!OpenMlsCrypto} : Prop := {
  hkdf_extract_ok hash salt ikm : exists prk, provider_hkdf_extract hash salt ikm = Ok prk
}.

(** Both ends of an HPKE context export the same secret. *)
Class ExportLaws `{!OpenMlsHpke} `{!HpkeExport} : Prop := {
  export_agrees config ikm pk sk info context len enc secret :
    provider_derive_hpke_keypair config ikm = Ok (pk, sk) ->
    provider_sender_export config pk info context len = Ok (enc, secret) ->
    provider_receiver_export config enc sk info context len = Ok secret
}.

(** The calls a client makes on a key schedule. *)
Inductive schedule_call := CallWelcome | CallContext (serialized_group_context : bytes) | CallEpoch.

Inductive schedule_answer := AnswerWelcome (s : Secret) | AnswerContext | AnswerEpoch (s : EpochSecrets).

Section Specification.
Context `{!OpenMlsCrypto} (c : Ciphersuite).

Definition extract (salt ikm : Secret) : Secret :=
  match provider_hkdf_extract (hash_algorithm c) salt ikm with Ok x => x | _ => [] end.

(** [DeriveSecret] *)
Definition derive (s : Secret) (label : string) : Secret := kdf c s label [] (hash_length c).

(** The secrets of an epoch, by the table of labels. *)
Definition epoch_of (e : Secret) : EpochSecrets := {|
  init_secret := derive e "init";
  sender_data_secret := derive e "sender data";
  encryption_secret := derive e "encryption";
  exporter_secret := derive e "exporter";
  epoch_authenticator := derive e "authentication";
  external_secret := derive e "external";
  confirmation_key := derive e "confirm";
  membership_key := derive e "membership";
  resumption_psk := derive e "resumption" |}.

Definition joiner_of (commit_secret init_secret : Secret) (context : bytes) : Secret :=
  kdf c (extract init_secret commit_secret) "joiner" context (hash_length c).

Definition epoch_secret_of (joiner_secret psk : Secret) (context : bytes) : Secret :=
  kdf c (extract joiner_secret psk) "epoch" context (hash_length c).

(** The phases of a schedule and the answers in each. *)
Inductive phase := Fresh | WithContext (serialized_group_context : bytes) | Used.

Definition answer (joiner psk : Secret) (p : phase) (call : schedule_call) : outcome KeyScheduleError schedule_answer * phase :=
  match p, call with
  | Fresh, CallWelcome => (Ok (AnswerWelcome (derive (extract joiner psk) "welcome")), Fresh)
  | Fresh, CallContext context => (Ok AnswerContext, WithContext context)
  | WithContext context, CallEpoch => (Ok (AnswerEpoch (epoch_of (epoch_secret_of joiner psk context))), Used)
  | p, CallEpoch => (Err (InvalidState ErrorContext), p)
  | p, _ => (Err (InvalidState ErrorInit), p)
  end.

(** What the schedule keeps in each phase. *)
Definition schedule_in (joiner psk : Secret) (p : phase) : KeySchedule :=
  match p with
  | Fresh => mkKeySchedule c (Some (extract joiner psk)) None StateInitial
  | WithContext context => mkKeySchedule c None (Some (epoch_secret_of joiner psk context)) StateContext
  | Used => mkKeySchedule c None None StateDone
  end.

Definition schedule_step (call : schedule_call) : method KeySchedule KeyScheduleError schedule_answer :=
  match call with
  | CallWelcome => self ← get; s ← lift (welcome self c); mret (AnswerWelcome s)
  | CallContext context => add_context context;; mret AnswerContext
  | CallEpoch => s ← epoch_secrets c; mret (AnswerEpoch s)
  end.

(** The PSK secret by its recurrence. *)
Fixpoint psk_secret_ref `{!PskEncoding} (num index : Z) (psks : list (PreSharedKeyId * Secret)) (acc : Secret) : Secret :=
  match psks with
  | [] => acc
  | (id, p) :: psks =>
    let input := kdf c (extract (Secret_zero c) p) "derived psk" (default [] (tls_psk_label id index num)) (hash_length c) in
    psk_secret_ref num (index + 1) psks (extract input acc)
  end.

End Specification.

(** A sequence of calls, with all answers. *)
Fixpoint run_calls {S A B E} (step : A -> S -> outcome E B * S) (calls : list A) (s : S) : list (outcome E B) * S :=
  match calls with
  | [] => ([], s)
  | call :: calls => let '(o, s) := step call s in let '(os, s) := run_calls step calls s in (o :: os, s)
  end.

(** ** Lemmas *)

Section ScheduleLemmas.
Context `{!OpenMlsCrypto} `{!KdfLaws} `{!ExtractLaws} (c : Ciphersuite).

Lemma extract_ok salt ikm : Secret_hkdf_extract salt c (Some ikm) = Ok (extract c salt ikm).
Proof. unfold Secret_hkdf_extract, extract. cbn. by destruct (hkdf_extract_ok (hash_algorithm c) salt ikm) as [prk ->]. Qed.

Lemma extract_none salt : Secret_hkdf_extract salt c None = Ok (extract c salt (Secret_zero c)).
Proof. apply (extract_ok salt (Secret_zero c)). Qed.

Lemma expand_hash_ok secret label context : kdf_expand_label secret c label context (hash_length c) = Ok (kdf c secret label context (hash_length c)).
Proof. destruct (lengths_in_range c) as (? & _). apply kdf_expand_label_ok; lia. Qed.

Lemma derive_ok secret label : derive_secret secret c label = Ok (derive c secret label).
Proof. apply expand_hash_ok. Qed.

Lemma EpochSecrets_new_ok e : EpochSecrets_new c e = Ok (epoch_of c e).
Proof.
  unfold EpochSecrets_new, SenderDataSecret_new, EncryptionSecret_new, ExporterSecret_new, EpochAuthenticator_new, ExternalSecret_new,
    ConfirmationKey_new, MembershipKey_new, ResumptionPskSecret_new, InitSecret_new. by rewrite !derive_ok.
Qed.

Lemma KeySchedule_init_ok joiner psk : KeySchedule_init c joiner psk = Ok (schedule_in c joiner psk Fresh).
Proof. unfold KeySchedule_init, IntermediateSecret_new. by rewrite extract_ok. Qed.

Lemma schedule_step_ok joiner psk p call :
  schedule_step c call (schedule_in c joiner psk p) = let '(o, p') := answer c joiner psk p call in (o, schedule_in c joiner psk p').
Proof.
  destruct p, call; unfold schedule_step, welcome, add_context, epoch_secrets, WelcomeSecret_new, EpochSecret_new; run; cbn; try done;
    rewrite ?derive_ok, ?expand_hash_ok, ?EpochSecrets_new_ok; done.
Qed.

Lemma run_calls_ok joiner psk calls : forall p,
  run_calls (schedule_step c) calls (schedule_in c joiner psk p) =
  let '(os, p') := run_calls (fun call p => answer c joiner psk p call) calls p in (os, schedule_in c joiner psk p').
Proof.
  induction calls as [|call calls IH]; intros p; [done|]. cbn [run_calls]. rewrite schedule_step_ok.
  destruct (answer c joiner psk p call) as [o p']. rewrite IH. by destruct (run_calls _ calls p').
Qed.

Lemma JoinerSecret_new_ok commit_secret init context : JoinerSecret_new c commit_secret init context =
  Ok (joiner_of c (default (Secret_zero c) commit_secret) init context).
Proof. unfold JoinerSecret_new. destruct commit_secret; [rewrite extract_ok|rewrite extract_none]; cbn; by rewrite expand_hash_ok. Qed.

Lemma add_psks_ok `{!PskEncoding} num psks : (forall id i n, is_Some (tls_psk_label id i n)) ->
  forall index acc, 0 <= index -> index + Z.of_nat (length psks) <= 2 ^ 16 ->
  add_psks c num index psks acc = Ok (psk_secret_ref c num index psks acc).
Proof.
  intros Henc. induction psks as [|[id p] psks IH]; intros index acc Hi Hn; [done|]. cbn [add_psks psk_secret_ref length] in *.
  rewrite extract_ok. cbn. rewrite Z.mod_small by lia. destruct (Henc id index num) as [label Hl]. rewrite Hl. cbn.
  rewrite expand_hash_ok. cbn. rewrite extract_ok. cbn. apply IH; lia.
Qed.

End ScheduleLemmas.

Section PskLemmas.
Context `{!Serde Psk} `{!SerdeLaws Psk} `{!Serde PskBundle} `{!SerdeLaws PskBundle}.

(** The secret a client knows for a PSK, given its external ones. *)
Definition known_psk (store : ResumptionPskStore Secret) (external : Psk -> option PskBundle) (p : Psk) : option Secret :=
  match p with
  | Resumption resumption => ResumptionPskStore_get store (psk_epoch resumption)
  | ExternalPsk _ => bundle_secret <$> external p
  end.

Lemma load_psks_ok (store : ResumptionPskStore Secret) (external : Psk -> option PskBundle) (ids : list PreSharedKeyId) (st : MemoryStorage) :
  (forall p, holds st PSK_LABEL p (external p)) ->
  load_psks store ids st =
    (match mapM (fun id => pair id <$> known_psk store external (psk id)) ids with Some l => Ok l | None => Err PskKeyNotFound end, st).
Proof.
  intros Hst. induction ids as [|id ids IH]; [done|].
  assert (E : load_psk store id st = (ok_or (known_psk store external (psk id)) PskKeyNotFound, st)).
  { unfold load_psk. destruct (psk id) as [e|r]; [|done]. unfold lift_state, Memory.psk, unwrap. run. rewrite to_vec_encode.
    by rewrite (read_spec PSK_LABEL (ExternalPsk e) (external (ExternalPsk e))) by apply Hst. }
  cbn [load_psks mapM]. unfold mbind at 1, method_bind. rewrite E. destruct (known_psk store external (psk id)) as [s|]; [|done].
  unfold mbind at 1, method_bind. cbn [ok_or]. rewrite IH. cbn. by destruct (mapM _ ids).
Qed.

End PskLemmas.

Lemma equal_ct_acc a b : forall acc, foldl (fun diff '(l, r) => Z.lor diff (Z.lxor l r)) acc (zip a b) =? 0 = true <->
  acc = 0 /\ (a `prefix_of` b \/ b `prefix_of` a).
Proof.
  revert b. induction a as [|x a IH]; intros [|y b] acc; cbn [zip zip_with foldl].
  1-3: rewrite Z.eqb_eq; split; [intros ->; split; [done|]; auto using prefix_nil|by intros [-> _]].
  rewrite IH, Z.lor_eq_0_iff, Z.lxor_eq_0_iff. split.
  - intros [[-> ->] Hp]. split; [done|]. destruct Hp; [left|right]; by apply prefix_cons.
  - intros [-> [Hp|Hp]]; (split; [split; [done|]|]).
    + by apply prefix_cons_inv_1 in Hp.
    + left. by apply prefix_cons_inv_2 in Hp.
    + symmetry. by apply prefix_cons_inv_1 in Hp.
    + right. by apply prefix_cons_inv_2 in Hp.
Qed.

Lemma Mac_eq_refl a : Mac_eq a a = true.
Proof. unfold Mac_eq, equal_ct. rewrite equal_ct_acc. split; [done|by left]. Qed.

(** ** Theorems *)

(** C21: a key schedule answers every sequence of calls as its phases say: the welcome
    secret until the context is added, the context once, the epoch's secrets
    once after it, and an error that names the expected state for every other
    call, without a change.  All secrets are those of the protocol's formulas,
    and the schedule keeps no secret that an answer was derived from for longer
    than the next phase needs it: after the epoch's secrets are out it is empty. *)
Theorem key_schedule_correct `{!OpenMlsCrypto} `{!KdfLaws} `{!ExtractLaws} c joiner psk calls :
  exists s, KeySchedule_init c joiner psk = Ok s /\
    run_calls (schedule_step c) calls s =
      let '(answers, p) := run_calls (fun call p => answer c joiner psk p call) calls Fresh in (answers, schedule_in c joiner psk p).
Proof. exists (schedule_in c joiner psk Fresh). split; [apply KeySchedule_init_ok|apply run_calls_ok]. Qed.

(** C22: the PSK secret of a commit: the secrets of all identifiers are found, in their
    order, in the store of resumption secrets or in the storage, or loading stops
    with [KeyNotFound]; fewer than 2^16 of them are combined as the recurrence of
    the protocol says, with the right index and count, and more are refused.
    Resumption secrets are found by their epoch alone: the group an identifier
    names plays no role in loading. *)
Theorem psk_secret_correct `{!OpenMlsCrypto} `{!KdfLaws} `{!ExtractLaws} `{!PskEncoding}
    `{!Serde Psk} `{!SerdeLaws Psk} `{!Serde PskBundle} `{!SerdeLaws PskBundle} (c : Ciphersuite) (store : ResumptionPskStore Secret)
    (external : Psk -> option PskBundle) (ids : list PreSharedKeyId) (st : MemoryStorage) :
  (forall id i n, is_Some (tls_psk_label id i n)) -> (forall p, holds st PSK_LABEL p (external p)) ->
  match load_psks store ids st with
  | (Ok psks, st') => st' = st /\ psks.*1 = ids /\ Forall (fun x => known_psk store external (psk x.1) = Some x.2) psks /\
      PskSecret_new c psks = if 2 ^ 16 <=? Z.of_nat (length ids) then Err TooManyKeys
        else Ok (psk_secret_ref c (Z.of_nat (length ids)) 0 psks (Secret_zero c))
  | (Err e, st') => st' = st /\ e = PskKeyNotFound /\ Exists (fun id => known_psk store external (psk id) = None) ids
  | (Panic, _) => False
  end.
Proof.
  intros Henc Hst. rewrite (load_psks_ok store external) by done. destruct (mapM _ ids) as [psks|] eqn:E.
  - apply mapM_Some in E. split; [done|]. assert (Hids : psks.*1 = ids /\ Forall (fun x => known_psk store external (psk x.1) = Some x.2) psks).
    { induction E as [|id [id' s] ids psks Hx _ [<- IH]]; [done|]. destruct (known_psk _ _ (psk id)) as [s'|] eqn:Ek; [|discriminate].
      injection Hx as <- <-. split; [done|by constructor]. }
    destruct Hids as [<- Hf]. split_and!; [done..|]. rewrite length_fmap. unfold PskSecret_new.
    destruct (Z.leb_spec (2 ^ 16) (Z.of_nat (length psks))); [done|]. apply add_psks_ok; [done|lia|lia].
  - split_and!; [done..|]. apply mapM_None in E. eapply Exists_impl; [exact E|]. intros id. cbn. by destruct (known_psk _ _ _).
Qed.

(** Tags are compared without their length: a received tag matches exactly when it
    is a prefix of the right one or extends it, so the empty tag is accepted for
    every message; secrets are compared with their length. *)
Theorem mac_accepts_truncation `{!OpenMlsCrypto} :
  (forall a b, Mac_eq a b = true <-> a `prefix_of` b \/ b `prefix_of` a) /\
  (forall a b, Secret_eq a b = true <-> a = b) /\
  (forall c key data tag n, Mac_new c key data = Ok tag -> Mac_eq tag (take n tag) = true /\ Mac_eq tag [] = true).
Proof.
  assert (Hm : forall a b, Mac_eq a b = true <-> a `prefix_of` b \/ b `prefix_of` a).
  { intros a b. unfold Mac_eq, equal_ct. rewrite equal_ct_acc. naive_solver. }
  split_and!; [done| |].
  - intros a b. unfold Secret_eq. destruct (Nat.eqb_spec (length a) (length b)) as [El|Hne]; cbn [negb].
    + rewrite (Hm a b : equal_ct a b = true <-> _). split; [|intros ->; by left].
      intros [[k E]|[k E]]; subst; rewrite length_app in El; destruct k; [by rewrite app_nil_r|cbn in El; lia|by rewrite app_nil_r|cbn in El; lia].
    + split; [done|]. by intros ->.
  - intros c key data tag n _. rewrite !Hm. split; right; [apply prefix_take|apply prefix_nil].
Qed.

(** ** Witnesses *)

Lemma toy_extract_laws : @ExtractLaws toy_crypto.
Proof. split. intros. eexists. reflexivity. Qed.

#[export] Instance Usage_countable : Countable ResumptionPskUsage.
Proof.
  refine (inj_countable' (fun u => match u with UsageApplication => 1 | UsageReinit => 2 | UsageBranch => 3 end)
    (fun n => if n =? 1 then UsageApplication else if n =? 2 then UsageReinit else UsageBranch) _).
  by intros [].
Defined.

#[export] Instance Psk_countable : Countable Psk.
Proof.
  refine (inj_countable' (fun p => match p with ExternalPsk id => inl id | Resumption r => inr (usage r, psk_group_id r, psk_epoch r) end)
    (fun x => match x with inl id => ExternalPsk id | inr (u, g, e) => Resumption (mkResumptionPsk u g e) end) _).
  by intros [|[]].
Defined.

#[export] Instance PskBundle_eq_dec : EqDecision PskBundle.
Proof. solve_decision. Defined.
#[export] Instance PskBundle_countable : Countable PskBundle.
Proof. refine (inj_countable' bundle_secret mkPskBundle _). by intros []. Defined.

Definition toy_psk_labels : PskEncoding := {| tls_psk_label id index count := Some (psk_nonce id ++ [index; count]) |}.

(** Two resumption secrets of different groups and the same epoch. *)
Definition sample_psk_ids : list PreSharedKeyId :=
  [PreSharedKeyId_resumption UsageApplication [1] 4 [7]; PreSharedKeyId_resumption UsageApplication [2] 4 [8]].

Lemma psk_secret_correct_witness :
  exists psks, @load_psks (toy_serde Psk) (toy_serde PskBundle) (ResumptionPskStore_add 4 [9] (ResumptionPskStore_new 2)) sample_psk_ids ∅ = (Ok psks, ∅) /\
    psks.*2 = [[9]; [9]] /\
    @PskSecret_new toy_crypto toy_psk_labels sample_suite psks =
      Ok (@psk_secret_ref toy_crypto sample_suite toy_psk_labels 2 0 psks (Secret_zero sample_suite)).
Proof.
  pose proof (@psk_secret_correct toy_crypto toy_laws toy_extract_laws toy_psk_labels (toy_serde Psk) (toy_serde_laws Psk)
    (toy_serde PskBundle) (toy_serde_laws PskBundle) sample_suite (ResumptionPskStore_add 4 [9] (ResumptionPskStore_new 2))
    (fun _ => None) sample_psk_ids ∅ ltac:(intros; eexists; reflexivity) ltac:(intros; apply lookup_empty)) as Hp.
  match goal with |- exists psks, ?x = _ /\ _ => assert (E : x = (Ok (zip sample_psk_ids [[9]; [9]]), ∅)) by (vm_compute; reflexivity) end.
  rewrite E in Hp. destruct Hp as (_ & _ & _ & Hp). eexists. split; [exact E|]. split; [reflexivity|exact Hp].
Defined.

(** The context too late, the secrets twice. *)
Lemma key_schedule_correct_witness : exists s,
  @KeySchedule_init toy_crypto sample_suite [1] [2] = Ok s /\
  (run_calls (@schedule_step toy_crypto sample_suite) [CallEpoch; CallWelcome; CallContext [3]; CallWelcome; CallEpoch; CallEpoch] s).2 =
    mkKeySchedule sample_suite None None StateDone.
Proof.
  destruct (@key_schedule_correct toy_crypto toy_laws toy_extract_laws sample_suite [1] [2]
    [CallEpoch; CallWelcome; CallContext [3]; CallWelcome; CallEpoch; CallEpoch]) as (s & E & Hs).
  exists s. split; [exact E|]. rewrite Hs. reflexivity.
Defined.
