(* ===== verification/Members.v ===== *)
(** * Members: creating and processing commits

    Models what a member does with a commit: computing an update path
    ([group/public_group/diff/compute_path.rs]), building a commit up to its
    confirmation tag ([group/mls_group/commit_builder.rs]), deriving the secrets
    of the next epoch and staging a received commit
    ([group/mls_group/staged_commit.rs]).  Random values and signatures are
    arguments, the TLS encoding of a group context is the parameter of
    [ContextEncoding].  The welcome message and the group info of a commit are
    not built here. *)

From Stdlib Require Import String.
From S2P Require Import Prelude TreeMath Crypto BinaryTree SenderRatchet SecretTree LeafNodes Nodes TreeSyncDiff TreeHash UpdatePaths TreeKem TreeSync EpochStores Proposals PublicGroup Validation Storage Commits KeySchedule.

Class ContextEncoding := {
  (** [tls_serialize_detached] of a [GroupContext] *)
  tls_group_context : GroupContext -> option bytes
}.

(** ** Update paths of commits *)

Record LeafNodeParameters := mkLeafNodeParameters {
  lp_credential_with_key : option (Credential * bytes);
  lp_capabilities : option Capabilities;
  lp_extensions : option Extensions
}.

Definition LeafNodeParameters_default : LeafNodeParameters :=
  {| lp_credential_with_key := None; lp_capabilities := None; lp_extensions := None |}.

Definition LeafNodeParameters_is_empty (p : LeafNodeParameters) : bool :=
  negb (bool_decide (is_Some (lp_credential_with_key p))) && negb (bool_decide (is_Some (lp_capabilities p))) &&
  negb (bool_decide (is_Some (lp_extensions p))).

Inductive CommitType := CommitExternal (credential_with_key : Credential * bytes) | CommitMember.

Inductive CreateCommitError :=
| CreateLibraryError (e : LibraryError)
| CreateOwnKeyNotFound
| CannotRemoveSelf
| CreateMissingProposal
| WrongProposalSenderType
| CreatePskError (e : PskError)
| CreateProposalValidation (e : ProposalValidationError)
| CreateSignatureError
| MissingCredential
| CreatePublicTreeError
| CreateInvalidExtension
| CreateGCEProposalValidation (e : GroupContextExtensionsProposalValidationError)
| CreateTreeSyncAddLeaf (e : TreeSyncAddLeaf).

Record PathComputationResult := mkPathComputationResult {
  pcr_commit_secret : option CommitSecret;
  pcr_encrypted_path : option CommitPath;
  pcr_plain_path : option (list PlainUpdatePathNode);
  pcr_new_keypairs : list EncryptionKeyPair
}.

Definition PathComputationResult_default : PathComputationResult :=
  {| pcr_commit_secret := None; pcr_encrypted_path := None; pcr_plain_path := None; pcr_new_keypairs := [] |}.

(** What the provider draws and signs for a commit: the seed of the path, the key
    pair of the new leaf, the signatures of the leaf and of the content. *)
Record CommitProvider := mkCommitProvider {
  draw_path_secret : outcome LibraryError PathSecret;
  draw_leaf_keypair : outcome LibraryError EncryptionKeyPair;
  sign_leaf : LeafNodePayload -> outcome LibraryError bytes;
  sign_content : WireFormat -> FramedContent -> option bytes -> outcome LibraryError bytes
}.

Section ComputePath.
Context `{!TreeHashing} `{!OpenMlsCrypto} `{!OpenMlsHpke} `{!ContextEncoding}.

(** The parameters of the new leaf. *)
Definition update_leaf_params (s : TreeSyncDiff) (leaf_index : LeafNodeIndex) (t : CommitType) (p : LeafNodeParameters) :
    outcome CreateCommitError UpdateLeafNodeParams :=
  match t with
  | CommitExternal credential_with_key =>
    Ok {| params_credential := credential_with_key.1; params_signature_key := credential_with_key.2;
          params_capabilities := default Capabilities_default (lp_capabilities p);
          params_extensions := default [] (lp_extensions p) |}
  | CommitMember =>
    leaf ← ok_or (AbDiff_leaf (diff s) leaf_index) (CreateLibraryError LibraryCustom);
    let credential_with_key := default (leaf_credential (payload leaf), leaf_signature_key (payload leaf)) (lp_credential_with_key p) in
    Ok {| params_credential := credential_with_key.1; params_signature_key := credential_with_key.2;
          params_capabilities := default (leaf_capabilities (payload leaf)) (lp_capabilities p);
          params_extensions := default (leaf_extensions (payload leaf)) (lp_extensions p) |}
  end.

Definition compute_path (pr : CommitProvider) (leaf_index : LeafNodeIndex) (exclusion : list LeafNodeIndex) (t : CommitType)
    (leaf_node_params : LeafNodeParameters) (gc_extensions : option Extensions) :
    method PublicGroupDiff CreateCommitError PathComputationResult :=
  self ← get;
  let c := gc_ciphersuite (pgd_context self) in
  params ← lift (update_leaf_params (pgd_diff self) leaf_index t leaf_node_params);
  (match t with
   | CommitExternal _ => lift_state CreateTreeSyncAddLeaf (on_tree (add_leaf new_placeholder));; mret tt
   | CommitMember => mret tt
   end);;
  self ← get;
  let path_indices := filtered_direct_path (pgd_diff self) leaf_index in
  path_secret ← lift (map_err CreateLibraryError (draw_path_secret pr));
  '(path, plain_path, parent_keypairs, commit_secret) ← lift (map_err CreateLibraryError (derive_path c path_secret path_indices));
  new_keypairs ← lift_state CreateTreeSyncAddLeaf
    (on_tree (apply_own_update_path (draw_leaf_keypair pr) (sign_leaf pr) c leaf_index params path));
  lift_state CreateLibraryError (update_group_context gc_extensions);;
  self ← get;
  serialized_group_context ← lift (ok_or (tls_group_context (pgd_context self)) (CreateLibraryError LibraryMissingBoundsCheck));
  let copath_resolutions := copath_keys (pgd_diff self) leaf_index exclusion in
  encrypted_path ← lift (map_err CreateLibraryError (encrypt_path c plain_path serialized_group_context copath_resolutions));
  leaf_node ← lift (ok_or (AbDiff_leaf (diff (pgd_diff self)) leaf_index) (CreateLibraryError LibraryCustom));
  mret {| pcr_commit_secret := Some commit_secret;
          pcr_encrypted_path := Some {| cp_leaf_node := leaf_node; cp_nodes := encrypted_path |};
          pcr_plain_path := Some plain_path;
          pcr_new_keypairs := new_keypairs ++ parent_keypairs |}.

End ComputePath.

(** ** Members *)

Record MemberStagedCommitState := mkMemberStagedCommitState {
  msc_group_epoch_secrets : GroupEpochSecrets;
  msc_message_secrets : MessageSecrets;
  msc_staged_diff : StagedPublicGroupDiff;
  msc_new_keypairs : list EncryptionKeyPair;
  msc_new_leaf_keypair_option : option EncryptionKeyPair;
  msc_update_path_leaf_node : option LeafNode
}.

Abbreviation MemberCommit := (StagedCommit MemberStagedCommitState).

Inductive PendingCommitState :=
| PendingMember (staged : MemberCommit)
| PendingExternal (staged : MemberCommit).

Definition pending_staged_commit (p : PendingCommitState) : MemberCommit :=
  match p with PendingMember pc | PendingExternal pc => pc end.

Inductive MlsGroupState :=
| PendingCommit (p : PendingCommitState)
| Operational
| Inactive.

Inductive OutgoingWireFormatPolicy := OutgoingCiphertext | OutgoingPlaintext.
Inductive IncomingWireFormatPolicy := IncomingCiphertext | IncomingPlaintext | IncomingMixed.

Record WireFormatPolicy := mkWireFormatPolicy { outgoing : OutgoingWireFormatPolicy; incoming : IncomingWireFormatPolicy }.

Definition PURE_CIPHERTEXT_WIRE_FORMAT_POLICY : WireFormatPolicy := {| outgoing := OutgoingCiphertext; incoming := IncomingCiphertext |}.

(** [From<OutgoingWireFormatPolicy> for WireFormat] *)
Definition WireFormat_from (o : OutgoingWireFormatPolicy) : WireFormat :=
  match o with OutgoingCiphertext => WirePrivateMessage | OutgoingPlaintext => WirePublicMessage end.

Definition is_compatible_with (p : IncomingWireFormatPolicy) (w : WireFormat) : bool :=
  match p with
  | IncomingCiphertext => bool_decide (w = WirePrivateMessage)
  | IncomingPlaintext => bool_decide (w = WirePublicMessage)
  | IncomingMixed => bool_decide (w = WirePrivateMessage) || bool_decide (w = WirePublicMessage)
  end.

Record MlsGroupJoinConfig := mkMlsGroupJoinConfig {
  wire_format_policy : WireFormatPolicy;
  padding_size : Z;
  max_past_epochs : Z;
  number_of_resumption_psks : Z;
  use_ratchet_tree_extension : bool;
  sender_ratchet_configuration : SenderRatchetConfiguration
}.

Record MlsGroup := mkMlsGroup {
  mls_group_config : MlsGroupJoinConfig;
  public_group : PublicGroup;
  group_epoch_secrets : GroupEpochSecrets;
  own_leaf_index : LeafNodeIndex;
  message_secrets_store : MessageSecretsStore MessageSecrets;
  resumption_psk_store : ResumptionPskStore Secret;
  own_leaf_nodes : list LeafNode;
  aad : bytes;
  group_state : MlsGroupState
}.

Definition MlsGroup_ciphersuite (g : MlsGroup) : Ciphersuite := PublicGroup_ciphersuite (public_group g).
Definition MlsGroup_version (g : MlsGroup) : ProtocolVersion := PublicGroup_version (public_group g).
Definition MlsGroup_group_id (g : MlsGroup) : bytes := PublicGroup_group_id (public_group g).
Definition MlsGroup_context (g : MlsGroup) : GroupContext := group_context (public_group g).
Definition MlsGroup_proposal_store (g : MlsGroup) : ProposalStore := proposal_store (public_group g).

(** ** Processing a commit *)

Section Processing.
Context `{!TreeHashing} `{!TranscriptEncoding} `{!ProposalHashing} `{!OpenMlsCrypto} `{!OpenMlsHpke} `{!HpkeExport}.
Context `{!PskEncoding} `{!ContextEncoding} `{!Serde Psk} `{!Serde PskBundle}.

(** The secrets of the next epoch; loading PSKs reads the storage. *)
Definition derive_epoch_secrets (g : MlsGroup) (st : MemoryStorage) (v : ApplyProposalsValues) (epoch_secrets : GroupEpochSecrets)
    (commit_secret : CommitSecret) (serialized_provisional_group_context : bytes) : outcome StageCommitError EpochSecrets :=
  let c := MlsGroup_ciphersuite g in
  joiner_secret ← (match external_init_proposal_option v with
    | Some kem_output =>
      external_keypair ← map_err (fun e => StageLibraryError (LibraryCryptoError e)) (derive_external_keypair c (ge_external_secret epoch_secrets));
      init_secret ← map_err StageLibraryError (InitSecret_from_kem_output c (MlsGroup_version g) external_keypair.2 kem_output);
      map_err (fun e => StageLibraryError (LibraryCryptoError e))
        (JoinerSecret_new c (Some commit_secret) init_secret serialized_provisional_group_context)
    | None =>
      map_err (fun e => StageLibraryError (LibraryCryptoError e))
        (JoinerSecret_new c (Some commit_secret) (ge_init_secret epoch_secrets) serialized_provisional_group_context)
    end);
  psks ← map_err StagePskError (load_psks (resumption_psk_store g) (presharedkeys v) st).1;
  psk_secret ← map_err StagePskError (PskSecret_new c psks);
  key_schedule ← map_err StageLibraryError (KeySchedule_init c joiner_secret psk_secret);
  let '(added, key_schedule) := add_context serialized_provisional_group_context key_schedule in
  _ ← map_err (fun _ => StageLibraryError LibraryCustom) added;
  map_err (fun _ => StageLibraryError LibraryCustom) (KeySchedule.epoch_secrets c key_schedule).1.

(** [PublicGroupDiff::decrypt_path] *)
Definition diff_decrypt_path (d : PublicGroupDiff) (owned_keys : list EncryptionKeyPair) (own sender_index : LeafNodeIndex)
    (update_path : list UpdatePathNode) (exclusion : list LeafNodeIndex) :
    outcome ApplyUpdatePathError (list EncryptionKeyPair * CommitSecret) :=
  context ← ok_or (tls_group_context (pgd_context d)) (ApplyLibraryError LibraryMissingBoundsCheck);
  PublicGroupDiff_decrypt_path (pgd_diff d) (gc_ciphersuite (pgd_context d)) context owned_keys own sender_index update_path exclusion.

(** What [stage_commit] does with the path: it ends early when the own leaf was removed. *)
Inductive path_outcome :=
| Removed (d : StagedPublicGroupDiff)
| Processed (commit_secret : CommitSecret) (new_keypairs : list EncryptionKeyPair) (new_leaf_keypair : option EncryptionKeyPair)
    (update_path_leaf_node : option LeafNode).

Definition process_path (g : MlsGroup) (v : ApplyProposalsValues) (sender_index : LeafNodeIndex) (path : option CommitPath)
    (old_epoch_keypairs leaf_node_keypairs : list EncryptionKeyPair) : method PublicGroupDiff StageCommitError path_outcome :=
  let c := MlsGroup_ciphersuite g in
  match path with
  | Some path =>
    lift_state StageUpdatePathError (on_tree (apply_received_update_path c sender_index (public_part path)));;
    lift_state StageLibraryError (update_group_context (new_extensions v));;
    self ← get;
    if self_removed v then
      staged_diff ← lift (map_err StageLibraryError (PublicGroupDiff_into_staged_diff self));
      mret (Removed staged_diff)
    else
      let decryption_keypairs := old_epoch_keypairs ++ leaf_node_keypairs in
      '(new_keypairs, commit_secret) ← lift (map_err StageUpdatePathError
        (diff_decrypt_path self decryption_keypairs (own_leaf_index g) sender_index (cp_nodes path) (exclusion_list v)));
      let new_leaf_keypair_option := match AbDiff_leaf (diff (pgd_diff self)) (own_leaf_index g) with
        | Some leaf => List.find (fun keypair => bool_decide (leaf_encryption_key (payload leaf) = keypair.1)) leaf_node_keypairs
        | None => None
        end in
      mret (Processed commit_secret new_keypairs new_leaf_keypair_option (Some (cp_leaf_node path)))
  | None =>
    if path_required v then fail RequiredPathNotFound
    else
      lift_state StageLibraryError (update_group_context (new_extensions v));;
      mret (Processed (CommitSecret_zero_secret c) [] None None)
  end.

(** From the transcript hash to the staged commit. *)
Definition finish_commit (g : MlsGroup) (st : MemoryStorage) (m : AuthenticatedContent) (q : ProposalQueue) (v : ApplyProposalsValues)
    (commit_secret : CommitSecret) (new_keypairs : list EncryptionKeyPair) (new_leaf_keypair : option EncryptionKeyPair)
    (update_path_leaf_node : option LeafNode) : method PublicGroupDiff StageCommitError MemberCommit :=
  let c := MlsGroup_ciphersuite g in
  lift_state StageLibraryError (PublicGroupDiff_update_confirmed_transcript_hash m);;
  received_confirmation_tag ← lift (ok_or (auth_confirmation_tag (ac_auth m)) ConfirmationTagMissing);
  self ← get;
  context ← lift (ok_or (tls_group_context (pgd_context self)) (StageLibraryError LibraryMissingBoundsCheck));
  secrets ← lift (derive_epoch_secrets g st v (group_epoch_secrets g) commit_secret context);
  let '(provisional_group_secrets, provisional_message_secrets) :=
    split_secrets secrets context (tsd_tree_size (pgd_diff self)) (own_leaf_index g) in
  own_confirmation_tag ← lift (map_err (fun e => StageLibraryError (LibraryCryptoError e))
    (ConfirmationKey_tag c (ms_confirmation_key provisional_message_secrets) (gc_confirmed_transcript_hash (pgd_context self))));
  (if negb (Mac_eq own_confirmation_tag received_confirmation_tag) then fail ConfirmationTagMismatch else mret tt);;
  lift_state StageLibraryError (update_interim_transcript_hash c own_confirmation_tag);;
  self ← get;
  staged_diff ← lift (map_err StageLibraryError (PublicGroupDiff_into_staged_diff self));
  mret {| staged_proposal_queue := q;
          staged_state := GroupMember {|
            msc_group_epoch_secrets := provisional_group_secrets; msc_message_secrets := provisional_message_secrets;
            msc_staged_diff := staged_diff; msc_new_keypairs := new_keypairs;
            msc_new_leaf_keypair_option := new_leaf_keypair; msc_update_path_leaf_node := update_path_leaf_node |} |}.

(** [MlsGroup::stage_commit] on the diff it makes *)
Definition member_stage_on (g : MlsGroup) (st : MemoryStorage) (m : AuthenticatedContent) (commit : Commit) (q : ProposalQueue)
    (sender_index : LeafNodeIndex) (old_epoch_keypairs leaf_node_keypairs : list EncryptionKeyPair) :
    method PublicGroupDiff StageCommitError MemberCommit :=
  v ← lift_state StageLibraryError (apply_proposals q (Some (own_leaf_index g)));
  path ← process_path g v sender_index (commit_path commit) old_epoch_keypairs leaf_node_keypairs;
  match path with
  | Removed staged_diff => mret {|
      staged_proposal_queue := q;
      staged_state := PublicState {| psc_staged_diff := staged_diff; psc_update_path_leaf_node := cp_leaf_node <$> commit_path commit |} |}
  | Processed commit_secret new_keypairs new_leaf_keypair leaf_node =>
    finish_commit g st m q v commit_secret new_keypairs new_leaf_keypair leaf_node
  end.

(** [MlsGroup::stage_commit] *)
Definition member_stage_commit (now : option Z) (g : MlsGroup) (st : MemoryStorage) (m : AuthenticatedContent)
    (old_epoch_keypairs leaf_node_keypairs : list EncryptionKeyPair) : outcome StageCommitError MemberCommit :=
  if bool_decide (content_sender (ac_content m) = Sender_Member (own_leaf_index g)) then Err OwnCommit
  else
    '(commit, proposal_queue, sender_index) ← validate_commit now (public_group g) m;
    (member_stage_on g st m commit proposal_queue sender_index old_epoch_keypairs leaf_node_keypairs
       (PublicGroup_empty_diff (public_group g))).1.

End Processing.

(** ** Building a commit *)

(** The stages of a [CommitBuilder] *)
Record InitialStage := mkInitialStage {
  is_own_proposals : list Proposal;
  is_force_self_update : bool;
  is_leaf_node_parameters : LeafNodeParameters;
  is_consume_proposal_store : bool
}.

Definition CommitBuilder_new : InitialStage := {|
  is_own_proposals := []; is_force_self_update := false; is_leaf_node_parameters := LeafNodeParameters_default;
  is_consume_proposal_store := true |}.

Record LoadedPsks := mkLoadedPsks {
  own_proposals : list Proposal;
  force_self_update : bool;
  leaf_node_parameters : LeafNodeParameters;
  consume_proposal_store : bool;
  loaded_psks : list (PreSharedKeyId * Secret)
}.

(** What [build] leaves for [stage_commit], with the invitations in place of the welcome
    that is made for them and of the group info. *)
Record BuiltCommit := mkBuiltCommit {
  built_commit : AuthenticatedContent;
  built_staged_commit : MemberCommit;
  built_invitations : list (LeafNodeIndex * KeyPackage)
}.

(** The local variables of [build_internal] once the commit is made *)
Record CommitParts := mkCommitParts {
  parts_commit : AuthenticatedContent;
  parts_values : ApplyProposalsValues;
  parts_path : PathComputationResult;
  parts_context : bytes;
  parts_joiner_secret : Secret;
  parts_welcome_secret : Secret;
  parts_secrets : EpochSecrets;
  parts_tag : bytes
}.

Definition set_confirmation_tag (tag : bytes) (m : AuthenticatedContent) : AuthenticatedContent := {|
  ac_wire_format := ac_wire_format m; ac_content := ac_content m;
  ac_auth := {| auth_signature := auth_signature (ac_auth m); auth_confirmation_tag := Some tag |} |}.

Section Building.
Context `{!TreeHashing} `{!TranscriptEncoding} `{!ProposalHashing} `{!OpenMlsCrypto} `{!OpenMlsHpke}.
Context `{!PskEncoding} `{!ContextEncoding} `{!Serde Psk} `{!Serde PskBundle}.
Context (map_order : gmap LeafNodeIndex FilterMember -> list (LeafNodeIndex * FilterMember)).

(** The identifiers of all PSK proposals, own ones first; the stage's flag for the
    store is not looked at. *)
Definition builder_psk_ids (g : MlsGroup) (stage : InitialStage) : list PreSharedKeyId :=
  omap (fun p => match p with PreSharedKey psk => Some psk | _ => None end)
    (is_own_proposals stage ++ map proposal (MlsGroup_proposal_store g)).

Definition builder_load_psks (g : MlsGroup) (st : MemoryStorage) (stage : InitialStage) : outcome CreateCommitError LoadedPsks :=
  psks ← map_err CreatePskError (load_psks (resumption_psk_store g) (builder_psk_ids g stage) st).1;
  Ok {| own_proposals := is_own_proposals stage; force_self_update := is_force_self_update stage;
        leaf_node_parameters := is_leaf_node_parameters stage; consume_proposal_store := is_consume_proposal_store stage;
        loaded_psks := psks |}.

Definition queue_error (e : ProposalQueueError) : CreateCommitError :=
  match e with
  | QueueLibraryError e => CreateLibraryError e
  | QueueProposalNotFound => CreateMissingProposal
  | UpdateFromExternalSender => WrongProposalSenderType
  end.

(** The checks of [build_internal] *)
Definition builder_validate (now : option Z) (g : PublicGroup) (q : ProposalQueue) (own : LeafNodeIndex) : outcome CreateCommitError () :=
  _ ← map_err CreateProposalValidation (validate_proposal_type_support g q);
  _ ← map_err CreateProposalValidation (validate_key_uniqueness g q None);
  _ ← map_err CreateProposalValidation (validate_add_proposals now g q);
  _ ← map_err CreateProposalValidation (validate_capabilities g q);
  _ ← map_err CreateProposalValidation (validate_remove_proposals g q);
  _ ← map_err CreateProposalValidation (validate_pre_shared_key_proposals g q);
  _ ← map_err CreateProposalValidation (validate_update_proposals now g q own);
  map_err CreateGCEProposalValidation (validate_group_context_extensions_proposal g q).

(** [AuthenticatedContent::commit] of a member *)
Definition sign_commit (pr : CommitProvider) (g : MlsGroup) (commit : Commit) : outcome LibraryError AuthenticatedContent :=
  let context := MlsGroup_context g in
  let wire_format := WireFormat_from (outgoing (wire_format_policy (mls_group_config g))) in
  let content := {|
    content_group_id := gc_group_id context; content_epoch := gc_epoch context;
    content_sender := Sender_Member (own_leaf_index g); authenticated_data := aad g; content_body := BodyCommit commit |} in
  serialized_context ← ok_or (tls_group_context context) LibraryMissingBoundsCheck;
  signature ← map_err (fun _ => LibraryCustom) (sign_content pr wire_format content (Some serialized_context));
  Ok {| ac_wire_format := wire_format; ac_content := content;
        ac_auth := {| auth_signature := signature; auth_confirmation_tag := None |} |}.

(** The key schedule of the committer *)
Definition committer_secrets (c : Ciphersuite) (psks : list (PreSharedKeyId * Secret)) (commit_secret : option CommitSecret)
    (init_secret : Secret) (context : bytes) : outcome CreateCommitError (Secret * Secret * EpochSecrets) :=
  joiner_secret ← map_err (fun e => CreateLibraryError (LibraryCryptoError e)) (JoinerSecret_new c commit_secret init_secret context);
  psk_secret ← map_err CreatePskError (PskSecret_new c psks);
  key_schedule ← map_err CreateLibraryError (KeySchedule_init c joiner_secret psk_secret);
  welcome_secret ← map_err (fun _ => CreateLibraryError LibraryCustom) (welcome key_schedule c);
  let '(added, key_schedule) := add_context context key_schedule in
  _ ← map_err (fun _ => CreateLibraryError LibraryCustom) added;
  secrets ← map_err (fun _ => CreateLibraryError LibraryCustom) (KeySchedule.epoch_secrets c key_schedule).1;
  Ok (joiner_secret, welcome_secret, secrets).

(** [build_internal] on the diff it makes, after the proposals are chosen, up to the
    confirmation tag *)
Definition build_parts (pr : CommitProvider) (g : MlsGroup) (stage : LoadedPsks) (q : ProposalQueue) (contains_own_updates : bool) :
    method PublicGroupDiff CreateCommitError CommitParts :=
  let c := MlsGroup_ciphersuite g in
  let own := own_leaf_index g in
  v ← lift_state CreateLibraryError (apply_proposals q (Some own));
  (if self_removed v then fail CannotRemoveSelf else mret tt);;
  path ← (if path_required v || contains_own_updates || force_self_update stage || negb (LeafNodeParameters_is_empty (leaf_node_parameters stage))
    then compute_path pr own (exclusion_list v) CommitMember (leaf_node_parameters stage) (new_extensions v)
    else lift_state CreateLibraryError (update_group_context (new_extensions v));; mret PathComputationResult_default);
  let commit := {| commit_proposals := commit_list q; commit_path := pcr_encrypted_path path |} in
  content ← lift (map_err CreateLibraryError (sign_commit pr g commit));
  lift_state CreateLibraryError (PublicGroupDiff_update_confirmed_transcript_hash content);;
  self ← get;
  context ← lift (ok_or (tls_group_context (pgd_context self)) (CreateLibraryError LibraryMissingBoundsCheck));
  '(joiner_secret, welcome_secret, secrets) ← lift (committer_secrets c (loaded_psks stage) (pcr_commit_secret path)
    (ge_init_secret (group_epoch_secrets g)) context);
  tag ← lift (map_err (fun e => CreateLibraryError (LibraryCryptoError e))
    (ConfirmationKey_tag c (confirmation_key secrets) (gc_confirmed_transcript_hash (pgd_context self))));
  lift_state CreateLibraryError (update_interim_transcript_hash c tag);;
  mret {| parts_commit := set_confirmation_tag tag content; parts_values := v; parts_path := path; parts_context := context;
          parts_joiner_secret := joiner_secret; parts_welcome_secret := welcome_secret; parts_secrets := secrets; parts_tag := tag |}.

(** The end of [build_internal]: the staged commit *)
Definition stage_parts (g : MlsGroup) (q : ProposalQueue) (parts : CommitParts) : method PublicGroupDiff CreateCommitError BuiltCommit :=
  self ← get;
  let '(provisional_group_epoch_secrets, provisional_message_secrets) :=
    split_secrets (parts_secrets parts) (parts_context parts) (tsd_tree_size (pgd_diff self)) (own_leaf_index g) in
  staged_diff ← lift (map_err CreateLibraryError (PublicGroupDiff_into_staged_diff self));
  mret {| built_commit := parts_commit parts;
          built_staged_commit := {|
            staged_proposal_queue := q;
            staged_state := GroupMember {|
              msc_group_epoch_secrets := provisional_group_epoch_secrets; msc_message_secrets := provisional_message_secrets;
              msc_staged_diff := staged_diff; msc_new_keypairs := pcr_new_keypairs (parts_path parts); msc_new_leaf_keypair_option := None;
              msc_update_path_leaf_node := cp_leaf_node <$> pcr_encrypted_path (parts_path parts) |} |};
          built_invitations := invitation_list (parts_values parts) |}.

(** Both, without the group info and the welcome that are made in between *)
Definition build_on (pr : CommitProvider) (g : MlsGroup) (stage : LoadedPsks) (q : ProposalQueue) (contains_own_updates : bool) :
    method PublicGroupDiff CreateCommitError BuiltCommit :=
  parts ← build_parts pr g stage q contains_own_updates; stage_parts g q parts.

(** The beginning of [build_internal]: the proposals of the commit, and whether the
    committer has proposed updates; [f] is the application's filter. *)
Definition choose_proposals (now : option Z) (g : MlsGroup) (stage : LoadedPsks) (f : QueuedProposal -> bool) : outcome CreateCommitError (ProposalQueue * bool) :=
  let c := MlsGroup_ciphersuite g in
  let s := Sender_Member (own_leaf_index g) in
  own ← map_err CreateLibraryError (inline_queued c s (own_proposals stage));
  let group_proposal_store_queue := List.filter (fun _ => consume_proposal_store stage) (MlsGroup_proposal_store g) in
  let l := List.filter f (group_proposal_store_queue ++ own) in
  '(q, contains_own_updates) ← map_err queue_error (filter_proposals_without_inline map_order l (own_leaf_index g));
  _ ← builder_validate now (public_group g) q (own_leaf_index g);
  Ok (q, contains_own_updates).

Definition build_internal (now : option Z) (pr : CommitProvider) (g : MlsGroup) (stage : LoadedPsks) (f : QueuedProposal -> bool) :
    outcome CreateCommitError BuiltCommit :=
  '(q, contains_own_updates) ← choose_proposals now g stage f;
  (build_on pr g stage q contains_own_updates (PublicGroup_empty_diff (public_group g))).1.

End Building.

(** ** Lemmas: the same proposals *)

Lemma map_filter_proposals (f : Proposal -> bool) (l : list QueuedProposal) :
  map proposal (List.filter (fun p => f (proposal p)) l) = List.filter f (map proposal l).
Proof. induction l as [|p l IH]; [done|]. cbn. destruct (f (proposal p)); cbn; by rewrite IH. Qed.

Lemma omap_proposal {A} (f : Proposal -> option A) (l : list QueuedProposal) : omap (fun p => f (proposal p)) l = omap f (map proposal l).
Proof. induction l as [|p l IH]; [done|]. cbn. by rewrite IH. Qed.

Lemma existsb_proposal (f : Proposal -> bool) (l : list QueuedProposal) : existsb (fun p => f (proposal p)) l = existsb f (map proposal l).
Proof. induction l as [|p l IH]; [done|]. cbn. by rewrite IH. Qed.

(** The leaves a list of proposals removes. *)
Definition removes_of (ps : list Proposal) : list LeafNodeIndex := omap (fun p => match p with Remove r => Some r | _ => None end) ps.

Lemma apply_removes_value own l : forall b d, apply_removes own l b d =
  (Ok (b || existsb (fun r => bool_decide (own = Some r)) (removes_of (map proposal l))),
   foldl (fun d r => set_pgd_diff (blank_leaf r (pgd_diff d)) d) d (removes_of (map proposal l))).
Proof.
  induction l as [|p l IH]; intros b d; [cbn; by rewrite orb_false_r|]. cbn [apply_removes map removes_of omap list_omap].
  destruct (proposal p); try (by apply IH). unfold on_tree. run. rewrite IH. f_equal. f_equal. cbn [existsb]. rewrite orb_assoc. f_equal.
  destruct own as [j|]; [|by rewrite bool_decide_false, orb_false_r]. destruct (Z.eqb_spec removed j) as [->|Hne].
  - by rewrite bool_decide_true, orb_true_r.
  - rewrite bool_decide_false, orb_false_r by congruence. done.
Qed.

Lemma apply_adds_same l : forall l' inv d, map proposal l = map proposal l' -> apply_adds l inv d = apply_adds l' inv d.
Proof.
  induction l as [|p l IH]; intros [|p' l'] inv d E; try discriminate; [done|]. injection E as E1 E2. cbn [apply_adds]. rewrite E1.
  destruct (proposal p'); try (by apply IH). run. destruct (lift_state _ _ d) as [[i|e|] d1]; [|done..]. by apply IH.
Qed.

Lemma no_updates_filtered q : update_proposals q = [] -> filtered_by_type q PtUpdate = [].
Proof.
  intros Hu. rewrite filtered_by_type_spec. destruct (List.filter _ _) as [|p l] eqn:E; [done|].
  assert (Hp : In p (p :: l)) by (by left). rewrite <- E in Hp. apply filter_In in Hp as [Hp%list_elem_of_In Ht].
  assert (Hin : exists x, x ∈ update_proposals q); [|destruct Hin as [x Hx]; rewrite Hu in Hx; by apply not_elem_of_nil in Hx].
  destruct (proposal p) as [|lf| | | | | | |] eqn:Ep; try (by apply bool_decide_eq_true in Ht). exists (lf, sender p). apply elem_of_updates. by exists p.
Qed.

Lemma queue_empty q : queue_ok q -> ProposalQueue_is_empty q = is_empty (queued_proposals q).
Proof.
  intros [_ Hq]. unfold ProposalQueue_is_empty, queued_proposals, ProposalQueue_get. destruct (proposal_references q) as [|r rs] eqn:E; [done|].
  assert (Hr : r ∈ r :: rs) by (by left). apply (proj1 (Hq r)) in Hr as [p Hp]. cbn. by rewrite Hp.
Qed.

(** Two queues that cover the same proposals, none of them an Update, change a diff
    in the same way; only a member itself sees its own removal. *)
Lemma apply_proposals_same q q' own own' d :
  map proposal (queued_proposals q) = map proposal (queued_proposals q') -> queue_ok q -> queue_ok q' -> update_proposals q = [] ->
  match apply_proposals q own d with
  | (Ok v, d') => apply_proposals q' own' d = (Ok {|
      path_required := path_required v;
      self_removed := existsb (fun r => bool_decide (own' = Some r)) (removed_leaves q);
      invitation_list := invitation_list v; presharedkeys := presharedkeys v;
      external_init_proposal_option := external_init_proposal_option v; new_extensions := new_extensions v |}, d')
  | (Err e, d') => apply_proposals q' own' d = (Err e, d')
  | (Panic, d') => apply_proposals q' own' d = (Panic, d')
  end.
Proof.
  intros Hsame Hq Hq' Hu.
  assert (Hu' : update_proposals q' = []).
  { unfold update_proposals in *. destruct (omap _ (queued_proposals q')) as [|[lf s] l] eqn:E; [done|]. exfalso.
    assert (Hin : (lf, s) ∈ update_proposals q') by (unfold update_proposals; rewrite E; by left).
    apply elem_of_updates in Hin as (p & Hp & Ep & _). assert (Hm : Update lf ∈ map proposal (queued_proposals q)).
    { rewrite Hsame, <- Ep. by apply (list_elem_of_fmap_2 proposal). }
    apply list_elem_of_fmap in Hm as (p' & Ep' & Hp'). assert (Hx : (lf, sender p') ∈ update_proposals q) by (apply elem_of_updates; by exists p').
    unfold update_proposals in Hx. rewrite Hu in Hx. by apply not_elem_of_nil in Hx. }
  assert (Hf : forall ty, map proposal (filtered_by_type q ty) = map proposal (filtered_by_type q' ty)).
  { intros ty. by rewrite !filtered_by_type_spec, !(map_filter_proposals (fun p => is_type p ty)), Hsame. }
  assert (Hr : removed_leaves q = removes_of (map proposal (filtered_by_type q PtRemove))).
  { unfold removes_of. rewrite <- removes_filtered. apply (omap_proposal (fun p => match p with Remove r => Some r | _ => None end)). }
  assert (Hext : first_external_init q' = first_external_init q).
  { unfold first_external_init. specialize (Hf PtExternalInit). destruct (filtered_by_type q PtExternalInit) as [|p l], (filtered_by_type q' PtExternalInit) as [|p' l'];
      try discriminate; [done|]. injection Hf as -> _. done. }
  unfold apply_proposals. rewrite (no_updates_filtered q Hu), (no_updates_filtered q' Hu'). cbn [for_each_m]. run.
  rewrite !apply_removes_value, <- (Hf PtRemove), (apply_adds_same _ _ [] _ (Hf PtAdd)).
  destruct (apply_adds _ _ _) as [[inv|e|] d']; [|done..]. cbn [path_required invitation_list presharedkeys external_init_proposal_option new_extensions].
  f_equal. f_equal. f_equal.
  - rewrite (existsb_proposal Proposal_is_path_required), <- Hsame, <- (existsb_proposal Proposal_is_path_required). rewrite Hext, !queue_empty by done.
    f_equal. apply (f_equal is_empty) in Hsame. by destruct (queued_proposals q), (queued_proposals q').
  - by rewrite Hr.
  - rewrite !(omap_proposal (fun p => match p with PreSharedKey psk => Some psk | _ => None end)). by rewrite Hf.
  - done.
  - rewrite !(omap_proposal (fun p => match p with GroupContextExtensions es => Some es | _ => None end)). by rewrite Hf.
Qed.

(** ** Lemmas: computing and processing a path *)

Lemma on_tree_ok {E A} (x : method TreeSyncDiff E A) d r d' :
  on_tree x d = (Ok r, d') -> exists s, x (pgd_diff d) = (Ok r, s) /\ d' = set_pgd_diff s d.
Proof. unfold on_tree, on_part. destruct (x (pgd_diff d)) as [o s]. intros [= -> <-]. by exists s. Qed.

Lemma lift_ok {S E A} (o : outcome E A) (s : S) r s' : lift o s = (Ok r, s') -> o = Ok r /\ s' = s.
Proof. unfold lift. by intros [= -> ->]. Qed.

Lemma get_ok {S E} (s : S) r s' : get (E := E) s = (Ok r, s') -> r = s /\ s' = s.
Proof. by intros [= -> ->]. Qed.

Lemma ok_or_ok {E A} (o : option A) (e : E) x : ok_or o e = Ok x -> o = Some x.
Proof. by destruct o; [intros [= ->]|]. Qed.

(** Takes the first call of a method that succeeded. *)
Tactic Notation "step" hyp(H) "as" ident(x) ident(d) ident(E) :=
  apply method_bind_ok in H as (x & d & E & H);
  first [ apply get_ok in E as [-> ->] | apply lift_state_ok in E
        | apply lift_ok in E as [E ->]; repeat first [apply map_err_ok in E | apply ok_or_ok in E] | idtac ].

Section Paths.
Context `{!TreeHashing} `{!OpenMlsCrypto} `{!OpenMlsHpke} `{!ContextEncoding}.

Lemma own_update_path_single kp sign c i params path s r s' :
  apply_own_update_path kp sign c i params path s = (Ok r, s') -> exists keypair, kp = Ok keypair /\ r = [keypair].
Proof.
  unfold apply_own_update_path, new_with_parent_hash. intros Hrun. step Hrun as hash d1 E1. step Hrun as x d2 E2. destruct x as [leaf keypair].
  ok_inv E2. injection E2 as <- <-. step Hrun as root d3 E3. step Hrun as u d4 E4. injection Hrun as <- _. by exists x.
Qed.

(** Only the payload that is signed matters to the committer. *)
Lemma own_update_path_signed keypair sign c i params path s r s' :
  apply_own_update_path (Ok keypair) sign c i params path s = (Ok r, s') ->
  apply_own_update_path (Ok keypair) (fun tbs => Ok (match sign tbs with Ok x => x | _ => [] end)) c i params path s = (Ok r, s').
Proof.
  unfold apply_own_update_path, new_with_parent_hash. unfold mbind, method_bind, outcome_bind, lift.
  destruct (lift_state _ _ s) as [[hash|e|] s1]; [|done..]. by destruct (sign _).
Qed.

Lemma compute_path_ok pr i ex params es d r d' :
  let c := gc_ciphersuite (pgd_context d) in
  compute_path pr i ex CommitMember params es d = (Ok r, d') ->
  exists secret up path plain pairs cs keypair s' ctx nodes leaf,
    is_Some (leaf_at (pgd_diff d) i) /\
    derive_path c secret (filtered_direct_path (pgd_diff d) i) = Ok (path, plain, pairs, cs) /\
    draw_leaf_keypair pr = Ok keypair /\
    apply_own_update_path (Ok keypair) (sign_leaf pr) c i up path (pgd_diff d) = (Ok [keypair], s') /\
    update_group_context es (set_pgd_diff s' d) = (Ok tt, d') /\ pgd_diff d' = s' /\
    tls_group_context (pgd_context d') = Some ctx /\
    encrypt_path c plain ctx (copath_keys s' i ex) = Ok nodes /\ leaf_at s' i = Some leaf /\
    r = {| pcr_commit_secret := Some cs; pcr_encrypted_path := Some {| cp_leaf_node := leaf; cp_nodes := nodes |};
           pcr_plain_path := Some plain; pcr_new_keypairs := keypair :: pairs |}.
Proof.
  intros c Hrun. unfold compute_path in Hrun. step Hrun as self0 d0 E0. step Hrun as up d1 Eup. step Hrun as u d2 Eu.
  step Hrun as self1 d3 E1. step Hrun as secret d4 Es. step Hrun as x d5 Ed. destruct x as [[[path plain] pairs] cs].
  step Hrun as kps d6 Ea. apply on_tree_ok in Ea as (s' & Ea & ->). destruct (own_update_path_single _ _ _ _ _ _ _ _ _ Ea) as (keypair & Ek & ->).
  step Hrun as u1 d7 Eg. destruct u1. step Hrun as self2 d8 E2. step Hrun as ctx d9 Ec. step Hrun as nodes d10 En. step Hrun as leaf d11 El.
  injection Hrun as <- <-. rewrite Ek in Ea.
  assert (Ed7 : pgd_diff d7 = s') by (by apply update_group_context_ok in Eg as (hash & _ & -> & _)).
  exists secret, up, path, plain, pairs, cs, keypair, s', ctx, nodes, leaf. rewrite Ed7 in En, El. split_and!; try done.
  cbn [update_leaf_params] in Eup. ok_inv Eup. apply ok_or_ok in Hx. by exists x.
Qed.

End Paths.
