(* ===== verification/Framing.v ===== *)
(** * Framing of messages

    Models the messages of [openmls/src/framing/]: the bodies before their
    validation ([mls_content_in.rs], [mls_auth_content_in.rs]), signing and
    verifying of content ([ciphersuite/signable.rs], [mls_auth_content.rs]),
    public messages and their membership tags ([public_message.rs],
    [public_message_in.rs]), private messages ([private_message.rs],
    [private_message_in.rs], [codec.rs]), the unified message type
    ([message_in.rs]) and the first checks of an inbound message
    ([validation.rs]).

    Encodings are parameters ([Tls]), as are the AEAD and the signature scheme
    of the provider.  [ProposalIn] and [CommitIn], the two bodies before their
    validation, are left abstract: framing moves them around and asks them for
    the credential of a joiner. *)

From Stdlib Require Import String.
From stdpp Require Import functions.
From S2P Require Import Prelude TreeMath Crypto Tls BinaryTree SenderRatchet SecretTree LeafNodes Nodes TreeSyncDiff TreeHash UpdatePaths TreeKem TreeSync EpochStores Proposals PublicGroup Validation Storage KeySchedule Members.

(** ** Content types *)

Definition ContentType_try_from (value : Z) : option ContentType :=
  match value with
  | 1 => Some ContentApplication
  | 2 => Some ContentProposal
  | 3 => Some ContentCommit
  | _ => None
  end.

Definition is_handshake_message (t : ContentType) : bool :=
  bool_decide (t = ContentProposal) || bool_decide (t = ContentCommit).

(** ** Incoming content *)

(** A credential and the signature key it goes with. *)
Abbreviation CredentialWithKey := (Credential * bytes)%type (only parsing).

Inductive SenderContext :=
| ContextMember (group_id : bytes) (leaf : LeafNodeIndex)
| ContextExternalCommit (group_id : bytes) (leaf : LeafNodeIndex).

Class InboundBodies := {
  ProposalIn : Type;
  CommitIn : Type;
  (** [From<Proposal> for ProposalIn], [From<Commit> for CommitIn] *)
  ProposalIn_from : Proposal -> ProposalIn;
  CommitIn_from : Commit -> CommitIn;
  (** [ProposalIn::validate], [CommitIn::validate] *)
  ProposalIn_validate : Ciphersuite -> option SenderContext -> ProtocolVersion -> ProposalIn -> outcome ValidationError Proposal;
  CommitIn_validate : Ciphersuite -> SenderContext -> ProtocolVersion -> CommitIn -> outcome ValidationError Commit;
  (** [CommitIn::unverified_credential], the credential of the leaf of the path *)
  commit_unverified_credential : CommitIn -> option CredentialWithKey;
  (** the credential of the key package when the proposal is an [Add] *)
  add_unverified_credential : ProposalIn -> option CredentialWithKey
}.

Section Messages.
Context `{!InboundBodies}.

Inductive FramedContentBodyIn :=
| InApplication (application_data : bytes)
| InProposal (p : ProposalIn)
| InCommit (c : CommitIn).

Definition FramedContentBodyIn_content_type (b : FramedContentBodyIn) : ContentType :=
  match b with
  | InApplication _ => ContentApplication
  | InProposal _ => ContentProposal
  | InCommit _ => ContentCommit
  end.

Record FramedContentIn := mkFramedContentIn {
  in_group_id : bytes;
  in_epoch : Z;
  in_sender : Sender;
  in_authenticated_data : bytes;
  in_body : FramedContentBodyIn
}.

Definition FramedContentBodyIn_from (b : FramedContentBody) : FramedContentBodyIn :=
  match b with
  | BodyApplication application => InApplication application
  | BodyProposal proposal => InProposal (ProposalIn_from proposal)
  | BodyCommit commit => InCommit (CommitIn_from commit)
  end.

Definition FramedContentIn_from (v : FramedContent) : FramedContentIn := {|
  in_group_id := content_group_id v; in_epoch := content_epoch v; in_sender := content_sender v;
  in_authenticated_data := authenticated_data v; in_body := FramedContentBodyIn_from (content_body v) |}.

Definition FramedContentBodyIn_validate (c : Ciphersuite) (sender_context : option SenderContext) (protocol_version : ProtocolVersion)
    (b : FramedContentBodyIn) : outcome ValidationError FramedContentBody :=
  match b with
  | InApplication bytes => Ok (BodyApplication bytes)
  | InProposal proposal_in => p ← ProposalIn_validate c sender_context protocol_version proposal_in; Ok (BodyProposal p)
  | InCommit commit_in =>
    sender_context ← ok_or sender_context (ValidationLibraryError LibraryCustom);
    commit ← CommitIn_validate c sender_context protocol_version commit_in;
    Ok (BodyCommit commit)
  end.

Definition FramedContentIn_validate (c : Ciphersuite) (sender_context : option SenderContext) (protocol_version : ProtocolVersion)
    (self : FramedContentIn) : outcome ValidationError FramedContent :=
  body ← FramedContentBodyIn_validate c sender_context protocol_version (in_body self);
  Ok {| content_group_id := in_group_id self; content_epoch := in_epoch self; content_sender := in_sender self;
        authenticated_data := in_authenticated_data self; content_body := body |}.

Record AuthenticatedContentIn := mkAuthenticatedContentIn {
  aci_wire_format : WireFormat;
  aci_content : FramedContentIn;
  aci_auth : FramedContentAuthData
}.

Definition AuthenticatedContentIn_from (v : AuthenticatedContent) : AuthenticatedContentIn :=
  {| aci_wire_format := ac_wire_format v; aci_content := FramedContentIn_from (ac_content v); aci_auth := ac_auth v |}.

Definition AuthenticatedContentIn_validate (c : Ciphersuite) (sender_context : option SenderContext) (protocol_version : ProtocolVersion)
    (self : AuthenticatedContentIn) : outcome ValidationError AuthenticatedContent :=
  content ← FramedContentIn_validate c sender_context protocol_version (aci_content self);
  Ok {| ac_wire_format := aci_wire_format self; ac_content := content; ac_auth := aci_auth self |}.

(** [FramedContentTbs] and [FramedContentTbsIn], by the type of their content *)
Record Tbs (C : Type) := mkTbs {
  tbs_version : ProtocolVersion;
  tbs_wire_format : WireFormat;
  tbs_content : C;
  tbs_serialized_context : option bytes
}.

Definition FramedContentTbs := Tbs FramedContent.
Definition FramedContentTbsIn := Tbs FramedContentIn.

Record VerifiableAuthenticatedContentIn := mkVerifiable {
  verifiable_tbs : FramedContentTbsIn;
  verifiable_auth : FramedContentAuthData
}.

(** [ProtocolVersion::default()] is [Mls10]. *)
Definition Verifiable_new (w : WireFormat) (content : FramedContentIn) (serialized_context : option bytes)
    (auth : FramedContentAuthData) : VerifiableAuthenticatedContentIn := {|
  verifiable_tbs := {| tbs_version := Mls10; tbs_wire_format := w; tbs_content := content; tbs_serialized_context := serialized_context |};
  verifiable_auth := auth |}.

Definition verifiable_sender (v : VerifiableAuthenticatedContentIn) : Sender := in_sender (tbs_content _ (verifiable_tbs v)).
Definition verifiable_content_type (v : VerifiableAuthenticatedContentIn) : ContentType :=
  FramedContentBodyIn_content_type (in_body (tbs_content _ (verifiable_tbs v))).

Definition new_member_credential (v : VerifiableAuthenticatedContentIn) : outcome ValidationError CredentialWithKey :=
  let content := tbs_content _ (verifiable_tbs v) in
  match in_sender content with
  | NewMemberCommit =>
    match in_body content with
    | InCommit commit => ok_or (commit_unverified_credential commit) ValidationNoPath
    | _ => Err NotACommit
    end
  | NewMemberProposal =>
    match in_body content with
    | InProposal p => ok_or (add_unverified_credential p) NotAnExternalAddProposal
    | _ => Err NotAnExternalAddProposal
    end
  | _ => Err UnknownMember
  end.

(** ** Public and private messages *)

(** [PublicMessage] *)
Record PublicMessage := mkPublicMessage {
  pub_content : FramedContent;
  pub_auth : FramedContentAuthData;
  pub_membership_tag : option bytes
}.

Definition PublicMessage_from (v : AuthenticatedContent) : PublicMessage :=
  {| pub_content := ac_content v; pub_auth := ac_auth v; pub_membership_tag := None |}.

Record PublicMessageIn := mkPublicMessageIn {
  pubin_content : FramedContentIn;
  pubin_auth : FramedContentAuthData;
  pubin_membership_tag : option bytes
}.

Definition PublicMessageIn_from (v : PublicMessage) : PublicMessageIn := {|
  pubin_content := FramedContentIn_from (pub_content v); pubin_auth := pub_auth v; pubin_membership_tag := pub_membership_tag v |}.

Definition into_verifiable_content (m : PublicMessageIn) (serialized_context : option bytes) : VerifiableAuthenticatedContentIn :=
  Verifiable_new WirePublicMessage (pubin_content m) serialized_context (pubin_auth m).

(** [PrivateMessage] and [PrivateMessageIn] have the same fields. *)
Record PrivateMessage := mkPrivateMessage {
  priv_group_id : bytes;
  priv_epoch : Z;
  priv_content_type : ContentType;
  priv_authenticated_data : bytes;
  priv_encrypted_sender_data : bytes;
  priv_ciphertext : bytes
}.

(** ** The unified message *)

Inductive MlsMessageBodyIn (W G K : Type) :=
| BodyInPublicMessage (m : PublicMessageIn)
| BodyInPrivateMessage (m : PrivateMessage)
| BodyInWelcome (w : W)
| BodyInGroupInfo (g : G)
| BodyInKeyPackage (k : K).
Arguments BodyInPublicMessage {W G K} _.
Arguments BodyInPrivateMessage {W G K} _.
Arguments BodyInWelcome {W G K} _.
Arguments BodyInGroupInfo {W G K} _.
Arguments BodyInKeyPackage {W G K} _.

Record MlsMessageIn (W G K : Type) := mkMlsMessageIn {
  msg_version : ProtocolVersion;
  msg_body : MlsMessageBodyIn W G K
}.
Arguments mkMlsMessageIn {W G K} _ _.
Arguments msg_version {W G K} _.
Arguments msg_body {W G K} _.

Definition wire_format {W G K} (m : MlsMessageIn W G K) : WireFormat :=
  match msg_body m with
  | BodyInPrivateMessage _ => WirePrivateMessage
  | BodyInPublicMessage _ => WirePublicMessage
  | BodyInWelcome _ => WireWelcome
  | BodyInGroupInfo _ => WireGroupInfo
  | BodyInKeyPackage _ => WireKeyPackage
  end.

Definition into_welcome {W G K} (m : MlsMessageIn W G K) : option W :=
  match msg_body m with BodyInWelcome w => Some w | _ => None end.

(** [ProtocolMessage] of [message_in.rs] *)
Inductive InboundProtocolMessage :=
| ProtocolPrivateMessage (m : PrivateMessage)
| ProtocolPublicMessage (m : PublicMessageIn).

(** [TryFrom<MlsMessageIn> for ProtocolMessage]; the only error is [WrongWireFormat]. *)
Definition ProtocolMessage_try_from {W G K} (m : MlsMessageIn W G K) : option InboundProtocolMessage :=
  match msg_body m with
  | BodyInPublicMessage m => Some (ProtocolPublicMessage m)
  | BodyInPrivateMessage m => Some (ProtocolPrivateMessage m)
  | _ => None
  end.

(** [group_id()], [epoch()] and [content_type()] *)
Definition protocol_header (m : InboundProtocolMessage) : ProtocolMessage :=
  match m with
  | ProtocolPrivateMessage m => {|
      pm_group_id := priv_group_id m; pm_epoch := priv_epoch m; pm_content_type := priv_content_type m |}
  | ProtocolPublicMessage m => {|
      pm_group_id := in_group_id (pubin_content m); pm_epoch := in_epoch (pubin_content m);
      pm_content_type := FramedContentBodyIn_content_type (in_body (pubin_content m)) |}
  end.

Definition is_external (m : InboundProtocolMessage) : bool :=
  match m with
  | ProtocolPublicMessage p => negb (is_member (in_sender (pubin_content p)))
  | ProtocolPrivateMessage _ => false
  end.

End Messages.

#[global] Arguments BodyInPublicMessage {_ W G K} _.
#[global] Arguments BodyInPrivateMessage {_ W G K} _.
#[global] Arguments BodyInWelcome {_ W G K} _.
#[global] Arguments BodyInGroupInfo {_ W G K} _.
#[global] Arguments BodyInKeyPackage {_ W G K} _.
#[global] Arguments mkMlsMessageIn {_ W G K} _ _.
#[global] Arguments msg_version {_ W G K} _.
#[global] Arguments msg_body {_ W G K} _.

Arguments mkTbs {C} _ _ _ _.
Arguments tbs_version {C} _.
Arguments tbs_wire_format {C} _.
Arguments tbs_content {C} _.
Arguments tbs_serialized_context {C} _.

(** ** Encodings *)

Record MlsSenderData := mkMlsSenderData {
  sd_leaf_index : LeafNodeIndex;
  sd_generation : Z;
  sd_reuse_guard : bytes
}.

(** [MlsSenderDataAad { group_id, epoch, content_type }] *)
Abbreviation MlsSenderDataAad := (bytes * Z * ContentType)%type (only parsing).
(** [PrivateContentAad { group_id, epoch, content_type, authenticated_data }] *)
Abbreviation PrivateContentAad := (bytes * Z * ContentType * bytes)%type (only parsing).

Class FramingEncoding `{!InboundBodies} := {
  (** [VLBytes], and the types that wrap one: [Signature], [Mac] and the tags *)
  codec_bytes : Codec bytes;
  write_proposal : Writer Proposal;
  codec_proposal_in : Codec ProposalIn;
  write_commit : Writer Commit;
  codec_commit_in : Codec CommitIn;
  write_version : Writer ProtocolVersion;
  write_wire_format : Writer WireFormat;
  write_content : Writer FramedContent;
  codec_content_in : Codec FramedContentIn;
  write_content_aad : Writer PrivateContentAad;
  write_sender_data_aad : Writer MlsSenderDataAad;
  codec_sender_data : Codec MlsSenderData;
  (** [SignContent { label, content }] *)
  write_sign_content : Writer (bytes * bytes)
}.

Class FramingLaws `{!InboundBodies} `{!FramingEncoding} : Prop := {
  codec_bytes_ok : codec_ok codec_bytes;
  codec_proposal_in_ok : codec_ok codec_proposal_in;
  codec_commit_in_ok : codec_ok codec_commit_in;
  codec_content_in_ok : codec_ok codec_content_in;
  codec_sender_data_ok : codec_ok codec_sender_data;
  write_proposal_as : writes_as ProposalIn_from write_proposal codec_proposal_in;
  write_commit_as : writes_as CommitIn_from write_commit codec_commit_in;
  write_content_as : writes_as FramedContentIn_from write_content codec_content_in
}.

(** ** The provider *)

Class AeadProvider := {
  (** [aead_encrypt(alg, key, data, nonce, aad)] *)
  provider_aead_encrypt : AeadType -> bytes -> bytes -> bytes -> bytes -> outcome CryptoError bytes;
  (** [aead_decrypt(alg, key, ct_tag, nonce, aad)] *)
  provider_aead_decrypt : AeadType -> bytes -> bytes -> bytes -> bytes -> outcome CryptoError bytes
}.

(** Keys and nonces of the right lengths seal, and what was sealed is opened with
    the same key, nonce and associated data. *)
Class AeadLaws `{!AeadProvider} : Prop := {
  aead_seals alg key data nonce aad : Z.of_nat (length key) = key_size alg -> Z.of_nat (length nonce) = nonce_size alg ->
    exists ct, provider_aead_encrypt alg key data nonce aad = Ok ct /\ provider_aead_decrypt alg key ct nonce aad = Ok data
}.

Class SignatureProvider := {
  (** [verify_signature(alg, data, pk, signature)] *)
  provider_verify_signature : SignatureScheme -> bytes -> bytes -> bytes -> outcome CryptoError ()
}.

(** [Signer::sign] *)
Definition Signer := bytes -> outcome CryptoError bytes.

(** The signer's key is [pk]. *)
Definition signer_for `{!SignatureProvider} (scheme : SignatureScheme) (pk : bytes) (signer : Signer) : Prop :=
  forall data signature, signer data = Ok signature -> provider_verify_signature scheme data pk signature = Ok tt.

Definition aead_seal `{!AeadProvider} (key : AeadKey) (msg aad : bytes) (nonce : AeadNonce) : outcome CryptoError bytes :=
  map_err (fun _ => CryptoLibraryError) (provider_aead_encrypt (aead_mode key) (aead_value key) msg nonce aad).

Definition aead_open `{!AeadProvider} (key : AeadKey) (ciphertext aad : bytes) (nonce : AeadNonce) : outcome CryptoError bytes :=
  map_err (fun _ => AeadDecryptionError) (provider_aead_decrypt (aead_mode key) (aead_value key) ciphertext nonce aad).

Definition REUSE_GUARD_BYTES : Z := 4.

Definition xor_with_reuse_guard (nonce : AeadNonce) (reuse_guard : bytes) : AeadNonce :=
  zip_with Z.lxor (take (Z.to_nat REUSE_GUARD_BYTES) nonce) reuse_guard ++ drop (Z.to_nat REUSE_GUARD_BYTES) nonce.

Section Framing.
Context `{!InboundBodies} `{!FramingEncoding}.

(** ** Content on the wire *)

(** [self.tls_serialize_detached()] of a [Tbs], by how its content is written *)
Definition framed_content_tbs_serialized {C} (w : Writer C) (sender_of : C -> Sender) (tbs : Tbs C) : outcome TlsError bytes :=
  append_serialized (tls_serialize write_version (tbs_version tbs)) $
  append_serialized (tls_serialize write_wire_format (tbs_wire_format tbs)) $
  append_serialized (tls_serialize w (tbs_content tbs)) $
  Ok (match tbs_serialized_context tbs, sender_of (tbs_content tbs) with
      | Some context, (Sender_Member _ | NewMemberCommit) => context
      | _, _ => []
      end).

Definition serialize_without_type (b : FramedContentBody) : outcome TlsError bytes :=
  match b with
  | BodyApplication a => tls_serialize codec_bytes a
  | BodyProposal p => tls_serialize write_proposal p
  | BodyCommit c => tls_serialize write_commit c
  end.

Definition serialized_len_without_type (b : FramedContentBody) : Z :=
  match b with
  | BodyApplication a => tls_serialized_len codec_bytes a
  | BodyProposal p => tls_serialized_len write_proposal p
  | BodyCommit c => tls_serialized_len write_commit c
  end.

Definition deserialize_without_type (input : bytes) (t : ContentType) : outcome TlsError (FramedContentBodyIn * bytes) :=
  match t with
  | ContentApplication => '(a, input) ← tls_deserialize codec_bytes input; Ok (InApplication a, input)
  | ContentProposal => '(p, input) ← tls_deserialize codec_proposal_in input; Ok (InProposal p, input)
  | ContentCommit => '(c, input) ← tls_deserialize codec_commit_in input; Ok (InCommit c, input)
  end.

Definition AuthData_tls_serialize (auth : FramedContentAuthData) : outcome TlsError bytes :=
  append_serialized (tls_serialize codec_bytes (auth_signature auth)) $
  match auth_confirmation_tag auth with
  | Some confirmation_tag => tls_serialize codec_bytes confirmation_tag
  | None => Ok []
  end.

Definition AuthData_tls_serialized_len (auth : FramedContentAuthData) : Z :=
  tls_serialized_len codec_bytes (auth_signature auth) +
  match auth_confirmation_tag auth with
  | Some confirmation_tag => tls_serialized_len codec_bytes confirmation_tag
  | None => 0
  end.

Definition AuthData_deserialize (input : bytes) (t : ContentType) : outcome TlsError (FramedContentAuthData * bytes) :=
  '(signature, input) ← tls_deserialize codec_bytes input;
  '(confirmation_tag, input) ← (match t with
    | ContentCommit => '(tag, input) ← tls_deserialize codec_bytes input; Ok (Some tag, input)
    | _ => Ok (None, input)
    end);
  Ok ({| auth_signature := signature; auth_confirmation_tag := confirmation_tag |}, input).

(** *** Public messages *)

Definition PublicMessage_tls_serialize (m : PublicMessage) : outcome TlsError bytes :=
  append_serialized (tls_serialize write_content (pub_content m)) $
  append_serialized (AuthData_tls_serialize (pub_auth m)) $
  match pub_membership_tag m with
  | Some membership_tag => tls_serialize codec_bytes membership_tag
  | None => Ok []
  end.

Definition PublicMessageIn_tls_deserialize (input : bytes) : outcome TlsError (PublicMessageIn * bytes) :=
  '(content, input) ← tls_deserialize codec_content_in input;
  '(auth, input) ← AuthData_deserialize input (FramedContentBodyIn_content_type (in_body content));
  '(membership_tag, input) ← (if is_member (in_sender content)
    then '(tag, input) ← tls_deserialize codec_bytes input; Ok (Some tag, input)
    else Ok (None, input));
  Ok ({| pubin_content := content; pubin_auth := auth; pubin_membership_tag := membership_tag |}, input).

(** *** The plaintext of private messages *)

Definition padding_length (plaintext_length padding_size mac_len : Z) : Z :=
  if 0 <? padding_size then
    let padding_offset := plaintext_length + mac_len in
    (padding_size - padding_offset mod padding_size) mod padding_size
  else 0.

Definition encode_padded_ciphertext_content_detached (m : AuthenticatedContent) (padding_size mac_len : Z) : outcome TlsError bytes :=
  let plaintext_length := serialized_len_without_type (content_body (ac_content m)) + AuthData_tls_serialized_len (ac_auth m) in
  append_serialized (serialize_without_type (content_body (ac_content m))) $
  append_serialized (AuthData_tls_serialize (ac_auth m)) $
  Ok (replicate (Z.to_nat (padding_length plaintext_length padding_size mac_len)) 0).

Definition deserialize_ciphertext_content (input : bytes) (t : ContentType) : outcome TlsError (FramedContentBodyIn * FramedContentAuthData) :=
  '(content, input) ← deserialize_without_type input t;
  '(auth, padding) ← AuthData_deserialize input t;
  if negb (forallb (fun byte => byte =? 0) padding) then Err InvalidInput
  else Ok (content, auth).

(** ** Signatures *)

Inductive SignatureError := VerificationError | SignatureSigningError.

(** [SignContent::new(label, payload).tls_serialize_detached()] with the label of
    framed content *)
Definition sign_content_payload (payload : bytes) : outcome TlsError bytes :=
  tls_serialize write_sign_content (str_bytes ("MLS 1.0 " ++ "FramedContentTBS"), payload).

Definition FramedContentTbs_sign (tbs : FramedContentTbs) (signer : Signer) : outcome SignatureError AuthenticatedContent :=
  payload ← map_err (fun _ => SignatureSigningError) (framed_content_tbs_serialized write_content content_sender tbs);
  payload ← map_err (fun _ => SignatureSigningError) (sign_content_payload payload);
  signature ← map_err (fun _ => SignatureSigningError) (signer payload);
  Ok {| ac_wire_format := tbs_wire_format tbs; ac_content := tbs_content tbs;
        ac_auth := {| auth_signature := signature; auth_confirmation_tag := None |} |}.

Definition Verifiable_verify `{!SignatureProvider} (self : VerifiableAuthenticatedContentIn) (scheme : SignatureScheme) (pk : bytes) :
    outcome SignatureError AuthenticatedContentIn :=
  payload ← map_err (fun _ => VerificationError) (framed_content_tbs_serialized codec_content_in in_sender (verifiable_tbs self));
  payload ← map_err (fun _ => VerificationError) (sign_content_payload payload);
  _ ← map_err (fun _ => VerificationError)
        (provider_verify_signature scheme payload pk (auth_signature (verifiable_auth self)));
  Ok {| aci_wire_format := tbs_wire_format (verifiable_tbs self); aci_content := tbs_content (verifiable_tbs self);
        aci_auth := verifiable_auth self |}.

(** [FramingParameters { aad, wire_format }] *)
Abbreviation FramingParameters := (bytes * WireFormat)%type (only parsing).

Definition FramedContentTbs_new (w : WireFormat) (group_id : bytes) (epoch : Z) (s : Sender) (aad : bytes) (body : FramedContentBody) :
    FramedContentTbs := {|
  tbs_version := Mls10; tbs_wire_format := w;
  tbs_content := {| content_group_id := group_id; content_epoch := epoch; content_sender := s;
                    authenticated_data := aad; content_body := body |};
  tbs_serialized_context := None |}.

Definition with_context (context : bytes) (tbs : FramedContentTbs) : FramedContentTbs := {|
  tbs_version := tbs_version tbs; tbs_wire_format := tbs_wire_format tbs; tbs_content := tbs_content tbs;
  tbs_serialized_context := Some context |}.

Definition new_and_sign `{!ContextEncoding} (framing_parameters : FramingParameters) (s : Sender) (body : FramedContentBody)
    (context : GroupContext) (signer : Signer) : outcome LibraryError AuthenticatedContent :=
  let content_tbs := FramedContentTbs_new framing_parameters.2 (gc_group_id context) (gc_epoch context) s framing_parameters.1 body in
  content_tbs ← (match s with
    | NewMemberCommit | Sender_Member _ =>
      serialized_context ← ok_or (tls_group_context context) LibraryMissingBoundsCheck;
      Ok (with_context serialized_context content_tbs)
    | _ => Ok content_tbs
    end);
  map_err (fun _ => LibraryCustom) (FramedContentTbs_sign content_tbs signer).

Definition new_application `{!ContextEncoding} (sender_leaf_index : LeafNodeIndex) (aad application_message : bytes)
    (context : GroupContext) (signer : Signer) : outcome LibraryError AuthenticatedContent :=
  new_and_sign (aad, WirePrivateMessage) (Sender_Member sender_leaf_index) (BodyApplication application_message) context signer.

Definition member_proposal `{!ContextEncoding} (framing_parameters : FramingParameters) (sender_leaf_index : LeafNodeIndex)
    (p : Proposal) (context : GroupContext) (signer : Signer) : outcome LibraryError AuthenticatedContent :=
  new_and_sign framing_parameters (Sender_Member sender_leaf_index) (BodyProposal p) context signer.

Definition new_join_proposal (p : Proposal) (group_id : bytes) (epoch : Z) (signer : Signer) : outcome LibraryError AuthenticatedContent :=
  map_err (fun _ => LibraryCustom)
    (FramedContentTbs_sign (FramedContentTbs_new WirePublicMessage group_id epoch NewMemberProposal [] (BodyProposal p)) signer).

Definition new_external_proposal (p : Proposal) (group_id : bytes) (epoch : Z) (signer : Signer) (sender_index : Z) :
    outcome LibraryError AuthenticatedContent :=
  map_err (fun _ => LibraryCustom)
    (FramedContentTbs_sign (FramedContentTbs_new WirePublicMessage group_id epoch (Sender_External sender_index) [] (BodyProposal p)) signer).

Definition AuthenticatedContent_commit `{!ContextEncoding} (framing_parameters : FramingParameters) (s : Sender) (c : Commit)
    (context : GroupContext) (signer : Signer) : outcome LibraryError AuthenticatedContent :=
  new_and_sign framing_parameters s (BodyCommit c) context signer.

(** ** Membership tags *)

Section Crypto.
Context `{!OpenMlsCrypto}.

(** The payload of a public message's tag: [AuthenticatedContentTbm::into_bytes]. *)
Definition tbm_payload {C} (w : Writer C) (sender_of : C -> Sender) (content : C) (auth : FramedContentAuthData)
    (serialized_context : bytes) : outcome LibraryError (option bytes) :=
  tbs_payload ← map_err (fun _ => LibraryMissingBoundsCheck)
    (framed_content_tbs_serialized w sender_of {| tbs_version := Mls10; tbs_wire_format := WirePublicMessage; tbs_content := content;
       tbs_serialized_context := Some serialized_context |});
  Ok (match AuthData_tls_serialize auth with Ok b => Some (tbs_payload ++ b) | _ => None end).

Definition set_membership_tag (c : Ciphersuite) (membership_key : Secret) (serialized_context : bytes) (m : PublicMessage) :
    outcome LibraryError PublicMessage :=
  payload ← tbm_payload write_content content_sender (pub_content m) (pub_auth m) serialized_context;
  membership_tag ← MembershipKey_tag_message c membership_key payload;
  Ok {| pub_content := pub_content m; pub_auth := pub_auth m; pub_membership_tag := Some membership_tag |}.

(** [MembershipTag] is compared as its [Mac] is. *)
Definition verify_membership (c : Ciphersuite) (membership_key : Secret) (serialized_context : bytes) (m : PublicMessageIn) :
    outcome ValidationError () :=
  payload ← map_err ValidationLibraryError (tbm_payload codec_content_in in_sender (pubin_content m) (pubin_auth m) serialized_context);
  expected_membership_tag ← map_err ValidationLibraryError (MembershipKey_tag_message c membership_key payload);
  match pubin_membership_tag m with
  | Some membership_tag => if negb (Mac_eq membership_tag expected_membership_tag) then Err InvalidMembershipTag else Ok tt
  | None => Err MissingMembershipTag
  end.

(** ** Private messages *)

Context `{!AeadProvider}.

Inductive MessageEncryptionError :=
| EncryptionLibraryError (e : LibraryError)
| EncryptionWrongWireFormat
| EncryptionSecretTreeError (e : SecretTreeError)
| EncryptionStorageError (e : MemoryStorageError).

Definition set_secret_tree (t : SecretTree) (ms : MessageSecrets) : MessageSecrets := {|
  ms_sender_data_secret := ms_sender_data_secret ms; ms_membership_key := ms_membership_key ms;
  ms_confirmation_key := ms_confirmation_key ms; ms_serialized_context := ms_serialized_context ms;
  ms_secret_tree := t |}.

(** A method of the secret tree of the message secrets. *)
Definition on_secret_tree {E A} (f : SecretTreeError -> E) (c : method SecretTree SecretTreeError A) : method MessageSecrets E A :=
  fun ms => let '(o, t) := c (ms_secret_tree ms) in (map_err f o, set_secret_tree t ms).

Definition missing_bound_check {S A} (o : outcome TlsError A) : method S MessageEncryptionError A :=
  lift (map_err (fun _ => EncryptionLibraryError LibraryMissingBoundsCheck) o).
Definition unexpected_crypto_error {S A} (o : outcome CryptoError A) : method S MessageEncryptionError A :=
  lift (map_err (fun e => EncryptionLibraryError (LibraryCryptoError e)) o).

(** [reuse_guard] is what [ReuseGuard::try_from_random] draws.  The header is
    that of the message: the one tests can pass instead is [None] here. *)
Definition encrypt_content (reuse_guard : outcome CryptoError bytes) (m : AuthenticatedContent) (c : Ciphersuite) (padding_size : Z) :
    method MessageSecrets MessageEncryptionError PrivateMessage :=
  let content := ac_content m in
  let t := content_type (content_body content) in
  sender_index ← lift (ok_or (as_member (content_sender content)) (EncryptionLibraryError LibraryCustom));
  private_message_content_aad_bytes ← missing_bound_check
    (tls_serialize write_content_aad (content_group_id content, content_epoch content, t, authenticated_data content));
  '(generation, (ratchet_key, ratchet_nonce)) ←
    on_secret_tree EncryptionSecretTreeError (secret_for_encryption c sender_index (SecretType_from t));
  reuse_guard ← unexpected_crypto_error reuse_guard;
  let prepared_nonce := xor_with_reuse_guard ratchet_nonce reuse_guard in
  plaintext ← missing_bound_check (encode_padded_ciphertext_content_detached m padding_size (mac_length c));
  ciphertext ← unexpected_crypto_error (aead_seal ratchet_key plaintext private_message_content_aad_bytes prepared_nonce);
  message_secrets ← get;
  sender_data_key ← unexpected_crypto_error (SenderData_derive_aead_key c (ms_sender_data_secret message_secrets) ciphertext);
  sender_data_nonce ← unexpected_crypto_error (SenderData_derive_aead_nonce c (ms_sender_data_secret message_secrets) ciphertext);
  mls_sender_data_aad_bytes ← missing_bound_check
    (tls_serialize write_sender_data_aad (content_group_id content, content_epoch content, t));
  sender_data_bytes ← missing_bound_check
    (tls_serialize codec_sender_data {| sd_leaf_index := sender_index; sd_generation := generation; sd_reuse_guard := reuse_guard |});
  encrypted_sender_data ← unexpected_crypto_error
    (aead_seal sender_data_key sender_data_bytes mls_sender_data_aad_bytes sender_data_nonce);
  mret {| priv_group_id := content_group_id content; priv_epoch := content_epoch content; priv_content_type := t;
          priv_authenticated_data := authenticated_data content; priv_encrypted_sender_data := encrypted_sender_data;
          priv_ciphertext := ciphertext |}.

Definition try_from_authenticated_content (reuse_guard : outcome CryptoError bytes) (m : AuthenticatedContent) (c : Ciphersuite)
    (padding_size : Z) : method MessageSecrets MessageEncryptionError PrivateMessage :=
  if negb (bool_decide (ac_wire_format m = WirePrivateMessage)) then fail EncryptionWrongWireFormat
  else encrypt_content reuse_guard m c padding_size.

Definition sender_data (m : PrivateMessage) (message_secrets : MessageSecrets) (c : Ciphersuite) :
    outcome MessageDecryptionError MlsSenderData :=
  sender_data_key ← map_err (fun e => DecryptionLibraryError (LibraryCryptoError e))
    (SenderData_derive_aead_key c (ms_sender_data_secret message_secrets) (priv_ciphertext m));
  sender_data_nonce ← map_err (fun e => DecryptionLibraryError (LibraryCryptoError e))
    (SenderData_derive_aead_nonce c (ms_sender_data_secret message_secrets) (priv_ciphertext m));
  mls_sender_data_aad_bytes ← map_err (fun _ => DecryptionLibraryError LibraryMissingBoundsCheck)
    (tls_serialize write_sender_data_aad (priv_group_id m, priv_epoch m, priv_content_type m));
  sender_data_bytes ← map_err (fun _ => AeadError)
    (aead_open sender_data_key (priv_encrypted_sender_data m) mls_sender_data_aad_bytes sender_data_nonce);
  '(sender_data, _) ← map_err (fun _ => MalformedContent) (tls_deserialize codec_sender_data sender_data_bytes);
  Ok sender_data.

Definition decrypt (m : PrivateMessage) (ratchet_key : AeadKey) (ratchet_nonce : AeadNonce) :
    outcome MessageDecryptionError (FramedContentBodyIn * FramedContentAuthData) :=
  private_message_content_aad_bytes ← map_err (fun _ => DecryptionLibraryError LibraryMissingBoundsCheck)
    (tls_serialize write_content_aad (priv_group_id m, priv_epoch m, priv_content_type m, priv_authenticated_data m));
  private_message_content_bytes ← map_err (fun _ => AeadError)
    (aead_open ratchet_key (priv_ciphertext m) private_message_content_aad_bytes ratchet_nonce);
  map_err (fun _ => MalformedContent) (deserialize_ciphertext_content private_message_content_bytes (priv_content_type m)).

Definition to_verifiable_content (m : PrivateMessage) (c : Ciphersuite) (sender_index : LeafNodeIndex)
    (configuration : SenderRatchetConfiguration) (sd : MlsSenderData) :
    method MessageSecrets MessageDecryptionError VerifiableAuthenticatedContentIn :=
  '(ratchet_key, ratchet_nonce) ← on_secret_tree DecryptionSecretTreeError
    (secret_for_decryption c sender_index (SecretType_from (priv_content_type m)) (sd_generation sd) configuration);
  let prepared_nonce := xor_with_reuse_guard ratchet_nonce (sd_reuse_guard sd) in
  '(content, auth) ← lift (decrypt m ratchet_key prepared_nonce);
  message_secrets ← get;
  mret (Verifiable_new WirePrivateMessage
    {| in_group_id := priv_group_id m; in_epoch := priv_epoch m; in_sender := Sender_Member (sd_leaf_index sd);
       in_authenticated_data := priv_authenticated_data m; in_body := content |}
    (Some (ms_serialized_context message_secrets)) auth).

(** ** Inbound messages *)

(** [DecryptedMessage { verifiable_content }] *)
Definition from_verifiable_content (v : VerifiableAuthenticatedContentIn) : outcome ValidationError VerifiableAuthenticatedContentIn :=
  if bool_decide (verifiable_content_type v = ContentCommit) && bool_decide (auth_confirmation_tag (verifiable_auth v) = None)
  then Err MissingConfirmationTag
  else if bool_decide (verifiable_content_type v = ContentApplication) then
    if negb (bool_decide (tbs_wire_format (verifiable_tbs v) = WirePrivateMessage)) then Err UnencryptedApplicationMessage
    else if negb (is_member (verifiable_sender v)) then Err (ValidationLibraryError LibraryCustom)
    else Ok v
  else Ok v.

Definition from_inbound_public_message (m : PublicMessageIn) (message_secrets_option : option MessageSecrets)
    (serialized_context : bytes) (c : Ciphersuite) : outcome ValidationError VerifiableAuthenticatedContentIn :=
  _ ← (if is_member (in_sender (pubin_content m)) then
         if bool_decide (pubin_membership_tag m = None) then Err MissingMembershipTag
         else match message_secrets_option with
         | Some message_secrets =>
           verify_membership c (ms_membership_key message_secrets) (ms_serialized_context message_secrets) m
         | None => Ok tt
         end
       else Ok tt);
  from_verifiable_content (into_verifiable_content m (Some serialized_context)).

(** With the message secrets of the message's epoch, which
    [MlsGroup::message_secrets_mut] looks up, as the state. *)
Definition from_inbound_ciphertext (m : PrivateMessage) (c : Ciphersuite) (own_leaf_index : LeafNodeIndex)
    (configuration : SenderRatchetConfiguration) : method MessageSecrets ValidationError VerifiableAuthenticatedContentIn :=
  message_secrets ← get;
  sd ← lift (map_err UnableToDecrypt (sender_data m message_secrets c));
  if sd_leaf_index sd =? own_leaf_index then fail CannotDecryptOwnMessage
  else
    v ← (fun ms => let '(o, ms) := to_verifiable_content m c (sd_leaf_index sd) configuration sd ms in (map_err UnableToDecrypt o, ms));
    lift (from_verifiable_content v).

End Crypto.

(** [DecryptedMessage::credential]; the entries of the external senders extension
    are given. *)
Definition message_credential (v : VerifiableAuthenticatedContentIn) (look_up : LeafNodeIndex -> option CredentialWithKey)
    (external_senders : option (list CredentialWithKey)) : outcome ValidationError CredentialWithKey :=
  match verifiable_sender v with
  | Sender_Member leaf_index => ok_or (look_up leaf_index) UnknownMember
  | Sender_External index =>
    senders ← ok_or external_senders NoExternalSendersExtension;
    ok_or (senders !! Z.to_nat index) UnauthorizedExternalSender
  | NewMemberCommit | NewMemberProposal => new_member_credential v
  end.

(** [UnverifiedMessage::verify] *)
Definition UnverifiedMessage_verify `{!SignatureProvider} (v : VerifiableAuthenticatedContentIn) (credential : Credential)
    (scheme : SignatureScheme) (sender_pk : bytes) (sender_context : option SenderContext) (c : Ciphersuite)
    (protocol_version : ProtocolVersion) : outcome ValidationError (AuthenticatedContent * Credential) :=
  content ← map_err (fun _ => ValidationInvalidSignature) (Verifiable_verify v scheme sender_pk);
  content ← AuthenticatedContentIn_validate c sender_context protocol_version content;
  Ok (content, credential).

End Framing.

(** ** Lemmas *)

(** The confirmation tag is there exactly in commits. *)
Definition tag_fits (t : ContentType) (auth : FramedContentAuthData) : Prop :=
  auth_confirmation_tag auth = None <-> t <> ContentCommit.

Section Encodings.
Context `{!InboundBodies} `{!FramingEncoding} `{!FramingLaws}.

Lemma body_type b : FramedContentBodyIn_content_type (FramedContentBodyIn_from b) = content_type b.
Proof. by destruct b. Qed.

Lemma body_read_back b x rest : serialize_without_type b = Ok x ->
  deserialize_without_type (x ++ rest) (content_type b) = Ok (FramedContentBodyIn_from b, rest).
Proof.
  destruct b as [a|p|c]; cbn [serialize_without_type content_type deserialize_without_type FramedContentBodyIn_from].
  - intros E. by rewrite (read_back codec_bytes_ok _ _ _ E).
  - rewrite (proj1 (write_proposal_as p)). intros E. by rewrite (read_back codec_proposal_in_ok _ _ _ E).
  - rewrite (proj1 (write_commit_as c)). intros E. by rewrite (read_back codec_commit_in_ok _ _ _ E).
Qed.

Lemma body_len b x : serialize_without_type b = Ok x -> serialized_len_without_type b = Z.of_nat (length x).
Proof.
  destruct b as [a|p|c]; cbn [serialize_without_type serialized_len_without_type].
  - apply (written_len (codec_writer_ok codec_bytes_ok)).
  - rewrite (proj1 (write_proposal_as p)), (proj2 (write_proposal_as p)). apply (written_len (codec_writer_ok codec_proposal_in_ok)).
  - rewrite (proj1 (write_commit_as c)), (proj2 (write_commit_as c)). apply (written_len (codec_writer_ok codec_commit_in_ok)).
Qed.

Lemma auth_read_back t auth x rest : tag_fits t auth -> AuthData_tls_serialize auth = Ok x ->
  AuthData_deserialize (x ++ rest) t = Ok (auth, rest).
Proof.
  unfold AuthData_tls_serialize, AuthData_deserialize, tag_fits. destruct auth as [signature tag]. cbn [auth_signature auth_confirmation_tag].
  intros Ht (a & a' & E1 & E2 & ->)%append_serialized_ok. rewrite <- app_assoc, (read_back codec_bytes_ok _ _ _ E1). cbn.
  destruct tag as [tag|].
  - assert (t = ContentCommit) as -> by (destruct t; [by discriminate (proj2 Ht ltac:(done))..|done]).
    by rewrite (read_back codec_bytes_ok _ _ _ E2).
  - injection E2 as <-. cbn. destruct t; [done..|]. by destruct Ht as [Ht _]; specialize (Ht eq_refl).
Qed.

Lemma auth_len auth x : AuthData_tls_serialize auth = Ok x -> AuthData_tls_serialized_len auth = Z.of_nat (length x).
Proof.
  unfold AuthData_tls_serialize, AuthData_tls_serialized_len.
  intros (a & a' & E1 & E2 & ->)%append_serialized_ok. rewrite length_app, Nat2Z.inj_add.
  rewrite (written_len (codec_writer_ok codec_bytes_ok) _ _ E1). f_equal.
  destruct (auth_confirmation_tag auth); [apply (written_len (codec_writer_ok codec_bytes_ok) _ _ E2)|by injection E2 as <-].
Qed.

Lemma padding_fills n p mac : 0 < p -> 0 <= padding_length n p mac < p /\ (n + padding_length n p mac + mac) mod p = 0.
Proof.
  intros Hp. unfold padding_length. rewrite (proj2 (Z.ltb_lt _ _)) by done.
  split; [by apply Z.mod_pos_bound|].
  replace (n + (p - (n + mac) mod p) mod p + mac) with ((n + mac) + (p - (n + mac) mod p) mod p) by lia.
  rewrite Zplus_mod_idemp_r. replace (n + mac + (p - (n + mac) mod p)) with (((n + mac) - (n + mac) mod p) + 1 * p) by lia.
  rewrite Z_mod_plus_full, Zminus_mod_idemp_r, Z.sub_diag. done.
Qed.

Lemma zeros_pass n : forallb (fun byte => byte =? 0) (replicate n 0) = true.
Proof. by induction n. Qed.

Lemma content_read_back m p mac x : tag_fits (content_type (content_body (ac_content m))) (ac_auth m) ->
  encode_padded_ciphertext_content_detached m p mac = Ok x ->
  deserialize_ciphertext_content x (content_type (content_body (ac_content m))) =
  Ok (FramedContentBodyIn_from (content_body (ac_content m)), ac_auth m).
Proof.
  intros Ht. unfold encode_padded_ciphertext_content_detached, deserialize_ciphertext_content.
  intros (a & y & E1 & (a' & z & E2 & [= <-] & ->)%append_serialized_ok & ->)%append_serialized_ok.
  rewrite (body_read_back _ _ _ E1). cbn. rewrite (auth_read_back _ _ _ _ Ht E2). cbn. by rewrite zeros_pass.
Qed.

End Encodings.

(** *** Signed content *)

(** [m] was made by [new_and_sign] in the context [gc], and, when it is a commit,
    got its confirmation tag afterwards. *)
Definition signed_in `{!InboundBodies} `{!FramingEncoding} `{!ContextEncoding} (gc : GroupContext) (signer : Signer)
    (m : AuthenticatedContent) : Prop :=
  exists m0, new_and_sign (authenticated_data (ac_content m), ac_wire_format m) (content_sender (ac_content m)) (content_body (ac_content m))
      gc signer = Ok m0 /\
    m = match content_body (ac_content m), auth_confirmation_tag (ac_auth m) with
        | BodyCommit _, Some tag => set_confirmation_tag tag m0
        | _, _ => m0
        end.

Section Signed.
Context `{!InboundBodies} `{!FramingEncoding} `{!FramingLaws} `{!ContextEncoding} `{!SignatureProvider}.

Lemma tbs_serialized_as (w : WireFormat) content context :
  framed_content_tbs_serialized codec_content_in in_sender
    {| tbs_version := Mls10; tbs_wire_format := w; tbs_content := FramedContentIn_from content; tbs_serialized_context := context |} =
  framed_content_tbs_serialized write_content content_sender
    {| tbs_version := Mls10; tbs_wire_format := w; tbs_content := content; tbs_serialized_context := context |}.
Proof.
  unfold framed_content_tbs_serialized. cbn [tbs_version tbs_wire_format tbs_content tbs_serialized_context].
  by rewrite <- (proj1 (write_content_as content)).
Qed.

Lemma signed_verifies gc signer scheme pk m ctx : signer_for scheme pk signer -> signed_in gc signer m ->
  is_member (content_sender (ac_content m)) = true -> tls_group_context gc = Some ctx ->
  content_group_id (ac_content m) = gc_group_id gc /\ content_epoch (ac_content m) = gc_epoch gc /\
  Verifiable_verify (Verifiable_new (ac_wire_format m) (FramedContentIn_from (ac_content m)) (Some ctx) (ac_auth m)) scheme pk =
  Ok (AuthenticatedContentIn_from m).
Proof.
  intros Hs (m0 & E & Em) Hmem Hctx. unfold new_and_sign in E. cbn [fst snd] in E.
  destruct (content_sender (ac_content m)) as [i| | |] eqn:Es; try discriminate. rewrite Hctx in E. cbn [ok_or mbind outcome_bind] in E.
  unfold FramedContentTbs_sign in E. ok_inv E. injection E as <-.
  destruct m as [w content auth]. cbn [ac_content ac_wire_format ac_auth] in *.
  assert (content = {| content_group_id := gc_group_id gc; content_epoch := gc_epoch gc; content_sender := Sender_Member i;
            authenticated_data := authenticated_data content; content_body := content_body content |} /\ auth_signature auth = x1) as [Ec Esig].
  { destruct (content_body content), (auth_confirmation_tag auth) as [tag|]; injection Em as Ec Ea; split; first [exact Ec | by rewrite Ea]. }
  unfold Verifiable_verify, Verifiable_new. cbn [verifiable_tbs verifiable_auth]. rewrite tbs_serialized_as, Esig.
  unfold with_context in Hx. cbn [tbs_version tbs_wire_format tbs_content FramedContentTbs_new] in Hx. rewrite <- Ec in Hx.
  split; [by rewrite Ec|]. split; [by rewrite Ec|]. rewrite Hx. cbn [map_err mbind outcome_bind]. rewrite Hx0. cbn [map_err mbind outcome_bind].
  rewrite (Hs _ _ Hx1). done.
Qed.

End Signed.

(** *** Private messages *)

(** The parts of a private message that are encoded can be. *)
Definition encodable `{!InboundBodies} `{!FramingEncoding} (m : AuthenticatedContent) (c : Ciphersuite) (padding_size : Z)
    (sd : MlsSenderData) : Prop :=
  let content := ac_content m in
  let t := content_type (content_body content) in
  (exists b, tls_serialize write_content_aad (content_group_id content, content_epoch content, t, authenticated_data content) = Ok b) /\
  (exists b, tls_serialize write_sender_data_aad (content_group_id content, content_epoch content, t) = Ok b) /\
  (exists b, tls_serialize codec_sender_data sd = Ok b) /\
  (exists b, encode_padded_ciphertext_content_detached m padding_size (mac_length c) = Ok b).

Section Private.
Context `{!InboundBodies} `{!FramingEncoding} `{!FramingLaws} `{!OpenMlsCrypto} `{!KdfLaws} `{!AeadProvider} `{!AeadLaws}.
Implicit Type (c : Ciphersuite) (ms : MessageSecrets).

Lemma aead_key_kdf c secret label context :
  kdf_expand_label secret c label context (aead_key_length c) = Ok (kdf c secret label context (aead_key_length c)) /\
  Z.of_nat (length (kdf c secret label context (aead_key_length c))) = aead_key_length c.
Proof. destruct (lengths_in_range c) as (? & ? & ?). apply kdf_expand_label_ok; destruct c; vm_compute; intuition congruence. Qed.

Lemma aead_nonce_kdf c secret label context :
  kdf_expand_label secret c label context (aead_nonce_length c) = Ok (kdf c secret label context (aead_nonce_length c)) /\
  Z.of_nat (length (kdf c secret label context (aead_nonce_length c))) = aead_nonce_length c.
Proof. destruct (lengths_in_range c) as (? & ? & ?). apply kdf_expand_label_ok; destruct c; vm_compute; intuition congruence. Qed.

(** What is sealed with derived key material is opened with it. *)
Lemma seal_open c secret label context nonce data aad : Z.of_nat (length nonce) = aead_nonce_length c ->
  let key := AeadKey_from_secret (kdf c secret label context (aead_key_length c)) c in
  exists ct, aead_seal key data aad nonce = Ok ct /\ aead_open key ct aad nonce = Ok data.
Proof.
  intros Hn key. destruct (aead_seals (aead_algorithm c) (kdf c secret label context (aead_key_length c)) data nonce aad) as (ct & E1 & E2).
  - apply aead_key_kdf.
  - done.
  - exists ct. unfold aead_seal, aead_open, key, AeadKey_from_secret. cbn [aead_mode aead_value]. by rewrite E1, E2.
Qed.

Lemma xor_guard_length nonce guard : length nonce = 12%nat -> length guard = 4%nat -> length (xor_with_reuse_guard nonce guard) = 12%nat.
Proof.
  intros Hn Hg. unfold xor_with_reuse_guard. change (Z.to_nat REUSE_GUARD_BYTES) with 4%nat.
  rewrite length_app, length_zip_with, length_take, length_drop. lia.
Qed.

Lemma sender_data_key_ok c secret ct : exists label context,
  SenderData_derive_aead_key c secret ct = Ok (AeadKey_from_secret (kdf c secret label context (aead_key_length c)) c).
Proof. exists "key"%string, (ciphertext_sample c ct). unfold SenderData_derive_aead_key. by rewrite (proj1 (aead_key_kdf c secret _ _)). Qed.

Lemma sender_data_nonce_ok c secret ct : exists nonce,
  SenderData_derive_aead_nonce c secret ct = Ok nonce /\ Z.of_nat (length nonce) = aead_nonce_length c.
Proof.
  unfold SenderData_derive_aead_nonce. destruct (aead_nonce_kdf c secret "nonce" (ciphertext_sample c ct)) as [-> Hl].
  exists (kdf c secret "nonce" (ciphertext_sample c ct) (aead_nonce_length c)). run. unfold AeadNonce_from_secret.
  rewrite Hl. rewrite (proj2 (proj2 (lengths_in_range c))) at 1. by rewrite Z.eqb_refl.
Qed.

Lemma key_material_length c s0 g : length (key_material c s0 g).2 = 12%nat.
Proof.
  pose proof (proj2 (aead_nonce_kdf c (chain_secret c s0 (Z.to_nat g)) "nonce" (to_be_bytes g))) as Hl.
  rewrite (proj2 (proj2 (lengths_in_range c))) in Hl. cbn [key_material snd]. unfold NONCE_BYTES in Hl.
  rewrite (proj2 (proj2 (lengths_in_range c))). unfold NONCE_BYTES. lia.
Qed.

(** A member's encryption: which generation it uses and what a holder of the key
    material reads out of the result. *)
Lemma encrypt_spec c conf s0 h i ready s ms m guard padding_size : config_u32 conf -> height h ->
  SecretTree.tree_ok c conf s0 h i ready s (ms_secret_tree ms) -> 0 <= i < 2 ^ h ->
  let t := content_type (content_body (ac_content m)) in
  let ty := SecretType_from t in
  content_sender (ac_content m) = Sender_Member i -> sent s ty <> u32_MAX -> length guard = 4%nat -> tag_fits t (ac_auth m) ->
  let sd := {| sd_leaf_index := i; sd_generation := sent s ty; sd_reuse_guard := guard |} in
  encodable m c padding_size sd ->
  exists pm ready' t', encrypt_content (Ok guard) m c padding_size ms = (Ok pm, set_secret_tree t' ms) /\
    SecretTree.tree_ok c conf s0 h i ready' {| windows := windows s; sent := <[ty := sent s ty + 1]> (sent s) |} t' /\
    priv_group_id pm = content_group_id (ac_content m) /\ priv_epoch pm = content_epoch (ac_content m) /\ priv_content_type pm = t /\
    priv_authenticated_data pm = authenticated_data (ac_content m) /\
    (forall mr, ms_sender_data_secret mr = ms_sender_data_secret ms -> sender_data pm mr c = Ok sd) /\
    (let '(key, nonce) := key_material c (sender_secret c s0 h i ty) (sent s ty) in
     decrypt pm key (xor_with_reuse_guard nonce guard) = Ok (FramedContentBodyIn_from (content_body (ac_content m)), ac_auth m)).
Proof.
  intros Hconf Hh Hok Hi t ty Es Hmax Hg Ht sd ([aad Eaad] & [sdaad Esdaad] & [sdb Esdb] & [pt Ept]).
  cbn beta zeta in Eaad, Esdaad. fold t in Eaad, Esdaad.
  assert (request_u32 (Encrypt i ty)) as Hrq.
  { cbn. pose proof (Z.pow_le_mono_r 2 h 31). destruct Hh. unfold u32_MAX. lia. }
  destruct (tree_step_spec c conf s0 h i ready s _ (Encrypt i ty) Hconf Hh Hrq Hok) as (ready' & t' & Est & Hok').
  cbn [tree_step sender_step] in Est, Hok'. destruct (Z.leb_spec (2 ^ h) i); [lia|]. rewrite Z.eqb_refl in Est, Hok'. cbn [negb] in Est, Hok'.
  destruct (Z.eqb_spec (sent s ty) u32_MAX); [done|]. cbn [fst snd] in Est, Hok'.
  destruct (key_material c (sender_secret c s0 h i ty) (sent s ty)) as [key nonce] eqn:Ekm.
  assert (length nonce = 12%nat) as Hn by (pose proof (key_material_length c (sender_secret c s0 h i ty) (sent s ty)) as Hk; by rewrite Ekm in Hk).
  assert (Z.of_nat (length (xor_with_reuse_guard nonce guard)) = aead_nonce_length c) as Hxn.
  { rewrite xor_guard_length by done. by rewrite (proj2 (proj2 (lengths_in_range c))). }
  unfold key_material in Ekm. injection Ekm as <- _.
  destruct (seal_open c (chain_secret c (sender_secret c s0 h i ty) (Z.to_nat (sent s ty))) "key" (to_be_bytes (sent s ty))
    (xor_with_reuse_guard nonce guard) pt aad Hxn) as (ct & Eseal & Eopen).
  destruct (sender_data_key_ok c (ms_sender_data_secret ms) ct) as (label & context & Esk).
  destruct (sender_data_nonce_ok c (ms_sender_data_secret ms) ct) as (sdn & Esn & Hsn).
  destruct (seal_open c (ms_sender_data_secret ms) label context sdn sdb sdaad Hsn) as (esd & Eseal2 & Eopen2).
  exists (mkPrivateMessage (content_group_id (ac_content m)) (content_epoch (ac_content m)) t (authenticated_data (ac_content m)) esd ct), ready', t'.
  split_and!; [|exact Hok'|done..| |].
  - unfold encrypt_content. rewrite Es. fold t. fold ty. cbn [as_member ok_or]. run. unfold missing_bound_check, unexpected_crypto_error, on_secret_tree. run.
    rewrite Eaad, Est. run. rewrite Ept, Eseal. run. cbn [ms_sender_data_secret set_secret_tree].
    rewrite Esk. run. rewrite Esn. run. rewrite Esdaad. fold sd. rewrite Esdb, Eseal2. done.
  - intros mr Emr. unfold sender_data. cbn [priv_ciphertext priv_group_id priv_epoch priv_content_type priv_encrypted_sender_data].
    rewrite Emr, Esk, Esn. cbn. rewrite Esdaad. cbn. rewrite Eopen2. cbn. pose proof (read_back codec_sender_data_ok sd sdb [] Esdb) as Er.
    rewrite app_nil_r in Er. by rewrite Er.
  - unfold decrypt. cbn [priv_ciphertext priv_group_id priv_epoch priv_content_type priv_authenticated_data].
    rewrite Eaad. cbn. rewrite Eopen. cbn. pose proof (content_read_back m padding_size (mac_length c) pt Ht Ept) as Er.
    fold t in Er. by rewrite Er.
Qed.

(** *** Receiving *)

Lemma window_replay conf g w w' : window_request conf g w = (Ok g, w') -> exists e, (window_request conf g w').1 = Err e.
Proof.
  unfold window_request at 1. destruct (head w <=? g) eqn:E1.
  - destruct (_ && _); [discriminate|]. destruct (g =? u32_MAX); [discriminate|]. intros [= <-]. unfold window_request. cbn [head used].
    destruct (Z.leb_spec (g + 1) g); [lia|]. destruct (_ <? _); [by eexists|]. rewrite decide_True by set_solver. by eexists.
  - destruct (_ <? _); [discriminate|]. destruct (decide _); [discriminate|]. intros [= <-]. unfold window_request. cbn [head used].
    rewrite E1. destruct (_ <? _); [by eexists|]. rewrite decide_True by set_solver. by eexists.
Qed.

(** How the receiver's secret tree answers for the generation of a message. *)
Lemma receive_step c conf s0 h i j ready s t ty g o w : config_u32 conf -> height h -> SecretTree.tree_ok c conf s0 h j ready s t ->
  0 <= i < 2 ^ h -> i <> j -> 0 <= g <= u32_MAX -> window_request conf g (windows s (i, ty)) = (o, w) ->
  exists ready' t', secret_for_decryption c i ty g conf t = (answer_of c (sender_secret c s0 h i ty) o, t') /\
    SecretTree.tree_ok c conf s0 h j ready' {| windows := <[(i, ty) := w]> (windows s); sent := sent s |} t'.
Proof.
  intros Hconf Hh Hok Hi Hij Hg Ew.
  assert (request_u32 (Decrypt i ty g)) as Hrq.
  { cbn. pose proof (Z.pow_le_mono_r 2 h 31). destruct Hh. unfold u32_MAX in *. lia. }
  destruct (tree_step_spec c conf s0 h j ready s t (Decrypt i ty g) Hconf Hh Hrq Hok) as (ready' & t' & Est & Hok').
  cbn [tree_step sender_step] in Est, Hok'. destruct (Z.leb_spec (2 ^ h) i); [lia|]. destruct (Z.eqb_spec i j); [done|].
  rewrite Ew in Est, Hok'. cbn [fst snd] in Est, Hok'. exists ready', t'. split; [|done].
  destruct (secret_for_decryption c i ty g conf t) as [o' t'']. injection Est as Eo <-. f_equal.
  destruct o as [g'|e|], o' as [km|e'|]; cbn in Eo; simplify_eq; try done.
Qed.

Lemma from_inbound_spec c conf s0 h i j ready s mr pm sd o w : config_u32 conf -> height h ->
  SecretTree.tree_ok c conf s0 h j ready s (ms_secret_tree mr) -> 0 <= i < 2 ^ h -> i <> j -> 0 <= sd_generation sd <= u32_MAX ->
  sender_data pm mr c = Ok sd -> sd_leaf_index sd = i ->
  let ty := SecretType_from (priv_content_type pm) in
  window_request conf (sd_generation sd) (windows s (i, ty)) = (o, w) ->
  exists ready' t', SecretTree.tree_ok c conf s0 h j ready' {| windows := <[(i, ty) := w]> (windows s); sent := sent s |} t' /\
    from_inbound_ciphertext pm c j conf mr =
    (match answer_of c (sender_secret c s0 h i ty) o with
     | Ok (key, nonce) =>
       '(content, auth) ← map_err UnableToDecrypt (decrypt pm key (xor_with_reuse_guard nonce (sd_reuse_guard sd)));
       from_verifiable_content (Verifiable_new WirePrivateMessage
         {| in_group_id := priv_group_id pm; in_epoch := priv_epoch pm; in_sender := Sender_Member i;
            in_authenticated_data := priv_authenticated_data pm; in_body := content |} (Some (ms_serialized_context mr)) auth)
     | Err e => Err (UnableToDecrypt (DecryptionSecretTreeError e))
     | Panic => Panic
     end, set_secret_tree t' mr).
Proof.
  intros Hconf Hh Hok Hi Hij Hg Esd Ei ty Ew.
  destruct (receive_step c conf s0 h i j ready s _ ty _ o w Hconf Hh Hok Hi Hij Hg Ew) as (ready' & t' & Est & Hok').
  exists ready', t'. split; [done|]. unfold from_inbound_ciphertext. run. rewrite Esd. run. rewrite Ei.
  destruct (Z.eqb_spec i j); [done|]. unfold to_verifiable_content, on_secret_tree. run. fold ty. rewrite Est.
  destruct (answer_of _ _ o) as [[key nonce]|e|]; [|done..]. run.
  destruct (decrypt pm key _) as [[content auth]|e|]; [|done..]. run. by rewrite Ei.
Qed.

End Private.

Lemma from_verifiable_ok `{!InboundBodies} w content context auth : tag_fits (content_type (content_body content)) auth ->
  (content_type (content_body content) = ContentApplication -> w = WirePrivateMessage /\ is_member (content_sender content) = true) ->
  let v := Verifiable_new w (FramedContentIn_from content) context auth in from_verifiable_content v = Ok v.
Proof.
  intros Ht Ha v. unfold from_verifiable_content, v, verifiable_content_type, verifiable_sender.
  cbn [verifiable_tbs verifiable_auth Verifiable_new tbs_content tbs_wire_format FramedContentIn_from in_body in_sender]. rewrite body_type.
  destruct (content_type (content_body content)) eqn:E.
  - destruct (Ha eq_refl) as [-> ->]. done.
  - done.
  - rewrite (bool_decide_eq_false_2 (auth_confirmation_tag auth = None)) by (intros Hn; by apply Ht in Hn). done.
Qed.

(** ** Theorems *)

(** Content of member [i], signed in the context [gc], that can be sent as a
    private message from the state [s] of the sender's ratchets. *)
Record sendable `{!InboundBodies} `{!FramingEncoding} `{!ContextEncoding} (gc : GroupContext) (signer : Signer) (c : Ciphersuite)
    (padding_size : Z) (guard : bytes) (i : LeafNodeIndex) (s : senders) (m : AuthenticatedContent) : Prop := {
  send_wire : ac_wire_format m = WirePrivateMessage;
  send_sender : content_sender (ac_content m) = Sender_Member i;
  send_signed : signed_in gc signer m;
  send_tag : tag_fits (content_type (content_body (ac_content m))) (ac_auth m);
  send_guard : length guard = 4%nat;
  send_left : 0 <= sent s (SecretType_from (content_type (content_body (ac_content m)))) < u32_MAX;
  send_encodable : encodable m c padding_size
    {| sd_leaf_index := i; sd_generation := sent s (SecretType_from (content_type (content_body (ac_content m)))); sd_reuse_guard := guard |}
}.

Section Theorems.
Context `{!InboundBodies} `{!FramingEncoding} `{!FramingLaws}.

(** The padded plaintext of a private message is read back to the body and the
    authentication data it was made of, and when a padding size is configured
    the ciphertext (plaintext and AEAD tag) is a multiple of it, longer than the
    unpadded one by less than one block. *)
Theorem padded_content_roundtrip m padding_size mac_len x :
  tag_fits (content_type (content_body (ac_content m))) (ac_auth m) ->
  encode_padded_ciphertext_content_detached m padding_size mac_len = Ok x ->
  deserialize_ciphertext_content x (content_type (content_body (ac_content m))) =
    Ok (FramedContentBodyIn_from (content_body (ac_content m)), ac_auth m) /\
  (0 < padding_size -> (Z.of_nat (length x) + mac_len) mod padding_size = 0 /\
    exists body auth, serialize_without_type (content_body (ac_content m)) = Ok body /\ AuthData_tls_serialize (ac_auth m) = Ok auth /\
      Z.of_nat (length body + length auth) <= Z.of_nat (length x) < Z.of_nat (length body + length auth) + padding_size).
Proof.
  intros Ht E. split; [by eapply content_read_back|]. intros Hp. unfold encode_padded_ciphertext_content_detached in E.
  apply append_serialized_ok in E as (a & y & E1 & (a' & z & E2 & [= <-] & ->)%append_serialized_ok & ->).
  rewrite (body_len _ _ E1), (auth_len _ _ E2), !length_app, length_replicate, !Nat2Z.inj_add.
  destruct (padding_fills (Z.of_nat (length a) + Z.of_nat (length a')) padding_size mac_len Hp) as [Hr Hm].
  split.
  - rewrite <- Hm. f_equal. lia.
  - exists a, a'. split_and!; [done..|lia|lia].
Qed.

(** What both sides do with one private message: the sender's next generation is used
    up, and the receiver opens the content that was signed. *)
Lemma sendable_encrypts `{!OpenMlsCrypto} `{!KdfLaws} `{!AeadProvider} `{!AeadLaws} `{!ContextEncoding}
    (c : Ciphersuite) conf s0 h i ready s ms m guard padding_size gc signer :
  config_u32 conf -> height h -> 0 <= i < 2 ^ h -> SecretTree.tree_ok c conf s0 h i ready s (ms_secret_tree ms) ->
  sendable gc signer c padding_size guard i s m ->
  let ty := SecretType_from (content_type (content_body (ac_content m))) in
  exists pm ready' t', try_from_authenticated_content (Ok guard) m c padding_size ms = (Ok pm, set_secret_tree t' ms) /\
    SecretTree.tree_ok c conf s0 h i ready' {| windows := windows s; sent := <[ty := sent s ty + 1]> (sent s) |} t'.
Proof.
  intros Hconf Hh Hi Hs [Hw Hmem Hsi Ht Hg Hleft Henc] ty. fold ty in Hleft, Henc.
  destruct (encrypt_spec c conf s0 h i ready s ms m guard padding_size Hconf Hh Hs Hi Hmem ltac:(fold ty; lia) Hg Ht Henc)
    as (pm & r1 & t1 & Eenc & Hok1 & _).
  exists pm, r1, t1. split; [|exact Hok1]. unfold try_from_authenticated_content. rewrite Hw. by rewrite bool_decide_eq_true_2.
Qed.

Lemma private_delivered `{!OpenMlsCrypto} `{!KdfLaws} `{!AeadProvider} `{!AeadLaws} `{!ContextEncoding} `{!SignatureProvider}
    (c : Ciphersuite) conf conf' s0 h i j ready ready' s s' ms mr m guard padding_size gc signer scheme pk w :
  config_u32 conf -> config_u32 conf' -> height h -> 0 <= i < 2 ^ h -> i <> j ->
  SecretTree.tree_ok c conf s0 h i ready s (ms_secret_tree ms) -> SecretTree.tree_ok c conf' s0 h j ready' s' (ms_secret_tree mr) ->
  ms_sender_data_secret mr = ms_sender_data_secret ms -> tls_group_context gc = Some (ms_serialized_context mr) ->
  signer_for scheme pk signer -> sendable gc signer c padding_size guard i s m ->
  let ty := SecretType_from (content_type (content_body (ac_content m))) in
  window_request conf' (sent s ty) (windows s' (i, ty)) = (Ok (sent s ty), w) ->
  exists pm r1 t1 r2 t2, try_from_authenticated_content (Ok guard) m c padding_size ms = (Ok pm, set_secret_tree t1 ms) /\
    SecretTree.tree_ok c conf s0 h i r1 {| windows := windows s; sent := <[ty := sent s ty + 1]> (sent s) |} t1 /\
    priv_group_id pm = gc_group_id gc /\ priv_epoch pm = gc_epoch gc /\ priv_content_type pm = content_type (content_body (ac_content m)) /\
    let v := Verifiable_new WirePrivateMessage (FramedContentIn_from (ac_content m)) (Some (ms_serialized_context mr)) (ac_auth m) in
    from_inbound_ciphertext pm c j conf' mr = (Ok v, set_secret_tree t2 mr) /\
    SecretTree.tree_ok c conf' s0 h j r2 {| windows := <[(i, ty) := w]> (windows s'); sent := sent s' |} t2 /\
    Verifiable_verify v scheme pk = Ok (AuthenticatedContentIn_from m) /\
    exists e, (from_inbound_ciphertext pm c j conf' (set_secret_tree t2 mr)).1 = Err (UnableToDecrypt (DecryptionSecretTreeError e)).
Proof.
  intros Hconf Hconf' Hh Hi Hij Hs Hr Esd Hctx Hsig [Hw Hmem Hsi Ht Hg Hleft Henc] ty Ew. fold ty in Hleft, Henc.
  destruct (encrypt_spec c conf s0 h i ready s ms m guard padding_size Hconf Hh Hs Hi Hmem ltac:(fold ty; lia) Hg Ht Henc)
    as (pm & r1 & t1 & Eenc & Hok1 & E1 & E2 & E3 & E4 & Hsd & Hdec). fold ty in Hsd, Hdec, Hok1.
  destruct (signed_verifies gc signer scheme pk m _ Hsig Hsi ltac:(by rewrite Hmem) Hctx) as (Egid & Eep & Hver).
  assert (forall mr', ms_sender_data_secret mr' = ms_sender_data_secret ms -> sender_data pm mr' c =
    Ok {| sd_leaf_index := i; sd_generation := sent s ty; sd_reuse_guard := guard |}) as Hsd' by exact Hsd.
  destruct (from_inbound_spec c conf' s0 h i j ready' s' mr pm (mkMlsSenderData i (sent s ty) guard) _ w Hconf' Hh Hr Hi Hij ltac:(cbn; lia) (Hsd' _ Esd) eq_refl
    ltac:(cbn [sd_generation]; rewrite E3; exact Ew)) as (r2 & t2 & Hok2 & Einb).
  rewrite E3 in Einb, Hok2. fold ty in Einb, Hok2.
  change (answer_of c (sender_secret c s0 h i ty) (Ok (sent s ty))) with
    (Ok (E := SecretTreeError) (key_material c (sender_secret c s0 h i ty) (sent s ty))) in Einb.
  destruct (key_material c (sender_secret c s0 h i ty) (sent s ty)) as [key nonce]. cbn [sd_reuse_guard] in Einb. rewrite Hdec in Einb. cbn [map_err mbind outcome_bind] in Einb.
  rewrite E1, E2, E4 in Einb. rewrite <- Hmem in Einb. change (mkFramedContentIn _ _ _ _ _) with (FramedContentIn_from (ac_content m)) in Einb.
  rewrite (from_verifiable_ok WirePrivateMessage _ _ _ Ht ltac:(by rewrite Hmem)) in Einb. rewrite Hw in Hver.
  exists pm, r1, t1, r2, t2. cbv zeta. split_and!; [|exact Hok1|by rewrite E1|by rewrite E2|exact E3|exact Einb|exact Hok2|exact Hver|].
  - unfold try_from_authenticated_content. rewrite Hw. by rewrite bool_decide_eq_true_2.
  - destruct (window_replay _ _ _ _ Ew) as [e He]. destruct (window_request conf' (sent s ty) w) as [o w2] eqn:Ew2. cbn [fst] in He. subst o.
    destruct (from_inbound_spec c conf' s0 h i j r2 _ (set_secret_tree t2 mr) pm (mkMlsSenderData i (sent s ty) guard) _ w2 Hconf' Hh Hok2 Hi Hij ltac:(cbn; lia) (Hsd' _ Esd) eq_refl
      ltac:(cbn [sd_generation]; rewrite E3; cbn [windows]; rewrite fn_lookup_insert; exact Ew2)) as (r3 & t3 & _ & Einb2).
    exists e. by rewrite Einb2.
Qed.

(** C9: a member's private message reaches every other member of its epoch: whatever
    both did before with the secrets of the epoch, if the receiver's window still
    covers the sender's generation, the receiver opens the message, finds the
    content that was sent, from that sender, and accepts the signature made in
    the same group context; handing it the same message again is refused. *)
Theorem private_message_delivered `{!OpenMlsCrypto} `{!KdfLaws} `{!AeadProvider} `{!AeadLaws} `{!ContextEncoding} `{!SignatureProvider}
    (c : Ciphersuite) conf s0 h i j ready ready' s s' ms mr m guard padding_size gc signer scheme pk w :
  config_u32 conf -> height h -> 0 <= i < 2 ^ h -> i <> j ->
  SecretTree.tree_ok c conf s0 h i ready s (ms_secret_tree ms) -> SecretTree.tree_ok c conf s0 h j ready' s' (ms_secret_tree mr) ->
  ms_sender_data_secret mr = ms_sender_data_secret ms -> tls_group_context gc = Some (ms_serialized_context mr) ->
  signer_for scheme pk signer -> sendable gc signer c padding_size guard i s m ->
  let ty := SecretType_from (content_type (content_body (ac_content m))) in
  window_request conf (sent s ty) (windows s' (i, ty)) = (Ok (sent s ty), w) ->
  exists pm ms' mr' v, try_from_authenticated_content (Ok guard) m c padding_size ms = (Ok pm, ms') /\
    from_inbound_ciphertext pm c j conf mr = (Ok v, mr') /\
    Verifiable_verify v scheme pk = Ok (AuthenticatedContentIn_from m) /\
    exists e, (from_inbound_ciphertext pm c j conf mr').1 = Err (UnableToDecrypt (DecryptionSecretTreeError e)).
Proof.
  intros Hconf Hh Hi Hij Hs Hr Esd Hctx Hsig Hsend ty Ew.
  destruct (private_delivered c conf conf s0 h i j ready ready' s s' ms mr m guard padding_size gc signer scheme pk w Hconf Hconf Hh Hi Hij Hs Hr Esd Hctx Hsig Hsend Ew)
    as (pm & r1 & t1 & r2 & t2 & E1 & _ & _ & _ & _ & E2 & _ & E3 & E4). by eexists _, _, _, _.
Qed.

(** C10: a member's proposal or commit sent as a public message arrives: the bytes of
    the signed and tagged message are read back to it, whatever follows them,
    the membership tag is accepted under the membership key and group context
    of the epoch, the content passes the first checks, and its signature
    verifies under the sender's key. *)
Theorem public_message_delivered `{!OpenMlsCrypto} `{!ContextEncoding} `{!SignatureProvider}
    (c : Ciphersuite) ms m pm x rest gc signer scheme pk i :
  ac_wire_format m = WirePublicMessage -> content_sender (ac_content m) = Sender_Member i ->
  content_type (content_body (ac_content m)) <> ContentApplication ->
  tag_fits (content_type (content_body (ac_content m))) (ac_auth m) ->
  signed_in gc signer m -> signer_for scheme pk signer -> tls_group_context gc = Some (ms_serialized_context ms) ->
  set_membership_tag c (ms_membership_key ms) (ms_serialized_context ms) (PublicMessage_from m) = Ok pm ->
  PublicMessage_tls_serialize pm = Ok x ->
  PublicMessageIn_tls_deserialize (x ++ rest) = Ok (PublicMessageIn_from pm, rest) /\
  exists v, from_inbound_public_message (PublicMessageIn_from pm) (Some ms) (ms_serialized_context ms) c = Ok v /\
    Verifiable_verify v scheme pk = Ok (AuthenticatedContentIn_from m).
Proof.
  intros Hw Hmem Hty Ht Hsi Hsig Hctx Etag Ex. unfold set_membership_tag in Etag. ok_inv Etag. injection Etag as <-.
  cbn [PublicMessage_from pub_content pub_auth] in *. split.
  - unfold PublicMessage_tls_serialize, PublicMessageIn_tls_deserialize in *. cbn [pub_content pub_auth pub_membership_tag] in Ex.
    apply append_serialized_ok in Ex as (a & y & E1 & (a' & z & E2 & E3 & ->)%append_serialized_ok & ->).
    rewrite (proj1 (write_content_as _)) in E1. rewrite <- !app_assoc, (read_back codec_content_in_ok _ _ _ E1). cbn [mbind outcome_bind].
    cbn [FramedContentIn_from in_body in_sender]. rewrite body_type, (auth_read_back _ _ _ _ Ht E2). cbn [mbind outcome_bind]. rewrite Hmem. cbn [is_member].
    by rewrite (read_back codec_bytes_ok _ _ _ E3).
  - exists (Verifiable_new WirePublicMessage (FramedContentIn_from (ac_content m)) (Some (ms_serialized_context ms)) (ac_auth m)).
    destruct (signed_verifies gc signer scheme pk m _ Hsig Hsi ltac:(by rewrite Hmem) Hctx) as (_ & _ & Hver). rewrite Hw in Hver.
    split; [|done]. unfold from_inbound_public_message, PublicMessageIn_from. cbn [pubin_content pubin_auth pubin_membership_tag pub_content pub_auth pub_membership_tag].
    cbn [FramedContentIn_from in_sender]. rewrite Hmem. cbn [is_member]. rewrite bool_decide_eq_false_2 by done.
    unfold verify_membership, tbm_payload in *. cbn [pubin_content pubin_auth pubin_membership_tag pub_content pub_auth] in *.
    rewrite tbs_serialized_as, Hx. cbn [map_err mbind outcome_bind]. rewrite Hx0. cbn [map_err mbind outcome_bind]. rewrite Mac_eq_refl. cbn [negb].
    unfold into_verifiable_content. cbn [pubin_content pubin_auth]. by rewrite (from_verifiable_ok WirePublicMessage _ _ _ Ht ltac:(by intros)).
Qed.

End Theorems.

(** ** Witnesses *)

(** Any countable type has an encoding of one symbol. *)
Definition countable_codec (A : Type) `{Countable A} : Codec A := {|
  codec_writer := {| tls_serialize x := Ok [Z.pos (countable.encode x)]; tls_serialized_len _ := 1 |};
  tls_deserialize b := match b with
    | z :: rest => x ← ok_or (decode (Z.to_pos z)) DecodingError; Ok (x, rest)
    | [] => Err EndOfStream
    end |}.

Lemma countable_codec_ok A `{Countable A} : codec_ok (countable_codec A).
Proof.
  split; [split|]; intros x b; cbn.
  - by intros [= <-].
  - intros rest [= <-]. cbn. by rewrite decode_encode.
Qed.

Lemma writes_as_image {A B} (f : A -> B) (v : Writer B) :
  writes_as f {| tls_serialize x := tls_serialize v (f x); tls_serialized_len x := tls_serialized_len v (f x) |} v.
Proof. intros x. done. Qed.

(** Bodies whose only content is application data. *)
Definition toy_bodies : InboundBodies := {|
  ProposalIn := (); CommitIn := (); ProposalIn_from _ := tt; CommitIn_from _ := tt;
  ProposalIn_validate _ _ _ _ := Err NotACommit; CommitIn_validate _ _ _ _ := Err NotACommit;
  commit_unverified_credential _ := None; add_unverified_credential _ := None |}.

#[local] Existing Instance toy_bodies.

Definition sender_sum (s : Sender) : Z + Z + bool :=
  match s with
  | Sender_Member i => inl (inl i)
  | Sender_External i => inl (inr i)
  | NewMemberProposal => inr true
  | NewMemberCommit => inr false
  end.
Definition sum_sender (s : Z + Z + bool) : Sender :=
  match s with
  | inl (inl i) => Sender_Member i
  | inl (inr i) => Sender_External i
  | inr true => NewMemberProposal
  | inr false => NewMemberCommit
  end.

#[local] Instance toy_sender_countable : Countable Sender.
Proof. apply (inj_countable' sender_sum sum_sender). by intros []. Defined.

#[local] Instance toy_body_dec : EqDecision FramedContentBodyIn.
Proof. solve_decision. Defined.
#[local] Instance toy_body_countable : Countable FramedContentBodyIn.
Proof.
  apply (inj_countable' (fun b => match b : @FramedContentBodyIn toy_bodies with InApplication d => inl d | InProposal _ => inr true | InCommit _ => inr false end)
    (fun s : bytes + bool => match s with inl d => InApplication d | inr true => @InProposal toy_bodies tt | inr false => @InCommit toy_bodies tt end)).
  by intros [d|[]|[]].
Defined.

#[local] Instance toy_content_dec : EqDecision FramedContentIn.
Proof. solve_decision. Defined.
#[local] Instance toy_content_countable : Countable FramedContentIn.
Proof.
  apply (inj_countable' (fun c => (in_group_id c, in_epoch c, in_sender c, in_authenticated_data c, in_body c))
    (fun '(g, e, s, d, b) => mkFramedContentIn g e s d b)).
  by intros [].
Defined.

#[local] Instance toy_sender_data_dec : EqDecision MlsSenderData.
Proof. solve_decision. Defined.
#[local] Instance toy_sender_data_countable : Countable MlsSenderData.
Proof.
  apply (inj_countable' (fun d => (sd_leaf_index d, sd_generation d, sd_reuse_guard d)) (fun '(i, g, r) => mkMlsSenderData i g r)).
  by intros [].
Defined.

Definition image_writer {A B} (f : A -> B) (v : Writer B) : Writer A :=
  {| tls_serialize x := tls_serialize v (f x); tls_serialized_len x := tls_serialized_len v (f x) |}.

Definition content_code (t : ContentType) : Z := match t with ContentApplication => 1 | ContentProposal => 2 | ContentCommit => 3 end.

Definition toy_framing : FramingEncoding := {|
  codec_bytes := toy_bytes;
  write_proposal := image_writer (fun _ => tt) (countable_codec ()); codec_proposal_in := countable_codec ();
  write_commit := image_writer (fun _ => tt) (countable_codec ()); codec_commit_in := countable_codec ();
  write_version := image_writer (fun v => match v with Mls10 => 1 | OtherVersion id => id end) (countable_codec Z);
  write_wire_format := image_writer (fun w => match w with WirePublicMessage => 1 | WirePrivateMessage => 2 | _ => 3 end) (countable_codec Z);
  write_content := image_writer FramedContentIn_from (countable_codec FramedContentIn); codec_content_in := countable_codec FramedContentIn;
  write_content_aad := image_writer (fun '(g, e, t, d) => e :: content_code t :: g ++ d) toy_bytes;
  write_sender_data_aad := image_writer (fun '(g, e, t) => e :: content_code t :: g) toy_bytes;
  codec_sender_data := countable_codec MlsSenderData;
  write_sign_content := image_writer (fun '(l, p) => l ++ p) toy_bytes |}.

#[local] Existing Instance toy_framing.

Lemma toy_framing_laws : FramingLaws.
Proof.
  split; first [apply toy_bytes_ok | apply countable_codec_ok | apply writes_as_image].
Qed.

(** The tag is a checksum in front of the plaintext. *)
Definition toy_aead : AeadProvider := {|
  provider_aead_encrypt _ key data nonce aad := Ok (foldr Z.add 0 (key ++ nonce ++ aad ++ data) :: data);
  provider_aead_decrypt _ key ct nonce aad := match ct with
    | t :: data => if t =? foldr Z.add 0 (key ++ nonce ++ aad ++ data) then Ok data else Err AeadDecryptionError
    | [] => Err AeadDecryptionError
    end |}.

Lemma toy_aead_laws : @AeadLaws toy_aead.
Proof. split. intros alg key data nonce aad _ _. eexists. split; [done|]. cbn. by rewrite Z.eqb_refl. Qed.

Definition toy_signatures : SignatureProvider := {|
  provider_verify_signature _ data pk signature := if decide (signature = pk ++ data) then Ok tt else Err InvalidSignature |}.

Definition toy_signer : Signer := fun data => Ok ([7] ++ data).

Lemma toy_signer_for scheme : @signer_for toy_signatures scheme [7] toy_signer.
Proof. intros data signature [= <-]. cbn. by rewrite decide_True. Qed.

Definition toy_group_context : ContextEncoding := {| tls_group_context g := Some [gc_epoch g] |}.

Definition toy_context : GroupContext := GroupContext_new sample_suite [1] 5 [] [] [].

(** The message secrets of member [own] of a group of four in epoch 5. *)
Definition toy_secrets (own : Z) : MessageSecrets := {|
  ms_sender_data_secret := [11]; ms_membership_key := [12]; ms_confirmation_key := [13]; ms_serialized_context := [5];
  ms_secret_tree := @SecretTree_new [14] (tree_size 2) own |}.

(** What the signing of a concrete message gives. *)
Definition or_else {E A} (o : outcome E A) (x : A) : A := match o with Ok y => y | _ => x end.
Definition no_content : AuthenticatedContent := mkAuthenticatedContent WirePrivateMessage
  (mkFramedContent [] 0 NewMemberCommit [] (BodyApplication [])) (mkFramedContentAuthData [] None).

Definition toy_hello : AuthenticatedContent :=
  or_else (@new_application _ _ toy_group_context 1 [9] [104; 105] toy_context toy_signer) no_content.

Lemma toy_hello_sendable : @sendable _ _ toy_group_context toy_context toy_signer sample_suite 16 [1; 2; 3; 4] 1 initial_senders toy_hello.
Proof.
  split; try done.
  - by eexists.
  - split_and!; by eexists.
Qed.

Lemma private_message_delivered_witness : exists pm ms' mr' v,
  @try_from_authenticated_content _ _ toy_crypto toy_aead (Ok [1; 2; 3; 4]) toy_hello sample_suite 16 (toy_secrets 1) = (Ok pm, ms') /\
  @from_inbound_ciphertext _ _ toy_crypto toy_aead pm sample_suite 3 sample_config (toy_secrets 3) = (Ok v, mr') /\
  @Verifiable_verify _ _ toy_signatures v ED25519 [7] = Ok (AuthenticatedContentIn_from toy_hello) /\
  exists e, (@from_inbound_ciphertext _ _ toy_crypto toy_aead pm sample_suite 3 sample_config mr').1 = Err (UnableToDecrypt (DecryptionSecretTreeError e)).
Proof.
  apply (@private_message_delivered _ _ toy_framing_laws toy_crypto toy_laws toy_aead toy_aead_laws toy_group_context toy_signatures
    sample_suite sample_config [14] 2 1 3 [] [] initial_senders initial_senders (toy_secrets 1) (toy_secrets 3) toy_hello [1; 2; 3; 4] 16
    toy_context toy_signer ED25519 [7] {| head := 1; used := {[ 0 ]} |}).
  - apply sample_config_u32.
  - apply height_2.
  - lia.
  - done.
  - apply (@new_tree_ok toy_crypto); [apply sample_config_u32|apply height_2].
  - apply (@new_tree_ok toy_crypto); [apply sample_config_u32|apply height_2].
  - done.
  - done.
  - apply toy_signer_for.
  - apply toy_hello_sendable.
  - vm_compute. reflexivity.
Defined.

(** A removal proposed by member 1, with a membership tag. *)
Definition toy_removal : AuthenticatedContent :=
  or_else (@member_proposal _ _ toy_group_context ([], WirePublicMessage) 1 (Remove 2) toy_context toy_signer) no_content.

Definition toy_public : PublicMessage :=
  or_else (@set_membership_tag _ _ toy_crypto sample_suite [12] [5] (PublicMessage_from toy_removal)) (PublicMessage_from no_content).

Lemma public_message_delivered_witness :
  @PublicMessageIn_tls_deserialize _ _ (or_else (PublicMessage_tls_serialize toy_public) [] ++ [9; 9]) = Ok (PublicMessageIn_from toy_public, [9; 9]) /\
  exists v, @from_inbound_public_message _ _ toy_crypto (PublicMessageIn_from toy_public) (Some (toy_secrets 3)) [5] sample_suite = Ok v /\
    @Verifiable_verify _ _ toy_signatures v ED25519 [7] = Ok (AuthenticatedContentIn_from toy_removal).
Proof.
  apply (@public_message_delivered _ _ toy_framing_laws toy_crypto toy_group_context toy_signatures sample_suite (toy_secrets 3)
    toy_removal toy_public _ [9; 9] toy_context toy_signer ED25519 [7] 1); try done.
  - by eexists.
  - apply toy_signer_for.
Defined.

Lemma padded_content_roundtrip_witness :
  match encode_padded_ciphertext_content_detached toy_hello 16 16 with
  | Ok x => deserialize_ciphertext_content x ContentApplication = Ok (FramedContentBodyIn_from (BodyApplication [104; 105]), ac_auth toy_hello) /\
            (Z.of_nat (length x) + 16) mod 16 = 0
  | _ => False
  end.
Proof.
  destruct (encode_padded_ciphertext_content_detached toy_hello 16 16) as [x| |] eqn:E; [|vm_compute in E; discriminate..].
  destruct (@padded_content_roundtrip _ _ toy_framing_laws toy_hello 16 16 x) as [H1 H2]; [done|done|].
  exact (conj H1 (proj1 (H2 eq_refl))).
Defined.
