(* ===== verification/GroupState.v ===== *)
(** * Groups of a client

    Models [MlsGroup] ([group/mls_group/mod.rs]) and its operations that change
    state: the group's life cycle, its persistence, messages and proposals
    ([application.rs], [proposal.rs], [membership.rs], [updates.rs]), commits
    ([commit_builder.rs], [processing.rs]) and merging them ([staged_commit.rs]).

    An operation works on the group in memory and on the store of the client; what
    it drew and signed is in a [Provider].  The welcome and the group info that go
    with a commit are made in [Joining]. *)

From Stdlib Require Import String.
From S2P Require Import Prelude TreeMath Crypto Tls BinaryTree SenderRatchet SecretTree LeafNodes Nodes TreeSyncDiff TreeHash UpdatePaths TreeKem TreeSync EpochStores Proposals PublicGroup Validation Storage Commits KeySchedule Members Framing.

(** ** Errors *)

Inductive MlsGroupStateError :=
| StateLibraryError (e : LibraryError)
| UseAfterEviction
| PendingProposal
| StatePendingCommit
| NoPendingCommit
| PendingProposalNotFound.

Inductive MergeCommitError := MergeLibraryError (e : LibraryError) | MergeStorageError (e : MemoryStorageError).
Inductive MergePendingCommitError := MergePendingState (e : MlsGroupStateError) | MergePendingMerge (e : MergeCommitError).
Inductive CreateMessageError := MessageLibraryError (e : LibraryError) | MessageGroupState (e : MlsGroupStateError).
Inductive RemoveProposalError := RemoveProposalNotFound | RemoveProposalStorage (e : MemoryStorageError).
Inductive EmptyInputError := EmptyAddMembers | EmptyRemoveMembers.
Inductive CreateAddProposalError := AddProposalLibraryError (e : LibraryError) | AddProposalLeafNode (e : LeafNodeValidationError).

Inductive ProposeAddMemberError :=
| ProposeAddLibraryError (e : LibraryError)
| ProposeAddGroupState (e : MlsGroupStateError)
| ProposeAddLeafNode (e : LeafNodeValidationError)
| ProposeAddStorage (e : MemoryStorageError).

Inductive ProposeRemoveMemberError :=
| ProposeRemoveLibraryError (e : LibraryError)
| ProposeRemoveGroupState (e : MlsGroupStateError)
| ProposeRemoveUnknownMember
| ProposeRemoveStorage (e : MemoryStorageError).

(** [LeafNodeUpdateError] carries a library, storage or signature error *)
Inductive LeafNodeUpdateError := UpdateLibraryError (e : LibraryError) | UpdateStorage (e : MemoryStorageError) | UpdateSignature.

Inductive ProposeSelfUpdateError :=
| ProposeUpdateLibraryError (e : LibraryError)
| ProposeUpdateGroupState (e : MlsGroupStateError)
| ProposeUpdateStorage (e : MemoryStorageError)
| ProposeUpdateLeafNode (e : LeafNodeUpdateError).

(** The cases of [CreateGroupContextExtProposalError] that creating the proposal can end with *)
Inductive CreateGroupContextExtProposalError := ExtensionsLibraryError (e : LibraryError) | ExtensionsLeafNode (e : LeafNodeValidationError).

Inductive ProposalError :=
| ProposalErrorLibrary (e : LibraryError)
| ProposalErrorAddMember (e : ProposeAddMemberError)
| ProposalErrorCreateAdd (e : CreateAddProposalError)
| ProposalErrorSelfUpdate (e : ProposeSelfUpdateError)
| ProposalErrorRemoveMember (e : ProposeRemoveMemberError)
| ProposalErrorGroupState (e : MlsGroupStateError)
| ProposalErrorValidation (e : ValidationError)
| ProposalErrorExtensions (e : CreateGroupContextExtProposalError)
| ProposalErrorStorage (e : MemoryStorageError).

(** [CommitBuilderStageError] *)
Inductive CommitBuilderStageError := StageErrorLibrary (e : LibraryError) | StageErrorKeyStore (e : MemoryStorageError).

(** What the operations that commit can fail with: [AddMembersError],
    [RemoveMembersError], [SelfUpdateError] and [CommitToPendingProposalsError] have
    these cases *)
Inductive CommitError :=
| CommitLibraryError (e : LibraryError)
| CommitEmptyInput (e : EmptyInputError)
| CommitCreateCommitError (e : CreateCommitError)
| CommitStageError (e : CommitBuilderStageError)
| CommitGroupState (e : MlsGroupStateError)
| CommitStorage (e : MemoryStorageError).

Inductive LeaveGroupError :=
| LeaveLibraryError (e : LibraryError)
| LeaveGroupState (e : MlsGroupStateError)
| LeaveStorage (e : MemoryStorageError).

(** ** The state *)

Definition set_configuration_field (x : MlsGroupJoinConfig) (g : MlsGroup) : MlsGroup := {|
  mls_group_config := x; public_group := public_group g; group_epoch_secrets := group_epoch_secrets g; own_leaf_index := own_leaf_index g;
  message_secrets_store := message_secrets_store g; resumption_psk_store := resumption_psk_store g; own_leaf_nodes := own_leaf_nodes g;
  aad := aad g; group_state := group_state g |}.
Definition set_public_group (x : PublicGroup) (g : MlsGroup) : MlsGroup := {|
  mls_group_config := mls_group_config g; public_group := x; group_epoch_secrets := group_epoch_secrets g; own_leaf_index := own_leaf_index g;
  message_secrets_store := message_secrets_store g; resumption_psk_store := resumption_psk_store g; own_leaf_nodes := own_leaf_nodes g;
  aad := aad g; group_state := group_state g |}.
Definition set_epoch_secrets (x : GroupEpochSecrets) (g : MlsGroup) : MlsGroup := {|
  mls_group_config := mls_group_config g; public_group := public_group g; group_epoch_secrets := x; own_leaf_index := own_leaf_index g;
  message_secrets_store := message_secrets_store g; resumption_psk_store := resumption_psk_store g; own_leaf_nodes := own_leaf_nodes g;
  aad := aad g; group_state := group_state g |}.
Definition set_message_store (x : MessageSecretsStore MessageSecrets) (g : MlsGroup) : MlsGroup := {|
  mls_group_config := mls_group_config g; public_group := public_group g; group_epoch_secrets := group_epoch_secrets g; own_leaf_index := own_leaf_index g;
  message_secrets_store := x; resumption_psk_store := resumption_psk_store g; own_leaf_nodes := own_leaf_nodes g;
  aad := aad g; group_state := group_state g |}.
Definition set_psk_store (x : ResumptionPskStore Secret) (g : MlsGroup) : MlsGroup := {|
  mls_group_config := mls_group_config g; public_group := public_group g; group_epoch_secrets := group_epoch_secrets g; own_leaf_index := own_leaf_index g;
  message_secrets_store := message_secrets_store g; resumption_psk_store := x; own_leaf_nodes := own_leaf_nodes g;
  aad := aad g; group_state := group_state g |}.
Definition set_own_leaf_nodes (x : list LeafNode) (g : MlsGroup) : MlsGroup := {|
  mls_group_config := mls_group_config g; public_group := public_group g; group_epoch_secrets := group_epoch_secrets g; own_leaf_index := own_leaf_index g;
  message_secrets_store := message_secrets_store g; resumption_psk_store := resumption_psk_store g; own_leaf_nodes := x;
  aad := aad g; group_state := group_state g |}.
Definition set_aad (x : bytes) (g : MlsGroup) : MlsGroup := {|
  mls_group_config := mls_group_config g; public_group := public_group g; group_epoch_secrets := group_epoch_secrets g; own_leaf_index := own_leaf_index g;
  message_secrets_store := message_secrets_store g; resumption_psk_store := resumption_psk_store g; own_leaf_nodes := own_leaf_nodes g;
  aad := x; group_state := group_state g |}.
Definition set_group_state (x : MlsGroupState) (g : MlsGroup) : MlsGroup := {|
  mls_group_config := mls_group_config g; public_group := public_group g; group_epoch_secrets := group_epoch_secrets g; own_leaf_index := own_leaf_index g;
  message_secrets_store := message_secrets_store g; resumption_psk_store := resumption_psk_store g; own_leaf_nodes := own_leaf_nodes g;
  aad := aad g; group_state := x |}.

Definition set_group_proposals (x : ProposalStore) (g : MlsGroup) : MlsGroup := set_public_group (set_proposal_store x (public_group g)) g.

(** [mem::swap] with the current secrets of the store *)
Definition set_current_secrets (x : MessageSecrets) (s : MessageSecretsStore MessageSecrets) : MessageSecretsStore MessageSecrets := {|
  max_epochs := max_epochs s; past_epoch_trees := past_epoch_trees s; current_secrets := x |}.

(** The group in memory and the store *)
Abbreviation client := (MlsGroup * MemoryStorage)%type.

Definition on_mls {E A} (c : method MlsGroup E A) : method client E A := on_part fst (fun g s => (g, s.2)) c.
Definition on_store {F A} (f : MemoryStorageError -> F) (c : method MemoryStorage MemoryStorageError A) : method client F A :=
  lift_state f (on_part snd (fun st s => (s.1, st)) c).

Definition is_active (g : MlsGroup) : bool := match group_state g with Inactive => false | _ => true end.

Definition is_operational (g : MlsGroup) : outcome MlsGroupStateError () :=
  match group_state g with
  | PendingCommit _ => Err StatePendingCommit
  | Inactive => Err UseAfterEviction
  | Operational => Ok tt
  end.

Definition MlsGroup_credential (g : MlsGroup) : outcome MlsGroupStateError Credential :=
  if negb (is_active g) then Err UseAfterEviction
  else ok_or ((fun leaf => leaf_credential (payload leaf)) <$> TreeSync_leaf (treesync (public_group g)) (own_leaf_index g))
    (StateLibraryError LibraryCustom).

Definition pending_commit (g : MlsGroup) : option MemberCommit :=
  match group_state g with PendingCommit p => Some (pending_staged_commit p) | Operational | Inactive => None end.

Definition MlsGroup_epoch (g : MlsGroup) : Z := gc_epoch (MlsGroup_context g).
Definition MlsGroup_members (g : MlsGroup) : list Member := full_leave_members (treesync (public_group g)).

Definition framing_parameters (g : MlsGroup) : bytes * WireFormat := (aad g, WireFormat_from (outgoing (wire_format_policy (mls_group_config g)))).

Definition message_secrets_for_epoch (g : MlsGroup) (epoch : Z) : outcome SecretTreeError MessageSecrets :=
  if epoch <? MlsGroup_epoch g then ok_or (secrets_for_epoch (message_secrets_store g) epoch) TooDistantInThePast
  else Ok (current_secrets (message_secrets_store g)).

(** A method of the secrets that [message_secrets_mut] hands out *)
Definition with_message_secrets {E A} (epoch : Z) (too_old : E) (c : method MessageSecrets E A) : method MlsGroup E A := fun g =>
  let store := message_secrets_store g in
  if epoch <? MlsGroup_epoch g then
    match secrets_for_epoch store epoch with
    | Some ms =>
      let '(o, ms) := c ms in
      (o, set_message_store (default store (secrets_for_epoch_mut epoch (fun _ => ms) store)) g)
    | None => (Err too_old, g)
    end
  else
    let '(o, ms) := c (current_secrets store) in
    (o, set_message_store (set_current_secrets ms store) g).

Definition set_max_past_epochs (n : nat) : method MlsGroup Empty_set () :=
  g ← get; store ← lift (resize_store n (message_secrets_store g)); modify (set_message_store store).

(** [StagedCommit::self_removed] and [group_context] *)
Definition commit_self_removed (sc : MemberCommit) : bool := match staged_state sc with PublicState _ => true | GroupMember _ => false end.
Definition commit_context (sc : MemberCommit) : GroupContext :=
  match staged_state sc with
  | PublicState s => spg_context (psc_staged_diff s)
  | GroupMember s => spg_context (msc_staged_diff s)
  end.
Definition commit_epoch_authenticator (sc : MemberCommit) : option Secret :=
  match staged_state sc with GroupMember s => Some (ge_epoch_authenticator (msc_group_epoch_secrets s)) | PublicState _ => None end.

(** [MlsMessageOut] of a public or a private message *)
Inductive MlsMessageOut := OutPublic (m : PublicMessage) | OutPrivate (version : ProtocolVersion) (m : PrivateMessage).

(** What an operation draws and signs: for commits, for the content of other
    messages, and the reuse guard of the one message it encrypts. *)
Record Provider := mkProvider {
  commit_provider : CommitProvider;
  content_signer : Signer;
  draw_reuse_guard : outcome CryptoError bytes;
  current_time : option Z
}.

(** ** Persistence *)

(** A key pair as it is stored on its own *)
Record StoredKeyPair := mkStoredKeyPair { stored_pair : EncryptionKeyPair }.

Section Persistence.
Context `{!Serde bytes} `{!Serde Z} `{!Serde TreeSync} `{!Serde GroupContext} `{!Serde InterimTranscriptHash} `{!Serde ConfirmationTag}.
Context `{!Serde QueuedProposal} `{!Serde (bytes * bytes)} `{!Serde (list bytes)} `{!Serde GroupEpochSecrets} `{!Serde LeafNode}.
Context `{!Serde (MessageSecretsStore MessageSecrets)} `{!Serde (ResumptionPskStore Secret)} `{!Serde MlsGroupJoinConfig} `{!Serde MlsGroupState}.
Context `{!Serde StoredKeyPair} `{!Serde (list EncryptionKeyPair)}.

Definition set_configuration (config : MlsGroupJoinConfig) : method client MemoryStorageError () :=
  on_mls (modify (set_configuration_field config));;
  self ← get;
  on_store id (Memory.write_mls_join_config (MlsGroup_group_id self.1) config).

Definition write_state : method client MemoryStorageError () :=
  self ← get; on_store id (Memory.write_group_state (MlsGroup_group_id self.1) (group_state self.1)).

Definition clear_pending_commit : method client MemoryStorageError () :=
  self ← get;
  match group_state self.1 with
  | PendingCommit (PendingMember _) => on_mls (modify (set_group_state Operational));; write_state
  | PendingCommit (PendingExternal _) | Operational | Inactive => mret tt
  end.

Definition clear_pending_proposals : method client MemoryStorageError () :=
  self ← get;
  if negb (ProposalStore_is_empty (MlsGroup_proposal_store self.1)) then
    on_mls (modify (set_group_proposals (ProposalStore_empty (MlsGroup_proposal_store self.1))));;
    on_store id (Memory.clear_proposal_queue (Ref := bytes) (MlsGroup_group_id self.1))
  else mret tt.

Definition MlsGroup_load (group_id : bytes) : Memory.m (option MlsGroup) :=
  group ← PublicGroup_load group_id;
  epoch_secrets ← Memory.group_epoch_secrets group_id;
  leaf_index ← Memory.own_leaf_index group_id;
  secrets_store ← Memory.message_secrets group_id;
  psk_store ← Memory.resumption_psk_store group_id;
  config ← Memory.mls_group_join_config group_id;
  leaf_nodes ← Memory.own_leaf_nodes group_id;
  state ← Memory.group_state group_id;
  mret (group ← group; epoch_secrets ← epoch_secrets; leaf_index ← leaf_index; secrets_store ← secrets_store; psk_store ← psk_store;
        config ← config; state ← state;
        Some {| mls_group_config := config; public_group := group; group_epoch_secrets := epoch_secrets; own_leaf_index := leaf_index;
                message_secrets_store := secrets_store; resumption_psk_store := psk_store; own_leaf_nodes := leaf_nodes; aad := [];
                group_state := state |}).

Definition MlsGroup_store (g : MlsGroup) : Memory.m () :=
  PublicGroup_store (public_group g);;
  Memory.write_group_epoch_secrets (MlsGroup_group_id g) (group_epoch_secrets g);;
  Memory.write_own_leaf_index (MlsGroup_group_id g) (own_leaf_index g);;
  Memory.write_message_secrets (MlsGroup_group_id g) (message_secrets_store g);;
  Memory.write_resumption_psk_store (MlsGroup_group_id g) (resumption_psk_store g);;
  Memory.write_mls_join_config (MlsGroup_group_id g) (mls_group_config g);;
  Memory.write_group_state (MlsGroup_group_id g) (group_state g).

Definition MlsGroup_delete : method client MemoryStorageError () :=
  self ← get;
  let group_id := MlsGroup_group_id self.1 in
  on_store id (PublicGroup_delete group_id);;
  on_store id (Memory.delete_own_leaf_index group_id);;
  on_store id (Memory.delete_group_epoch_secrets group_id);;
  on_store id (Memory.delete_message_secrets group_id);;
  on_store id (Memory.delete_all_resumption_psk_secrets group_id);;
  on_store id (Memory.delete_group_config group_id);;
  on_store id (Memory.delete_own_leaf_nodes group_id);;
  on_store id (Memory.delete_group_state group_id);;
  on_store id (Memory.clear_proposal_queue (Ref := bytes) group_id);;
  on_mls (modify (set_group_proposals (ProposalStore_empty (MlsGroup_proposal_store self.1))));;
  on_store id (Memory.delete_encryption_epoch_key_pairs group_id (MlsGroup_epoch self.1) (own_leaf_index self.1));;
  on_mls (modify (set_group_proposals (ProposalStore_empty (MlsGroup_proposal_store self.1)))).

Definition store_epoch_keypairs (g : MlsGroup) (keypairs : list EncryptionKeyPair) : Memory.m () :=
  Memory.write_encryption_epoch_key_pairs (MlsGroup_group_id g) (MlsGroup_epoch g) (own_leaf_index g) keypairs.

Definition read_epoch_keypairs (g : MlsGroup) : Memory.m (list EncryptionKeyPair) :=
  Memory.encryption_epoch_key_pairs (MlsGroup_group_id g) (MlsGroup_epoch g) (own_leaf_index g).

(** The epoch is a [u64]. *)
Definition delete_previous_epoch_keypairs (g : MlsGroup) : Memory.m () :=
  Memory.delete_encryption_epoch_key_pairs (MlsGroup_group_id g) (usize_wrap (MlsGroup_epoch g - 1)) (own_leaf_index g).

(** [EncryptionKeyPair::write], [read] and [delete] *)
Definition EncryptionKeyPair_write (kp : EncryptionKeyPair) : Memory.m () := Memory.write_encryption_key_pair (kp.1 : bytes) (mkStoredKeyPair kp).
Definition EncryptionKeyPair_delete (kp : EncryptionKeyPair) : Memory.m () := Memory.delete_encryption_key_pair (kp.1 : bytes).
Definition EncryptionKeyPair_read (st : MemoryStorage) (key : bytes) : option EncryptionKeyPair :=
  match (Memory.encryption_key_pair key st).1 with Ok o => stored_pair <$> o | _ => None end.

Definition read_decryption_keypairs (g : MlsGroup) (st : MemoryStorage) (own_leaf_nodes : list LeafNode) :
    outcome StageCommitError (list EncryptionKeyPair * list EncryptionKeyPair) :=
  old_epoch_keypairs ← map_err (fun _ => MissingDecryptionKey) (read_epoch_keypairs g st).1;
  leaf_node_keypairs ← foldr (fun leaf_node rest =>
      kp ← ok_or (EncryptionKeyPair_read st (leaf_encryption_key (payload leaf_node))) MissingDecryptionKey;
      l ← rest; Ok (kp :: l)) (Ok []) own_leaf_nodes;
  Ok (old_epoch_keypairs, leaf_node_keypairs).

(** ** Merging commits *)

Definition no_error {S E A} (o : outcome Empty_set A) : method S E A := lift (map_err (fun e : Empty_set => match e with end) o).

(** [MlsGroup::merge_commit] *)
Definition MlsGroup_merge_commit (staged_commit : MemberCommit) : method client MergeCommitError () :=
  self ← get;
  old_epoch_keypairs ← on_store MergeStorageError (read_epoch_keypairs self.1);
  match staged_state staged_commit with
  | PublicState state =>
    on_mls (modify (fun g => set_public_group (PublicGroup_merge_diff (psc_staged_diff state) (public_group g)) g));;
    self ← get;
    on_store MergeStorageError (MlsGroup_store self.1)
  | GroupMember state =>
    let past_epoch := MlsGroup_epoch self.1 in
    let leaves := MlsGroup_members self.1 in
    on_mls (modify (set_epoch_secrets (msc_group_epoch_secrets state)));;
    let message_secrets := current_secrets (message_secrets_store self.1) in
    on_mls (modify (fun g => set_message_store (set_current_secrets (msc_message_secrets state) (message_secrets_store g)) g));;
    self ← get;
    store ← no_error (add_epoch past_epoch message_secrets leaves (message_secrets_store self.1));
    on_mls (modify (set_message_store store));;
    on_mls (modify (fun g => set_public_group (PublicGroup_merge_diff (msc_staged_diff state) (public_group g)) g));;
    let leaf_keypair := match msc_new_leaf_keypair_option state with Some keypair => [keypair] | None => [] end in
    self ← get;
    let new_owned_encryption_keys := owned_encryption_keys (treesync (public_group self.1)) (own_leaf_index self.1) in
    let epoch_keypairs := List.filter (fun keypair => mem keypair.1 new_owned_encryption_keys)
      (old_epoch_keypairs ++ msc_new_keypairs state ++ leaf_keypair) in
    on_store MergeStorageError (PublicGroup_store (public_group self.1));;
    on_store MergeStorageError (Memory.write_group_epoch_secrets (MlsGroup_group_id self.1) (group_epoch_secrets self.1));;
    on_store MergeStorageError (Memory.write_message_secrets (MlsGroup_group_id self.1) (message_secrets_store self.1));;
    on_store MergeStorageError (store_epoch_keypairs self.1 epoch_keypairs);;
    on_store MergeStorageError (delete_previous_epoch_keypairs self.1);;
    (match msc_new_leaf_keypair_option state with
     | Some keypair => on_store MergeStorageError (EncryptionKeyPair_delete keypair)
     | None => mret tt
     end);;
    on_store MergeStorageError (Memory.clear_proposal_queue (Ref := bytes) (MlsGroup_group_id self.1));;
    on_mls (modify (set_group_proposals (ProposalStore_empty (MlsGroup_proposal_store self.1))))
  end.

Definition merge_staged_commit (staged_commit : MemberCommit) : method client MergeCommitError () :=
  (if commit_self_removed staged_commit then on_mls (modify (set_group_state Inactive)) else mret tt);;
  lift_state MergeStorageError write_state;;
  MlsGroup_merge_commit staged_commit;;
  on_mls (modify (fun g => set_psk_store
    (ResumptionPskStore_add (MlsGroup_epoch g) (ge_resumption_psk (group_epoch_secrets g)) (resumption_psk_store g)) g));;
  self ← get;
  on_store MergeStorageError (Memory.write_resumption_psk_store (MlsGroup_group_id self.1) (resumption_psk_store self.1));;
  on_mls (modify (set_own_leaf_nodes []));;
  on_store MergeStorageError (Memory.delete_own_leaf_nodes (MlsGroup_group_id self.1));;
  lift_state MergeStorageError clear_pending_commit.

Definition merge_pending_commit : method client MergePendingCommitError () :=
  self ← get;
  match group_state self.1 with
  | PendingCommit p =>
    on_mls (modify (set_group_state Operational));;
    lift_state MergePendingMerge (merge_staged_commit (pending_staged_commit p))
  | Inactive => fail (MergePendingState UseAfterEviction)
  | Operational => mret tt
  end.

End Persistence.

(** ** Outgoing messages *)

#[export] Instance Credential_eq_dec : EqDecision Credential.
Proof. solve_decision. Defined.

Section Outgoing.
Context `{!InboundBodies} `{!FramingEncoding} `{!ContextEncoding} `{!OpenMlsCrypto} `{!AeadProvider} `{!ProposalHashing}.
Context `{!Serde bytes} `{!Serde QueuedProposal} `{!Serde (bytes * bytes)} `{!Serde (list bytes)} `{!Serde LeafNode} `{!Serde StoredKeyPair}.
Context `{!Serde (MessageSecretsStore MessageSecrets)} `{!Serde MlsGroupState}.
(** [tls_serialize_detached] of an [AuthenticatedContent] *)
Context (tls_authenticated_content : AuthenticatedContent -> option bytes).

Definition encrypt (pr : Provider) (public_message : AuthenticatedContent) : method client MessageEncryptionError PrivateMessage :=
  self ← get;
  msg ← on_mls (fun g =>
    let store := message_secrets_store g in
    let '(o, ms) := try_from_authenticated_content (draw_reuse_guard pr) public_message (MlsGroup_ciphersuite g)
      (padding_size (mls_group_config g)) (current_secrets store) in
    (o, set_message_store (set_current_secrets ms store) g));
  self ← get;
  on_store EncryptionStorageError (Memory.write_message_secrets (MlsGroup_group_id self.1) (message_secrets_store self.1));;
  mret msg.

Definition content_to_mls_message (pr : Provider) (content : AuthenticatedContent) : method client LibraryError MlsMessageOut :=
  self ← get;
  match outgoing (wire_format_policy (mls_group_config self.1)) with
  | OutgoingPlaintext =>
    let plaintext := PublicMessage_from content in
    let ms := current_secrets (message_secrets_store self.1) in
    plaintext ← (if is_member (content_sender (pub_content plaintext)) then
        lift (set_membership_tag (MlsGroup_ciphersuite self.1) (ms_membership_key ms) (ms_serialized_context ms) plaintext)
      else mret plaintext);
    mret (OutPublic plaintext)
  | OutgoingCiphertext =>
    ciphertext ← lift_state (fun _ => LibraryCustom) (encrypt pr content);
    mret (OutPrivate (MlsGroup_version self.1) ciphertext)
  end.

Definition reset_aad {E} : method client E () := on_mls (modify (set_aad [])).

Definition create_message (pr : Provider) (message : bytes) : method client CreateMessageError MlsMessageOut :=
  self ← get;
  if negb (is_active self.1) then fail (MessageGroupState UseAfterEviction)
  else if negb (ProposalStore_is_empty (MlsGroup_proposal_store self.1)) then fail (MessageGroupState PendingProposal)
  else
    content ← lift (map_err MessageLibraryError
      (new_application (own_leaf_index self.1) (aad self.1) message (MlsGroup_context self.1) (content_signer pr)));
    ciphertext ← lift_state (fun _ => MessageLibraryError LibraryCustom) (encrypt pr content);
    reset_aad;;
    mret (OutPrivate (MlsGroup_version self.1) ciphertext).

(** ** Proposals *)

(** [ProposalRef::from_authenticated_content_by_ref]; its errors are dropped by the caller *)
Definition ProposalRef_by_content (c : Ciphersuite) (m : AuthenticatedContent) : outcome CryptoError ProposalRef :=
  match content_body (ac_content m) with
  | BodyProposal _ =>
    encoded ← ok_or (tls_authenticated_content m) TlsSerializationError;
    make_proposal_ref encoded c
  | _ => Err TlsSerializationError
  end.

Definition from_authenticated_content (c : Ciphersuite) (m : AuthenticatedContent) (t : ProposalOrRefType) : outcome LibraryError QueuedProposal :=
  proposal_reference ← map_err (fun _ => LibraryCustom) (ProposalRef_by_content c m);
  match content_body (ac_content m) with
  | BodyProposal p => Ok {| proposal := p; proposal_reference := proposal_reference; sender := content_sender (ac_content m); proposal_or_ref_type := t |}
  | _ => Err LibraryCustom
  end.

Definition from_authenticated_content_by_ref (c : Ciphersuite) (m : AuthenticatedContent) : outcome LibraryError QueuedProposal :=
  from_authenticated_content c m ByReference.

Definition store_pending_proposal (p : QueuedProposal) : method client MemoryStorageError () :=
  self ← get;
  on_store id (Memory.queue_proposal (MlsGroup_group_id self.1) (proposal_reference p : bytes) p);;
  on_mls (modify (fun g => set_group_proposals (ProposalStore_add p (MlsGroup_proposal_store g)) g)).

Definition remove_pending_proposal (proposal_ref : ProposalRef) : method client RemoveProposalError () :=
  self ← get;
  on_store RemoveProposalStorage (Memory.remove_proposal (MlsGroup_group_id self.1) (proposal_ref : bytes));;
  match ProposalStore_remove proposal_ref (MlsGroup_proposal_store self.1) with
  | Some store => on_mls (modify (set_group_proposals store))
  | None => fail RemoveProposalNotFound
  end.

Definition create_proposal (g : MlsGroup) (signer : Signer) (p : Proposal) : outcome LibraryError AuthenticatedContent :=
  member_proposal (framing_parameters g) (own_leaf_index g) p (MlsGroup_context g) signer.

Definition create_add_proposal (g : MlsGroup) (signer : Signer) (joiner_key_package : KeyPackage) : outcome CreateAddProposalError AuthenticatedContent :=
  _ ← (match required_capabilities (gc_extensions (MlsGroup_context g)) with
       | Some required => map_err AddProposalLeafNode
           (supports_required_capabilities (leaf_capabilities (payload (kp_leaf_node joiner_key_package))) required)
       | None => Ok tt
       end);
  map_err AddProposalLibraryError (create_proposal g signer (Add joiner_key_package)).

Definition create_remove_proposal (g : MlsGroup) (signer : Signer) (removed : LeafNodeIndex) : outcome ValidationError AuthenticatedContent :=
  match TreeSync_leaf (treesync (public_group g)) removed with
  | None => Err UnknownMember
  | Some _ => map_err ValidationLibraryError (create_proposal g signer (Remove removed))
  end.

Definition create_update_proposal (g : MlsGroup) (signer : Signer) (leaf_node : LeafNode) : outcome LibraryError AuthenticatedContent :=
  create_proposal g signer (Update leaf_node).
Definition create_presharedkey_proposal (g : MlsGroup) (signer : Signer) (psk : PreSharedKeyId) : outcome LibraryError AuthenticatedContent :=
  create_proposal g signer (PreSharedKey psk).
Definition create_custom_proposal (g : MlsGroup) (signer : Signer) (p : CustomProposal) : outcome LibraryError AuthenticatedContent :=
  create_proposal g signer (Custom p).

Definition create_group_context_ext_proposal (g : MlsGroup) (signer : Signer) (es : Extensions) :
    outcome CreateGroupContextExtProposalError AuthenticatedContent :=
  _ ← (match required_capabilities es with
       | Some required =>
         own_leaf ← ok_or (TreeSync_leaf (treesync (public_group g)) (own_leaf_index g)) (ExtensionsLibraryError LibraryCustom);
         _ ← map_err ExtensionsLeafNode (supports_required_capabilities (leaf_capabilities (payload own_leaf)) required);
         map_err ExtensionsLeafNode (PublicGroup_check_extension_support (public_group g) (extension_types required))
       | None => Ok tt
       end);
  map_err ExtensionsLibraryError (create_proposal g signer (GroupContextExtensions es)).

(** What every operation that proposes does with the signed proposal. *)
Definition queue_and_send {E} (library : LibraryError -> E) (storage : MemoryStorageError -> E) (pr : Provider) (content : AuthenticatedContent)
    (t : ProposalOrRefType) : method client E (MlsMessageOut * ProposalRef) :=
  self ← get;
  queued_proposal ← lift (map_err library (from_authenticated_content (MlsGroup_ciphersuite self.1) content t));
  let proposal_ref := proposal_reference queued_proposal in
  on_store storage (Memory.queue_proposal (MlsGroup_group_id self.1) (proposal_ref : bytes) queued_proposal);;
  on_mls (modify (fun g => set_group_proposals (ProposalStore_add queued_proposal (MlsGroup_proposal_store g)) g));;
  mls_message ← lift_state library (content_to_mls_message pr content);
  reset_aad;;
  mret (mls_message, proposal_ref).

(** [impl_propose_fun!]: an operation by its function that creates the proposal *)
Definition propose_by {F} (error : F -> ProposalError) (create : MlsGroup -> Signer -> outcome F AuthenticatedContent) (t : ProposalOrRefType)
    (pr : Provider) : method client ProposalError (MlsMessageOut * ProposalRef) :=
  self ← get;
  lift (map_err ProposalErrorGroupState (is_operational self.1));;
  content ← lift (map_err error (create self.1 (content_signer pr)));
  queue_and_send ProposalErrorLibrary ProposalErrorStorage pr content t.

Definition propose_add_member_by_value (pr : Provider) (kp : KeyPackage) := propose_by ProposalErrorCreateAdd (fun g s => create_add_proposal g s kp) ByProposal pr.
Definition propose_remove_member_by_value (pr : Provider) (i : LeafNodeIndex) := propose_by ProposalErrorValidation (fun g s => create_remove_proposal g s i) ByProposal pr.
Definition propose_external_psk (pr : Provider) (psk : PreSharedKeyId) := propose_by ProposalErrorLibrary (fun g s => create_presharedkey_proposal g s psk) ByReference pr.
Definition propose_external_psk_by_value (pr : Provider) (psk : PreSharedKeyId) := propose_by ProposalErrorLibrary (fun g s => create_presharedkey_proposal g s psk) ByProposal pr.
Definition propose_custom_proposal_by_value (pr : Provider) (p : CustomProposal) := propose_by ProposalErrorLibrary (fun g s => create_custom_proposal g s p) ByProposal pr.
Definition propose_custom_proposal_by_reference (pr : Provider) (p : CustomProposal) := propose_by ProposalErrorLibrary (fun g s => create_custom_proposal g s p) ByReference pr.

Definition propose_group_context_extensions (pr : Provider) (es : Extensions) :=
  propose_by ProposalErrorExtensions (fun g s => create_group_context_ext_proposal g s es) ByReference pr.

Definition propose_add_member (pr : Provider) (key_package : KeyPackage) : method client ProposeAddMemberError (MlsMessageOut * ProposalRef) :=
  self ← get;
  lift (map_err ProposeAddGroupState (is_operational self.1));;
  content ← lift (map_err (fun e => match e with AddProposalLibraryError e => ProposeAddLibraryError e | AddProposalLeafNode e => ProposeAddLeafNode e end)
    (create_add_proposal self.1 (content_signer pr) key_package));
  queue_and_send ProposeAddLibraryError ProposeAddStorage pr content ByReference.

Definition propose_remove_member (pr : Provider) (member : LeafNodeIndex) : method client ProposeRemoveMemberError (MlsMessageOut * ProposalRef) :=
  self ← get;
  lift (map_err ProposeRemoveGroupState (is_operational self.1));;
  content ← lift (map_err (fun _ => ProposeRemoveUnknownMember) (create_remove_proposal self.1 (content_signer pr) member));
  queue_and_send ProposeRemoveLibraryError ProposeRemoveStorage pr content ByReference.

(** The first member with the credential *)
Definition member_by_credential (g : MlsGroup) (member : Credential) : option LeafNodeIndex :=
  member_index <$> List.find (fun m => bool_decide (member_credential m = member)) (MlsGroup_members g).

Definition propose_remove_member_by_credential (pr : Provider) (member : Credential) : method client ProposeRemoveMemberError (MlsMessageOut * ProposalRef) :=
  self ← get;
  match member_by_credential self.1 member with
  | Some member_index => propose_remove_member pr member_index
  | None => fail ProposeRemoveUnknownMember
  end.

Definition propose_remove_member_by_credential_by_value (pr : Provider) (member : Credential) : method client ProposalError (MlsMessageOut * ProposalRef) :=
  self ← get;
  match member_by_credential self.1 member with
  | Some member_index => propose_remove_member_by_value pr member_index
  | None => fail (ProposalErrorRemoveMember ProposeRemoveUnknownMember)
  end.

(** [LeafNode::update]: the new leaf and the key pair that was stored for it *)
Definition LeafNode_update (pr : CommitProvider) (leaf : LeafNode) (p : LeafNodeParameters) : method MemoryStorage LeafNodeUpdateError LeafNode :=
  let old := payload leaf in
  let credential_with_key := default (leaf_credential old, leaf_signature_key old) (lp_credential_with_key p) in
  encryption_key_pair ← lift (map_err UpdateLibraryError (draw_leaf_keypair pr));
  let new := {|
    leaf_encryption_key := encryption_key_pair.1; leaf_signature_key := credential_with_key.2; leaf_credential := credential_with_key.1;
    leaf_capabilities := default (leaf_capabilities old) (lp_capabilities p); leaf_node_source := SourceUpdate;
    leaf_extensions := default (leaf_extensions old) (lp_extensions p) |} in
  lift_state UpdateStorage (EncryptionKeyPair_write encryption_key_pair);;
  signature ← lift (map_err (fun _ => UpdateSignature) (sign_leaf pr new));
  mret {| payload := new; leaf_signature := signature |}.

(** [_propose_self_update] *)
Definition create_self_update (pr : Provider) (p : LeafNodeParameters) : method client ProposeSelfUpdateError AuthenticatedContent :=
  self ← get;
  lift (map_err ProposeUpdateGroupState (is_operational self.1));;
  own_leaf ← lift (ok_or (TreeSync_leaf (treesync (public_group self.1)) (own_leaf_index self.1)) (ProposeUpdateLibraryError LibraryCustom));
  own_leaf ← lift_state ProposeUpdateLeafNode (on_part snd (fun st s => (s.1, st)) (LeafNode_update (commit_provider pr) own_leaf p));
  update_proposal ← lift (map_err ProposeUpdateLibraryError (create_update_proposal self.1 (content_signer pr) own_leaf));
  on_store ProposeUpdateStorage (Memory.append_own_leaf_node (MlsGroup_group_id self.1) own_leaf);;
  on_mls (modify (fun g => set_own_leaf_nodes (own_leaf_nodes g ++ [own_leaf]) g));;
  mret update_proposal.

Definition propose_self_update (pr : Provider) (p : LeafNodeParameters) : method client ProposeSelfUpdateError (MlsMessageOut * ProposalRef) :=
  update_proposal ← create_self_update pr p;
  queue_and_send ProposeUpdateLibraryError ProposeUpdateStorage pr update_proposal ByReference.

Definition leave_group (pr : Provider) : method client LeaveGroupError MlsMessageOut :=
  self ← get;
  lift (map_err LeaveGroupState (is_operational self.1));;
  remove_proposal ← lift (map_err (fun _ => LeaveLibraryError LibraryCustom) (create_remove_proposal self.1 (content_signer pr) (own_leaf_index self.1)));
  queued ← lift (map_err LeaveLibraryError (from_authenticated_content_by_ref (MlsGroup_ciphersuite self.1) remove_proposal));
  on_store LeaveStorage (Memory.queue_proposal (MlsGroup_group_id self.1) (proposal_reference queued : bytes) queued);;
  on_mls (modify (fun g => set_group_proposals (ProposalStore_add queued (MlsGroup_proposal_store g)) g));;
  reset_aad;;
  lift_state LeaveLibraryError (content_to_mls_message pr remove_proposal).

Inductive Propose :=
| ProposeAdd (kp : KeyPackage)
| ProposeUpdate (p : LeafNodeParameters)
| ProposeRemove (leaf_index : LeafNodeIndex)
| ProposeRemoveCredential (credential : Credential)
| ProposePreSharedKey (psk : PreSharedKeyId)
| ProposeReInit
| ProposeExternalInit (kem_output : bytes)
| ProposeGroupContextExtensions (es : Extensions)
| ProposeCustom (p : CustomProposal).

Definition propose (pr : Provider) (p : Propose) (ref_or_value : ProposalOrRefType) : method client ProposalError (MlsMessageOut * ProposalRef) :=
  match p, ref_or_value with
  | ProposeAdd key_package, ByProposal => propose_add_member_by_value pr key_package
  | ProposeAdd key_package, ByReference => lift_state ProposalErrorAddMember (propose_add_member pr key_package)
  | ProposeUpdate leaf_node_parameters, _ => lift_state ProposalErrorSelfUpdate (propose_self_update pr leaf_node_parameters)
  | ProposeRemove leaf_index, ByProposal => propose_remove_member_by_value pr leaf_index
  | ProposeRemove leaf_index, ByReference => lift_state ProposalErrorRemoveMember (propose_remove_member pr leaf_index)
  | ProposeRemoveCredential credential, ByProposal => propose_remove_member_by_credential_by_value pr credential
  | ProposeRemoveCredential credential, ByReference => lift_state ProposalErrorRemoveMember (propose_remove_member_by_credential pr credential)
  | ProposePreSharedKey psk_id, _ =>
    match psk psk_id, ref_or_value with
    | ExternalPsk _, ByProposal => propose_external_psk_by_value pr psk_id
    | ExternalPsk _, ByReference => propose_external_psk pr psk_id
    | Resumption _, _ => fail (ProposalErrorLibrary LibraryCustom)
    end
  | ProposeReInit, _ | ProposeExternalInit _, _ | ProposeGroupContextExtensions _, _ => fail (ProposalErrorLibrary LibraryCustom)
  | ProposeCustom p, ByProposal => propose_custom_proposal_by_value pr p
  | ProposeCustom p, ByReference => propose_custom_proposal_by_reference pr p
  end.

End Outgoing.

(** ** Commits *)

(** The methods of a [CommitBuilder] in its initial stage *)
Definition CommitBuilder_consume_proposal_store (b : bool) (s : InitialStage) : InitialStage := {|
  is_own_proposals := is_own_proposals s; is_force_self_update := is_force_self_update s; is_leaf_node_parameters := is_leaf_node_parameters s;
  is_consume_proposal_store := b |}.
Definition CommitBuilder_force_self_update (b : bool) (s : InitialStage) : InitialStage := {|
  is_own_proposals := is_own_proposals s; is_force_self_update := b; is_leaf_node_parameters := is_leaf_node_parameters s;
  is_consume_proposal_store := is_consume_proposal_store s |}.
Definition CommitBuilder_leaf_node_parameters (p : LeafNodeParameters) (s : InitialStage) : InitialStage := {|
  is_own_proposals := is_own_proposals s; is_force_self_update := is_force_self_update s; is_leaf_node_parameters := p;
  is_consume_proposal_store := is_consume_proposal_store s |}.
Definition CommitBuilder_add_proposals (l : list Proposal) (s : InitialStage) : InitialStage := {|
  is_own_proposals := is_own_proposals s ++ l; is_force_self_update := is_force_self_update s; is_leaf_node_parameters := is_leaf_node_parameters s;
  is_consume_proposal_store := is_consume_proposal_store s |}.
Definition CommitBuilder_propose_adds (key_packages : list KeyPackage) : InitialStage -> InitialStage := CommitBuilder_add_proposals (map Add key_packages).
Definition CommitBuilder_propose_removals (removed : list LeafNodeIndex) : InitialStage -> InitialStage := CommitBuilder_add_proposals (map Remove removed).
Definition CommitBuilder_propose_group_context_extensions (es : Extensions) : InitialStage -> InitialStage :=
  CommitBuilder_add_proposals [GroupContextExtensions es].

Section Committing.
Context `{!TreeHashing} `{!TranscriptEncoding} `{!ProposalHashing} `{!OpenMlsCrypto} `{!OpenMlsHpke} `{!PskEncoding} `{!ContextEncoding}.
Context `{!InboundBodies} `{!FramingEncoding} `{!AeadProvider} `{!Serde Psk} `{!Serde PskBundle}.
Context `{!Serde bytes} `{!Serde (MessageSecretsStore MessageSecrets)} `{!Serde MlsGroupState}.
Context (map_order : gmap LeafNodeIndex FilterMember -> list (LeafNodeIndex * FilterMember)).

(** [CommitBuilder<Complete>::stage_commit]; the commit of the bundle *)
Definition builder_stage_commit (pr : Provider) (b : BuiltCommit) : method client CommitBuilderStageError MlsMessageOut :=
  on_mls (modify (set_group_state (PendingCommit (PendingMember (built_staged_commit b)))));;
  lift_state StageErrorKeyStore write_state;;
  reset_aad;;
  lift_state StageErrorLibrary (content_to_mls_message pr (built_commit b)).

(** [load_psks], [build] with a filter that accepts all proposals, and [stage_commit] *)
Definition commit_with (pr : Provider) (stage : InitialStage) : method client CommitError (MlsMessageOut * BuiltCommit) :=
  self ← get;
  loaded ← lift (map_err CommitCreateCommitError (builder_load_psks self.1 self.2 stage));
  b ← lift (map_err CommitCreateCommitError (build_internal map_order (current_time pr) (commit_provider pr) self.1 loaded (fun _ => true)));
  m ← lift_state CommitStageError (builder_stage_commit pr b);
  mret (m, b).

Definition commit_to_pending_proposals (pr : Provider) : method client CommitError (MlsMessageOut * BuiltCommit) :=
  self ← get;
  lift (map_err CommitGroupState (is_operational self.1));;
  commit_with pr (CommitBuilder_force_self_update true (CommitBuilder_consume_proposal_store true CommitBuilder_new)).

(** [add_members] and [add_members_without_update], by the flag of
    [add_members_internal]; the welcome of the bundle is there when somebody was invited *)
Definition add_members_internal (pr : Provider) (key_packages : list KeyPackage) (force : bool) : method client CommitError (MlsMessageOut * BuiltCommit) :=
  self ← get;
  lift (map_err CommitGroupState (is_operational self.1));;
  match key_packages with
  | [] => fail (CommitEmptyInput EmptyAddMembers)
  | _ =>
    r ← commit_with pr (CommitBuilder_force_self_update force (CommitBuilder_propose_adds key_packages CommitBuilder_new));
    (match built_invitations r.2 with [] => fail (CommitLibraryError LibraryCustom) | _ => mret tt end);;
    reset_aad;;
    mret r
  end.

Definition remove_members (pr : Provider) (members : list LeafNodeIndex) : method client CommitError (MlsMessageOut * BuiltCommit) :=
  self ← get;
  lift (map_err CommitGroupState (is_operational self.1));;
  match members with
  | [] => fail (CommitEmptyInput EmptyRemoveMembers)
  | _ =>
    r ← commit_with pr (CommitBuilder_propose_removals members CommitBuilder_new);
    lift_state CommitStorage write_state;;
    reset_aad;;
    mret r
  end.

Definition self_update (pr : Provider) (p : LeafNodeParameters) : method client CommitError (MlsMessageOut * BuiltCommit) :=
  self ← get;
  lift (map_err CommitGroupState (is_operational self.1));;
  r ← commit_with pr (CommitBuilder_consume_proposal_store true (CommitBuilder_leaf_node_parameters p CommitBuilder_new));
  reset_aad;;
  mret r.

Definition update_group_context_extensions (pr : Provider) (es : Extensions) : method client CommitError (MlsMessageOut * BuiltCommit) :=
  self ← get;
  lift (map_err CommitGroupState (is_operational self.1));;
  commit_with pr (CommitBuilder_propose_group_context_extensions es CommitBuilder_new).

End Committing.

(** ** Removals, as an application reads them *)

Inductive RemoveOperation :=
| WeLeft
| WeWereRemovedBy (s : Sender)
| TheyLeft (i : LeafNodeIndex)
| TheyWereRemovedBy (i : LeafNodeIndex) (s : Sender)
| WeRemovedThem (i : LeafNodeIndex).

(** [RemoveOperation::new] of a queued remove proposal *)
Definition RemoveOperation_new (removed : LeafNodeIndex) (s : Sender) (own_index : LeafNodeIndex) : RemoveOperation :=
  let rest := if removed =? own_index then WeWereRemovedBy s else TheyWereRemovedBy removed s in
  match s with
  | Sender_Member leaf_index =>
    if leaf_index =? own_index then (if removed =? own_index then WeLeft else WeRemovedThem removed)
    else if removed =? leaf_index then TheyLeft removed else rest
  | _ => rest
  end.

(** ** Lemmas *)

(** Keys of the store with different labels *)
Lemma keys_differ l l' k k' : bool_decide (l ∈ labels) && bool_decide (l' ∈ labels) && negb (bool_decide (l = l')) = true ->
  build_key_from_vec l k <> build_key_from_vec l' k'.
Proof.
  intros [[Hl Hl']%andb_true_iff Hne%negb_true_iff]%andb_true_iff E. apply bool_decide_eq_true in Hl, Hl'. apply bool_decide_eq_false in Hne.
  by apply build_key_inj in E as [? _].
Qed.

(** Reads an entry of a store that was written and deleted under other labels. *)
Ltac other_label := unfold holds, stored_list, entry, epoch_entry in *;
  repeat first [rewrite lookup_insert_ne by (apply keys_differ; reflexivity) | rewrite lookup_delete_ne by (apply keys_differ; reflexivity)].

Lemma add_epoch_total {M} epoch (ms : M) leaves s : exists trees, add_epoch epoch ms leaves s = Ok (set_trees trees s).
Proof.
  unfold add_epoch. destruct (decide (max_epochs s = 0)%nat); [by exists (past_epoch_trees s); destruct s|].
  destruct (decide (max_epochs s <= length (past_epoch_trees s))%nat); cbn [mbind outcome_bind]; [|by eexists].
  unfold rotate_left. destruct (decide _); [|lia]. cbn [mbind outcome_bind]. by eexists.
Qed.

Lemma previous_epoch_differs e : usize_wrap (e - 1) <> e.
Proof.
  unfold usize_wrap. intros E. pose proof (Z.mod_pos_bound (e - 1) (2 ^ 64) ltac:(lia)) as Hb.
  destruct (decide (e = 0)) as [->|]; [by rewrite E in Hb; vm_compute in E|]. rewrite Z.mod_small in E by lia. lia.
Qed.

(** *** The identifier of a group *)

Abbreviation diff_id := (fun d => gc_group_id (pgd_context d)).

Ltac keep_id := repeat first
  [ done | apply unchanged_bind; [|intros ?] | apply unchanged_modify; intros ? | apply unchanged_for_each; intros ? | case_match ].

Lemma unchanged_on_tree {E A} (c : method TreeSyncDiff E A) : unchanged diff_id (on_tree c).
Proof. intros s. unfold on_tree, on_part. by destruct (c (pgd_diff s)). Qed.

Lemma unchanged_lift_state {S T E F A} (p : S -> T) (f : E -> F) (c : method S E A) : unchanged p c -> unchanged p (lift_state f c).
Proof. intros Hc s. unfold lift_state. specialize (Hc s). by destruct (c s). Qed.

#[local] Hint Resolve unchanged_on_tree unchanged_lift_state : mls.

Lemma apply_proposals_id q own : unchanged diff_id (apply_proposals q own).
Proof.
  unfold apply_proposals. apply unchanged_bind; [apply unchanged_for_each; intros p; unfold apply_update; keep_id; apply unchanged_on_tree|intros _].
  apply unchanged_bind; [|intros b; apply unchanged_bind; [|done]].
  - generalize false as b. induction (filtered_by_type q PtRemove) as [|p l IH]; intros b; cbn [apply_removes]; [done|].
    destruct (proposal p); try apply IH. apply unchanged_bind; [apply unchanged_on_tree|done].
  - generalize (@nil (LeafNodeIndex * KeyPackage)) as inv. induction (filtered_by_type q PtAdd) as [|p l IH]; intros inv; cbn [apply_adds]; [done|].
    destruct (proposal p); try apply IH. apply unchanged_bind; [apply unchanged_lift_state, unchanged_on_tree|done].
Qed.

Lemma update_group_context_id es : unchanged diff_id (update_group_context es).
Proof. unfold update_group_context. keep_id. Qed.

Section Identifiers.
Context `{!TreeHashing} `{!TranscriptEncoding} `{!ProposalHashing} `{!OpenMlsCrypto} `{!OpenMlsHpke} `{!PskEncoding} `{!ContextEncoding}.

Lemma update_confirmed_id m : unchanged diff_id (PublicGroupDiff_update_confirmed_transcript_hash m).
Proof.
  intros s. unfold PublicGroupDiff_update_confirmed_transcript_hash, on_context. run. unfold update_confirmed_transcript_hash.
  destruct (negb _); [done|]. run. by destruct (calculate_confirmed_transcript_hash _ _ _ _ _).
Qed.

Lemma update_interim_id c tag : unchanged diff_id (update_interim_transcript_hash c tag).
Proof. unfold update_interim_transcript_hash. keep_id. Qed.

Lemma compute_path_id pr i ex t p es : unchanged diff_id (compute_path pr i ex t p es).
Proof.
  unfold compute_path. repeat first [done | apply unchanged_bind; [|intros ?] | apply unchanged_lift_state; (apply unchanged_on_tree || apply update_group_context_id)
    | case_match ].
Qed.

Lemma into_staged_context d x : PublicGroupDiff_into_staged_diff d = Ok x -> spg_context x = pgd_context d.
Proof. unfold PublicGroupDiff_into_staged_diff. intros E. ok_inv E. by injection E as <-. Qed.

Lemma build_parts_id pr g stage q own_updates : unchanged diff_id (build_parts pr g stage q own_updates).
Proof.
  unfold build_parts. cbv zeta. repeat first [done | apply compute_path_id | apply unchanged_bind; [|intros ?]
    | apply unchanged_lift_state; first [apply apply_proposals_id | apply update_group_context_id | apply update_confirmed_id | apply update_interim_id] | case_match ].
Qed.

(** A commit that was built is for the group it was built in. *)
Lemma build_internal_id map_order now pr g stage f b : build_internal map_order now pr g stage f = Ok b ->
  gc_group_id (commit_context (built_staged_commit b)) = MlsGroup_group_id g.
Proof.
  unfold build_internal. intros E. ok_inv E. destruct x as [q own_updates]. destruct (build_on _ _ _ _ _ _) as [o d'] eqn:Eb. cbn in E. subst o.
  unfold build_on in Eb. apply method_bind_ok in Eb as (parts & d4 & E1 & Eb). unfold stage_parts in Eb.
  apply method_bind_ok in Eb as (s4 & d4' & E5' & Eb). injection E5' as <- <-. destruct (split_secrets _ _ _ _) as [ges ms].
  apply method_bind_ok in Eb as (staged & d4' & E6 & Eb). injection E6 as E6%map_err_ok <-. injection Eb as <- _. cbn [built_staged_commit commit_context staged_state msc_staged_diff].
  rewrite (into_staged_context _ _ E6). pose proof (build_parts_id pr g stage q own_updates (PublicGroup_empty_diff (public_group g))) as Hid.
  by rewrite E1 in Hid.
Qed.

End Identifiers.

Section Mirror.
Context `{!Serde bytes} `{!SerdeLaws bytes} `{!Serde Z} `{!SerdeLaws Z} `{!Serde TreeSync} `{!SerdeLaws TreeSync}.
Context `{!Serde GroupContext} `{!SerdeLaws GroupContext} `{!Serde InterimTranscriptHash} `{!SerdeLaws InterimTranscriptHash}.
Context `{!Serde ConfirmationTag} `{!SerdeLaws ConfirmationTag} `{!Serde QueuedProposal} `{!SerdeLaws QueuedProposal}.
Context `{!Serde (bytes * bytes)} `{!SerdeLaws (bytes * bytes)} `{!Serde (list bytes)} `{!SerdeLaws (list bytes)} `{!JsonArrays bytes bytes}.
Context `{!Serde GroupEpochSecrets} `{!SerdeLaws GroupEpochSecrets} `{!Serde LeafNode} `{!SerdeLaws LeafNode}.
Context `{!Serde (MessageSecretsStore MessageSecrets)} `{!SerdeLaws (MessageSecretsStore MessageSecrets)}.
Context `{!Serde (ResumptionPskStore Secret)} `{!SerdeLaws (ResumptionPskStore Secret)} `{!Serde MlsGroupJoinConfig} `{!SerdeLaws MlsGroupJoinConfig}.
Context `{!Serde MlsGroupState} `{!SerdeLaws MlsGroupState} `{!Serde StoredKeyPair} `{!SerdeLaws StoredKeyPair}.
Context `{!Serde (list EncryptionKeyPair)} `{!SerdeLaws (list EncryptionKeyPair)}.

(** The proposals of a group with their references *)
Definition referenced (l : ProposalStore) : list (bytes * QueuedProposal) := map (fun p => (proposal_reference p : bytes, p)) l.

Lemma referenced_refs l : (referenced l).*1 = map proposal_reference l.
Proof. induction l as [|p l IH]; [done|]. cbn [referenced map]. rewrite fmap_cons. by f_equal. Qed.

(** The store holds the group, apart from its message secrets. *)
Record mirrors (st : MemoryStorage) (g : MlsGroup) : Prop := {
  mi_tree : holds st TREE_LABEL (MlsGroup_group_id g) (Some (treesync (public_group g)));
  mi_tag : holds st CONFIRMATION_TAG_LABEL (MlsGroup_group_id g) (Some (mkConfirmationTag (confirmation_tag (public_group g))));
  mi_context : holds st GROUP_CONTEXT_LABEL (MlsGroup_group_id g) (Some (group_context (public_group g)));
  mi_interim : holds st INTERIM_TRANSCRIPT_HASH_LABEL (MlsGroup_group_id g) (Some (mkInterimTranscriptHash (interim_transcript_hash (public_group g))));
  mi_proposals : queue_holds st (MlsGroup_group_id g) (referenced (MlsGroup_proposal_store g));
  mi_secrets : holds st EPOCH_SECRETS_LABEL (MlsGroup_group_id g) (Some (group_epoch_secrets g));
  mi_index : holds st OWN_LEAF_NODE_INDEX_LABEL (MlsGroup_group_id g) (Some (own_leaf_index g));
  mi_psks : holds st RESUMPTION_PSK_STORE_LABEL (MlsGroup_group_id g) (Some (resumption_psk_store g));
  mi_config : holds st JOIN_CONFIG_LABEL (MlsGroup_group_id g) (Some (mls_group_config g));
  mi_state : holds st GROUP_STATE_LABEL (MlsGroup_group_id g) (Some (group_state g));
  mi_leaves : stored_list st (entry OWN_LEAF_NODES_LABEL (MlsGroup_group_id g)) (map encode (own_leaf_nodes g));
  mi_keys : is_active g = true -> exists pairs : option (list EncryptionKeyPair),
    st !! epoch_entry (MlsGroup_group_id g) (MlsGroup_epoch g) (own_leaf_index g) = encode <$> pairs;
  mi_pending sc : pending_commit g = Some sc -> gc_group_id (commit_context sc) = MlsGroup_group_id g
}.

(** The message secrets too *)
Definition secrets_stored (st : MemoryStorage) (g : MlsGroup) : Prop :=
  holds st MESSAGE_SECRETS_LABEL (MlsGroup_group_id g) (Some (message_secrets_store g)).

Lemma PublicGroup_load_spec st g : mirrors st g -> PublicGroup_load (MlsGroup_group_id g) st = (Ok (Some (public_group g)), st).
Proof.
  intros Hm. unfold PublicGroup_load, Memory.tree, Memory.group_context, Memory.interim_transcript_hash, Memory.confirmation_tag, unwrap. run.
  rewrite !to_vec_encode. rewrite (read_unwrap_spec TREE_LABEL _ _ _ (mi_tree _ _ Hm)).
  rewrite (queued_proposals_spec st _ _ (mi_proposals _ _ Hm)).
  rewrite (read_unwrap_spec GROUP_CONTEXT_LABEL _ _ _ (mi_context _ _ Hm)), (read_unwrap_spec INTERIM_TRANSCRIPT_HASH_LABEL _ _ _ (mi_interim _ _ Hm)),
    (read_unwrap_spec CONFIRMATION_TAG_LABEL _ _ _ (mi_tag _ _ Hm)). cbn [mbind option_bind interim_bytes tag_mac].
  assert (E : forall l acc, foldl (fun store (x : bytes * QueuedProposal) => ProposalStore_add x.2 store) acc (referenced l) = acc ++ l).
  { induction l as [|p l IH]; intros acc; cbn [referenced map foldl]; [by rewrite app_nil_r|]. fold (referenced l). rewrite IH. unfold ProposalStore_add. by rewrite <- app_assoc. }
  rewrite (E (MlsGroup_proposal_store g) ProposalStore_new). unfold MlsGroup_proposal_store. by destruct g as [? []].
Qed.

Lemma MlsGroup_load_spec st g : mirrors st g -> secrets_stored st g -> MlsGroup_load (MlsGroup_group_id g) st = (Ok (Some (set_aad [] g)), st).
Proof.
  intros Hm Hs. unfold MlsGroup_load, Memory.group_epoch_secrets, Memory.own_leaf_index, Memory.message_secrets, Memory.resumption_psk_store,
    Memory.mls_group_join_config, Memory.own_leaf_nodes, Memory.group_state, or_fail, unwrap. run. rewrite (PublicGroup_load_spec _ _ Hm). rewrite !to_vec_encode.
  rewrite (read_spec EPOCH_SECRETS_LABEL _ _ _ (mi_secrets _ _ Hm)), (read_spec OWN_LEAF_NODE_INDEX_LABEL _ _ _ (mi_index _ _ Hm)),
    (read_spec MESSAGE_SECRETS_LABEL _ _ _ Hs), (read_spec RESUMPTION_PSK_STORE_LABEL _ _ _ (mi_psks _ _ Hm)), (read_spec JOIN_CONFIG_LABEL _ _ _ (mi_config _ _ Hm)).
  rewrite (read_list_spec st _ _ (own_leaf_nodes g) (mi_leaves _ _ Hm)). rewrite (read_spec GROUP_STATE_LABEL _ _ _ (mi_state _ _ Hm)). done.
Qed.

Lemma on_store_ok {F A} (f : MemoryStorageError -> F) (c : method MemoryStorage MemoryStorageError A) (x : A) st st' (g : MlsGroup) :
  c st = (Ok x, st') -> on_store f c (g, st) = (Ok x, (g, st')).
Proof. intros E. unfold on_store, lift_state, on_part. cbn [fst snd]. by rewrite E. Qed.

Lemma PublicGroup_store_spec pg st : PublicGroup_store pg st = (Ok tt,
  <[entry INTERIM_TRANSCRIPT_HASH_LABEL (PublicGroup_group_id pg) := encode (mkInterimTranscriptHash (interim_transcript_hash pg))]>
  (<[entry GROUP_CONTEXT_LABEL (PublicGroup_group_id pg) := encode (group_context pg)]>
  (<[entry CONFIRMATION_TAG_LABEL (PublicGroup_group_id pg) := encode (mkConfirmationTag (confirmation_tag pg))]>
  (<[entry TREE_LABEL (PublicGroup_group_id pg) := encode (treesync pg)]> st)))).
Proof.
  unfold PublicGroup_store, Memory.write_tree, Memory.write_confirmation_tag, Memory.write_context, Memory.write_interim_transcript_hash. run.
  by rewrite !put_unwrap_spec.
Qed.

Lemma queue_holds_frame st st' (g : bytes) (l : list (bytes * QueuedProposal)) :
  (forall label k, label = QUEUED_PROPOSAL_LABEL \/ label = PROPOSAL_QUEUE_REFS_LABEL -> st' !! build_key_from_vec label k = st !! build_key_from_vec label k) ->
  queue_holds st g l -> queue_holds st' g l.
Proof.
  intros Hk [Hd Hr Hp]. split; [done| |].
  - unfold stored_list, entry in *. rewrite Hk; auto.
  - intros r p Hin. unfold entry. rewrite Hk; [by apply Hp|auto].
Qed.

Lemma read_epoch_keypairs_spec st g pairs : st !! epoch_entry (MlsGroup_group_id g) (MlsGroup_epoch g) (own_leaf_index g) = encode <$> pairs ->
  read_epoch_keypairs g st = (Ok (default [] pairs), st).
Proof. intros E. unfold read_epoch_keypairs. by rewrite (read_epoch_keys_spec _ _ _ pairs). Qed.

(** Reading the key pairs leaves the store as it is, and depends on their entry only. *)
Lemma read_epoch_keypairs_cases g st : (exists pairs, read_epoch_keypairs g st = (Ok pairs, st)) \/ read_epoch_keypairs g st = (Panic, st).
Proof.
  unfold read_epoch_keypairs, Memory.encryption_epoch_key_pairs, Memory.epoch_key_pairs_id, or_fail, unwrap. run. rewrite !to_vec_encode. run.
  destruct (st !! _) as [v|]; [|left; by eexists]. destruct (from_slice v); [left; by eexists|by right..].
Qed.

Lemma read_epoch_keypairs_same g g' st st' o : MlsGroup_group_id g' = MlsGroup_group_id g -> MlsGroup_epoch g' = MlsGroup_epoch g -> own_leaf_index g' = own_leaf_index g ->
  st' !! epoch_entry (MlsGroup_group_id g) (MlsGroup_epoch g) (own_leaf_index g) = st !! epoch_entry (MlsGroup_group_id g) (MlsGroup_epoch g) (own_leaf_index g) ->
  read_epoch_keypairs g st = (o, st) -> read_epoch_keypairs g' st' = (o, st').
Proof.
  unfold read_epoch_keypairs, Memory.encryption_epoch_key_pairs, Memory.epoch_key_pairs_id, or_fail, unwrap, epoch_entry. intros -> -> ->. run. rewrite !to_vec_encode. run.
  intros ->. destruct (st !! _) as [v|]; [|by intros [= <-]]. by destruct (from_slice v); intros [= <-].
Qed.

Lemma read_epoch_keypairs_other g g' st v o : MlsGroup_group_id g' = MlsGroup_group_id g -> MlsGroup_epoch g' = MlsGroup_epoch g -> own_leaf_index g' = own_leaf_index g ->
  read_epoch_keypairs g st = (o, st) -> let st' := <[entry GROUP_STATE_LABEL (MlsGroup_group_id g) := v]> st in read_epoch_keypairs g' st' = (o, st').
Proof. intros Hi He Ho Hr st'. apply (read_epoch_keypairs_same g g' st); try done. unfold st'. by other_label. Qed.

(** The state after a commit of another member or the own pending one was merged. *)
Definition state_after_merge (s : MlsGroupState) : MlsGroupState := match s with PendingCommit (PendingMember _) => Operational | s => s end.

(** The group after a commit was merged. *)
Definition merged_group (state : MemberStagedCommitState) (trees : list (EpochTree MessageSecrets)) (g : MlsGroup) : MlsGroup :=
  let pg := PublicGroup_merge_diff (msc_staged_diff state) (public_group g) in {|
  mls_group_config := mls_group_config g; public_group := set_proposal_store [] pg; group_epoch_secrets := msc_group_epoch_secrets state;
  own_leaf_index := own_leaf_index g;
  message_secrets_store := {| max_epochs := max_epochs (message_secrets_store g); past_epoch_trees := trees; current_secrets := msc_message_secrets state |};
  resumption_psk_store := ResumptionPskStore_add (gc_epoch (group_context pg)) (ge_resumption_psk (msc_group_epoch_secrets state)) (resumption_psk_store g);
  own_leaf_nodes := []; aad := aad g; group_state := state_after_merge (group_state g) |}.

(** The key pairs of the next epoch *)
Definition next_keypairs (state : MemberStagedCommitState) (g : MlsGroup) (old : list EncryptionKeyPair) : list EncryptionKeyPair :=
  List.filter (fun keypair => mem keypair.1 (owned_encryption_keys (treesync (PublicGroup_merge_diff (msc_staged_diff state) (public_group g))) (own_leaf_index g)))
    (old ++ msc_new_keypairs state ++ match msc_new_leaf_keypair_option state with Some keypair => [keypair] | None => [] end).

(** The store before the proposals are cleared. *)
Definition merge_writes (state : MemberStagedCommitState) (trees : list (EpochTree MessageSecrets)) (g : MlsGroup) (old : list EncryptionKeyPair)
    (st : MemoryStorage) : MemoryStorage :=
  let pg := PublicGroup_merge_diff (msc_staged_diff state) (public_group g) in
  let id := PublicGroup_group_id pg in let epoch := gc_epoch (group_context pg) in
  let st := (PublicGroup_store pg st).2 in
  let st := <[entry EPOCH_SECRETS_LABEL id := encode (msc_group_epoch_secrets state)]> st in
  let st := <[entry MESSAGE_SECRETS_LABEL id := encode (message_secrets_store (merged_group state trees g))]> st in
  let st := <[epoch_entry id epoch (own_leaf_index g) := encode (next_keypairs state g old)]> st in
  let st := base.delete (epoch_entry id (usize_wrap (epoch - 1)) (own_leaf_index g)) st in
  match msc_new_leaf_keypair_option state with
  | Some keypair => base.delete (entry ENCRYPTION_KEY_PAIR_LABEL (keypair.1 : bytes)) st
  | None => st
  end.

Lemma delete_epoch_keys_spec (g : bytes) e i st : Memory.delete_encryption_epoch_key_pairs g e i st = (Ok tt, base.delete (epoch_entry g e i) st).
Proof. unfold Memory.delete_encryption_epoch_key_pairs, Memory.epoch_key_pairs_id, or_fail, Memory.delete. run. by rewrite !to_vec_encode. Qed.

Lemma EncryptionKeyPair_delete_spec kp st : EncryptionKeyPair_delete kp st = (Ok tt, base.delete (entry ENCRYPTION_KEY_PAIR_LABEL (kp.1 : bytes)) st).
Proof. unfold EncryptionKeyPair_delete, Memory.delete_encryption_key_pair, unwrap, Memory.delete. run. by rewrite to_vec_encode. Qed.

Lemma merge_writes_other state trees g old st label k :
  bool_decide (label ∈ [QUEUED_PROPOSAL_LABEL; PROPOSAL_QUEUE_REFS_LABEL; OWN_LEAF_NODE_INDEX_LABEL; JOIN_CONFIG_LABEL; RESUMPTION_PSK_STORE_LABEL;
    GROUP_STATE_LABEL; OWN_LEAF_NODES_LABEL]) = true ->
  merge_writes state trees g old st !! build_key_from_vec label k = st !! build_key_from_vec label k.
Proof.
  intros Hl%bool_decide_eq_true. unfold merge_writes. rewrite PublicGroup_store_spec. cbn [snd].
  apply list_elem_of_In in Hl. repeat destruct Hl as [<-|Hl]; try destruct Hl; destruct (msc_new_leaf_keypair_option state); by other_label.
Qed.

(** Merging does not fail: what the group and the store are afterwards. *)
Lemma MlsGroup_merge_commit_spec sc state g st pairs : staged_state sc = GroupMember state -> mirrors st g ->
  read_epoch_keypairs g st = (Ok pairs, st) ->
  gc_group_id (spg_context (msc_staged_diff state)) = MlsGroup_group_id g ->
  exists trees st', add_epoch (MlsGroup_epoch g) (current_secrets (message_secrets_store g)) (MlsGroup_members g)
      (set_current_secrets (msc_message_secrets state) (message_secrets_store g)) = Ok (message_secrets_store (merged_group state trees g)) /\
    MlsGroup_merge_commit sc (g, st) = (Ok tt, (set_psk_store (resumption_psk_store g) (set_own_leaf_nodes (own_leaf_nodes g)
      (set_group_state (group_state g) (merged_group state trees g))), st')) /\
    queue_holds st' (MlsGroup_group_id g) ([] : list (bytes * QueuedProposal)) /\
    forall label k, label ∈ labels -> label <> PROPOSAL_QUEUE_REFS_LABEL ->
      st' !! build_key_from_vec label k = merge_writes state trees g pairs st !! build_key_from_vec label k.
Proof.
  intros Es Hm Ek Eid. destruct (add_epoch_total (MlsGroup_epoch g) (current_secrets (message_secrets_store g)) (MlsGroup_members g)
    (set_current_secrets (msc_message_secrets state) (message_secrets_store g))) as [trees Ea].
  assert (Hid : PublicGroup_group_id (PublicGroup_merge_diff (msc_staged_diff state) (public_group g)) = MlsGroup_group_id g) by exact Eid.
  assert (Hq : queue_holds (merge_writes state trees g pairs st) (MlsGroup_group_id g) (referenced (MlsGroup_proposal_store g))).
  { eapply queue_holds_frame; [|exact (mi_proposals _ _ Hm)]. intros label k [-> | ->]; by apply merge_writes_other. }
  destruct (clear_proposal_queue_spec _ _ _ Hq) as (st' & Ec & Hq' & Hk). exists trees, st'. split; [exact Ea|]. split; [|split; [done|]].
  - unfold MlsGroup_merge_commit. cbv beta iota zeta delta [mbind method_bind get]. cbn [fst].
    rewrite (on_store_ok _ _ _ _ _ _ Ek). rewrite Es. unfold on_mls, no_error. run. cbn [fst snd].
    cbn [message_secrets_store set_message_store set_epoch_secrets]. rewrite Ea. run. cbn [fst snd].
    rewrite (on_store_ok _ _ _ _ _ _ (PublicGroup_store_spec _ _)).
    unfold Memory.write_group_epoch_secrets, Memory.write_message_secrets, store_epoch_keypairs, delete_previous_epoch_keypairs.
    rewrite (on_store_ok _ _ _ _ _ _ (put_spec _ _ _ _)), (on_store_ok _ _ _ _ _ _ (put_spec _ _ _ _)),
      (on_store_ok _ _ _ _ _ _ (write_epoch_keys_spec _ _ _ _ _)), (on_store_ok _ _ _ _ _ _ (delete_epoch_keys_spec _ _ _ _)).
    rewrite <- Hid in Ec. unfold merge_writes, next_keypairs in Ec. rewrite PublicGroup_store_spec in Ec. cbn [snd] in Ec.
    destruct (msc_new_leaf_keypair_option state) as [kp|] eqn:El.
    + rewrite (on_store_ok _ _ _ _ _ _ (EncryptionKeyPair_delete_spec _ _)).
      match goal with |- context [on_store ?f ?c ?s] => rewrite (on_store_ok f c tt s.2 st' s.1 Ec : on_store f c s = _) end. done.
    + match goal with |- context [on_store ?f ?c ?s] => rewrite (on_store_ok f c tt s.2 st' s.1 Ec : on_store f c s = _) end. done.
  - intros label k Hl Hne. apply Hk; [done|]. intros E. by apply build_key_inj in E as [? _]; [|done|apply refs_label].
Qed.

Lemma write_state_spec g st : write_state (g, st) = (Ok tt, (g, <[entry GROUP_STATE_LABEL (MlsGroup_group_id g) := encode (group_state g)]> st)).
Proof.
  unfold write_state. run. cbn [fst]. unfold Memory.write_group_state. by rewrite (on_store_ok _ _ _ _ _ _ (put_spec _ _ _ _)).
Qed.

(** Writes under a label a queue of proposals does not use *)
Lemma queue_holds_insert st l k v (g : bytes) (q : list (bytes * QueuedProposal)) :
  bool_decide (l ∈ labels) && negb (bool_decide (l = QUEUED_PROPOSAL_LABEL)) && negb (bool_decide (l = PROPOSAL_QUEUE_REFS_LABEL)) = true ->
  queue_holds st g q -> queue_holds (<[build_key_from_vec l k := v]> st) g q.
Proof.
  intros [[Hl%bool_decide_eq_true Hne%negb_true_iff]%andb_true_iff Hne'%negb_true_iff]%andb_true_iff. apply bool_decide_eq_false in Hne, Hne'.
  apply queue_holds_frame. intros label k' Hlab. apply lookup_insert_ne. intros E.
  apply build_key_inj in E as [E _]; [destruct Hlab; subst; done|done|]. destruct Hlab as [-> | ->]; [apply queued_label|apply refs_label].
Qed.

Lemma queue_holds_delete st l k (g : bytes) (q : list (bytes * QueuedProposal)) :
  bool_decide (l ∈ labels) && negb (bool_decide (l = QUEUED_PROPOSAL_LABEL)) && negb (bool_decide (l = PROPOSAL_QUEUE_REFS_LABEL)) = true ->
  queue_holds st g q -> queue_holds (base.delete (build_key_from_vec l k) st) g q.
Proof.
  intros [[Hl%bool_decide_eq_true Hne%negb_true_iff]%andb_true_iff Hne'%negb_true_iff]%andb_true_iff. apply bool_decide_eq_false in Hne, Hne'.
  apply queue_holds_frame. intros label k' Hlab. apply lookup_delete_ne. intros E.
  apply build_key_inj in E as [E _]; [destruct Hlab; subst; done|done|]. destruct Hlab as [-> | ->]; [apply queued_label|apply refs_label].
Qed.

(** The mirror of a group when one of its parts is written. *)
Lemma mirrors_state st g s : (forall sc, pending_commit (set_group_state s g) = Some sc -> gc_group_id (commit_context sc) = MlsGroup_group_id g) ->
  (group_state g = Inactive -> s = Inactive) -> mirrors st g ->
  mirrors (<[entry GROUP_STATE_LABEL (MlsGroup_group_id g) := encode s]> st) (set_group_state s g).
Proof.
  intros Hp Ha [Mt Mg Mc Mi Mq Ms Mx Mr Mf Mst Ml Mk Mp].
  split; change (MlsGroup_group_id (set_group_state s g)) with (MlsGroup_group_id g); try (by other_label); try done.
  - by apply queue_holds_insert.
  - unfold holds, entry. by rewrite lookup_insert_eq.
  - intros Hact. destruct Mk as [pairs Mk].
    { unfold is_active in *. cbn in Hact. destruct (group_state g); [done|done|]. by rewrite (Ha eq_refl) in Hact. }
    exists pairs. change (MlsGroup_epoch (set_group_state s g)) with (MlsGroup_epoch g). by other_label.
Qed.

Lemma mirrors_psks st g x : mirrors st g -> mirrors (<[entry RESUMPTION_PSK_STORE_LABEL (MlsGroup_group_id g) := encode x]> st) (set_psk_store x g).
Proof.
  intros [Mt Mg Mc Mi Mq Ms Mx Mr Mf Mst Ml Mk Mp]. split; change (MlsGroup_group_id (set_psk_store x g)) with (MlsGroup_group_id g); try (by other_label); try done.
  - by apply queue_holds_insert.
  - unfold holds, entry. by rewrite lookup_insert_eq.
Qed.

Lemma mirrors_no_leaves st g : mirrors st g -> mirrors (base.delete (entry OWN_LEAF_NODES_LABEL (MlsGroup_group_id g)) st) (set_own_leaf_nodes [] g).
Proof.
  intros [Mt Mg Mc Mi Mq Ms Mx Mr Mf Mst Ml Mk Mp]. split; change (MlsGroup_group_id (set_own_leaf_nodes [] g)) with (MlsGroup_group_id g); try (by other_label); try done.
  - by apply queue_holds_delete.
  - unfold stored_list, entry. by rewrite lookup_delete_eq.
Qed.

(** Merging the commit of a group the client stays in *)
Lemma mirrors_merged sc state g st pairs : staged_state sc = GroupMember state -> mirrors st g -> read_epoch_keypairs g st = (Ok pairs, st) ->
  gc_group_id (spg_context (msc_staged_diff state)) = MlsGroup_group_id g ->
  exists trees st', add_epoch (MlsGroup_epoch g) (current_secrets (message_secrets_store g)) (MlsGroup_members g)
      (set_current_secrets (msc_message_secrets state) (message_secrets_store g)) = Ok (message_secrets_store (merged_group state trees g)) /\
    let g' := set_psk_store (resumption_psk_store g) (set_own_leaf_nodes (own_leaf_nodes g) (set_group_state (group_state g) (merged_group state trees g))) in
    MlsGroup_merge_commit sc (g, st) = (Ok tt, (g', st')) /\ mirrors st' g' /\ secrets_stored st' g' /\
    st' !! epoch_entry (MlsGroup_group_id g') (MlsGroup_epoch g') (own_leaf_index g') = Some (encode (next_keypairs state g pairs)) /\
    st' !! epoch_entry (MlsGroup_group_id g') (usize_wrap (MlsGroup_epoch g' - 1)) (own_leaf_index g') = None.
Proof.
  intros Es Hm Ek Eid.
  destruct (MlsGroup_merge_commit_spec sc state g st pairs Es Hm Ek Eid) as (trees & st' & Ea & Em & Hq & Hk). exists trees, st'. split; [done|].
  intros g'. split; [done|]. assert (Hid : MlsGroup_group_id g' = MlsGroup_group_id g) by exact Eid.
  assert (Hkeys : st' !! epoch_entry (MlsGroup_group_id g') (MlsGroup_epoch g') (own_leaf_index g') = Some (encode (next_keypairs state g pairs))).
  { unfold epoch_entry. rewrite Hk; [|known_label|done]. unfold merge_writes.
    assert (Hlast : forall st0 : MemoryStorage, base.delete (epoch_entry (MlsGroup_group_id g') (usize_wrap (MlsGroup_epoch g' - 1)) (own_leaf_index g))
        (<[epoch_entry (MlsGroup_group_id g') (MlsGroup_epoch g') (own_leaf_index g) := encode (next_keypairs state g pairs)]> st0)
        !! epoch_entry (MlsGroup_group_id g') (MlsGroup_epoch g') (own_leaf_index g) = Some (encode (next_keypairs state g pairs))).
    { intros st0. rewrite lookup_delete_ne, lookup_insert_eq; [done|]. unfold epoch_entry. intros E. apply build_key_inj in E as [_ E]; [|known_label..].
      apply app_inv_head, app_inv_tail, encode_inj in E. by apply previous_epoch_differs in E. }
    destruct (msc_new_leaf_keypair_option state); [|apply Hlast]. unfold entry. rewrite lookup_delete_ne by (apply keys_differ; reflexivity). apply Hlast. }
  assert (Hold : st' !! epoch_entry (MlsGroup_group_id g') (usize_wrap (MlsGroup_epoch g' - 1)) (own_leaf_index g') = None).
  { unfold epoch_entry. rewrite Hk; [|known_label|done]. unfold merge_writes. destruct (msc_new_leaf_keypair_option state);
      other_label; apply lookup_delete_eq. }
  clear Ek. destruct Hm as [Mt Mg Mc Mi Mq Ms Mx Mr Mf Mst Ml Mk Mp]. split; [|split; [|by split]].
  - split; try (rewrite Hid; unfold holds, stored_list, entry in *; rewrite Hk by (done || known_label); rewrite merge_writes_other by reflexivity; done).
    1-4: unfold holds, entry; rewrite Hk by (done || known_label); unfold merge_writes; rewrite PublicGroup_store_spec; cbn [snd];
      destruct (msc_new_leaf_keypair_option state); other_label; by rewrite lookup_insert_eq.
    + by rewrite Hid.
    + unfold holds, entry; rewrite Hk by (done || known_label); unfold merge_writes; destruct (msc_new_leaf_keypair_option state); other_label; by rewrite lookup_insert_eq.
    + intros _. by exists (Some (next_keypairs state g pairs)).
    + intros sc' Hp. rewrite Hid. by apply Mp.
  - unfold secrets_stored, holds, entry; rewrite Hk by (done || known_label); unfold merge_writes; destruct (msc_new_leaf_keypair_option state); other_label; by rewrite lookup_insert_eq.
Qed.

Lemma clear_pending_commit_spec g st : exists st', clear_pending_commit (g, st) = (Ok tt, (set_group_state (state_after_merge (group_state g)) g, st')) /\
  (mirrors st g -> mirrors st' (set_group_state (state_after_merge (group_state g)) g)) /\
  forall label k, label ∈ labels -> label <> GROUP_STATE_LABEL -> st' !! build_key_from_vec label k = st !! build_key_from_vec label k.
Proof.
  assert (Hsame : set_group_state (group_state g) g = g) by (by destruct g).
  unfold clear_pending_commit. run. cbn [fst]. destruct (group_state g) as [[sc|sc]| |] eqn:E; cbn [state_after_merge].
  1: { unfold on_mls. run. cbn [fst snd]. rewrite write_state_spec. eexists. split; [done|]. split.
       - intros Hm. by apply (mirrors_state st g Operational); [|rewrite E|].
       - intros label k Hl Hne. unfold entry. rewrite lookup_insert_ne; [done|]. intros Ek. apply build_key_inj in Ek as [Ek _]; [by apply Hne|known_label|done]. }
  all: exists st; rewrite Hsame; split_and!; done.
Qed.

(** What merging a commit does to the group and to the store. *)
Lemma merge_staged_commit_spec sc state g st pairs : staged_state sc = GroupMember state -> mirrors st g -> read_epoch_keypairs g st = (Ok pairs, st) ->
  gc_group_id (spg_context (msc_staged_diff state)) = MlsGroup_group_id g ->
  exists trees st', add_epoch (MlsGroup_epoch g) (current_secrets (message_secrets_store g)) (MlsGroup_members g)
      (set_current_secrets (msc_message_secrets state) (message_secrets_store g)) = Ok (message_secrets_store (merged_group state trees g)) /\
    merge_staged_commit sc (g, st) = (Ok tt, (merged_group state trees g, st')) /\
    mirrors st' (merged_group state trees g) /\ secrets_stored st' (merged_group state trees g) /\
    st' !! epoch_entry (MlsGroup_group_id (merged_group state trees g)) (MlsGroup_epoch (merged_group state trees g)) (own_leaf_index g) =
      Some (encode (next_keypairs state g pairs)) /\
    st' !! epoch_entry (MlsGroup_group_id (merged_group state trees g)) (usize_wrap (MlsGroup_epoch (merged_group state trees g) - 1)) (own_leaf_index g) = None.
Proof.
  intros Es Hm Ek Eid. set (st0 := <[entry GROUP_STATE_LABEL (MlsGroup_group_id g) := encode (group_state g)]> st).
  assert (Hm0 : mirrors st0 g).
  { pose proof (mirrors_state st g (group_state g)) as Hw. replace (set_group_state (group_state g) g) with g in Hw by (by destruct g). apply Hw; [|done|done]. exact (mi_pending _ _ Hm). }
  assert (Ek0 : read_epoch_keypairs g st0 = (Ok pairs, st0)) by (by apply read_epoch_keypairs_other).
  destruct (mirrors_merged sc state g st0 pairs Es Hm0 Ek0 Eid) as (trees & st1 & Ea & Em & Hm1 & Hs1 & Hk1 & Ho1). cbv zeta in *.
  set (g1 := set_psk_store _ _) in *.
  pose proof (mirrors_psks st1 g1 (resumption_psk_store (merged_group state trees g)) Hm1) as Hm2.
  pose proof (mirrors_no_leaves _ _ Hm2) as Hm3.
  set (st3 := base.delete _ _) in Hm3. set (g3 := set_own_leaf_nodes [] _) in Hm3.
  destruct (clear_pending_commit_spec g3 st3) as (st4 & Ec & Hm4 & Hk4). specialize (Hm4 Hm3).
  exists trees, st4. split; [done|]. change (set_group_state (state_after_merge (group_state g3)) g3) with (merged_group state trees g) in *.
  split; [|split; [done|split; [|split]]].
  - unfold merge_staged_commit, commit_self_removed. rewrite Es. run. rewrite (proj2 (lift_state_ok _ _ _ _ _) (write_state_spec g st)). fold st0. rewrite Em. unfold on_mls. run. cbn [fst snd].
    unfold Memory.write_resumption_psk_store. rewrite (on_store_ok _ _ _ _ _ _ (put_spec _ _ _ _)). cbn [fst snd].
    unfold Memory.delete_own_leaf_nodes, Memory.delete. erewrite on_store_ok; [|unfold unwrap; run; rewrite to_vec_encode; reflexivity].
    unfold lift_state. by match goal with |- context [clear_pending_commit ?s] => rewrite (Ec : clear_pending_commit s = _) end.
  - unfold secrets_stored, holds, entry. rewrite Hk4; [|known_label|done]. unfold st3. other_label. exact Hs1.
  - unfold epoch_entry. rewrite Hk4; [|known_label|done]. unfold st3. other_label. exact Hk1.
  - unfold epoch_entry. rewrite Hk4; [|known_label|done]. unfold st3. other_label. exact Ho1.
Qed.

End Mirror.
