(* ===== verification/Countables.v ===== *)
(** * Countable state

    Everything a client keeps of a group is finite data: it has decidable equality
    and can be numbered, so that an encoding exists that reads back what it wrote. *)

From S2P Require Import Prelude TreeMath Crypto Tls BinaryTree SenderRatchet SecretTree LeafNodes Nodes TreeSyncDiff TreeHash UpdatePaths TreeKem TreeSync EpochStores Proposals PublicGroup Validation Storage Commits KeySchedule Members Framing GroupState.

#[export] Instance ABinaryTree_eq_decision {L : Type} `{EqDecision L} {P : Type} `{EqDecision P} : EqDecision (ABinaryTree L P).
Proof. solve_decision. Defined.

#[export] Instance ABinaryTree_number {L : Type} `{Countable L} {P : Type} `{Countable P} : Countable (ABinaryTree L P).
Proof. exact (inj_countable' (fun x : ABinaryTree L P => match x with | mkABinaryTree x0 x1 x2 x3 => (x0, x1, x2, x3) end) (fun x => match x with | (x0, x1, x2, x3) => mkABinaryTree x0 x1 x2 x3 end) ltac:(by intros [])). Defined.

#[export] Instance CredentialType_number : Countable (CredentialType).
Proof. exact (inj_countable' (fun x : CredentialType => match x with | CredBasic => (inl ()) | CredX509 => (inr (inl ())) | CredOther x0 => (inr (inr x0)) end) (fun x => match x with | (inl ()) => CredBasic | (inr (inl ())) => CredX509 | (inr (inr x0)) => CredOther x0 end) ltac:(by intros [])). Defined.

#[export] Instance Credential_number : Countable (Credential).
Proof. exact (inj_countable' (fun x : Credential => match x with | mkCredential x0 x1 => (x0, x1) end) (fun x => match x with | (x0, x1) => mkCredential x0 x1 end) ltac:(by intros [])). Defined.

#[export] Instance ProtocolVersion_number : Countable (ProtocolVersion).
Proof. exact (inj_countable' (fun x : ProtocolVersion => match x with | Mls10 => (inl ()) | OtherVersion x0 => (inr x0) end) (fun x => match x with | (inl ()) => Mls10 | (inr x0) => OtherVersion x0 end) ltac:(by intros [])). Defined.

#[export] Instance ExtensionType_number : Countable (ExtensionType).
Proof. exact (inj_countable' (fun x : ExtensionType => match x with | ExtApplicationId => (inl ()) | ExtRatchetTree => (inr (inl ())) | ExtRequiredCapabilities => (inr (inr (inl ()))) | ExtExternalPub => (inr (inr (inr (inl ())))) | ExtExternalSenders => (inr (inr (inr (inr (inl ()))))) | ExtLastResort => (inr (inr (inr (inr (inr (inl ())))))) | ExtUnknown x0 => (inr (inr (inr (inr (inr (inr x0)))))) end) (fun x => match x with | (inl ()) => ExtApplicationId | (inr (inl ())) => ExtRatchetTree | (inr (inr (inl ()))) => ExtRequiredCapabilities | (inr (inr (inr (inl ())))) => ExtExternalPub | (inr (inr (inr (inr (inl ()))))) => ExtExternalSenders | (inr (inr (inr (inr (inr (inl ())))))) => ExtLastResort | (inr (inr (inr (inr (inr (inr x0)))))) => ExtUnknown x0 end) ltac:(by intros [])). Defined.

#[export] Instance ProposalType_number : Countable (ProposalType).
Proof. exact (inj_countable' (fun x : ProposalType => match x with | PtAdd => (inl ()) | PtUpdate => (inr (inl ())) | PtRemove => (inr (inr (inl ()))) | PtPreSharedKey => (inr (inr (inr (inl ())))) | PtReinit => (inr (inr (inr (inr (inl ()))))) | PtExternalInit => (inr (inr (inr (inr (inr (inl ())))))) | PtGroupContextExtensions => (inr (inr (inr (inr (inr (inr (inl ()))))))) | PtAppAck => (inr (inr (inr (inr (inr (inr (inr (inl ())))))))) | PtCustom x0 => (inr (inr (inr (inr (inr (inr (inr (inr x0)))))))) end) (fun x => match x with | (inl ()) => PtAdd | (inr (inl ())) => PtUpdate | (inr (inr (inl ()))) => PtRemove | (inr (inr (inr (inl ())))) => PtPreSharedKey | (inr (inr (inr (inr (inl ()))))) => PtReinit | (inr (inr (inr (inr (inr (inl ())))))) => PtExternalInit | (inr (inr (inr (inr (inr (inr (inl ()))))))) => PtGroupContextExtensions | (inr (inr (inr (inr (inr (inr (inr (inl ())))))))) => PtAppAck | (inr (inr (inr (inr (inr (inr (inr (inr x0)))))))) => PtCustom x0 end) ltac:(by intros [])). Defined.

#[export] Instance Capabilities_eq_decision : EqDecision (Capabilities).
Proof. solve_decision. Defined.

#[export] Instance Capabilities_number : Countable (Capabilities).
Proof. exact (inj_countable' (fun x : Capabilities => match x with | mkCapabilities x0 x1 x2 x3 x4 => (x0, x1, x2, x3, x4) end) (fun x => match x with | (x0, x1, x2, x3, x4) => mkCapabilities x0 x1 x2 x3 x4 end) ltac:(by intros [])). Defined.

#[export] Instance Lifetime_eq_decision : EqDecision (Lifetime).
Proof. solve_decision. Defined.

#[export] Instance Lifetime_number : Countable (Lifetime).
Proof. exact (inj_countable' (fun x : Lifetime => match x with | mkLifetime x0 x1 => (x0, x1) end) (fun x => match x with | (x0, x1) => mkLifetime x0 x1 end) ltac:(by intros [])). Defined.

#[export] Instance LeafNodeSource_eq_decision : EqDecision (LeafNodeSource).
Proof. solve_decision. Defined.

#[export] Instance LeafNodeSource_number : Countable (LeafNodeSource).
Proof. exact (inj_countable' (fun x : LeafNodeSource => match x with | SourceKeyPackage x0 => (inl x0) | SourceUpdate => (inr (inl ())) | SourceCommit x0 => (inr (inr x0)) end) (fun x => match x with | (inl x0) => SourceKeyPackage x0 | (inr (inl ())) => SourceUpdate | (inr (inr x0)) => SourceCommit x0 end) ltac:(by intros [])). Defined.

#[export] Instance RequiredCapabilitiesExtension_eq_decision : EqDecision (RequiredCapabilitiesExtension).
Proof. solve_decision. Defined.

#[export] Instance RequiredCapabilitiesExtension_number : Countable (RequiredCapabilitiesExtension).
Proof. exact (inj_countable' (fun x : RequiredCapabilitiesExtension => match x with | mkRequiredCapabilities x0 x1 x2 => (x0, x1, x2) end) (fun x => match x with | (x0, x1, x2) => mkRequiredCapabilities x0 x1 x2 end) ltac:(by intros [])). Defined.

#[export] Instance Extension_eq_decision : EqDecision (Extension).
Proof. solve_decision. Defined.

#[export] Instance Extension_number : Countable (Extension).
Proof. exact (inj_countable' (fun x : Extension => match x with | ApplicationIdExtension x0 => (inl x0) | RatchetTreeExtension x0 => (inr (inl x0)) | RequiredCapabilities x0 => (inr (inr (inl x0))) | ExternalPubExtension x0 => (inr (inr (inr (inl x0)))) | ExternalSendersExtension x0 => (inr (inr (inr (inr (inl x0))))) | LastResortExtension => (inr (inr (inr (inr (inr (inl ())))))) | UnknownExtension x0 x1 => (inr (inr (inr (inr (inr (inr (x0, x1))))))) end) (fun x => match x with | (inl x0) => ApplicationIdExtension x0 | (inr (inl x0)) => RatchetTreeExtension x0 | (inr (inr (inl x0))) => RequiredCapabilities x0 | (inr (inr (inr (inl x0)))) => ExternalPubExtension x0 | (inr (inr (inr (inr (inl x0))))) => ExternalSendersExtension x0 | (inr (inr (inr (inr (inr (inl ())))))) => LastResortExtension | (inr (inr (inr (inr (inr (inr (x0, x1))))))) => UnknownExtension x0 x1 end) ltac:(by intros [])). Defined.

#[export] Instance LeafNodePayload_eq_decision : EqDecision (LeafNodePayload).
Proof. solve_decision. Defined.

#[export] Instance LeafNodePayload_number : Countable (LeafNodePayload).
Proof. exact (inj_countable' (fun x : LeafNodePayload => match x with | mkLeafNodePayload x0 x1 x2 x3 x4 x5 => (x0, x1, x2, x3, x4, x5) end) (fun x => match x with | (x0, x1, x2, x3, x4, x5) => mkLeafNodePayload x0 x1 x2 x3 x4 x5 end) ltac:(by intros [])). Defined.

#[export] Instance LeafNode_eq_decision : EqDecision (LeafNode).
Proof. solve_decision. Defined.

#[export] Instance LeafNode_number : Countable (LeafNode).
Proof. exact (inj_countable' (fun x : LeafNode => match x with | mkLeafNode x0 x1 => (x0, x1) end) (fun x => match x with | (x0, x1) => mkLeafNode x0 x1 end) ltac:(by intros [])). Defined.

#[export] Instance ParentNode_eq_decision : EqDecision (ParentNode).
Proof. solve_decision. Defined.

#[export] Instance ParentNode_number : Countable (ParentNode).
Proof. exact (inj_countable' (fun x : ParentNode => match x with | mkParentNode x0 x1 x2 x3 => (x0, x1, x2, x3) end) (fun x => match x with | (x0, x1, x2, x3) => mkParentNode x0 x1 x2 x3 end) ltac:(by intros [])). Defined.

#[export] Instance TreeSync_eq_decision : EqDecision (TreeSync).
Proof. solve_decision. Defined.

#[export] Instance TreeSync_number : Countable (TreeSync).
Proof. exact (inj_countable' (fun x : TreeSync => match x with | mkTreeSync x0 x1 x2 x3 x4 => (x0, x1, x2, x3, x4) end) (fun x => match x with | (x0, x1, x2, x3, x4) => mkTreeSync x0 x1 x2 x3 x4 end) ltac:(by intros [])). Defined.

#[export] Instance Ciphersuite_number : Countable (Ciphersuite).
Proof. exact (inj_countable' (fun x : Ciphersuite => match x with | MLS_128_DHKEMX25519_AES128GCM_SHA256_Ed25519 => (inl ()) | MLS_128_DHKEMP256_AES128GCM_SHA256_P256 => (inr (inl ())) | MLS_128_DHKEMX25519_CHACHA20POLY1305_SHA256_Ed25519 => (inr (inr (inl ()))) | MLS_256_DHKEMX448_AES256GCM_SHA512_Ed448 => (inr (inr (inr (inl ())))) | MLS_256_DHKEMP521_AES256GCM_SHA512_P521 => (inr (inr (inr (inr (inl ()))))) | MLS_256_DHKEMX448_CHACHA20POLY1305_SHA512_Ed448 => (inr (inr (inr (inr (inr (inl ())))))) | MLS_256_DHKEMP384_AES256GCM_SHA384_P384 => (inr (inr (inr (inr (inr (inr (inl ()))))))) | MLS_256_XWING_CHACHA20POLY1305_SHA256_Ed25519 => (inr (inr (inr (inr (inr (inr (inr ()))))))) end) (fun x => match x with | (inl ()) => MLS_128_DHKEMX25519_AES128GCM_SHA256_Ed25519 | (inr (inl ())) => MLS_128_DHKEMP256_AES128GCM_SHA256_P256 | (inr (inr (inl ()))) => MLS_128_DHKEMX25519_CHACHA20POLY1305_SHA256_Ed25519 | (inr (inr (inr (inl ())))) => MLS_256_DHKEMX448_AES256GCM_SHA512_Ed448 | (inr (inr (inr (inr (inl ()))))) => MLS_256_DHKEMP521_AES256GCM_SHA512_P521 | (inr (inr (inr (inr (inr (inl ())))))) => MLS_256_DHKEMX448_CHACHA20POLY1305_SHA512_Ed448 | (inr (inr (inr (inr (inr (inr (inl ()))))))) => MLS_256_DHKEMP384_AES256GCM_SHA384_P384 | (inr (inr (inr (inr (inr (inr (inr ()))))))) => MLS_256_XWING_CHACHA20POLY1305_SHA256_Ed25519 end) ltac:(by intros [])). Defined.

#[export] Instance GroupContext_eq_decision : EqDecision (GroupContext).
Proof. solve_decision. Defined.

#[export] Instance GroupContext_number : Countable (GroupContext).
Proof. exact (inj_countable' (fun x : GroupContext => match x with | mkGroupContext x0 x1 x2 x3 x4 x5 x6 => (x0, x1, x2, x3, x4, x5, x6) end) (fun x => match x with | (x0, x1, x2, x3, x4, x5, x6) => mkGroupContext x0 x1 x2 x3 x4 x5 x6 end) ltac:(by intros [])). Defined.

#[export] Instance KeyPackage_eq_decision : EqDecision (KeyPackage).
Proof. solve_decision. Defined.

#[export] Instance KeyPackage_number : Countable (KeyPackage).
Proof. exact (inj_countable' (fun x : KeyPackage => match x with | mkKeyPackage x0 x1 x2 x3 x4 x5 => (x0, x1, x2, x3, x4, x5) end) (fun x => match x with | (x0, x1, x2, x3, x4, x5) => mkKeyPackage x0 x1 x2 x3 x4 x5 end) ltac:(by intros [])). Defined.

#[export] Instance ResumptionPsk_number : Countable (ResumptionPsk).
Proof. exact (inj_countable' (fun x : ResumptionPsk => match x with | mkResumptionPsk x0 x1 x2 => (x0, x1, x2) end) (fun x => match x with | (x0, x1, x2) => mkResumptionPsk x0 x1 x2 end) ltac:(by intros [])). Defined.

#[export] Instance PreSharedKeyId_number : Countable (PreSharedKeyId).
Proof. exact (inj_countable' (fun x : PreSharedKeyId => match x with | mkPreSharedKeyId x0 x1 => (x0, x1) end) (fun x => match x with | (x0, x1) => mkPreSharedKeyId x0 x1 end) ltac:(by intros [])). Defined.

#[export] Instance ReInitProposal_eq_decision : EqDecision (ReInitProposal).
Proof. solve_decision. Defined.

#[export] Instance ReInitProposal_number : Countable (ReInitProposal).
Proof. exact (inj_countable' (fun x : ReInitProposal => match x with | mkReInitProposal x0 x1 x2 x3 => (x0, x1, x2, x3) end) (fun x => match x with | (x0, x1, x2, x3) => mkReInitProposal x0 x1 x2 x3 end) ltac:(by intros [])). Defined.

#[export] Instance MessageRange_eq_decision : EqDecision (MessageRange).
Proof. solve_decision. Defined.

#[export] Instance MessageRange_number : Countable (MessageRange).
Proof. exact (inj_countable' (fun x : MessageRange => match x with | mkMessageRange x0 x1 x2 => (x0, x1, x2) end) (fun x => match x with | (x0, x1, x2) => mkMessageRange x0 x1 x2 end) ltac:(by intros [])). Defined.

#[export] Instance CustomProposal_eq_decision : EqDecision (CustomProposal).
Proof. solve_decision. Defined.

#[export] Instance CustomProposal_number : Countable (CustomProposal).
Proof. exact (inj_countable' (fun x : CustomProposal => match x with | mkCustomProposal x0 x1 => (x0, x1) end) (fun x => match x with | (x0, x1) => mkCustomProposal x0 x1 end) ltac:(by intros [])). Defined.

#[export] Instance Proposal_eq_decision : EqDecision (Proposal).
Proof. solve_decision. Defined.

#[export] Instance Proposal_number : Countable (Proposal).
Proof. exact (inj_countable' (fun x : Proposal => match x with | Add x0 => (inl x0) | Update x0 => (inr (inl x0)) | Remove x0 => (inr (inr (inl x0))) | PreSharedKey x0 => (inr (inr (inr (inl x0)))) | ReInit x0 => (inr (inr (inr (inr (inl x0))))) | ExternalInit x0 => (inr (inr (inr (inr (inr (inl x0)))))) | GroupContextExtensions x0 => (inr (inr (inr (inr (inr (inr (inl x0))))))) | AppAck x0 => (inr (inr (inr (inr (inr (inr (inr (inl x0)))))))) | Custom x0 => (inr (inr (inr (inr (inr (inr (inr (inr x0)))))))) end) (fun x => match x with | (inl x0) => Add x0 | (inr (inl x0)) => Update x0 | (inr (inr (inl x0))) => Remove x0 | (inr (inr (inr (inl x0)))) => PreSharedKey x0 | (inr (inr (inr (inr (inl x0))))) => ReInit x0 | (inr (inr (inr (inr (inr (inl x0)))))) => ExternalInit x0 | (inr (inr (inr (inr (inr (inr (inl x0))))))) => GroupContextExtensions x0 | (inr (inr (inr (inr (inr (inr (inr (inl x0)))))))) => AppAck x0 | (inr (inr (inr (inr (inr (inr (inr (inr x0)))))))) => Custom x0 end) ltac:(by intros [])). Defined.

#[export] Instance Sender_number : Countable (Sender).
Proof. exact (inj_countable' (fun x : Sender => match x with | Sender_Member x0 => (inl x0) | Sender_External x0 => (inr (inl x0)) | NewMemberProposal => (inr (inr (inl ()))) | NewMemberCommit => (inr (inr (inr ()))) end) (fun x => match x with | (inl x0) => Sender_Member x0 | (inr (inl x0)) => Sender_External x0 | (inr (inr (inl ()))) => NewMemberProposal | (inr (inr (inr ()))) => NewMemberCommit end) ltac:(by intros [])). Defined.

#[export] Instance ProposalOrRefType_number : Countable (ProposalOrRefType).
Proof. exact (inj_countable' (fun x : ProposalOrRefType => match x with | ByProposal => (inl ()) | ByReference => (inr ()) end) (fun x => match x with | (inl ()) => ByProposal | (inr ()) => ByReference end) ltac:(by intros [])). Defined.

#[export] Instance QueuedProposal_eq_decision : EqDecision (QueuedProposal).
Proof. solve_decision. Defined.

#[export] Instance QueuedProposal_number : Countable (QueuedProposal).
Proof. exact (inj_countable' (fun x : QueuedProposal => match x with | mkQueuedProposal x0 x1 x2 x3 => (x0, x1, x2, x3) end) (fun x => match x with | (x0, x1, x2, x3) => mkQueuedProposal x0 x1 x2 x3 end) ltac:(by intros [])). Defined.

#[export] Instance GroupEpochSecrets_eq_decision : EqDecision (GroupEpochSecrets).
Proof. solve_decision. Defined.

#[export] Instance GroupEpochSecrets_number : Countable (GroupEpochSecrets).
Proof. exact (inj_countable' (fun x : GroupEpochSecrets => match x with | mkGroupEpochSecrets x0 x1 x2 x3 x4 => (x0, x1, x2, x3, x4) end) (fun x => match x with | (x0, x1, x2, x3, x4) => mkGroupEpochSecrets x0 x1 x2 x3 x4 end) ltac:(by intros [])). Defined.

#[export] Instance Member_eq_decision : EqDecision (Member).
Proof. solve_decision. Defined.

#[export] Instance Member_number : Countable (Member).
Proof. exact (inj_countable' (fun x : Member => match x with | mkMember x0 x1 x2 x3 => (x0, x1, x2, x3) end) (fun x => match x with | (x0, x1, x2, x3) => mkMember x0 x1 x2 x3 end) ltac:(by intros [])). Defined.

#[export] Instance EpochTree_eq_decision {M : Type} `{EqDecision M} : EqDecision (EpochTree M).
Proof. solve_decision. Defined.

#[export] Instance EpochTree_number {M : Type} `{Countable M} : Countable (EpochTree M).
Proof. exact (inj_countable' (fun x : EpochTree M => match x with | mkEpochTree x0 x1 x2 => (x0, x1, x2) end) (fun x => match x with | (x0, x1, x2) => mkEpochTree x0 x1 x2 end) ltac:(by intros [])). Defined.

#[export] Instance MessageSecretsStore_eq_decision {M : Type} `{EqDecision M} : EqDecision (MessageSecretsStore M).
Proof. solve_decision. Defined.

#[export] Instance MessageSecretsStore_number {M : Type} `{Countable M} : Countable (MessageSecretsStore M).
Proof. exact (inj_countable' (fun x : MessageSecretsStore M => match x with | mkMessageSecretsStore x0 x1 x2 => (x0, x1, x2) end) (fun x => match x with | (x0, x1, x2) => mkMessageSecretsStore x0 x1 x2 end) ltac:(by intros [])). Defined.

#[export] Instance SecretTreeNode_eq_decision : EqDecision (SecretTreeNode).
Proof. solve_decision. Defined.

#[export] Instance SecretTreeNode_number : Countable (SecretTreeNode).
Proof. exact (inj_countable' (fun x : SecretTreeNode => match x with | mkSecretTreeNode x0 => x0 end) (fun x => match x with | x0 => mkSecretTreeNode x0 end) ltac:(by intros [])). Defined.

#[export] Instance RatchetSecret_eq_decision : EqDecision (RatchetSecret).
Proof. solve_decision. Defined.

#[export] Instance RatchetSecret_number : Countable (RatchetSecret).
Proof. exact (inj_countable' (fun x : RatchetSecret => match x with | mkRatchetSecret x0 x1 => (x0, x1) end) (fun x => match x with | (x0, x1) => mkRatchetSecret x0 x1 end) ltac:(by intros [])). Defined.

#[export] Instance AeadType_eq_decision : EqDecision (AeadType).
Proof. solve_decision. Defined.

#[export] Instance AeadType_number : Countable (AeadType).
Proof. exact (inj_countable' (fun x : AeadType => match x with | Aes128Gcm => (inl ()) | Aes256Gcm => (inr (inl ())) | ChaCha20Poly1305 => (inr (inr ())) end) (fun x => match x with | (inl ()) => Aes128Gcm | (inr (inl ())) => Aes256Gcm | (inr (inr ())) => ChaCha20Poly1305 end) ltac:(by intros [])). Defined.

#[export] Instance AeadKey_eq_decision : EqDecision (AeadKey).
Proof. solve_decision. Defined.

#[export] Instance AeadKey_number : Countable (AeadKey).
Proof. exact (inj_countable' (fun x : AeadKey => match x with | mkAeadKey x0 x1 => (x0, x1) end) (fun x => match x with | (x0, x1) => mkAeadKey x0 x1 end) ltac:(by intros [])). Defined.

#[export] Instance DecryptionRatchet_eq_decision : EqDecision (DecryptionRatchet).
Proof. solve_decision. Defined.

#[export] Instance DecryptionRatchet_number : Countable (DecryptionRatchet).
Proof. exact (inj_countable' (fun x : DecryptionRatchet => match x with | mkDecryptionRatchet x0 x1 => (x0, x1) end) (fun x => match x with | (x0, x1) => mkDecryptionRatchet x0 x1 end) ltac:(by intros [])). Defined.

#[export] Instance SenderRatchet_eq_decision : EqDecision (SenderRatchet).
Proof. solve_decision. Defined.

#[export] Instance SenderRatchet_number : Countable (SenderRatchet).
Proof. exact (inj_countable' (fun x : SenderRatchet => match x with | EncryptionRatchetOf x0 => (inl x0) | DecryptionRatchetOf x0 => (inr x0) end) (fun x => match x with | (inl x0) => EncryptionRatchetOf x0 | (inr x0) => DecryptionRatchetOf x0 end) ltac:(by intros [])). Defined.

#[export] Instance SecretTree_eq_decision : EqDecision (SecretTree).
Proof. solve_decision. Defined.

#[export] Instance SecretTree_number : Countable (SecretTree).
Proof. exact (inj_countable' (fun x : SecretTree => match x with | mkSecretTree x0 x1 x2 x3 x4 x5 => (x0, x1, x2, x3, x4, x5) end) (fun x => match x with | (x0, x1, x2, x3, x4, x5) => mkSecretTree x0 x1 x2 x3 x4 x5 end) ltac:(by intros [])). Defined.

#[export] Instance MessageSecrets_eq_decision : EqDecision (MessageSecrets).
Proof. solve_decision. Defined.

#[export] Instance MessageSecrets_number : Countable (MessageSecrets).
Proof. exact (inj_countable' (fun x : MessageSecrets => match x with | mkMessageSecrets x0 x1 x2 x3 x4 => (x0, x1, x2, x3, x4) end) (fun x => match x with | (x0, x1, x2, x3, x4) => mkMessageSecrets x0 x1 x2 x3 x4 end) ltac:(by intros [])). Defined.

#[export] Instance ResumptionPskStore_eq_decision {R : Type} `{EqDecision R} : EqDecision (ResumptionPskStore R).
Proof. solve_decision. Defined.

#[export] Instance ResumptionPskStore_number {R : Type} `{Countable R} : Countable (ResumptionPskStore R).
Proof. exact (inj_countable' (fun x : ResumptionPskStore R => match x with | mkResumptionPskStore x0 x1 x2 => (x0, x1, x2) end) (fun x => match x with | (x0, x1, x2) => mkResumptionPskStore x0 x1 x2 end) ltac:(by intros [])). Defined.

#[export] Instance OutgoingWireFormatPolicy_eq_decision : EqDecision (OutgoingWireFormatPolicy).
Proof. solve_decision. Defined.

#[export] Instance OutgoingWireFormatPolicy_number : Countable (OutgoingWireFormatPolicy).
Proof. exact (inj_countable' (fun x : OutgoingWireFormatPolicy => match x with | OutgoingCiphertext => (inl ()) | OutgoingPlaintext => (inr ()) end) (fun x => match x with | (inl ()) => OutgoingCiphertext | (inr ()) => OutgoingPlaintext end) ltac:(by intros [])). Defined.

#[export] Instance IncomingWireFormatPolicy_eq_decision : EqDecision (IncomingWireFormatPolicy).
Proof. solve_decision. Defined.

#[export] Instance IncomingWireFormatPolicy_number : Countable (IncomingWireFormatPolicy).
Proof. exact (inj_countable' (fun x : IncomingWireFormatPolicy => match x with | IncomingCiphertext => (inl ()) | IncomingPlaintext => (inr (inl ())) | IncomingMixed => (inr (inr ())) end) (fun x => match x with | (inl ()) => IncomingCiphertext | (inr (inl ())) => IncomingPlaintext | (inr (inr ())) => IncomingMixed end) ltac:(by intros [])). Defined.

#[export] Instance WireFormatPolicy_eq_decision : EqDecision (WireFormatPolicy).
Proof. solve_decision. Defined.

#[export] Instance WireFormatPolicy_number : Countable (WireFormatPolicy).
Proof. exact (inj_countable' (fun x : WireFormatPolicy => match x with | mkWireFormatPolicy x0 x1 => (x0, x1) end) (fun x => match x with | (x0, x1) => mkWireFormatPolicy x0 x1 end) ltac:(by intros [])). Defined.

#[export] Instance SenderRatchetConfiguration_eq_decision : EqDecision (SenderRatchetConfiguration).
Proof. solve_decision. Defined.

#[export] Instance SenderRatchetConfiguration_number : Countable (SenderRatchetConfiguration).
Proof. exact (inj_countable' (fun x : SenderRatchetConfiguration => match x with | Build_SenderRatchetConfiguration x0 x1 => (x0, x1) end) (fun x => match x with | (x0, x1) => Build_SenderRatchetConfiguration x0 x1 end) ltac:(by intros [])). Defined.

#[export] Instance MlsGroupJoinConfig_eq_decision : EqDecision (MlsGroupJoinConfig).
Proof. solve_decision. Defined.

#[export] Instance MlsGroupJoinConfig_number : Countable (MlsGroupJoinConfig).
Proof. exact (inj_countable' (fun x : MlsGroupJoinConfig => match x with | mkMlsGroupJoinConfig x0 x1 x2 x3 x4 x5 => (x0, x1, x2, x3, x4, x5) end) (fun x => match x with | (x0, x1, x2, x3, x4, x5) => mkMlsGroupJoinConfig x0 x1 x2 x3 x4 x5 end) ltac:(by intros [])). Defined.

#[export] Instance ProposalQueue_eq_decision : EqDecision (ProposalQueue).
Proof. solve_decision. Defined.

#[export] Instance ProposalQueue_number : Countable (ProposalQueue).
Proof. exact (inj_countable' (fun x : ProposalQueue => match x with | mkProposalQueue x0 x1 => (x0, x1) end) (fun x => match x with | (x0, x1) => mkProposalQueue x0 x1 end) ltac:(by intros [])). Defined.

#[export] Instance StagedAbDiff_eq_decision {L : Type} `{EqDecision L} {P : Type} `{EqDecision P} : EqDecision (StagedAbDiff L P).
Proof. solve_decision. Defined.

#[export] Instance StagedAbDiff_number {L : Type} `{Countable L} {P : Type} `{Countable P} : Countable (StagedAbDiff L P).
Proof. exact (inj_countable' (fun x : StagedAbDiff L P => match x with | mkStagedAbDiff x0 x1 x2 => (x0, x1, x2) end) (fun x => match x with | (x0, x1, x2) => mkStagedAbDiff x0 x1 x2 end) ltac:(by intros [])). Defined.

#[export] Instance StagedTreeSyncDiff_eq_decision : EqDecision (StagedTreeSyncDiff).
Proof. solve_decision. Defined.

#[export] Instance StagedTreeSyncDiff_number : Countable (StagedTreeSyncDiff).
Proof. exact (inj_countable' (fun x : StagedTreeSyncDiff => match x with | mkStagedTreeSyncDiff x0 x1 x2 x3 x4 => (x0, x1, x2, x3, x4) end) (fun x => match x with | (x0, x1, x2, x3, x4) => mkStagedTreeSyncDiff x0 x1 x2 x3 x4 end) ltac:(by intros [])). Defined.

#[export] Instance StagedPublicGroupDiff_eq_decision : EqDecision (StagedPublicGroupDiff).
Proof. solve_decision. Defined.

#[export] Instance StagedPublicGroupDiff_number : Countable (StagedPublicGroupDiff).
Proof. exact (inj_countable' (fun x : StagedPublicGroupDiff => match x with | mkStagedPublicGroupDiff x0 x1 x2 x3 => (x0, x1, x2, x3) end) (fun x => match x with | (x0, x1, x2, x3) => mkStagedPublicGroupDiff x0 x1 x2 x3 end) ltac:(by intros [])). Defined.

#[export] Instance PublicStagedCommitState_eq_decision : EqDecision (PublicStagedCommitState).
Proof. solve_decision. Defined.

#[export] Instance PublicStagedCommitState_number : Countable (PublicStagedCommitState).
Proof. exact (inj_countable' (fun x : PublicStagedCommitState => match x with | mkPublicStagedCommitState x0 x1 => (x0, x1) end) (fun x => match x with | (x0, x1) => mkPublicStagedCommitState x0 x1 end) ltac:(by intros [])). Defined.

#[export] Instance StagedCommitState_eq_decision {M : Type} `{EqDecision M} : EqDecision (StagedCommitState M).
Proof. solve_decision. Defined.

#[export] Instance StagedCommitState_number {M : Type} `{Countable M} : Countable (StagedCommitState M).
Proof. exact (inj_countable' (fun x : StagedCommitState M => match x with | PublicState x0 => (inl x0) | GroupMember x0 => (inr x0) end) (fun x => match x with | (inl x0) => PublicState x0 | (inr x0) => GroupMember x0 end) ltac:(by intros [])). Defined.

#[export] Instance StagedCommit_eq_decision {M : Type} `{EqDecision M} : EqDecision (StagedCommit M).
Proof. solve_decision. Defined.

#[export] Instance StagedCommit_number {M : Type} `{Countable M} : Countable (StagedCommit M).
Proof. exact (inj_countable' (fun x : StagedCommit M => match x with | mkStagedCommit x0 x1 => (x0, x1) end) (fun x => match x with | (x0, x1) => mkStagedCommit x0 x1 end) ltac:(by intros [])). Defined.

#[export] Instance MemberStagedCommitState_eq_decision : EqDecision (MemberStagedCommitState).
Proof. solve_decision. Defined.

#[export] Instance MemberStagedCommitState_number : Countable (MemberStagedCommitState).
Proof. exact (inj_countable' (fun x : MemberStagedCommitState => match x with | mkMemberStagedCommitState x0 x1 x2 x3 x4 x5 => (x0, x1, x2, x3, x4, x5) end) (fun x => match x with | (x0, x1, x2, x3, x4, x5) => mkMemberStagedCommitState x0 x1 x2 x3 x4 x5 end) ltac:(by intros [])). Defined.

#[export] Instance PendingCommitState_eq_decision : EqDecision (PendingCommitState).
Proof. solve_decision. Defined.

#[export] Instance PendingCommitState_number : Countable (PendingCommitState).
Proof. exact (inj_countable' (fun x : PendingCommitState => match x with | PendingMember x0 => (inl x0) | PendingExternal x0 => (inr x0) end) (fun x => match x with | (inl x0) => PendingMember x0 | (inr x0) => PendingExternal x0 end) ltac:(by intros [])). Defined.

#[export] Instance MlsGroupState_eq_decision : EqDecision (MlsGroupState).
Proof. solve_decision. Defined.

#[export] Instance MlsGroupState_number : Countable (MlsGroupState).
Proof. exact (inj_countable' (fun x : MlsGroupState => match x with | PendingCommit x0 => (inl x0) | Operational => (inr (inl ())) | Inactive => (inr (inr ())) end) (fun x => match x with | (inl x0) => PendingCommit x0 | (inr (inl ())) => Operational | (inr (inr ())) => Inactive end) ltac:(by intros [])). Defined.

#[export] Instance StoredKeyPair_eq_decision : EqDecision (StoredKeyPair).
Proof. solve_decision. Defined.

#[export] Instance StoredKeyPair_number : Countable (StoredKeyPair).
Proof. exact (inj_countable' (fun x : StoredKeyPair => match x with | mkStoredKeyPair x0 => x0 end) (fun x => match x with | x0 => mkStoredKeyPair x0 end) ltac:(by intros [])). Defined.

#[export] Instance InterimTranscriptHash_eq_decision : EqDecision (InterimTranscriptHash).
Proof. solve_decision. Defined.

#[export] Instance InterimTranscriptHash_number : Countable (InterimTranscriptHash).
Proof. exact (inj_countable' (fun x : InterimTranscriptHash => match x with | mkInterimTranscriptHash x0 => x0 end) (fun x => match x with | x0 => mkInterimTranscriptHash x0 end) ltac:(by intros [])). Defined.

#[export] Instance ConfirmationTag_eq_decision : EqDecision (ConfirmationTag).
Proof. solve_decision. Defined.

#[export] Instance ConfirmationTag_number : Countable (ConfirmationTag).
Proof. exact (inj_countable' (fun x : ConfirmationTag => match x with | mkConfirmationTag x0 => x0 end) (fun x => match x with | x0 => mkConfirmationTag x0 end) ltac:(by intros [])). Defined.
