(* ===== verification/Agreement.v ===== *)
(** * Agreement: one commit, one epoch

    The committer, every member that processes the commit and every observer of
    the public group reach the same public state and, the observers aside, the same secrets:
    the lemmas that follow the keys of a tree through proposals and paths, and the
    theorem over [Members.build_internal] and [Members.member_stage_commit]. *)

From Stdlib Require Import String.
From S2P Require Import Prelude TreeMath Crypto BinaryTree SenderRatchet SecretTree LeafNodes Nodes TreeSyncDiff TreeHash UpdatePaths TreeKem TreeSync EpochStores Proposals PublicGroup Validation Storage Commits KeySchedule Members.

(** ** The keys of a tree *)

Definition tree_key (s : TreeSyncDiff) (key : bytes) : Prop :=
  (exists j leaf, 0 <= j /\ leaf_at s j = Some leaf /\ key = leaf_encryption_key (payload leaf)) \/
  (exists p node, 0 <= p /\ AbDiff_parent (diff s) p = Some node /\ key = parent_encryption_key node).

(** What a member knows before the proposals is enough after them. *)
Lemma encryption_keys_kept s s' h h' j : tree_sync_ok s h -> tree_sync_ok s' h' -> parents_kept s s' -> 0 <= j ->
  is_Some (leaf_at s j) -> leaf_at s' j = leaf_at s j -> forall key, key ∈ encryption_keys s' j -> key ∈ encryption_keys s j.
Proof.
  intros Hok Hok' Hk Hj Hs El key. rewrite !encryption_keys_elem_of, El. intros [Hl|(p & node' & Hp & E & Hn & ->)]; [by left|right].
  assert (Hin : leaf_in h j) by (apply (members_leaf_in s); [apply Hok|]; split; [done|by apply (members_leaf_lt s h); [apply Hok|..]]).
  assert (Hin' : leaf_in h' j).
  { apply (members_leaf_in s'); [apply Hok'|]. split; [done|]. apply (members_leaf_lt s' h'); [apply Hok'|done|by rewrite El]. }
  assert (Hd : p ∈ direct_path j (tree_size h')).
  { unfold filtered_direct_path in Hp. apply keep_resolved_elem_of in Hp as (n & r & Hp & _ & _). apply list_elem_of_lookup_2 in Hp.
    by rewrite (members_direct_path s' h') in Hp by apply Hok'. }
  pose proof (direct_path_range h' j p Hin' Hd) as Hr.
  destruct (Hk p node' (proj1 Hr) E) as (node & En & Ek & Hu). exists p, node. split_and!; [|done|auto|done].
  destruct (parent_in_tree s h p node (proj1 Hok) (proj1 Hr) En) as (k & m & Hkm & Hk0 & ->).
  destruct (in_tree_exists h' (pnode k m)) as (k' & m' & Hkm' & Hk0' & Epn); [apply Hin'|done|].
  apply pnode_inj in Epn as [<- <-]; [|exact (in_tree_coord _ _ _ (proj1 Hin) Hkm)|exact (in_tree_coord _ _ _ (proj1 Hin') Hkm')|done|done].
  apply (elem_of_direct_path h' j k m Hin' Hkm' Hk0) in Hd as <-. eapply (parent_on_filtered_path s h); [done|done| |exact En].
  destruct Hkm. lia.
Qed.

Lemma resolution_ref_key s h k m ex x : tree_sync_ok s h -> in_tree h (Z.of_nat k) m -> x ∈ resolution_ref s k m ex -> tree_key s (reference_key x.2).
Proof.
  intros Hok. pose proof (dwf_height _ _ (mo_diff _ _ (proj1 Hok))) as Hh.
  assert (Hl : forall leaves, Forall (fun j => 0 <= j) leaves -> x ∈ listed_leaves s ex leaves -> tree_key s (reference_key x.2)).
  { intros leaves Hf (i & l & Hi & _ & E & ->)%listed_leaves_elem_of. left. exists i, l. split_and!; [|done|done]. by eapply Forall_forall in Hf. }
  revert m. induction k as [|k IH]; intros m Hin; cbn [resolution_ref]; [apply Hl; constructor; [apply Hin|constructor]|].
  destruct (parent_at s (Z.of_nat (S k)) m) as [p|] eqn:E.
  - intros [->|Hx]%elem_of_cons; [right; exists (pnode (Z.of_nat (S k)) m), p; split_and!; [|exact E|done]; by apply (pnode_in_tree h); [|lia]|].
    eapply Hl, Hx. apply Forall_forall. intros j Hj. by apply (po_below _ _ _ _ (proj2 Hok _ _ _ Hin ltac:(lia) E)).
  - pose proof (in_tree_child h (Z.of_nat (S k)) m 0 ltac:(lia) Hin ltac:(lia)) as H0. pose proof (in_tree_child h (Z.of_nat (S k)) m 1 ltac:(lia) Hin ltac:(lia)) as H1.
    rewrite Nat2Z.inj_succ, <- Z.add_1_r, Z.add_simpl_r in H0, H1. rewrite Z.add_0_r in H0.
    intros [Hx|Hx]%elem_of_app; (eapply IH; [|exact Hx]); done.
Qed.

(** A path is encrypted to keys of the tree only. *)
Lemma copath_key s h i ex ks pk : tree_sync_ok s h -> leaf_in h i -> ks ∈ copath_keys s i ex -> pk ∈ ks -> tree_key s pk.
Proof.
  intros Hok Hi (r & -> & Hr)%list_elem_of_fmap (x & -> & Hx)%list_elem_of_fmap.
  rewrite (filtered_copath_resolutions_levels s h Hok i ex Hi) in Hr. apply list_elem_of_fmap in Hr as (k & -> & Hk).
  apply list_elem_of_In, filter_In in Hk as [Hk%list_elem_of_In%elem_of_seqZ _].
  eapply (resolution_ref_key s h); [done| |exact Hx]. rewrite Z2Nat.id by lia. apply in_tree_flip; [|lia]. apply in_tree_path; [done|lia].
Qed.

Section Generated.
Context `{!OpenMlsCrypto} `{!KdfLaws} `{!OpenMlsHpke} `{!HpkeLaws} (c : Ciphersuite).

(** Every key of a tree is the public key of a generated pair. *)
Definition tree_generated (s : TreeSyncDiff) : Prop := forall key, tree_key s key -> exists kp, generated c kp /\ kp.1 = key.

Lemma kept_generated s s' : tree_generated s -> parents_kept s s' ->
  (forall j leaf, 0 <= j -> leaf_at s' j = Some leaf -> leaf_at s j = Some leaf \/ exists kp, generated c kp /\ kp.1 = leaf_encryption_key (payload leaf)) ->
  tree_generated s'.
Proof.
  intros Hg Hk Hl key [(j & leaf & Hj & E & ->)|(p & node & Hp & E & ->)].
  - destruct (Hl j leaf Hj E) as [E'|]; [|done]. apply Hg. left. by exists j, leaf.
  - destruct (Hk p node Hp E) as (node' & E' & -> & _). apply Hg. right. by exists p, node'.
Qed.

Lemma node_pair_generated secret : generated c (node_pair c secret).
Proof.
  unfold node_pair, derive_key_pair. run. rewrite kdf_hash_ok. destruct (hpke_derive_ok (hpke_config c) (kdf c secret "node" [] (hash_length c))) as [kp E].
  cbn. rewrite E. by eexists.
Qed.

(** Neither the new leaf nor the new parents of a path break it. *)
Lemma path_generated `{!TreeHashing} s s' h i leaf secret path path' hash : path_applied c s s' h i leaf path path' hash -> 0 <= i ->
  path = map (fun r => r.1.1) (derived c 0 secret (filtered_direct_path s i)) -> tree_generated s ->
  (exists kp, generated c kp /\ kp.1 = leaf_encryption_key (payload leaf)) -> tree_generated s'.
Proof.
  intros Hpa Hi Ep Hg Hleaf key [(j & lf & Hj & E & ->)|(p & node & Hp & E & ->)].
  - rewrite (pa_leaves _ _ _ _ _ _ _ _ _ Hpa) in E by done. destruct (decide (j = i)); [by injection E as <-|]. apply Hg. left. by exists j, lf.
  - destruct (parent_in_tree s' h p node (proj1 (pa_ok _ _ _ _ _ _ _ _ _ Hpa)) Hp E) as (k & m & Hin & Hk & ->).
    destruct (decide (i / 2 ^ k = m)) as [<-|Hne].
    + pose proof (pa_on _ _ _ _ _ _ _ _ _ Hpa k ltac:(destruct Hin; lia)) as Eon. unfold parent_at in Eon. rewrite E in Eon. symmetry in Eon.
      apply elem_of_list_to_map_2 in Eon. rewrite elem_of_reverse in Eon. apply list_elem_of_lookup in Eon as [n En].
      destruct (Forall2_lookup_r _ _ _ _ _ (pa_same _ _ _ _ _ _ _ _ _ Hpa) En) as ([p0 node0] & E0 & _ & Ek & _). cbn in Ek.
      rewrite Ep, list_lookup_fmap in E0. destruct (derived c 0 secret (filtered_direct_path s i) !! n) as [r|] eqn:Er; [|done]. injection E0 as E0.
      unfold derived in Er. rewrite list_lookup_imap in Er. destruct (filtered_direct_path s i !! n) as [x|]; [|done]. injection Er as <-.
      injection E0 as _ <-. rewrite <- Ek. eexists. split; [apply node_pair_generated|done].
    + apply Hg. right. exists (pnode k m), node. split_and!; [done| |done]. pose proof (pa_off _ _ _ _ _ _ _ _ _ Hpa k m Hin Hk Hne) as Eoff.
      unfold parent_at in Eoff. congruence.
Qed.

End Generated.

(** The merged tree has the keys of the staged one. *)
Lemma merged_reads s ts h : tree_sync_ok (TreeSync_empty_diff ts) h -> reads_like s ts h ->
  parents_kept s (TreeSync_empty_diff ts) /\ forall j, 0 <= j -> leaf_at (TreeSync_empty_diff ts) j = leaf_at s j.
Proof.
  intros Hok [Hl Hp]. split; [|done]. intros p node Hp0 E. destruct (parent_in_tree _ h p node (proj1 Hok) Hp0 E) as (k & m & Hin & Hk & ->).
  specialize (Hp k m Hin Hk). unfold parent_at in Hp. exists node. split_and!; [congruence|done..].
Qed.

(** ** Delivery of a path *)

Section Delivery.
Context `{!TreeHashing} `{!HashLaws} `{!OpenMlsCrypto} `{!KdfLaws} `{!OpenMlsHpke} `{!HpkeLaws}.

Lemma derived_path c secret indices : map (fun r => r.1.1) (derived c 0 secret indices) =
  zip indices (map ParentNode_from (map (fun r => plain_public_key r.2) (derived c 0 secret indices))).
Proof.
  unfold derived. apply list_eq. intros n. rewrite lookup_zip_with, !list_lookup_fmap, list_lookup_imap. by destruct (indices !! n).
Qed.

(** The tree that a committer's own path leaves *)
Lemma own_path_applied c s0 h i secret up path plain pairs cs keypair sign s' leaf :
  ready c s0 h -> 0 <= i -> is_Some (leaf_at s0 i) -> filtered_direct_path s0 i <> [] ->
  derive_path c secret (filtered_direct_path s0 i) = Ok (path, plain, pairs, cs) ->
  apply_own_update_path (Ok keypair) sign c i up path s0 = (Ok [keypair], s') -> leaf_at s' i = Some leaf ->
  path = map (fun r => r.1.1) (derived c 0 secret (filtered_direct_path s0 i)) /\ keypair.1 = leaf_encryption_key (payload leaf) /\
  exists path' hash, path_applied c s0 s' h i leaf path path' hash.
Proof.
  intros Hr Hi Hsi Hnil Hd Ha Hleaf. rewrite derive_path_value in Hd.
  injection Hd as Epath _ _ _. set (keys := map (fun r => plain_public_key r.2) (derived c 0 secret (filtered_direct_path s0 i))).
  assert (Hlen : length (filtered_direct_path s0 i) = length keys) by (unfold keys; by rewrite length_map, length_derived).
  assert (Ezip : path = zip (filtered_direct_path s0 i) (map ParentNode_from keys)) by (rewrite <- Epath; apply derived_path).
  assert (Hkeys : keys <> []) by (destruct keys; [by destruct (filtered_direct_path s0 i)|done]).
  apply own_update_path_signed in Ha. rewrite Ezip in Ha.
  destruct (own_update_path_spec keypair (fun tbs => match sign tbs with Ok x => x | _ => [] end) c s0 h i up keys Hr Hi Hsi (or_introl Hkeys) Hlen) as (leaf' & path' & hash & s'' & E & [_ Hkey] & Hpa).
  rewrite E in Ha. injection Ha as ->.
  assert (El : leaf' = leaf) by (rewrite (pa_leaves _ _ _ _ _ _ _ _ _ Hpa i Hi), decide_True in Hleaf by done; congruence). subst leaf'.
  split; [done|]. split; [done|]. exists path', hash. by rewrite Ezip.
Qed.

(** A path computed by a member reaches every other member. *)
Lemma path_delivered c s0 h i secret up path plain pairs cs keypair sign s' ex ctx nodes leaf :
  ready c s0 h -> 0 <= i -> is_Some (leaf_at s0 i) -> (exists j, 0 <= j /\ i <> j /\ is_Some (leaf_at s0 j)) ->
  derive_path c secret (filtered_direct_path s0 i) = Ok (path, plain, pairs, cs) ->
  apply_own_update_path (Ok keypair) sign c i up path s0 = (Ok [keypair], s') -> tree_generated c s0 -> generated c keypair ->
  encrypt_path c plain ctx (copath_keys s' i ex) = Ok nodes -> leaf_at s' i = Some leaf ->
  tree_sync_ok s' h /\ hashed c s' h /\ original_tree (diff s') = original_tree (diff s0) /\ tree_generated c s' /\
  (forall j, 0 <= j -> j <> i -> leaf_at s' j = leaf_at s0 j) /\
  apply_received_update_path c i (public_part {| cp_leaf_node := leaf; cp_nodes := nodes |}) s0 = (Ok tt, s') /\
  forall j owned, 0 <= j -> j <> i -> is_Some (leaf_at s0 j) -> j ∉ ex -> Forall (generated c) owned ->
    (forall key, key ∈ encryption_keys s0 j -> key ∈ owned.*1) ->
    exists new_keypairs, PublicGroupDiff_decrypt_path s' c ctx owned j i nodes ex = Ok (new_keypairs, cs) /\
      (forall key, key ∈ encryption_keys s' j -> key ∈ (owned ++ new_keypairs).*1).
Proof.
  intros Hr Hi Hsi (j & Hj & Hne & Hsj) Hd Ha Hg0 Hkp Henc Hleaf. pose proof Hr as [Hok _].
  pose proof (filtered_path_nonempty s0 h i j Hok Hi Hj Hne Hsi Hsj) as Hnil.
  destruct (own_path_applied c s0 h i secret up path plain pairs cs keypair sign s' leaf Hr Hi Hsi Hnil Hd Ha Hleaf) as (Epath & Hkey & path' & hash & Hpa).
  symmetry in Epath. pose proof Hd as Hd'. rewrite derive_path_value in Hd'. injection Hd' as _ Eplain Epairs Ecs.
  set (keys := map (fun r => plain_public_key r.2) (derived c 0 secret (filtered_direct_path s0 i))).
  assert (Hlen : length (filtered_direct_path s0 i) = length keys) by (unfold keys; by rewrite length_map, length_derived).
  assert (Ezip : path = zip (filtered_direct_path s0 i) (map ParentNode_from keys)) by (rewrite <- Epath; apply derived_path).
  assert (Hi' : leaf_in h i).
  { split; [apply (dwf_height _ _ (mo_diff _ _ (proj1 Hok)))|]. pose proof (members_leaf_lt s0 h i (proj1 Hok) Hi Hsi). lia. }
  assert (Hg : tree_generated c s') by (eapply path_generated; [exact Hpa|done|by rewrite <- Epath|done|by exists keypair]).
  assert (Hgen : forall ks pk, ks ∈ copath_keys s' i ex -> pk ∈ ks -> exists kp, generated c kp /\ kp.1 = pk)
    by (intros ks pk Hks Hpk; apply Hg; by eapply (copath_key s' h); [apply Hpa|..]).
  destruct (treekem_commit_spec c secret s0 s' h i leaf path plain pairs cs path' hash ex ctx Hok Hi Hsi Hd Hpa Hgen)
    as (nodes' & Enc & Hdec). rewrite Henc in Enc. injection Enc as <-. split_and!; [apply Hpa..|done|intros j' Hj' Hne'; rewrite (pa_leaves _ _ _ _ _ _ _ _ _ Hpa) by done; by rewrite decide_False| |].
  - rewrite Ezip in Ha. unfold public_part. cbn [cp_leaf_node cp_nodes].
    replace (map node_public_key nodes) with keys; [eapply received_path_agrees; [done| |done|exact Ha|done]; unfold tsd_leaf_count; rewrite (AbDiff_leaf_count_spec _ h) by apply Hok; apply Hi'|].
    destruct (encrypt_path_spec c plain ctx (copath_keys s' i ex) Hgen) as (nodes'' & Enc & Hn).
    rewrite Henc in Enc. injection Enc as <-. rewrite <- Eplain in Hn.
    assert (Elk : length (copath_keys s' i ex) = length (filtered_direct_path s0 i)).
    { rewrite (length_copath_keys s' h) by (apply Hpa || done). by rewrite (applied_filtered_path c s0 s' h i leaf path path' hash Hok Hpa Hsi i Hi'). }
    pose proof (encrypted_public_keys c ctx secret _ _ nodes Elk Hn) as Hpk. cbv zeta in Hpk. unfold keys. clear -Hpk.
    assert (Hk := derived_key c secret (filtered_direct_path s0 i)). revert Hpk Hk. generalize (derived c 0 secret (filtered_direct_path s0 i)).
    intros rs Hpk Hk. induction Hpk as [|node r nodes rs E _ IH]; [done|]. cbn [map]. f_equal; [|apply IH; intros x Hx; apply Hk; by right].
    rewrite E. by apply Hk; left.
  - intros j' owned Hj' Hne' Hsj' Hex Hgo Hown. destruct (Hdec j' owned Hj' Hne' Hsj' Hex Hgo Hown) as (new & Ed & _ & Hcov). by exists new.
Qed.


End Delivery.

(** ** The same secrets *)

Section Secrets.
Context `{!TreeHashing} `{!TranscriptEncoding} `{!ProposalHashing} `{!OpenMlsCrypto} `{!KdfLaws} `{!ExtractLaws} `{!OpenMlsHpke} `{!HpkeExport}.
Context `{!PskEncoding} `{!ContextEncoding} `{!Serde Psk} `{!Serde PskBundle}.

Lemma welcome_fresh (c : Ciphersuite) joiner p : welcome (schedule_in c joiner p Fresh) c = Ok (derive c (extract c joiner p) "welcome").
Proof. unfold welcome, WelcomeSecret_new. cbn. by rewrite derive_ok. Qed.

Lemma add_context_fresh (c : Ciphersuite) joiner p context :
  add_context context (schedule_in c joiner p Fresh) = (Ok tt, schedule_in c joiner p (WithContext context)).
Proof. unfold add_context, EpochSecret_new. run. cbn. by rewrite expand_hash_ok. Qed.

Lemma epoch_secrets_of (c : Ciphersuite) joiner p context :
  epoch_secrets c (schedule_in c joiner p (WithContext context)) = (Ok (epoch_of c (epoch_secret_of c joiner p context)), schedule_in c joiner p Used).
Proof. unfold epoch_secrets. run. cbn. by rewrite EpochSecrets_new_ok. Qed.

Lemma committer_secrets_ok (c : Ciphersuite) psks commit_secret init context joiner welcome secrets :
  committer_secrets c psks commit_secret init context = Ok (joiner, welcome, secrets) ->
  exists psk_secret, PskSecret_new c psks = Ok psk_secret /\ joiner = joiner_of c (default (Secret_zero c) commit_secret) init context /\
    welcome = derive c (extract c joiner psk_secret) "welcome" /\ secrets = epoch_of c (epoch_secret_of c joiner psk_secret context).
Proof.
  unfold committer_secrets. rewrite JoinerSecret_new_ok. cbn [map_err mbind outcome_bind]. destruct (PskSecret_new c psks) as [p|e|]; [|discriminate..].
  cbn [map_err mbind outcome_bind]. rewrite KeySchedule_init_ok. cbn [map_err mbind outcome_bind]. rewrite welcome_fresh. cbn [map_err mbind outcome_bind].
  rewrite add_context_fresh. cbn [map_err mbind outcome_bind]. rewrite epoch_secrets_of. intros [= <- <- <-]. by exists p.
Qed.

(** A member derives the same from the proposals, if it finds the same PSKs. *)
Lemma derive_epoch_secrets_ok g st v ge commit_secret context psks psk_secret : external_init_proposal_option v = None ->
  (load_psks (resumption_psk_store g) (presharedkeys v) st).1 = Ok psks -> PskSecret_new (MlsGroup_ciphersuite g) psks = Ok psk_secret ->
  derive_epoch_secrets g st v ge commit_secret context =
    let c := MlsGroup_ciphersuite g in
    Ok (epoch_of c (epoch_secret_of c (joiner_of c commit_secret (ge_init_secret ge) context) psk_secret context)).
Proof.
  intros Eext Eload Epsk. unfold derive_epoch_secrets. rewrite Eext, JoinerSecret_new_ok. cbn [map_err mbind outcome_bind]. rewrite Eload.
  cbn [map_err mbind outcome_bind]. rewrite Epsk. cbn [map_err mbind outcome_bind]. rewrite KeySchedule_init_ok. cbn [map_err mbind outcome_bind].
  rewrite add_context_fresh. cbn [map_err mbind outcome_bind]. by rewrite epoch_secrets_of.
Qed.

Lemma interim_keeps_diff c tag d d' : update_interim_transcript_hash c tag d = (Ok tt, d') -> pgd_diff d' = pgd_diff d.
Proof.
  unfold update_interim_transcript_hash. run. destruct (calculate_interim_transcript_hash _ _ _) as [hash|e|]; [|discriminate..]. by intros [= <-].
Qed.

(** From the transcript on, committer and receivers do the same. *)
Lemma finish_agrees g st content tag q v commit_secret kps lkp leaf d2 d3 d4 context secrets staged :
  let c := MlsGroup_ciphersuite g in
  PublicGroupDiff_update_confirmed_transcript_hash content d2 = (Ok tt, d3) -> tls_group_context (pgd_context d3) = Some context ->
  derive_epoch_secrets g st v (group_epoch_secrets g) commit_secret context = Ok secrets ->
  ConfirmationKey_tag c (confirmation_key secrets) (gc_confirmed_transcript_hash (pgd_context d3)) = Ok tag ->
  update_interim_transcript_hash c tag d3 = (Ok tt, d4) -> PublicGroupDiff_into_staged_diff d4 = Ok staged ->
  finish_commit g st (set_confirmation_tag tag content) q v commit_secret kps lkp leaf d2 =
    let '(ges, ms) := split_secrets secrets context (tsd_tree_size (pgd_diff d4)) (own_leaf_index g) in
    (Ok {| staged_proposal_queue := q; staged_state := GroupMember {|
       msc_group_epoch_secrets := ges; msc_message_secrets := ms; msc_staged_diff := staged; msc_new_keypairs := kps;
       msc_new_leaf_keypair_option := lkp; msc_update_path_leaf_node := leaf |} |}, d4).
Proof.
  intros c E3 Ectx Esec Etag E4 Est. unfold finish_commit.
  assert (E3' : PublicGroupDiff_update_confirmed_transcript_hash (set_confirmation_tag tag content) d2 = (Ok tt, d3)) by exact E3.
  unfold lift_state. run. rewrite E3'. rewrite Ectx. run. rewrite Esec. run. cbn [split_secrets ms_confirmation_key].
  fold c. rewrite Etag. cbn [set_confirmation_tag ac_auth auth_confirmation_tag]. rewrite Mac_eq_refl. cbn [negb]. run. rewrite E4. rewrite Est. by rewrite (interim_keeps_diff _ _ _ _ E4).
Qed.

End Secrets.

(** ** One commit *)

Section Agreement.
Context `{!TreeHashing} `{!HashLaws} `{!TranscriptEncoding} `{!ProposalHashing} `{!OpenMlsCrypto} `{!KdfLaws} `{!ExtractLaws}.
Context `{!OpenMlsHpke} `{!HpkeLaws} `{!HpkeExport} `{!PskEncoding} `{!ContextEncoding} `{!Serde Psk} `{!Serde PskBundle}.

(** What a committer does about a path. *)
Definition committer_path (pr : CommitProvider) (own : LeafNodeIndex) (v : ApplyProposalsValues) (params : LeafNodeParameters)
    (with_path : bool) : method PublicGroupDiff CreateCommitError PathComputationResult :=
  if with_path then compute_path pr own (exclusion_list v) CommitMember params (new_extensions v)
  else lift_state CreateLibraryError (update_group_context (new_extensions v));; mret PathComputationResult_default.

(** What an observer does about a path. *)
Definition observer_path (c : Ciphersuite) (v : ApplyProposalsValues) (sender_index : LeafNodeIndex) (path : option CommitPath) :
    method PublicGroupDiff StageCommitError () :=
  match path with
  | Some path => lift_state StageUpdatePathError (on_tree (apply_received_update_path c sender_index (public_part path)))
  | None => if path_required v then fail RequiredPathNotFound else mret tt
  end.

(** Processing a path that can be applied and decrypted *)
Lemma path_processed g v ex d1 d2 s' i leaf nodes ctx old leaves kps cs : let c := gc_ciphersuite (pgd_context d1) in
  let path := {| cp_leaf_node := leaf; cp_nodes := nodes |} in
  MlsGroup_ciphersuite g = c -> self_removed v = false -> exclusion_list v = ex ->
  apply_received_update_path c i (public_part path) (pgd_diff d1) = (Ok tt, s') -> update_group_context (new_extensions v) (set_pgd_diff s' d1) = (Ok tt, d2) ->
  tls_group_context (pgd_context d2) = Some ctx -> PublicGroupDiff_decrypt_path s' c ctx (old ++ leaves) (own_leaf_index g) i nodes ex = Ok (kps, cs) ->
  exists lkp, process_path g v i (Some path) old leaves d1 = (Ok (Processed cs kps lkp (Some leaf)), d2).
Proof.
  intros c path Ec Esr Eex Erec Eg Ectx Edec. eexists. cbn [process_path]. unfold lift_state, on_tree. run. rewrite Ec, Erec, Eg. rewrite Esr. run.
  apply update_group_context_ok in Eg as (hash & _ & Es & E2).
  unfold diff_decrypt_path. rewrite Ectx. cbn [ok_or mbind outcome_bind]. rewrite Es, Eex.
  assert (Ec2 : gc_ciphersuite (pgd_context d2) = c) by (rewrite E2; by destruct (new_extensions v)).
  rewrite Ec2. cbn [cp_nodes path pgd_diff set_pgd_diff]. rewrite Edec. reflexivity.
Qed.

(** What processing the path of a commit leaves: the same diff for a receiver and
    for an observer, and a receiver that holds the commit secret and all its keys. *)
Lemma path_shared pr i v params with_path d1 path d2 h :
  let c := gc_ciphersuite (pgd_context d1) in
  committer_path pr i v params with_path d1 = (Ok path, d2) -> (with_path = false -> path_required v = false /\ hashed c (pgd_diff d1) h) ->
  ready c (pgd_diff d1) h -> tree_generated c (pgd_diff d1) -> (forall kp, draw_leaf_keypair pr = Ok kp -> generated c kp) ->
  0 <= i -> (exists j, 0 <= j /\ i <> j /\ is_Some (leaf_at (pgd_diff d1) j)) ->
  tree_sync_ok (pgd_diff d2) h /\ hashed c (pgd_diff d2) h /\ original_tree (diff (pgd_diff d2)) = original_tree (diff (pgd_diff d1)) /\
  tree_generated c (pgd_diff d2) /\
  (forall v', path_required v' = path_required v -> exists d1', observer_path c v' i (pcr_encrypted_path path) d1 = (Ok tt, d1') /\
     update_group_context (new_extensions v) d1' = (Ok tt, d2)) /\
  forall g v' old leaves, MlsGroup_ciphersuite g = c -> self_removed v' = false -> path_required v' = path_required v ->
    new_extensions v' = new_extensions v -> exclusion_list v' = exclusion_list v ->
    let j := own_leaf_index g in
    0 <= j -> j <> i -> is_Some (leaf_at (pgd_diff d1) j) -> j ∉ exclusion_list v -> Forall (generated c) (old ++ leaves) ->
    (forall key, key ∈ encryption_keys (pgd_diff d1) j -> key ∈ (old ++ leaves).*1) ->
    exists kps lkp, process_path g v' i (pcr_encrypted_path path) old leaves d1 =
        (Ok (Processed (default (CommitSecret_zero_secret c) (pcr_commit_secret path)) kps lkp (cp_leaf_node <$> pcr_encrypted_path path)), d2) /\
      is_Some (leaf_at (pgd_diff d2) j) /\ forall key, key ∈ encryption_keys (pgd_diff d2) j -> key ∈ ((old ++ leaves) ++ kps).*1.
Proof.
  intros c Hp Hnp Hr Hg Hkp Hi Hj. destruct with_path; cbn [committer_path] in Hp.
  - apply compute_path_ok in Hp as (secret & up & p & plain & pairs & cs & keypair & s' & ctx & nodes & leaf & Hsi & Ed & Ek & Ea & Eg & Es & Ectx & Enc & El & ->).
    fold c in Ed, Ea, Enc. destruct (path_delivered c (pgd_diff d1) h i secret up p plain pairs cs keypair (sign_leaf pr) s' (exclusion_list v) ctx nodes leaf
      Hr Hi Hsi Hj Ed Ea Hg (Hkp _ Ek) Enc El) as (Hok & Hh & Eo & Hg' & Hl & Erec & Hdec). rewrite Es. split_and!; try done; cbn [pcr_encrypted_path pcr_commit_secret].
    + intros v' _. exists (set_pgd_diff s' d1). split; [|done]. cbn [observer_path]. unfold lift_state, on_tree. run. by rewrite Erec.
    + intros g v' old leaves Ec Esr _ Eext Eex Hj0 Hne Hsj Hex Hgo Hown. destruct (Hdec (own_leaf_index g) (old ++ leaves) Hj0 Hne Hsj Hex Hgo Hown) as (kps & Edec & Hcov).
      rewrite <- Eext in Eg.
      destruct (path_processed g v' (exclusion_list v) d1 d2 s' i leaf nodes ctx old leaves kps cs Ec Esr Eex Erec Eg Ectx Edec) as (lkp & E).
      exists kps, lkp. split; [exact E|]. split; [by rewrite Hl|exact Hcov].
  - destruct (Hnp eq_refl) as [Epr Hh]. apply method_bind_ok in Hp as ([] & d' & Eg%lift_state_ok & Hp). injection Hp as <- <-.
    assert (Ed : pgd_diff d' = pgd_diff d1) by (by apply update_group_context_ok in Eg as (hash & _ & -> & _)). rewrite Ed.
    split_and!; try done; [apply Hr| |]; cbn [pcr_encrypted_path pcr_commit_secret PathComputationResult_default].
    + intros v' Epr'. exists d1. split; [|done]. cbn [observer_path]. by rewrite Epr', Epr.
    + intros g v' old leaves Ec _ Epr' Eext _ Hj0 _ Hsj _ _ Hown. exists [], None. rewrite app_nil_r. split; [|by split].
      cbn [process_path]. rewrite Epr', Epr. unfold lift_state. run. by rewrite Eext, Eg, Ec.
Qed.

(** What the local variables of the commit builder are *)
Lemma build_parts_ok pr g stage q own_updates d parts d4 : let c := MlsGroup_ciphersuite g in
  build_parts pr g stage q own_updates d = (Ok parts, d4) ->
  exists d1 with_path d2 content d3 psk_secret,
    apply_proposals q (Some (own_leaf_index g)) d = (Ok (parts_values parts), d1) /\ self_removed (parts_values parts) = false /\
    (with_path = false -> path_required (parts_values parts) = false) /\
    committer_path pr (own_leaf_index g) (parts_values parts) (leaf_node_parameters stage) with_path d1 = (Ok (parts_path parts), d2) /\
    content_body (ac_content content) = BodyCommit {| commit_proposals := commit_list q; commit_path := pcr_encrypted_path (parts_path parts) |} /\
    content_sender (ac_content content) = Sender_Member (own_leaf_index g) /\
    PublicGroupDiff_update_confirmed_transcript_hash content d2 = (Ok tt, d3) /\ tls_group_context (pgd_context d3) = Some (parts_context parts) /\
    PskSecret_new c (loaded_psks stage) = Ok psk_secret /\
    parts_joiner_secret parts = joiner_of c (default (Secret_zero c) (pcr_commit_secret (parts_path parts))) (ge_init_secret (group_epoch_secrets g)) (parts_context parts) /\
    parts_welcome_secret parts = derive c (extract c (parts_joiner_secret parts) psk_secret) "welcome" /\
    parts_secrets parts = epoch_of c (epoch_secret_of c (parts_joiner_secret parts) psk_secret (parts_context parts)) /\
    ConfirmationKey_tag c (confirmation_key (parts_secrets parts)) (gc_confirmed_transcript_hash (pgd_context d3)) = Ok (parts_tag parts) /\
    update_interim_transcript_hash c (parts_tag parts) d3 = (Ok tt, d4) /\ parts_commit parts = set_confirmation_tag (parts_tag parts) content.
Proof.
  intros c Hp. unfold build_parts in Hp. cbv zeta in Hp. step Hp as v d1 E1. step Hp as u1 dd E2.
  destruct (self_removed v) eqn:Esr; [discriminate|]. injection E2 as <- <-. step Hp as path d2 E3. step Hp as content dd E4.
  step Hp as u2 d3 E5. destruct u2. step Hp as self dd1 E6. step Hp as context dd2 E7. step Hp as sec dd3 E8. destruct sec as [[joiner ws] secrets].
  step Hp as tag dd4 E9. step Hp as u3 d5 E10. destruct u3. injection Hp as <- <-.
  destruct (committer_secrets_ok _ _ _ _ _ _ _ _ E8) as (p & Ep & Ej & Ew & Es). unfold sign_commit in E4. ok_inv E4. injection E4 as E4.
  eexists d1, (path_required v || own_updates || force_self_update stage || negb (LeafNodeParameters_is_empty (leaf_node_parameters stage))), d2, content, d3, p.
  cbn [parts_values parts_path parts_context parts_joiner_secret parts_welcome_secret parts_secrets parts_tag parts_commit].
  split; [exact E1|]. split; [exact Esr|]. split; [intros Hw; by do 3 apply orb_false_iff in Hw as [Hw _]|]. split; [exact E3|].
  split; [by rewrite <- E4|]. split; [by rewrite <- E4|]. split; [exact E5|]. split; [exact E7|]. split; [exact Ep|]. by split_and!.
Qed.

Lemma stage_parts_ok g q parts d b d' : stage_parts g q parts d = (Ok b, d') ->
  exists staged, PublicGroupDiff_into_staged_diff d = Ok staged /\
    b = let '(ges, ms) := split_secrets (parts_secrets parts) (parts_context parts) (tsd_tree_size (pgd_diff d)) (own_leaf_index g) in
      {| built_commit := parts_commit parts;
         built_staged_commit := {| staged_proposal_queue := q; staged_state := GroupMember {|
           msc_group_epoch_secrets := ges; msc_message_secrets := ms; msc_staged_diff := staged; msc_new_keypairs := pcr_new_keypairs (parts_path parts);
           msc_new_leaf_keypair_option := None; msc_update_path_leaf_node := cp_leaf_node <$> pcr_encrypted_path (parts_path parts) |} |};
         built_invitations := invitation_list (parts_values parts) |}.
Proof.
  unfold stage_parts. intros Hb. step Hb as self d1 E1. cbn [split_secrets] in Hb. step Hb as staged d2 E2. injection Hb as <- _. by exists staged.
Qed.

Lemma build_on_ok pr g stage q own_updates d b d' : let c := MlsGroup_ciphersuite g in
  build_on pr g stage q own_updates d = (Ok b, d') ->
  exists v d1 with_path path d2 content d3 context psk_secret tag d4 staged,
    apply_proposals q (Some (own_leaf_index g)) d = (Ok v, d1) /\ self_removed v = false /\ (with_path = false -> path_required v = false) /\
    committer_path pr (own_leaf_index g) v (leaf_node_parameters stage) with_path d1 = (Ok path, d2) /\
    content_body (ac_content content) = BodyCommit {| commit_proposals := commit_list q; commit_path := pcr_encrypted_path path |} /\
    content_sender (ac_content content) = Sender_Member (own_leaf_index g) /\
    PublicGroupDiff_update_confirmed_transcript_hash content d2 = (Ok tt, d3) /\ tls_group_context (pgd_context d3) = Some context /\
    PskSecret_new c (loaded_psks stage) = Ok psk_secret /\
    let secrets := epoch_of c (epoch_secret_of c (joiner_of c (default (Secret_zero c) (pcr_commit_secret path))
      (ge_init_secret (group_epoch_secrets g)) context) psk_secret context) in
    ConfirmationKey_tag c (confirmation_key secrets) (gc_confirmed_transcript_hash (pgd_context d3)) = Ok tag /\
    update_interim_transcript_hash c tag d3 = (Ok tt, d4) /\ PublicGroupDiff_into_staged_diff d4 = Ok staged /\
    built_commit b = set_confirmation_tag tag content /\ staged_proposal_queue (built_staged_commit b) = q /\
    staged_state (built_staged_commit b) =
      let '(ges, ms) := split_secrets secrets context (tsd_tree_size (pgd_diff d4)) (own_leaf_index g) in
      GroupMember {| msc_group_epoch_secrets := ges; msc_message_secrets := ms; msc_staged_diff := staged;
        msc_new_keypairs := pcr_new_keypairs path; msc_new_leaf_keypair_option := None;
        msc_update_path_leaf_node := cp_leaf_node <$> pcr_encrypted_path path |}.
Proof.
  intros c Hb. unfold build_on in Hb. step Hb as parts d4 Hp.
  destruct (build_parts_ok _ _ _ _ _ _ _ _ Hp) as (d1 & with_path & d2 & content & d3 & p & E1 & E2 & E3 & E4 & E5 & E6 & E7 & E8 & E9 & Ej & _ & Es & Et & Ei & Em).
  apply stage_parts_ok in Hb as (staged & Est & ->). rewrite Ej in Es. rewrite Es in Et |- *.
  exists (parts_values parts), d1, with_path, (parts_path parts), d2, content, d3, (parts_context parts), p, (parts_tag parts), d4, staged.
  do 9 (split; [assumption|]). cbv zeta. split; [exact Et|]. split; [exact Ei|]. split; [exact Est|]. by split_and!.
Qed.

Lemma retain_ok pool refs : forall q q', retain pool refs q = Ok q' -> queue_ok q -> queue_ok q'.
Proof.
  induction refs as [|r refs IH]; intros q q' E Hq; cbn [retain] in E; [by injection E as <-|]. ok_inv E. eapply IH; [exact E|]. by apply queue_add_ok.
Qed.

(** What passes the checks of the committer. *)
Lemma choose_proposals_ok map_order now g stage f q own_updates : choose_proposals map_order now g stage f = Ok (q, own_updates) ->
  queue_ok q /\ validate_add_proposals now (public_group g) q = Ok tt /\ validate_remove_proposals (public_group g) q = Ok tt.
Proof.
  unfold choose_proposals. intros Hx. cbv zeta in Hx. ok_inv Hx. destruct x0 as [q0 own]. ok_inv Hx.
  injection Hx as <- <-. unfold builder_validate in Hx2. ok_inv Hx2. split.
  - unfold filter_proposals_without_inline in Hx1. ok_inv Hx1. injection Hx1 as <- _. eapply retain_ok; [done|apply empty_queue_ok].
  - repeat match goal with u : () |- _ => destruct u end. by split.
Qed.

Lemma build_internal_ok map_order now pr g stage f b : build_internal map_order now pr g stage f = Ok b ->
  exists q own_updates d', build_on pr g stage q own_updates (PublicGroup_empty_diff (public_group g)) = (Ok b, d') /\ queue_ok q /\
    validate_remove_proposals (public_group g) q = Ok tt.
Proof.
  unfold build_internal. intros E. ok_inv E. destruct x as [q own_updates]. destruct (choose_proposals_ok _ _ _ _ _ _ _ Hx) as (Hq & _ & Hr).
  destruct (build_on pr g stage q own_updates _) as [o d'] eqn:Eb. cbn in E. subst o. by exists q, own_updates, d'.
Qed.

(** Two members in the same epoch. *)
Record same_epoch (g g' : MlsGroup) : Prop := {
  se_tree : treesync (public_group g) = treesync (public_group g');
  se_context : MlsGroup_context g = MlsGroup_context g';
  se_interim : interim_transcript_hash (public_group g) = interim_transcript_hash (public_group g');
  se_tag : confirmation_tag (public_group g) = confirmation_tag (public_group g');
  se_secrets : group_epoch_secrets g = group_epoch_secrets g'
}.

Lemma same_epoch_diff g g' : same_epoch g g' -> PublicGroup_empty_diff (public_group g') = PublicGroup_empty_diff (public_group g).
Proof. intros [Et Ec Ei Eg _]. unfold PublicGroup_empty_diff. unfold MlsGroup_context in Ec. by rewrite Et, Ec, Ei, Eg. Qed.

(** The queue that receivers make of the proposals of a commit of [i]. *)
Lemma received_queue now g m q q' commit i inline : queue_ok q -> content_sender (ac_content m) = Sender_Member i ->
  commit_proposals commit = commit_list q -> i ∉ removed_leaves q ->
  inline_queued (PublicGroup_ciphersuite g) (Sender_Member i) (map proposal (queued_proposals q)) = Ok inline -> NoDup (map proposal_reference inline) ->
  validate_commit now g m = Ok (commit, q', i) ->
  queue_ok q' /\ map proposal (queued_proposals q) = map proposal (queued_proposals q') /\ update_proposals q = [] /\ first_external_init q' = None.
Proof.
  intros Hq Hs Hc Hr Ei Hnd (_ & _ & Eq & _ & Evs)%validate_commit_ok. rewrite Hs, Hc in Eq. rewrite Hs in Evs.
  destruct (committed_queue _ q (proposal_store g) _ inline Ei Hnd) as (q1 & E1 & Hok & El).
  { apply Forall_forall. intros p Hp. unfold removes_itself. destruct (proposal p) as [| |r| | | | | |] eqn:Ep; try done.
    apply Z.eqb_neq. intros ->. apply Hr, elem_of_removed. by exists p. }
  rewrite E1 in Eq. injection Eq as ->. destruct (inline_queued_spec _ _ _ _ Ei) as [Em Hf]. rewrite <- El in Em, Hf. split_and!; [done|done| |].
  - destruct (update_proposals q) as [|[leaf s] l] eqn:Eu; [done|]. exfalso.
    assert (Hin : (leaf, s) ∈ update_proposals q) by (rewrite Eu; by left). apply elem_of_updates in Hin as (p & Hp & Ep & _).
    assert (Hm : Update leaf ∈ map proposal (queued_proposals q')) by (rewrite Em, <- Ep; by apply (list_elem_of_fmap_2 proposal)).
    apply list_elem_of_fmap in Hm as (p' & Ep' & Hp'). eapply committing_own_update; [exact Evs|]. apply elem_of_updates. exists p'. split_and!; [done|done|].
    rewrite Forall_forall in Hf. by apply Hf.
  - cbn [validate_sender] in Evs. ok_inv Evs. unfold validate_no_external_init_proposals in Hx0. destruct (existsb _ _) eqn:Ex; [discriminate|].
    unfold first_external_init. destruct (filtered_by_type q' PtExternalInit) as [|p l] eqn:Ef; [done|]. exfalso.
    assert (Hp : p ∈ filtered_by_type q' PtExternalInit) by (rewrite Ef; by left). apply elem_of_filtered in Hp as [Hp Et].
    pose proof (existsb_false_elem _ _ Ex p Hp) as Hn. cbn in Hn. rewrite Et in Hn. by apply bool_decide_eq_false in Hn.
Qed.

Lemma apply_proposals_value q own d v d' : apply_proposals q own d = (Ok v, d') ->
  self_removed v = existsb (fun i => bool_decide (own = Some i)) (removed_leaves q) /\ external_init_proposal_option v = first_external_init q.
Proof.
  unfold apply_proposals. intros Ha. step Ha as u d1 E1. step Ha as b d2 E2. step Ha as inv d3 E3. injection Ha as <- _.
  rewrite apply_removes_value in E2. injection E2 as <- _. split; [|done]. cbn [self_removed orb]. f_equal.
  unfold removes_of. by rewrite <- (omap_proposal (fun p => match p with Remove r => Some r | _ => None end)), removes_filtered.
Qed.

(** Whoever is invited needs a path. *)
Lemma invitation_needs_path q own d v d' : apply_proposals q own d = (Ok v, d') -> path_required v = false -> invitation_list v = [].
Proof.
  intros Ha Hp. destruct (no_tree_proposals q own d) as (v' & E & Ei & _).
  - unfold apply_proposals in Ha. step Ha as u d1 E1. step Ha as b d2 E2. step Ha as inv d3 E3. injection Ha as <- _. cbn in Hp. by do 2 apply orb_false_iff in Hp as [Hp _].
  - rewrite Ha in E. by injection E as -> _.
Qed.

(** The tree between the proposals and the path. *)
Lemma applied_tree g h q v d1 own : let c := PublicGroup_ciphersuite g in let s := TreeSync_empty_diff (treesync g) in
  group_ok g h -> tree_generated c s -> update_proposals q = [] -> validate_remove_proposals g q = Ok tt ->
  (forall r, r ∈ removed_leaves q -> 0 <= r) ->
  (forall kp, kp ∈ map fst (add_proposals q) -> exists pair, generated c pair /\ pair.1 = encryption_key (kp_leaf_node kp)) ->
  apply_proposals q own (PublicGroup_empty_diff g) = (Ok v, d1) ->
  self_removed v = existsb (fun i => bool_decide (own = Some i)) (removed_leaves q) /\ presharedkeys v = map fst (psk_proposals q) /\
  (exists s1, d1 = set_pgd_diff s1 (PublicGroup_empty_diff g)) /\ original_tree (diff (pgd_diff d1)) = ts_tree (treesync g) /\
  (exists h1, ready c (pgd_diff d1) h1 /\ (path_required v = false -> hashed c (pgd_diff d1) h1)) /\ tree_generated c (pgd_diff d1) /\
  map snd (invitation_list v) = map fst (add_proposals q) /\
  (forall j kp, (j, kp) ∈ invitation_list v -> 0 <= j /\ leaf_at (pgd_diff d1) j = Some (kp_leaf_node kp) /\ unmerged_above (pgd_diff d1) j /\
     (leaf_at s j = None \/ j ∈ removed_leaves q)) /\
  forall j, 0 <= j -> is_Some (leaf_at s j) -> j ∉ removed_leaves q -> leaf_at (pgd_diff d1) j = leaf_at s j /\ j ∉ exclusion_list v /\
    forall key, key ∈ encryption_keys (pgd_diff d1) j -> key ∈ encryption_keys s j.
Proof.
  intros c s Hg Hgen Hu Hrem Hr0 Hadds Ea. destruct Hg as [Htree Htag]. pose proof Htree as (Hwf & Hok & Hh & _).
  assert (Hap : applicable s q).
  { unfold validate_remove_proposals in Hrem. ok_inv Hrem. apply check_removes_ok in Hrem as [Hnd Hrem]. split; [|intros r Hr|done].
    - intros p leaf Hp Ep. exfalso. assert (Hin : (leaf, sender p) ∈ update_proposals q) by (apply elem_of_updates; by exists p).
      rewrite Hu in Hin. by apply not_elem_of_nil in Hin.
    - split; [by apply Hr0|]. unfold s. rewrite (TreeSync_leaf_at _ h) by (done || by apply Hr0). by apply Hrem. }
  pose proof (apply_proposals_spec q own (PublicGroup_empty_diff g) h Hok Hap) as Hspec. rewrite Ea in Hspec.
  destruct Hspec as (s1 & h1' & -> & _ & _ & Hpr & Esr & Epr & Epsk & _). cbn [pgd_diff set_pgd_diff] in *.
  change (pgd_diff (PublicGroup_empty_diff g)) with s in Hpr. pose proof (pr_steps _ _ _ _ Hpr) as Hst.
  destruct (tree_ok_ready c _ h s1 Htree Hst) as (h1 & _ & Hready & Eo).
  assert (Hother : forall j, 0 <= j -> j ∉ exclusion_list v -> leaf_at s1 j = if decide (j ∈ removed_leaves q) then None else leaf_at s j).
  { intros j Hj Hn. rewrite (pr_other _ _ _ _ Hpr j Hj Hn). destruct (decide _); [done|].
    destruct (last (updates_of j (queued_proposals q))) as [leaf|] eqn:El; [|done]. apply last_update in El. rewrite Hu in El. by apply not_elem_of_nil in El. }
  assert (Hinv : forall j leaf, j ∈ exclusion_list v -> leaf_at s1 j = Some leaf ->
    (exists pair, generated c pair /\ pair.1 = encryption_key leaf) /\ (leaf_at s j = None \/ j ∈ removed_leaves q)).
  { intros j leaf ([j' kp] & Ej & Hin)%list_elem_of_fmap El. cbn in Ej. subst j'. destruct (pr_leaf _ _ _ _ Hpr j kp Hin) as (_ & El' & Hfree).
    rewrite El' in El. injection El as <-. split; [|done]. apply Hadds. rewrite <- (pr_invited _ _ _ _ Hpr). by apply (list_elem_of_fmap_2 snd _ (j, kp)). }
  pose proof (member_steps_kept s s1 h Hok Hst) as Hkept. split_and!; [done|done|by exists s1|done| | |by apply Hpr| |].
  - destruct (path_required v) eqn:Ep; [by exists h1|]. exists h. symmetry in Epr. apply orb_false_iff in Epr as [Epr _]. apply orb_false_iff in Epr as [Epr _].
    destruct (no_tree_proposals q own (PublicGroup_empty_diff g) Epr) as (v' & E' & _). rewrite Ea in E'. injection E' as _ E'. rewrite E'.
    split; [split; [done|by apply hashed_cache_ok; [apply Hok|]]|done].
  - apply (kept_generated c s s1 Hgen Hkept). intros j leaf Hj El. destruct (decide (j ∈ exclusion_list v)) as [Hin|Hn].
    + right. by apply (Hinv j leaf).
    + left. rewrite Hother in El by done. by destruct (decide _).
  - intros j kp Hin. destruct (pr_leaf _ _ _ _ Hpr j kp Hin) as (? & ? & ?). split_and!; [done..| |done]. by eapply pr_unmerged.
  - intros j Hj Hs Hnr.
    assert (Hnx : j ∉ exclusion_list v).
    { intros Hin. pose proof Hin as ([j' kp] & Ej & Hin')%list_elem_of_fmap. cbn in Ej. subst j'. destruct (pr_leaf _ _ _ _ Hpr j kp Hin') as (_ & El & _).
      destruct (Hinv j _ Hin El) as [_ [Hn|]]; [by rewrite Hn in Hs; destruct Hs|done]. }
    assert (El : leaf_at s1 j = leaf_at s j) by (rewrite Hother by done; by rewrite decide_False). split_and!; [done|done|].
    eapply (encryption_keys_kept s s1 h h1); try done. apply Hready.
Qed.

(** A receiver ends with the diff and the secrets of the committer. *)
Lemma receiver_agrees now g st m tag commit q v i old leaves commit_secret kps lkp leaf d1 d2 d3 d4 context secrets staged :
  let c := MlsGroup_ciphersuite g in
  content_sender (ac_content m) <> Sender_Member (own_leaf_index g) ->
  validate_commit now (public_group g) (set_confirmation_tag tag m) = Ok (commit, q, i) ->
  apply_proposals q (Some (own_leaf_index g)) (PublicGroup_empty_diff (public_group g)) = (Ok v, d1) ->
  process_path g v i (commit_path commit) old leaves d1 = (Ok (Processed commit_secret kps lkp leaf), d2) ->
  PublicGroupDiff_update_confirmed_transcript_hash m d2 = (Ok tt, d3) -> tls_group_context (pgd_context d3) = Some context ->
  derive_epoch_secrets g st v (group_epoch_secrets g) commit_secret context = Ok secrets ->
  ConfirmationKey_tag c (confirmation_key secrets) (gc_confirmed_transcript_hash (pgd_context d3)) = Ok tag ->
  update_interim_transcript_hash c tag d3 = (Ok tt, d4) -> PublicGroupDiff_into_staged_diff d4 = Ok staged ->
  member_stage_commit now g st (set_confirmation_tag tag m) old leaves =
    let '(ges, ms) := split_secrets secrets context (tsd_tree_size (pgd_diff d4)) (own_leaf_index g) in
    Ok {| staged_proposal_queue := q; staged_state := GroupMember {|
      msc_group_epoch_secrets := ges; msc_message_secrets := ms; msc_staged_diff := staged; msc_new_keypairs := kps;
      msc_new_leaf_keypair_option := lkp; msc_update_path_leaf_node := leaf |} |}.
Proof.
  intros c Hs Hv Ea Ep E3 Ectx Esec Etag E4 Est. unfold member_stage_commit. cbn [set_confirmation_tag ac_content]. rewrite bool_decide_false by done.
  fold (set_confirmation_tag tag m). rewrite Hv. cbn [mbind outcome_bind]. unfold member_stage_on. unfold lift_state. run. rewrite Ea. cbv beta iota zeta. rewrite Ep.
  by rewrite (finish_agrees g st m tag q v commit_secret kps lkp leaf d2 d3 d4 context secrets staged E3 Ectx Esec Etag E4 Est).
Qed.

(** An observer of the public group ends with the diff of the committer. *)
Lemma observer_agrees g m tag commit q v i d1 d1' d2 d3 d4 staged : let c := PublicGroup_ciphersuite g in
  apply_proposals q None (PublicGroup_empty_diff g) = (Ok v, d1) -> content_body (ac_content m) = BodyCommit commit ->
  observer_path c v i (commit_path commit) d1 = (Ok tt, d1') -> update_group_context (new_extensions v) d1' = (Ok tt, d2) ->
  PublicGroupDiff_update_confirmed_transcript_hash m d2 = (Ok tt, d3) -> update_interim_transcript_hash c tag d3 = (Ok tt, d4) ->
  PublicGroupDiff_into_staged_diff d4 = Ok staged -> stage_diff g (set_confirmation_tag tag m) q i = Ok staged.
Proof.
  intros c Ea Eb Ep Eg E3 E4 Es. enough (E : stage_diff_on c (set_confirmation_tag tag m) q i (PublicGroup_empty_diff g) = (Ok staged, d4))
    by (unfold stage_diff; fold c; by rewrite E).
  unfold stage_diff_on. cbn [set_confirmation_tag ac_content ac_auth auth_confirmation_tag]. rewrite Eb.
  apply method_bind_ok. exists v, d1. split; [by apply lift_state_ok|]. apply method_bind_ok. exists commit, d1. split; [done|].
  apply method_bind_ok. exists tt, d1'. split; [exact Ep|]. apply method_bind_ok. exists tt, d2. split; [by apply lift_state_ok|].
  apply method_bind_ok. exists tt, d3. split; [by apply lift_state_ok|]. apply method_bind_ok. exists tag, d3. split; [done|].
  apply method_bind_ok. exists tt, d4. split; [by apply lift_state_ok|]. run. by rewrite Es.
Qed.

(** What a member needs to follow a commit: it stays a member, and holds the
    private keys of its leaf and of the nodes above it. *)
Record follows (c : Ciphersuite) (g : MlsGroup) (committer : LeafNodeIndex) (removed : list LeafNodeIndex) (owned : list EncryptionKeyPair) : Prop := {
  fo_index : 0 <= own_leaf_index g;
  fo_other : own_leaf_index g <> committer;
  fo_member : is_Some (leaves_of (public_group g) (own_leaf_index g));
  fo_stays : own_leaf_index g ∉ removed;
  fo_generated : Forall (generated c) owned;
  fo_keys key : key ∈ encryption_keys (TreeSync_empty_diff (treesync (public_group g))) (own_leaf_index g) -> key ∈ owned.*1
}.

(** The next epoch as the committer [i] and the member [j] have staged it. *)
Record same_next (ts : TreeSync) (c : Ciphersuite) (i j : LeafNodeIndex) (owned : list EncryptionKeyPair) (mi mj : MemberStagedCommitState) : Prop := {
  sn_diff : msc_staged_diff mj = msc_staged_diff mi;
  sn_secrets : exists secrets context size,
    split_secrets secrets context size i = (msc_group_epoch_secrets mi, msc_message_secrets mi) /\
    split_secrets secrets context size j = (msc_group_epoch_secrets mj, msc_message_secrets mj);
  sn_leaf : msc_update_path_leaf_node mj = msc_update_path_leaf_node mi;
  sn_generated : tree_generated c (TreeSync_empty_diff (TreeSync_merge_diff (spg_staged_diff (msc_staged_diff mi)) ts));
  sn_keys key : key ∈ encryption_keys (TreeSync_empty_diff (TreeSync_merge_diff (spg_staged_diff (msc_staged_diff mi)) ts)) j ->
    key ∈ (owned ++ msc_new_keypairs mj).*1
}.

Lemma staged_keys c ts h d d' staged j (owned : list bytes) : original_tree (diff (pgd_diff d)) = ts_tree ts -> tree_sync_ok (pgd_diff d) h -> hashed c (pgd_diff d) h ->
  pgd_diff d' = pgd_diff d -> PublicGroupDiff_into_staged_diff d' = Ok staged -> tree_generated c (pgd_diff d) -> 0 <= j -> is_Some (leaf_at (pgd_diff d) j) ->
  (forall key, key ∈ encryption_keys (pgd_diff d) j -> key ∈ owned) ->
  let s := TreeSync_empty_diff (TreeSync_merge_diff (spg_staged_diff staged) ts) in
  tree_generated c s /\ forall key, key ∈ encryption_keys s j -> key ∈ owned.
Proof.
  intros Eo Hok Hh Ed Est Hg Hj Hs Hk. destruct (merge_spec c ts (pgd_diff d) h Eo Hok Hh) as (x & Ex & Htree & Hreads).
  unfold PublicGroupDiff_into_staged_diff in Est. rewrite Ed, Ex in Est. injection Est as <-. cbn [spg_staged_diff].
  destruct Htree as (_ & Hok' & _). destruct (merged_reads _ _ h Hok' Hreads) as [Hkept Hl]. split.
  - apply (kept_generated c _ _ Hg Hkept). intros k leaf Hk0 El. left. by rewrite Hl in El.
  - intros key Hin. apply Hk. eapply (encryption_keys_kept _ _ h h); try done. by apply Hl.
Qed.

(** C1: all who follow a commit reach the same epoch.  Let a member build a commit
    from any proposals, and another member of the same epoch accept its proposals,
    find the PSKs the committer has loaded, remain in the group and hold the private
    keys of its leaf and of its direct path.  Then the other member stages the
    commit: it decrypts the path, its confirmation tag matches, and it ends with the
    committer's tree, group context and transcript hashes and the committer's secrets
    of the next epoch, each with a secret tree of its own leaf.  It then holds the
    private keys of its direct path in the new tree, all of whose keys are generated
    ones, so that the next commit can be followed too.  An observer of the public
    group stages the same public state. *)
Theorem members_agree map_order now now' pr gi gj st stage f b commit q' inline h old leaves :
  let c := MlsGroup_ciphersuite gi in let i := own_leaf_index gi in
  let q := staged_proposal_queue (built_staged_commit b) in
  same_epoch gi gj -> group_ok (public_group gi) h -> tree_generated c (TreeSync_empty_diff (treesync (public_group gi))) ->
  build_internal map_order now pr gi stage f = Ok b -> 0 <= i -> (forall r, r ∈ removed_leaves q -> 0 <= r) ->
  (forall kp, draw_leaf_keypair pr = Ok kp -> generated c kp) ->
  (forall kp, kp ∈ map fst (add_proposals q) -> exists pair, generated c pair /\ pair.1 = encryption_key (kp_leaf_node kp)) ->
  inline_queued c (Sender_Member i) (map proposal (queued_proposals q)) = Ok inline -> NoDup (map proposal_reference inline) ->
  validate_commit now' (public_group gj) (built_commit b) = Ok (commit, q', i) ->
  (load_psks (resumption_psk_store gj) (map fst (psk_proposals q)) st).1 = Ok (loaded_psks stage) ->
  follows c gj i (removed_leaves q) (old ++ leaves) ->
  exists mi mj, staged_state (built_staged_commit b) = GroupMember mi /\
    member_stage_commit now' gj st (built_commit b) old leaves = Ok {| staged_proposal_queue := q'; staged_state := GroupMember mj |} /\
    same_next (treesync (public_group gj)) c i (own_leaf_index gj) (old ++ leaves) mi mj /\
    stage_commit (M := MemberStagedCommitState) now' (public_group gj) (built_commit b) = Ok {| staged_proposal_queue := q'; staged_state := PublicState {|
      psc_staged_diff := msc_staged_diff mi; psc_update_path_leaf_node := msc_update_path_leaf_node mi |} |}.
Proof.
  intros c i q Hse Hg Hgen Hb Hi Hr0 Hdraw Hadds Einl Hnd Hv Hpsk Hf.
  apply build_internal_ok in Hb as (q0 & ou & dend & Hb & Hq & Hrem). apply build_on_ok in Hb
    as (v & d1 & with_path & path & d2 & content & d3 & context & psk_secret & tag & d4 & staged & Ea & Esr & Hwp & Epath & Ebody & Esender & E3 & Ectx & Epsk & Etag & E4 & Est & Ebc & Eq & Est').
  unfold q in *. rewrite Eq in *. clear q Eq. rename q0 into q. pose proof (same_epoch_diff gi gj Hse) as Ediff.
  assert (Ec : MlsGroup_ciphersuite gj = c) by (unfold MlsGroup_ciphersuite, PublicGroup_ciphersuite; by rewrite <- (se_context _ _ Hse : group_context _ = group_context _)).
  rewrite Ebc in Hv |- *.
  destruct (validate_commit_ok _ _ _ _ _ _ Hv) as (Ecm & _ & _ & _ & _). cbn [set_confirmation_tag ac_content] in Ecm. rewrite Ebody in Ecm. injection Ecm as <-.
  assert (Hni : i ∉ removed_leaves q).
  { intros Hin. rewrite (proj1 (apply_proposals_value _ _ _ _ _ Ea)) in Esr. pose proof (existsb_false_elem _ _ Esr i Hin) as Hn. cbv beta in Hn. by rewrite bool_decide_true in Hn. }
  destruct (received_queue now' (public_group gj) (set_confirmation_tag tag content) q q' {| commit_proposals := commit_list q; commit_path := pcr_encrypted_path path |} i inline
    Hq Esender eq_refl Hni (eq_trans (f_equal (fun c => inline_queued c _ _) Ec) Einl) Hnd Hv) as (Hq' & Esame & Hu & Hext).
  destruct (applied_tree (public_group gi) h q v d1 (Some i) Hg Hgen Hu Hrem Hr0 Hadds Ea) as (_ & Epk & (s1 & Ed1) & Eo & (h1 & Hready & Hhash) & Hgen1 & _ & _ & Hmem).
  destruct Hf as [Hj0 Hji Hjm Hjr Hjg Hjk]. unfold leaves_of in Hjm. rewrite <- (se_tree _ _ Hse) in Hjm, Hjk |- *.
  destruct (Hmem (own_leaf_index gj) Hj0 Hjm Hjr) as (Elj & Hjx & Hjk1). assert (Hsj : is_Some (leaf_at (pgd_diff d1) (own_leaf_index gj))) by (by rewrite Elj).
  assert (Ecd : gc_ciphersuite (pgd_context d1) = c) by (by rewrite Ed1).
  pose proof (apply_proposals_same q q' (Some (own_leaf_index gi)) (Some (own_leaf_index gj)) (PublicGroup_empty_diff (public_group gi)) Esame Hq Hq' Hu) as Eaj.
  pose proof (apply_proposals_same q q' (Some (own_leaf_index gi)) None (PublicGroup_empty_diff (public_group gi)) Esame Hq Hq' Hu) as Ean.
  rewrite Ea in Eaj, Ean. set (vj := mkApplyProposalsValues _ _ _ _ _ _) in Eaj. set (vn := mkApplyProposalsValues _ _ _ _ _ _) in Ean.
  destruct (path_shared pr i v (leaf_node_parameters stage) with_path d1 path d2 h1 Epath) as (Hok2 & Hh2 & Eo2 & Hgen2 & Hobs & Hrecv);
    rewrite ?Ecd in *; [by split; auto|done|done|done|done|by exists (own_leaf_index gj)|].
  assert (Evj : self_removed vj = false).
  { cbn. apply not_true_is_false. intros (r & Hr & E)%existsb_exists. apply bool_decide_eq_true in E. injection E as <-. by apply Hjr, list_elem_of_In. }
  destruct (Hrecv gj vj old leaves Ec Evj eq_refl eq_refl eq_refl Hj0 Hji Hsj Hjx Hjg (fun key Hk => Hjk key (Hjk1 key Hk))) as (kps & lkp & Eproc & Hsj2 & Hkeys).
  assert (Eext : external_init_proposal_option vj = None) by (by rewrite (proj2 (apply_proposals_value _ _ _ _ _ Eaj))).
  set (secrets := epoch_of c (epoch_secret_of c (joiner_of c (default (Secret_zero c) (pcr_commit_secret path))
    (ge_init_secret (group_epoch_secrets gi)) context) psk_secret context)).
  assert (Esec : derive_epoch_secrets gj st vj (group_epoch_secrets gj) (default (CommitSecret_zero_secret c) (pcr_commit_secret path)) context = Ok secrets).
  { rewrite (derive_epoch_secrets_ok _ _ _ _ _ _ (loaded_psks stage) psk_secret); [|done|cbn; by rewrite Epk|by rewrite Ec].
    cbv zeta. unfold secrets. rewrite Ec. by rewrite (se_secrets _ _ Hse). }
  assert (Ed4 : pgd_diff d4 = pgd_diff d2) by (by destruct (update_transcript_ok _ _ _ _ _ _ E3 E4)).
  destruct (staged_keys c (treesync (public_group gi)) h1 d2 d4 staged (own_leaf_index gj) (((old ++ leaves) ++ kps).*1)
    (eq_trans Eo2 Eo) Hok2 Hh2 Ed4 Est Hgen2 Hj0 Hsj2 Hkeys) as [Hgen' Hkeys'].
  eexists _, _. split; [exact Est'|]. split; [|split].
  - etrans; [eapply (receiver_agrees now' gj st content tag); [|exact Hv|by rewrite Ediff|exact Eproc|exact E3|exact Ectx|exact Esec|by rewrite Ec..|exact Est]|reflexivity].
    rewrite Esender. by intros [= E]; apply Hji.
  - split; [done|by eexists secrets, context, _|done|done|done].
  - unfold stage_commit. rewrite Hv. cbn [mbind outcome_bind commit_path]. destruct (Hobs vn eq_refl) as (d1' & Eobs & Eg).
    rewrite (observer_agrees (public_group gj) content tag {| commit_proposals := commit_list q; commit_path := pcr_encrypted_path path |} q' vn i d1 d1' d2 d3 d4 staged); try done; [by rewrite Ediff|by rewrite (Ec : PublicGroup_ciphersuite _ = c)..].
Qed.

End Agreement.

(** ** Witnesses *)

Definition toy_contexts : ContextEncoding := {|
  tls_group_context g := Some (gc_epoch g :: gc_group_id g ++ gc_tree_hash g ++ gc_confirmed_transcript_hash g) |}.

Definition toy_export : HpkeExport := {|
  provider_sender_export _ pk info context len := Ok (pk, pk ++ context);
  provider_receiver_export _ enc sk info context len := Ok (sk ++ context) |}.

Definition sample_epoch_secrets : GroupEpochSecrets := {|
  ge_init_secret := [81]; ge_exporter_secret := [82]; ge_epoch_authenticator := [83]; ge_external_secret := [84]; ge_resumption_psk := [85] |}.

Definition sample_message_secrets (i : LeafNodeIndex) : MessageSecrets := {|
  ms_sender_data_secret := [86]; ms_membership_key := [87]; ms_confirmation_key := [88]; ms_serialized_context := [];
  ms_secret_tree := create_secret_tree [89] 7 i |}.

(** The members of a group of three. *)
Definition sample_member (i : LeafNodeIndex) : MlsGroup := {|
  mls_group_config := {| wire_format_policy := PURE_CIPHERTEXT_WIRE_FORMAT_POLICY; padding_size := 0; max_past_epochs := 2; number_of_resumption_psks := 4; use_ratchet_tree_extension := false; sender_ratchet_configuration := sample_config |};
  public_group := group_over sample_joined;
  group_epoch_secrets := sample_epoch_secrets;
  own_leaf_index := i;
  message_secrets_store := new_with_secret 2 (sample_message_secrets i);
  resumption_psk_store := ResumptionPskStore_new 4;
  own_leaf_nodes := []; aad := []; group_state := Operational |}.

(** Member 0 removes member 2. *)
Definition sample_stage : LoadedPsks := {|
  own_proposals := [Remove 2]; force_self_update := false; leaf_node_parameters := LeafNodeParameters_default;
  consume_proposal_store := true; loaded_psks := [] |}.

Definition sample_provider : CommitProvider := {|
  draw_path_secret := Ok [42]; draw_leaf_keypair := Ok ([51], [51]); sign_leaf := fun _ => Ok [6]; sign_content := fun _ _ _ => Ok [7] |}.

Abbreviation sample_building := (@build_internal toy_hashing toy_transcripts toy_proposal_hashing toy_crypto toy_hpke toy_psk_labels toy_contexts
  (fun m => map_to_list m) (Some 0) sample_provider (sample_member 0) sample_stage (fun _ => true)).

Lemma toy_generated key : @generated toy_hpke hash_suite (key, key).
Proof. by exists key. Qed.

Lemma toy_tree_generated s : @tree_generated toy_hpke hash_suite s.
Proof. intros key _. exists (key, key). split; [apply toy_generated|done]. Qed.

Definition sample_owned : list EncryptionKeyPair := [([2], [2]); ([21], [21]); ([22], [22])].

Definition sample_reference : ProposalRef :=
  match @from_raw_proposal toy_proposal_hashing hash_suite (Remove 2) with Ok r => r | _ => [] end.

Definition sample_commit_ok (b : BuiltCommit) : Prop :=
  let q := staged_proposal_queue (built_staged_commit b) in
  map proposal (queued_proposals q) = [Remove 2] /\ removed_leaves q = [2] /\ add_proposals q = [] /\ psk_proposals q = [] /\
  exists commit q', @validate_commit (Some 0) toy_proposal_hashing (group_over sample_joined) (built_commit b) = Ok (commit, q', 0).

Lemma sample_built : exists b, sample_building = Ok b /\ sample_commit_ok b.
Proof.
  assert (Hb : match sample_building with Ok b => sample_commit_ok b | _ => False end).
  { vm_compute. split_and!; [reflexivity..|]. eexists _, _. reflexivity. }
  destruct sample_building as [b| |]; [by exists b|done..].
Qed.

Lemma sample_follows : @follows toy_hpke hash_suite (sample_member 1) 0 [2] (sample_owned ++ []).
Proof.
  split; [done|done|vm_compute; eauto|by intros ?%list_elem_of_singleton| |].
  - repeat constructor; apply toy_generated.
  - intros key Hkey. vm_compute in Hkey |- *. exact Hkey.
Qed.

Lemma sample_same_epoch i j : same_epoch (sample_member i) (sample_member j).
Proof. unfold sample_member. generalize sample_joined. intros ts. by split. Qed.

Lemma sample_group_ok h : @tree_ok toy_hashing hash_suite sample_joined h -> @group_ok toy_hashing (group_over sample_joined) h.
Proof. generalize sample_joined. intros ts Hok. by split. Qed.

(** Member 1 follows. *)
Lemma members_agree_witness : exists b m0 m1 q, sample_building = Ok b /\ staged_state (built_staged_commit b) = GroupMember m0 /\
  @member_stage_commit toy_hashing toy_transcripts toy_proposal_hashing toy_crypto toy_hpke toy_export toy_psk_labels toy_contexts (toy_serde Psk) (toy_serde PskBundle)
    (Some 0) (sample_member 1) ∅ (built_commit b) sample_owned [] = Ok {| staged_proposal_queue := q; staged_state := GroupMember m1 |} /\
  msc_group_epoch_secrets m1 = msc_group_epoch_secrets m0.
Proof.
  destruct sample_joined_ok as [h Hok]. destruct sample_built as (b & Eb & Ep & Er & Ea & Epsk & commit & q' & Ev).
  destruct (@members_agree toy_hashing toy_hash_laws toy_transcripts toy_proposal_hashing toy_crypto toy_laws toy_extract_laws toy_hpke toy_hpke_laws
    toy_export toy_psk_labels toy_contexts (toy_serde Psk) (toy_serde PskBundle) (fun m => map_to_list m) (Some 0) (Some 0) sample_provider
    (sample_member 0) (sample_member 1) ∅ sample_stage (fun _ => true) b commit q'
    [{| proposal := Remove 2; proposal_reference := sample_reference; sender := Sender_Member 0; proposal_or_ref_type := ByProposal |}] h sample_owned [])
    as (m0 & m1 & E0 & E1 & [_ (secrets & context & size & S0 & S1) _ _ _] & _).
  - apply sample_same_epoch.
  - exact (sample_group_ok h Hok).
  - apply toy_tree_generated.
  - exact Eb.
  - exact (Z.le_refl 0).
  - rewrite Er. intros r ->%list_elem_of_singleton. lia.
  - intros kp [= <-]. apply toy_generated.
  - rewrite Ea. intros kp Hkp. apply not_elem_of_nil in Hkp. destruct Hkp.
  - rewrite Ep. vm_compute. reflexivity.
  - apply NoDup_singleton.
  - exact Ev.
  - rewrite Epsk. reflexivity.
  - rewrite Er. exact sample_follows.
  - exists b, m0, m1, q'. split; [exact Eb|]. split; [exact E0|]. split; [exact E1|]. injection S0 as <- _. injection S1 as <- _. reflexivity.
Defined.
