(* ===== verification/GroupMessages.v ===== *)
(** * Processing incoming messages

    Models [MlsGroup::process_message] ([group/mls_group/processing.rs]) and what an
    observer of a public group does with a message
    ([group/public_group/process.rs]): the checks, the decryption, the choice of the
    sender's credential, the signature, and what becomes of the content.

    A message changes the group in one way only: the decryption moves the ratchets of
    the message secrets on, in memory.  The theorems follow a message from the
    sender's group to the receiver's and a commit from one epoch to the next. *)

From Stdlib Require Import String.
From stdpp Require Import functions.
From S2P Require Import Prelude TreeMath Crypto Tls BinaryTree SenderRatchet SecretTree LeafNodes Nodes TreeSyncDiff TreeHash UpdatePaths TreeKem TreeSync EpochStores Proposals PublicGroup Validation Storage Commits KeySchedule Members Framing GroupState Countables Agreement.

(** ** Data *)

Inductive ProcessMessageError :=
| ProcessLibraryError (e : LibraryError)
| IncompatibleWireFormat
| ProcessValidation (e : ValidationError)
| ProcessGroupState (e : MlsGroupStateError)
| InvalidCommit (e : StageCommitError)
| UnauthorizedExternalApplicationMessage
| UnsupportedProposalType.

(** [C] is the type of staged commits *)
Inductive ProcessedMessageContent (C : Type) :=
| ApplicationMessage (message : bytes)
| ProposalMessage (p : QueuedProposal)
| ExternalJoinProposalMessage (p : QueuedProposal)
| StagedCommitMessage (c : C).
Arguments ApplicationMessage {C} _.
Arguments ProposalMessage {C} _.
Arguments ExternalJoinProposalMessage {C} _.
Arguments StagedCommitMessage {C} _.

Record ProcessedMessage (C : Type) := mkProcessedMessage {
  processed_group_id : bytes;
  processed_epoch : Z;
  processed_sender : Sender;
  processed_aad : bytes;
  processed_content : ProcessedMessageContent C;
  processed_credential : Credential
}.
Arguments mkProcessedMessage {C} _ _ _ _ _ _.
Arguments processed_group_id {C} _.
Arguments processed_epoch {C} _.
Arguments processed_sender {C} _.
Arguments processed_aad {C} _.
Arguments processed_content {C} _.
Arguments processed_credential {C} _.

Section Processing.
Context `{!InboundBodies} `{!FramingEncoding} `{!ContextEncoding} `{!OpenMlsCrypto} `{!AeadProvider} `{!SignatureProvider}.

Record UnverifiedMessage := mkUnverifiedMessage {
  unverified_content : VerifiableAuthenticatedContentIn;
  unverified_credential : Credential;
  unverified_pk : bytes;
  unverified_context : option SenderContext
}.

(** [self.wire_format()] of a [ProtocolMessage] *)
Definition protocol_wire_format (m : InboundProtocolMessage) : WireFormat :=
  match m with ProtocolPrivateMessage _ => WirePrivateMessage | ProtocolPublicMessage _ => WirePublicMessage end.

(** ** Parsing *)

(** The credential and key of the member at a leaf: in the tree for a message of this
    epoch, else by position in the list of the members of that epoch *)
Definition look_up_credential_with_key {M} (g : PublicGroup) (store : option (MessageSecretsStore M)) (message_epoch : Z) (leaf : LeafNodeIndex) :
    option (Credential * bytes) :=
  if message_epoch =? gc_epoch (group_context g) then
    (fun l => (leaf_credential (payload l), leaf_signature_key (payload l))) <$> TreeSync_leaf (treesync g) leaf
  else
    store ← store;
    (fun m => (member_credential m, member_signature_key m)) <$> leaves_for_epoch store message_epoch !! Z.to_nat leaf.

Definition sender_context_of (g : PublicGroup) (s : Sender) : option SenderContext :=
  match s with
  | Sender_Member leaf_index => Some (ContextMember (PublicGroup_group_id g) leaf_index)
  | NewMemberCommit => Some (ContextExternalCommit (PublicGroup_group_id g) (TreeSync_free_leaf_index (treesync g)))
  | Sender_External _ | NewMemberProposal => None
  end.

Definition PublicGroup_parse_message {M} (g : PublicGroup) (v : VerifiableAuthenticatedContentIn) (store : option (MessageSecretsStore M)) :
    outcome ValidationError UnverifiedMessage :=
  let epoch := in_epoch (tbs_content (verifiable_tbs v)) in
  _ ← validate_verifiable_content g (verifiable_sender v) epoch (verifiable_content_type v) (tbs_wire_format (verifiable_tbs v))
        (auth_confirmation_tag (verifiable_auth v)) store;
  '(credential, signature_key) ← message_credential v (look_up_credential_with_key g store epoch) (external_senders (gc_extensions (group_context g)));
  Ok {| unverified_content := v; unverified_credential := credential; unverified_pk := signature_key;
        unverified_context := sender_context_of g (verifiable_sender v) |}.

(** [UnverifiedMessage::verify], with the algorithm of the ciphersuite *)
Definition verify_unverified (c : Ciphersuite) (version : ProtocolVersion) (u : UnverifiedMessage) : outcome ValidationError (AuthenticatedContent * Credential) :=
  UnverifiedMessage_verify (unverified_content u) (unverified_credential u) (signature_algorithm c) (unverified_pk u) (unverified_context u) c version.

(** ** Processing *)

Section Contents.
Context `{!ProposalHashing}.
Context (tls_authenticated_content : AuthenticatedContent -> option bytes).

Definition queue_by_ref (c : Ciphersuite) (m : AuthenticatedContent) : outcome ProcessMessageError QueuedProposal :=
  map_err ProcessLibraryError (from_authenticated_content_by_ref tls_authenticated_content c m).

(** The part that members and observers share: [stage] stages a commit, [own_epoch] is
    the epoch of the group, [epoch] the one that the result names. *)
Definition process_verified_content {C : Type} (c : Ciphersuite) (group_id : bytes) (own_epoch epoch : Z) (stage : AuthenticatedContent -> outcome StageCommitError C)
    (m : AuthenticatedContent) (credential : Credential) : outcome ProcessMessageError (ProcessedMessage C) :=
  let result e content := mkProcessedMessage group_id e (content_sender (ac_content m)) (authenticated_data (ac_content m)) content credential in
  match content_sender (ac_content m) with
  | Sender_External _ =>
    match content_body (ac_content m) with
    | BodyApplication _ => Err UnauthorizedExternalApplicationMessage
    | BodyProposal (Remove _) => p ← queue_by_ref c m; Ok (result own_epoch (ProposalMessage p))
    | BodyProposal _ => Err UnsupportedProposalType
    | BodyCommit _ => Panic
    end
  | sender =>
    content ← (match content_body (ac_content m) with
      | BodyApplication message => Ok (ApplicationMessage message)
      | BodyProposal _ =>
        p ← queue_by_ref c m;
        Ok (match sender with NewMemberProposal => ExternalJoinProposalMessage p | _ => ProposalMessage p end)
      | BodyCommit _ => staged ← map_err InvalidCommit (stage m); Ok (StagedCommitMessage staged)
      end);
    Ok (result epoch content)
  end.

(** [PublicGroup::process_unverified_message] and [process_message] of an observer *)
Context `{!TreeHashing} `{!TranscriptEncoding}.

Definition PublicGroup_process_unverified_message (now : option Z) (g : PublicGroup) (u : UnverifiedMessage) :
    outcome ProcessMessageError (ProcessedMessage MemberCommit) :=
  let c := PublicGroup_ciphersuite g in
  '(content, credential) ← map_err ProcessValidation (verify_unverified c (PublicGroup_version g) u);
  let epoch := gc_epoch (group_context g) in
  process_verified_content c (PublicGroup_group_id g) epoch epoch (fun m => stage_commit now g m) content credential.

Definition PublicGroup_process_message (now : option Z) (g : PublicGroup) (m : InboundProtocolMessage) : outcome ProcessMessageError (ProcessedMessage MemberCommit) :=
  _ ← map_err ProcessValidation (validate_framing g (protocol_header m));
  match m with
  | ProtocolPrivateMessage _ => Err IncompatibleWireFormat
  | ProtocolPublicMessage public_message =>
    context ← ok_or (tls_group_context (group_context g)) (ProcessLibraryError LibraryMissingBoundsCheck);
    v ← map_err ProcessValidation (from_inbound_public_message public_message None context (PublicGroup_ciphersuite g));
    u ← map_err ProcessValidation (PublicGroup_parse_message (M := MessageSecrets) g v None);
    PublicGroup_process_unverified_message now g u
  end.

(** *** Members *)

Context `{!OpenMlsHpke} `{!HpkeExport} `{!PskEncoding} `{!Serde Psk} `{!Serde PskBundle} `{!Serde bytes} `{!Serde (list EncryptionKeyPair)} `{!Serde Z} `{!Serde StoredKeyPair}.

Definition decrypt_message (m : InboundProtocolMessage) (configuration : SenderRatchetConfiguration) : method MlsGroup ValidationError VerifiableAuthenticatedContentIn :=
  g ← get;
  lift (validate_framing (public_group g) (protocol_header m));;
  match m with
  | ProtocolPublicMessage public_message =>
    message_secrets ← lift (map_err (fun e => match e with TooDistantInThePast => NoPastEpochData | _ => ValidationLibraryError LibraryCustom end)
      (message_secrets_for_epoch g (pm_epoch (protocol_header m))));
    lift (from_inbound_public_message public_message (Some message_secrets) (ms_serialized_context message_secrets) (MlsGroup_ciphersuite g))
  | ProtocolPrivateMessage ciphertext =>
    with_message_secrets (priv_epoch ciphertext) (UnableToDecrypt AeadError)
      (from_inbound_ciphertext ciphertext (MlsGroup_ciphersuite g) (own_leaf_index g) configuration)
  end.

Definition process_unverified_message (now : option Z) (g : MlsGroup) (st : MemoryStorage) (u : UnverifiedMessage)
    (old_epoch_keypairs leaf_node_keypairs : list EncryptionKeyPair) : outcome ProcessMessageError (ProcessedMessage MemberCommit) :=
  let c := MlsGroup_ciphersuite g in
  '(content, credential) ← map_err ProcessValidation (verify_unverified c (MlsGroup_version g) u);
  process_verified_content c (MlsGroup_group_id g) (MlsGroup_epoch g) (content_epoch (ac_content content))
    (fun m => member_stage_commit now g st m old_epoch_keypairs leaf_node_keypairs) content credential.

(** [MlsGroup::process_message]; the store is only read *)
Definition process_message (now : option Z) (m : InboundProtocolMessage) : method client ProcessMessageError (ProcessedMessage MemberCommit) :=
  self ← get;
  if negb (is_active self.1) then fail (ProcessGroupState UseAfterEviction)
  else if negb (is_external m) && is_handshake_message (pm_content_type (protocol_header m)) &&
          negb (is_compatible_with (incoming (wire_format_policy (mls_group_config self.1))) (protocol_wire_format m))
  then fail IncompatibleWireFormat
  else
    v ← lift_state ProcessValidation (on_mls (decrypt_message m (sender_ratchet_configuration (mls_group_config self.1))));
    self ← get;
    u ← lift (map_err ProcessValidation (PublicGroup_parse_message (public_group self.1) v (Some (message_secrets_store self.1))));
    '(old_epoch_keypairs, leaf_node_keypairs) ← lift (match verifiable_content_type v with
      | ContentCommit => map_err InvalidCommit (read_decryption_keypairs self.1 self.2 (own_leaf_nodes self.1))
      | _ => Ok ([], [])
      end);
    lift (process_unverified_message now self.1 self.2 u old_epoch_keypairs leaf_node_keypairs).

End Contents.
End Processing.

(** ** Members of an epoch *)

(** What the members of an epoch share *)
Record Epoch := mkEpoch {
  ep_context : GroupContext;
  ep_tree : TreeSync;
  ep_encoded_context : bytes;
  ep_sender_data_secret : Secret;
  ep_encryption_secret : Secret;
  ep_height : Z
}.

(** [g] is the group of the member at leaf [i], which has sent and received the
    messages that [s] counts. *)
Record member_of `{!OpenMlsCrypto} (e : Epoch) (i : LeafNodeIndex) (s : senders) (g : MlsGroup) : Prop := {
  mo_active : is_active g = true;
  mo_index : own_leaf_index g = i;
  mo_context : MlsGroup_context g = ep_context e;
  mo_tree : treesync (public_group g) = ep_tree e;
  mo_encoded : ms_serialized_context (current_secrets (message_secrets_store g)) = ep_encoded_context e;
  mo_sender_data : ms_sender_data_secret (current_secrets (message_secrets_store g)) = ep_sender_data_secret e;
  mo_config : config_u32 (sender_ratchet_configuration (mls_group_config g));
  mo_ratchets : exists ready, SecretTree.tree_ok (gc_ciphersuite (ep_context e)) (sender_ratchet_configuration (mls_group_config g))
    (ep_encryption_secret e) (ep_height e) i ready s (ms_secret_tree (current_secrets (message_secrets_store g)))
}.

(** The sender of an application message: its leaf, its key, what it draws *)
Record can_send `{!InboundBodies} `{!FramingEncoding} `{!ContextEncoding} `{!SignatureProvider} (e : Epoch) (i : LeafNodeIndex) (n : Z)
    (pr : Provider) (g : MlsGroup) (message : bytes) (leaf : LeafNode) (guard : bytes) : Prop := {
  cs_range : 0 <= i < 2 ^ ep_height e;
  cs_in_tree : is_leaf_in_tree (ep_tree e) i = true;
  cs_leaf : TreeSync_leaf (ep_tree e) i = Some leaf;
  cs_signer : signer_for (signature_algorithm (gc_ciphersuite (ep_context e))) (leaf_signature_key (payload leaf)) (content_signer pr);
  cs_no_proposals : ProposalStore_is_empty (MlsGroup_proposal_store g) = true;
  cs_guard : draw_reuse_guard pr = Ok guard /\ length guard = 4%nat;
  cs_left : 0 <= n < u32_MAX;
  cs_signs : exists m, new_application i (aad g) message (ep_context e) (content_signer pr) = Ok m /\
    encodable m (gc_ciphersuite (ep_context e)) (padding_size (mls_group_config g)) {| sd_leaf_index := i; sd_generation := n; sd_reuse_guard := guard |}
}.

Definition has_sent (s : senders) : senders :=
  {| windows := windows s; sent := <[ApplicationSecret := sent s ApplicationSecret + 1]> (sent s) |}.
Definition has_received (i : LeafNodeIndex) (w : window) (s : senders) : senders :=
  {| windows := <[(i, ApplicationSecret) := w]> (windows s); sent := sent s |}.

(** A member's place: its leaf and its configuration *)
Abbreviation seat := (LeafNodeIndex * LeafNode * MlsGroupJoinConfig)%type.

Section Theorems.
Context `{!InboundBodies} `{!FramingEncoding} `{!FramingLaws} `{!ContextEncoding} `{!OpenMlsCrypto} `{!KdfLaws} `{!AeadProvider} `{!AeadLaws} `{!SignatureProvider}.
Context `{!ProposalHashing} `{!TreeHashing} `{!TranscriptEncoding} `{!OpenMlsHpke} `{!HpkeExport} `{!PskEncoding}.
Context `{!Serde Psk} `{!Serde PskBundle} `{!Serde bytes} `{!Serde (list EncryptionKeyPair)} `{!Serde Z} `{!Serde StoredKeyPair}.
Context `{!Serde (MessageSecretsStore MessageSecrets)} `{!SerdeLaws bytes} `{!SerdeLaws (MessageSecretsStore MessageSecrets)}.
Context (tls_authenticated_content : AuthenticatedContent -> option bytes).

Abbreviation process := (process_message tls_authenticated_content).

Definition epoch_ok (e : Epoch) : Prop := height (ep_height e) /\ tls_group_context (ep_context e) = Some (ep_encoded_context e).

(** What the receiver is told of an application message *)
Definition application_from (e : Epoch) (i : LeafNodeIndex) (aad message : bytes) (leaf : LeafNode) : ProcessedMessage MemberCommit := {|
  processed_group_id := gc_group_id (ep_context e); processed_epoch := gc_epoch (ep_context e); processed_sender := Sender_Member i;
  processed_aad := aad; processed_content := ApplicationMessage message; processed_credential := leaf_credential (payload leaf) |}.

Definition with_secrets (ms : MessageSecrets) (g : MlsGroup) : MlsGroup := set_message_store (set_current_secrets ms (message_secrets_store g)) g.
Definition with_secret_tree (t : SecretTree) (g : MlsGroup) : MlsGroup := with_secrets (set_secret_tree t (current_secrets (message_secrets_store g))) g.

Lemma member_of_tree (e : Epoch) i s s' g t ready : member_of e i s g ->
  SecretTree.tree_ok (gc_ciphersuite (ep_context e)) (sender_ratchet_configuration (mls_group_config g)) (ep_encryption_secret e) (ep_height e) i ready s' t ->
  member_of e i s' (with_secret_tree t g).
Proof. intros [] Hok. split; try done. by exists ready. Qed.

Lemma new_application_sendable (e : Epoch) i s pr g message leaf guard m :
  can_send e i (sent s ApplicationSecret) pr g message leaf guard -> new_application i (aad g) message (ep_context e) (content_signer pr) = Ok m ->
  sendable (ep_context e) (content_signer pr) (gc_ciphersuite (ep_context e)) (padding_size (mls_group_config g)) guard i s m /\
  ac_content m = mkFramedContent (gc_group_id (ep_context e)) (gc_epoch (ep_context e)) (Sender_Member i) (aad g) (BodyApplication message) /\
  auth_confirmation_tag (ac_auth m) = None.
Proof.
  intros [Hi Hin Hl Hsig Hp [Hd Hg] Hn (m' & E' & Henc)] E. assert (m' = m) as -> by congruence.
  pose proof E as E0. unfold new_application, new_and_sign, FramedContentTbs_sign in E. cbn [fst snd] in E. ok_inv E. injection E as <-. ok_inv Hx. injection Hx as <-.
  cbn in *. split; [|done]. split; try done; cbn.
  eexists. split; [exact E0|done].
Qed.


(** How [process_message] gets to a private message of this epoch *)
Lemma decrypt_private e j s g st pm o ms : member_of e j s g ->
  priv_group_id pm = gc_group_id (ep_context e) -> priv_epoch pm = gc_epoch (ep_context e) -> priv_content_type pm = ContentApplication ->
  from_inbound_ciphertext pm (gc_ciphersuite (ep_context e)) j (sender_ratchet_configuration (mls_group_config g))
    (current_secrets (message_secrets_store g)) = (o, ms) ->
  on_mls (decrypt_message (ProtocolPrivateMessage pm) (sender_ratchet_configuration (mls_group_config g))) (g, st) = (o, (with_secrets ms g, st)).
Proof.
  intros [Ha Hj Hc Ht He Hs Hu Hr] Eg Ee Et E. unfold on_mls, decrypt_message. run. cbn [fst snd].
  unfold validate_framing, protocol_header. cbn [pm_group_id pm_epoch pm_content_type]. unfold MlsGroup_context in Hc.
  unfold PublicGroup_group_id. rewrite Eg, Ee, Et, Hc, bool_decide_eq_true_2, Z.ltb_irrefl by done. cbn [negb].
  unfold with_message_secrets, MlsGroup_epoch, MlsGroup_ciphersuite, PublicGroup_ciphersuite, MlsGroup_context.
  rewrite Hc, Z.ltb_irrefl, Hj, E. done.
Qed.

(** Up to the decryption, given that the member is active and the content type *)
Ltac reach_decryption Hm Et :=
  unfold process_message; run; cbn [fst snd]; rewrite (mo_active _ _ _ _ Hm); cbn [negb];
  unfold protocol_header at 1; cbn [pm_content_type]; rewrite Et;
  change (is_handshake_message ContentApplication) with false; cbn [andb negb is_external]; unfold lift_state.

Lemma process_refused e j s now g st pm err ms : member_of e j s g ->
  priv_group_id pm = gc_group_id (ep_context e) -> priv_epoch pm = gc_epoch (ep_context e) -> priv_content_type pm = ContentApplication ->
  from_inbound_ciphertext pm (gc_ciphersuite (ep_context e)) j (sender_ratchet_configuration (mls_group_config g))
    (current_secrets (message_secrets_store g)) = (Err err, ms) ->
  process now (ProtocolPrivateMessage pm) (g, st) = (Err (ProcessValidation err), (with_secrets ms g, st)).
Proof.
  intros Hm Eg Ee Et E. pose proof (decrypt_private _ _ _ _ st _ _ _ Hm Eg Ee Et E) as Ed.
  reach_decryption Hm Et. by rewrite Ed.
Qed.

Lemma parse_application {M} e i j s g (store : MessageSecretsStore M) m message leaf d : member_of e j s g ->
  ac_content m = mkFramedContent (gc_group_id (ep_context e)) (gc_epoch (ep_context e)) (Sender_Member i) d (BodyApplication message) ->
  is_leaf_in_tree (ep_tree e) i = true -> TreeSync_leaf (ep_tree e) i = Some leaf ->
  let v := Verifiable_new WirePrivateMessage (FramedContentIn_from (ac_content m)) (Some (ep_encoded_context e)) (ac_auth m) in
  PublicGroup_parse_message (public_group g) v (Some store) = Ok {| unverified_content := v; unverified_credential := leaf_credential (payload leaf);
    unverified_pk := leaf_signature_key (payload leaf); unverified_context := Some (ContextMember (gc_group_id (ep_context e)) i) |}.
Proof.
  intros [Ha Hj Hc Htr _ _ _ _] Em Hin Hl. cbv zeta. unfold MlsGroup_context in Hc.
  unfold PublicGroup_parse_message, validate_verifiable_content, verifiable_sender, verifiable_content_type, Verifiable_new, message_credential, verifiable_sender.
  cbn [verifiable_tbs tbs_content tbs_wire_format]. rewrite Em.
  cbn [FramedContentIn_from in_sender in_epoch in_body content_sender content_epoch content_body FramedContentBodyIn_from FramedContentBodyIn_content_type].
  rewrite Htr, Hin. cbn [negb andb is_member]. rewrite bool_decide_eq_true_2 by done. cbn [negb mbind outcome_bind].
  unfold look_up_credential_with_key. rewrite Hc, Z.eqb_refl, Htr, Hl. cbn. unfold PublicGroup_group_id. by rewrite Hc.
Qed.

Lemma process_application e i j s now g st pm m t message leaf d : member_of e j s g ->
  priv_group_id pm = gc_group_id (ep_context e) -> priv_epoch pm = gc_epoch (ep_context e) -> priv_content_type pm = ContentApplication ->
  ac_content m = mkFramedContent (gc_group_id (ep_context e)) (gc_epoch (ep_context e)) (Sender_Member i) d (BodyApplication message) ->
  is_leaf_in_tree (ep_tree e) i = true -> TreeSync_leaf (ep_tree e) i = Some leaf ->
  let v := Verifiable_new WirePrivateMessage (FramedContentIn_from (ac_content m)) (Some (ep_encoded_context e)) (ac_auth m) in
  from_inbound_ciphertext pm (gc_ciphersuite (ep_context e)) j (sender_ratchet_configuration (mls_group_config g))
    (current_secrets (message_secrets_store g)) = (Ok v, set_secret_tree t (current_secrets (message_secrets_store g))) ->
  Verifiable_verify v (signature_algorithm (gc_ciphersuite (ep_context e))) (leaf_signature_key (payload leaf)) = Ok (AuthenticatedContentIn_from m) ->
  process now (ProtocolPrivateMessage pm) (g, st) = (Ok (application_from e i d message leaf), (with_secret_tree t g, st)).
Proof.
  intros Hm Eg Ee Et Em Hin Hl v E Hv. pose proof (decrypt_private _ _ _ _ st _ _ _ Hm Eg Ee Et E) as Ed.
  pose proof (parse_application e i j s g (message_secrets_store (with_secret_tree t g)) m message leaf d Hm Em Hin Hl) as Ep. fold v in Ep.
  assert (verifiable_content_type v = ContentApplication) as Ety by (unfold v, verifiable_content_type; cbn; by rewrite Em).
  fold (with_secret_tree t g) in Ed. reach_decryption Hm Et. rewrite Ed. cbn [map_err fst snd]. change (public_group (with_secret_tree t g)) with (public_group g). rewrite Ep, Ety.
  unfold process_unverified_message, verify_unverified, UnverifiedMessage_verify. cbn [unverified_content unverified_pk unverified_credential unverified_context].
  destruct Hm as [Ha Hj Hc Htr _ _ _ _]. unfold MlsGroup_context in Hc.
  change (MlsGroup_ciphersuite (with_secret_tree t g)) with (gc_ciphersuite (group_context (public_group g))).
  change (MlsGroup_group_id (with_secret_tree t g)) with (gc_group_id (group_context (public_group g))). rewrite Hc, Hv.
  unfold AuthenticatedContentIn_validate, FramedContentIn_validate, AuthenticatedContentIn_from. cbn [aci_content]. rewrite Em. done.
Qed.

Lemma create_application e i s pr g st message leaf guard m pm t ready : member_of e i s g ->
  can_send e i (sent s ApplicationSecret) pr g message leaf guard -> new_application i (aad g) message (ep_context e) (content_signer pr) = Ok m ->
  try_from_authenticated_content (Ok guard) m (gc_ciphersuite (ep_context e)) (padding_size (mls_group_config g)) (current_secrets (message_secrets_store g)) =
    (Ok pm, set_secret_tree t (current_secrets (message_secrets_store g))) ->
  SecretTree.tree_ok (gc_ciphersuite (ep_context e)) (sender_ratchet_configuration (mls_group_config g)) (ep_encryption_secret e) (ep_height e) i ready (has_sent s) t ->
  exists st', create_message pr message (g, st) = (Ok (OutPrivate (gc_protocol_version (ep_context e)) pm), (set_aad [] (with_secret_tree t g), st')) /\
    member_of e i (has_sent s) (set_aad [] (with_secret_tree t g)).
Proof.
  intros Hm Hc E Etry Hok. pose proof (member_of_tree _ _ _ _ _ _ _ Hm Hok) as Hm'.
  destruct Hm as [Ha Hi Hgc Htr _ _ _ _]. destruct Hc as [_ _ _ _ Hp [Hd _] _ _].
  eexists. split; [|by destruct Hm'; split].
  unfold create_message, encrypt, on_mls, reset_aad. run. cbn [fst snd]. rewrite Ha, Hp, Hi, Hgc, E. cbn [negb].
  unfold lift_state. cbn [fst snd]. change (MlsGroup_ciphersuite g) with (gc_ciphersuite (MlsGroup_context g)). rewrite Hgc, Hd, Etry. cbn [fst snd].
  unfold Memory.write_message_secrets. rewrite (on_store_ok _ _ _ _ _ _ (put_spec _ _ _ _)). cbn [fst snd].
  change (MlsGroup_version g) with (gc_protocol_version (MlsGroup_context g)). by rewrite Hgc.
Qed.

(** A member sends; the message it made is received by every other member whose window
    covers it, once. *)
Lemma exchange (e : Epoch) i s gi sti pr message leaf guard now :
  epoch_ok e -> member_of e i s gi -> can_send e i (sent s ApplicationSecret) pr gi message leaf guard ->
  exists pm t1 sti', let gi' := set_aad [] (with_secret_tree t1 gi) in
    create_message pr message (gi, sti) = (Ok (OutPrivate (gc_protocol_version (ep_context e)) pm), (gi', sti')) /\ member_of e i (has_sent s) gi' /\
  forall j s' gj stj w, i <> j -> member_of e j s' gj ->
  window_request (sender_ratchet_configuration (mls_group_config gj)) (sent s ApplicationSecret) (windows s' (i, ApplicationSecret)) = (Ok (sent s ApplicationSecret), w) ->
  exists t2, let gj' := with_secret_tree t2 gj in
    process now (ProtocolPrivateMessage pm) (gj, stj) = (Ok (application_from e i (aad gi) message leaf), (gj', stj)) /\
    member_of e j (has_received i w s') gj' /\
    exists err, (process now (ProtocolPrivateMessage pm) (gj', stj)).1 = Err (ProcessValidation (UnableToDecrypt (DecryptionSecretTreeError err))).
Proof.
  intros [Hh Henc] Hi Hc. pose proof Hc as Hc'. destruct Hc' as [Hr Hin Hl Hsig _ _ _ (m & Em & _)].
  destruct (new_application_sendable _ _ _ _ _ _ _ _ _ Hc Em) as (Hsend & Hm & Htag).
  destruct (mo_ratchets _ _ _ _ Hi) as [ready Hoki].
  destruct (sendable_encrypts _ _ _ _ _ _ _ _ _ _ _ _ _ (mo_config _ _ _ _ Hi) Hh Hr Hoki Hsend) as (pm & r1 & t1 & Etry & Hok1).
  rewrite Hm in Hok1. cbn [content_body content_type SecretType_from] in Hok1.
  destruct (create_application e i s pr gi sti message leaf guard m pm t1 r1 Hi Hc Em Etry Hok1) as (sti' & Ecr & Hi').
  exists pm, t1, sti'. cbv zeta. split; [exact Ecr|]. split; [exact Hi'|].
  intros j s' gj stj w Hij Hj Ew. destruct (mo_ratchets _ _ _ _ Hj) as [ready' Hokj]. pose proof (mo_encoded _ _ _ _ Hj) as Hej.
  destruct (private_delivered (gc_ciphersuite (ep_context e)) _ _ _ _ i j ready ready' s s' _ _ m guard (padding_size (mls_group_config gi)) (ep_context e)
    (content_signer pr) (signature_algorithm (gc_ciphersuite (ep_context e))) (leaf_signature_key (payload leaf)) w
    (mo_config _ _ _ _ Hi) (mo_config _ _ _ _ Hj) Hh Hr Hij Hoki Hokj) as (pm' & r1' & t1' & r2 & t2 & Etry' & _ & Eg & Ee & Et & Einb & Hok2 & Hver & err & Hrep).
  { by rewrite (mo_sender_data _ _ _ _ Hj), (mo_sender_data _ _ _ _ Hi). }
  { by rewrite Hej. }
  { exact Hsig. }
  { exact Hsend. }
  { rewrite Hm. exact Ew. }
  assert (pm' = pm) as -> by congruence.
  rewrite Hej in Einb, Hver. rewrite Hm in Hok2, Et. cbn [content_body content_type SecretType_from] in Hok2, Et.
  pose proof (member_of_tree _ _ _ _ _ _ _ Hj Hok2) as Hj'.
  exists t2. cbv zeta. split_and!; [|exact Hj'|].
  - by apply (process_application e i j s' now gj stj pm m t2 message leaf (aad gi)).
  - destruct (from_inbound_ciphertext pm _ j _ (set_secret_tree t2 _)) as [o ms3] eqn:E3 in Hrep. cbn [fst] in Hrep. subst o.
    exists err. by rewrite (process_refused e j _ now (with_secret_tree t2 gj) stj pm _ ms3 Hj' Eg Ee Et E3).
Qed.

(** *** Conversations *)

(** Member [k] of the group sends a message and all others process it; with what each of
    the others was told. *)
Definition broadcast (now : option Z) (k : nat) (pr : Provider) (message : bytes) (cs : list client) :
    option (list (option (outcome ProcessMessageError (ProcessedMessage MemberCommit))) * list client) :=
  c ← cs !! k;
  match create_message pr message c with
  | (Ok (OutPrivate _ pm), c') =>
    let heard := imap (fun n d =>
      if decide (n = k) then (None, c')
      else let '(r, d') := process now (ProtocolPrivateMessage pm) d in (Some r, d')) cs in
    Some (heard.*1, heard.*2)
  | _ => None
  end.

(** A turn of a conversation: who speaks, with what it signs and draws, and the message *)
Record turn := mkTurn { turn_speaker : nat; turn_provider : Provider; turn_message : bytes }.

Fixpoint converse (now : option Z) (turns : list turn) (cs : list client) :
    option (list (list (option (outcome ProcessMessageError (ProcessedMessage MemberCommit)))) * list client) :=
  match turns with
  | [] => Some ([], cs)
  | t :: turns =>
    '(heard, cs) ← broadcast now (turn_speaker t) (turn_provider t) (turn_message t) cs;
    '(rest, cs) ← converse now turns cs;
    Some (heard :: rest, cs)
  end.

(** The members in their seats have heard all that was said in the epoch. *)
Record in_touch (e : Epoch) (seats : list seat) (ss : list senders) (cs : list client) : Prop := {
  it_seats : length ss = length seats /\ length cs = length seats;
  it_member n i leaf config s g st : seats !! n = Some (i, leaf, config) -> ss !! n = Some s -> cs !! n = Some (g, st) ->
    member_of e i s g /\ mls_group_config g = config /\ aad g = [] /\ ProposalStore_is_empty (MlsGroup_proposal_store g) = true;
  it_heard n m i leaf config s s' : n <> m -> seats !! n = Some (i, leaf, config) -> ss !! n = Some s -> ss !! m = Some s' ->
    head (windows s' (i, ApplicationSecret)) = sent s ApplicationSecret
}.

(** The seats are different leaves of the tree. *)
Definition seats_ok (e : Epoch) (seats : list seat) : Prop :=
  NoDup (map (fun p => p.1.1) seats) /\
  forall i leaf config, (i, leaf, config) ∈ seats -> 0 <= i < 2 ^ ep_height e /\ is_leaf_in_tree (ep_tree e) i = true /\ TreeSync_leaf (ep_tree e) i = Some leaf.

(** A turn whose speaker can sign, draws a reuse guard and makes a message that can be encoded *)
Definition turn_ok (e : Epoch) (seats : list seat) (t : turn) : Prop :=
  exists i leaf config guard, seats !! turn_speaker t = Some (i, leaf, config) /\
    signer_for (signature_algorithm (gc_ciphersuite (ep_context e))) (leaf_signature_key (payload leaf)) (content_signer (turn_provider t)) /\
    draw_reuse_guard (turn_provider t) = Ok guard /\ length guard = 4%nat /\
    exists m, new_application i [] (turn_message t) (ep_context e) (content_signer (turn_provider t)) = Ok m /\
      forall n, 0 <= n < u32_MAX ->
        encodable m (gc_ciphersuite (ep_context e)) (padding_size config) {| sd_leaf_index := i; sd_generation := n; sd_reuse_guard := guard |}.

(** What the members are told in a turn *)
Definition heard_by_all (e : Epoch) (seats : list seat) (t : turn) : list (option (outcome ProcessMessageError (ProcessedMessage MemberCommit))) :=
  imap (fun n _ => if decide (n = turn_speaker t) then None else
    (fun '(i, leaf, _) => Ok (application_from e i [] (turn_message t) leaf)) <$> seats !! turn_speaker t) seats.

(** The next generation is inside the window. *)
Lemma window_next conf (w : window) : config_u32 conf -> head w < u32_MAX ->
  window_request conf (head w) w = (Ok (head w), {| head := head w + 1; used := {[ head w ]} ∪ used w |}).
Proof.
  intros [Ht Hm] Hlt. unfold window_request. rewrite Z.leb_refl.
  destruct (Z.ltb_spec (head w) (u32_MAX - maximum_forward_distance conf)); cbn [andb];
    [rewrite (proj2 (Z.ltb_ge _ _)) by lia|]; by rewrite (proj2 (Z.eqb_neq _ _)) by lia.
Qed.

(** The counters after a turn of the speaker in seat [k], at leaf [i] *)
Definition after_turn (k : nat) (i : LeafNodeIndex) (ss : list senders) : list senders :=
  imap (fun n s => if decide (n = k) then has_sent s
    else let w := windows s (i, ApplicationSecret) in has_received i {| head := head w + 1; used := {[ head w ]} ∪ used w |} s) ss.

Definition sending_left (k : Z) (s : senders) : Prop := 0 <= sent s ApplicationSecret /\ sent s ApplicationSecret + k <= u32_MAX.

Lemma other_seat e seats k i leaf config n j leaf' config' : seats_ok e seats -> seats !! k = Some (i, leaf, config) ->
  seats !! n = Some (j, leaf', config') -> n <> k -> i <> j.
Proof.
  intros [Hnd _] Hk Hn Hne ->. apply Hne. eapply (NoDup_lookup _ n k j Hnd); rewrite list_lookup_fmap; [by rewrite Hn|by rewrite Hk].
Qed.

(** The others in a turn *)
Lemma turn_listeners e seats ss cs t i leaf config now s g st :
  epoch_ok e -> seats_ok e seats -> in_touch e seats ss cs -> turn_ok e seats t -> sending_left 1 s ->
  seats !! turn_speaker t = Some (i, leaf, config) -> ss !! turn_speaker t = Some s -> cs !! turn_speaker t = Some (g, st) ->
  exists pm g' st', create_message (turn_provider t) (turn_message t) (g, st) = (Ok (OutPrivate (gc_protocol_version (ep_context e)) pm), (g', st')) /\
    member_of e i (has_sent s) g' /\ mls_group_config g' = config /\ aad g' = [] /\ ProposalStore_is_empty (MlsGroup_proposal_store g') = true /\
    forall n j leaf' config' s' gj stj, n <> turn_speaker t -> seats !! n = Some (j, leaf', config') -> ss !! n = Some s' -> cs !! n = Some (gj, stj) ->
      exists gj', process now (ProtocolPrivateMessage pm) (gj, stj) = (Ok (application_from e i [] (turn_message t) leaf), (gj', stj)) /\
        member_of e j (let w := windows s' (i, ApplicationSecret) in has_received i {| head := head w + 1; used := {[ head w ]} ∪ used w |} s') gj' /\
        mls_group_config gj' = config' /\ aad gj' = [] /\ ProposalStore_is_empty (MlsGroup_proposal_store gj') = true.
Proof.
  intros He Hso Hit (i' & leaf0 & config0 & guard & Hk & Hsig & Hd & Hg & m & Em & Henc) [Hlo Hhi] Hk' Hs Hc.
  rewrite Hk in Hk'. injection Hk' as -> -> ->. destruct Hit as [_ Hmem Hheard].
  destruct (Hmem _ _ _ _ _ _ _ Hk Hs Hc) as (Hm & Hcf & Haad & Hps).
  destruct (proj2 Hso _ _ _ (list_elem_of_lookup_2 _ _ _ Hk)) as (Hr & Hin & Hl).
  assert (can_send e i (sent s ApplicationSecret) (turn_provider t) g (turn_message t) leaf guard) as Hcs.
  { split; try done; [lia|]. exists m. rewrite Haad, Hcf. split; [done|]. apply Henc. lia. }
  destruct (exchange e i s g st _ _ leaf guard now He Hm Hcs) as (pm & t1 & sti' & Ecr & Hm' & Hrecv).
  exists pm, (set_aad [] (with_secret_tree t1 g)), sti'. do 5 (split; [done|]).
  intros n j leaf' config' s' gj stj Hne Hn Hs' Hcn. destruct (Hmem _ _ _ _ _ _ _ Hn Hs' Hcn) as (Hmj & Hcfj & Haadj & Hpsj).
  pose proof (other_seat _ _ _ _ _ _ _ _ _ _ Hso Hk Hn Hne) as Hij.
  pose proof (Hheard _ _ _ _ _ _ _ (not_eq_sym Hne) Hk Hs Hs') as Hh.
  destruct (Hrecv j s' gj stj _ Hij Hmj (ltac:(rewrite <- Hh; apply window_next; [exact (mo_config _ _ _ _ Hmj)|lia]))) as (t2 & Ep & Hmj' & _).
  exists (with_secret_tree t2 gj). rewrite Haad in Ep. do 4 (split; [done|]). done.
Qed.

Lemma after_turn_heard e seats ss cs k i leaf config : seats_ok e seats -> in_touch e seats ss cs -> seats !! k = Some (i, leaf, config) ->
  forall n m j leaf' config' s s', n <> m -> seats !! n = Some (j, leaf', config') -> after_turn k i ss !! n = Some s -> after_turn k i ss !! m = Some s' ->
    head (windows s' (j, ApplicationSecret)) = sent s ApplicationSecret.
Proof.
  intros Hso Hit Hk n m j leaf' config' s s' Hne Hn Hs Hs'. unfold after_turn in Hs, Hs'. rewrite list_lookup_imap in Hs, Hs'.
  destruct (ss !! n) as [o1|] eqn:E1; [|done]. destruct (ss !! m) as [o2|] eqn:E2; [|done]. cbn in Hs, Hs'. injection Hs as <-. injection Hs' as <-.
  pose proof (it_heard _ _ _ _ Hit _ _ _ _ _ _ _ Hne Hn E1 E2) as Ho.
  destruct (decide (n = k)) as [->|Hnk], (decide (m = k)) as [->|Hmk]; cbn [has_sent has_received sent windows]; try done.
  - rewrite Hk in Hn. injection Hn as <- <- <-. rewrite !fn_lookup_insert. cbn [head]. lia.
  - pose proof (other_seat _ _ _ _ _ _ _ _ _ _ Hso Hk Hn Hnk). rewrite fn_lookup_insert_ne by congruence. done.
Qed.

Lemma broadcast_step e seats ss cs t i leaf config now :
  epoch_ok e -> seats_ok e seats -> in_touch e seats ss cs -> turn_ok e seats t -> Forall (sending_left 1) ss ->
  seats !! turn_speaker t = Some (i, leaf, config) ->
  exists cs', broadcast now (turn_speaker t) (turn_provider t) (turn_message t) cs = Some (heard_by_all e seats t, cs') /\
    in_touch e seats (after_turn (turn_speaker t) i ss) cs'.
Proof.
  intros He Hso Hit Ht Hleft Hk. pose proof (it_seats _ _ _ _ Hit) as [Ls Lc].
  pose proof (lookup_lt_Some _ _ _ Hk) as Hlt.
  destruct (lookup_lt_is_Some_2 ss (turn_speaker t)) as [s Hs]; [lia|]. destruct (lookup_lt_is_Some_2 cs (turn_speaker t)) as [[g st] Hc]; [lia|].
  destruct (turn_listeners e seats ss cs t i leaf config now s g st He Hso Hit Ht (Forall_lookup_1 _ _ _ _ Hleft Hs) Hk Hs Hc)
    as (pm & g' & st' & Ecr & Hm' & Hcf & Haad & Hps & Hothers).
  unfold broadcast. rewrite Hc. cbn [mbind option_bind]. rewrite Ecr. cbv zeta.
  set (heard := imap _ cs). exists heard.*2.
  assert (forall n j leaf' config' s' gj stj, seats !! n = Some (j, leaf', config') -> ss !! n = Some s' -> cs !! n = Some (gj, stj) ->
    exists r gj' stj', heard !! n = Some (r, (gj', stj')) /\ heard_by_all e seats t !! n = Some r /\
      member_of e j (default s' (after_turn (turn_speaker t) i ss !! n)) gj' /\
      mls_group_config gj' = config' /\ aad gj' = [] /\ ProposalStore_is_empty (MlsGroup_proposal_store gj') = true) as Hheard.
  { intros n j leaf' config' s' gj stj Hn Hs' Hcn. unfold heard, heard_by_all, after_turn. rewrite !list_lookup_imap, Hn, Hcn, Hs'. cbn.
    destruct (decide (n = turn_speaker t)) as [->|Hne].
    - eexists _, _, _. split; [done|]. split; [done|]. assert (j = i /\ config' = config /\ s' = s) as (-> & -> & ->) by (repeat split; congruence). done.
    - destruct (Hothers n j leaf' config' s' gj stj Hne Hn Hs' Hcn) as (gj' & Ep & Hrest).
      eexists _, gj', stj. rewrite Ep, Hk. split; [done|]. split; [done|]. exact Hrest. }
  assert (length heard = length seats) as Lh by (unfold heard; by rewrite length_imap).
  assert (forall n, (n < length seats)%nat -> exists j leaf' config' s' gj stj, seats !! n = Some (j, leaf', config') /\ ss !! n = Some s' /\ cs !! n = Some (gj, stj)) as Hall.
  { intros n Hn. destruct (lookup_lt_is_Some_2 seats n) as [[[j l'] c'] H1']; [lia|]. destruct (lookup_lt_is_Some_2 ss n) as [s' H2']; [lia|].
    destruct (lookup_lt_is_Some_2 cs n) as [[gj stj] H3']; [lia|]. by eexists _, _, _, _, _, _. }
  split.
  - do 2 f_equal. apply list_eq_same_length with (length seats); [unfold heard_by_all; by rewrite length_imap|by rewrite length_fmap|].
    intros n x y Hn Hx Hy. destruct (Hall n Hn) as (j & l' & c' & s' & gj & stj & H1' & H2' & H3').
    destruct (Hheard _ _ _ _ _ _ _ H1' H2' H3') as (r & gj' & stj' & E1 & E2 & _). rewrite list_lookup_fmap, E1 in Hx. cbn in Hx. congruence.
  - split.
    + unfold after_turn. by rewrite length_imap, length_fmap.
    + intros n j l' c' s' g2 st2 Hn Hs2 Hc2. destruct (Hall n) as (j0 & l0 & c0 & s0 & g0 & st0 & H1' & H2' & H3'); [by eapply lookup_lt_Some|].
      rewrite Hn in H1'. injection H1' as <- <- <-. destruct (Hheard _ _ _ _ _ _ _ Hn H2' H3') as (r & gj' & stj' & E1 & E2 & E3).
      rewrite list_lookup_fmap, E1 in Hc2. cbn in Hc2. injection Hc2 as <- <-. rewrite Hs2 in E3. exact E3.
    + exact (after_turn_heard e seats ss cs (turn_speaker t) i leaf config Hso Hit Hk).
Qed.

(** C4: a conversation gets through turn by turn.  Let the members of an epoch have no
    proposals pending (with pending proposals [create_message] refuses), enough
    generations left in their ratchets, and have heard all that was said so far; let them
    speak in any order and however often, each message being handed to all others before
    the next one speaks.  Then every message is sent, every other member is told that
    message, from that sender, with the sender's credential, in that turn; and the members
    are again in the situation in which they began. *)
Theorem conversation_delivered (e : Epoch) (seats : list seat) (ss : list senders) (cs : list client) (turns : list turn) (now : option Z) :
  epoch_ok e -> seats_ok e seats -> in_touch e seats ss cs -> Forall (turn_ok e seats) turns ->
  Forall (sending_left (Z.of_nat (length turns))) ss ->
  exists cs' ss', converse now turns cs = Some (map (heard_by_all e seats) turns, cs') /\ in_touch e seats ss' cs'.
Proof.
  intros He Hso Hit Hts. revert ss cs Hit. induction Hts as [|t turns Ht _ IH]; intros ss cs Hit Hleft; [by exists cs, ss|].
  cbn [length converse map] in *. pose proof Ht as (i & leaf & config & guard & Hk & _).
  destruct (broadcast_step e seats ss cs t i leaf config now He Hso Hit Ht) as (cs1 & -> & Hit1); [|exact Hk|].
  { eapply Forall_impl; [exact Hleft|]. intros s [??]. split; lia. }
  destruct (IH _ _ Hit1) as (cs2 & ss2 & E & Hit2).
  - apply Forall_lookup_2. intros n s Hs. unfold after_turn in Hs. rewrite list_lookup_imap in Hs.
    destruct (ss !! n) as [o|] eqn:Eo; [|done]. destruct (Forall_lookup_1 _ _ _ _ Hleft Eo) as [??]. cbn in Hs. injection Hs as <-.
    destruct (decide _); split; cbn [has_sent has_received sent]; rewrite ?fn_lookup_insert; lia.
  - exists cs2, ss2. cbn [mbind option_bind]. by rewrite E.
Qed.

(** *** Authenticity *)

Lemma with_message_secrets_frame {E A} epoch (err : E) (c : method MessageSecrets E A) g :
  (with_message_secrets epoch err c g).2 = set_message_store (message_secrets_store (with_message_secrets epoch err c g).2) g.
Proof.
  unfold with_message_secrets. destruct (_ <? _); [destruct (secrets_for_epoch _ _); [destruct (c _)|by destruct g]|destruct (c _)]; done.
Qed.

Lemma framing_group g h : validate_framing g h = Ok tt -> pm_group_id h = PublicGroup_group_id g.
Proof. unfold validate_framing. destruct (bool_decide_reflect (pm_group_id h = PublicGroup_group_id g)); done. Qed.

Lemma public_verifiable pub ms ctx c v : from_inbound_public_message pub ms ctx c = Ok v -> v = into_verifiable_content pub (Some ctx).
Proof. unfold from_inbound_public_message, from_verifiable_content. intros E. apply bind_ok in E as (? & _ & E). repeat case_match; congruence. Qed.

Lemma update_first_leaves {M} epoch (f : M -> M) trees : forall trees' e, update_first epoch f trees = Some trees' ->
  (tree_leaves <$> List.find (fun t => tree_epoch t =? e) trees') = (tree_leaves <$> List.find (fun t => tree_epoch t =? e) trees).
Proof.
  induction trees as [|t trees IH]; intros trees' e E; cbn [update_first] in E; [done|]. destruct (tree_epoch t =? epoch).
  - injection E as <-. cbn [List.find tree_epoch]. by destruct (_ =? _).
  - destruct (update_first epoch f trees) as [trees1|] eqn:E1; [|done]. injection E as <-. cbn [List.find]. destruct (_ =? _); [done|]. by apply IH.
Qed.

(** The members of past epochs stay as they are. *)
Lemma with_message_secrets_leaves {E A} epoch (err : E) (c : method MessageSecrets E A) g e :
  leaves_for_epoch (message_secrets_store (with_message_secrets epoch err c g).2) e = leaves_for_epoch (message_secrets_store g) e.
Proof.
  unfold with_message_secrets. destruct (_ <? _); [destruct (secrets_for_epoch _ _) as [ms|]; [destruct (c ms) as [o ms']|done]|by destruct (c _)].
  cbn [snd message_secrets_store set_message_store]. unfold secrets_for_epoch_mut.
  destruct (update_first epoch (fun _ => ms') (past_epoch_trees (message_secrets_store g))) as [trees|] eqn:Eu; cbn [fmap option_fmap option_map default]; [|done].
  apply (update_first_leaves _ _ _ _ e) in Eu. unfold leaves_for_epoch. cbn [id past_epoch_trees set_trees].
  destruct (List.find _ trees), (List.find _ (past_epoch_trees (message_secrets_store g))); try done. by injection Eu.
Qed.

(** Decryption touches the message secrets only. *)
Lemma decrypt_frame m conf g st o g' st' : on_mls (decrypt_message m conf) (g, st) = (o, (g', st')) ->
  st' = st /\ g' = set_message_store (message_secrets_store g') g /\
  (forall e, leaves_for_epoch (message_secrets_store g') e = leaves_for_epoch (message_secrets_store g) e) /\
  forall v, o = Ok v -> pm_group_id (protocol_header m) = MlsGroup_group_id g /\
    forall pub, m = ProtocolPublicMessage pub -> tbs_wire_format (verifiable_tbs v) = WirePublicMessage.
Proof.
  assert (g = set_message_store (message_secrets_store g) g) as Hg by by destruct g.
  unfold on_mls, decrypt_message. run. cbn [fst snd].
  destruct (validate_framing (public_group g) (protocol_header m)) as [[]|e|] eqn:Ev; [|by intros [= <- <- <-]..].
  apply framing_group in Ev. destruct m as [pm|pub].
  - pose proof (with_message_secrets_frame (priv_epoch pm) (UnableToDecrypt AeadError)
      (from_inbound_ciphertext pm (MlsGroup_ciphersuite g) (own_leaf_index g) conf) g) as Hf.
    pose proof (with_message_secrets_leaves (priv_epoch pm) (UnableToDecrypt AeadError)
      (from_inbound_ciphertext pm (MlsGroup_ciphersuite g) (own_leaf_index g) conf) g) as Hl.
    destruct (with_message_secrets _ _ _ g) as [o1 g1]. cbn [snd] in Hf, Hl. intros [= <- <- <-]. by split_and!.
  - destruct (message_secrets_for_epoch _ _) as [ms| |]; [|by intros [= <- <- <-]..]. intros [= <- <- <-]. split_and!; [done..|].
    intros v Hv. split; [done|]. intros pub' [= <-]. by rewrite (public_verifiable _ _ _ _ _ Hv).
Qed.

(** So does processing, whatever comes of it. *)
Lemma process_frame now m g st o g' st' : process now m (g, st) = (o, (g', st')) -> st' = st /\ g' = set_message_store (message_secrets_store g') g.
Proof.
  assert (g = set_message_store (message_secrets_store g) g) as Hg by by destruct g.
  unfold process_message. run. cbn [fst snd]. destruct (negb (is_active g)); [by intros [= _ <- <-]|]. destruct (_ && _); [by intros [= _ <- <-]|].
  unfold lift_state. destruct (on_mls _ (g, st)) as [o1 [g1 st1]] eqn:Ed. destruct (decrypt_frame _ _ _ _ _ _ _ Ed) as (-> & Hg1 & _).
  destruct o1 as [v|e|]; cbn [map_err fst snd]; [|by intros [= _ <- <-]..].
  destruct (PublicGroup_parse_message _ _ _); [|by intros [= _ <- <-]..]. cbn [map_err].
  destruct (match verifiable_content_type v with ContentCommit => _ | _ => _ end) as [[old leaf]|e|]; by intros [= _ <- <-].
Qed.

Lemma verified_content v scheme pk content : Verifiable_verify v scheme pk = Ok content -> aci_content content = tbs_content (verifiable_tbs v).
Proof. unfold Verifiable_verify. intros E. ok_inv E. by injection E as <-. Qed.

Lemma parse_inv {M} g v (store : option (MessageSecretsStore M)) u : PublicGroup_parse_message g v store = Ok u ->
  unverified_content u = v /\
  (verifiable_content_type v = ContentApplication -> tbs_wire_format (verifiable_tbs v) = WirePrivateMessage /\ is_member (verifiable_sender v) = true) /\
  unverified_context u = sender_context_of g (verifiable_sender v) /\
  message_credential v (look_up_credential_with_key g store (in_epoch (tbs_content (verifiable_tbs v)))) (external_senders (gc_extensions (group_context g))) =
    Ok (unverified_credential u, unverified_pk u).
Proof.
  unfold PublicGroup_parse_message. intros E. apply bind_ok in E as ([] & Ev & E). apply bind_ok in E as ([cr pk] & Ec & E).
  injection E as <-. cbn [unverified_content unverified_credential unverified_pk]. split_and!; [done| |done|done].
  intros Ety. unfold validate_verifiable_content in Ev. rewrite Ety in Ev. apply if_err_ok in Ev as [_ Ev].
  apply if_err_ok in Ev as [Hw Ev]. apply if_err_ok in Ev as [Hs _]. apply negb_false_iff in Hw, Hs. by apply bool_decide_eq_true in Hw.
Qed.

(** Whose key a signature is checked with: of a member, the key of its leaf in the tree when
    the message is of this epoch, else that of the entry with its number in the list of
    the members of that epoch; of an external sender, its entry in the extension of the
    group; of a new member, the key it brings along in its Add proposal or in its path *)
Definition signer_of (g : MlsGroup) (v : VerifiableAuthenticatedContentIn) (credential : Credential) (pk : bytes) : Prop :=
  let content := tbs_content (verifiable_tbs v) in
  match verifiable_sender v with
  | Sender_Member i =>
    if in_epoch content =? MlsGroup_epoch g
    then exists leaf, TreeSync_leaf (treesync (public_group g)) i = Some leaf /\ credential = leaf_credential (payload leaf) /\ pk = leaf_signature_key (payload leaf)
    else exists member, leaves_for_epoch (message_secrets_store g) (in_epoch content) !! Z.to_nat i = Some member /\
      credential = member_credential member /\ pk = member_signature_key member
  | Sender_External i => exists senders, external_senders (gc_extensions (MlsGroup_context g)) = Some senders /\ senders !! Z.to_nat i = Some (credential, pk)
  | NewMemberCommit => exists commit, in_body content = InCommit commit /\ commit_unverified_credential commit = Some (credential, pk)
  | NewMemberProposal => exists p, in_body content = InProposal p /\ add_unverified_credential p = Some (credential, pk)
  end.

(** What is delivered of a signed content: application data as it is, a proposal and a
    commit once validated, the commit staged on the group *)
Definition delivers (now : option Z) (g : MlsGroup) (st : MemoryStorage) (content : FramedContentIn) (r : ProcessedMessage MemberCommit) : Prop :=
  let c := MlsGroup_ciphersuite g in let context := sender_context_of (public_group g) (in_sender content) in
  processed_sender r = in_sender content /\ processed_aad r = in_authenticated_data content /\
  match processed_content r with
  | ApplicationMessage message => in_body content = InApplication message
  | ProposalMessage p | ExternalJoinProposalMessage p => exists p_in, in_body content = InProposal p_in /\
      ProposalIn_validate c context (MlsGroup_version g) p_in = Ok (proposal p) /\ sender p = in_sender content
  | StagedCommitMessage staged => exists commit_in ctx commit m old leaves, in_body content = InCommit commit_in /\ context = Some ctx /\
      CommitIn_validate c ctx (MlsGroup_version g) commit_in = Ok commit /\ member_stage_commit now g st m old leaves = Ok staged /\
      ac_content m = {| content_group_id := in_group_id content; content_epoch := in_epoch content; content_sender := in_sender content;
                        authenticated_data := in_authenticated_data content; content_body := BodyCommit commit |}
  end.

Lemma by_ref_ok c m p : from_authenticated_content_by_ref tls_authenticated_content c m = Ok p -> content_body (ac_content m) = BodyProposal (proposal p) /\ sender p = content_sender (ac_content m).
Proof.
  unfold from_authenticated_content_by_ref, from_authenticated_content. intros E. ok_inv E. destruct (content_body (ac_content m)); [done| |done]. by injection E as <-.
Qed.

(** What a result says of the content that was verified *)
Lemma verified_inv (c : Ciphersuite) gid own epoch stage m cr (r : ProcessedMessage MemberCommit) :
  process_verified_content tls_authenticated_content c gid own epoch stage m cr = Ok r ->
  processed_group_id r = gid /\ processed_sender r = content_sender (ac_content m) /\ processed_credential r = cr /\
  processed_aad r = authenticated_data (ac_content m) /\
  (forall i, content_sender (ac_content m) = Sender_Member i -> processed_epoch r = epoch) /\
  match processed_content r with
  | ApplicationMessage message => content_body (ac_content m) = BodyApplication message
  | ProposalMessage p | ExternalJoinProposalMessage p => content_body (ac_content m) = BodyProposal (proposal p) /\ sender p = content_sender (ac_content m)
  | StagedCommitMessage staged => exists commit, content_body (ac_content m) = BodyCommit commit /\ stage m = Ok staged
  end.
Proof.
  unfold process_verified_content. cbv zeta. pose proof (by_ref_ok c m) as Hq. destruct (content_sender (ac_content m)) as [i|i| |]; intros E;
    destruct (content_body (ac_content m)) as [a|p|co] eqn:Eb; try done; try (destruct p; try done);
    ok_inv E; try (injection E as <-); try match goal with H : from_authenticated_content_by_ref _ _ _ = Ok _ |- _ => destruct (Hq _ H) end;
    ok_inv Hx; try (injection Hx as <-); cbn; split_and!; try done;
    first [by eexists|match goal with H : from_authenticated_content_by_ref _ _ _ = Ok _ |- _ => by destruct (Hq _ H) end|idtac].
Qed.

Lemma unverified_inv now g st u old leaf (r : ProcessedMessage MemberCommit) :
  unverified_context u = sender_context_of (public_group g) (verifiable_sender (unverified_content u)) ->
  process_unverified_message tls_authenticated_content now g st u old leaf = Ok r ->
  processed_group_id r = MlsGroup_group_id g /\ processed_credential r = unverified_credential u /\
  exists content, Verifiable_verify (unverified_content u) (signature_algorithm (MlsGroup_ciphersuite g)) (unverified_pk u) = Ok content /\
    (forall i, processed_sender r = Sender_Member i -> processed_epoch r = in_epoch (aci_content content)) /\ delivers now g st (aci_content content) r.
Proof.
  intros Hctx. unfold process_unverified_message. cbv zeta. intros E. apply bind_ok in E as ([m cr] & Ev & E).
  apply map_err_ok in Ev. unfold verify_unverified, UnverifiedMessage_verify in Ev. apply bind_ok in Ev as (content & Evv & Ev).
  apply map_err_ok in Evv. pose proof (verified_content _ _ _ _ Evv) as Hc. apply bind_ok in Ev as (m' & Eval & Ev). injection Ev as -> ->.
  destruct (verified_inv _ _ _ _ _ _ _ _ E) as (E1 & E2 & E3 & E4 & E5 & E6).
  unfold AuthenticatedContentIn_validate, FramedContentIn_validate in Eval. ok_inv Eval. injection Eval as <-. ok_inv Hx. injection Hx as <-.
  rewrite Hctx in Hx0. unfold verifiable_sender in Hx0. rewrite <- Hc in Hx0.
  cbn [ac_content content_sender content_epoch content_body authenticated_data] in *. split_and!; [done..|]. exists content. split_and!; [done| |].
  - intros i Hi. rewrite E2 in Hi. by rewrite (E5 i).
  - unfold delivers. cbv zeta. split_and!; [done|done|]. unfold FramedContentBodyIn_validate in Hx0.
    destruct (in_body (aci_content content)) as [a|p|co]; [injection Hx0 as <-|ok_inv Hx0; injection Hx0 as <-..];
      destruct (processed_content r) as [message|q|q|staged]; try discriminate E6; try (by destruct E6 as [E6 _]); try (by destruct E6 as (? & E6 & _)).
    + congruence.
    + destruct E6 as [[= <-] Es]. by exists p.
    + destruct E6 as [[= <-] Es]. by exists p.
    + destruct E6 as (commit & [= <-] & Es). destruct (sender_context_of (public_group g) (in_sender (aci_content content))) as [ctx|]; [|discriminate Hx]. injection Hx as ->.
      eexists co, x, x1, _, old, leaf. split; [done|]. split; [done|]. split; [exact Hx1|]. split; [exact Es|done].
Qed.

(** C11: a member only takes in messages that are authentic: whatever message it is handed,
    if it processes it, the message was meant for this group, and its signature verifies
    under the key of the sender that it names: for a member's message of the current
    epoch the key of the sender's leaf in the tree, for one of a past epoch the key of the
    entry with the sender's number in the list of the members that was kept of that
    epoch, for an external sender its key in the extension of the group, for a new member
    the key of its own Add proposal or path; the credential that is reported goes with
    that key.  What is delivered is the content that was signed: its sender, its
    authenticated data and its application data, or its proposal or commit after
    validation.  Application data comes from a member in an encrypted message.
    Nothing changes but the message secrets in memory. *)
Theorem processed_messages_authentic (now : option Z) (m : InboundProtocolMessage) (g g' : MlsGroup) (st st' : MemoryStorage) (r : ProcessedMessage MemberCommit) :
  process now m (g, st) = (Ok r, (g', st')) ->
  is_active g = true /\ st' = st /\ g' = set_message_store (message_secrets_store g') g /\
  pm_group_id (protocol_header m) = MlsGroup_group_id g /\ processed_group_id r = MlsGroup_group_id g /\
  exists v pk content, (decrypt_message m (sender_ratchet_configuration (mls_group_config g)) g).1 = Ok v /\
    Verifiable_verify v (signature_algorithm (MlsGroup_ciphersuite g)) pk = Ok content /\ verifiable_sender v = processed_sender r /\
    signer_of g v (processed_credential r) pk /\ delivers now g' st (tbs_content (verifiable_tbs v)) r /\
    (forall i, processed_sender r = Sender_Member i -> processed_epoch r = in_epoch (tbs_content (verifiable_tbs v))) /\
    (forall message, processed_content r = ApplicationMessage message -> exists pm i, m = ProtocolPrivateMessage pm /\ processed_sender r = Sender_Member i).
Proof.
  unfold process_message. run. cbn [fst snd]. destruct (is_active g); cbn [negb]; [|done]. destruct (_ && _); [done|].
  unfold lift_state. destruct (on_mls _ (g, st)) as [o [g1 st1]] eqn:Ed. destruct (decrypt_frame _ _ _ _ _ _ _ Ed) as (-> & Hg & Hleaves & Hv).
  assert ((decrypt_message m (sender_ratchet_configuration (mls_group_config g)) g).1 = o) as Ho.
  { unfold on_mls, on_part in Ed. cbn [fst] in Ed. destruct (decrypt_message _ _ g). by injection Ed as <- _. }
  destruct o as [v|e|]; [|done..]. cbn [map_err fst snd]. destruct (Hv v eq_refl) as [Hid Hpub].
  destruct (PublicGroup_parse_message (public_group g1) v (Some (message_secrets_store g1))) as [u|e|] eqn:Ep; [|done..].
  destruct (parse_inv _ _ _ _ Ep) as (Hu & Happ & Hctx & Hcred).
  destruct (match verifiable_content_type v with ContentCommit => _ | _ => _ end) as [[old leaf]|e|]; [|done..].
  intros [= Er <- <-]. rewrite <- Hu in Hctx. destruct (unverified_inv _ _ _ _ _ _ _ Hctx Er) as (Egid & Ecr & content & Hver & He & Hd). rewrite Hu in Hver.
  pose proof (verified_content _ _ _ _ Hver) as Hc. rewrite Hc in He, Hd. pose proof Hd as (Hs & _ & Hbody).
  assert (MlsGroup_group_id g1 = MlsGroup_group_id g /\ MlsGroup_ciphersuite g1 = MlsGroup_ciphersuite g) as [E1 E2] by (rewrite Hg; done).
  rewrite E1 in Egid. rewrite E2 in Hver. split_and!; [done..|]. exists v, (unverified_pk u), content. split_and!; [done|done|done| |done|done|].
  - rewrite Ecr. unfold signer_of. cbv zeta. unfold message_credential, look_up_credential_with_key, new_member_credential in Hcred.
    rewrite Hg in Hcred. cbn [public_group set_message_store message_secrets_store] in Hcred. unfold verifiable_sender in *. change (gc_epoch (group_context (public_group g))) with (MlsGroup_epoch g) in Hcred.
    destruct (in_sender (tbs_content (verifiable_tbs v))) as [i|i| |].
    + destruct (_ =? MlsGroup_epoch g).
      * destruct (TreeSync_leaf _ i) as [lf|]; [|done]. injection Hcred as H1' H2'. by exists lf.
      * cbn [mbind option_bind] in Hcred. rewrite Hleaves in Hcred. destruct (leaves_for_epoch _ _ !! _) as [mb|]; [|done]. injection Hcred as H1' H2'. by exists mb.
    + destruct (external_senders _) as [senders|] eqn:Ese; [|done]. cbn in Hcred. exists senders. split; [done|].
      destruct (senders !! Z.to_nat i) as [[cr pk]|]; [|done]. by injection Hcred as -> ->.
    + destruct (in_body _) as [|p|]; try done. exists p. split; [done|]. destruct (add_unverified_credential p) as [[cr pk]|]; [|done]. by injection Hcred as -> ->.
    + destruct (in_body _) as [| |co]; try done. exists co. split; [done|]. destruct (commit_unverified_credential co) as [[cr pk]|]; [|done]. by injection Hcred as -> ->.
  - intros message Hmsg. rewrite Hmsg in Hbody.
    destruct Happ as [Hw Hmem]; [by unfold verifiable_content_type; rewrite Hbody|]. unfold verifiable_sender in Hmem. rewrite <- Hs in Hmem.
    destruct (processed_sender r) as [i|i| |]; try done. destruct m as [pm|pub]; [by exists pm, i|]. specialize (Hpub pub eq_refl). congruence.
Qed.

End Theorems.

(** ** Witnesses *)

Module MessageSamples.

#[local] Instance number_serde (A : Type) `{Countable A} : Serde A | 10 := toy_serde A.
#[local] Instance number_laws (A : Type) `{Countable A} : SerdeLaws A | 10 := toy_serde_laws A.
#[local] Existing Instances toy_bodies toy_framing toy_framing_laws toy_crypto toy_laws toy_aead toy_aead_laws toy_signatures toy_proposal_hashing toy_hashing
  toy_transcripts toy_hpke toy_export toy_psk_labels.

#[local] Instance flat_contexts : ContextEncoding := {| tls_group_context _ := Some [] |}.

Definition sample_epoch : Epoch := {|
  ep_context := group_context (group_over sample_joined); ep_tree := sample_joined; ep_encoded_context := []; ep_sender_data_secret := [86];
  ep_encryption_secret := [89]; ep_height := 2 |}.

(** The member at leaf [i], its leaf and its place *)
Definition joined_leaf (i : LeafNodeIndex) : LeafNode := default new_placeholder (TreeSync_leaf sample_joined i).
Definition sample_seat (i : LeafNodeIndex) : seat := (i, joined_leaf i, mls_group_config (sample_member i)).
Definition sample_seats : list seat := sample_seat <$> [0; 1; 2].
Definition sample_clients : list client := (fun i => (sample_member i, ∅)) <$> [0; 1; 2].

Definition signing_with (key : bytes) : Provider := {|
  commit_provider := sample_provider; content_signer := fun data => Ok (key ++ data); draw_reuse_guard := Ok [1; 2; 3; 4]; current_time := Some 0 |}.

(** Member 0 speaks twice, member 2 answers. *)
Definition sample_turns : list turn := [mkTurn 0 (signing_with [1]) [104; 105]; mkTurn 0 (signing_with [1]) [63]; mkTurn 2 (signing_with [3]) [111; 107]].

Lemma sample_member_of i : member_of sample_epoch i initial_senders (sample_member i).
Proof.
  unfold sample_epoch, sample_member. generalize sample_joined. intros ts.
  split; try reflexivity; [apply sample_config_u32|]. exists []. apply (new_tree_ok _ _ [89] 2); [apply sample_config_u32|apply height_2].
Qed.

Lemma sample_epoch_ok : epoch_ok sample_epoch.
Proof. split; [apply height_2|done]. Qed.

Lemma sample_in_touch : in_touch sample_epoch sample_seats (replicate 3 initial_senders) sample_clients.
Proof.
  split; [done| |].
  - intros n i leaf config s g st Hn Hs Hc.
    apply lookup_replicate in Hs as [-> _]. unfold sample_seats, sample_clients in Hn, Hc. 
    apply list_lookup_fmap_Some in Hn as (a & Hn & Ha), Hc as (a' & [= Hg Hst] & Ha'). assert (a' = a) as -> by congruence.
    unfold sample_seat in Hn. apply pair_eq in Hn as [[-> ->]%pair_eq ->]. subst g.
    split; [apply sample_member_of|]. unfold sample_member. generalize sample_joined. intros ts. split_and!; reflexivity.
  - intros n m i leaf config s s' _ _ Hs Hs'. apply lookup_replicate in Hs as [-> _]. apply lookup_replicate in Hs' as [-> _]. done.
Qed.

Lemma sample_seats_ok : seats_ok sample_epoch sample_seats.
Proof.
  split; [change (NoDup [0; 1; 2]); repeat constructor; set_solver|]. intros i leaf config (a & E & Ha)%list_elem_of_fmap.
  apply pair_eq in E as [[-> ->]%pair_eq _]. change (ep_height sample_epoch) with 2. change (ep_tree sample_epoch) with sample_joined.
  assert (a = 0 \/ a = 1 \/ a = 2) as Hcase by set_solver.
  destruct Hcase as [-> | [-> | ->]]; split_and!; try lia; vm_compute; reflexivity.
Qed.

Lemma sample_signer scheme key : signer_for scheme key (content_signer (signing_with key)).
Proof. intros data signature [= <-]. cbn. by rewrite decide_True. Qed.

Lemma sample_turn_ok k key message : leaf_signature_key (payload (joined_leaf (Z.of_nat k))) = key -> (k < 3)%nat -> turn_ok sample_epoch sample_seats (mkTurn k (signing_with key) message).
Proof.
  intros Hkey Hk. exists (Z.of_nat k), (joined_leaf (Z.of_nat k)), (mls_group_config (sample_member (Z.of_nat k))), [1; 2; 3; 4].
  split; [destruct k as [|[|[|]]]; [done..|lia]|]. split; [rewrite Hkey; apply sample_signer|]. split; [done|]. split; [done|].
  eexists. split; [reflexivity|]. intros n _. split_and!; by eexists.
Qed.

(** Three turns are heard. *)
Lemma conversation_delivered_witness : exists cs' ss',
  converse (fun _ => None) (Some 0) sample_turns sample_clients = Some (map (heard_by_all sample_epoch sample_seats) sample_turns, cs') /\
  in_touch sample_epoch sample_seats ss' cs'.
Proof.
  apply (conversation_delivered (fun _ => None) sample_epoch sample_seats (replicate 3 initial_senders) sample_clients sample_turns (Some 0)).
  - apply sample_epoch_ok.
  - apply sample_seats_ok.
  - apply sample_in_touch.
  - repeat constructor; apply sample_turn_ok; first [vm_compute; reflexivity|lia].
  - apply Forall_replicate. split; [done|]. vm_compute. discriminate.
Defined.

Lemma sample_can_send : can_send sample_epoch 0 0 (signing_with [1]) (sample_member 0) [104; 105] (joined_leaf 0) [1; 2; 3; 4].
Proof.
  destruct (sample_turn_ok 0 [1] [104; 105]) as (i & leaf & config & guard & Hk & Hsig & Hd & Hg & m & Em & Henc); [vm_compute; reflexivity|lia|].
  apply (inj Some), pair_eq in Hk as [[<- <-]%pair_eq <-]. injection Hd as <-.
  destruct (proj2 sample_seats_ok 0 (joined_leaf 0) (mls_group_config (sample_member 0))) as (Hr & Hin & Hl); [apply list_elem_of_fmap; exists 0; by split; [|left]|].
  split; try assumption; [by split|]. exists m. split; [exact Em|]. apply Henc. by split.
Qed.

(** A message of member 0 that member 1 processes *)
Lemma processed_messages_authentic_witness : exists pm r g',
  process_message (fun _ => None) (Some 0) (ProtocolPrivateMessage pm) (sample_member 1, ∅) = (Ok r, (g', ∅)) /\
  processed_content r = ApplicationMessage [104; 105] /\ processed_sender r = Sender_Member 0 /\ g' = set_message_store (message_secrets_store g') (sample_member 1) /\
  exists v pk content, @Verifiable_verify _ _ toy_signatures v (signature_algorithm (MlsGroup_ciphersuite (sample_member 1))) pk = Ok content.
Proof.
  destruct (exchange (fun _ => None) sample_epoch 0 initial_senders (sample_member 0) ∅ (signing_with [1]) [104; 105] (joined_leaf 0) [1; 2; 3; 4] (Some 0)
    sample_epoch_ok (sample_member_of 0) sample_can_send) as (pm & t1 & st1 & _ & _ & Hrecv).
  destruct (Hrecv 1 initial_senders (sample_member 1) ∅ _ ltac:(discriminate) (sample_member_of 1) eq_refl) as (t2 & Ep & _).
  destruct (processed_messages_authentic (fun _ => None) (Some 0) (ProtocolPrivateMessage pm) (sample_member 1) _ ∅ ∅ _ Ep)
    as (_ & _ & Hg & _ & _ & v & pk & content & _ & Hv & _).
  eexists pm, _, _. split; [exact Ep|]. split; [reflexivity|]. split; [reflexivity|]. split; [exact Hg|]. exists v, pk, content. exact Hv.
Defined.

End MessageSamples.
