(* ===== verification/GroupPersistence.v ===== *)
(** * Groups of a client in the store

    The operations of [GroupState] and [process_message] of [GroupMessages] on the
    group in memory and its copy in the store.  The store mirrors the group but for
    the message secrets, whatever a client does; the message secrets are as in memory
    until a message is processed, and again after a merge.  The life cycle of a group
    and what merging a commit does to it are here too. *)

From Stdlib Require Import String.
From S2P Require Import Prelude TreeMath Crypto Tls BinaryTree SenderRatchet SecretTree LeafNodes Nodes TreeSyncDiff TreeHash UpdatePaths TreeKem TreeSync EpochStores Proposals PublicGroup Validation Storage Commits KeySchedule Members Framing GroupState Countables Agreement GroupMessages.

Section Persist.
Context `{!Serde bytes} `{!SerdeLaws bytes} `{!Serde Z} `{!SerdeLaws Z} `{!Serde TreeSync} `{!SerdeLaws TreeSync}.
Context `{!Serde GroupContext} `{!SerdeLaws GroupContext} `{!Serde InterimTranscriptHash} `{!SerdeLaws InterimTranscriptHash}.
Context `{!Serde ConfirmationTag} `{!SerdeLaws ConfirmationTag} `{!Serde QueuedProposal} `{!SerdeLaws QueuedProposal}.
Context `{!Serde (bytes * bytes)} `{!SerdeLaws (bytes * bytes)} `{!Serde (list bytes)} `{!SerdeLaws (list bytes)} `{!JsonArrays bytes bytes}.
Context `{!Serde GroupEpochSecrets} `{!SerdeLaws GroupEpochSecrets} `{!Serde LeafNode} `{!SerdeLaws LeafNode}.
Context `{!Serde (MessageSecretsStore MessageSecrets)} `{!SerdeLaws (MessageSecretsStore MessageSecrets)}.
Context `{!Serde (ResumptionPskStore Secret)} `{!SerdeLaws (ResumptionPskStore Secret)} `{!Serde MlsGroupJoinConfig} `{!SerdeLaws MlsGroupJoinConfig}.
Context `{!Serde MlsGroupState} `{!SerdeLaws MlsGroupState} `{!Serde StoredKeyPair} `{!SerdeLaws StoredKeyPair}.
Context `{!Serde (list EncryptionKeyPair)} `{!SerdeLaws (list EncryptionKeyPair)}.

Lemma elem_of_List_filter {A : Type} (p : A -> bool) l x : x ∈ List.filter p l <-> x ∈ l /\ p x = true.
Proof. by rewrite !list_elem_of_In, filter_In. Qed.

(** *** Operations that only add to the group *)

(** Entries no part of the mirror is in *)
Lemma mirrors_insert st g l k v : bool_decide (l ∈ [MESSAGE_SECRETS_LABEL; ENCRYPTION_KEY_PAIR_LABEL]) = true ->
  mirrors st g -> mirrors (<[build_key_from_vec l k := v]> st) g.
Proof.
  intros Hl%bool_decide_eq_true [Mt Mg Mc Mi Mq Ms Mx Mr Mf Mst Ml Mk Mp]. apply list_elem_of_In in Hl. repeat destruct Hl as [<-|Hl]; try destruct Hl.
  all: split; try (by other_label); try done; try by apply queue_holds_insert.
  all: intros Hact; destruct (Mk Hact) as [pairs E]; exists pairs; by other_label.
Qed.

(** Parts of the group that are not in the mirror *)
Lemma mirrors_ms st g ms : mirrors st (set_message_store ms g) <-> mirrors st g.
Proof. split; intros [Mt Mg Mc Mi Mq Ms Mx Mr Mf Mst Ml Mk Mp]; by split. Qed.
Lemma mirrors_aad st g x : mirrors st (set_aad x g) <-> mirrors st g.
Proof. split; intros [Mt Mg Mc Mi Mq Ms Mx Mr Mf Mst Ml Mk Mp]; by split. Qed.

Definition references (g : MlsGroup) : list ProposalRef := map proposal_reference (MlsGroup_proposal_store g).

(** An operation appends to the proposals of the group.  It keeps the mirror when
    the references of the proposals are different, and when it succeeds it leaves no
    message secrets behind that are not stored. *)
Record keeps {E A : Type} (c : method client E A) (s : client) : Prop := {
  ke_id : MlsGroup_group_id (c s).2.1 = MlsGroup_group_id s.1;
  ke_prefix : MlsGroup_proposal_store s.1 `prefix_of` MlsGroup_proposal_store (c s).2.1;
  ke_mirrors : mirrors s.2 s.1 -> NoDup (references (c s).2.1) -> mirrors (c s).2.2 (c s).2.1 /\
    forall x, (c s).1 = Ok x -> secrets_stored s.2 s.1 -> secrets_stored (c s).2.2 (c s).2.1
}.

Lemma references_prefix g g' : MlsGroup_proposal_store g `prefix_of` MlsGroup_proposal_store g' -> NoDup (references g') -> NoDup (references g).
Proof. intros [l E] Hd. unfold references in *. rewrite E, map_app in Hd. by apply NoDup_app in Hd as [? _]. Qed.

Lemma keeps_bind {E A B : Type} (c : method client E A) (k : A -> method client E B) s :
  keeps c s -> (forall x s', c s = (Ok x, s') -> MlsGroup_group_id s'.1 = MlsGroup_group_id s.1 -> keeps (k x) s') -> keeps (c ≫= k) s.
Proof.
  intros [Ci Cp Cm] Hk. unfold mbind, method_bind. destruct (c s) as [[x|e|] s'] eqn:E0; cbn [fst snd] in *.
  2,3: split; unfold mbind, method_bind; rewrite E0; [done..|intros Hm Hd; split; [by apply Cm|done]].
  destruct (Hk x s' eq_refl Ci) as [Ki Kp Km]. split; unfold mbind, method_bind; rewrite E0.
  - congruence.
  - by etrans.
  - intros Hm Hd. destruct (Cm Hm) as [Hm' Cs]; [by eapply references_prefix|]. destruct (Km Hm' Hd) as [Hm'' Ks]. split; [done|].
    intros y Ey Hs. eapply Ks; [done|]. by eapply Cs.
Qed.

(** A call that leaves the group and the store as they are *)
Lemma keeps_pure {E A : Type} (c : method client E A) s : (c s).2 = s -> keeps c s.
Proof. intros Es. split; rewrite ?Es; done. Qed.

Lemma keeps_lift_state {E F A : Type} (f : E -> F) (c : method client E A) s : keeps c s -> keeps (lift_state f c) s.
Proof.
  intros [Ci Cp Cm]. split; unfold lift_state; destruct (c s) as [o s']; cbn [fst snd] in *; try done.
  intros Hm Hd. destruct (Cm Hm Hd) as [? Cs]. split; [done|]. intros x Ex. destruct o; [|done..]. by eapply Cs.
Qed.

Lemma keeps_aad {E : Type} x s : keeps (on_mls (E := E) (modify (set_aad x))) s.
Proof. split; try done. intros Hm _. split; [by apply mirrors_aad|done]. Qed.

Lemma queue_proposal_total (st : MemoryStorage) (g r : bytes) (p : QueuedProposal) l : stored_list st (entry PROPOSAL_QUEUE_REFS_LABEL g) l ->
  (Memory.queue_proposal g r p st).1 = Ok tt.
Proof.
  intros Hl. unfold Memory.queue_proposal, or_fail, Memory.write. run. rewrite !to_vec_encode. erewrite append_spec; [done|].
  unfold stored_list. rewrite lookup_insert_ne by (apply keys_differ; reflexivity). exact Hl.
Qed.

Lemma keeps_same {E A : Type} (c c' : method client E A) s : c s = c' s -> keeps c' s -> keeps c s.
Proof. intros Es [Ci Cp Cm]. by split; rewrite Es. Qed.

(** Calls that read the state and calls of other components *)
Lemma keeps_get {E A : Type} (k : client -> method client E A) s : keeps (k s) s -> keeps (get ≫= k) s.
Proof. by apply keeps_same. Qed.

Lemma keeps_lift {E A B : Type} (o : outcome E A) (k : A -> method client E B) s : (forall x, o = Ok x -> keeps (k x) s) -> keeps (lift o ≫= k) s.
Proof.
  intros Hk. apply keeps_bind; [by apply keeps_pure|]. intros x s' Ex _. injection Ex as Ex <-. by apply Hk.
Qed.

(** Appends to the proposals in the store and in memory *)
Lemma keeps_queue {E : Type} (f : MemoryStorageError -> E) (p : QueuedProposal) s :
  keeps (on_store f (Memory.queue_proposal (MlsGroup_group_id s.1) (proposal_reference p : bytes) p);;
         on_mls (modify (fun g => set_group_proposals (ProposalStore_add p (MlsGroup_proposal_store g)) g))) s.
Proof.
  destruct s as [g st]. set (c := _ ≫= _). cbn [fst snd] in *.
  set (o := (Memory.queue_proposal (MlsGroup_group_id g) (proposal_reference p : bytes) p st).1).
  set (st' := (Memory.queue_proposal (MlsGroup_group_id g) (proposal_reference p : bytes) p st).2).
  assert (Hc : (c (g, st)).2 = (match o with Ok _ => set_group_proposals (MlsGroup_proposal_store g ++ [p]) g | _ => g end, st')).
  { unfold o, st', c, on_store, lift_state, on_mls. run. cbn [fst snd]. by destruct (Memory.queue_proposal _ _ _ st) as [[] ?]. }
  split; rewrite Hc; cbn [fst snd].
  - by destruct o.
  - destruct o; [|done..]. by exists [p].
  - intros Hm. unfold o. rewrite (queue_proposal_total _ _ _ _ _ (qh_refs _ _ _ (mi_proposals _ _ Hm))). intros Hd.
    destruct (queue_proposal_spec st (MlsGroup_group_id g) (referenced (MlsGroup_proposal_store g)) (proposal_reference p : bytes) p) as (st1 & E1 & Hq & Hk).
    { exact (mi_proposals _ _ Hm). }
    { rewrite referenced_refs. change (NoDup (map proposal_reference (MlsGroup_proposal_store g ++ [p]))) in Hd. rewrite map_app in Hd. apply NoDup_app in Hd as (_ & Hd & _). intros Hin. apply (Hd _ Hin). by left. }
    unfold st'. rewrite E1. cbn [snd].
    assert (Hk' : forall l k, bool_decide (l ∈ labels) && negb (bool_decide (l = QUEUED_PROPOSAL_LABEL)) && negb (bool_decide (l = PROPOSAL_QUEUE_REFS_LABEL)) = true ->
      st1 !! build_key_from_vec l k = st !! build_key_from_vec l k).
    { intros l k [[Hl Hne]%andb_true_iff Hne']%andb_true_iff. apply Hk; apply keys_differ; by rewrite Hl, ?Hne, ?Hne'. }
    destruct Hm as [Mt Mg Mc Mi Mq Ms Mx Mr Mf Mst Ml Mk Mp]. split.
    + split; try done; try (unfold holds, stored_list, entry in *; by rewrite Hk').
      * change (queue_holds st1 (MlsGroup_group_id g) (referenced (MlsGroup_proposal_store g ++ [p]))). unfold referenced. rewrite map_app. exact Hq.
      * intros Hact. destruct (Mk Hact) as [pairs Ep]. exists pairs. unfold epoch_entry in *. by rewrite Hk'.
    + intros _ _ Hs. unfold secrets_stored, holds, entry in *. by rewrite Hk'.
Qed.

Lemma keeps_pair {E A : Type} (c d : method client E ()) (k : () -> method client E A) (s : client) : keeps (c;; d) s ->
  (forall s', MlsGroup_group_id s'.1 = MlsGroup_group_id s.1 -> keeps (k tt) s') -> keeps (c;; d ≫= k) s.
Proof.
  intros Hc Hk. eapply keeps_same; [|eapply (keeps_bind _ k); [exact Hc|intros [] s' _; apply Hk]].
  unfold mbind, method_bind. by destruct (c s) as [[] ?].
Qed.

Lemma keeps_queue_then {E A : Type} (f : MemoryStorageError -> E) (p : QueuedProposal) (id : bytes) (k : () -> method client E A) (s : client) :
  id = MlsGroup_group_id s.1 -> (forall s', MlsGroup_group_id s'.1 = id -> keeps (k tt) s') ->
  keeps (on_store f (Memory.queue_proposal id (proposal_reference p : bytes) p);;
         on_mls (modify (fun g => set_group_proposals (ProposalStore_add p (MlsGroup_proposal_store g)) g)) ≫= k) s.
Proof. intros -> Hk. apply keeps_pair; [apply keeps_queue|done]. Qed.

(** [encrypt] writes the message secrets it changes. *)
Section Sending.
Context `{!InboundBodies} `{!FramingEncoding} `{!ContextEncoding} `{!OpenMlsCrypto} `{!AeadProvider} `{!ProposalHashing}.
Context (tls_authenticated_content : AuthenticatedContent -> option bytes).

Lemma keeps_encrypt pr m s : keeps (encrypt pr m) s.
Proof.
  destruct s as [g st]. unfold encrypt. split; unfold on_mls; run; cbn [fst snd];
    (destruct (try_from_authenticated_content _ _ _ _ _) as [[msg|e|] ms]; cbn [fst snd];
     [unfold Memory.write_message_secrets; rewrite (on_store_ok _ _ _ _ _ _ (put_spec _ _ _ _)); cbn [fst snd]|..]); try done.
  - intros Hm _. split; [by apply mirrors_insert, mirrors_ms|]. intros _ _ _. unfold secrets_stored, holds, entry. by rewrite lookup_insert_eq.
  - intros Hm _. split; [by apply mirrors_ms|done].
  - intros Hm _. split; [by apply mirrors_ms|done].
Qed.

Lemma keeps_content pr m s : keeps (content_to_mls_message pr m) s.
Proof.
  unfold content_to_mls_message. apply keeps_get. case_match.
  - apply keeps_bind; [apply keeps_lift_state, keeps_encrypt|]. intros ? ? _ _. by apply keeps_pure.
  - apply keeps_bind; [apply keeps_pure; by case_match|]. intros ? ? _ _. by apply keeps_pure.
Qed.

Ltac keep := repeat match goal with
  | |- keeps (get ≫= _) _ => apply keeps_get
  | |- keeps (lift _ ≫= _) _ => apply keeps_lift; intros ? ?
  | |- keeps (lift_state _ _) _ => apply keeps_lift_state
  | |- keeps (on_mls (modify (set_aad _))) _ => apply keeps_aad
  | |- keeps (content_to_mls_message _ _) _ => apply keeps_content
  | |- keeps (encrypt _ _) _ => apply keeps_encrypt
  | |- keeps (on_store _ (Memory.queue_proposal _ _ _) ≫= _) _ => apply keeps_queue_then; [done|intros ? ?]
  | |- keeps (on_store _ _ ≫= _) _ => fail 1
  | |- keeps (mret _) _ => by apply keeps_pure
  | |- keeps (fail _) _ => by apply keeps_pure
  | |- keeps (match _ with _ => _ end) _ => case_match
  | |- keeps (_ ≫= _) _ => apply keeps_bind; [|intros ? ? ? ?]
  end.

Lemma keeps_message pr m s : keeps (create_message pr m) s.
Proof. unfold create_message, reset_aad. keep. Qed.

Lemma keeps_queue_and_send {E : Type} (library : LibraryError -> E) storage pr content t s :
  keeps (queue_and_send tls_authenticated_content library storage pr content t) s.
Proof. unfold queue_and_send, reset_aad. keep. Qed.

Lemma keeps_leave pr s : keeps (leave_group tls_authenticated_content pr) s.
Proof. unfold leave_group, reset_aad. keep. Qed.

Lemma keeps_propose_by {F : Type} (error : F -> ProposalError) create t pr s : keeps (propose_by tls_authenticated_content error create t pr) s.
Proof. unfold propose_by. keep. apply keeps_queue_and_send. Qed.

Lemma keeps_propose_add pr kp s : keeps (propose_add_member tls_authenticated_content pr kp) s.
Proof. unfold propose_add_member. keep. apply keeps_queue_and_send. Qed.

Lemma keeps_propose_remove pr i s : keeps (propose_remove_member tls_authenticated_content pr i) s.
Proof. unfold propose_remove_member. keep. apply keeps_queue_and_send. Qed.

(** [LeafNode::update] writes a key pair. *)
Lemma keeps_leaf_update pr leaf p s : keeps (on_part snd (fun st s => (s.1, st)) (LeafNode_update pr leaf p)) s.
Proof.
  destruct s as [g st]. unfold LeafNode_update, EncryptionKeyPair_write, Memory.write_encryption_key_pair.
  destruct (draw_leaf_keypair pr) as [kp|e|] eqn:Ed; [|by apply keeps_pure..].
  set (c := on_part _ _ _).
  assert (Hc : (c (g, st)).2 = (g, <[entry ENCRYPTION_KEY_PAIR_LABEL (kp.1 : bytes) := encode (mkStoredKeyPair kp)]> st)).
  { unfold c. run. unfold lift_state. rewrite put_unwrap_spec. cbn [fst snd]. run. by destruct (sign_leaf _ _). }
  split; rewrite Hc; cbn [fst snd]; try done. intros Hm _. split; [by apply mirrors_insert|].
  intros _ _ Hs. unfold secrets_stored in *. by other_label.
Qed.

Lemma keeps_append {E : Type} (f : MemoryStorageError -> E) (leaf : LeafNode) (s : client) :
  keeps (on_store f (Memory.append_own_leaf_node (MlsGroup_group_id s.1) leaf);; on_mls (modify (fun g => set_own_leaf_nodes (own_leaf_nodes g ++ [leaf]) g))) s.
Proof.
  destruct s as [g st]. set (c := on_store f _ ≫= _).
  assert (Hg : forall x, MlsGroup_group_id (c x).2.1 = MlsGroup_group_id x.1 /\ MlsGroup_proposal_store (c x).2.1 = MlsGroup_proposal_store x.1).
  { intros x. unfold c, on_store, lift_state, on_mls. run. by destruct (Memory.append_own_leaf_node _ _ _) as [[] ?]. }
  split.
  - apply Hg.
  - by rewrite (proj2 (Hg _)).
  - intros Hm _. cbn [fst snd] in *.
    assert (Hc : c (g, st) = (Ok tt, (set_own_leaf_nodes (own_leaf_nodes g ++ [leaf]) g,
      <[entry OWN_LEAF_NODES_LABEL (MlsGroup_group_id g) := encode (map encode (own_leaf_nodes g) ++ [encode leaf])]> st))).
    { unfold c. unfold mbind at 1, method_bind at 1. erewrite on_store_ok; [|unfold Memory.append_own_leaf_node, or_fail; run; rewrite !to_vec_encode; apply append_spec, (mi_leaves _ _ Hm)].
      done. }
    rewrite Hc. cbn [fst snd]. destruct Hm as [Mt Mg Mc Mi Mq Ms Mx Mr Mf Mst Ml Mk Mp]. split.
    + split; try (by other_label); try done.
      * by apply queue_holds_insert.
      * unfold stored_list, entry. rewrite lookup_insert_eq, from_slice_encode. cbn [own_leaf_nodes set_own_leaf_nodes]. by rewrite map_app.
    + intros _ _ Hs. unfold secrets_stored in *. by other_label.
Qed.

Lemma keeps_self_update pr p s : keeps (create_self_update pr p) s.
Proof.
  unfold create_self_update. keep; [apply keeps_leaf_update|]. apply keeps_pair; [|intros; keep].
  match goal with E : MlsGroup_group_id _ = _ |- _ => rewrite <- E end. apply keeps_append.
Qed.

Lemma keeps_propose_update pr p s : keeps (propose_self_update tls_authenticated_content pr p) s.
Proof. unfold propose_self_update. keep; [apply keeps_self_update|apply keeps_queue_and_send]. Qed.

Lemma keeps_propose pr p t s : keeps (propose tls_authenticated_content pr p t) s.
Proof.
  unfold propose, propose_add_member_by_value, propose_remove_member_by_credential_by_value, propose_remove_member_by_value, propose_external_psk,
    propose_external_psk_by_value, propose_custom_proposal_by_value, propose_custom_proposal_by_reference, propose_remove_member_by_credential.
  keep; (apply keeps_propose_by || apply keeps_propose_add || apply keeps_propose_remove || apply keeps_propose_update).
Qed.


Lemma mirrors_rewrite st g : mirrors st g -> mirrors (<[entry GROUP_STATE_LABEL (MlsGroup_group_id g) := encode (group_state g)]> st) g.
Proof.
  intros Hm. pose proof (mirrors_state st g (group_state g)) as Hw. replace (set_group_state (group_state g) g) with g in Hw by (by destruct g).
  apply Hw; [|done..]. exact (mi_pending _ _ Hm).
Qed.

Lemma keeps_write_state s : keeps write_state s.
Proof.
  destruct s as [g st]. split; rewrite write_state_spec; cbn [fst snd]; try done.
  intros Hm _. split; [by apply mirrors_rewrite|]. intros _ _ Hs. unfold secrets_stored in *. by other_label.
Qed.

(** The pending commit of an active group *)
Lemma keeps_set_state {E : Type} (f : MemoryStorageError -> E) x s :
  (forall sc, pending_commit (set_group_state x s.1) = Some sc -> gc_group_id (commit_context sc) = MlsGroup_group_id s.1) -> is_active s.1 = true ->
  keeps (on_mls (modify (set_group_state x));; lift_state f write_state) s.
Proof.
  intros Hp Hact. destruct s as [g st]. set (c := _ ≫= _).
  assert (Hc : c (g, st) = (Ok tt, (set_group_state x g, <[entry GROUP_STATE_LABEL (MlsGroup_group_id g) := encode x]> st))).
  { unfold c, on_mls. run. cbn [fst snd]. by rewrite (proj2 (lift_state_ok _ _ _ _ _) (write_state_spec _ _)). }
  split; rewrite Hc; cbn [fst snd] in *; try done. intros Hm _. split.
  - apply mirrors_state; [done| |done]. intros E'. unfold is_active in Hact. by rewrite E' in Hact.
  - intros _ _ Hs. unfold secrets_stored in *. by other_label.
Qed.

Context `{!TreeHashing} `{!TranscriptEncoding} `{!OpenMlsHpke} `{!PskEncoding} `{!Serde Psk} `{!Serde PskBundle}.
Context (map_order : gmap LeafNodeIndex FilterMember -> list (LeafNodeIndex * FilterMember)).

Lemma keeps_stage pr b s : gc_group_id (commit_context (built_staged_commit b)) = MlsGroup_group_id s.1 -> is_active s.1 = true ->
  keeps (builder_stage_commit pr b) s.
Proof.
  intros Hid Hact. unfold builder_stage_commit, reset_aad. apply keeps_pair.
  - apply keeps_set_state; [|done]. by intros sc [= <-].
  - intros s' _. keep.
Qed.

Lemma keeps_commit pr stage s : is_active s.1 = true -> keeps (commit_with map_order pr stage) s.
Proof.
  intros Hact. unfold commit_with. keep. apply keeps_stage; [|done].
  match goal with E : map_err _ (build_internal _ _ _ _ _ _) = Ok _ |- _ => apply map_err_ok in E; by apply build_internal_id in E end.
Qed.

Lemma operational_active g (f : MlsGroupStateError -> CommitError) x : map_err f (is_operational g) = Ok x -> is_active g = true.
Proof. unfold is_operational, is_active. by destruct (group_state g). Qed.

Ltac keep_commit := unfold reset_aad; keep; try (apply keeps_commit; by eapply operational_active); try apply keeps_write_state.

Lemma keeps_commit_pending pr s : keeps (commit_to_pending_proposals map_order pr) s.
Proof. unfold commit_to_pending_proposals. keep_commit. Qed.
Lemma keeps_add_members pr kps force s : keeps (add_members_internal map_order pr kps force) s.
Proof. unfold add_members_internal. keep_commit. Qed.
Lemma keeps_remove_members pr l s : keeps (remove_members map_order pr l) s.
Proof. unfold remove_members. keep_commit. Qed.
Lemma keeps_update pr p s : keeps (self_update map_order pr p) s.
Proof. unfold self_update. keep_commit. Qed.
Lemma keeps_extensions pr es s : keeps (update_group_context_extensions map_order pr es) s.
Proof. unfold update_group_context_extensions. keep_commit. Qed.


(** *** Operations that replace parts of the group *)

Definition kept {E A : Type} (c : method client E A) (s : client) : Prop :=
  mirrors s.2 s.1 -> NoDup (references (c s).2.1) -> mirrors (c s).2.2 (c s).2.1 /\
    (forall x, (c s).1 = Ok x -> secrets_stored s.2 s.1 -> secrets_stored (c s).2.2 (c s).2.1).

Lemma keeps_kept {E A : Type} (c : method client E A) s : keeps c s -> kept c s.
Proof. by intros []. Qed.

Lemma kept_store_pending p s : kept (store_pending_proposal p) s.
Proof. apply keeps_kept. unfold store_pending_proposal. apply keeps_get, keeps_queue. Qed.

Lemma kept_clear_commit s : kept clear_pending_commit s.
Proof.
  destruct s as [g st]. destruct (clear_pending_commit_spec g st) as (st' & E & Hm' & Hk). intros Hm _. rewrite E. cbn [fst snd] in *. split; [by apply Hm'|].
  intros _ _ Hs. unfold secrets_stored, holds, entry in *. rewrite Hk; [done|known_label|done].
Qed.

(** The proposals of the group when those in the store are replaced *)
Lemma mirrors_proposals st st' g l : queue_holds st' (MlsGroup_group_id g) (referenced l) ->
  (forall label k, bool_decide (label ∈ labels) && negb (bool_decide (label = QUEUED_PROPOSAL_LABEL)) && negb (bool_decide (label = PROPOSAL_QUEUE_REFS_LABEL)) = true ->
     st' !! build_key_from_vec label k = st !! build_key_from_vec label k) ->
  mirrors st g -> mirrors st' (set_group_proposals l g) /\ (secrets_stored st g -> secrets_stored st' (set_group_proposals l g)).
Proof.
  intros Hq Hk [Mt Mg Mc Mi Mq Ms Mx Mr Mf Mst Ml Mk Mp]. split; [split|]; try done; try (unfold holds, stored_list, entry in *; by rewrite Hk).
  - intros Hact. destruct (Mk Hact) as [pairs Ep]. exists pairs. unfold epoch_entry in *. by rewrite Hk.
  - intros Hs. unfold secrets_stored, holds, entry in *. by rewrite Hk.
Qed.

Lemma queue_frame (st st' : MemoryStorage) (id : bytes) (r : option bytes) :
  (forall k, (forall r', r = Some r' -> k <> entry QUEUED_PROPOSAL_LABEL (id, r')) -> k <> entry PROPOSAL_QUEUE_REFS_LABEL id -> st' !! k = st !! k) ->
  forall label k, bool_decide (label ∈ labels) && negb (bool_decide (label = QUEUED_PROPOSAL_LABEL)) && negb (bool_decide (label = PROPOSAL_QUEUE_REFS_LABEL)) = true ->
    st' !! build_key_from_vec label k = st !! build_key_from_vec label k.
Proof.
  intros Hk label k [[Hl Hne]%andb_true_iff Hne']%andb_true_iff. apply Hk; [intros r' _|]; apply keys_differ; by rewrite Hl, ?Hne, ?Hne'.
Qed.

Lemma remove_store_spec (r : ProposalRef) (l : ProposalStore) : NoDup (map proposal_reference l) ->
  match ProposalStore_remove r l with
  | Some l' => referenced l' = List.filter (fun x => bool_decide (x.1 <> (r : bytes))) (referenced l)
  | None => referenced l = List.filter (fun x => bool_decide (x.1 <> (r : bytes))) (referenced l)
  end.
Proof.
  induction l as [|p l IH]; [done|]. cbn [map ProposalStore_remove referenced List.filter fst]. intros [Hn Hd]%NoDup_cons. specialize (IH Hd).
  change (map _ l) with (referenced l) at 2 3. destruct (bool_decide (proposal_reference p = r)) eqn:Eb.
  - apply bool_decide_eq_true in Eb. rewrite bool_decide_false by tauto.
    destruct (ProposalStore_remove r l) as [l'|] eqn:Er; [|done]. exfalso. apply Hn. rewrite Eb. clear -Er.
    revert l' Er. induction l as [|q l IH]; [done|]. cbn. destruct (bool_decide (proposal_reference q = r)) eqn:E; [apply bool_decide_eq_true in E as ->; by left|].
    intros l' Er. destruct (ProposalStore_remove r l); [|done]. right. by eapply IH.
  - apply bool_decide_eq_false in Eb. rewrite bool_decide_true by done. destruct (ProposalStore_remove r l) as [l'|] eqn:Er; cbn; by f_equal.
Qed.

Lemma kept_clear_proposals s : kept clear_pending_proposals s.
Proof.
  destruct s as [g st]. intros Hm _. unfold clear_pending_proposals, on_mls. run. cbn [fst snd] in *.
  destruct (negb _); [|by split]. destruct (clear_proposal_queue_spec _ _ _ (mi_proposals _ _ Hm)) as (st' & E & Hq & Hk).
  match goal with |- context [on_store ?f ?c ?s] => rewrite (on_store_ok f c tt s.2 st' s.1 E : on_store f c s = _) end. cbn [fst snd].
  destruct (mirrors_proposals st st' g [] Hq) as [Hm' Hs']; [|done|by split].
  intros label k [[Hl Hne]%andb_true_iff Hne']%andb_true_iff. apply Hk; [by apply bool_decide_eq_true in Hl|]. apply keys_differ. by rewrite Hl, Hne'.
Qed.

Lemma kept_remove_pending r s : kept (remove_pending_proposal r) s.
Proof.
  destruct s as [g st]. intros Hm. cbn [fst snd] in *. intros _. unfold remove_pending_proposal, on_mls.
  destruct (remove_proposal_spec _ _ _ (r : bytes) (mi_proposals _ _ Hm)) as (st' & E & Hq & Hk).
  run. cbn [fst snd]. rewrite !(on_store_ok _ _ _ _ _ _ E). cbn [fst snd].
  assert (Hd : NoDup (map proposal_reference (MlsGroup_proposal_store g))) by (rewrite <- referenced_refs; apply (mi_proposals _ _ Hm)).
  pose proof (remove_store_spec r _ Hd) as Hr.
  assert (Hf := queue_frame st st' (MlsGroup_group_id g) (Some r) ltac:(intros k H1' H2'; apply Hk; [by apply H1'|done])).
  destruct (ProposalStore_remove r (MlsGroup_proposal_store g)) as [l|]; rewrite <- Hr in Hq.
  - destruct (mirrors_proposals st st' g l Hq Hf Hm) as [Hm' Hs']. split; [exact Hm'|]. by intros _ _ Hs%Hs'.
  - destruct (mirrors_proposals st st' g _ Hq Hf Hm) as [Hm' Hs']. split; [|done].
    replace (set_group_proposals (MlsGroup_proposal_store g) g) with g in Hm' by (by destruct g as [? []]). exact Hm'.
Qed.

Lemma kept_configuration config s : kept (set_configuration config) s.
Proof.
  destruct s as [g st]. intros Hm _. unfold set_configuration, on_mls, Memory.write_mls_join_config. run. cbn [fst snd] in *.
  rewrite !(on_store_ok _ _ _ _ _ _ (put_unwrap_spec _ _ _ _)). cbn [fst snd]. destruct Hm as [Mt Mg Mc Mi Mq Ms Mx Mr Mf Mst Ml Mk Mp]. split.
  - split; try (by other_label); try done; [by apply queue_holds_insert|unfold holds, entry; by rewrite lookup_insert_eq].
  - intros _ _ Hs. unfold secrets_stored in *. by other_label.
Qed.

(** Storing the whole group *)
Lemma MlsGroup_store_spec g st : exists st', MlsGroup_store g st = (Ok tt, st') /\
  (queue_holds st (MlsGroup_group_id g) (referenced (MlsGroup_proposal_store g)) ->
   stored_list st (entry OWN_LEAF_NODES_LABEL (MlsGroup_group_id g)) (map encode (own_leaf_nodes g)) ->
   (is_active g = true -> exists pairs : option (list EncryptionKeyPair), st !! epoch_entry (MlsGroup_group_id g) (MlsGroup_epoch g) (own_leaf_index g) = encode <$> pairs) ->
   (forall sc, pending_commit g = Some sc -> gc_group_id (commit_context sc) = MlsGroup_group_id g) -> mirrors st' g) /\
  secrets_stored st' g /\ forall (group_id : bytes) epoch own, st' !! epoch_entry group_id epoch own = st !! epoch_entry group_id epoch own.
Proof.
  unfold MlsGroup_store, Memory.write_group_epoch_secrets, Memory.write_own_leaf_index, Memory.write_message_secrets, Memory.write_resumption_psk_store,
    Memory.write_mls_join_config, Memory.write_group_state. run. rewrite PublicGroup_store_spec. rewrite ?put_spec, ?put_unwrap_spec, ?put_spec, ?put_unwrap_spec. eexists. split; [done|].
  change (PublicGroup_group_id (public_group g)) with (MlsGroup_group_id g). split; [|split].
  - intros Hq Hl Hk Hp. split; try done; try (other_label; try by rewrite lookup_insert_eq).
    + by repeat apply queue_holds_insert.
    + exact Hl.
    + intros Hact. destruct (Hk Hact) as [pairs Ep]. exists pairs. by other_label.
  - unfold secrets_stored. other_label. by rewrite lookup_insert_eq.
  - intros group_id epoch own. by other_label.
Qed.

(** The group of a client that was removed from it *)
Definition removed_group (state : PublicStagedCommitState) (g : MlsGroup) : MlsGroup :=
  let pg := PublicGroup_merge_diff (psc_staged_diff state) (public_group g) in
  set_own_leaf_nodes [] (set_psk_store (ResumptionPskStore_add (gc_epoch (group_context pg)) (ge_resumption_psk (group_epoch_secrets g)) (resumption_psk_store g))
    (set_public_group pg (set_group_state Inactive g))).

Lemma merge_removed_spec sc state g st pairs : staged_state sc = PublicState state -> mirrors st g -> read_epoch_keypairs g st = (Ok pairs, st) ->
  gc_group_id (spg_context (psc_staged_diff state)) = MlsGroup_group_id g ->
  exists st', merge_staged_commit sc (g, st) = (Ok tt, (removed_group state g, st')) /\ mirrors st' (removed_group state g) /\ secrets_stored st' (removed_group state g) /\
    forall (group_id : bytes) epoch own, st' !! epoch_entry group_id epoch own = st !! epoch_entry group_id epoch own.
Proof.
  intros Es Hm Ek Eid. set (g0 := set_group_state Inactive g).
  set (st0 := <[entry GROUP_STATE_LABEL (MlsGroup_group_id g) := encode Inactive]> st).
  assert (Hm0 : mirrors st0 g0) by (by apply mirrors_state).
  set (g1 := set_public_group (PublicGroup_merge_diff (psc_staged_diff state) (public_group g)) g0).
  assert (Hid : MlsGroup_group_id g1 = MlsGroup_group_id g) by exact Eid.
  destruct (MlsGroup_store_spec g1 st0) as (st1 & E1 & Hm1 & Hs1 & Hk1). rewrite Hid in Hm1.
  specialize (Hm1 (mi_proposals _ _ Hm0) (mi_leaves _ _ Hm0) ltac:(done) ltac:(done)).
  pose proof (mirrors_no_leaves _ _ (mirrors_psks st1 g1 (resumption_psk_store (removed_group state g)) Hm1)) as Hm3. set (st3 := base.delete _ _) in Hm3.
  change (set_own_leaf_nodes [] _) with (removed_group state g) in Hm3.
  destruct (clear_pending_commit_spec (removed_group state g) st3) as (st4 & Ec & Hm4 & Hk4). specialize (Hm4 Hm3).
  change (set_group_state _ (removed_group state g)) with (removed_group state g) in *. exists st4. split; [|split; [done|split]].
  - unfold merge_staged_commit, commit_self_removed. rewrite Es. unfold on_mls. run. cbn [fst snd]. fold g0.
    rewrite (proj2 (lift_state_ok _ _ _ _ _) (write_state_spec g0 st)). change (<[_ := _]> st) with st0.
    unfold MlsGroup_merge_commit. run. cbn [fst snd].
    rewrite (on_store_ok _ _ _ _ _ _ (read_epoch_keypairs_other g g0 st (encode Inactive) _ eq_refl eq_refl eq_refl Ek : read_epoch_keypairs g0 st0 = _)).
    rewrite Es. unfold on_mls. run. cbn [fst snd]. fold g1. rewrite (on_store_ok _ _ _ _ _ _ E1).
    unfold Memory.write_resumption_psk_store. rewrite (on_store_ok _ _ _ _ _ _ (put_spec _ _ _ _)). cbn [fst snd].
    unfold Memory.delete_own_leaf_nodes, Memory.delete. erewrite on_store_ok; [|unfold unwrap; run; rewrite to_vec_encode; reflexivity].
    unfold lift_state. by match goal with |- context [clear_pending_commit ?s] => rewrite (Ec : clear_pending_commit s = _) end.
  - unfold secrets_stored, holds, entry. rewrite Hk4; [|known_label|done]. unfold st3. other_label. exact Hs1.
  - intros group_id epoch own. unfold epoch_entry in *. rewrite Hk4; [|known_label|done]. unfold st3. other_label. rewrite Hk1. unfold st0. by other_label.
Qed.

(** When the key pairs of the epoch cannot be read, merging stops once the state is written. *)
Lemma merge_unreadable sc g st : read_epoch_keypairs g st = (Panic, st) -> merge_staged_commit sc (g, st) =
  let g' := if commit_self_removed sc then set_group_state Inactive g else g in
  (Panic, (g', <[entry GROUP_STATE_LABEL (MlsGroup_group_id g) := encode (group_state g')]> st)).
Proof.
  intros Ek. unfold merge_staged_commit, on_mls. destruct (commit_self_removed sc); run; cbn [fst snd];
    rewrite (proj2 (lift_state_ok _ _ _ _ _) (write_state_spec _ _)); unfold MlsGroup_merge_commit; run; cbn [fst snd]; unfold on_store, lift_state, on_part; cbn [snd].
  - by rewrite (read_epoch_keypairs_other g (set_group_state Inactive g) st (encode Inactive) _ eq_refl eq_refl eq_refl Ek).
  - by rewrite (read_epoch_keypairs_other g g st (encode (group_state g)) _ eq_refl eq_refl eq_refl Ek).
Qed.

Lemma kept_merge sc s : gc_group_id (commit_context sc) = MlsGroup_group_id s.1 -> kept (merge_staged_commit sc) s.
Proof.
  destruct s as [g st]. cbn [fst snd]. intros Hid Hm _. cbn [fst snd] in *. destruct (read_epoch_keypairs_cases g st) as [[pairs Ek]|Ek].
  - unfold commit_context in Hid. destruct (staged_state sc) as [state|state] eqn:Es.
    + destruct (merge_removed_spec sc state g st pairs Es Hm Ek Hid) as (st' & E & Hm' & Hs' & _). by rewrite E.
    + destruct (merge_staged_commit_spec sc state g st pairs Es Hm Ek Hid) as (trees & st' & _ & E & Hm' & Hs' & _). by rewrite E.
  - rewrite (merge_unreadable sc g st Ek). cbv zeta. cbn [fst snd]. split; [|by intros ? ?].
    destruct (commit_self_removed sc); [by apply mirrors_state|by apply mirrors_rewrite].
Qed.

(** Merging starts with writing the state of the group. *)
Lemma merge_state_irrelevant sc g st v :
  merge_staged_commit sc (g, <[entry GROUP_STATE_LABEL (MlsGroup_group_id g) := v]> st) = merge_staged_commit sc (g, st).
Proof.
  unfold merge_staged_commit, on_mls. destruct (commit_self_removed sc); run; cbn [fst snd];
    rewrite !(proj2 (lift_state_ok _ _ _ _ _) (write_state_spec _ _)); by rewrite insert_insert_eq.
Qed.

Lemma merge_pending_spec g st p : group_state g = PendingCommit p -> merge_pending_commit (g, st) =
  lift_state MergePendingMerge (merge_staged_commit (pending_staged_commit p))
    (set_group_state Operational g, <[entry GROUP_STATE_LABEL (MlsGroup_group_id g) := encode Operational]> st).
Proof.
  intros Eg. unfold merge_pending_commit, on_mls. run. cbn [fst snd]. rewrite Eg. unfold lift_state.
  pose proof (merge_state_irrelevant (pending_staged_commit p) (set_group_state Operational g) st (encode Operational)) as E.
  change (MlsGroup_group_id (set_group_state Operational g)) with (MlsGroup_group_id g) in E. by rewrite E.
Qed.

Lemma mirrors_operational g st : mirrors st g -> is_active g = true ->
  mirrors (<[entry GROUP_STATE_LABEL (MlsGroup_group_id g) := encode Operational]> st) (set_group_state Operational g).
Proof. intros Hm Hact. apply mirrors_state; [done| |done]. unfold is_active in Hact. by intros E; rewrite E in Hact. Qed.

Lemma kept_merge_pending s : kept merge_pending_commit s.
Proof.
  destruct s as [g st]. intros Hm Hd. cbn [fst snd] in *. destruct (group_state g) as [p| |] eqn:Eg.
  2,3: unfold merge_pending_commit; run; cbn [fst snd]; rewrite Eg; by split.
  revert Hd. rewrite (merge_pending_spec g st p Eg). unfold lift_state.
  assert (Hact : is_active g = true) by (unfold is_active; by rewrite Eg).
  pose proof (kept_merge (pending_staged_commit p) (set_group_state Operational g, <[entry GROUP_STATE_LABEL (MlsGroup_group_id g) := encode Operational]> st)
    ltac:(cbn [fst]; apply (mi_pending _ _ Hm); unfold pending_commit; by rewrite Eg) (mirrors_operational g st Hm Hact)) as Hk.
  cbn [fst snd] in Hk. destruct (merge_staged_commit _ _) as [o s']. cbn [fst snd] in *. intros Hd. destruct (Hk Hd) as [Hm' Hs']. split; [done|].
  intros [] Eo Hs. eapply Hs'; [by destruct o as [[]|?|]|]. unfold secrets_stored in *. change (MlsGroup_group_id (set_group_state Operational g)) with (MlsGroup_group_id g). by other_label.
Qed.

(** ** The operations of a client *)

Context `{!SignatureProvider} `{!HpkeExport}.

(** What a client does with a group; [true] of the operations that write all they change
    to the store.  Processing a message is not one of them: it moves the ratchets in
    memory only. *)
Inductive client_operation (s : client) : bool -> forall {E A : Type}, method client E A -> Prop :=
| op_message pr m : client_operation s true (create_message pr m)
| op_process now m : client_operation s false (process_message tls_authenticated_content now m)
| op_propose pr p t : client_operation s true (propose tls_authenticated_content pr p t)
| op_propose_extensions pr es : client_operation s true (propose_group_context_extensions tls_authenticated_content pr es)
| op_leave pr : client_operation s true (leave_group tls_authenticated_content pr)
| op_commit pr : client_operation s true (commit_to_pending_proposals map_order pr)
| op_add_members pr key_packages force : client_operation s true (add_members_internal map_order pr key_packages force)
| op_remove_members pr members : client_operation s true (remove_members map_order pr members)
| op_self_update pr p : client_operation s true (self_update map_order pr p)
| op_update_extensions pr es : client_operation s true (update_group_context_extensions map_order pr es)
| op_store_proposal p : client_operation s true (store_pending_proposal p)
| op_remove_proposal r : client_operation s true (remove_pending_proposal r)
| op_clear_proposals : client_operation s true clear_pending_proposals
| op_clear_commit : client_operation s true clear_pending_commit
| op_merge_pending : client_operation s true merge_pending_commit
| op_merge sc : gc_group_id (commit_context sc) = MlsGroup_group_id s.1 -> client_operation s true (merge_staged_commit sc)
| op_configuration config : client_operation s true (set_configuration config).

Lemma process_mirrors now m s : mirrors s.2 s.1 -> mirrors (process_message tls_authenticated_content now m s).2.2 (process_message tls_authenticated_content now m s).2.1.
Proof.
  destruct s as [g st]. destruct (process_message tls_authenticated_content now m (g, st)) as [o [g' st']] eqn:E. cbn [fst snd].
  destruct (process_frame _ _ _ _ _ _ _ _ E) as [-> ->]. by rewrite mirrors_ms.
Qed.

Lemma kept_operation (stored : bool) {E A : Type} (c : method client E A) s : client_operation s stored c -> mirrors s.2 s.1 -> NoDup (references (c s).2.1) ->
  mirrors (c s).2.2 (c s).2.1 /\ (stored = true -> forall x, (c s).1 = Ok x -> secrets_stored s.2 s.1 -> secrets_stored (c s).2.2 (c s).2.1).
Proof.
  intros Hc Hm Hd. assert (Hk : stored = true -> kept c s).
  { intros Hst. destruct Hc; try done.
    - apply keeps_kept, keeps_message.
    - apply keeps_kept, keeps_propose.
    - apply keeps_kept, keeps_propose_by.
    - apply keeps_kept, keeps_leave.
    - apply keeps_kept, keeps_commit_pending.
    - apply keeps_kept, keeps_add_members.
    - apply keeps_kept, keeps_remove_members.
    - apply keeps_kept, keeps_update.
    - apply keeps_kept, keeps_extensions.
    - apply kept_store_pending.
    - apply kept_remove_pending.
    - apply kept_clear_proposals.
    - apply kept_clear_commit.
    - apply kept_merge_pending.
    - by apply kept_merge.
    - apply kept_configuration. }
  destruct stored.
  - destruct (Hk eq_refl Hm Hd) as [? Hs]. by split.
  - split; [|done]. clear Hk Hd. remember false as stored eqn:Ef. destruct Hc; try done. by apply process_mirrors.
Qed.

(** A step of the client; [ok] when the operation succeeded and wrote all it changed.  The
    references of the proposals a group has are different. *)
Inductive client_step (ok : bool) (s s' : client) : Prop :=
| ClientStep {E A : Type} (stored : bool) (c : method client E A) : client_operation s stored c -> (c s).2 = s' ->
    (ok = true -> stored = true /\ exists x, (c s).1 = Ok x) -> NoDup (references s'.1) -> client_step ok s s'.

(** *** The life cycle *)

(** The epoch of a group and whether a commit is pending *)
Definition phase (s : client) : GroupContext * MlsGroupState := (MlsGroup_context s.1, group_state s.1).

Lemma unchanged_on_store {T F A : Type} (p : MlsGroup -> T) (f : MemoryStorageError -> F) (c : method MemoryStorage MemoryStorageError A) :
  unchanged (fun s : client => p s.1) (on_store f c).
Proof. intros s. unfold on_store, lift_state, on_part. by destruct (c s.2). Qed.

Lemma unchanged_on_mls {T E A : Type} (p : MlsGroup -> T) (c : method MlsGroup E A) : unchanged p c -> unchanged (fun s : client => p s.1) (on_mls c).
Proof. intros Hc s. unfold on_mls, on_part. specialize (Hc s.1). by destruct (c s.1). Qed.

Ltac still := repeat match goal with
  | |- unchanged _ (lift_state _ _) => apply unchanged_lift_state
  | |- unchanged _ (on_store _ _) => apply (unchanged_on_store (fun g => (MlsGroup_context g, group_state g)))
  | |- unchanged _ (on_mls (modify _)) => by apply (unchanged_on_mls (fun g => (MlsGroup_context g, group_state g)))
  | |- unchanged _ (match _ with _ => _ end) => case_match
  | |- unchanged _ (_ ≫= _) => apply unchanged_bind; [|intros ?]
  | |- unchanged _ (mret _) => done
  | |- unchanged _ (fail _) => done
  | |- unchanged _ (lift _) => done
  | |- unchanged _ get => done
  end.

Lemma phase_encrypt pr m : unchanged phase (encrypt pr m).
Proof.
  unfold encrypt. still. apply (unchanged_on_mls (fun g => (MlsGroup_context g, group_state g))). intros g. by destruct (try_from_authenticated_content _ _ _ _ _).
Qed.

Lemma phase_content pr m : unchanged phase (content_to_mls_message pr m).
Proof. unfold content_to_mls_message. still. apply phase_encrypt. Qed.

Lemma phase_send {E : Type} (library : LibraryError -> E) storage pr content t : unchanged phase (queue_and_send tls_authenticated_content library storage pr content t).
Proof. unfold queue_and_send, reset_aad. still. apply phase_content. Qed.

Lemma phase_self_update pr p : unchanged phase (create_self_update pr p).
Proof. unfold create_self_update. still. intros s. unfold on_part. by destruct (LeafNode_update _ _ _ _). Qed.

Lemma phase_propose pr p t : unchanged phase (propose tls_authenticated_content pr p t).
Proof.
  unfold propose, propose_add_member_by_value, propose_remove_member_by_credential_by_value, propose_remove_member_by_value, propose_external_psk,
    propose_external_psk_by_value, propose_custom_proposal_by_value, propose_custom_proposal_by_reference, propose_remove_member_by_credential,
    propose_add_member, propose_remove_member, propose_self_update, propose_by.
  still; (apply phase_send || apply phase_self_update).
Qed.

Lemma phase_message pr m : unchanged phase (create_message pr m).
Proof. unfold create_message, reset_aad. still. apply phase_encrypt. Qed.

Lemma phase_leave pr : unchanged phase (leave_group tls_authenticated_content pr).
Proof. unfold leave_group, reset_aad. still. apply phase_content. Qed.

(** A commit is pending after it was made. *)
Inductive committed (s s' : client) : Prop :=
| NotCommitted : phase s' = phase s -> committed s s'
| Committed sc : phase s' = (MlsGroup_context s.1, PendingCommit (PendingMember sc)) -> gc_group_id (commit_context sc) = MlsGroup_group_id s.1 -> committed s s'.

Lemma committed_after s s1 s2 : committed s s1 -> phase s2 = phase s1 -> committed s s2.
Proof. intros [Hp|sc Hp Hid] E; [left; congruence|right with sc; [congruence|done]]. Qed.

Lemma commit_phase pr stage s : committed s (commit_with map_order pr stage s).2.
Proof.
  unfold commit_with. run. destruct (builder_load_psks _ _ _) as [loaded|e|]; [|by left..].
  destruct (build_internal _ _ _ _ _ _) as [b|e|] eqn:Eb; [|by left..]. apply build_internal_id in Eb.
  set (s1 := (set_group_state (PendingCommit (PendingMember (built_staged_commit b))) s.1, s.2)).
  assert (Hs : phase (lift_state CommitStageError (builder_stage_commit pr b) s).2 = phase s1).
  { unfold builder_stage_commit. set (rest := fun _ : () => _).
    assert (Hr : unchanged phase (rest tt)) by (unfold rest, reset_aad, write_state; still; apply phase_content).
    rewrite <- (Hr s1). unfold lift_state, on_mls. run. cbn [fst snd]. by destruct (rest tt _). }
  apply (Committed _ _ (built_staged_commit b)); [|exact Eb]. change (MlsGroup_context s.1, _) with (phase s1). rewrite <- Hs.
  by destruct (lift_state _ _ s) as [[m|e|] s'].
Qed.

Lemma operational_phase {E A B : Type} (f : MlsGroupStateError -> E) (c : method client E A) (k : A -> method client E B) s : committed s (c s).2 -> (forall x, unchanged phase (k x)) ->
  committed s ((lift (map_err f (is_operational s.1));; c ≫= k) s).2.
Proof.
  intros Hc Hk. run. destruct (is_operational s.1) as [[]|e|]; [|by left..]. cbn. destruct (c s) as [[x|e|] s1]; [|done..].
  eapply committed_after; [exact Hc|apply Hk].
Qed.

(** Operations that a pending commit or an eviction blocks *)
Inductive guarded : forall {E A : Type}, method client E A -> Prop :=
| guarded_propose pr p t : guarded (propose tls_authenticated_content pr p t)
| guarded_propose_extensions pr es : guarded (propose_group_context_extensions tls_authenticated_content pr es)
| guarded_leave pr : guarded (leave_group tls_authenticated_content pr)
| guarded_commit pr : guarded (commit_to_pending_proposals map_order pr)
| guarded_add_members pr key_packages force : guarded (add_members_internal map_order pr key_packages force)
| guarded_remove_members pr members : guarded (remove_members map_order pr members)
| guarded_self_update pr p : guarded (self_update map_order pr p)
| guarded_update_extensions pr es : guarded (update_group_context_extensions map_order pr es).

Lemma not_operational g : group_state g <> Operational -> exists e, is_operational g = Err e.
Proof. unfold is_operational. destruct (group_state g); eauto. done. Qed.

Lemma guarded_blocked {E A : Type} (c : method client E A) s : guarded c -> group_state s.1 <> Operational -> exists e, c s = (Err e, s).
Proof.
  intros Hc [e He]%not_operational. destruct Hc; unfold propose_group_context_extensions, propose_by, leave_group, commit_to_pending_proposals, add_members_internal, remove_members, self_update, update_group_context_extensions.
  2-8: run; rewrite He; by eexists.
  unfold propose, propose_add_member_by_value, propose_remove_member_by_credential_by_value, propose_remove_member_by_value, propose_external_psk,
    propose_external_psk_by_value, propose_custom_proposal_by_value, propose_custom_proposal_by_reference, propose_remove_member_by_credential,
    propose_add_member, propose_remove_member, propose_self_update, create_self_update, propose_by, lift_state.
  run. destruct p, t; try destruct (member_by_credential _ _); try (match goal with p : PreSharedKeyId |- _ => destruct (Proposals.psk p) end);
    rewrite ?He; cbn beta iota; by eexists.
Qed.
Lemma steps_mirror ok s s' : rtc (client_step ok) s s' -> mirrors s.2 s.1 -> mirrors s'.2 s'.1 /\ (ok = true -> secrets_stored s.2 s.1 -> secrets_stored s'.2 s'.1).
Proof.
  induction 1 as [s|s s1 s' [E A stored c Hop <- Hok Hd] _ IH]; [done|]. intros Hm. destruct (kept_operation stored c s Hop Hm Hd) as [Hm' Hs'].
  destruct (IH Hm') as [Hm'' Hs'']. split; [done|]. intros Eok Hs. apply Hs''; [done|]. destruct (Hok Eok) as [Est [x Ex]]. by eapply Hs'.
Qed.

(** Merging writes the message secrets, also when those in the store were behind. *)
Lemma merge_stores sc s s' : mirrors s.2 s.1 -> gc_group_id (commit_context sc) = MlsGroup_group_id s.1 -> merge_staged_commit sc s = (Ok tt, s') ->
  mirrors s'.2 s'.1 /\ secrets_stored s'.2 s'.1.
Proof.
  destruct s as [g st]. cbn [fst snd]. intros Hm Hid Em. destruct (read_epoch_keypairs_cases g st) as [[pairs Ek]|Ek].
  - unfold commit_context in Hid. destruct (staged_state sc) as [state|state] eqn:Es.
    + destruct (merge_removed_spec sc state g st pairs Es Hm Ek Hid) as (st' & E & Hm' & Hs' & _). rewrite E in Em. by injection Em as <-.
    + destruct (merge_staged_commit_spec sc state g st pairs Es Hm Ek Hid) as (trees & st' & _ & E & Hm' & Hs' & _). rewrite E in Em. by injection Em as <-.
  - by rewrite (merge_unreadable sc g st Ek) in Em.
Qed.

Lemma mirrors_epoch_keys st g (keypairs : list EncryptionKeyPair) : mirrors st g ->
  mirrors (<[epoch_entry (MlsGroup_group_id g) (MlsGroup_epoch g) (own_leaf_index g) := encode keypairs]> st) g.
Proof.
  intros [Mt Mg Mc Mi Mq Ms Mx Mr Mf Mst Ml Mk Mp]. split; try (by other_label); try done; [by apply queue_holds_insert|].
  intros _. exists (Some keypairs). by rewrite lookup_insert_eq.
Qed.

(** What the operations that create a group write. *)
Lemma created_mirrors g st keypairs : own_leaf_nodes g = [] -> MlsGroup_proposal_store g = [] -> pending_commit g = None ->
  st !! entry PROPOSAL_QUEUE_REFS_LABEL (MlsGroup_group_id g) = None -> st !! entry OWN_LEAF_NODES_LABEL (MlsGroup_group_id g) = None ->
  st !! epoch_entry (MlsGroup_group_id g) (MlsGroup_epoch g) (own_leaf_index g) = None ->
  exists st', (MlsGroup_store g;; store_epoch_keypairs g keypairs) st = (Ok tt, st') /\ mirrors st' g /\ secrets_stored st' g /\
    st' !! epoch_entry (MlsGroup_group_id g) (MlsGroup_epoch g) (own_leaf_index g) = Some (encode keypairs).
Proof.
  intros El Ep Epc Hq Hl Hk. destruct (MlsGroup_store_spec g st) as (st1 & E1 & Hm1 & Hs1 & _).
  exists (<[epoch_entry (MlsGroup_group_id g) (MlsGroup_epoch g) (own_leaf_index g) := encode keypairs]> st1). split; [|split; [|split]].
  - unfold store_epoch_keypairs. run. rewrite E1. by rewrite write_epoch_keys_spec.
  - apply mirrors_epoch_keys, Hm1.
    + rewrite Ep. split; [constructor| |by intros ? ? ?%not_elem_of_nil]. unfold stored_list. by rewrite Hq.
    + rewrite El. unfold stored_list. by rewrite Hl.
    + intros _. by exists None.
    + by rewrite Epc.
  - unfold secrets_stored in *. by other_label.
  - by rewrite lookup_insert_eq.
Qed.

(** What an operation does to the epoch of the group and to its pending commit *)
Inductive phase_step (s s' : client) : Prop :=
| PhaseSame : phase s' = phase s -> phase_step s s'
| PhaseCommitted sc : group_state s.1 = Operational -> phase s' = (MlsGroup_context s.1, PendingCommit (PendingMember sc)) ->
    gc_group_id (commit_context sc) = MlsGroup_group_id s.1 -> phase_step s s'
| PhaseCleared sc : group_state s.1 = PendingCommit (PendingMember sc) -> phase s' = (MlsGroup_context s.1, Operational) -> phase_step s s'
| PhaseMerged sc : gc_group_id (commit_context sc) = MlsGroup_group_id s.1 ->
    phase s' = (commit_context sc, if commit_self_removed sc then Inactive else state_after_merge (group_state s.1)) -> phase_step s s'
| PhaseMergedPending p : group_state s.1 = PendingCommit p ->
    phase s' = (commit_context (pending_staged_commit p), if commit_self_removed (pending_staged_commit p) then Inactive else Operational) -> phase_step s s'.

Lemma committed_step s s' : (group_state s.1 = Operational -> committed s s') -> (group_state s.1 <> Operational -> s' = s) -> phase_step s s'.
Proof.
  intros Ho Hn. assert (Hd : group_state s.1 = Operational \/ group_state s.1 <> Operational) by (destruct (group_state s.1); [by right|by left|by right]).
  destruct Hd as [E|E]; [|apply PhaseSame; by rewrite (Hn E)]. destruct (Ho E) as [|sc]; [by apply PhaseSame|by eapply PhaseCommitted].
Qed.

Lemma merged_phase sc s : mirrors s.2 s.1 -> gc_group_id (commit_context sc) = MlsGroup_group_id s.1 ->
  let merged := (commit_context sc, if commit_self_removed sc then Inactive else state_after_merge (group_state s.1)) in
  phase (merge_staged_commit sc s).2 = merged \/ (is_active s.1 = false /\ phase (merge_staged_commit sc s).2 = phase s).
Proof.
  destruct s as [g st]. cbn [fst snd]. intros Hm Hid. cbv zeta. destruct (read_epoch_keypairs_cases g st) as [[pairs Ek]|Ek].
  - left. unfold commit_context, commit_self_removed in *. destruct (staged_state sc) as [state|state] eqn:Es.
    + destruct (merge_removed_spec sc state g st pairs Es Hm Ek Hid) as (st' & E & _). by rewrite E.
    + destruct (merge_staged_commit_spec sc state g st pairs Es Hm Ek Hid) as (trees & st' & _ & E & _). by rewrite E.
  - assert (Hi : is_active g = false).
    { destruct (is_active g) eqn:Ha; [|done]. destruct (mi_keys _ _ Hm Ha) as [pairs Ep]. by rewrite (read_epoch_keypairs_spec _ _ _ Ep) in Ek. }
    right. split; [done|]. rewrite (merge_unreadable sc g st Ek). unfold phase. cbn. destruct (commit_self_removed sc); [|done].
    unfold is_active in Hi. by destruct (group_state g).
Qed.

Lemma guarded_step {E A : Type} (c : method client E A) s : guarded c -> (group_state s.1 = Operational -> committed s (c s).2) -> phase_step s (c s).2.
Proof. intros Hg Hc. apply committed_step; [done|]. intros Hn. destruct (guarded_blocked c s Hg Hn) as [e ->]. done. Qed.

Lemma operation_phase (stored : bool) {E A : Type} (c : method client E A) s : client_operation s stored c -> mirrors s.2 s.1 -> phase_step s (c s).2.
Proof.
  intros Hc Hm. destruct Hc.
  - apply PhaseSame, phase_message.
  - apply PhaseSame. destruct s as [g st]. destruct (process_message tls_authenticated_content now m (g, st)) as [o [g' st']] eqn:E. cbn [fst snd].
    destruct (process_frame _ _ _ _ _ _ _ _ E) as [-> ->]. done.
  - apply PhaseSame, phase_propose.
  - apply PhaseSame. assert (Hu : unchanged phase (propose_group_context_extensions tls_authenticated_content pr es)) by
      (unfold propose_group_context_extensions, propose_by; still; apply phase_send). apply Hu.
  - apply PhaseSame, phase_leave.
  - apply guarded_step; [constructor|intros _]. unfold commit_to_pending_proposals. run. destruct (is_operational s.1); [|by left..]. apply commit_phase.
  - apply guarded_step; [constructor|intros _]. unfold add_members_internal. destruct key_packages as [|kp kps]; [run; by destruct (is_operational s.1); left|].
    apply operational_phase; [apply commit_phase|]. intros x. unfold reset_aad. still.
  - apply guarded_step; [constructor|intros _]. unfold remove_members. destruct members as [|i l]; [run; by destruct (is_operational s.1); left|].
    apply operational_phase; [apply commit_phase|]. intros x. unfold reset_aad, write_state. still.
  - apply guarded_step; [constructor|intros _]. unfold self_update. apply operational_phase; [apply commit_phase|]. intros x. unfold reset_aad. still.
  - apply guarded_step; [constructor|intros _]. unfold update_group_context_extensions. run. destruct (is_operational s.1); [|by left..]. apply commit_phase.
  - apply PhaseSame. assert (Hu : unchanged phase (store_pending_proposal p)) by (unfold store_pending_proposal; still). apply Hu.
  - apply PhaseSame. assert (Hu : unchanged phase (remove_pending_proposal r)) by (unfold remove_pending_proposal; still). apply Hu.
  - apply PhaseSame. assert (Hu : unchanged phase clear_pending_proposals) by (unfold clear_pending_proposals; still). apply Hu.
  - destruct s as [g st]. destruct (clear_pending_commit_spec g st) as (st' & -> & _). cbn [fst snd] in *. destruct (group_state g) as [[sc|sc]| |] eqn:Eg.
    1: by eapply PhaseCleared. all: apply PhaseSame; unfold phase; cbn; by rewrite ?Eg.
  - destruct s as [g st]. cbn [fst snd] in *. destruct (group_state g) as [p| |] eqn:Eg.
    2,3: apply PhaseSame; unfold merge_pending_commit; run; cbn [fst snd]; by rewrite Eg.
    apply (PhaseMergedPending _ _ p); [done|]. rewrite (merge_pending_spec g st p Eg). unfold lift_state.
    assert (Hact : is_active g = true) by (unfold is_active; by rewrite Eg).
    pose proof (merged_phase (pending_staged_commit p) (set_group_state Operational g, <[entry GROUP_STATE_LABEL (MlsGroup_group_id g) := encode Operational]> st)
      (mirrors_operational g st Hm Hact) ltac:(cbn [fst]; apply (mi_pending _ _ Hm); unfold pending_commit; by rewrite Eg)) as Hp.
    destruct Hp as [Hp|[Hp _]]; [|done]. by destruct (merge_staged_commit _ _).
  - destruct (merged_phase sc s Hm ltac:(done)) as [Hp|[_ Hp]]; [by apply (PhaseMerged _ _ sc)|by apply PhaseSame].
  - apply PhaseSame. assert (Hu : unchanged phase (set_configuration config)) by (unfold set_configuration; still). apply Hu.
Qed.

Lemma merge_step sc state g st pairs : staged_state sc = GroupMember state -> mirrors st g -> read_epoch_keypairs g st = (Ok pairs, st) ->
  gc_group_id (commit_context sc) = MlsGroup_group_id g -> exists trees st', client_step true (g, st) (merged_group state trees g, st').
Proof.
  intros Es Hm Ek Hid. assert (Hid' := Hid). unfold commit_context in Hid'. rewrite Es in Hid'.
  destruct (merge_staged_commit_spec sc state g st pairs Es Hm Ek Hid') as (trees & st' & _ & E & _). exists trees, st'.
  apply (ClientStep _ _ _ true (merge_staged_commit sc)); [by apply op_merge|by rewrite E|intros _; split; [done|]; exists tt; by rewrite E|constructor].
Qed.

Lemma configuration_step config g st : mirrors st g -> exists st', client_step true (g, st) (set_configuration_field config g, st') /\ mirrors st' (set_configuration_field config g).
Proof.
  intros Hm. assert (Hd : NoDup (references g)) by (unfold references; rewrite <- referenced_refs; apply (mi_proposals _ _ Hm)).
  set (st' := (set_configuration config (g, st)).2.2).
  assert (E : set_configuration config (g, st) = (Ok tt, (set_configuration_field config g, st'))).
  { unfold st', set_configuration, on_mls, Memory.write_mls_join_config. run. cbn [fst snd]. by rewrite !(on_store_ok _ _ _ _ _ _ (put_unwrap_spec _ _ _ _)). }
  exists st'. split; [|by destruct (kept_configuration config (g, st) Hm) as [Hm' _]; rewrite E in *].
  apply (ClientStep _ _ _ true (set_configuration config)); [by apply op_configuration|by rewrite E|intros _; split; [done|]; exists tt; by rewrite E|exact Hd].
Qed.

(** ** Theorems *)

(** C6: a client can start again from its store.  It begins with a group that was just
    created or joined and was stored with its key pairs, and then performs operations in
    any order: sending and processing messages, proposing, committing, storing and
    removing proposals of others, clearing proposals and pending commits, merging its own
    and others' commits of the group (also one that removes it), changing the
    configuration.  As long as the proposals the group has at one time have different
    references, the store mirrors the group in all parts but the message secrets, whether
    the operations succeed or fail.  If they succeed and none is the processing of a
    message, which moves ratchets in memory only, or if a commit was merged after the last
    message that was processed, loading gives back the group in memory with all its
    parts, but for the data to authenticate with the next message, which is not stored. *)
Theorem operations_persist g st keypairs : own_leaf_nodes g = [] -> MlsGroup_proposal_store g = [] -> pending_commit g = None ->
  st !! entry PROPOSAL_QUEUE_REFS_LABEL (MlsGroup_group_id g) = None -> st !! entry OWN_LEAF_NODES_LABEL (MlsGroup_group_id g) = None ->
  st !! epoch_entry (MlsGroup_group_id g) (MlsGroup_epoch g) (own_leaf_index g) = None ->
  exists st0, (MlsGroup_store g;; store_epoch_keypairs g keypairs) st = (Ok tt, st0) /\
    (forall g' st', rtc (client_step false) (g, st0) (g', st') -> mirrors st' g') /\
    (forall g' st', rtc (client_step true) (g, st0) (g', st') -> MlsGroup_load (MlsGroup_group_id g') st' = (Ok (Some (set_aad [] g')), st')) /\
    (forall s1 sc s2 g' st', rtc (client_step false) (g, st0) s1 -> gc_group_id (commit_context sc) = MlsGroup_group_id s1.1 ->
       merge_staged_commit sc s1 = (Ok tt, s2) -> rtc (client_step true) s2 (g', st') ->
       MlsGroup_load (MlsGroup_group_id g') st' = (Ok (Some (set_aad [] g')), st')).
Proof.
  intros El Ep Epc Hq Hl Hk. destruct (created_mirrors g st keypairs El Ep Epc Hq Hl Hk) as (st0 & E & Hm & Hs & _). exists st0. split; [done|]. split_and!.
  - intros g' st' Hr. by destruct (steps_mirror _ _ _ Hr Hm).
  - intros g' st' Hr. destruct (steps_mirror _ _ _ Hr Hm) as [Hm' Hs']. by apply MlsGroup_load_spec; [|apply Hs'].
  - intros s1 sc s2 g' st' Hr1 Hid Em Hr2. destruct (steps_mirror _ _ _ Hr1 Hm) as [Hm1 _]. destruct (merge_stores sc s1 s2 Hm1 Hid Em) as [Hm2 Hs2].
    destruct (steps_mirror _ _ _ Hr2 Hm2) as [Hm' Hs']. by apply MlsGroup_load_spec; [|apply Hs'].
Qed.

(** C7: merging a staged commit of the group never fails when the key pairs of the epoch can
    be read.  A member is then in the next epoch: the group context of the commit, its
    epoch and message secrets, no proposals, no pending commit.  The message secrets of
    the epoch that ends are kept, with the members of that epoch, in the window of past
    epochs; the resumption secret of the new epoch is recorded; of the old and new key
    pairs exactly those are stored that belong to the member's leaf and direct path, and
    the key pairs of the previous epoch are deleted.  A client that the commit removes has
    an inactive group with the group context of the commit; it keeps its proposals, the
    secrets of the epoch that ends and all stored key pairs, and records the resumption
    secret of the epoch that ends under the new epoch. *)
Theorem merge_advances sc g st pairs : mirrors st g -> gc_group_id (commit_context sc) = MlsGroup_group_id g -> read_epoch_keypairs g st = (Ok pairs, st) ->
  (length (past_epoch_trees (message_secrets_store g)) <= max_epochs (message_secrets_store g))%nat ->
  exists g' st', merge_staged_commit sc (g, st) = (Ok tt, (g', st')) /\ mirrors st' g' /\ secrets_stored st' g' /\
    match staged_state sc with
    | GroupMember state =>
      phase (g', st') = (commit_context sc, state_after_merge (group_state g)) /\ commit_epoch_authenticator sc = Some (ge_epoch_authenticator (group_epoch_secrets g')) /\
      current_secrets (message_secrets_store g') = msc_message_secrets state /\ MlsGroup_proposal_store g' = [] /\
      past_epoch_trees (message_secrets_store g') = last_n (max_epochs (message_secrets_store g)) (past_epoch_trees (message_secrets_store g) ++
        [{| tree_epoch := MlsGroup_epoch g; tree_secrets := current_secrets (message_secrets_store g); tree_leaves := MlsGroup_members g |}]) /\
      resumption_psk_store g' = ResumptionPskStore_add (MlsGroup_epoch g') (ge_resumption_psk (group_epoch_secrets g')) (resumption_psk_store g) /\
      (forall keypair, (exists l, read_epoch_keypairs g' st' = (Ok l, st') /\ keypair ∈ l) <->
         keypair.1 ∈ owned_encryption_keys (treesync (public_group g')) (own_leaf_index g) /\
         (keypair ∈ pairs \/ keypair ∈ msc_new_keypairs state \/ msc_new_leaf_keypair_option state = Some keypair)) /\
      (MlsGroup_epoch g' = MlsGroup_epoch g + 1 -> 0 <= MlsGroup_epoch g < 2 ^ 64 ->
       st' !! epoch_entry (MlsGroup_group_id g) (MlsGroup_epoch g) (own_leaf_index g) = None)
    | PublicState state =>
      phase (g', st') = (commit_context sc, Inactive) /\ MlsGroup_proposal_store g' = MlsGroup_proposal_store g /\
      group_epoch_secrets g' = group_epoch_secrets g /\ message_secrets_store g' = message_secrets_store g /\
      resumption_psk_store g' = ResumptionPskStore_add (MlsGroup_epoch g') (ge_resumption_psk (group_epoch_secrets g)) (resumption_psk_store g) /\
      forall (group_id : bytes) epoch own, st' !! epoch_entry group_id epoch own = st !! epoch_entry group_id epoch own
    end.
Proof.
  intros Hm Hid Ek Hlen. unfold commit_context, commit_epoch_authenticator in *. destruct (staged_state sc) as [state|state] eqn:Es.
  { destruct (merge_removed_spec sc state g st pairs Es Hm Ek Hid) as (st' & E & Hm' & Hs' & Hk). exists (removed_group state g), st'. by split_and!. }
  destruct (merge_staged_commit_spec sc state g st pairs Es Hm Ek Hid) as (trees & st' & Ea & E & Hm' & Hs' & Hk & Ho).
  rewrite add_epoch_spec in Ea by exact Hlen. injection Ea as Ea. exists (merged_group state trees g), st'. split_and!; try done.
  - intros kp. rewrite (read_epoch_keypairs_spec st' (merged_group state trees g) (Some (next_keypairs state g pairs)) Hk). cbn [default].
    trans (kp ∈ next_keypairs state g pairs); [split; [by intros (l & [= <-] & Hin)|by eexists]|].
    unfold next_keypairs. rewrite elem_of_List_filter, !elem_of_app. unfold mem. rewrite bool_decide_eq_true.
    assert (Ho' : kp ∈ (match msc_new_leaf_keypair_option state with Some keypair => [keypair] | None => [] end) <-> msc_new_leaf_keypair_option state = Some kp).
    { destruct (msc_new_leaf_keypair_option state); rewrite ?list_elem_of_singleton, ?elem_of_nil; naive_solver. }
    rewrite Ho'. tauto.
  - intros Ee Hr. rewrite Ee in Ho. replace (usize_wrap (MlsGroup_epoch g + 1 - 1)) with (MlsGroup_epoch g) in Ho; [|unfold usize_wrap; rewrite Z.mod_small; lia].
    replace (MlsGroup_group_id (merged_group state trees g)) with (MlsGroup_group_id g) in Ho by (symmetry; exact Hid). exact Ho.
Qed.

(** C8: the life cycle of a group.  Every operation takes the group through one of
    these steps and no other: neither its context nor its state changes; a commit becomes
    pending in an operational group, for that group and without leaving the epoch; a
    pending commit of a member is dropped, which ends in the same epoch; a staged commit
    of the group is merged, the own pending one or another, and the group has the
    context of that commit, and is inactive when the client was removed, else
    operational if a member's commit was pending and in its former state if not.  A group
    that is inactive stays so, whatever operations follow; [merge_staged_commit], unlike
    [merge_pending_commit], does not check this, and merging a commit that was staged
    before the eviction still replaces the context of such a group.  While a commit is
    pending, and after an eviction, proposals and commits are refused and change neither
    the group nor the store. *)
Theorem life_cycle (stored : bool) {E A : Type} (c : method client E A) (s : client) : client_operation s stored c -> mirrors s.2 s.1 ->
  phase_step s (c s).2 /\
  (guarded c -> group_state s.1 <> Operational -> exists e, c s = (Err e, s)) /\
  (forall s', group_state s.1 = Inactive -> rtc (client_step false) s s' -> group_state s'.1 = Inactive).
Proof.
  intros Hc Hm. split; [by apply (operation_phase stored)|]. split; [by apply guarded_blocked|].
  intros s' Hi Hr. clear Hc. revert Hm Hi. induction Hr as [s|s s1 s' [E1 A1 st1 c1 Hop <- _ Hd] _ IH]; [done|]. intros Hm Hi.
  apply IH; [by apply (kept_operation st1)|]. pose proof (operation_phase st1 c1 s Hop Hm) as Hp. unfold phase in Hp.
  destruct Hp as [Hp|?? |?? |sc _ Hp|??]; try congruence; injection Hp as _ ->; rewrite Hi; [done|]. by destruct (commit_self_removed sc).
Qed.

End Sending.
End Persist.

(** ** Witnesses *)

Module GroupSamples.

(** Every type of the state is encoded by its number. *)
#[local] Instance number_serde (A : Type) `{Countable A} : Serde A | 10 := toy_serde A.
#[local] Instance number_laws (A : Type) `{Countable A} : SerdeLaws A | 10 := toy_serde_laws A.
#[local] Instance lists_serde : Serde (list bytes) | 0 := toy_serde_lists.
#[local] Instance lists_laws : SerdeLaws (list bytes) | 0 := toy_serde_lists_laws.
#[local] Instance arrays : JsonArrays bytes bytes.
Proof. split; [done|]. by intros x b [= <-]. Qed.
#[local] Existing Instances toy_bodies toy_framing toy_contexts toy_crypto toy_aead toy_signatures toy_proposal_hashing toy_hashing toy_transcripts toy_hpke toy_export toy_psk_labels.

Definition no_content (m : AuthenticatedContent) : option bytes := Some [].

Abbreviation sample_step := (client_step no_content (fun m => map_to_list m)).
Abbreviation sample_operation := (client_operation no_content (fun m => map_to_list m)).

Definition other_config : MlsGroupJoinConfig := {|
  wire_format_policy := PURE_CIPHERTEXT_WIRE_FORMAT_POLICY; padding_size := 16; max_past_epochs := 2; number_of_resumption_psks := 4;
  use_ratchet_tree_extension := true; sender_ratchet_configuration := sample_config |}.

(** The commit of member 0 that removes member 2 *)
Lemma sample_staged : exists b state, sample_building = Ok b /\ staged_state (built_staged_commit b) = GroupMember state /\
  gc_group_id (commit_context (built_staged_commit b)) = MlsGroup_group_id (sample_member 0).
Proof.
  destruct sample_built as (b & Eb & _). pose proof (build_internal_id _ _ _ _ _ _ _ Eb) as Hid.
  assert (Hg : match sample_building with Ok b => exists state, staged_state (built_staged_commit b) = GroupMember state | _ => False end) by (vm_compute; by eexists).
  rewrite Eb in Hg. destruct Hg as [state Hs]. exists b, state. split; [exact Eb|]. split; [exact Hs|exact Hid].
Qed.

Lemma sample_created : exists st0, (MlsGroup_store (sample_member 0);; store_epoch_keypairs (sample_member 0) sample_owned) ∅ = (Ok tt, st0) /\
  mirrors st0 (sample_member 0) /\ secrets_stored st0 (sample_member 0).
Proof.
  destruct (created_mirrors (sample_member 0) ∅ sample_owned) as (st0 & E & Hm & Hs & _); [reflexivity..|apply lookup_empty|apply lookup_empty|apply lookup_empty|].
  exists st0. split; [exact E|]. split; [exact Hm|exact Hs].
Qed.

(** Member 0 changes its configuration, merges the commit and starts again. *)
Lemma operations_persist_witness : exists st0 st2 b state trees, sample_building = Ok b /\ staged_state (built_staged_commit b) = GroupMember state /\
  let g2 := merged_group state trees (set_configuration_field other_config (sample_member 0)) in
  rtc (sample_step true) (sample_member 0, st0) (g2, st2) /\
  MlsGroup_load (MlsGroup_group_id g2) st2 = (Ok (Some (set_aad [] g2)), st2).
Proof.
  destruct sample_staged as (b & state & Eb & Es & Hid). destruct sample_created as (st0 & E0 & Hm0 & Hs0).
  destruct (operations_persist no_content (fun m => map_to_list m) (sample_member 0) ∅ sample_owned) as (st0' & E0' & _ & Hload & _);
    [reflexivity..|apply lookup_empty|apply lookup_empty|apply lookup_empty|].
  assert (st0' = st0) as -> by (rewrite E0 in E0'; injection E0' as E0'; exact (eq_sym E0')). clear E0 E0'.
  destruct (configuration_step no_content (fun m => map_to_list m) other_config (sample_member 0) st0 Hm0) as (st1 & H1' & Hm1).
  destruct (mi_keys _ _ Hm1 eq_refl) as [pairs Ek].
  destruct (merge_step no_content (fun m => map_to_list m) _ state (set_configuration_field other_config (sample_member 0)) st1 _ Es Hm1 (read_epoch_keypairs_spec _ _ _ Ek) Hid)
    as (trees & st2 & H2').
  exists st0, st2, b, state, trees. split; [exact Eb|]. split; [exact Es|]. cbv zeta.
  assert (Hr := rtc_l _ _ _ _ H1' (rtc_once _ _ H2')). split; [exact Hr|]. exact (Hload _ _ Hr).
Defined.

(** The same commit merged. *)
Lemma merge_advances_witness : exists st0 g' st' b state, sample_building = Ok b /\ staged_state (built_staged_commit b) = GroupMember state /\
  merge_staged_commit (built_staged_commit b) (sample_member 0, st0) = (Ok tt, (g', st')) /\ phase (g', st') = (commit_context (built_staged_commit b), Operational) /\
  current_secrets (message_secrets_store g') = msc_message_secrets state.
Proof.
  destruct sample_staged as (b & state & Eb & Es & Hid). destruct sample_created as (st0 & E0 & Hm0 & Hs0).
  pose proof (mirrors_epoch_keys st0 (sample_member 0) sample_owned Hm0) as Hm1. set (st1 := <[_ := _]> st0) in Hm1.
  destruct (merge_advances _ (sample_member 0) st1 sample_owned Hm1 Hid (read_epoch_keypairs_spec _ _ (Some sample_owned) (lookup_insert_eq _ _ _)))
    as (g' & st' & E & _ & _ & Hmem).
  { apply Nat.le_0_l. }
  rewrite Es in Hmem. destruct Hmem as (Ec & _ & Em & _).
  exists st1, g', st', b, state. split; [exact Eb|]. split; [exact Es|]. split; [exact E|]. split; [exact Ec|exact Em].
Defined.

(** Member 0 commits: afterwards it cannot commit again, and it can drop the commit. *)
Lemma life_cycle_witness : exists st b, sample_building = Ok b /\
  let s : client := (set_group_state (PendingCommit (PendingMember (built_staged_commit b))) (sample_member 0), st) in
  (exists e, leave_group no_content (mkProvider sample_provider toy_signer (Ok [1]) None) s = (Err e, s)) /\
  phase_step s (clear_pending_commit s).2.
Proof.
  destruct sample_staged as (b & state & Eb & Es & Hid). destruct sample_created as (st0 & E0 & Hm0 & Hs0).
  pose proof (mirrors_state st0 (sample_member 0) (PendingCommit (PendingMember (built_staged_commit b)))) as Hm. set (st := <[_ := _]> st0) in Hm.
  exists st, b. split; [exact Eb|]. cbv zeta.
  assert (Hm' : mirrors st (set_group_state (PendingCommit (PendingMember (built_staged_commit b))) (sample_member 0))).
  { apply Hm; [|discriminate|exact Hm0]. intros sc [= <-]. exact Hid. }
  split.
  - refine (proj1 (proj2 (life_cycle no_content (fun m => map_to_list m) _ _ (_, _) (op_leave _ _ _ _) Hm')) (guarded_leave _ _ _) _). discriminate.
  - exact (proj1 (life_cycle no_content (fun m => map_to_list m) _ _ (_, _) (op_clear_commit _ _ _) Hm')).
Defined.

End GroupSamples.
