(* ===== verification/Joining.v ===== *)
(** * Creating groups and joining them

    Models how a client comes to be a member: [messages/group_info.rs], the [Welcome] and
    its secrets ([messages/mod.rs]), the part of the commit builder that makes them
    ([group/mls_group/commit_builder.rs], [treesync/treekem.rs]), the creation of a group
    ([group/mls_group/builder.rs], [group/public_group/builder.rs]), the validation of a
    received tree ([PublicGroup::from_external]) and the processing of a welcome
    ([group/mls_group/creation.rs]).

    A committer that adds members encrypts to each of them the joiner secret of the new
    epoch and, if the commit has a path, the path secret of the lowest node on the path
    above both; the signed group info is encrypted under a key derived from the joiner
    secret.  The theorems show that the client that joins and the committer are then in
    the same epoch. *)

From Stdlib Require Import String.
From stdpp Require Import functions.
From S2P Require Import Prelude TreeMath Crypto Tls BinaryTree SenderRatchet SecretTree LeafNodes Nodes TreeSyncDiff TreeHash UpdatePaths TreeKem TreeSync EpochStores Proposals PublicGroup Validation Storage Commits KeySchedule Members Framing GroupState Countables Agreement GroupPersistence GroupMessages.

(** ** Key packages *)

Record KeyPackageBundle := mkKeyPackageBundle {
  bundle_key_package : KeyPackage;
  private_init_key : bytes;
  private_encryption_key : bytes
}.

Definition last_resort (kp : KeyPackage) : bool := Extensions_contains (kp_extensions kp) ExtLastResort.

Definition bundle_encryption_key_pair (b : KeyPackageBundle) : EncryptionKeyPair :=
  (leaf_encryption_key (payload (kp_leaf_node (bundle_key_package b))), private_encryption_key b).

(** ** Group info *)

Record GroupInfoTBS := mkGroupInfoTBS {
  gi_group_context : GroupContext;
  gi_extensions : Extensions;
  gi_confirmation_tag : bytes;
  gi_signer : LeafNodeIndex
}.

(** [GroupInfo] and [VerifiableGroupInfo] have the same fields. *)
Record GroupInfo := mkGroupInfo {
  gi_payload : GroupInfoTBS;
  gi_signature : bytes
}.

Definition gi_ciphersuite (g : GroupInfo) : Ciphersuite := gc_ciphersuite (gi_group_context (gi_payload g)).

Inductive GroupInfoError := GroupInfoDecryptionFailed | GroupInfoMalformed.

(** ** Welcome *)

Record GroupSecrets := mkGroupSecrets {
  gs_joiner_secret : Secret;
  gs_path_secret : option PathSecret;
  gs_psks : list PreSharedKeyId
}.

Inductive GroupSecretsError := GroupSecretsDecryptionFailed | GroupSecretsMalformed.

Record EncryptedGroupSecrets := mkEncryptedGroupSecrets {
  new_member : bytes;
  encrypted_group_secrets : HpkeCiphertext
}.

Record Welcome := mkWelcome {
  welcome_ciphersuite : Ciphersuite;
  welcome_secrets : list EncryptedGroupSecrets;
  encrypted_group_info : bytes
}.

Definition find_encrypted_group_secret (w : Welcome) (hash_ref : bytes) : option EncryptedGroupSecrets :=
  List.find (fun egs => bool_decide (hash_ref = new_member egs)) (welcome_secrets w).

(** The encodings that are needed.  [Extension] keeps the tree of a ratchet tree extension
    encoded. *)
Class JoinEncoding := {
  tls_key_package : KeyPackage -> option bytes;
  codec_group_secrets : Codec GroupSecrets;
  codec_group_info : Codec GroupInfo;
  write_group_info_tbs : Writer GroupInfoTBS;
  (** [SignContent { label, content }] *)
  write_labelled : Writer (bytes * bytes);
  ratchet_tree_bytes : RatchetTree -> bytes;
  ratchet_tree_of_bytes : bytes -> RatchetTree
}.

Class JoinLaws `{!JoinEncoding} : Prop := {
  group_secrets_codec_ok : codec_ok codec_group_secrets;
  group_info_codec_ok : codec_ok codec_group_info;
  ratchet_tree_bytes_ok t : ratchet_tree_of_bytes (ratchet_tree_bytes t) = t
}.

(** ** Errors *)

Inductive CreationFromExternalError :=
| ExternalLibraryError (e : LibraryError)
| ExternalTreeSyncError (e : TreeSyncFromNodesError)
| ExternalUnknownSender
| ExternalInvalidSignature
| TreeHashMismatch
| ExternalUnsupportedVersion
| ExternalLeafNodeValidation (e : LeafNodeValidationError)
| WriteToStorageError (e : MemoryStorageError)
| UnmergedLeafNotADescendant
| IntermediateNodeMissingUnmergedLeaf
| DuplicateEncryptionKey.

(** The cases of [WelcomeError] that are returned *)
Inductive WelcomeError :=
| WelcomeGroupSecrets (e : GroupSecretsError)
| WelcomeLibraryError (e : LibraryError)
| CiphersuiteMismatch
| WelcomeGroupInfo (e : GroupInfoError)
| JoinerSecretNotFound
| MissingRatchetTree
| ConfirmationTagMismatch
| WelcomePsk (e : PskError)
| NoMatchingKeyPackage
| WelcomeMalformedTree
| WelcomePublicKeyMismatch
| WelcomePublicGroup (e : CreationFromExternalError)
| WelcomeLeafNodeValidation (e : LeafNodeValidationError)
| WelcomeStorage (e : MemoryStorageError).

Section Joining.
Context `{!JoinEncoding} `{!ContextEncoding} `{!OpenMlsCrypto} `{!AeadProvider} `{!SignatureProvider} `{!ProposalHashing} `{!TreeHashing} `{!TranscriptEncoding} `{!OpenMlsHpke} `{!PskEncoding}.

Definition make_key_package_ref (value : bytes) (c : Ciphersuite) : outcome CryptoError bytes :=
  HashReference_new value c (str_bytes "MLS 1.0 KeyPackage Reference").

Definition hash_ref (kp : KeyPackage) : outcome LibraryError bytes :=
  encoded ← ok_or (tls_key_package kp) LibraryMissingBoundsCheck;
  map_err LibraryCryptoError (make_key_package_ref encoded (kp_ciphersuite kp)).

(** ** Signing and encrypting *)

Definition group_info_sign_payload (tbs : GroupInfoTBS) : outcome TlsError bytes :=
  payload ← tls_serialize write_group_info_tbs tbs;
  tls_serialize write_labelled (str_bytes ("MLS 1.0 " ++ "GroupInfoTBS"), payload).

Definition GroupInfoTBS_sign (tbs : GroupInfoTBS) (signer : Signer) : outcome SignatureError GroupInfo :=
  payload ← map_err (fun _ => SignatureSigningError) (group_info_sign_payload tbs);
  signature ← map_err (fun _ => SignatureSigningError) (signer payload);
  Ok {| gi_payload := tbs; gi_signature := signature |}.

Definition GroupInfo_verify (g : GroupInfo) (scheme : SignatureScheme) (pk : bytes) : outcome SignatureError GroupInfo :=
  payload ← map_err (fun _ => VerificationError) (group_info_sign_payload (gi_payload g));
  _ ← map_err (fun _ => VerificationError) (provider_verify_signature scheme payload pk (gi_signature g));
  Ok g.

(** [VerifiableGroupInfo::try_from_ciphertext] *)
Definition GroupInfo_try_from_ciphertext (skey : AeadKey) (nonce : AeadNonce) (ciphertext context : bytes) : outcome GroupInfoError GroupInfo :=
  plaintext ← map_err (fun _ => GroupInfoDecryptionFailed) (aead_open skey ciphertext context nonce);
  '(info, rest) ← map_err (fun _ => GroupInfoMalformed) (tls_deserialize codec_group_info plaintext);
  match rest with [] => Ok info | _ => Err GroupInfoMalformed end.

(** [tls_deserialize_exact] refuses trailing bytes. *)
Definition GroupSecrets_try_from_ciphertext (skey : bytes) (ciphertext : HpkeCiphertext) (context : bytes) (c : Ciphersuite) : outcome GroupSecretsError GroupSecrets :=
  plaintext ← map_err (fun _ => GroupSecretsDecryptionFailed) (decrypt_with_label skey "Welcome" context ciphertext c);
  '(secrets, rest) ← map_err (fun _ => GroupSecretsMalformed) (tls_deserialize codec_group_secrets plaintext);
  match rest with [] => Ok secrets | _ => Err GroupSecretsMalformed end.

(** [GroupSecrets::new_encoded] *)
Definition new_encoded (joiner_secret : Secret) (path_secret : option PathSecret) (psks : list PreSharedKeyId) : outcome TlsError bytes :=
  tls_serialize codec_group_secrets {| gs_joiner_secret := joiner_secret; gs_path_secret := path_secret; gs_psks := psks |}.

(** One round of the loop of [encrypt_group_secrets] *)
Definition encrypt_secrets_for (d : TreeSyncDiff) (joiner_secret : Secret) (plain_path_option : option (list PlainUpdatePathNode))
    (presharedkeys : list PreSharedKeyId) (encrypted_group_info : bytes) (encryptor_leaf_index : LeafNodeIndex) (member : LeafNodeIndex * KeyPackage) :
    outcome LibraryError EncryptedGroupSecrets :=
  let '(leaf_index, key_package) := member in
  direct_path_position ← map_err (fun _ => LibraryCustom) (subtree_root_position d encryptor_leaf_index leaf_index);
  path_secret_option ← (match plain_path_option with
    | Some plain_path => s ← ok_or (plain_path_secret <$> plain_path !! direct_path_position) LibraryCustom; Ok (Some s)
    | None => Ok None
    end);
  group_secrets_bytes ← map_err (fun _ => LibraryMissingBoundsCheck) (new_encoded joiner_secret path_secret_option presharedkeys);
  ciphertext ← map_err (fun _ => LibraryCustom)
    (encrypt_with_label (kp_init_key key_package) "Welcome" encrypted_group_info group_secrets_bytes (kp_ciphersuite key_package));
  reference ← hash_ref key_package;
  Ok {| new_member := reference; encrypted_group_secrets := ciphertext |}.

Definition encrypt_group_secrets (d : TreeSyncDiff) (joiner_secret : Secret) (invited_members : list (LeafNodeIndex * KeyPackage))
    (plain_path_option : option (list PlainUpdatePathNode)) (presharedkeys : list PreSharedKeyId) (encrypted_group_info : bytes)
    (encryptor_leaf_index : LeafNodeIndex) : outcome LibraryError (list EncryptedGroupSecrets) :=
  mapM (encrypt_secrets_for d joiner_secret plain_path_option presharedkeys encrypted_group_info encryptor_leaf_index) invited_members.

(** [export_ratchet_tree] of a diff: like that of a tree, but up to the leaf that the
    counters name *)
Definition tsd_export_ratchet_tree (s : TreeSyncDiff) : RatchetTree :=
  let max_length := rightmost_full_leaf s in
  let all_leaves := map snd (AbDiff_leaves (diff s)) in
  let all_parents := map snd (AbDiff_parents (diff s)) in
  match take (Z.to_nat max_length + 1) all_leaves with
  | [] => trimmed []
  | leaf :: leaves =>
    let parents := take (Z.to_nat max_length) all_parents ++ replicate (length all_leaves - 1 - length all_parents) blank in
    trimmed ((NodeLeaf <$> leaf) ::
      concat (zip_with (fun leaf parent => [NodeParent <$> parent; NodeLeaf <$> leaf]) leaves parents))
  end.

(** ** The commit builder: group info and welcome *)

Definition group_info_extensions (use_ratchet_tree_extension : bool) (tree : RatchetTree) (external_pub : bytes) : outcome InvalidExtensionError Extensions :=
  if use_ratchet_tree_extension
  then Extensions_try_from [RatchetTreeExtension (ratchet_tree_bytes tree); ExternalPubExtension external_pub]
  else Ok [ExternalPubExtension external_pub].

Definition commit_group_info (g : MlsGroup) (signer : Signer) (parts : CommitParts) : method PublicGroupDiff CreateCommitError (option GroupInfo) :=
  let needs_welcome := negb (is_empty (invitation_list (parts_values parts))) in
  let use_ratchet_tree := use_ratchet_tree_extension (mls_group_config g) in
  if negb (needs_welcome || use_ratchet_tree) then mret None
  else
    '(external_pub, _) ← lift (map_err (fun e => CreateLibraryError (LibraryCryptoError e))
      (derive_external_keypair (MlsGroup_ciphersuite g) (external_secret (parts_secrets parts))));
    self ← get;
    es ← lift (map_err (fun _ => CreateInvalidExtension) (group_info_extensions use_ratchet_tree (tsd_export_ratchet_tree (pgd_diff self)) external_pub));
    info ← lift (map_err (fun _ => CreateSignatureError) (GroupInfoTBS_sign {|
      gi_group_context := pgd_context self; gi_extensions := es; gi_confirmation_tag := parts_tag parts; gi_signer := own_leaf_index g |} signer));
    mret (Some info).

Definition commit_welcome (g : MlsGroup) (parts : CommitParts) (info : option GroupInfo) : method PublicGroupDiff CreateCommitError (option Welcome) :=
  let c := MlsGroup_ciphersuite g in
  let invitations := invitation_list (parts_values parts) in
  match invitations with
  | [] => mret None
  | _ =>
    '(welcome_key, welcome_nonce) ← lift (map_err (fun e => CreateLibraryError (LibraryCryptoError e)) (derive_welcome_key_nonce c (parts_welcome_secret parts)));
    info ← lift (ok_or info (CreateLibraryError LibraryCustom));
    encoded ← lift (map_err (fun _ => CreateLibraryError LibraryMissingBoundsCheck) (tls_serialize codec_group_info info));
    encrypted_group_info ← lift (map_err (fun e => CreateLibraryError (LibraryCryptoError e)) (aead_seal welcome_key encoded [] welcome_nonce));
    self ← get;
    encrypted_secrets ← lift (map_err CreateLibraryError (encrypt_group_secrets (pgd_diff self) (parts_joiner_secret parts) invitations
      (pcr_plain_path (parts_path parts)) (presharedkeys (parts_values parts)) encrypted_group_info (own_leaf_index g)));
    mret (Some {| welcome_ciphersuite := c; welcome_secrets := encrypted_secrets; encrypted_group_info := encrypted_group_info |})
  end.

Record CreateCommitResult := mkCreateCommitResult {
  result_commit : BuiltCommit;
  result_welcome : option Welcome;
  result_group_info : option GroupInfo
}.

(** [build_internal] *)
Definition build_welcoming (map_order : gmap LeafNodeIndex FilterMember -> list (LeafNodeIndex * FilterMember)) (now : option Z) (pr : CommitProvider)
    (signer : Signer) (g : MlsGroup) (stage : LoadedPsks) (f : QueuedProposal -> bool) : outcome CreateCommitError CreateCommitResult :=
  '(q, contains_own_updates) ← choose_proposals map_order now g stage f;
  ((parts ← build_parts pr g stage q contains_own_updates;
    info ← commit_group_info g signer parts;
    w ← commit_welcome g parts info;
    built ← stage_parts g q parts;
    mret {| result_commit := built; result_welcome := w;
            result_group_info := if use_ratchet_tree_extension (mls_group_config g) then info else None |})
   (PublicGroup_empty_diff (public_group g))).1.

(** ** A received tree *)

(** The encryption keys of the leaves, in a [HashSet] as a list *)
Fixpoint check_leaves (leaves : list LeafNode) (encryption_keys : list bytes) : outcome CreationFromExternalError (list bytes) :=
  match leaves with
  | [] => Ok encryption_keys
  | leaf :: leaves =>
    _ ← map_err ExternalLeafNodeValidation (validate_locally leaf);
    if mem (leaf_encryption_key (payload leaf)) encryption_keys then Err DuplicateEncryptionKey
    else check_leaves leaves (leaf_encryption_key (payload leaf) :: encryption_keys)
  end.

(** One entry of the unmerged leaves of the parent at [parent_index] *)
Definition check_unmerged_leaf (ts : TreeSync) (parent_index : ParentNodeIndex) (leaf_index : LeafNodeIndex) : outcome CreationFromExternalError () :=
  let path := direct_path leaf_index (TreeSync_tree_size ts) in
  this_parent_offset ← ok_or (position (fun x => x =? parent_index) path) UnmergedLeafNotADescendant;
  if forallb (fun intermediate_index =>
      match TreeSync_parent ts intermediate_index with
      | Some intermediate_node => mem leaf_index (unmerged_leaves intermediate_node)
      | None => true
      end) (take this_parent_offset path)
  then Ok tt else Err IntermediateNodeMissingUnmergedLeaf.

Fixpoint check_parents (ts : TreeSync) (parents : list (ParentNodeIndex * ParentNode)) (encryption_keys : list bytes) : outcome CreationFromExternalError () :=
  match parents with
  | [] => Ok tt
  | (parent_index, parent_node) :: parents =>
    if mem (parent_encryption_key parent_node) encryption_keys then Err DuplicateEncryptionKey
    else
      _ ← mapM (check_unmerged_leaf ts parent_index) (unmerged_leaves parent_node);
      check_parents ts parents (parent_encryption_key parent_node :: encryption_keys)
  end.

Context `{!Serde bytes} `{!Serde TreeSync} `{!Serde ConfirmationTag} `{!Serde GroupContext} `{!Serde InterimTranscriptHash}.

(** [verify] checks the signature of a leaf at its position, [now] is the time. *)
Definition from_external (now : option Z) (verify : LeafNodeIndex -> LeafNode -> bool) (ratchet_tree : RatchetTree) (info : GroupInfo) (store : ProposalStore) :
    method MemoryStorage CreationFromExternalError (PublicGroup * GroupInfo) :=
  let c := gi_ciphersuite info in
  ratchet_tree ← lift (map_err (fun e => ExternalTreeSyncError (FromNodesRatchetTreeError e)) (try_from_nodes verify ratchet_tree));
  ts ← lift (map_err ExternalTreeSyncError (from_ratchet_tree c ratchet_tree));
  encryption_keys ← lift (check_leaves (full_leaves ts) []);
  lift (check_parents ts (full_parents ts) encryption_keys);;
  signer_leaf ← lift (ok_or (TreeSync_leaf ts (gi_signer (gi_payload info))) ExternalUnknownSender);
  info ← lift (map_err (fun _ => ExternalInvalidSignature) (GroupInfo_verify info (signature_algorithm c) (leaf_signature_key (payload signer_leaf))));
  let group_context := gi_group_context (gi_payload info) in
  if negb (bool_decide (ts_tree_hash ts = gc_tree_hash group_context)) then fail TreeHashMismatch
  else if negb (bool_decide (gc_protocol_version group_context = Mls10)) then fail ExternalUnsupportedVersion
  else
    hash ← lift (map_err ExternalLibraryError (calculate_interim_transcript_hash (gc_ciphersuite group_context)
      (gc_confirmed_transcript_hash group_context) (gi_confirmation_tag (gi_payload info))));
    let public_group := {| treesync := ts; proposal_store := store; group_context := group_context; interim_transcript_hash := hash;
      confirmation_tag := gi_confirmation_tag (gi_payload info) |} in
    lift (map_err ExternalLeafNodeValidation (_ ← mapM (validate_leaf_node now public_group) (full_leaves ts); Ok tt));;
    lift_state WriteToStorageError (PublicGroup_store public_group);;
    mret (public_group, info).

(** ** Processing a welcome *)

Record ProcessedWelcome := mkProcessedWelcome {
  pw_config : MlsGroupJoinConfig;
  pw_ciphersuite : Ciphersuite;
  pw_group_secrets : GroupSecrets;
  pw_key_schedule : KeySchedule;
  pw_group_info : GroupInfo;
  pw_resumption_psk_store : ResumptionPskStore Secret;
  pw_bundle : KeyPackageBundle
}.

Record StagedWelcome := mkStagedWelcome {
  sw_config : MlsGroupJoinConfig;
  sw_public_group : PublicGroup;
  sw_group_epoch_secrets : GroupEpochSecrets;
  sw_own_leaf_index : LeafNodeIndex;
  sw_message_secrets_store : MessageSecretsStore MessageSecrets;
  sw_resumption_psk_store : ResumptionPskStore Secret;
  sw_group_info : GroupInfo;
  sw_bundle : KeyPackageBundle;
  sw_path_keypairs : option (list EncryptionKeyPair)
}.

Context `{!Serde KeyPackageBundle} `{!Serde Psk} `{!Serde PskBundle}.

(** [find_map] over the secrets: the first key package that is stored, or the first error *)
Fixpoint find_key_package (secrets : list EncryptedGroupSecrets) : method MemoryStorage MemoryStorageError (option KeyPackageBundle) :=
  match secrets with
  | [] => mret None
  | egs :: secrets =>
    found ← Memory.key_package (new_member egs);
    match found with
    | Some bundle => mret (Some bundle)
    | None => find_key_package secrets
    end
  end.

Definition keys_for_welcome (config : MlsGroupJoinConfig) (w : Welcome) : method MemoryStorage WelcomeError (ResumptionPskStore Secret * KeyPackageBundle) :=
  let store := ResumptionPskStore_new (Z.to_nat (number_of_resumption_psks config)) in
  found ← lift_state WelcomeStorage (find_key_package (welcome_secrets w));
  bundle ← lift (ok_or found NoMatchingKeyPackage);
  (if negb (last_resort (bundle_key_package bundle)) then
     reference ← lift (map_err WelcomeLibraryError (hash_ref (bundle_key_package bundle)));
     lift_state WelcomeStorage (Memory.delete_key_package reference)
   else mret tt);;
  mret (store, bundle).

Definition ProcessedWelcome_new_from_welcome (config : MlsGroupJoinConfig) (w : Welcome) : method MemoryStorage WelcomeError ProcessedWelcome :=
  '(resumption_psk_store, bundle) ← keys_for_welcome config w;
  let c := welcome_ciphersuite w in
  reference ← lift (map_err WelcomeLibraryError (hash_ref (bundle_key_package bundle)));
  egs ← lift (ok_or (find_encrypted_group_secret w reference) JoinerSecretNotFound);
  if negb (bool_decide (c = kp_ciphersuite (bundle_key_package bundle))) then fail CiphersuiteMismatch
  else
    group_secrets ← lift (map_err WelcomeGroupSecrets (GroupSecrets_try_from_ciphertext (private_init_key bundle) (encrypted_group_secrets egs)
      (encrypted_group_info w) c));
    psks ← lift_state WelcomePsk (load_psks resumption_psk_store (gs_psks group_secrets));
    psk_secret ← lift (map_err WelcomePsk (PskSecret_new c psks));
    key_schedule ← lift (map_err WelcomeLibraryError (KeySchedule_init c (gs_joiner_secret group_secrets) psk_secret));
    welcome_secret ← lift (map_err (fun _ => WelcomeLibraryError LibraryCustom) (welcome key_schedule c));
    '(welcome_key, welcome_nonce) ← lift (map_err (fun e => WelcomeLibraryError (LibraryCryptoError e)) (derive_welcome_key_nonce c welcome_secret));
    info ← lift (map_err WelcomeGroupInfo (GroupInfo_try_from_ciphertext welcome_key welcome_nonce (encrypted_group_info w) []));
    lift (match required_capabilities (gi_extensions (gi_payload info)) with
      | Some required => map_err WelcomeLeafNodeValidation
          (supports_required_capabilities (leaf_capabilities (payload (kp_leaf_node (bundle_key_package bundle)))) required)
      | None => Ok tt
      end);;
    if negb (bool_decide (gi_ciphersuite info = kp_ciphersuite (bundle_key_package bundle))) then fail CiphersuiteMismatch
    else mret {| pw_config := config; pw_ciphersuite := c; pw_group_secrets := group_secrets; pw_key_schedule := key_schedule; pw_group_info := info;
                 pw_resumption_psk_store := resumption_psk_store; pw_bundle := bundle |}.

Definition ratchet_tree_extension (es : Extensions) : option RatchetTree :=
  e ← find_by_type es ExtRatchetTree;
  match e with RatchetTreeExtension b => Some (ratchet_tree_of_bytes b) | _ => None end.

Definition own_leaf_of (bundle : KeyPackageBundle) (g : PublicGroup) : option LeafNodeIndex :=
  member_index <$> List.find (fun m => bool_decide (member_signature_key m = leaf_signature_key (payload (kp_leaf_node (bundle_key_package bundle)))))
    (full_leave_members (treesync g)).

(** [split_secrets] of the epoch secrets that the key schedule gives in the context of the group *)
Definition joiner_epoch_secrets (c : Ciphersuite) (key_schedule : KeySchedule) (g : PublicGroup) (own_leaf_index : LeafNodeIndex) :
    outcome WelcomeError (GroupEpochSecrets * MessageSecrets) :=
  serialized_group_context ← ok_or (tls_group_context (group_context g)) (WelcomeLibraryError LibraryMissingBoundsCheck);
  let '(added, key_schedule) := add_context serialized_group_context key_schedule in
  _ ← map_err (fun _ => WelcomeLibraryError LibraryCustom) added;
  secrets ← map_err (fun _ => WelcomeLibraryError LibraryCustom) (KeySchedule.epoch_secrets c key_schedule).1;
  Ok (split_secrets secrets serialized_group_context (TreeSync_tree_size (treesync g)) own_leaf_index).

Definition into_staged_welcome (now : option Z) (verify : LeafNodeIndex -> LeafNode -> bool) (pw : ProcessedWelcome) (ratchet_tree : option RatchetTree) :
    method MemoryStorage WelcomeError StagedWelcome :=
  let info := pw_group_info pw in
  let c := pw_ciphersuite pw in
  ratchet_tree ← lift (match ratchet_tree_extension (gi_extensions (gi_payload info)) with
    | Some tree => Ok tree
    | None => ok_or ratchet_tree MissingRatchetTree
    end);
  '(public_group, _) ← lift_state WelcomePublicGroup (from_external now verify ratchet_tree info ProposalStore_new);
  own_leaf_index ← lift (ok_or (own_leaf_of (pw_bundle pw) public_group) WelcomeMalformedTree);
  '(group_epoch_secrets, message_secrets) ← lift (joiner_epoch_secrets c (pw_key_schedule pw) public_group own_leaf_index);
  tag ← lift (map_err (fun e => WelcomeLibraryError (LibraryCryptoError e))
    (ConfirmationKey_tag c (ms_confirmation_key message_secrets) (gc_confirmed_transcript_hash (group_context public_group))));
  if negb (Mac_eq tag (confirmation_tag public_group)) then fail ConfirmationTagMismatch
  else
    let store := ResumptionPskStore_add (gc_epoch (group_context public_group)) (ge_resumption_psk group_epoch_secrets) (pw_resumption_psk_store pw) in
    path_keypairs ← lift (match gs_path_secret (pw_group_secrets pw) with
      | Some path_secret =>
        '(keypairs, _) ← map_err (fun e => match e with DeriveLibraryError e => WelcomeLibraryError e | PublicKeyMismatch => WelcomePublicKeyMismatch end)
          (derive_path_secrets c (treesync public_group) path_secret (gi_signer (gi_payload info)) own_leaf_index);
        Ok (Some keypairs)
      | None => Ok None
      end);
    mret {| sw_config := pw_config pw; sw_public_group := public_group; sw_group_epoch_secrets := group_epoch_secrets; sw_own_leaf_index := own_leaf_index;
            sw_message_secrets_store := new_with_secret 0 message_secrets; sw_resumption_psk_store := store; sw_group_info := info;
            sw_bundle := pw_bundle pw; sw_path_keypairs := path_keypairs |}.

Definition StagedWelcome_new_from_welcome (now : option Z) (verify : LeafNodeIndex -> LeafNode -> bool) (config : MlsGroupJoinConfig) (w : Welcome) (ratchet_tree : option RatchetTree) :
    method MemoryStorage WelcomeError StagedWelcome :=
  pw ← ProcessedWelcome_new_from_welcome config w; into_staged_welcome now verify pw ratchet_tree.

Context `{!Serde Z} `{!Serde QueuedProposal} `{!Serde (bytes * bytes)} `{!Serde (list bytes)} `{!Serde GroupEpochSecrets} `{!Serde LeafNode}.
Context `{!Serde (MessageSecretsStore MessageSecrets)} `{!Serde (ResumptionPskStore Secret)} `{!Serde MlsGroupJoinConfig} `{!Serde MlsGroupState}.
Context `{!Serde StoredKeyPair} `{!Serde (list EncryptionKeyPair)}.

Definition welcomed_group (sw : StagedWelcome) : MlsGroup := {|
  mls_group_config := sw_config sw; public_group := sw_public_group sw; group_epoch_secrets := sw_group_epoch_secrets sw;
  own_leaf_index := sw_own_leaf_index sw; message_secrets_store := sw_message_secrets_store sw; resumption_psk_store := sw_resumption_psk_store sw;
  own_leaf_nodes := []; aad := []; group_state := Operational |}.

(** [StagedWelcome::into_group] *)
Definition into_group (sw : StagedWelcome) : method MemoryStorage WelcomeError MlsGroup :=
  let group_keypairs := bundle_encryption_key_pair (sw_bundle sw) :: default [] (sw_path_keypairs sw) in
  let g := welcomed_group sw in
  lift_state WelcomeStorage (store_epoch_keypairs g group_keypairs);;
  g ← no_error (outcome_state (set_max_past_epochs (Z.to_nat (max_past_epochs (mls_group_config g))) g));
  lift_state WelcomeStorage (MlsGroup_store g);;
  mret g.

(** ** Creating a group *)

Record MlsGroupCreateConfig := mkMlsGroupCreateConfig {
  create_capabilities : Capabilities;
  create_lifetime : Lifetime;
  create_ciphersuite : Ciphersuite;
  create_join_config : MlsGroupJoinConfig;
  create_group_context_extensions : Extensions;
  create_leaf_node_extensions : Extensions
}.

Inductive NewGroupError :=
| NewGroupLibraryError (e : LibraryError)
| NewGroupStorage (e : MemoryStorageError)
| NewGroupInvalidExtensions (e : InvalidExtensionError).

(** [TempBuilderPG1] *)
Record TempBuilder := mkTempBuilder {
  tb_group_id : bytes;
  tb_ciphersuite : Ciphersuite;
  tb_lifetime : option Lifetime;
  tb_capabilities : option Capabilities;
  tb_leaf_node_extensions : Extensions;
  tb_group_context_extensions : Extensions
}.

Definition PublicGroup_builder (group_id : bytes) (c : Ciphersuite) : TempBuilder := {|
  tb_group_id := group_id; tb_ciphersuite := c; tb_lifetime := None; tb_capabilities := None; tb_leaf_node_extensions := []; tb_group_context_extensions := [] |}.

Definition with_group_context_extensions (es : Extensions) (b : TempBuilder) : outcome InvalidExtensionError TempBuilder :=
  if bool_decide (find_by_type es ExtApplicationId = None) && bool_decide (find_by_type es ExtRatchetTree = None) && bool_decide (find_by_type es ExtExternalPub = None)
  then Ok {| tb_group_id := tb_group_id b; tb_ciphersuite := tb_ciphersuite b; tb_lifetime := tb_lifetime b; tb_capabilities := tb_capabilities b;
             tb_leaf_node_extensions := tb_leaf_node_extensions b; tb_group_context_extensions := es |}
  else Err IllegalInGroupContext.

Definition with_leaf_node_extensions (es : Extensions) (b : TempBuilder) : outcome InvalidExtensionError TempBuilder :=
  if forallb (fun e => match extension_type e with ExtUnknown _ => true | _ => false end) es
  then Ok {| tb_group_id := tb_group_id b; tb_ciphersuite := tb_ciphersuite b; tb_lifetime := tb_lifetime b; tb_capabilities := tb_capabilities b;
             tb_leaf_node_extensions := es; tb_group_context_extensions := tb_group_context_extensions b |}
  else Err IllegalInLeafNodes.

Definition with_lifetime (lifetime : Lifetime) (b : TempBuilder) : TempBuilder := {|
  tb_group_id := tb_group_id b; tb_ciphersuite := tb_ciphersuite b; tb_lifetime := Some lifetime; tb_capabilities := tb_capabilities b;
  tb_leaf_node_extensions := tb_leaf_node_extensions b; tb_group_context_extensions := tb_group_context_extensions b |}.
Definition with_capabilities (capabilities : Capabilities) (b : TempBuilder) : TempBuilder := {|
  tb_group_id := tb_group_id b; tb_ciphersuite := tb_ciphersuite b; tb_lifetime := tb_lifetime b; tb_capabilities := Some capabilities;
  tb_leaf_node_extensions := tb_leaf_node_extensions b; tb_group_context_extensions := tb_group_context_extensions b |}.

(** What the creator draws and signs: its leaf, with the key pair, from capabilities,
    extensions and lifetime; the first path secret; the init secret; a random group id;
    and [Lifetime::default()] *)
Record CreationProvider := mkCreationProvider {
  draw_leaf : Capabilities -> Extensions -> Lifetime -> outcome LibraryError (LeafNode * EncryptionKeyPair);
  draw_secret : outcome CryptoError Secret;
  draw_init_secret : outcome CryptoError Secret;
  draw_group_id : bytes;
  default_lifetime : Lifetime
}.

(** [TempBuilderPG1::get_secrets]; [TempBuilderPG2] is the tree and the group context. *)
Definition get_secrets (pr : CreationProvider) (b : TempBuilder) : outcome LibraryError (TreeSync * GroupContext * CommitSecret * EncryptionKeyPair) :=
  let required := required_capabilities (tb_group_context_extensions b) in
  let capabilities := default (Capabilities_new (Some [Mls10]) (Some [tb_ciphersuite b]) (extension_types <$> required) (proposal_types <$> required)
    (credential_types <$> required)) (tb_capabilities b) in
  '(ts, commit_secret, leaf_keypair) ← TreeSync_new (draw_leaf pr capabilities (tb_leaf_node_extensions b) (default (default_lifetime pr) (tb_lifetime b)))
    (draw_secret pr) (tb_ciphersuite b);
  Ok (ts, create_initial_group_context (tb_ciphersuite b) (tb_group_id b) (ts_tree_hash ts) (tb_group_context_extensions b), commit_secret, leaf_keypair).

Record MlsGroupBuilder := mkMlsGroupBuilder {
  builder_group_id : option bytes;
  builder_config : MlsGroupCreateConfig;
  builder_psk_ids : list PreSharedKeyId
}.

(** The secrets of the first epoch *)
Definition creator_secrets (c : Ciphersuite) (joiner_secret psk_secret : Secret) (context : bytes) : outcome NewGroupError EpochSecrets :=
  key_schedule ← map_err NewGroupLibraryError (KeySchedule_init c joiner_secret psk_secret);
  let '(added, key_schedule) := add_context context key_schedule in
  _ ← map_err (fun _ => NewGroupLibraryError LibraryCustom) added;
  map_err (fun _ => NewGroupLibraryError LibraryCustom) (KeySchedule.epoch_secrets c key_schedule).1.

(** [build_internal] of the group builder *)
Definition MlsGroupBuilder_build_internal (pr : CreationProvider) (b : MlsGroupBuilder) (config_option : option MlsGroupCreateConfig) :
    method MemoryStorage NewGroupError MlsGroup :=
  let config := default (builder_config b) config_option in
  let group_id := default (draw_group_id pr) (builder_group_id b) in
  let c := create_ciphersuite config in
  tb ← lift (map_err NewGroupInvalidExtensions (with_group_context_extensions (create_group_context_extensions config) (PublicGroup_builder group_id c)));
  tb ← lift (map_err NewGroupInvalidExtensions (with_leaf_node_extensions (create_leaf_node_extensions config) tb));
  let tb := with_capabilities (create_capabilities config) (with_lifetime (create_lifetime config) tb) in
  '(ts, context, commit_secret, leaf_keypair) ← lift (map_err NewGroupLibraryError (get_secrets pr tb));
  serialized_group_context ← lift (ok_or (tls_group_context context) (NewGroupLibraryError LibraryMissingBoundsCheck));
  init_secret ← lift (map_err (fun e => NewGroupLibraryError (LibraryCryptoError e)) (draw_init_secret pr));
  joiner_secret ← lift (map_err (fun e => NewGroupLibraryError (LibraryCryptoError e)) (JoinerSecret_new c (Some commit_secret) init_secret serialized_group_context));
  let resumption_psk_store := ResumptionPskStore_new 32 in
  psks ← lift_state (fun _ => NewGroupLibraryError LibraryCustom) (load_psks resumption_psk_store (builder_psk_ids b));
  psk_secret ← lift (map_err (fun _ => NewGroupLibraryError LibraryCustom) (PskSecret_new c psks));
  secrets ← lift (creator_secrets c joiner_secret psk_secret serialized_group_context);
  let '(group_epoch_secrets, message_secrets) := split_secrets secrets serialized_group_context 1 0 in
  tag ← lift (map_err (fun e => NewGroupLibraryError (LibraryCryptoError e)) (ConfirmationKey_tag c (ms_confirmation_key message_secrets) []));
  public_group ← lift (map_err NewGroupLibraryError (PublicGroup_new ts context tag));
  let g := {|
    mls_group_config := create_join_config config; public_group := public_group; group_epoch_secrets := group_epoch_secrets; own_leaf_index := 0;
    message_secrets_store := new_with_secret (Z.to_nat (max_past_epochs (create_join_config config))) message_secrets;
    resumption_psk_store := ResumptionPskStore_add (gc_epoch (group_context public_group)) (ge_resumption_psk group_epoch_secrets) resumption_psk_store;
    own_leaf_nodes := []; aad := []; group_state := Operational |} in
  lift_state NewGroupStorage (MlsGroup_store g);;
  lift_state NewGroupStorage (store_epoch_keypairs g [leaf_keypair]);;
  mret g.

(** [MlsGroup::new_with_group_id] *)
Definition new_with_group_id (pr : CreationProvider) (config : MlsGroupCreateConfig) (group_id : bytes) : method MemoryStorage NewGroupError MlsGroup :=
  MlsGroupBuilder_build_internal pr {| builder_group_id := Some group_id; builder_config := config; builder_psk_ids := [] |} (Some config).

End Joining.

(** ** The path secret of a joiner *)

Section JoinerPath.
Context `{!OpenMlsCrypto} `{!KdfLaws} `{!OpenMlsHpke} `{!HpkeLaws} (c : Ciphersuite).

(** Along a path whose kept levels carry the keys derived from [secret] and whose other levels are blank *)
Lemma derive_along_spec ts s i j secret levels : forall n,
  (forall l, l ∈ levels -> TreeKem.kept s i l = false -> parent_by_index (ts_tree ts) (pnode l (i / 2 ^ l)) = None) ->
  (forall m l, kept_levels s i levels !! m = Some l -> exists node, parent_by_index (ts_tree ts) (pnode l (i / 2 ^ l)) = Some node /\
     unmerged_leaves node = [] /\ parent_encryption_key node = (node_pair c (nth_secret c (n + m) secret)).1) ->
  derive_along c ts j (map (fun l => pnode l (i / 2 ^ l)) levels) (nth_secret c n secret) =
    Ok (map (fun m => node_pair c (nth_secret c m secret)) (seq n (length (kept_levels s i levels))),
        nth_secret c (n + length (kept_levels s i levels)) secret).
Proof.
  induction levels as [|l levels IH]; intros n Hblank Hkept; cbn [map derive_along]; [by rewrite Nat.add_0_r|].
  unfold kept_levels in *. cbn [List.filter] in *. destruct (TreeKem.kept s i l) eqn:Ek.
  - destruct (Hkept 0%nat l eq_refl) as (node & -> & -> & Hkey). rewrite Nat.add_0_r in Hkey. cbn [mem negb bool_decide decide_rel].
    change (mem j []) with false. cbn [negb].
    rewrite derive_key_pair_ok. cbn [map_err mbind outcome_bind]. rewrite bool_decide_true by done. cbn [negb].
    rewrite derive_path_secret_ok, nth_secret_add. cbn [map_err mbind outcome_bind]. rewrite (IH (1 + n)%nat).
    + cbn [mbind outcome_bind length seq map]. do 3 f_equal. lia.
    + intros l' Hl'. apply Hblank. by right.
    + intros m l' Hm. destruct (Hkept (S m) l' Hm) as (node' & ? & ? & E). exists node'. split_and!; [done..|]. rewrite E. do 3 f_equal. lia.
  - rewrite (Hblank l) by (by left || done). apply IH; [|done]. intros l' Hl'. apply Hblank. by right.
Qed.

(** The nodes of an applied path *)
Lemma applied_path_node `{!TreeHashing} secret s0 s h i leaf path path' hash n l :
  path_applied c s0 s h i leaf path path' hash ->
  path = map (fun r => r.1.1) (derived c 0 secret (filtered_direct_path s0 i)) -> NoDup (filtered_direct_path s0 i) -> 0 < l <= h ->
  filtered_direct_path s0 i !! n = Some (pnode l (i / 2 ^ l)) ->
  exists node, parent_at s l (i / 2 ^ l) = Some node /\ unmerged_leaves node = [] /\ parent_encryption_key node = (node_pair c (nth_secret c n secret)).1.
Proof.
  intros Happ Epath Hnd Hl En. assert (Ei : path'.*1 = filtered_direct_path s0 i).
  { transitivity (path.*1).
    - pose proof (pa_same _ _ _ _ _ _ _ _ _ Happ) as Hs. clear -Hs. induction Hs as [|x y path path' (E & _) _ IH]; [done|]. cbn. by rewrite E, IH.
    - rewrite Epath. unfold derived. apply list_eq. intros m. rewrite !list_lookup_fmap, list_lookup_imap. by destruct (_ !! m). }
  assert (E : path !! n = Some (pnode l (i / 2 ^ l), ParentNode_from (node_pair c (nth_secret c n secret)).1)).
  { rewrite Epath, list_lookup_fmap. by rewrite (derived_lookup c _ _ _ _ En). }
  destruct (Forall2_lookup_l _ _ _ _ _ (pa_same _ _ _ _ _ _ _ _ _ Happ) E) as ([q node] & E' & Eq & Ekey & Eum). cbn in Eq, Ekey, Eum. subst q.
  exists node. split_and!; [|done|done]. rewrite (pa_on _ _ _ _ _ _ _ _ _ Happ) by done.
  apply elem_of_list_to_map_1; [|apply elem_of_reverse; by eapply list_elem_of_lookup_2].
  rewrite fmap_reverse, reverse_Permutation. by rewrite Ei.
Qed.

Lemma applied_path_blank `{!TreeHashing} secret s0 s h i leaf path path' hash l :
  path_applied c s0 s h i leaf path path' hash ->
  path = map (fun r => r.1.1) (derived c 0 secret (filtered_direct_path s0 i)) -> 0 < l <= h ->
  pnode l (i / 2 ^ l) ∉ filtered_direct_path s0 i -> parent_at s l (i / 2 ^ l) = None.
Proof.
  intros Happ Epath Hl Hn. rewrite (pa_on _ _ _ _ _ _ _ _ _ Happ) by done. apply not_elem_of_list_to_map_1.
  rewrite fmap_reverse, elem_of_reverse. intros ([q node] & Eq & Hin)%list_elem_of_fmap. cbn in Eq. subst q. apply Hn.
  apply list_elem_of_lookup in Hin as [n E]. destruct (Forall2_lookup_r _ _ _ _ _ (pa_same _ _ _ _ _ _ _ _ _ Happ) E) as ([q node0] & E0 & Eq & _).
  cbn in Eq. subst q. rewrite Epath, list_lookup_fmap in E0. unfold derived in E0. rewrite list_lookup_imap in E0.
  destruct (filtered_direct_path s0 i !! n) as [x|] eqn:Ex; [|done]. injection E0 as -> _. by eapply list_elem_of_lookup_2.
Qed.

(** What a joiner derives from the path secret of the node it shares with the committer *)
Lemma joiner_path_keys `{!TreeHashing} secret s0 s h i leaf path path' hash j k ts :
  tree_sync_ok s0 h -> path_applied c s0 s h i leaf path path' hash ->
  path = map (fun r => r.1.1) (derived c 0 secret (filtered_direct_path s0 i)) ->
  leaf_in h i -> leaf_in h j -> i <> j -> meet_at i j k -> is_Some (leaf_at s0 j) ->
  TreeSync_tree_size ts = tree_size h -> (forall p, 0 <= p < 2 ^ h - 1 -> parent_by_index (ts_tree ts) p = AbDiff_parent (diff s) p) ->
  derive_path_secrets c ts (nth_secret c (length (below s0 k i)) secret) i j =
    Ok (drop (length (below s0 k i)) (map (fun r => r.1.2) (derived c 0 secret (filtered_direct_path s0 i))),
        nth_secret c (length (filtered_direct_path s0 i)) secret).
Proof.
  intros Hok Happ Epath Hi Hj Hne Hmeet Hsj Esize Hpar. pose proof (meet_range h i j k Hi Hj Hne Hmeet) as Hk.
  pose proof (filtered_path_sender s0 h i j k Hok Hi Hj Hne Hmeet Hsj) as Ef.
  assert (Hnd : NoDup (filtered_direct_path s0 i)).
  { rewrite (filtered_direct_path_levels s0 h) by done. apply NoDup_fmap_2_strong.
    - intros l l' Hl Hl' E. apply list_elem_of_In, filter_In in Hl as [Hl%list_elem_of_In%elem_of_seqZ _].
      apply list_elem_of_In, filter_In in Hl' as [Hl'%list_elem_of_In%elem_of_seqZ _]. by apply (pnode_path_inj h) in E as [? _]; [|done|done|lia|lia].
    - apply NoDup_ListNoDup, List.NoDup_filter, NoDup_ListNoDup, NoDup_seqZ. }
  assert (Elev : subtree_path (ts_tree ts) j i = map (fun l => pnode l (i / 2 ^ l)) (seqZ k (h - k + 1))).
  { unfold subtree_path. change (ABinaryTree_tree_size (ts_tree ts)) with (TreeSync_tree_size ts). rewrite Esize.
    rewrite (common_direct_path_spec h j i k) by (done || by apply not_eq_sym || by apply (meet_sym i j)).
    rewrite (direct_path_levels h) by done.
    replace h with ((k - 1) + (h - k + 1)) at 1 by lia. rewrite seqZ_app, map_app, drop_app_length' by (lia || rewrite length_map, length_seqZ; lia).
    replace (1 + (k - 1)) with k by lia. apply map_ext_in. intros l Hl%list_elem_of_In%elem_of_seqZ. by rewrite (meet_at_above i j k l) by (done || lia). }
  assert (Ekept : kept_levels s0 i (seqZ k (h - k + 1)) = k :: kept_levels s0 i (seqZ (k + 1) (h - k))).
  { unfold kept_levels. rewrite seqZ_cons by lia. cbn [List.filter]. rewrite (kept_meet s0 h i j k Hok Hi Hj Hne Hmeet i j) by done.
    do 2 f_equal. replace (Z.succ k) with (k + 1) by lia. f_equal. lia. }
  assert (Hat : forall l, k <= l <= h -> parent_by_index (ts_tree ts) (pnode l (i / 2 ^ l)) = parent_at s l (i / 2 ^ l)).
  { intros l Hl. apply Hpar, (pnode_in_tree h l); [apply in_tree_path; [done|lia]|lia]. }
  unfold derive_path_secrets. rewrite Elev, (derive_along_spec ts s0 i j secret).
  - rewrite Ekept. set (n := length (below s0 k i)). assert (En : length (filtered_direct_path s0 i) = (n + length (k :: kept_levels s0 i (seqZ (k + 1) (h - k))))%nat).
    { rewrite Ef, length_app. unfold above. by rewrite length_map. }
    rewrite <- En. do 2 f_equal. apply list_eq. intros m. rewrite list_lookup_fmap, lookup_drop, list_lookup_fmap. unfold derived. rewrite list_lookup_imap.
    destruct (decide (m < length (k :: kept_levels s0 i (seqZ (k + 1) (h - k))))%nat) as [Hm|Hm].
    + rewrite lookup_seq_lt by done. destruct (lookup_lt_is_Some_2 (filtered_direct_path s0 i) (n + m)) as [x ->]; [lia|]. done.
    + rewrite lookup_seq_ge by lia. rewrite (lookup_ge_None_2 (filtered_direct_path s0 i)) by lia. done.
  - intros l Hl%elem_of_seqZ Hnk. rewrite Hat by lia. eapply applied_path_blank; [exact Happ|exact Epath|lia|].
    rewrite (filtered_direct_path_levels s0 h) by done. intros (l' & E & Hl')%list_elem_of_fmap. apply list_elem_of_In, filter_In in Hl' as [Hl'%list_elem_of_In%elem_of_seqZ Hkl'].
    apply (pnode_path_inj h) in E as [-> _]; [congruence|done|done|lia|lia].
  - intros m l Hm. assert (Hl : k <= l <= h).
    { apply list_elem_of_lookup_2, list_elem_of_In, filter_In in Hm as [Hm%list_elem_of_In%elem_of_seqZ _]. lia. }
    rewrite Hat by done. eapply applied_path_node; [exact Happ|exact Epath|exact Hnd|lia|].
    rewrite Ef, lookup_app_r by lia. rewrite Nat.add_comm, Nat.add_sub. unfold above. rewrite list_lookup_fmap. by rewrite <- Ekept, Hm.
Qed.

End JoinerPath.

(** ** Opening a welcome *)

Section Opening.
Context `{!JoinEncoding} `{!JoinLaws} `{!ContextEncoding} `{!OpenMlsCrypto} `{!KdfLaws} `{!ExtractLaws} `{!AeadProvider} `{!AeadLaws} `{!SignatureProvider}.
Context `{!ProposalHashing} `{!TreeHashing} `{!HashLaws} `{!TranscriptEncoding} `{!OpenMlsHpke} `{!HpkeLaws} `{!PskEncoding}.

Lemma encrypt_decrypt_label (c : Ciphersuite) kp label context data ct : generated c kp ->
  encrypt_with_label kp.1 label context data c = Ok ct -> decrypt_with_label kp.2 label context ct c = Ok data.
Proof.
  intros [ikm E]. unfold encrypt_with_label, decrypt_with_label. run.
  destruct (encrypt_context_serializes (str_bytes ("MLS 1.0 " ++ label)) context) as [info ->].
  destruct (provider_hpke_seal _ _ info [] data) as [x|e|] eqn:Es; [|discriminate..]. intros [= <-]. by rewrite (hpke_open_seal _ _ _ _ _ _ _ E Es).
Qed.

Lemma read_exact {A} (codec : Codec A) x b : codec_ok codec -> tls_serialize codec x = Ok b -> tls_deserialize codec b = Ok (x, []).
Proof. intros Hc E. rewrite <- (app_nil_r b). by apply (read_back Hc). Qed.

(** The secrets that were encrypted to an init key *)
Lemma group_secrets_open (c : Ciphersuite) kp secrets encoded context ct : generated c kp -> tls_serialize codec_group_secrets secrets = Ok encoded ->
  encrypt_with_label kp.1 "Welcome" context encoded c = Ok ct -> GroupSecrets_try_from_ciphertext kp.2 ct context c = Ok secrets.
Proof.
  intros Hg Ee Ec. unfold GroupSecrets_try_from_ciphertext. rewrite (encrypt_decrypt_label _ _ _ _ _ _ Hg Ec). cbn [map_err mbind outcome_bind].
  by rewrite (read_exact _ _ _ group_secrets_codec_ok Ee).
Qed.

(** The group info that was encrypted under the welcome secret *)
Lemma group_info_open (c : Ciphersuite) secret key nonce info encoded ct : derive_welcome_key_nonce c secret = Ok (key, nonce) ->
  tls_serialize codec_group_info info = Ok encoded -> aead_seal key encoded [] nonce = Ok ct -> GroupInfo_try_from_ciphertext key nonce ct [] = Ok info.
Proof.
  unfold derive_welcome_key_nonce, WelcomeSecret_derive_aead_nonce, WelcomeSecret_derive_aead_key. intros Ek Ee Es.
  destruct (aead_nonce_kdf c secret "nonce" []) as [En Hn]. rewrite En in Ek. cbn [mbind outcome_bind] in Ek. ok_inv Ek. injection Ek as <- <-.
  rewrite (proj1 (aead_key_kdf c secret "key" [])) in Hx0. ok_inv Hx0. injection Hx0 as <-. injection Hx1 as <-.
  assert (Hlen : Z.of_nat (length x) = aead_nonce_length c).
  { unfold AeadNonce_from_secret in Hx. destruct (_ =? _); [|discriminate]. by injection Hx as <-. }
  destruct (seal_open c secret "key" [] x encoded [] Hlen) as (ct' & Es' & Eo). rewrite Es in Es'. injection Es' as <-.
  unfold GroupInfo_try_from_ciphertext. rewrite Eo. cbn [map_err mbind outcome_bind]. by rewrite (read_exact _ _ _ group_info_codec_ok Ee).
Qed.

(** The group info and the welcome that the commit builder makes on the diff [d] *)
Record welcome_made (g : MlsGroup) (signer : Signer) (parts : CommitParts) (d : PublicGroupDiff) (info : GroupInfo) (w : Welcome) : Prop := {
  wm_context : gi_group_context (gi_payload info) = pgd_context d;
  wm_tag : gi_confirmation_tag (gi_payload info) = parts_tag parts;
  wm_signer : gi_signer (gi_payload info) = own_leaf_index g;
  wm_tree : ratchet_tree_extension (gi_extensions (gi_payload info)) =
    if use_ratchet_tree_extension (mls_group_config g) then Some (tsd_export_ratchet_tree (pgd_diff d)) else None;
  wm_required : required_capabilities (gi_extensions (gi_payload info)) = None;
  wm_signed : GroupInfoTBS_sign (gi_payload info) signer = Ok info;
  wm_ciphersuite : welcome_ciphersuite w = MlsGroup_ciphersuite g;
  wm_info : exists key nonce encoded, derive_welcome_key_nonce (MlsGroup_ciphersuite g) (parts_welcome_secret parts) = Ok (key, nonce) /\
    tls_serialize codec_group_info info = Ok encoded /\ aead_seal key encoded [] nonce = Ok (encrypted_group_info w);
  wm_secrets : Forall2 (fun member egs => encrypt_secrets_for (pgd_diff d) (parts_joiner_secret parts) (pcr_plain_path (parts_path parts))
    (presharedkeys (parts_values parts)) (encrypted_group_info w) (own_leaf_index g) member = Ok egs) (invitation_list (parts_values parts)) (welcome_secrets w)
}.

Lemma mapM_outcome {E A B} (f : A -> outcome E B) l : forall k, mapM f l = Ok k -> Forall2 (fun x y => f x = Ok y) l k.
Proof.
  induction l as [|x l IH]; intros k Hk; cbn [mapM] in Hk; [by injection Hk as <-|].
  ok_inv Hk. injection Hk as <-. constructor; [done|]. by apply IH.
Qed.

Lemma build_welcoming_ok map_order now pr signer g stage f r w : build_welcoming map_order now pr signer g stage f = Ok r -> result_welcome r = Some w ->
  exists q own parts d d' info, choose_proposals map_order now g stage f = Ok (q, own) /\
    build_parts pr g stage q own (PublicGroup_empty_diff (public_group g)) = (Ok parts, d) /\ stage_parts g q parts d = (Ok (result_commit r), d') /\
    welcome_made g signer parts d info w.
Proof.
  intros Hb Hw. unfold build_welcoming in Hb. ok_inv Hb. destruct x as [q own].
  match type of Hb with fst ?x = _ => destruct x as [o dend] eqn:Erun end. cbn [fst] in Hb. subst o.
  step Erun as parts d Ep. step Erun as oinfo d1 Ei. step Erun as ow d2 Ew. step Erun as built d3 Es. injection Erun as <- <-. cbn [result_welcome result_commit] in *. subst ow.
  assert (Hinfo : d1 = d /\ forall info, oinfo = Some info -> gi_group_context (gi_payload info) = pgd_context d /\ gi_confirmation_tag (gi_payload info) = parts_tag parts /\
    gi_signer (gi_payload info) = own_leaf_index g /\ ratchet_tree_extension (gi_extensions (gi_payload info)) =
      (if use_ratchet_tree_extension (mls_group_config g) then Some (tsd_export_ratchet_tree (pgd_diff d)) else None) /\
    required_capabilities (gi_extensions (gi_payload info)) = None /\ GroupInfoTBS_sign (gi_payload info) signer = Ok info).
  { unfold commit_group_info in Ei. destruct (negb _); [by injection Ei as <- <-|]. step Ei as kp d4 E1. destruct kp as [pk sk].
    step Ei as self d5 E2. step Ei as es d6 E3. step Ei as info d7 E4. injection Ei as <- <-. split; [done|]. intros info' [= <-].
    pose proof E4 as E4'. unfold GroupInfoTBS_sign in E4. ok_inv E4. injection E4 as <-. cbn [gi_payload gi_group_context gi_confirmation_tag gi_signer gi_extensions].
    unfold group_info_extensions in E3. destruct (use_ratchet_tree_extension _); cbn in E3; injection E3 as <-; split_and!; try done.
    exact (f_equal Some (ratchet_tree_bytes_ok _)). }
  destruct Hinfo as [-> Hinfo].
  unfold commit_welcome in Ew. destruct (invitation_list (parts_values parts)) as [|m l] eqn:El; [discriminate|].
  step Ew as kn d4 E1. destruct kn as [key nonce]. step Ew as info d5 E2. step Ew as encoded d6 E3. step Ew as ct d7 E4. step Ew as self d8 E5. step Ew as secrets d9 E6.
  injection Ew as <- <-. subst oinfo. destruct (Hinfo info eq_refl) as (? & ? & ? & ? & ? & ?).
  exists q, own, parts, d, d3, info. split_and!; [done..|]. split; try done; cbn [welcome_secrets encrypted_group_info].
  - exists key, nonce, encoded. split_and!; [done..|]. unfold aead_seal. by rewrite E4.
  - rewrite El. by apply mapM_outcome.
Qed.

End Opening.

Section Joiner.
Context `{!JoinEncoding} `{!JoinLaws} `{!ContextEncoding} `{!OpenMlsCrypto} `{!KdfLaws} `{!ExtractLaws} `{!AeadProvider} `{!AeadLaws} `{!SignatureProvider}.
Context `{!ProposalHashing} `{!TreeHashing} `{!HashLaws} `{!TranscriptEncoding} `{!OpenMlsHpke} `{!HpkeLaws} `{!PskEncoding}.
Context `{!Serde bytes} `{!SerdeLaws bytes} `{!Serde KeyPackageBundle} `{!SerdeLaws KeyPackageBundle} `{!Serde Psk} `{!SerdeLaws Psk} `{!Serde PskBundle} `{!SerdeLaws PskBundle}.

(** A client that holds the key package under the reference and none of the others that the welcome is for *)
Record awaits (w : Welcome) (st : MemoryStorage) (reference : bytes) (bundle : KeyPackageBundle) : Prop := {
  aw_reference : hash_ref (bundle_key_package bundle) = Ok reference;
  aw_stored : holds st KEY_PACKAGE_LABEL reference (Some bundle);
  aw_only egs : egs ∈ welcome_secrets w -> new_member egs <> reference -> holds st KEY_PACKAGE_LABEL (new_member egs) (None : option KeyPackageBundle)
}.

(** The storage without a key package that is used up *)
Definition without_key_package (bundle : KeyPackageBundle) (reference : bytes) (st : MemoryStorage) : MemoryStorage :=
  if last_resort (bundle_key_package bundle) then st else delete (entry KEY_PACKAGE_LABEL reference) st.

Lemma find_key_package_spec w st reference bundle secrets : awaits w st reference bundle -> (forall egs, egs ∈ secrets -> egs ∈ welcome_secrets w) ->
  (exists egs, egs ∈ secrets /\ new_member egs = reference) -> find_key_package secrets st = (Ok (Some bundle), st).
Proof.
  intros Ha Hsub (x & Hx & Ex). induction secrets as [|egs secrets IH]; [by apply not_elem_of_nil in Hx|]. cbn [find_key_package].
  assert (Hread : forall o : option KeyPackageBundle, holds st KEY_PACKAGE_LABEL (new_member egs) o -> Memory.key_package (new_member egs) st = (Ok o, st)).
  { intros o Ho. unfold Memory.key_package, unwrap. run. rewrite to_vec_encode. by rewrite (read_spec KEY_PACKAGE_LABEL (new_member egs) o). }
  unfold mbind at 1, method_bind. destruct (decide (new_member egs = reference)) as [E|Hne].
  - rewrite (Hread (Some bundle)); [done|]. rewrite E. apply Ha.
  - rewrite (Hread None) by (eapply aw_only; [exact Ha|apply Hsub; by left|done]). apply IH; [intros y Hy; apply Hsub; by right|].
    apply elem_of_cons in Hx as [->|]; done.
Qed.

Lemma keys_for_welcome_spec config w st reference bundle : awaits w st reference bundle -> (exists egs, egs ∈ welcome_secrets w /\ new_member egs = reference) ->
  keys_for_welcome config w st = (Ok (ResumptionPskStore_new (Z.to_nat (number_of_resumption_psks config)), bundle), without_key_package bundle reference st).
Proof.
  intros Ha Hx. unfold keys_for_welcome, without_key_package, lift_state. run. rewrite (find_key_package_spec w st reference bundle) by done.
  destruct (last_resort (bundle_key_package bundle)); cbn [negb]; [done|]. rewrite (aw_reference _ _ _ _ Ha).
  unfold Memory.delete_key_package, Memory.delete, or_fail. run. by rewrite to_vec_encode.
Qed.

Lemma without_key_package_psk bundle reference st (p : Psk) (o : option PskBundle) : holds st PSK_LABEL p o -> holds (without_key_package bundle reference st) PSK_LABEL p o.
Proof.
  unfold without_key_package, holds. destruct (last_resort _); [done|]. intros <-. apply lookup_delete_ne.
  apply entry_label; [by vm_compute; repeat constructor|by vm_compute; repeat constructor|done].
Qed.

(** The path secret that a committer [i] sends to the new member [j] *)
Definition path_secret_sent (d : TreeSyncDiff) (plain_path : option (list PlainUpdatePathNode)) (i j : LeafNodeIndex) (path_secret : option PathSecret) : Prop :=
  exists position, subtree_root_position d i j = Ok position /\
    match plain_path with
    | Some plain_path => exists node, plain_path !! position = Some node /\ path_secret = Some (plain_path_secret node)
    | None => path_secret = None
    end.

Lemma encrypt_secrets_for_ok d joiner_secret plain_path psks encrypted_info i j kp egs :
  encrypt_secrets_for d joiner_secret plain_path psks encrypted_info i (j, kp) = Ok egs ->
  exists path_secret encoded, path_secret_sent d plain_path i j path_secret /\
    tls_serialize codec_group_secrets {| gs_joiner_secret := joiner_secret; gs_path_secret := path_secret; gs_psks := psks |} = Ok encoded /\
    encrypt_with_label (kp_init_key kp) "Welcome" encrypted_info encoded (kp_ciphersuite kp) = Ok (encrypted_group_secrets egs) /\
    hash_ref kp = Ok (new_member egs).
Proof.
  unfold encrypt_secrets_for. intros E. ok_inv E. injection E as <-. exists x0, x1. split_and!; try done. exists x. split; [done|].
  destruct plain_path as [plain|]; [|by injection Hx0 as <-]. ok_inv Hx0. injection Hx0 as <-. apply ok_or_ok in Hx4.
  destruct (plain !! x) as [node|] eqn:En; [|done]. injection Hx4 as <-. by exists node.
Qed.

(** What the client has once the welcome is decrypted *)
Definition welcome_opened (config : MlsGroupJoinConfig) (c : Ciphersuite) (joiner_secret psk_secret : Secret) (path_secret : option PathSecret)
    (psks : list PreSharedKeyId) (info : GroupInfo) (bundle : KeyPackageBundle) : ProcessedWelcome := {|
  pw_config := config; pw_ciphersuite := c;
  pw_group_secrets := {| gs_joiner_secret := joiner_secret; gs_path_secret := path_secret; gs_psks := psks |};
  pw_key_schedule := schedule_in c joiner_secret psk_secret Fresh; pw_group_info := info;
  pw_resumption_psk_store := ResumptionPskStore_new (Z.to_nat (number_of_resumption_psks config)); pw_bundle := bundle |}.

Lemma welcome_processed g signer parts d info w st config j reference bundle external psks psk_secret :
  let c := MlsGroup_ciphersuite g in let kp := bundle_key_package bundle in
  welcome_made g signer parts d info w -> awaits w st reference bundle ->
  (j, kp) ∈ invitation_list (parts_values parts) ->
  (forall j' kp', (j', kp') ∈ invitation_list (parts_values parts) -> hash_ref kp' = Ok reference -> (j', kp') = (j, kp)) ->
  kp_ciphersuite kp = c -> gc_ciphersuite (pgd_context d) = c -> generated c (kp_init_key kp, private_init_key bundle) ->
  (forall p, holds st PSK_LABEL p (external p)) ->
  mapM (fun id => pair id <$> known_psk (ResumptionPskStore_new (Z.to_nat (number_of_resumption_psks config))) external (psk id)) (presharedkeys (parts_values parts)) = Some psks ->
  PskSecret_new c psks = Ok psk_secret -> parts_welcome_secret parts = derive c (extract c (parts_joiner_secret parts) psk_secret) "welcome" ->
  exists path_secret, path_secret_sent (pgd_diff d) (pcr_plain_path (parts_path parts)) (own_leaf_index g) j path_secret /\
    ProcessedWelcome_new_from_welcome config w st =
      (Ok (welcome_opened config c (parts_joiner_secret parts) psk_secret path_secret (presharedkeys (parts_values parts)) info bundle), without_key_package bundle reference st).
Proof.
  intros c kp Hm Ha Hinv Huniq Ekc Edc Hgen Hst Hpsks Epsk Ews. pose proof (aw_reference _ _ _ _ Ha) as Eref.
  pose proof (wm_secrets _ _ _ _ _ _ Hm) as Hsec. apply list_elem_of_lookup in Hinv as [n Hn].
  destruct (Forall2_lookup_l _ _ _ _ _ Hsec Hn) as (egs & En & Eenc).
  destruct (encrypt_secrets_for_ok _ _ _ _ _ _ _ _ _ Eenc) as (path_secret & encoded & Hps & Eser & Ect & Ehash).
  fold kp in Eref. assert (Enm : new_member egs = reference) by congruence.
  assert (Hfind : find_encrypted_group_secret w reference = Some egs).
  { unfold find_encrypted_group_secret. destruct (List.find _ (welcome_secrets w)) as [egs'|] eqn:Ef.
    - apply find_some in Ef as [Hin Hb]. apply bool_decide_eq_true in Hb. apply list_elem_of_In, list_elem_of_lookup in Hin as [m Em].
      destruct (Forall2_lookup_r _ _ _ _ _ Hsec Em) as ([j' kp'] & Em' & Eenc'). 
      destruct (encrypt_secrets_for_ok _ _ _ _ _ _ _ _ _ Eenc') as (_ & _ & _ & _ & _ & Ehash'). rewrite <- Hb in Ehash'.
      rewrite (Huniq j' kp' (list_elem_of_lookup_2 _ _ _ Em') Ehash') in Eenc'. congruence.
    - eapply find_none in Ef; [|apply list_elem_of_In; by eapply list_elem_of_lookup_2]. cbv beta in Ef. by rewrite bool_decide_true in Ef. }
  exists path_secret. split; [done|]. unfold ProcessedWelcome_new_from_welcome.
  unfold mbind at 1, method_bind. rewrite (keys_for_welcome_spec config w st reference bundle Ha) by (exists egs; split; [by eapply list_elem_of_lookup_2|done]).
  cbv zeta. fold kp. rewrite (wm_ciphersuite _ _ _ _ _ _ Hm), Ekc, Eref. fold c. unfold lift_state. run. rewrite Hfind. rewrite bool_decide_true by done. cbn [negb].
  rewrite Ekc in Ect. pose proof (group_secrets_open c (kp_init_key kp, private_init_key bundle) _ _ _ _ Hgen Eser Ect) as Eopen. cbn [snd] in Eopen.
  rewrite Eopen. cbn [gs_psks gs_joiner_secret].
  rewrite (load_psks_ok _ external) by (intros p; by apply without_key_package_psk). rewrite Hpsks, Epsk, KeySchedule_init_ok, welcome_fresh, <- Ews.
  destruct (wm_info _ _ _ _ _ _ Hm) as (key & nonce & einfo & Ekn & Eei & Eseal). fold c in Ekn. rewrite Ekn.
  rewrite (group_info_open c _ key nonce info einfo _ Ekn Eei Eseal), (wm_required _ _ _ _ _ _ Hm).
  unfold gi_ciphersuite. rewrite (wm_context _ _ _ _ _ _ Hm), Edc. by rewrite bool_decide_true.
Qed.

Context `{!Serde TreeSync} `{!Serde ConfirmationTag} `{!Serde GroupContext} `{!Serde InterimTranscriptHash}.

(** What is known of a group that was accepted *)
Lemma from_external_ok now verify tree info store st pg info' st' : from_external now verify tree info store st = (Ok (pg, info'), st') ->
  let context := gi_group_context (gi_payload info) in
  exists nodes, try_from_nodes verify tree = Ok nodes /\ from_ratchet_tree (gc_ciphersuite context) nodes = Ok (treesync pg) /\
    group_context pg = context /\ proposal_store pg = store /\ confirmation_tag pg = gi_confirmation_tag (gi_payload info) /\
    calculate_interim_transcript_hash (gc_ciphersuite context) (gc_confirmed_transcript_hash context) (gi_confirmation_tag (gi_payload info)) = Ok (interim_transcript_hash pg) /\
    ts_tree_hash (treesync pg) = gc_tree_hash context.
Proof.
  unfold from_external. intros Hf. cbv zeta in Hf. step Hf as nodes s1 E1. step Hf as ts s2 E2. step Hf as keys s3 E3. step Hf as u s4 E4. step Hf as leaf s5 E5.
  step Hf as i s6 E6. assert (i = info) as -> by (unfold GroupInfo_verify in E6; ok_inv E6; by injection E6 as <-).
  destruct (bool_decide (ts_tree_hash ts = _)) eqn:Eh; [|discriminate]. apply bool_decide_eq_true in Eh. cbn [negb] in Hf. destruct (negb _); [discriminate|].
  step Hf as hash s7 E7. step Hf as u' s8 E8. step Hf as u'' s9 E9. injection Hf as <- <- <-. exists nodes. by split_and!.
Qed.

Lemma full_members_leaf ts h m : tree_wf (ts_tree ts) h -> m ∈ full_leave_members ts <->
  exists leaf, 0 <= member_index m /\ TreeSync_leaf ts (member_index m) = Some leaf /\
    m = {| member_index := member_index m; member_encryption_key := leaf_encryption_key (payload leaf); member_signature_key := leaf_signature_key (payload leaf);
           member_credential := leaf_credential (payload leaf) |}.
Proof.
  intros Hwf. unfold full_leave_members. rewrite list_elem_of_omap.
  assert (Hl : forall i leaf, 0 <= i -> TreeSync_leaf ts i = Some leaf <-> BinaryTree.leaf_nodes (ts_tree ts) !! Z.to_nat i = Some (Some leaf)).
  { intros i leaf Hi. unfold TreeSync_leaf, ABinaryTree_leaf. rewrite (leaf_by_index_spec _ h) by done.
    assert (Hd : forall o : option TreeSyncLeafNode, default default_value o = Some leaf <-> o = Some (Some leaf)).
    { intros [l|]; split; intros E; [by f_equal|by injection E as ->|discriminate E|done]. }
    apply Hd. }
  split.
  - intros ([i [leaf|]] & [Hi Hin]%enumerate_elem_of & E); [|done]. injection E as <-. exists leaf. split_and!; [done|by apply Hl|done].
  - intros (leaf & Hi & E%Hl & Em); [|done]. exists (member_index m, Some leaf). split; [by apply enumerate_elem_of|]. by rewrite Em.
Qed.

(** The joiner finds itself. *)
Lemma own_leaf_of_spec bundle pg h j : let key := leaf_signature_key (payload (kp_leaf_node (bundle_key_package bundle))) in
  tree_wf (ts_tree (treesync pg)) h -> 0 <= j -> TreeSync_leaf (treesync pg) j = Some (kp_leaf_node (bundle_key_package bundle)) ->
  (forall j' leaf, 0 <= j' -> TreeSync_leaf (treesync pg) j' = Some leaf -> leaf_signature_key (payload leaf) = key -> j' = j) -> own_leaf_of bundle pg = Some j.
Proof.
  intros key Hwf Hj El Hu. unfold own_leaf_of. destruct (List.find _ _) as [m|] eqn:Ef.
  - apply find_some in Ef as [Hin%list_elem_of_In Hb%bool_decide_eq_true]. apply (full_members_leaf _ h m Hwf) in Hin as (leaf & Hi & E & Em).
    cbn. f_equal. eapply Hu; [done|exact E|]. by rewrite Em in Hb.
  - exfalso. pose proof (proj2 (full_members_leaf (treesync pg) h (mkMember j _ _ _) Hwf) (ex_intro _ _ (conj Hj (conj El eq_refl)))) as Hin.
    eapply find_none in Ef; [|apply list_elem_of_In, Hin]. cbv beta in Ef. by rewrite bool_decide_true in Ef.
Qed.

(** A welcome whose tree is accepted *)
Lemma welcome_staged now verify tree config c joiner psk_secret path_secret psks info bundle st pg info' st' j context keypairs :
  let secrets := epoch_of c (epoch_secret_of c joiner psk_secret context) in
  let '(ges, ms) := split_secrets secrets context (TreeSync_tree_size (treesync pg)) j in
  ratchet_tree_extension (gi_extensions (gi_payload info)) = None -> from_external now verify tree info ProposalStore_new st = (Ok (pg, info'), st') ->
  own_leaf_of bundle pg = Some j -> tls_group_context (gi_group_context (gi_payload info)) = Some context ->
  ConfirmationKey_tag c (confirmation_key secrets) (gc_confirmed_transcript_hash (gi_group_context (gi_payload info))) = Ok (gi_confirmation_tag (gi_payload info)) ->
  match path_secret with
  | Some s => exists pairs cs, derive_path_secrets c (treesync pg) s (gi_signer (gi_payload info)) j = Ok (pairs, cs) /\ keypairs = Some pairs
  | None => keypairs = None
  end ->
  into_staged_welcome now verify (welcome_opened config c joiner psk_secret path_secret psks info bundle) (Some tree) st =
    (Ok {| sw_config := config; sw_public_group := pg; sw_group_epoch_secrets := ges; sw_own_leaf_index := j; sw_message_secrets_store := new_with_secret 0 ms;
           sw_resumption_psk_store := ResumptionPskStore_add (gc_epoch (group_context pg)) (ge_resumption_psk ges)
             (ResumptionPskStore_new (Z.to_nat (number_of_resumption_psks config)));
           sw_group_info := info; sw_bundle := bundle; sw_path_keypairs := keypairs |}, st').
Proof.
  intros secrets. cbn [split_secrets]. intros Eext Ef Eown Ectx Etag Hpath. pose proof (from_external_ok _ _ _ _ _ _ _ _ _ Ef) as (nodes & _ & _ & Egc & _ & Et & _).
  unfold into_staged_welcome, welcome_opened. cbn [pw_group_info pw_ciphersuite pw_bundle pw_key_schedule pw_config pw_group_secrets pw_resumption_psk_store gs_path_secret].
  rewrite Eext. unfold lift_state, joiner_epoch_secrets. run. rewrite Ef, Eown, Egc, Ectx, add_context_fresh, epoch_secrets_of. cbn [fst split_secrets ms_confirmation_key].
  fold secrets. rewrite Etag, Et, Mac_eq_refl. cbn [negb]. destruct path_secret as [s|].
  - destruct Hpath as (pairs & cs & -> & ->). done.
  - by subst keypairs.
Qed.

End Joiner.

(** ** The keys of a new member *)

Section NewMember.
Context `{!TreeHashing} `{!HashLaws} `{!TranscriptEncoding} `{!OpenMlsCrypto} `{!KdfLaws} `{!OpenMlsHpke} `{!HpkeLaws} `{!ContextEncoding}.

(** The keys that a new member lacks are those of nodes that list it. *)
Lemma joiner_keys_cover c s0 s h i lf path path' hash secret j k leaf key :
  path_applied c s0 s h i lf path path' hash -> path = map (fun r => r.1.1) (derived c 0 secret (filtered_direct_path s0 i)) -> tree_sync_ok s0 h ->
  leaf_in h i -> leaf_in h j -> i <> j -> meet_at i j k -> leaf_at s0 j = Some leaf -> unmerged_above s0 j -> key ∈ encryption_keys s j ->
  key = leaf_encryption_key (payload leaf) \/
  key ∈ (drop (length (below s0 k i)) (map (fun r => r.1.2) (derived c 0 secret (filtered_direct_path s0 i)))).*1.
Proof.
  intros Happ Epath Hok Hi Hj Hne Hmeet El Hu. rewrite encryption_keys_elem_of. intros [(lf' & E & ->)|(p & node & Hp & En & Hum & ->)].
  - left. rewrite (pa_leaves _ _ _ _ _ _ _ _ _ Happ) in E by apply Hj. rewrite decide_False in E by done. congruence.
  - right. rewrite (filtered_direct_path_levels s h) in Hp by (done || apply Happ).
    apply list_elem_of_fmap in Hp as (l & -> & Hl). apply list_elem_of_In, filter_In in Hl as [Hl%list_elem_of_In%elem_of_seqZ _].
    destruct (Z.lt_ge_cases l k).
    + exfalso. apply Hum. pose proof (pa_off _ _ _ _ _ _ _ _ _ Happ l (j / 2 ^ l) (in_tree_path h j l Hj ltac:(lia)) ltac:(lia)) as Eoff.
      unfold parent_at at 1 in Eoff. destruct Hj as [[? ?] ?], Hmeet as (_ & _ & Hlow). rewrite En in Eoff. apply (Hu l node); [lia|]. symmetry. apply Eoff. apply Hlow. lia.
    + eapply (applied_new_key c s0 s h i lf path path' hash Hok Happ Hi secret j k l node); try done; first [lia|by rewrite El].
Qed.

(** From the path secret it is sent, a new member derives the keys of all nodes above it that do not list it. *)
Lemma joiner_keys pr i v params d1 path d2 h j leaf : let c := gc_ciphersuite (pgd_context d1) in
  committer_path pr i v params true d1 = (Ok path, d2) -> ready c (pgd_diff d1) h -> 0 <= i -> i <> j -> 0 <= j ->
  leaf_at (pgd_diff d1) j = Some leaf -> unmerged_above (pgd_diff d1) j ->
  leaf_at (pgd_diff d2) j = Some leaf /\
  forall ts path_secret, tree_wf (ts_tree ts) h -> reads_like (pgd_diff d2) ts h ->
    path_secret_sent (pgd_diff d2) (pcr_plain_path path) i j path_secret ->
    exists s pairs cs, path_secret = Some s /\ derive_path_secrets c ts s i j = Ok (pairs, cs) /\
      forall key, key ∈ encryption_keys (pgd_diff d2) j -> key = leaf_encryption_key (payload leaf) \/ key ∈ pairs.*1.
Proof.
  intros c Hp Hr Hi Hne Hj El Hu. cbn [committer_path] in Hp. pose proof Hr as [Hok _].
  apply compute_path_ok in Hp as (secret & up & p & plain & pairs & cs & keypair & s' & ctx & nodes & lf & Hsi & Ed & Ek & Ea & Eg & Es & Ectx & Enc & Elf & ->).
  fold c in Ed, Ea, Enc. assert (Hsj : is_Some (leaf_at (pgd_diff d1) j)) by (by rewrite El).
  pose proof (filtered_path_nonempty (pgd_diff d1) h i j Hok Hi Hj Hne Hsi Hsj) as Hnil.
  destruct (own_path_applied c (pgd_diff d1) h i secret up p plain pairs cs keypair (sign_leaf pr) s' lf Hr Hi Hsi Hnil Ed Ea Elf) as (Epath & _ & path' & hash & Happ).
  rewrite Es in *. cbn [pcr_plain_path]. rewrite derive_path_value in Ed. injection Ed as _ <- _ _.
  assert (Hin : forall x, 0 <= x -> is_Some (leaf_at (pgd_diff d1) x) -> leaf_in h x).
  { intros x Hx Hs. split; [apply (dwf_height _ _ (mo_diff _ _ (proj1 Hok)))|]. pose proof (members_leaf_lt _ h x (proj1 Hok) Hx Hs). lia. }
  pose proof (Hin i Hi Hsi) as Hii. pose proof (Hin j Hj Hsj) as Hjj. destruct (meet_at_exists h i j Hii Hjj) as (k & Hmeet & Hkh).
  pose proof (pa_leaves _ _ _ _ _ _ _ _ _ Happ j Hj) as El'. rewrite decide_False in El' by (by apply not_eq_sym). split; [congruence|].
  intros ts path_secret Hwf [_ Hpar] (position & Epos & node & En & ->).
  rewrite (shared_position s' h i j k (pa_ok _ _ _ _ _ _ _ _ _ Happ) Hii Hjj Hne Hmeet) in Epos by (by rewrite El').
  rewrite (applied_below c (pgd_diff d1) s' h i lf p path' hash Hok Happ Hii Hsi k Hkh) in Epos. injection Epos as <-.
  assert (Enode : plain_path_secret node = nth_secret c (length (below (pgd_diff d1) k i)) secret).
  { rewrite list_lookup_fmap in En. rewrite (filtered_path_sender (pgd_diff d1) h i j k Hok Hii Hjj Hne Hmeet Hsj) in En.
    rewrite (derived_lookup c _ _ _ (pnode k (i / 2 ^ k))) in En by (by rewrite lookup_app_r, Nat.sub_diag by lia). by injection En as <-. }
  eexists _, _, _. split; [done|]. rewrite Enode. split.
  - eapply (joiner_path_keys c secret (pgd_diff d1) s' h i lf p path' hash j k ts); try done.
    + by apply (twf_size (ts_tree ts)).
    + intros x Hx. destruct (in_tree_exists h x (twf_height _ _ Hwf) Hx) as (l & m & Hlm & Hl & ->). exact (Hpar l m Hlm Hl).
  - intros key Hkey. by eapply (joiner_keys_cover c (pgd_diff d1) s' h i lf p path' hash secret j k leaf key).
Qed.

End NewMember.

(** ** Joining *)

Section Welcomes.
Context `{!JoinEncoding} `{!JoinLaws} `{!ContextEncoding} `{!OpenMlsCrypto} `{!KdfLaws} `{!ExtractLaws} `{!AeadProvider} `{!AeadLaws} `{!SignatureProvider}.
Context `{!ProposalHashing} `{!TreeHashing} `{!HashLaws} `{!TranscriptEncoding} `{!OpenMlsHpke} `{!HpkeLaws} `{!PskEncoding}.
Context `{!Serde bytes} `{!SerdeLaws bytes} `{!Serde KeyPackageBundle} `{!SerdeLaws KeyPackageBundle} `{!Serde Psk} `{!SerdeLaws Psk} `{!Serde PskBundle} `{!SerdeLaws PskBundle}.
Context `{!Serde TreeSync} `{!Serde ConfirmationTag} `{!Serde GroupContext} `{!Serde InterimTranscriptHash}.

(** The committer: a member of a consistent group, whose keys and those of the members it adds are generated ones; its commit has no updates. *)
Record committing (g : MlsGroup) (h : Z) (pr : CommitProvider) (q : ProposalQueue) : Prop := {
  cg_group : group_ok (public_group g) h;
  cg_generated : tree_generated (MlsGroup_ciphersuite g) (TreeSync_empty_diff (treesync (public_group g)));
  cg_own : 0 <= own_leaf_index g;
  cg_member : is_Some (leaf_at (TreeSync_empty_diff (treesync (public_group g))) (own_leaf_index g));
  cg_draw kp : draw_leaf_keypair pr = Ok kp -> generated (MlsGroup_ciphersuite g) kp;
  cg_removes r : r ∈ removed_leaves q -> 0 <= r;
  cg_updates : update_proposals q = [];
  cg_adds kp : kp ∈ map fst (add_proposals q) -> exists pair, generated (MlsGroup_ciphersuite g) pair /\ pair.1 = encryption_key (kp_leaf_node kp)
}.

(** The client to which leaf [j] was given: it keeps its key package with the private keys, no other member was invited with the same one, and it knows
    the PSKs of the commit. *)
Record invited (c : Ciphersuite) (r : CreateCommitResult) (w : Welcome) (psks : list (PreSharedKeyId * Secret)) (config : MlsGroupJoinConfig) (st : MemoryStorage)
    (external : Psk -> option PskBundle) (reference : bytes) (bundle : KeyPackageBundle) (j : LeafNodeIndex) : Prop := {
  iv_awaits : awaits w st reference bundle;
  iv_leaf : (j, bundle_key_package bundle) ∈ built_invitations (result_commit r);
  iv_unique j' kp : (j', kp) ∈ built_invitations (result_commit r) -> hash_ref kp = Ok reference -> (j', kp) = (j, bundle_key_package bundle);
  iv_init_key : generated c (kp_init_key (bundle_key_package bundle), private_init_key bundle);
  iv_external p : holds st PSK_LABEL p (external p);
  iv_psks : mapM (fun id => pair id <$> known_psk (ResumptionPskStore_new (Z.to_nat (number_of_resumption_psks config))) external (psk id))
    (map fst (psk_proposals (staged_proposal_queue (built_staged_commit (result_commit r))))) = Some psks
}.

(** The epoch of a client that has joined at leaf [j] is the one that the committer [i] has staged. *)
Record joined_epoch (ts : TreeSync) (i j : LeafNodeIndex) (mi : MemberStagedCommitState) (bundle : KeyPackageBundle) (sw : StagedWelcome) : Prop := {
  je_context : group_context (sw_public_group sw) = spg_context (msc_staged_diff mi);
  je_interim : interim_transcript_hash (sw_public_group sw) = spg_interim_transcript_hash (msc_staged_diff mi);
  je_tag : confirmation_tag (sw_public_group sw) = spg_confirmation_tag (msc_staged_diff mi);
  je_tree : exists h, tree_ok (gc_ciphersuite (spg_context (msc_staged_diff mi))) (treesync (sw_public_group sw)) h /\
    reads_like (TreeSync_empty_diff ts) (treesync (sw_public_group sw)) h;
  je_index : sw_own_leaf_index sw = j;
  je_secrets : sw_group_epoch_secrets sw = msc_group_epoch_secrets mi;
  je_messages : exists secrets context size, split_secrets secrets context size i = (msc_group_epoch_secrets mi, msc_message_secrets mi) /\
    split_secrets secrets context size j = (sw_group_epoch_secrets sw, current_secrets (sw_message_secrets_store sw));
  je_keys key : key ∈ encryption_keys (TreeSync_empty_diff (treesync (sw_public_group sw))) j ->
    key ∈ (bundle_encryption_key_pair bundle :: default [] (sw_path_keypairs sw)).*1
}.

Lemma committer_path_ciphersuite pr i v params with_path d path d' : committer_path pr i v params with_path d = (Ok path, d') ->
  gc_ciphersuite (pgd_context d') = gc_ciphersuite (pgd_context d).
Proof.
  destruct with_path; cbn [committer_path]; intros Hp.
  - apply compute_path_ok in Hp as (? & ? & ? & ? & ? & ? & ? & ? & ? & ? & ? & _ & _ & _ & _ & Eg & _).
    apply update_group_context_ok in Eg as (? & _ & _ & ->). by destruct (new_extensions v).
  - step Hp as u d1 Eg. injection Hp as _ <-. destruct u. apply update_group_context_ok in Eg as (? & _ & _ & ->). by destruct (new_extensions v).
Qed.

(** The tree that the committer stages, and the leaf and the keys of a new member *)
Lemma commit_adds map_order now pr g stage f h q own parts d : let c := MlsGroup_ciphersuite g in
  choose_proposals map_order now g stage f = Ok (q, own) -> build_parts pr g stage q own (PublicGroup_empty_diff (public_group g)) = (Ok parts, d) -> committing g h pr q ->
  gc_ciphersuite (pgd_context d) = c /\ presharedkeys (parts_values parts) = map fst (psk_proposals q) /\
  forall j kp, (j, kp) ∈ invitation_list (parts_values parts) -> kp_ciphersuite kp = c /\ 0 <= j /\
    exists h', original_tree (diff (pgd_diff d)) = ts_tree (treesync (public_group g)) /\ tree_sync_ok (pgd_diff d) h' /\ hashed c (pgd_diff d) h' /\
      leaf_at (pgd_diff d) j = Some (kp_leaf_node kp) /\
      forall ts path_secret, tree_wf (ts_tree ts) h' -> reads_like (pgd_diff d) ts h' ->
        path_secret_sent (pgd_diff d) (pcr_plain_path (parts_path parts)) (own_leaf_index g) j path_secret ->
        exists s pairs cs, path_secret = Some s /\ derive_path_secrets c ts s (own_leaf_index g) j = Ok (pairs, cs) /\
          forall key, key ∈ encryption_keys (pgd_diff d) j -> key = leaf_encryption_key (payload (kp_leaf_node kp)) \/ key ∈ pairs.*1.
Proof.
  intros c Hq Hb [Hg Hgen Hi Hmi Hdraw Hr0 Hu Hadds]. destruct (choose_proposals_ok _ _ _ _ _ _ _ Hq) as (Hqok & Hva & Hrem).
  apply build_parts_ok in Hb as (d1 & with_path & d2 & content & d3 & psk_secret & Ea & Esr & Hwp & Ep & _ & _ & E3 & _ & _ & _ & _ & _ & _ & E4 & _).
  destruct (applied_tree (public_group g) h q (parts_values parts) d1 (Some (own_leaf_index g)) Hg Hgen Hu Hrem Hr0 Hadds Ea)
    as (_ & Epk & (s1 & Ed1) & Eo & (h1 & Hready & Hhash) & Hgen1 & Einv & Hinv & _).
  destruct (update_transcript_ok _ _ _ _ _ _ E3 E4) as [Ed4 (hash & Ectx)]. rewrite Ed4.
  assert (Ec1 : gc_ciphersuite (pgd_context d1) = c) by (by rewrite Ed1).
  assert (Hnot : forall j kp, (j, kp) ∈ invitation_list (parts_values parts) -> own_leaf_index g <> j).
  { intros j kp Hin <-. destruct (Hinv _ _ Hin) as (_ & _ & _ & [Hn|Hrm]); [by rewrite Hn in Hmi; destruct Hmi|].
    rewrite (proj1 (apply_proposals_value _ _ _ _ _ Ea)) in Esr. pose proof (existsb_false_elem _ _ Esr _ Hrm) as Hn. cbv beta in Hn. by rewrite bool_decide_true in Hn. }
  assert (Ec2 : gc_ciphersuite (pgd_context d2) = c) by (rewrite <- Ec1; by eapply committer_path_ciphersuite).
  split; [by rewrite Ectx|]. split; [done|]. intros j kp Hin. destruct (Hinv j kp Hin) as (Hj & El & Hum & _). split; [|split; [done|]].
  { assert (Hkp : kp ∈ map snd (invitation_list (parts_values parts))) by exact (list_elem_of_fmap_2 snd _ _ Hin). rewrite Einv in Hkp. apply list_elem_of_fmap in Hkp as ([kp' s] & -> & Hkp).
    pose proof (proj1 (try_for_each_ok _ _) Hva (kp', s) Hkp) as Hva'. cbn beta iota in Hva'. clear Hva. rename Hva' into Hva. destruct (_ || _) eqn:Eor in Hva; [discriminate|].
    apply orb_false_iff in Eor as [Eor _]. by apply negb_false_iff, bool_decide_eq_true in Eor. }
  destruct with_path; [|rewrite (invitation_needs_path _ _ _ _ _ Ea (Hwp eq_refl)) in Hin; by apply not_elem_of_nil in Hin].
  destruct (path_shared pr (own_leaf_index g) (parts_values parts) (leaf_node_parameters stage) true d1 (parts_path parts) d2 h1 Ep)
    as (Hok2 & Hh2 & Eo2 & Hgen2 & _); rewrite ?Ec1 in *; [done|done|done|done|done|by exists j; split_and!; [|eapply Hnot|rewrite El]|].
  destruct (joiner_keys pr (own_leaf_index g) (parts_values parts) (leaf_node_parameters stage) d1 (parts_path parts) d2 h1 j (kp_leaf_node kp) Ep) as [El2 Hkeys];
    rewrite ?Ec1 in *; [done|done|by eapply Hnot|done|done|done|]. exists h1. split_and!; [congruence|done..].
Qed.

(** The commit that is built with a welcome is the one that is built without. *)
Lemma build_welcoming_internal map_order now pr signer g stage f r w : build_welcoming map_order now pr signer g stage f = Ok r -> result_welcome r = Some w ->
  build_internal map_order now pr g stage f = Ok (result_commit r).
Proof.
  intros Hb Hw. destruct (build_welcoming_ok _ _ _ _ _ _ _ _ _ Hb Hw) as (q & own & parts & d & d' & info & Eq & Ep & Es & _).
  unfold build_internal. rewrite Eq. cbn [mbind outcome_bind]. unfold build_on, mbind, method_bind. by rewrite Ep, Es.
Qed.

(** A tree imported from the export of another *)
Lemma imported_copy c verify ts h nodes ts' : tree_ok c ts h -> last_full (TreeSync_empty_diff ts) -> try_from_nodes verify (export_ratchet_tree ts) = Ok nodes ->
  from_ratchet_tree c nodes = Ok ts' -> tree_ok c ts' h /\ reads_like (TreeSync_empty_diff ts) ts' h.
Proof.
  intros Hok Hf (-> & _ & _)%try_from_nodes_ok E. destruct (roundtrip_spec c ts h Hok Hf) as [(_ & ts1 & E1 & Hok1 & Hr & _)|[_ E1]]; rewrite E in E1; [|discriminate].
  by injection E1 as ->.
Qed.

Lemma interim_hash_ok c tag d d' : update_interim_transcript_hash c tag d = (Ok tt, d') ->
  pgd_context d' = pgd_context d /\ pgd_confirmation_tag d' = tag /\
  calculate_interim_transcript_hash c (gc_confirmed_transcript_hash (pgd_context d)) tag = Ok (pgd_interim_transcript_hash d').
Proof.
  unfold update_interim_transcript_hash. run. destruct (calculate_interim_transcript_hash _ _ _) as [hash|e|]; [|discriminate..]. by intros [= <-].
Qed.

Lemma staged_diff_ok c ts h d staged : original_tree (diff (pgd_diff d)) = ts_tree ts -> tree_sync_ok (pgd_diff d) h -> hashed c (pgd_diff d) h ->
  PublicGroupDiff_into_staged_diff d = Ok staged ->
  spg_context staged = pgd_context d /\ spg_interim_transcript_hash staged = pgd_interim_transcript_hash d /\ spg_confirmation_tag staged = pgd_confirmation_tag d /\
  let ts' := TreeSync_merge_diff (spg_staged_diff staged) ts in tree_ok c ts' h /\ reads_like (pgd_diff d) ts' h.
Proof.
  intros Eo Hok Hh Est. destruct (merge_spec c ts (pgd_diff d) h Eo Hok Hh) as (x & Ex & Htree & Hreads).
  unfold PublicGroupDiff_into_staged_diff in Est. rewrite Ex in Est. by injection Est as <-.
Qed.

(** What a member knows is enough for a copy of the tree. *)
Lemma copied_keys s ts h j leaf key : tree_sync_ok s h -> tree_sync_ok (TreeSync_empty_diff ts) h -> reads_like s ts h -> 0 <= j -> leaf_at s j = Some leaf ->
  key ∈ encryption_keys (TreeSync_empty_diff ts) j -> key ∈ encryption_keys s j.
Proof.
  intros Hok Hok' Hr Hj El. destruct (merged_reads s ts h Hok' Hr) as [Hk Hl]. apply (encryption_keys_kept _ _ h h); try done; first [by apply Hl|by rewrite El].
Qed.

(** C2: whoever is invited by a commit can join the epoch that it starts.  Let a member
    build a commit with a welcome that covers no Update proposal and leaves the tree out of
    the group info, and a client keep the key package of one of the invitations, know the
    PSKs of the commit and share its reference with no other invitation.  Then the client
    opens the welcome: its group info has the committer's next group context, and the key
    package is deleted unless it is a last resort.  If the client is then given the tree
    that the committer exports after its merge, the last leaf that this tree counts is a
    member (else the exported tree can be smaller and its hash differs,
    [unshrunk_tree_export_mismatch]), no other leaf has the client's signature key (by
    which it looks for its leaf), and the client accepts the tree, then it stages the
    welcome: the confirmation tag matches, it finds its leaf, it has the committer's group
    context, transcript hashes, tree and epoch secrets and a secret tree of its own leaf
    from the same encryption secret, and, by the path secret that it was sent, the private
    keys of all nodes above its leaf that do not list it as unmerged. *)
Theorem welcome_joins map_order now pr signer g stage f r w h config st external reference bundle j :
  let c := MlsGroup_ciphersuite g in let i := own_leaf_index g in let kp := bundle_key_package bundle in
  build_welcoming map_order now pr signer g stage f = Ok r -> result_welcome r = Some w -> use_ratchet_tree_extension (mls_group_config g) = false ->
  committing g h pr (staged_proposal_queue (built_staged_commit (result_commit r))) ->
  invited c r w (loaded_psks stage) config st external reference bundle j ->
  exists mi pw, staged_state (built_staged_commit (result_commit r)) = GroupMember mi /\
    ProcessedWelcome_new_from_welcome config w st = (Ok pw, without_key_package bundle reference st) /\
    gi_group_context (gi_payload (pw_group_info pw)) = spg_context (msc_staged_diff mi) /\
    let ts := TreeSync_merge_diff (spg_staged_diff (msc_staged_diff mi)) (treesync (public_group g)) in
    forall now' verify pg info st', last_full (TreeSync_empty_diff ts) ->
      (forall j' leaf, 0 <= j' -> TreeSync_leaf ts j' = Some leaf -> leaf_signature_key (payload leaf) = leaf_signature_key (payload (kp_leaf_node kp)) -> j' = j) ->
      from_external now' verify (export_ratchet_tree ts) (pw_group_info pw) ProposalStore_new (without_key_package bundle reference st) = (Ok (pg, info), st') ->
      exists sw, into_staged_welcome now' verify pw (Some (export_ratchet_tree ts)) (without_key_package bundle reference st) = (Ok sw, st') /\
        sw_public_group sw = pg /\ joined_epoch ts i j mi bundle sw.
Proof.
  intros c i kp Hb Hw Hext Hc Hi. destruct (build_welcoming_ok _ _ _ _ _ _ _ _ _ Hb Hw) as (q & own & parts & d & d' & info & Eq & Ep & Es & Hm).
  destruct (stage_parts_ok _ _ _ _ _ _ Es) as (staged & Est & Er). cbn [split_secrets] in Er. destruct Hi as [Hwait Hleaf Huniq Hgen Hst Hpsks].
  rewrite Er in Hc, Hleaf, Huniq, Hpsks |- *. cbn [built_staged_commit staged_proposal_queue built_invitations staged_state] in *.
  destruct (commit_adds _ _ _ _ _ _ _ _ _ _ _ Eq Ep Hc) as (Ecd & Epk & Hadd). destruct (Hadd j kp Hleaf) as (Ekc & Hj & h' & Eo & Hok & Hh & El & Hkeys).
  apply build_parts_ok in Ep as (d1 & wp & d2 & content & d3 & psk_secret & _ & _ & _ & _ & _ & _ & E3 & Ectx & Epsk & Ej & Ews & Esec & Etag & E4 & _).
  rewrite <- Epk in Hpsks. fold c in Esec, Etag, E4.
  destruct (welcome_processed g signer parts d info w st config j reference bundle external (loaded_psks stage) psk_secret Hm Hwait Hleaf Huniq Ekc Ecd Hgen Hst Hpsks Epsk Ews)
    as (path_secret & Hsent & Epw).
  eexists _, _. split; [reflexivity|]. split; [exact Epw|]. cbn [msc_staged_diff pw_group_info welcome_opened].
  destruct (interim_hash_ok _ _ _ _ E4) as (Ec34 & Etag4 & Eint).
  destruct (staged_diff_ok c _ h' d staged Eo Hok Hh Est) as (Esc & Esi & Esg & Htree & Hreads). rewrite Esc. split; [apply Hm|].
  cbv zeta. intros now' verify pg info' st' Hfull Hsig Ef. set (ts := TreeSync_merge_diff _ _) in *.
  destruct (from_external_ok _ _ _ _ _ _ _ _ _ Ef) as (nodes & Etn & Efr & Egc & _ & Eg & Eih & _).
  rewrite (wm_context _ _ _ _ _ _ Hm), (wm_tag _ _ _ _ _ _ Hm), Ecd in *. destruct (imported_copy c verify ts h' nodes (treesync pg) Htree Hfull Etn Efr) as [Hok' Hr'].
  pose proof (reads_like_trans _ _ _ _ Hreads Hr') as Hr2. pose proof Hok' as (Hwf' & Hsync' & _).
  destruct (Hkeys (treesync pg) path_secret Hwf' Hr2 Hsent) as (s & pairs & cs & -> & Eder & Hcov).
  assert (Hleafs : forall x, 0 <= x -> TreeSync_leaf (treesync pg) x = TreeSync_leaf ts x).
  { intros x Hx. rewrite <- !(TreeSync_leaf_at _ h') by (done || apply Htree). by apply Hr'. }
  assert (Eown : own_leaf_of bundle pg = Some j).
  { apply (own_leaf_of_spec bundle pg h' j Hwf' Hj).
    - rewrite <- (TreeSync_leaf_at _ h') by done. by rewrite (proj1 Hr2).
    - intros x leaf Hx. rewrite Hleafs by done. by apply Hsig. }
  pose proof (welcome_staged now' verify (export_ratchet_tree ts) config c (parts_joiner_secret parts) psk_secret (Some s) (presharedkeys (parts_values parts)) info bundle
    (without_key_package bundle reference st) pg info' st' j (parts_context parts) (Some pairs)) as Hsw. cbn [split_secrets] in Hsw.
  rewrite (wm_context _ _ _ _ _ _ Hm), (wm_tag _ _ _ _ _ _ Hm), (wm_tree _ _ _ _ _ _ Hm), (wm_signer _ _ _ _ _ _ Hm), Hext, Ec34, <- Esec in Hsw.
  eexists. split; [apply Hsw; try done; by exists pairs, cs|]. split; [done|]. split; cbn [sw_public_group sw_own_leaf_index sw_group_epoch_secrets sw_message_secrets_store sw_path_keypairs msc_staged_diff].
  - congruence.
  - fold c in Eih. congruence.
  - congruence.
  - exists h'. rewrite Esc, Ecd. done.
  - done.
  - done.
  - exists (parts_secrets parts), (parts_context parts), (tsd_tree_size (pgd_diff d)). split; [done|].
    replace (tsd_tree_size (pgd_diff d)) with (TreeSync_tree_size (treesync pg)); [done|].
    etrans; [apply (twf_size _ _ Hwf')|]. symmetry. apply (dwf_size _ _ (mo_diff _ _ (proj1 Hok))).
  - intros key Hk. destruct (Hcov key) as [->|Hin]; [by eapply (copied_keys _ _ h'); [..|exact El|exact Hk]|by left|by right].
Qed.

End Welcomes.

(** ** Groups that are created or joined *)

Section NewGroups.
Context `{!JoinEncoding} `{!ContextEncoding} `{!OpenMlsCrypto} `{!KdfLaws} `{!ExtractLaws} `{!ProposalHashing} `{!TreeHashing} `{!HashLaws} `{!TranscriptEncoding}.
Context `{!OpenMlsHpke} `{!PskEncoding} `{!Serde Psk} `{!Serde PskBundle} `{!Serde KeyPackageBundle}.
Context `{!Serde bytes} `{!SerdeLaws bytes} `{!Serde Z} `{!SerdeLaws Z} `{!Serde TreeSync} `{!SerdeLaws TreeSync}.
Context `{!Serde GroupContext} `{!SerdeLaws GroupContext} `{!Serde InterimTranscriptHash} `{!SerdeLaws InterimTranscriptHash}.
Context `{!Serde ConfirmationTag} `{!SerdeLaws ConfirmationTag} `{!Serde QueuedProposal} `{!SerdeLaws QueuedProposal}.
Context `{!Serde (bytes * bytes)} `{!SerdeLaws (bytes * bytes)} `{!Serde (list bytes)} `{!SerdeLaws (list bytes)} `{!JsonArrays bytes bytes}.
Context `{!Serde GroupEpochSecrets} `{!SerdeLaws GroupEpochSecrets} `{!Serde LeafNode} `{!SerdeLaws LeafNode}.
Context `{!Serde (MessageSecretsStore MessageSecrets)} `{!SerdeLaws (MessageSecretsStore MessageSecrets)}.
Context `{!Serde (ResumptionPskStore Secret)} `{!SerdeLaws (ResumptionPskStore Secret)} `{!Serde MlsGroupJoinConfig} `{!SerdeLaws MlsGroupJoinConfig}.
Context `{!Serde MlsGroupState} `{!SerdeLaws MlsGroupState} `{!Serde StoredKeyPair} `{!SerdeLaws StoredKeyPair}.
Context `{!Serde (list EncryptionKeyPair)} `{!SerdeLaws (list EncryptionKeyPair)}.

(** Nothing is stored for the group that a new one would be mixed with. *)
Record unused (st : MemoryStorage) (group_id : bytes) (epoch : Z) (own : LeafNodeIndex) : Prop := {
  un_queue : st !! entry PROPOSAL_QUEUE_REFS_LABEL group_id = None;
  un_leaves : st !! entry OWN_LEAF_NODES_LABEL group_id = None;
  un_keys : st !! epoch_entry group_id epoch own = None
}.

(** A group that is stored, with the key pairs of its epoch *)
Record stored (st : MemoryStorage) (g : MlsGroup) (keypairs : list EncryptionKeyPair) : Prop := {
  sd_mirrors : mirrors st g;
  sd_secrets : secrets_stored st g;
  sd_keys : read_epoch_keypairs g st = (Ok keypairs, st);
  sd_load : MlsGroup_load (MlsGroup_group_id g) st = (Ok (Some (set_aad [] g)), st)
}.

(** The extensions that a new group may have *)
Definition legal_in_context (es : Extensions) : bool :=
  bool_decide (find_by_type es ExtApplicationId = None) && bool_decide (find_by_type es ExtRatchetTree = None) && bool_decide (find_by_type es ExtExternalPub = None).
Definition legal_in_leaf (es : Extensions) : bool := forallb (fun e => match extension_type e with ExtUnknown _ => true | _ => false end) es.
Definition legal_extensions (config : MlsGroupCreateConfig) : bool :=
  legal_in_context (create_group_context_extensions config) && legal_in_leaf (create_leaf_node_extensions config).

Lemma creator_secrets_ok c joiner_secret psk_secret context : creator_secrets c joiner_secret psk_secret context =
  Ok (epoch_of c (epoch_secret_of c joiner_secret psk_secret context)).
Proof.
  unfold creator_secrets. rewrite KeySchedule_init_ok. cbn [map_err mbind outcome_bind].
  rewrite add_context_fresh. cbn [map_err mbind outcome_bind]. by rewrite epoch_secrets_of.
Qed.

Lemma created_stored g st keypairs : own_leaf_nodes g = [] -> MlsGroup_proposal_store g = [] -> group_state g = Operational ->
  unused st (MlsGroup_group_id g) (MlsGroup_epoch g) (own_leaf_index g) ->
  exists st', (MlsGroup_store g;; store_epoch_keypairs g keypairs) st = (Ok tt, st') /\ stored st' g keypairs.
Proof.
  intros El Ep Es [Hq Hl Hk]. destruct (created_mirrors g st keypairs El Ep) as (st' & E & Hm & Hs & Hp); [unfold pending_commit; by rewrite Es|done..|].
  exists st'. split; [done|]. split; [done|done| |by apply MlsGroup_load_spec]. by rewrite (read_epoch_keypairs_spec _ _ (Some keypairs)).
Qed.

(** C12: a new group starts with its creator and can be loaded.  If the configuration
    asks for extensions that have no place in a group context or in a leaf node, the
    group is refused and nothing is written.  Otherwise, if nothing is stored under the
    group id, the group is created: it has the id, epoch 0 and a consistent tree of one
    leaf, the creator's, whose hash is in the group context; the creator is the member
    at leaf 0 of that epoch with a fresh secret tree, ready for
    [create_message]; the storage mirrors the group, which [load] gives back, and holds
    the key pair of the leaf as that of the epoch. *)
Theorem new_group_starts pr config group_id st leaf keypair secret init :
  (forall context, is_Some (tls_group_context context)) -> (forall tag, is_Some (tls_interim_input tag)) ->
  draw_leaf pr (create_capabilities config) (create_leaf_node_extensions config) (create_lifetime config) = Ok (leaf, keypair) ->
  draw_secret pr = Ok secret -> draw_init_secret pr = Ok init -> config_u32 (sender_ratchet_configuration (create_join_config config)) -> unused st group_id 0 0 ->
  if legal_extensions config then
    exists g st' e, new_with_group_id pr config group_id st = (Ok g, st') /\ stored st' g [keypair] /\
      MlsGroup_group_id g = group_id /\ MlsGroup_epoch g = 0 /\ group_ok (public_group g) 0 /\ TreeSync_leaf (treesync (public_group g)) 0 = Some leaf /\
      epoch_ok e /\ member_of e 0 initial_senders g
  else exists e, new_with_group_id pr config group_id st = (Err (NewGroupInvalidExtensions e), st).
Proof.
  intros Henc Hint Eleaf Esec Einit Hconf Hun. unfold new_with_group_id, MlsGroupBuilder_build_internal. cbn [default from_option id builder_group_id builder_psk_ids].
  unfold with_group_context_extensions, with_leaf_node_extensions, legal_extensions. run. fold (legal_in_context (create_group_context_extensions config)).
  destruct (legal_in_context (create_group_context_extensions config)) eqn:E1; cbn [andb]; [|by eexists]. cbn [tb_group_id tb_ciphersuite tb_lifetime tb_capabilities tb_leaf_node_extensions tb_group_context_extensions].
  fold (legal_in_leaf (create_leaf_node_extensions config)). destruct (legal_in_leaf (create_leaf_node_extensions config)) eqn:E2; [|by eexists].
  unfold get_secrets, with_capabilities, with_lifetime. cbn [tb_group_id tb_ciphersuite tb_lifetime tb_capabilities tb_leaf_node_extensions tb_group_context_extensions default from_option id].
  set (c := create_ciphersuite config). rewrite Eleaf, Esec. cbn [PublicGroup_builder tb_ciphersuite tb_group_id]. destruct (new_tree_spec c leaf keypair secret) as (ts & cs & Ets & _ & Hok & El & _). run. rewrite Ets.
  set (context := create_initial_group_context c group_id (ts_tree_hash ts) (create_group_context_extensions config)).
  destruct (Henc context) as [encoded Eenc]. rewrite Eenc, Einit, JoinerSecret_new_ok. cbn [load_psks]. unfold lift_state. run. change (PskSecret_new c []) with (Ok (E := PskError) (Secret_zero c)). run.
  rewrite creator_secrets_ok. cbn [split_secrets ms_confirmation_key]. set (secrets := epoch_of c _).
  unfold ConfirmationKey_tag, Mac_new. rewrite extract_ok. set (tag := extract c (confirmation_key secrets) []).
  unfold PublicGroup_new, calculate_interim_transcript_hash. destruct (Hint tag) as [input Einput]. rewrite Einput.
  destruct (provider_hash_ok (hash_algorithm (gc_ciphersuite context)) (gc_confirmed_transcript_hash context ++ input)) as (hash & Ehash & _).
  run. rewrite Ehash. set (g := mkMlsGroup _ _ _ _ _ _ _ _ _).
  destruct (created_stored g st [keypair] eq_refl eq_refl eq_refl Hun) as (st' & Est & Hsd).
  exists g, st', {| ep_context := context; ep_tree := ts; ep_encoded_context := encoded; ep_sender_data_secret := sender_data_secret secrets;
    ep_encryption_secret := encryption_secret secrets; ep_height := 0 |}. split; [|split_and!; try done].
  - run. destruct (MlsGroup_store g st) as [[u|e|] st1]; [|discriminate..]. by rewrite Est.
  - split; try done. exists []. by apply (new_tree_ok c _ (encryption_secret secrets) 0).
Qed.

(** What was left in the storage under the id of a group: proposals in the queue and own
    leaf nodes *)
Record left_over (st : MemoryStorage) (group_id : bytes) (ps : ProposalStore) (leaves : list LeafNode) : Prop := {
  lo_queue : queue_holds st group_id (referenced ps);
  lo_leaves : stored_list st (entry OWN_LEAF_NODES_LABEL group_id) (map encode leaves)
}.

Lemma unused_left_over st group_id epoch own : unused st group_id epoch own -> left_over st group_id [] [].
Proof.
  intros [Hq Hl _]. split; [|unfold stored_list; by rewrite Hl]. split; [constructor| |by intros ? ? ?%not_elem_of_nil]. unfold stored_list. by rewrite Hq.
Qed.

(** C13: a client that has staged a welcome becomes a member.  [into_group] never fails:
    the group has the public group, the leaf, the epoch secrets and the message secrets of
    the staged welcome, room for as many past epochs as the configuration asks for and
    no pending commit, and the stored key pairs of its epoch are those of the leaf and of
    the path.  But it does not clear what the storage holds under the group id: [load]
    gives the group back with the proposals and own leaf nodes that were left there, of
    an earlier membership.  When nothing was left, the storage mirrors the group and
    [load] gives it back as it is in memory. *)
Theorem joined_group_starts sw st ms ps leaves : sw_message_secrets_store sw = new_with_secret 0 ms -> left_over st (PublicGroup_group_id (sw_public_group sw)) ps leaves ->
  let keypairs := bundle_encryption_key_pair (sw_bundle sw) :: default [] (sw_path_keypairs sw) in
  exists g st', into_group sw st = (Ok g, st') /\
    public_group g = sw_public_group sw /\ own_leaf_index g = sw_own_leaf_index sw /\ group_epoch_secrets g = sw_group_epoch_secrets sw /\
    message_secrets_store g = new_with_secret (Z.to_nat (max_past_epochs (sw_config sw))) ms /\ group_state g = Operational /\ mls_group_config g = sw_config sw /\
    own_leaf_nodes g = [] /\ read_epoch_keypairs g st' = (Ok keypairs, st') /\
    MlsGroup_load (MlsGroup_group_id g) st' = (Ok (Some (set_own_leaf_nodes leaves (set_group_proposals ps g))), st') /\
    (ps = proposal_store (sw_public_group sw) -> leaves = [] -> stored st' g keypairs).
Proof.
  intros Ems [Hq Hl] keypairs. set (g := set_message_store (new_with_secret (Z.to_nat (max_past_epochs (sw_config sw))) ms) (welcomed_group sw)).
  set (g2 := set_own_leaf_nodes leaves (set_group_proposals ps g)).
  set (st1 := <[epoch_entry (MlsGroup_group_id g) (MlsGroup_epoch g) (own_leaf_index g) := encode keypairs]> st).
  destruct (MlsGroup_store_spec g2 st1) as (st' & E & Hm & Hs & Hkept). change (MlsGroup_group_id g2) with (MlsGroup_group_id g) in *.
  change (PublicGroup_group_id (sw_public_group sw)) with (MlsGroup_group_id g) in Hq, Hl.
  assert (Hmir : mirrors st' g2).
  { apply Hm.
    - by apply queue_holds_insert.
    - unfold stored_list, st1 in *. by rewrite lookup_insert_ne by (apply keys_differ; reflexivity).
    - intros _. exists (Some keypairs). unfold st1. change (MlsGroup_epoch g2) with (MlsGroup_epoch g). change (own_leaf_index g2) with (own_leaf_index g). by rewrite lookup_insert_eq.
    - done. }
  assert (Hk : read_epoch_keypairs g st' = (Ok keypairs, st')).
  { rewrite (read_epoch_keypairs_spec _ _ (Some keypairs)); [done|]. rewrite Hkept. unfold st1. by rewrite lookup_insert_eq. }
  pose proof (MlsGroup_load_spec _ _ Hmir Hs) as Hload. change (set_aad [] g2) with g2 in Hload. change (MlsGroup_group_id g2) with (MlsGroup_group_id g) in Hload.
  exists g, st'. split; [|do 9 (split; [done|]); intros Eps Els].
  - unfold into_group, lift_state, no_error, set_max_past_epochs. run. fold keypairs. unfold store_epoch_keypairs. rewrite write_epoch_keys_spec.
    assert (Er : resize_store (Z.to_nat (max_past_epochs (mls_group_config (welcomed_group sw)))) (message_secrets_store (welcomed_group sw)) =
      Ok (new_with_secret (Z.to_nat (max_past_epochs (sw_config sw))) ms)) by (cbn [welcomed_group message_secrets_store]; rewrite Ems; done).
    rewrite Er. cbn [outcome_state]. fold g.
    change (<[epoch_entry (MlsGroup_group_id (welcomed_group sw)) (MlsGroup_epoch (welcomed_group sw)) (own_leaf_index (welcomed_group sw)) := encode keypairs]> st) with st1.
    change (MlsGroup_store g2 st1) with (MlsGroup_store g st1) in E. by rewrite E.
  - assert (Eg : g2 = g) by (unfold g2; rewrite Eps, Els; unfold g, set_own_leaf_nodes, set_group_proposals, set_public_group, set_message_store, welcomed_group; cbn; by destruct (sw_public_group sw)). rewrite Eg in Hmir, Hload. split; [done|done|done|].
    by change (set_aad [] g) with g.
Qed.

End NewGroups.

(** ** Witnesses *)

Module JoinSamples.
#[local] Instance KeyPackageBundle_eq_decision : EqDecision KeyPackageBundle.
Proof. solve_decision. Defined.
#[local] Instance KeyPackageBundle_number : Countable KeyPackageBundle.
Proof. exact (inj_countable' (fun b => (bundle_key_package b, private_init_key b, private_encryption_key b)) (fun '(x, y, z) => mkKeyPackageBundle x y z) ltac:(by intros [])). Defined.
#[local] Instance GroupSecrets_eq_decision : EqDecision GroupSecrets.
Proof. solve_decision. Defined.
#[local] Instance GroupSecrets_number : Countable GroupSecrets.
Proof. exact (inj_countable' (fun s => (gs_joiner_secret s, gs_path_secret s, gs_psks s)) (fun '(x, y, z) => mkGroupSecrets x y z) ltac:(by intros [])). Defined.
#[local] Instance GroupInfoTBS_eq_decision : EqDecision GroupInfoTBS.
Proof. solve_decision. Defined.
#[local] Instance GroupInfoTBS_number : Countable GroupInfoTBS.
Proof. exact (inj_countable' (fun i => (gi_group_context i, gi_extensions i, gi_confirmation_tag i, gi_signer i)) (fun '(x, y, z, u) => mkGroupInfoTBS x y z u) ltac:(by intros [])). Defined.
#[local] Instance GroupInfo_eq_decision : EqDecision GroupInfo.
Proof. solve_decision. Defined.
#[local] Instance GroupInfo_number : Countable GroupInfo.
Proof. exact (inj_countable' (fun i => (gi_payload i, gi_signature i)) (fun '(x, y) => mkGroupInfo x y) ltac:(by intros [])). Defined.
#[local] Instance Node_eq_decision : EqDecision Node.
Proof. solve_decision. Defined.
#[local] Instance Node_number : Countable Node.
Proof. exact (inj_countable' (fun n => match n with NodeLeaf x => inl x | NodeParent x => inr x end) (fun n => match n with inl x => NodeLeaf x | inr x => NodeParent x end) ltac:(by intros [])). Defined.

Definition toy_joining : JoinEncoding := {|
  tls_key_package kp := Some (kp_init_key kp);
  codec_group_secrets := countable_codec GroupSecrets;
  codec_group_info := countable_codec GroupInfo;
  write_group_info_tbs := countable_codec GroupInfoTBS;
  write_labelled := countable_codec (bytes * bytes);
  ratchet_tree_bytes t := [Z.pos (countable.encode (t : list (option Node)))];
  ratchet_tree_of_bytes b := match b with [Z.pos p] => default [] (countable.decode p) | _ => [] end |}.

Lemma toy_joining_laws : @JoinLaws toy_joining.
Proof. split; [apply countable_codec_ok|apply countable_codec_ok|]. intros t. cbn. by rewrite countable.decode_encode. Qed.

#[local] Existing Instances toy_joining toy_joining_laws toy_contexts toy_crypto toy_laws toy_aead toy_aead_laws toy_signatures toy_proposal_hashing toy_hashing toy_hash_laws toy_transcripts toy_hpke toy_hpke_laws toy_psk_labels toy_extract_laws.
#[local] Instance number_serde (A : Type) `{Countable A} : Serde A | 10 := toy_serde A.
#[local] Instance number_laws (A : Type) `{Countable A} : SerdeLaws A | 10 := toy_serde_laws A.
#[local] Instance PskBundle_eq_decision : EqDecision PskBundle.
Proof. solve_decision. Defined.
#[local] Instance PskBundle_number : Countable PskBundle.
Proof. exact (inj_countable' bundle_secret mkPskBundle ltac:(by intros [])). Defined.

Definition new_key_package : KeyPackage := {|
  kp_protocol_version := Mls10; kp_ciphersuite := hash_suite; kp_init_key := [73]; kp_leaf_node := sample_leaf 4; kp_extensions := []; kp_signature := [] |}.
Definition adding_stage : LoadedPsks := {|
  own_proposals := [Add new_key_package]; force_self_update := false; leaf_node_parameters := LeafNodeParameters_default; consume_proposal_store := true; loaded_psks := [] |}.
Definition group_signer : Signer := fun data => Ok ([1] ++ data).

Definition adding : outcome CreateCommitError CreateCommitResult := build_welcoming (fun m => map_to_list m) (Some 0) sample_provider group_signer (sample_member 0) adding_stage (fun _ => true).

Definition new_bundle : KeyPackageBundle := {| bundle_key_package := new_key_package; private_init_key := [73]; private_encryption_key := [4] |}.
Definition new_reference : bytes := match hash_ref new_key_package with Ok x => x | _ => [] end.
Definition new_storage : MemoryStorage := {[entry KEY_PACKAGE_LABEL new_reference := Storage.encode new_bundle]}.
Definition new_config : MlsGroupJoinConfig := mls_group_config (sample_member 3).

(** The tree after the commit, as its committer exports it *)
Definition added_tree (mi : MemberStagedCommitState) : TreeSync :=
  TreeSync_merge_diff (spg_staged_diff (msc_staged_diff mi)) (treesync (public_group (sample_member 0))).

(** Only leaf [j] has the signature key. *)
Definition signs_alone (ts : TreeSync) (key : bytes) (j : LeafNodeIndex) : bool :=
  bool_decide (default_leaf (ts_tree ts) = None) &&
  forallb (fun x => match x.2 with Some leaf => negb (bool_decide (leaf_signature_key (payload leaf) = key)) || (x.1 =? j) | None => true end) (ABinaryTree_leaves (ts_tree ts)).

Lemma signs_alone_spec ts key j j' leaf : signs_alone ts key j = true -> 0 <= j' -> TreeSync_leaf ts j' = Some leaf -> leaf_signature_key (payload leaf) = key -> j' = j.
Proof.
  intros [Hd%bool_decide_eq_true Hall]%andb_true_iff Hj E Ek. unfold TreeSync_leaf, ABinaryTree_leaf, leaf_by_index in E. rewrite Hd in E.
  destruct (BinaryTree.leaf_nodes (ts_tree ts) !! Z.to_nat j') as [x|] eqn:El; [|discriminate]. cbn in E. subst x.
  rewrite forallb_forall in Hall. specialize (Hall (j', Some leaf)). cbn [fst snd] in Hall. rewrite bool_decide_true in Hall by done. cbn in Hall.
  apply Z.eqb_eq, Hall. apply list_elem_of_In, enumerate_elem_of. by split.
Qed.

Definition added_ok (r : CreateCommitResult) (w : Welcome) (mi : MemberStagedCommitState) : bool :=
  let q := staged_proposal_queue (built_staged_commit (result_commit r)) in
  bool_decide (removed_leaves q = []) && is_empty (update_proposals q) && is_empty (psk_proposals q) && bool_decide (map fst (add_proposals q) = [new_key_package]) &&
  bool_decide (built_invitations (result_commit r) = [(3, new_key_package)]) && forallb (fun egs => bool_decide (new_member egs = new_reference)) (welcome_secrets w) &&
  signs_alone (added_tree mi) [4] 3 && bool_decide (is_Some (leaf_at (TreeSync_empty_diff (added_tree mi)) (total (TreeSync_empty_diff (added_tree mi)) - 1))) &&
  match ProcessedWelcome_new_from_welcome new_config w new_storage with
  | (Ok pw, st) => match (from_external (Some 0) (fun _ _ => true) (export_ratchet_tree (added_tree mi)) (pw_group_info pw) ProposalStore_new st).1 with Ok _ => true | _ => false end
  | _ => false
  end.

Lemma added_ok_spec r w mi : added_ok r w mi = true ->
  let q := staged_proposal_queue (built_staged_commit (result_commit r)) in
  removed_leaves q = [] /\ update_proposals q = [] /\ psk_proposals q = [] /\ map fst (add_proposals q) = [new_key_package] /\
  built_invitations (result_commit r) = [(3, new_key_package)] /\ (forall egs, egs ∈ welcome_secrets w -> new_member egs = new_reference) /\
  signs_alone (added_tree mi) [4] 3 = true /\ last_full (TreeSync_empty_diff (added_tree mi)) /\
  exists pw st pg info st', ProcessedWelcome_new_from_welcome new_config w new_storage = (Ok pw, st) /\
    from_external (Some 0) (fun _ _ => true) (export_ratchet_tree (added_tree mi)) (pw_group_info pw) ProposalStore_new st = (Ok (pg, info), st').
Proof.
  unfold added_ok. cbv zeta. generalize new_storage. intros storage Hb.
  apply andb_true_iff in Hb as [Hb Hacc]. apply andb_true_iff in Hb as [Hb Hfull%bool_decide_eq_true]. apply andb_true_iff in Hb as [Hb Hsig].
  apply andb_true_iff in Hb as [Hb Hrefs]. apply andb_true_iff in Hb as [Hb Hinv%bool_decide_eq_true]. apply andb_true_iff in Hb as [Hb Hadd%bool_decide_eq_true].
  apply andb_true_iff in Hb as [Hb Hpsk]. apply andb_true_iff in Hb as [Hrem%bool_decide_eq_true Hupd].
  split; [exact Hrem|]. split; [destruct (update_proposals _); [reflexivity|discriminate Hupd]|]. split; [destruct (psk_proposals _); [reflexivity|discriminate Hpsk]|]. split; [exact Hadd|]. split; [exact Hinv|]. split; [|split; [exact Hsig|split; [exact Hfull|]]].
  - intros egs Hin. rewrite forallb_forall in Hrefs. apply (bool_decide_eq_true_1 (new_member egs = new_reference)), Hrefs, list_elem_of_In, Hin.
  - destruct (ProcessedWelcome_new_from_welcome new_config w storage) as [[pw| |] st] eqn:Epw; [|discriminate Hacc..].
    destruct (from_external _ _ _ _ _ st) as [[[pg info]| |] st'] eqn:Ef in Hacc; [|discriminate Hacc..]. exists pw, st, pg, info, st'. split; [reflexivity|exact Ef].
Qed.

Lemma sample_adding : exists r w mi, adding = Ok r /\ result_welcome r = Some w /\ staged_state (built_staged_commit (result_commit r)) = GroupMember mi /\ added_ok r w mi = true.
Proof.
  assert (E : match adding with
    | Ok r => match result_welcome r, staged_state (built_staged_commit (result_commit r)) with Some w, GroupMember mi => added_ok r w mi | _, _ => false end
    | _ => false
    end = true) by (vm_compute; reflexivity).
  destruct adding as [r| |]; [|discriminate..]. destruct (result_welcome r) as [w|] eqn:Ew; [|discriminate].
  destruct (staged_state (built_staged_commit (result_commit r))) as [s|mi] eqn:Es; [discriminate|]. exists r, w, mi. by split_and!.
Qed.

(** The fourth member joins. *)
Lemma welcome_joins_witness : exists r w mi pw sw st st', adding = Ok r /\ result_welcome r = Some w /\ staged_state (built_staged_commit (result_commit r)) = GroupMember mi /\
  ProcessedWelcome_new_from_welcome new_config w new_storage = (Ok pw, st) /\
  into_staged_welcome (Some 0) (fun _ _ => true) pw (Some (export_ratchet_tree (added_tree mi))) st = (Ok sw, st') /\
  sw_own_leaf_index sw = 3 /\ sw_group_epoch_secrets sw = msc_group_epoch_secrets mi.
Proof.
  destruct sample_joined_ok as [h Hok]. destruct sample_adding as (r & w & mi & Er & Ew & Es & Hb).
  destruct (added_ok_spec r w mi Hb) as (Hrem & Eu & Ep & Hadd & Hinv & Hrefs & Hsig & Hfull & pw' & st1 & pg & info & st' & Epw' & Ef).
  destruct (welcome_joins (fun m => map_to_list m) (Some 0) sample_provider group_signer (sample_member 0) adding_stage (fun _ => true) r w h new_config new_storage
    (fun _ => None) new_reference new_bundle 3) as (mi' & pw & Es' & Epw & _ & Hjoin).
  - exact Er.
  - exact Ew.
  - reflexivity.
  - split.
    + exact (sample_group_ok h Hok).
    + apply toy_tree_generated.
    + exact (Z.le_refl 0).
    + vm_compute. eauto.
    + intros kp [= <-]. apply toy_generated.
    + rewrite Hrem. intros leaf Hin. destruct (not_elem_of_nil leaf Hin).
    + exact Eu.
    + rewrite Hadd. intros kp ->%list_elem_of_singleton. exists ([4], [4]). split; [apply toy_generated|reflexivity].
  - split.
    + split; [reflexivity|apply lookup_singleton_eq|]. intros egs Hin Hne. destruct (Hne (Hrefs egs Hin)).
    + rewrite Hinv. apply list_elem_of_here.
    + rewrite Hinv. intros j kp Hin _. apply list_elem_of_singleton, Hin.
    + apply toy_generated.
    + intros p. apply lookup_singleton_ne. apply entry_label; [apply (bool_decide_eq_true_1 (_ ∈ labels)); reflexivity|apply (bool_decide_eq_true_1 (_ ∈ labels)); reflexivity|].
      apply (bool_decide_eq_false_1 (KEY_PACKAGE_LABEL = PSK_LABEL)). reflexivity.
    + rewrite Ep. reflexivity.
  - pose proof (eq_trans (eq_sym Es) Es') as Emi. injection Emi as Emi. subst mi'. pose proof (eq_trans (eq_sym Epw) Epw') as Ep'. apply pair_eq in Ep' as [Ep' Est].
    injection Ep' as Ep'. subst pw' st1.
    destruct (Hjoin (Some 0) (fun _ _ => true) pg info st' Hfull (fun j' leaf => signs_alone_spec _ _ _ j' leaf Hsig) Ef) as (sw & Esw & _ & Hje).
    exists r, w, mi, pw, sw, (without_key_package new_bundle new_reference new_storage), st'. split; [exact Er|]. split; [exact Ew|]. split; [exact Es|]. split; [exact Epw|].
    split; [exact Esw|]. split; [exact (je_index _ _ _ _ _ _ Hje)|exact (je_secrets _ _ _ _ _ _ Hje)].
Defined.

#[local] Instance lists_serde : Serde (list bytes) | 0 := toy_serde_lists.
#[local] Instance lists_laws : SerdeLaws (list bytes) | 0 := toy_serde_lists_laws.
#[local] Instance arrays : JsonArrays bytes bytes.
Proof. split; [done|]. by intros x b [= <-]. Qed.

Definition new_create_config : MlsGroupCreateConfig := {|
  create_capabilities := Capabilities_default; create_lifetime := mkLifetime 0 9; create_ciphersuite := hash_suite; create_join_config := mls_group_config (sample_member 0);
  create_group_context_extensions := []; create_leaf_node_extensions := [] |}.

Definition new_creation : CreationProvider := {|
  draw_leaf _ _ _ := Ok (sample_leaf 1, ([1], [1])); draw_secret := Ok [9]; draw_init_secret := Ok [8]; draw_group_id := [5]; default_lifetime := mkLifetime 0 9 |}.

Lemma empty_unused (group_id : bytes) (epoch : Z) (own : LeafNodeIndex) : unused ∅ group_id epoch own.
Proof. split; apply lookup_empty. Qed.

(** A group of one member *)
Lemma new_group_starts_witness : exists g st, new_with_group_id new_creation new_create_config [1] ∅ = (Ok g, st) /\ MlsGroup_epoch g = 0 /\
  MlsGroup_load (MlsGroup_group_id g) st = (Ok (Some (set_aad [] g)), st).
Proof.
  assert (H := new_group_starts new_creation new_create_config [1] ∅ (sample_leaf 1) ([1], [1]) [9] [8] (fun _ => ltac:(eexists; reflexivity)) (fun _ => ltac:(eexists; reflexivity))
    eq_refl eq_refl eq_refl sample_config_u32 (empty_unused [1] 0 0)).
  change (legal_extensions new_create_config) with true in H. cbn iota in H. destruct H as (g & st & e & E & Hs & _ & Ee & _). exists g, st. split; [exact E|].
  split; [exact Ee|exact (sd_load _ _ _ Hs)].
Defined.

Definition sample_welcome : StagedWelcome := {|
  sw_config := new_config; sw_public_group := group_over sample_joined; sw_group_epoch_secrets := sample_epoch_secrets; sw_own_leaf_index := 2;
  sw_message_secrets_store := new_with_secret 0 (sample_message_secrets 2); sw_resumption_psk_store := ResumptionPskStore_new 4;
  sw_group_info := mkGroupInfo (mkGroupInfoTBS toy_context [] [] 0) []; sw_bundle := new_bundle; sw_path_keypairs := Some [([21], [21])] |}.

Lemma joined_group_starts_witness : exists g st, into_group sample_welcome ∅ = (Ok g, st) /\ stored st g [([4], [4]); ([21], [21])] /\
  message_secrets_store g = new_with_secret 2 (sample_message_secrets 2).
Proof.
  destruct (joined_group_starts sample_welcome ∅ (sample_message_secrets 2) [] [] eq_refl (unused_left_over _ _ _ _ (empty_unused _ 0 0)))
    as (g & st & E & _ & _ & _ & Em & _ & _ & _ & _ & _ & Hs).
  exists g, st. split; [exact E|]. split; [exact (Hs eq_refl eq_refl)|exact Em].
Defined.

End JoinSamples.
