(* ===== verification/External.v ===== *)
(** * Joining by an external commit

    Models the second way into a group: a client that has the group info and the tree
    commits itself into the group ([group/mls_group/create_commit.rs] and
    [MlsGroup::join_by_external_commit] of [group/mls_group/creation.rs]).

    The joiner draws an init secret by HPKE towards the external public key of the group
    and sends the encapsulation in an ExternalInit proposal; if a member has its
    signature key already, it removes that member.  It takes the first free leaf and
    makes a path from it.  The theorems show that it ends in the epoch of the members
    that process its commit. *)

From Stdlib Require Import String.
From stdpp Require Import functions.
From S2P Require Import Prelude TreeMath Crypto Tls BinaryTree SenderRatchet SecretTree LeafNodes Nodes TreeSyncDiff TreeHash UpdatePaths TreeKem TreeSync EpochStores Proposals PublicGroup Validation Storage Commits KeySchedule Members Framing GroupState Countables Agreement GroupPersistence GroupMessages Joining.

(** ** Data *)

(** [FramingParameters { aad, wire_format }] *)
Abbreviation FramingParameters := (bytes * WireFormat)%type (only parsing).

(** The cases of [ExternalCommitError] that are returned *)
Inductive ExternalCommitError :=
| ExternalCommitLibraryError (e : LibraryError)
| ExternalMissingRatchetTree
| MissingExternalPub
| ExternalUnsupportedCiphersuite
| ExternalCommitFailed
| ExternalPublicGroupError (e : CreationFromExternalError)
| ExternalStorageError (e : MemoryStorageError).

Record CreateCommitParams := mkCreateCommitParams {
  ccp_framing_parameters : option FramingParameters;
  ccp_credential_with_key : Credential * bytes;
  ccp_inline_proposals : list Proposal;
  ccp_force_self_update : bool;
  ccp_leaf_node_parameters : LeafNodeParameters
}.

(** [TempBuilderCCPM0::external_commit] *)
Definition external_commit (credential_with_key : Credential * bytes) (framing_parameters : FramingParameters) : CreateCommitParams := {|
  ccp_framing_parameters := Some framing_parameters; ccp_credential_with_key := credential_with_key; ccp_inline_proposals := [];
  ccp_force_self_update := true; ccp_leaf_node_parameters := LeafNodeParameters_default |}.

(** [CreateCommitParamsBuilder::leaf_node_parameters] *)
Definition set_leaf_node_parameters (p : LeafNodeParameters) (params : CreateCommitParams) : CreateCommitParams := {|
  ccp_framing_parameters := ccp_framing_parameters params; ccp_credential_with_key := ccp_credential_with_key params;
  ccp_inline_proposals := ccp_inline_proposals params; ccp_force_self_update := ccp_force_self_update params; ccp_leaf_node_parameters := p |}.

Definition set_inline_proposals (ps : list Proposal) (params : CreateCommitParams) : CreateCommitParams := {|
  ccp_framing_parameters := ccp_framing_parameters params; ccp_credential_with_key := ccp_credential_with_key params;
  ccp_inline_proposals := ps; ccp_force_self_update := ccp_force_self_update params; ccp_leaf_node_parameters := ccp_leaf_node_parameters params |}.

Section External.
Context `{!JoinEncoding} `{!InboundBodies} `{!FramingEncoding} `{!ContextEncoding} `{!OpenMlsCrypto} `{!AeadProvider} `{!SignatureProvider} `{!ProposalHashing}.
Context `{!TreeHashing} `{!TranscriptEncoding} `{!OpenMlsHpke} `{!HpkeExport} `{!PskEncoding} `{!Serde Psk} `{!Serde PskBundle}.
Context (map_order : gmap LeafNodeIndex FilterMember -> list (LeafNodeIndex * FilterMember)).

(** ** The commit *)

(** The checks of [create_external_commit_internal]: those of a member's commit but for
    the update proposals *)
Definition external_validate (now : option Z) (g : PublicGroup) (q : ProposalQueue) : outcome CreateCommitError () :=
  _ ← map_err CreateProposalValidation (validate_proposal_type_support g q);
  _ ← map_err CreateProposalValidation (validate_key_uniqueness g q None);
  _ ← map_err CreateProposalValidation (validate_add_proposals now g q);
  _ ← map_err CreateProposalValidation (validate_capabilities g q);
  _ ← map_err CreateProposalValidation (validate_remove_proposals g q);
  _ ← map_err CreateProposalValidation (validate_pre_shared_key_proposals g q);
  map_err CreateGCEProposalValidation (validate_group_context_extensions_proposal g q).

(** The key schedule; the PSKs are loaded once the joiner secret is derived. *)
Definition external_secrets (g : MlsGroup) (st : MemoryStorage) (commit_secret : option CommitSecret) (psk_ids : list PreSharedKeyId) (context : bytes) :
    outcome CreateCommitError (Secret * Secret * EpochSecrets) :=
  let c := MlsGroup_ciphersuite g in
  joiner_secret ← map_err (fun e => CreateLibraryError (LibraryCryptoError e)) (JoinerSecret_new c commit_secret (ge_init_secret (group_epoch_secrets g)) context);
  psks ← map_err CreatePskError (load_psks (resumption_psk_store g) psk_ids st).1;
  psk_secret ← map_err CreatePskError (PskSecret_new c psks);
  key_schedule ← map_err CreateLibraryError (KeySchedule_init c joiner_secret psk_secret);
  welcome_secret ← map_err (fun _ => CreateLibraryError LibraryCustom) (welcome key_schedule c);
  let '(added, key_schedule) := add_context context key_schedule in
  _ ← map_err (fun _ => CreateLibraryError LibraryCustom) added;
  secrets ← map_err (fun _ => CreateLibraryError LibraryCustom) (KeySchedule.epoch_secrets c key_schedule).1;
  Ok (joiner_secret, welcome_secret, secrets).

(** [create_external_commit_internal] on the diff it makes, up to the confirmation tag *)
Definition external_parts (pr : CommitProvider) (signer : Signer) (g : MlsGroup) (st : MemoryStorage) (params : CreateCommitParams) (framing_parameters : FramingParameters)
    (q : ProposalQueue) (contains_own_updates : bool) : method PublicGroupDiff CreateCommitError CommitParts :=
  let c := MlsGroup_ciphersuite g in
  let own := own_leaf_index g in
  v ← lift_state CreateLibraryError (apply_proposals q (Some own));
  path ← (if path_required v || contains_own_updates || ccp_force_self_update params || negb (LeafNodeParameters_is_empty (ccp_leaf_node_parameters params))
    then compute_path pr own (exclusion_list v) (CommitExternal (ccp_credential_with_key params)) (ccp_leaf_node_parameters params) (new_extensions v)
    else lift_state CreateLibraryError (update_group_context (new_extensions v));; mret PathComputationResult_default);
  let commit := {| commit_proposals := commit_list q; commit_path := pcr_encrypted_path path |} in
  content ← lift (map_err CreateLibraryError (AuthenticatedContent_commit framing_parameters NewMemberCommit commit (MlsGroup_context g) signer));
  lift_state CreateLibraryError (PublicGroupDiff_update_confirmed_transcript_hash content);;
  self ← get;
  context ← lift (ok_or (tls_group_context (pgd_context self)) (CreateLibraryError LibraryMissingBoundsCheck));
  '(joiner_secret, welcome_secret, secrets) ← lift (external_secrets g st (pcr_commit_secret path) (presharedkeys v) context);
  tag ← lift (map_err (fun e => CreateLibraryError (LibraryCryptoError e))
    (ConfirmationKey_tag c (confirmation_key secrets) (gc_confirmed_transcript_hash (pgd_context self))));
  lift_state CreateLibraryError (update_interim_transcript_hash c tag);;
  mret {| parts_commit := set_confirmation_tag tag content; parts_values := v; parts_path := path; parts_context := context;
          parts_joiner_secret := joiner_secret; parts_welcome_secret := welcome_secret; parts_secrets := secrets; parts_tag := tag |}.

(** Group info, welcome and staged commit are made as in a member's commit. *)
Definition create_external_commit_internal (now : option Z) (pr : CommitProvider) (signer : Signer) (g : MlsGroup) (st : MemoryStorage) (params : CreateCommitParams) :
    outcome CreateCommitError (CreateCommitResult * PathComputationResult) :=
  framing_parameters ← (match ccp_framing_parameters params with Some fp => Ok fp | None => Panic end);
  '(q, contains_own_updates) ← map_err queue_error (filter_proposals map_order (MlsGroup_ciphersuite g) NewMemberCommit (MlsGroup_proposal_store g)
    (ccp_inline_proposals params) (own_leaf_index g));
  _ ← external_validate now (public_group g) q;
  ((parts ← external_parts pr signer g st params framing_parameters q contains_own_updates;
    info ← commit_group_info g signer parts;
    w ← commit_welcome g parts info;
    built ← stage_parts g q parts;
    mret ({| result_commit := built; result_welcome := w;
             result_group_info := if use_ratchet_tree_extension (mls_group_config g) then info else None |}, parts_path parts))
   (PublicGroup_empty_diff (public_group g))).1.

(** ** The joiner *)

(** The member that has the joiner's signature key already *)
Definition find_us (g : PublicGroup) (signature_key : bytes) : option LeafNodeIndex :=
  member_index <$> List.find (fun m => bool_decide (member_signature_key m = signature_key)) (full_leave_members (treesync g)).

Definition joiner_proposals (g : PublicGroup) (kem_output signature_key : bytes) : list Proposal :=
  ExternalInit kem_output :: match find_us g signature_key with Some index => [Remove index] | None => [] end.

(** The secrets before the first commit: all zero but for the init secret, and a secret
    tree of leaf 0 that is not used *)
Definition joiner_secrets (g : PublicGroup) (init_secret : Secret) : outcome ExternalCommitError (GroupEpochSecrets * MessageSecrets) :=
  secrets ← map_err (fun e => ExternalCommitLibraryError (LibraryCryptoError e)) (with_init_secret (PublicGroup_ciphersuite g) init_secret);
  serialized ← ok_or (tls_group_context (group_context g)) (ExternalCommitLibraryError LibraryMissingBoundsCheck);
  Ok (split_secrets secrets serialized (TreeSync_tree_size (treesync g)) 0).

Context `{!Serde bytes} `{!Serde TreeSync} `{!Serde ConfirmationTag} `{!Serde GroupContext} `{!Serde InterimTranscriptHash}.
Context `{!Serde Z} `{!Serde QueuedProposal} `{!Serde (bytes * bytes)} `{!Serde (list bytes)} `{!Serde GroupEpochSecrets} `{!Serde LeafNode}.
Context `{!Serde (MessageSecretsStore MessageSecrets)} `{!Serde (ResumptionPskStore Secret)} `{!Serde MlsGroupJoinConfig} `{!Serde MlsGroupState}.

(** The group before the commit is staged *)
Definition joiner_group (config : MlsGroupJoinConfig) (g : PublicGroup) (secrets : GroupEpochSecrets) (message_secrets : MessageSecrets) (own : LeafNodeIndex) : MlsGroup := {|
  mls_group_config := config; public_group := g; group_epoch_secrets := secrets; own_leaf_index := own;
  message_secrets_store := new_with_secret 0 message_secrets; resumption_psk_store := ResumptionPskStore_new 32;
  own_leaf_nodes := []; aad := []; group_state := Operational |}.

(** [join_by_external_commit_internal]; [verify] checks the signature of a leaf at its position. *)
Definition join_by_external_commit_internal (now : option Z) (verify : LeafNodeIndex -> LeafNode -> bool) (pr : CommitProvider) (signer : Signer)
    (ratchet_tree : option RatchetTree) (info : GroupInfo) (config : MlsGroupJoinConfig) (capabilities : option Capabilities) (extensions : option Extensions)
    (aad : bytes) (credential_with_key : Credential * bytes) :
    method MemoryStorage ExternalCommitError (MlsGroup * PublicMessage * option GroupInfo * PathComputationResult) :=
  let params := set_leaf_node_parameters
    {| lp_credential_with_key := None; lp_capabilities := Some (default Capabilities_default capabilities); lp_extensions := Some (default [] extensions) |}
    (external_commit credential_with_key (aad, WirePublicMessage)) in
  ratchet_tree ← lift (match ratchet_tree_extension (gi_extensions (gi_payload info)) with
    | Some tree => Ok tree
    | None => ok_or ratchet_tree ExternalMissingRatchetTree
    end);
  '(public_group, info) ← lift_state ExternalPublicGroupError (from_external now verify ratchet_tree info ProposalStore_new);
  external_pub ← lift (ok_or (LeafNodes.external_pub (gi_extensions (gi_payload info))) MissingExternalPub);
  '(init_secret, kem_output) ← lift (map_err (fun _ => ExternalUnsupportedCiphersuite) (InitSecret_from_group_context (group_context public_group) external_pub));
  '(group_epoch_secrets, message_secrets) ← lift (joiner_secrets public_group init_secret);
  let inline_proposals := joiner_proposals public_group kem_output credential_with_key.2 in
  own_leaf_index ← lift (map_err ExternalCommitLibraryError (leftmost_free_index public_group inline_proposals));
  let g := joiner_group config public_group group_epoch_secrets message_secrets own_leaf_index in
  g ← no_error (outcome_state (set_max_past_epochs (Z.to_nat (max_past_epochs config)) g));
  st ← get;
  '(result, path) ← lift (map_err (fun _ => ExternalCommitFailed)
    (create_external_commit_internal now pr signer g st (set_inline_proposals inline_proposals params)));
  let g := set_group_state (PendingCommit (PendingExternal (built_staged_commit (result_commit result)))) g in
  lift_state ExternalStorageError (MlsGroup_store g);;
  mret (g, PublicMessage_from (built_commit (result_commit result)), result_group_info result, path).

(** [MlsGroup::join_by_external_commit] *)
Definition join_by_external_commit (now : option Z) (verify : LeafNodeIndex -> LeafNode -> bool) (pr : CommitProvider) (signer : Signer)
    (ratchet_tree : option RatchetTree) (info : GroupInfo) (config : MlsGroupJoinConfig) (capabilities : option Capabilities) (extensions : option Extensions)
    (aad : bytes) (credential_with_key : Credential * bytes) : method MemoryStorage ExternalCommitError (MlsGroup * PublicMessage * option GroupInfo) :=
  '(g, message, group_info, _) ← join_by_external_commit_internal now verify pr signer ratchet_tree info config capabilities extensions aad credential_with_key;
  mret (g, message, group_info).

End External.

(** ** The leaf of a joiner *)

(** The joiner puts a placeholder into the tree that it replaces once the path is made;
    the members put the joiner's leaf there at once.  Both end in the same tree. *)

Definition with_leaf (i : LeafNodeIndex) (leaf : LeafNode) (s : TreeSyncDiff) : TreeSyncDiff := set_diff (replace_leaf (diff s) i (Some leaf)) s.

Lemma with_leaf_parent i leaf s k m : parent_at (with_leaf i leaf s) k m = parent_at s k m.
Proof. done. Qed.

Lemma foldl_parent_mut_swap {A} (g : A -> ParentNodeIndex) (f : A -> TreeSyncParentNode -> TreeSyncParentNode) (xs : list A) i leaf :
  forall d : AbDiff TreeSyncLeafNode TreeSyncParentNode,
  foldl (fun d x => parent_mut d (g x) (f x)) (replace_leaf d i leaf) xs = replace_leaf (foldl (fun d x => parent_mut d (g x) (f x)) d xs) i leaf.
Proof.
  induction xs as [|x xs IH]; intros d; cbn [foldl]; [done|].
  replace (parent_mut (replace_leaf d i leaf) (g x) (f x)) with (replace_leaf (parent_mut d (g x) (f x)) i leaf); [apply IH|].
  by rewrite !parent_mut_replace.
Qed.

Lemma blank_path_swap path i leaf d : blank_path path (replace_leaf d i leaf) = replace_leaf (blank_path path d) i leaf.
Proof. exact (foldl_parent_mut_swap (fun x => x) (fun _ _ => blank) path i leaf d). Qed.

Lemma write_path_swap path i leaf d : write_path path (replace_leaf d i leaf) = replace_leaf (write_path path d) i leaf.
Proof.
  unfold write_path. revert d. induction path as [|[p node] path IH]; intros d; cbn [foldl]; [done|]. rewrite <- IH. f_equal. by rewrite !parent_mut_replace.
Qed.

Lemma replace_leaf_twice (d : AbDiff TreeSyncLeafNode TreeSyncParentNode) i x y : replace_leaf (replace_leaf d i x) i y = replace_leaf d i y.
Proof. unfold replace_leaf, with_diffs. cbn. by rewrite insert_insert_eq. Qed.

(** Which leaf is added makes no difference but for the leaf. *)
Lemma add_leaf_swap x y s i s' : add_leaf x s = (Ok i, s') -> add_leaf y s = (Ok i, with_leaf i y s').
Proof.
  unfold add_leaf. run. destruct (grow_loop 32 (free_leaf_index s) (diff s)) as [[u|e|] d]; [|discriminate..].
  intros [= <- <-]. f_equal. unfold with_leaf. cbn [diff set_diff set_members]. unfold set_members, set_diff. cbn.
  f_equal. unfold add_unmerged. rewrite <- (foldl_parent_mut_swap (fun x => x) (fun _ => option_map (add_unmerged_leaf (free_leaf_index s)))).
  by rewrite replace_leaf_twice.
Qed.

Section Placeholder.
Context `{!TreeHashing} `{!HashLaws} (c : Ciphersuite).

Lemma in_tree_node h x : height h -> 0 <= x < tree_size h -> exists k m, in_tree h k m /\ x = node k m.
Proof.
  intros [Hh Hh'] Hx. unfold tree_size in Hx. pose proof (pow2_le (h + 1) 31) as Hle. destruct (node_exists x) as (k & m & [Hk Hm] & E); [lia|].
  exists k, m. split; [|done]. unfold node in E. pose proof (pow2_pos k). pose proof (pow2_pos (k + 1)). rewrite (pow2_succ k) in E by lia.
  assert (k <= h).
  { destruct (Z.le_gt_cases k h); [done|]. pose proof (pow2_le (h + 1) k). nia. }
  split; [lia|]. split; [lia|]. assert (2 ^ (h + 1) = 2 * 2 ^ k * 2 ^ (h - k)).
  { rewrite <- Z.mul_assoc, <- Z.pow_add_r, <- pow2_succ by lia. f_equal. lia. }
  nia.
Qed.

(** The cache is determined by the tree. *)
Lemma hashed_unique s s' h : hashed c s h -> hashed c s' h -> diff s = diff s' -> tree_hashes s = tree_hashes s'.
Proof.
  intros [(Hh & _ & Hlen) Hr] [(_ & _ & Hlen') Hr'] Ed. apply list_eq. intros n. destruct (decide (Z.of_nat n < tree_size h)) as [Hn|Hn].
  - destruct (in_tree_node h (Z.of_nat n) Hh ltac:(lia)) as (k & m & Hin & E). specialize (Hr k m Hin I). specialize (Hr' k m Hin I).
    unfold hash_at in Hr, Hr'. rewrite <- E, Nat2Z.id in Hr, Hr'. rewrite Hr, Hr'. unfold leaf_at, parent_at. by rewrite Ed.
  - rewrite !lookup_ge_None_2 by lia. done.
Qed.

Lemma filtered_copath_levels s h i : tree_sync_ok s h -> leaf_in h i ->
  filtered_copath s i = map (fun k => index_at (k - 1) (flip (i / 2 ^ (k - 1)))) (kept_levels s i (seqZ 1 h)).
Proof.
  intros Hok Hi. pose proof (mo_diff _ _ (proj1 Hok)) as Hd. unfold filtered_copath. rewrite (copath_resolutions_levels s h Hok i Hi).
  pose proof Hi as [[? _] _]. destruct (Z.eq_dec h 0) as [->|Hh]; [change (seqZ 1 0) with (@nil Z); unfold keep_resolved; cbn [map]; by rewrite zip_with_nil_r|].
  unfold AbDiff_copath. rewrite (dwf_size _ _ Hd), copath_spec by (done || lia).
  assert (E : below_root h i = map (fun k => (k - 1, i / 2 ^ (k - 1))) (seqZ 1 h)).
  { apply list_eq. intros n. rewrite list_lookup_fmap. destruct (decide (n < Z.to_nat h)%nat).
    - rewrite below_root_lookup, levels_lookup by done. cbn. do 3 f_equal; [lia|]. do 2 f_equal. lia.
    - rewrite !lookup_ge_None_2; [done|rewrite length_seqZ; lia|rewrite length_below_root; lia]. }
  rewrite E, map_map. apply keep_resolved_map.
Qed.

Lemma filtered_copath_ext s s' h i : tree_sync_ok s h -> tree_sync_ok s' h -> leaf_in h i ->
  (forall j, 0 <= j -> is_Some (leaf_at s j) <-> is_Some (leaf_at s' j)) -> filtered_copath s i = filtered_copath s' i.
Proof.
  intros Hok Hok' Hi Hocc. rewrite !(filtered_copath_levels _ h) by done. f_equal.
  apply List.filter_ext_in. intros l Hl%list_elem_of_In%elem_of_seqZ. apply (kept_ext _ _ h); try done. lia.
Qed.

Lemma swap_leaf_in s h i : ready c s h -> 0 <= i -> is_Some (leaf_at s i) -> leaf_in h i.
Proof.
  intros [[Hm _] _] Hi Hs. split; [apply (dwf_height _ _ (mo_diff _ _ Hm))|]. pose proof (members_leaf_lt s h i Hm Hi Hs). lia.
Qed.

Lemma set_parent_hashes_value s h i path : ready c s h -> leaf_in h i -> path <> [] ->
  exists hashes, hashed c (set_hashes hashes s) h /\
    set_parent_hashes c path i s = (match chain_parent_hashes c [] (rev path) (rev (map (node_hash c s) (filtered_copath s i))) with
      | Ok (path', hash) => Ok (rev path', hash) | Err e => Err e | Panic => Panic end, set_hashes hashes s).
Proof.
  intros [Hok Hc] Hi Hne. unfold set_parent_hashes. destruct (is_empty path) eqn:Ee; [by destruct path|]. run.
  destruct (update_diff_leaves c s h Hc) as (s' & -> & Ho & Hr). pose proof (proj1 Hr) as Hf. exists (tree_hashes s'). rewrite <- Ho. split; [done|].
  assert (Ed : diff s' = diff s) by (by rewrite Ho).
  rewrite <- (compute_tree_hash_diff c s' s), <- Ed, (compute_root_spec c s' h Hf) by done.
  rewrite (read_hashes_spec c s' h) by (done || (apply filtered_copath_in_tree; [apply Hok|done])).
  rewrite (map_ext _ _ (fun n => node_hash_diff c s' s n Ed)). by destruct (chain_parent_hashes _ _ _ _) as [[p hash]|e|].
Qed.

(** The tree once a path and its leaf are written, before the hashes *)
Definition path_written (i : LeafNodeIndex) (leaf : LeafNode) (path : list (ParentNodeIndex * ParentNode)) (s : TreeSyncDiff) :
    AbDiff TreeSyncLeafNode TreeSyncParentNode :=
  replace_leaf (write_path path (blank_path (AbDiff_direct_path (diff s) i) (diff s))) i (Some leaf).

Lemma path_written_swap i leaf leaf' path s : path_written i leaf path (with_leaf i leaf' s) = path_written i leaf path s.
Proof.
  unfold path_written, with_leaf. cbn [diff set_diff]. rewrite blank_path_swap, write_path_swap. apply replace_leaf_twice.
Qed.

(** The state that [apply_own_update_path] leaves *)
Lemma own_path_value s h i kp sign params path : ready c s h -> 0 <= i -> is_Some (leaf_at s i) -> path <> [] -> path.*1 = filtered_direct_path s i ->
  match chain_parent_hashes c [] (rev path) (rev (map (node_hash c s) (filtered_copath s i))) with
  | Ok (path', hash) =>
    match new_with_parent_hash kp sign hash params with
    | Ok (leaf, keypair) => exists hashes, let s' := set_diff (path_written i leaf (rev path') s) (set_hashes hashes s) in
        apply_own_update_path kp sign c i params path s = (Ok [keypair], s') /\ hashed c s' h
    | Err _ | Panic => forall kps s', apply_own_update_path kp sign c i params path s <> (Ok kps, s')
    end
  | Err _ | Panic => forall kps s', apply_own_update_path kp sign c i params path s <> (Ok kps, s')
  end.
Proof.
  intros Hr Hi Hs Hne Hpath. pose proof (swap_leaf_in s h i Hr Hi Hs) as Hin. pose proof (mo_diff _ _ (proj1 (proj1 Hr))) as Hd.
  destruct (set_parent_hashes_value s h i path Hr Hin Hne) as (hs & Hh & E). unfold apply_own_update_path, process_update_path, lift_state. run. rewrite E.
  destruct (chain_parent_hashes_spec c (rev path) (rev (map (node_hash c s) (filtered_copath s i))) [] [] []) as (path' & hash & Ech & Hsame & _); [|done|done|].
  { rewrite !length_rev, length_map. rewrite (length_filtered s h) by (done || apply Hr). by rewrite <- Hpath, length_fmap. }
  rewrite Ech. run. destruct (new_with_parent_hash kp sign hash params) as [[leaf keypair]|e|] eqn:En; [|done..].
  set (s2 := set_diff (write_path (rev path') _) _).
  assert (Ep : (rev path').*1 = filtered_direct_path s i).
  { rewrite <- Hpath, <- (rev_involutive path), rev_reverse, (rev_reverse (rev path)), !fmap_reverse. f_equal.
    clear -Hsame. induction Hsame as [|x y ? ? [? _]]; cbn; congruence. }
  destruct (replace_path_spec (set_hashes hs s) h i (rev path')) as (Hd2 & _ & _ & Hrep); [done|done|intros p; rewrite Ep; by apply filtered_direct_path_range|].
  destruct (commit_leaf_spec c s2 h i leaf Hd2 Hin) as (root & s3 & E3 & Ho3 & Hh3).
  { by apply (replaces_path_cache c (set_hashes hs s) s2 h i (rev path') _ Hh). }
  rewrite E3. exists (tree_hashes s3). rewrite Ho3 in Hh3 |- *. cbv zeta. by split.
Qed.

Section Swap.
Context (s : TreeSyncDiff) (h i : Z) (leaf : LeafNode).
Context (Hready : ready c s h) (Hready' : ready c (with_leaf i leaf s) h) (Hi : 0 <= i) (Hmember : is_Some (leaf_at s i)).

Lemma with_leaf_at j : 0 <= j -> leaf_at (with_leaf i leaf s) j = if decide (j = i) then Some leaf else leaf_at s j.
Proof.
  intros Hj. unfold leaf_at, with_leaf. cbn [diff set_diff]. apply (AbDiff_leaf_replace _ h), (proj1 Hready).
Qed.

Lemma swap_occupied j : 0 <= j -> is_Some (leaf_at s j) <-> is_Some (leaf_at (with_leaf i leaf s) j).
Proof. intros Hj. rewrite with_leaf_at by done. by destruct (decide (j = i)) as [->|]. Qed.

Lemma swap_hashes : map (node_hash c (with_leaf i leaf s)) (filtered_copath (with_leaf i leaf s) i) = map (node_hash c s) (filtered_copath s i).
Proof.
  pose proof (swap_leaf_in s h i Hready Hi Hmember) as Hin. rewrite <- (filtered_copath_ext s (with_leaf i leaf s) h i (proj1 Hready) (proj1 Hready') Hin swap_occupied).
  rewrite (filtered_copath_levels s h i (proj1 Hready) Hin), !map_map. apply map_ext_in. intros k Hk%list_elem_of_In. unfold kept_levels in Hk.
  apply list_elem_of_In, filter_In in Hk as [Hk%list_elem_of_In%elem_of_seqZ _].
  assert (Hk' : in_tree h (k - 1) (flip (i / 2 ^ (k - 1)))) by (apply in_tree_flip; [apply in_tree_path; [done|lia]|lia]).
  unfold node_hash, compute_tree_hash. pose proof Hin as [Hh _].
  assert (Hspec : forall t, compute_tree_hash_rec 32 c t (index_at (k - 1) (flip (i / 2 ^ (k - 1)))) [] =
    Ok (hash_of c (leaf_at t) (parent_at t) (Z.to_nat (k - 1)) (flip (i / 2 ^ (k - 1))))).
  { intros t. rewrite <- (Z2Nat.id (k - 1)) at 1 by lia. apply (compute_tree_hash_spec c t h); [done|by rewrite Z2Nat.id by lia|destruct Hh; lia]. }
  rewrite !Hspec. cbn [digest]. apply (hash_of_ext _ h); rewrite Z2Nat.id by lia; [done| |done].
  intros j Hj E. rewrite with_leaf_at by done. rewrite decide_False; [done|]. intros ->. unfold flip in E. destruct (Z.even _); lia.
Qed.

(** A path that is applied over another leaf *)
Lemma own_path_swap kp sign params path kps s' : path <> [] -> path.*1 = filtered_direct_path s i ->
  apply_own_update_path kp sign c i params path s = (Ok kps, s') -> apply_own_update_path kp sign c i params path (with_leaf i leaf s) = (Ok kps, s').
Proof.
  intros Hne Hp Ha. pose proof (swap_leaf_in s h i Hready Hi Hmember) as Hin.
  assert (Hmember' : is_Some (leaf_at (with_leaf i leaf s) i)) by (by apply swap_occupied).
  assert (Hp' : path.*1 = filtered_direct_path (with_leaf i leaf s) i).
  { rewrite Hp. apply (filtered_direct_path_ext _ _ h); [apply Hready|apply Hready'|done|apply swap_occupied]. }
  pose proof (own_path_value s h i kp sign params path Hready Hi Hmember Hne Hp) as H1.
  pose proof (own_path_value _ h i kp sign params path Hready' Hi Hmember' Hne Hp') as H2. rewrite swap_hashes in H2.
  destruct (chain_parent_hashes _ _ _ _) as [[path' hash]|e|]; [|by apply H1 in Ha..].
  destruct (new_with_parent_hash kp sign hash params) as [[lf keypair]|e|]; [|by apply H1 in Ha..].
  destruct H1 as (hs & E1 & Hh1), H2 as (hs' & E2 & Hh2). rewrite E1 in Ha. injection Ha as <- <-. rewrite E2. f_equal.
  rewrite path_written_swap in Hh2 |- *. pose proof (hashed_unique _ _ h Hh1 Hh2 eq_refl) as Eh. cbn in Eh. by rewrite Eh.
Qed.

End Swap.
End Placeholder.

(** ** The path of a joiner *)

Section JoinerPath.
Context `{!TreeHashing} `{!HashLaws} `{!OpenMlsCrypto} `{!KdfLaws} `{!OpenMlsHpke} `{!HpkeLaws} `{!ContextEncoding}.

Lemma external_path_ok pr i ex cwk params es d r d' : let c := gc_ciphersuite (pgd_context d) in
  compute_path pr i ex (CommitExternal cwk) params es d = (Ok r, d') ->
  exists i' s0 secret up path plain pairs cs keypair s' ctx nodes leaf,
    add_leaf new_placeholder (pgd_diff d) = (Ok i', s0) /\
    derive_path c secret (filtered_direct_path s0 i) = Ok (path, plain, pairs, cs) /\ draw_leaf_keypair pr = Ok keypair /\
    apply_own_update_path (Ok keypair) (sign_leaf pr) c i up path s0 = (Ok [keypair], s') /\
    update_group_context es (set_pgd_diff s' d) = (Ok tt, d') /\ pgd_diff d' = s' /\ tls_group_context (pgd_context d') = Some ctx /\
    encrypt_path c plain ctx (copath_keys s' i ex) = Ok nodes /\ leaf_at s' i = Some leaf /\
    r = {| pcr_commit_secret := Some cs; pcr_encrypted_path := Some {| cp_leaf_node := leaf; cp_nodes := nodes |};
           pcr_plain_path := Some plain; pcr_new_keypairs := keypair :: pairs |}.
Proof.
  intros c Hrun. unfold compute_path in Hrun. step Hrun as self0 d0 E0. step Hrun as up d1 Eup. step Hrun as u d2 Eu.
  step Eu as i' d2' Eadd. injection Eu as _ <-. apply on_tree_ok in Eadd as (s0 & Eadd & ->).
  step Hrun as self1 d3 E1. step Hrun as secret d4 Es. step Hrun as x d5 Ed. destruct x as [[[path plain] pairs] cs].
  step Hrun as kps d6 Ea. apply on_tree_ok in Ea as (s' & Ea & ->). destruct (own_update_path_single _ _ _ _ _ _ _ _ _ Ea) as (keypair & Ek & ->).
  step Hrun as u1 d7 Eg. destruct u1. step Hrun as self2 d8 E2. step Hrun as ctx d9 Ec. step Hrun as nodes d10 En. step Hrun as leaf d11 El.
  injection Hrun as <- <-. rewrite Ek in Ea.
  assert (Ed7 : pgd_diff d7 = s') by (by apply update_group_context_ok in Eg as (hash & _ & -> & _)).
  exists i', s0, secret, up, path, plain, pairs, cs, keypair, s', ctx, nodes, leaf. rewrite Ed7 in En, El. by split_and!.
Qed.

(** A path for a leaf that is not there is a path for the leaf once it is added. *)
Lemma received_path_added c i path s h s1 r : tree_sync_ok s h -> free_leaf_index s = i -> add_leaf (up_leaf_node path) s = (Ok i, s1) ->
  apply_received_update_path c i path s1 = r -> apply_received_update_path c i path s = r.
Proof.
  intros Hok Hi Ea <-. destruct (free_leaf_index_spec s h (proj1 Hok)) as ((Hi0 & _) & Hn & _). cbv zeta in Hi0, Hn. rewrite Hi in Hi0, Hn.
  pose proof (add_leaf_ok s h (up_leaf_node path) Hok) as Ha. rewrite Ea in Ha. destruct Ha as (_ & _ & h1 & _ & Hok1 & Hw & _). rewrite Hi in Hw.
  assert (Hs1 : leaf_at s1 i = Some (up_leaf_node path)) by (rewrite Hw by done; by rewrite decide_True).
  unfold apply_received_update_path. run. fold (leaf_at s i) (leaf_at s1 i). rewrite Hn, Hs1, bool_decide_false, bool_decide_true by (by intros [] || done).
  cbn [negb orb]. unfold lift_state at 1. rewrite Ea. run. rewrite Z.eqb_refl. cbn [negb]. run.
  assert (i < 2 ^ h1) by (apply (members_leaf_lt s1 h1); [apply Hok1|done|by rewrite Hs1]).
  rewrite (proj2 (Z.leb_gt _ _)) by (unfold tsd_leaf_count; rewrite (AbDiff_leaf_count_spec _ h1) by apply Hok1; done). done.
Qed.

Lemma added_ready c s h x i s' : ready c s h -> add_leaf x s = (Ok i, s') ->
  i = free_leaf_index s /\ exists h', ready c s' h' /\ (forall j, 0 <= j -> leaf_at s' j = if decide (j = i) then Some x else leaf_at s j) /\
    original_tree (diff s') = original_tree (diff s) /\ parents_kept s s'.
Proof.
  intros [Hok Hc] Ea. pose proof (add_leaf_ok s h x Hok) as Ha. rewrite Ea in Ha. destruct Ha as (-> & _ & h0 & _ & _ & Hw & _). split; [done|].
  assert (Hst : rtc member_step s s') by (apply rtc_once; by econstructor).
  destruct (cache_ok_steps c s s' h Hok Hc Hst) as (h' & _ & Hok' & Hc'). exists h'. split; [by split|]. split; [exact Hw|]. split.
  - by apply (member_steps_original s s' h).
  - by apply (member_steps_kept s s' h).
Qed.

(** What processing the path of a joiner leaves: the tree of the joiner for a member
    and for an observer, and a member that holds the commit secret and all its keys. *)
Lemma external_path_shared pr i v cwk params d1 path d2 h : let c := gc_ciphersuite (pgd_context d1) in
  compute_path pr i (exclusion_list v) (CommitExternal cwk) params (new_extensions v) d1 = (Ok path, d2) ->
  ready c (pgd_diff d1) h -> tree_generated c (pgd_diff d1) -> (forall kp, draw_leaf_keypair pr = Ok kp -> generated c kp) ->
  free_leaf_index (pgd_diff d1) = i -> (exists j, 0 <= j /\ is_Some (leaf_at (pgd_diff d1) j)) ->
  exists h', tree_sync_ok (pgd_diff d2) h' /\ hashed c (pgd_diff d2) h' /\ original_tree (diff (pgd_diff d2)) = original_tree (diff (pgd_diff d1)) /\
  tree_generated c (pgd_diff d2) /\
  (forall v', exists d1', observer_path c v' i (pcr_encrypted_path path) d1 = (Ok tt, d1') /\ update_group_context (new_extensions v) d1' = (Ok tt, d2)) /\
  forall g v' old leaves, MlsGroup_ciphersuite g = c -> self_removed v' = false -> new_extensions v' = new_extensions v -> exclusion_list v' = exclusion_list v ->
    let j := own_leaf_index g in
    0 <= j -> is_Some (leaf_at (pgd_diff d1) j) -> j ∉ exclusion_list v -> Forall (generated c) (old ++ leaves) ->
    (forall key, key ∈ encryption_keys (pgd_diff d1) j -> key ∈ (old ++ leaves).*1) ->
    exists kps lkp, process_path g v' i (pcr_encrypted_path path) old leaves d1 =
        (Ok (Processed (default (CommitSecret_zero_secret c) (pcr_commit_secret path)) kps lkp (cp_leaf_node <$> pcr_encrypted_path path)), d2) /\
      is_Some (leaf_at (pgd_diff d2) j) /\ forall key, key ∈ encryption_keys (pgd_diff d2) j -> key ∈ ((old ++ leaves) ++ kps).*1.
Proof.
  intros c Hp Hr Hg Hkp Hfree Hj.
  apply external_path_ok in Hp as (i' & s0 & secret & up & p & plain & pairs & cs & keypair & s' & ctx & nodes & leaf & Eadd & Ed & Ek & Ea & Eg & Es & Ectx & Enc & El & ->).
  fold c in Ed, Ea, Enc. pose proof (add_leaf_swap _ leaf _ _ _ Eadd) as Eadd'.
  destruct (added_ready c _ h _ _ _ Hr Eadd) as (Ei' & h0 & Hr0 & Hl0 & _). destruct (added_ready c _ h _ _ _ Hr Eadd') as (_ & h1 & Hr1 & Hl1 & Eo1 & Hk1).
  rewrite Hfree in Ei'. subst i'. assert (h0 = h1) as <- by (apply (same_size_height s0 (with_leaf i leaf s0)); [apply Hr0|apply Hr1|done]).
  destruct (free_leaf_index_spec _ h (proj1 (proj1 Hr))) as ((Hi & _) & Hn & _). cbv zeta in Hi, Hn. rewrite Hfree in Hi, Hn.
  assert (Hsi : is_Some (leaf_at s0 i)) by (rewrite Hl0 by done; by rewrite decide_True).
  assert (Hother : forall j, 0 <= j -> is_Some (leaf_at (pgd_diff d1) j) -> j <> i /\ leaf_at (with_leaf i leaf s0) j = leaf_at (pgd_diff d1) j).
  { intros j Hj0 Hsj. assert (j <> i) by (intros ->; rewrite Hn in Hsj; by destruct Hsj). split; [done|]. rewrite Hl1 by done. by rewrite decide_False. }
  assert (Epath : p.*1 = filtered_direct_path s0 i).
  { rewrite derive_path_value in Ed. injection Ed as <- _ _ _. rewrite derived_path. apply fst_zip. by rewrite !length_map, length_derived. }
  assert (Hne : p <> []).
  { destruct Hj as (j & Hj0 & Hsj). destruct (Hother j Hj0 Hsj) as [Hji _]. intros ->. symmetry in Epath. revert Epath.
    apply (filtered_path_nonempty s0 h0 i j); [apply Hr0|done|done|done|done|rewrite Hl0 by done; by rewrite decide_False]. }
  pose proof (own_path_swap c s0 h0 i leaf Hr0 Hr1 Hi Hsi _ _ _ _ _ _ Hne Epath Ea) as Ea'.
  assert (Ed' : derive_path c secret (filtered_direct_path (with_leaf i leaf s0) i) = Ok (p, plain, pairs, cs)).
  { rewrite <- (filtered_direct_path_ext s0 (with_leaf i leaf s0) h0 i); [done|apply Hr0|apply Hr1|exact (swap_leaf_in c s0 h0 i Hr0 Hi Hsi)|].
    by apply (swap_occupied c s0 h0 i leaf Hr0 Hsi). }
  assert (Hleaf : keypair.1 = leaf_encryption_key (payload leaf)).
  { by destruct (own_path_applied c s0 h0 i secret up p plain pairs cs keypair (sign_leaf pr) s' leaf Hr0 Hi Hsi ltac:(by rewrite <- Epath; destruct p) Ed Ea El) as (_ & ? & _). }
  assert (Hg1 : tree_generated c (with_leaf i leaf s0)).
  { apply (kept_generated c (pgd_diff d1) _ Hg Hk1). intros j lf Hj0 E. rewrite Hl1 in E by done. destruct (decide (j = i)); [|by left].
    injection E as <-. right. exists keypair. split; [by apply Hkp|done]. }
  destruct (path_delivered c (with_leaf i leaf s0) h0 i secret up p plain pairs cs keypair (sign_leaf pr) s' (exclusion_list v) ctx nodes leaf Hr1 Hi)
    as (Hok & Hh & Eo & Hg' & Hl & Erec & Hdec); try done; [rewrite Hl1 by done; by rewrite decide_True| |by apply Hkp|].
  { destruct Hj as (j & Hj0 & Hsj). destruct (Hother j Hj0 Hsj) as [Hji E]. exists j. split_and!; [done|done|by rewrite E]. }
  assert (Erec' : apply_received_update_path c i (public_part {| cp_leaf_node := leaf; cp_nodes := nodes |}) (pgd_diff d1) = (Ok tt, s')).
  { eapply received_path_added; [apply Hr|done|exact Eadd'|exact Erec]. }
  exists h0. rewrite Es. split; [done|]. split; [done|]. split; [congruence|]. split; [done|]. cbn [pcr_encrypted_path pcr_commit_secret]. split.
  - intros v'. exists (set_pgd_diff s' d1). split; [|done]. cbn [observer_path]. unfold lift_state, on_tree. run. by rewrite Erec'.
  - intros g v' old leaves Ec Esr Eext Eex; set (j := own_leaf_index g); intros Hj0 Hsj Hex Hgo Hown. destruct (Hother j Hj0 Hsj) as [Hji Elj].
    destruct (Hdec j (old ++ leaves) Hj0 Hji) as (kps & Edec & Hcov); [by rewrite Elj|done|done| |].
    { intros key Hin. apply Hown. eapply (encryption_keys_kept (pgd_diff d1) (with_leaf i leaf s0) h h0); [apply Hr|apply Hr1|done..]. }
    rewrite <- Eext in Eg.
    destruct (path_processed g v' (exclusion_list v) d1 d2 s' i leaf nodes ctx old leaves kps cs Ec Esr Eex Erec' Eg Ectx Edec) as (lkp & E).
    exists kps, lkp. split; [exact E|]. split; [by rewrite Hl, Elj|exact Hcov].
Qed.

End JoinerPath.

(** ** The proposals of a joiner *)

Section JoinerProposals.
Context `{!ProposalHashing} (c : Ciphersuite).

Definition joins_with (kem_output : bytes) (removed : option LeafNodeIndex) : list Proposal :=
  ExternalInit kem_output :: match removed with Some index => [Remove index] | None => [] end.

(** The references of the proposals do not collide. *)
Definition references_differ (ps : list Proposal) : Prop :=
  forall p1 p2 r, p1 ∈ ps -> p2 ∈ ps -> from_raw_proposal c p1 = Ok r -> from_raw_proposal c p2 = Ok r -> p1 = p2.

Lemma inline_queued_each s ps : forall inline, inline_queued c s ps = Ok inline -> Forall (fun p => from_proposal_and_sender c (proposal p) s = Ok p) inline.
Proof.
  induction ps as [|p ps IH]; intros inline E; cbn [inline_queued] in E; [injection E as <-; constructor|].
  destruct (from_proposal_and_sender c p s) as [x| |] eqn:Ex; try discriminate. cbn [mbind outcome_bind] in E.
  destruct (inline_queued c s ps) as [xs| |]; try discriminate. injection E as <-. constructor; [|by apply IH].
  unfold from_proposal_and_sender in Ex |- *. ok_inv Ex. injection Ex as <-. cbn [proposal]. by rewrite Hx.
Qed.

Lemma inline_queued_again s l : Forall (fun p => from_proposal_and_sender c (proposal p) s = Ok p) l -> inline_queued c s (map proposal l) = Ok l.
Proof. induction 1 as [|p l E _ IH]; [done|]. cbn [map inline_queued]. rewrite E. cbn [mbind outcome_bind]. by rewrite IH. Qed.

(** The queue that the joiner makes of its proposals *)
Record joiner_queue (kem_output : bytes) (removed : option LeafNodeIndex) (q : ProposalQueue) : Prop := {
  jq_ok : queue_ok q;
  jq_inline : inline_queued c NewMemberCommit (map proposal (queued_proposals q)) = Ok (queued_proposals q);
  jq_proposals p : p ∈ map proposal (queued_proposals q) <-> p ∈ joins_with kem_output removed
}.

Lemma joiner_queue_filtered map_order kem_output removed own q own_updates : (forall m, map_order m ≡ₚ map_to_list m) ->
  references_differ (joins_with kem_output removed) ->
  filter_proposals map_order c NewMemberCommit [] (joins_with kem_output removed) own = Ok (q, own_updates) -> joiner_queue kem_output removed q.
Proof.
  intros Horder Hd Ef. unfold filter_proposals in Ef.
  destruct (inline_queued c NewMemberCommit (joins_with kem_output removed)) as [x| |] eqn:Hx; [|discriminate..]. cbn [map_err mbind outcome_bind app] in Ef.
  pose proof (inline_queued_each _ _ _ Hx) as Heach. destruct (inline_queued_spec _ _ _ _ Hx) as [Em _].
  assert (Hin : forall p, p ∈ x -> proposal p ∈ joins_with kem_output removed) by (intros p Hp; rewrite <- Em; by apply (list_elem_of_fmap_2 proposal)).
  assert (Hu : refs_unique x).
  { intros p p' Hp Hp' E. rewrite Forall_forall in Heach. pose proof (Heach p Hp) as E1. pose proof (Heach p' Hp') as E2. unfold from_proposal_and_sender in E1, E2.
    ok_inv E1. rename x0 into r1, Hx0 into Hr1. ok_inv E2. injection E1 as E1. injection E2 as E2. rewrite <- E1, <- E2 in E. cbn in E. subst r1.
    assert (Epp : proposal p = proposal p') by (eapply Hd; eauto). rewrite <- E1, <- E2. by rewrite Epp. }
  assert (Hbad : first_bad (A := Filter) x = None /\ forall p, p ∈ x -> Proposals.kept own x p).
  { unfold joins_with in Em. destruct x as [|p1 [|p2 [|p3 x]]], removed as [r|]; try discriminate.
    - injection Em as E1. cbn [first_bad bad]. unfold bad. rewrite E1. split; [done|]. intros p ->%list_elem_of_singleton. unfold Proposals.kept. rewrite E1.
      cbn [List.find]. unfold is_external_init. by rewrite E1.
    - injection Em as E1 E2. cbn [first_bad bad]. unfold bad. rewrite E1, E2. split; [done|].
      intros p Hp. apply elem_of_cons in Hp as [->|Hp]; [|apply list_elem_of_singleton in Hp as ->]; unfold Proposals.kept; rewrite ?E1, ?E2; cbn [List.find List.filter];
        unfold is_external_init, is_remove_of; rewrite ?E1, ?E2, ?Z.eqb_refl; done. }
  destruct Hbad as [Hb Hk]. destruct (filter_spec map_order Horder x own Hu Hb) as (q' & Eq & Hq & Hel & _). rewrite Eq in Ef. injection Ef as <- _. split.
  - done.
  - apply inline_queued_again, Forall_forall. intros p [Hp _]%Hel. rewrite Forall_forall in Heach. by apply Heach.
  - intros p. split.
    + intros (p' & -> & [Hp _]%Hel)%list_elem_of_fmap. by apply Hin.
    + rewrite <- Em. intros (p' & -> & Hp)%list_elem_of_fmap. apply (list_elem_of_fmap_2 proposal), Hel. by split; [|apply Hk].
Qed.

Lemma joiner_queue_none {A} (f : QueuedProposal -> option A) kem_output removed q : joiner_queue kem_output removed q ->
  (forall p, proposal p ∈ joins_with kem_output removed -> f p = None) -> omap f (queued_proposals q) = [].
Proof.
  intros [_ _ Hp] Hf. destruct (omap f (queued_proposals q)) as [|x l] eqn:E; [done|]. exfalso.
  assert (Hx : x ∈ omap f (queued_proposals q)) by (rewrite E; by left). apply list_elem_of_omap in Hx as (p & Hin & Ex).
  rewrite Hf in Ex; [done|]. by apply Hp, (list_elem_of_fmap_2 proposal).
Qed.

Lemma singleton_of {A} (x : A) l : NoDup l -> (forall y, y ∈ l <-> y = x) -> l = [x].
Proof.
  intros Hd Hl. destruct l as [|y [|z l]].
  - assert (Hx : x ∈ []) by (by apply Hl). by apply not_elem_of_nil in Hx.
  - by rewrite (proj1 (Hl y)) by (by left).
  - exfalso. apply NoDup_cons in Hd as [Hn _]. apply Hn. rewrite (proj1 (Hl y)) by (by left). rewrite (proj1 (Hl z)) by (by right; left). by left.
Qed.

(** What is in that queue *)
Lemma joiner_queue_contents kem_output removed q : joiner_queue kem_output removed q ->
  add_proposals q = [] /\ update_proposals q = [] /\ psk_proposals q = [] /\ first_external_init q = Some kem_output /\
  (NoDup (removed_leaves q) -> removed_leaves q = option_list removed) /\
  forall g, leftmost_free_index g (map proposal (queued_proposals q)) = leftmost_free_index g (joins_with kem_output removed).
Proof.
  intros Hq. pose proof Hq as [Hok _ Hp].
  assert (Hcase : forall p, p ∈ joins_with kem_output removed <-> p = ExternalInit kem_output \/ exists r, removed = Some r /\ p = Remove r).
  { intros p. unfold joins_with. rewrite elem_of_cons. destruct removed as [r|].
    - rewrite list_elem_of_singleton. naive_solver.
    - rewrite elem_of_nil. naive_solver. }
  assert (Hrm : forall r, r ∈ removed_leaves q <-> removed = Some r).
  { intros r. rewrite elem_of_removed. split.
    - intros (p & Hin & E). assert (Hj : Remove r ∈ joins_with kem_output removed) by (rewrite <- E; by apply Hp, (list_elem_of_fmap_2 proposal)).
      apply Hcase in Hj as [|(r' & -> & [= ->])]; done.
    - intros ->. assert (Hj : Remove r ∈ map proposal (queued_proposals q)) by (apply Hp, Hcase; right; by exists r).
      apply list_elem_of_fmap in Hj as (p & E & Hin). by exists p. }
  split_and!.
  - apply (joiner_queue_none _ kem_output removed q Hq). intros p [->|(r & _ & ->)]%Hcase; done.
  - apply (joiner_queue_none _ kem_output removed q Hq). intros p [->|(r & _ & ->)]%Hcase; done.
  - apply (joiner_queue_none _ kem_output removed q Hq). intros p [->|(r & _ & ->)]%Hcase; done.
  - unfold first_external_init. destruct (filtered_by_type q PtExternalInit) as [|p l] eqn:E.
    + exfalso. assert (Hj : ExternalInit kem_output ∈ map proposal (queued_proposals q)) by (apply Hp, Hcase; by left).
      apply list_elem_of_fmap in Hj as (p & Ep & Hin). assert (Hf : p ∈ filtered_by_type q PtExternalInit) by (apply elem_of_filtered; rewrite <- Ep; done).
      rewrite E in Hf. by apply not_elem_of_nil in Hf.
    + assert (Hf : p ∈ filtered_by_type q PtExternalInit) by (rewrite E; by left). apply elem_of_filtered in Hf as [Hin Ht].
      assert (Hj : proposal p ∈ joins_with kem_output removed) by (by apply Hp, (list_elem_of_fmap_2 proposal)).
      apply Hcase in Hj as [->|(r & _ & Er)]; [done|]. by rewrite Er in Ht.
  - intros Hnd. destruct removed as [r|]; cbn [option_list].
    + apply singleton_of; [done|]. intros r'. rewrite Hrm. naive_solver.
    + destruct (removed_leaves q) as [|r l]; [done|]. assert (Hr : None = Some r) by (apply Hrm; by left). done.
  - intros g. unfold leftmost_free_index. assert (Ef : forall l, (forall p, p ∈ l <-> p ∈ joins_with kem_output removed) ->
      List.find (fun p => is_type p PtRemove) l = Remove <$> removed).
    { intros l Hl. destruct (List.find _ l) as [p|] eqn:E.
      - apply find_some in E as [Hin Ht]. apply list_elem_of_In, Hl, Hcase in Hin as [->|(r & -> & ->)]; done.
      - destruct removed as [r|]; [|done]. exfalso. assert (Hin : Remove r ∈ l) by (apply Hl, Hcase; right; by exists r).
        apply list_elem_of_In in Hin. by apply (find_none _ _ E) in Hin. }
    by rewrite (Ef _ Hp), (Ef (joins_with kem_output removed)).
Qed.

End JoinerProposals.

(** ** Agreement with the members *)

Section ExternalAgreement.
Context `{!JoinEncoding} `{!InboundBodies} `{!FramingEncoding} `{!ContextEncoding} `{!OpenMlsCrypto} `{!KdfLaws} `{!ExtractLaws} `{!AeadProvider} `{!SignatureProvider}.
Context `{!ProposalHashing} `{!TreeHashing} `{!HashLaws} `{!TranscriptEncoding} `{!OpenMlsHpke} `{!HpkeLaws} `{!HpkeExport} `{!ExportLaws} `{!PskEncoding}.
Context `{!Serde Psk} `{!Serde PskBundle}.

Lemma external_secrets_ok g st commit_secret context joiner welcome_secret secrets : let c := MlsGroup_ciphersuite g in
  external_secrets g st commit_secret [] context = Ok (joiner, welcome_secret, secrets) ->
  secrets = epoch_of c (epoch_secret_of c (joiner_of c (default (Secret_zero c) commit_secret) (ge_init_secret (group_epoch_secrets g)) context) (Secret_zero c) context).
Proof.
  intros c. unfold external_secrets. fold c. rewrite JoinerSecret_new_ok. cbn [map_err mbind outcome_bind].
  change (load_psks (resumption_psk_store g) [] st).1 with (Ok (E := PskError) (@nil (PreSharedKeyId * Secret))). cbn [map_err mbind outcome_bind].
  change (PskSecret_new c []) with (Ok (E := PskError) (Secret_zero c)). cbn [map_err mbind outcome_bind]. rewrite KeySchedule_init_ok. cbn [map_err mbind outcome_bind].
  rewrite welcome_fresh. cbn [map_err mbind outcome_bind]. rewrite add_context_fresh. cbn [map_err mbind outcome_bind]. rewrite epoch_secrets_of. by intros [= _ _ <-].
Qed.

(** A member derives the same from the encapsulated init secret. *)
Lemma derive_epoch_secrets_external g st v ge commit_secret context pk sk init kem_output : let c := MlsGroup_ciphersuite g in
  external_init_proposal_option v = Some kem_output -> presharedkeys v = [] -> derive_external_keypair c (ge_external_secret ge) = Ok (pk, sk) ->
  InitSecret_from_group_context (MlsGroup_context g) pk = Ok (init, kem_output) ->
  derive_epoch_secrets g st v ge commit_secret context = Ok (epoch_of c (epoch_secret_of c (joiner_of c commit_secret init context) (Secret_zero c) context)).
Proof.
  intros c Eext Epsk Ek Ei. unfold derive_epoch_secrets. fold c. rewrite Eext, Ek. cbn [map_err mbind outcome_bind].
  assert (Er : InitSecret_from_kem_output c (MlsGroup_version g) sk kem_output = Ok init).
  { unfold InitSecret_from_group_context in Ei. ok_inv Ei. destruct x as [enc raw]. injection Ei as -> ->.
    unfold InitSecret_from_kem_output. by erewrite (export_agrees (hpke_config c) (ge_external_secret ge) pk sk); [|exact Ek|exact Hx]. }
  cbn [snd]. rewrite Er. cbn [map_err mbind outcome_bind]. rewrite JoinerSecret_new_ok. cbn [map_err mbind outcome_bind]. rewrite Epsk.
  change (load_psks (resumption_psk_store g) [] st).1 with (Ok (E := PskError) (@nil (PreSharedKeyId * Secret))). cbn [map_err mbind outcome_bind].
  change (PskSecret_new c []) with (Ok (E := PskError) (Secret_zero c)). cbn [map_err mbind outcome_bind]. rewrite KeySchedule_init_ok. cbn [map_err mbind outcome_bind].
  rewrite add_context_fresh. cbn [map_err mbind outcome_bind]. by rewrite epoch_secrets_of.
Qed.

(** The tree between the joiner's proposals and its path *)
Lemma external_applied g h kem_output removed q v d1 own : let c := PublicGroup_ciphersuite g in let s := TreeSync_empty_diff (treesync g) in
  group_ok g h -> tree_generated c s -> joiner_queue c kem_output removed q -> validate_remove_proposals g q = Ok tt -> (forall r, removed = Some r -> 0 <= r) ->
  apply_proposals q own (PublicGroup_empty_diff g) = (Ok v, d1) ->
  removed_leaves q = option_list removed /\ exclusion_list v = [] /\ presharedkeys v = [] /\ external_init_proposal_option v = Some kem_output /\
  (exists s1, d1 = set_pgd_diff s1 (PublicGroup_empty_diff g)) /\ original_tree (diff (pgd_diff d1)) = ts_tree (treesync g) /\
  (exists h1, ready c (pgd_diff d1) h1) /\ tree_generated c (pgd_diff d1) /\
  leftmost_free_index g (joins_with kem_output removed) = Ok (free_leaf_index (pgd_diff d1)) /\
  forall j, 0 <= j -> is_Some (leaf_at s j) -> j ∉ removed_leaves q -> leaf_at (pgd_diff d1) j = leaf_at s j /\
    forall key, key ∈ encryption_keys (pgd_diff d1) j -> key ∈ encryption_keys s j.
Proof.
  intros c s Hg Hgen Hq Hrem Hr0 Ea. destruct (joiner_queue_contents c _ _ _ Hq) as (Hadds & Hups & Hpsk & Hinit & Hremoved & _).
  assert (Hnd : NoDup (removed_leaves q) /\ forall r, r ∈ removed_leaves q -> is_Some (TreeSync_leaf (treesync g) r)).
  { unfold validate_remove_proposals in Hrem. ok_inv Hrem. apply check_removes_ok in Hrem as [Hnd Hl]. split; [done|]. intros r Hr. by apply Hl. }
  destruct Hnd as [Hnd Hl]. pose proof (Hremoved Hnd) as Er.
  assert (Hneg : forall r, r ∈ removed_leaves q -> 0 <= r) by (rewrite Er; intros r; destruct removed; [intros ->%list_elem_of_singleton; by apply Hr0|by intros ?%not_elem_of_nil]).
  destruct (applied_tree g h q v d1 own Hg Hgen Hups Hrem Hneg) as (_ & Epk & (s1 & Ed1) & Eo & (h1 & Hready & _) & Hgen1 & Einv & _ & Hmem); [|done|].
  { rewrite Hadds. by intros kp ?%not_elem_of_nil. }
  rewrite Hadds in Einv. apply map_eq_nil in Einv. rewrite Hpsk in Epk. destruct (apply_proposals_value _ _ _ _ _ Ea) as [_ Eext]. rewrite Hinit in Eext.
  destruct Hg as [(Hwf & Hok & _) _]. split; [done|]. split; [unfold exclusion_list; by rewrite Einv|]. split; [done|]. split; [done|].
  split; [by exists s1|]. split; [done|]. split; [by exists h1|]. split; [done|]. split.
  - assert (Hap : applicable s q).
    { split; [|intros r Hr|done].
      - intros p leaf Hp Ep. exfalso. assert (Hin : (leaf, sender p) ∈ update_proposals q) by (apply elem_of_updates; by exists p).
        rewrite Hups in Hin. by apply not_elem_of_nil in Hin.
      - split; [by apply Hneg|]. unfold s. rewrite (TreeSync_leaf_at _ h) by (done || by apply Hneg). by apply Hl. }
    pose proof (apply_proposals_spec q own (PublicGroup_empty_diff g) h Hok Hap) as Hspec. rewrite Ea in Hspec.
    destruct Hspec as (s1' & h1' & -> & _ & _ & Hpr & _). destruct (only_removed _ _ _ Hadds Hups _ Hpr) as [_ Hleaf].
    cbn [pgd_diff set_pgd_diff] in *. unfold leftmost_free_index, TreeSync_free_leaf_index. fold s.
    rewrite (freed_leaf s s1' h h1 removed); [|apply Hok|apply Hready|done|].
    + destruct removed as [r|]; reflexivity.
    + intros j Hj. rewrite Hleaf, Er by done. apply decide_ext. destruct removed as [r|].
      * change (j ∈ [r] <-> Some r = Some j). rewrite list_elem_of_singleton. naive_solver.
      * change (j ∈ [] <-> None = Some j). split; [by intros ?%not_elem_of_nil|done].
  - intros j Hj Hs Hn. destruct (Hmem j Hj Hs Hn) as (? & _ & ?). by split.
Qed.

Lemma external_parts_ok pr signer g st params fp q own_updates d parts d4 : let c := MlsGroup_ciphersuite g in
  ccp_force_self_update params = true -> external_parts pr signer g st params fp q own_updates d = (Ok parts, d4) ->
  exists d1 d2 content d3, let v := parts_values parts in
    apply_proposals q (Some (own_leaf_index g)) d = (Ok v, d1) /\
    compute_path pr (own_leaf_index g) (exclusion_list v) (CommitExternal (ccp_credential_with_key params)) (ccp_leaf_node_parameters params) (new_extensions v) d1 =
      (Ok (parts_path parts), d2) /\
    content_body (ac_content content) = BodyCommit {| commit_proposals := commit_list q; commit_path := pcr_encrypted_path (parts_path parts) |} /\
    content_sender (ac_content content) = NewMemberCommit /\ ac_wire_format content = fp.2 /\
    PublicGroupDiff_update_confirmed_transcript_hash content d2 = (Ok tt, d3) /\ tls_group_context (pgd_context d3) = Some (parts_context parts) /\
    external_secrets g st (pcr_commit_secret (parts_path parts)) (presharedkeys v) (parts_context parts) =
      Ok (parts_joiner_secret parts, parts_welcome_secret parts, parts_secrets parts) /\
    ConfirmationKey_tag c (confirmation_key (parts_secrets parts)) (gc_confirmed_transcript_hash (pgd_context d3)) = Ok (parts_tag parts) /\
    update_interim_transcript_hash c (parts_tag parts) d3 = (Ok tt, d4) /\ parts_commit parts = set_confirmation_tag (parts_tag parts) content.
Proof.
  intros c Hforce Hp. unfold external_parts in Hp. cbv zeta in Hp. step Hp as v d1 E1. rewrite Hforce, orb_true_r in Hp. cbn [orb] in Hp. step Hp as path d2 E3. step Hp as content dd E4.
  step Hp as u2 d3 E5. destruct u2. step Hp as self dd1 E6. step Hp as context dd2 E7. step Hp as sec dd3 E8. destruct sec as [[joiner ws] secrets].
  step Hp as tag dd4 E9. step Hp as u3 d5 E10. destruct u3. injection Hp as <- <-.
  unfold AuthenticatedContent_commit, new_and_sign in E4. ok_inv E4. unfold FramedContentTbs_sign in E4. ok_inv E4. injection E4 as E4. ok_inv Hx. injection Hx as Hx.
  exists d1, d2, content, d3. cbn [parts_values parts_path parts_context parts_joiner_secret parts_welcome_secret parts_secrets parts_tag parts_commit].
  split; [exact E1|]. split; [exact E3|]. rewrite <- E4, <- Hx. split; [done|]. split; [done|]. split; [done|]. rewrite Hx, E4. by split_and!.
Qed.

(** Making the group info and the welcome leaves the diff as it is. *)
Lemma commit_group_info_state g signer parts d r d' : commit_group_info g signer parts d = (Ok r, d') -> d' = d.
Proof.
  unfold commit_group_info. destruct (negb _); [by intros [= _ <-]|]. intros E. step E as kp d1 E1. destruct kp. step E as self d2 E2. step E as es d3 E3. step E as info d4 E4.
  by injection E as _ <-.
Qed.

Lemma commit_welcome_state g parts info d r d' : commit_welcome g parts info d = (Ok r, d') -> d' = d.
Proof.
  unfold commit_welcome. destruct (invitation_list _); [by intros [= _ <-]|]. intros E. step E as kn d1 E1. destruct kn. step E as i d2 E2. step E as enc d3 E3.
  step E as ct d4 E4. step E as self d5 E5. step E as secrets d6 E6. by injection E as _ <-.
Qed.

Context `{!Serde bytes} `{!Serde TreeSync} `{!Serde ConfirmationTag} `{!Serde GroupContext} `{!Serde InterimTranscriptHash}.
Context `{!Serde Z} `{!Serde QueuedProposal} `{!Serde (bytes * bytes)} `{!Serde (list bytes)} `{!Serde GroupEpochSecrets} `{!Serde LeafNode}.
Context `{!Serde (MessageSecretsStore MessageSecrets)} `{!Serde (ResumptionPskStore Secret)} `{!Serde MlsGroupJoinConfig} `{!Serde MlsGroupState}.
Context (map_order : gmap LeafNodeIndex FilterMember -> list (LeafNodeIndex * FilterMember)).

Lemma from_external_info now verify tree info store st pg info' st' : from_external now verify tree info store st = (Ok (pg, info'), st') -> info' = info.
Proof.
  unfold from_external. intros Hf. cbv zeta in Hf. step Hf as nodes s1 E1. step Hf as ts s2 E2. step Hf as keys s3 E3. step Hf as u s4 E4. step Hf as leaf s5 E5.
  step Hf as i s6 E6. assert (i = info) as -> by (unfold GroupInfo_verify in E6; ok_inv E6; by injection E6 as <-).
  destruct (negb _); [discriminate|]. destruct (negb _); [discriminate|]. step Hf as hash s7 E7. step Hf as u' s8 E8. step Hf as u'' s9 E9. by injection Hf as _ <- _.
Qed.

(** A client that has joined: [g0] is its group before the commit is pending. *)
Record external_joined (now : option Z) (pr : CommitProvider) (signer : Signer) (info : GroupInfo) (cwk : Credential * bytes) (g0 g : MlsGroup) (message : PublicMessage)
    (params : CreateCommitParams) (aad : bytes) (st : MemoryStorage) (pk init kem_output : bytes) (q : ProposalQueue) (parts : CommitParts) (built : BuiltCommit) : Prop := {
  xj_store : proposal_store (public_group g0) = [];
  xj_pub : LeafNodes.external_pub (gi_extensions (gi_payload info)) = Some pk;
  xj_init : InitSecret_from_group_context (MlsGroup_context g0) pk = Ok (init, kem_output);
  xj_secret : ge_init_secret (group_epoch_secrets g0) = init;
  xj_index : leftmost_free_index (public_group g0) (joins_with kem_output (find_us (public_group g0) cwk.2)) = Ok (own_leaf_index g0);
  xj_queue : exists own_updates, filter_proposals map_order (MlsGroup_ciphersuite g0) NewMemberCommit [] (joins_with kem_output (find_us (public_group g0) cwk.2)) (own_leaf_index g0) =
    Ok (q, own_updates) /\ exists d d', external_parts pr signer g0 st params (aad, WirePublicMessage) q own_updates (PublicGroup_empty_diff (public_group g0)) = (Ok parts, d) /\
      stage_parts g0 q parts d = (Ok built, d');
  xj_force : ccp_force_self_update params = true;
  xj_removes : validate_remove_proposals (public_group g0) q = Ok tt;
  xj_group : g = set_group_state (PendingCommit (PendingExternal (built_staged_commit built))) g0;
  xj_message : message = PublicMessage_from (built_commit built)
}.

Lemma external_join_ok now verify pr signer tree info config caps exts aad cwk st g message group_info path st' :
  join_by_external_commit_internal map_order now verify pr signer tree info config caps exts aad cwk st = (Ok (g, message, group_info, path), st') ->
  exists g0 params st1 pk init kem_output q parts built, external_joined now pr signer info cwk g0 g message params aad st1 pk init kem_output q parts built.
Proof.
  unfold join_by_external_commit_internal. intros Hj. cbv zeta in Hj. step Hj as rt s1 E1. step Hj as x s2 E2. destruct x as [pg info']. pose proof (from_external_info _ _ _ _ _ _ _ _ _ E2) as ->.
  destruct (from_external_ok _ _ _ _ _ _ _ _ _ E2) as (_ & _ & _ & _ & Eps & _). step Hj as pk s3 E3. step Hj as x s4 E4. destruct x as [init kem]. step Hj as x s5 E5. destruct x as [ges ms].
  step Hj as own s6 E6. step Hj as g0 s7 E7. step Hj as st1 s8 E8. step Hj as x s9 E9. destruct x as [result p]. step Hj as u s10 E10. injection Hj as <- <- _ _ _.
  assert (Hg0 : public_group g0 = pg /\ own_leaf_index g0 = own /\ group_epoch_secrets g0 = ges).
  { unfold set_max_past_epochs, resize_store in E7. cbn in E7. by injection E7 as <-. }
  destruct Hg0 as (Epg & Eown & Eges).
  assert (Einit : ge_init_secret ges = init).
  { unfold joiner_secrets, with_init_secret in E5. ok_inv E5. injection E5 as <- <-. ok_inv Hx. injection Hx as <-. done. }
  unfold create_external_commit_internal in E9. cbn [ccp_framing_parameters set_inline_proposals set_leaf_node_parameters external_commit mbind outcome_bind] in E9.
  ok_inv E9. destruct x as [q own_updates]. ok_inv E9. unfold external_validate in Hx0. ok_inv Hx0.
  match type of E9 with fst ?x = _ => destruct x as [o dend] eqn:Erun end. cbn [fst] in E9. subst o.
  step Erun as parts d Ep. step Erun as oinfo d1 Ei. apply commit_group_info_state in Ei as ->. step Erun as ow d2 Ew. apply commit_welcome_state in Ew as ->.
  step Erun as built d3 Es. injection Erun as <- <- <-. cbn [result_commit].
  eexists g0, _, s2, pk, init, kem, q, parts, built. split; rewrite ?Epg, ?Eown, ?Eges; try done; unfold MlsGroup_ciphersuite, MlsGroup_context in *; rewrite ?Epg in *; try done.
  - exists own_updates. split; [|by exists d, d3]. unfold MlsGroup_proposal_store in Hx. rewrite Epg, Eps, Eown in Hx. exact Hx.
  - reflexivity.
  - by destruct x4.
Qed.

(** The joiner has the public state of the members from the group info and the tree. *)
Record same_group (g g' : PublicGroup) : Prop := {
  sg_tree : treesync g = treesync g';
  sg_context : group_context g = group_context g';
  sg_interim : interim_transcript_hash g = interim_transcript_hash g';
  sg_tag : confirmation_tag g = confirmation_tag g'
}.

Lemma same_group_diff g g' : same_group g g' -> PublicGroup_empty_diff g' = PublicGroup_empty_diff g.
Proof. intros [Et Ec Ei Eg]. unfold PublicGroup_empty_diff. by rewrite Et, Ec, Ei, Eg. Qed.

Lemma find_us_nonneg g h key r : group_ok g h -> find_us g key = Some r -> 0 <= r.
Proof.
  intros [(Hwf & _) _] E. unfold find_us in E. destruct (List.find _ _) as [m|] eqn:Ef; [|done]. injection E as <-.
  apply find_some in Ef as [Hin%list_elem_of_In _]. by apply (full_members_leaf _ h) in Hin as (leaf & ? & _).
Qed.

Lemma queued_references q : queue_ok q -> map proposal_reference (queued_proposals q) = proposal_references q.
Proof.
  intros [_ Hr]. unfold queued_proposals, ProposalQueue_get. assert (Hin : forall r, r ∈ proposal_references q -> exists p, queued_map q !! r = Some p /\ proposal_reference p = r).
  { intros r Hin. destruct (Hr r) as [Hs Hp]. destruct (proj2 Hs Hin) as [p Ep]. exists p. by split; [|apply Hp]. }
  clear Hr. revert Hin. induction (proposal_references q) as [|r l IH]; intros Hin; [done|]. destruct (Hin r) as (p & Ep & E); [by left|]. cbn. rewrite Ep. cbn. f_equal; [done|].
  apply IH. intros r' Hr'. apply Hin. by right.
Qed.

(** The queue that the members make of the joiner's commit, and the leaf they take it from *)
Lemma joined_queue now g m q q' kem_output removed commit i : let c := PublicGroup_ciphersuite g in
  joiner_queue c kem_output removed q -> references_differ c (joins_with kem_output removed) -> content_sender (ac_content m) = NewMemberCommit ->
  commit_proposals commit = commit_list q -> validate_commit now g m = Ok (commit, q', i) ->
  queue_ok q' /\ queued_proposals q' = queued_proposals q /\ leftmost_free_index g (joins_with kem_output removed) = Ok i.
Proof.
  intros c Hq Hd Hs Hc Hv. pose proof Hq as [Hok Hinl Hp]. destruct (joiner_queue_contents c _ _ _ Hq) as (_ & _ & _ & _ & _ & Hfree).
  pose proof (validate_commit_ok _ _ _ _ _ _ Hv) as (_ & _ & Eq & _). rewrite Hs, Hc in Eq.
  destruct (committed_queue c q (proposal_store g) NewMemberCommit (queued_proposals q) Hinl) as (q1 & E1 & Hok1 & El1).
  - rewrite queued_references by done. apply Hok.
  - apply Forall_forall. intros p _. unfold removes_itself. by destruct (proposal p).
  - fold c in Eq. rewrite E1 in Eq. injection Eq as ->. split; [done|]. split; [done|].
    assert (Einl : inline_proposals commit = map proposal (queued_proposals q)).
    { unfold inline_proposals. rewrite Hc, commit_list_proposals. clear. induction (map proposal (queued_proposals q)) as [|p l IH]; [done|]. cbn. by f_equal. }
    destruct (external_queue now g m commit q' i Hv Hs) as (_ & _ & Hi & _).
    + rewrite Einl. intros p1 p2 r Hp1%Hp Hp2%Hp. by apply Hd.
    + by rewrite Einl, Hfree in Hi.
Qed.

(** C3: a client that joins by an external commit ends in the epoch of the members.
    Let [join_by_external_commit_internal] (of which [join_by_external_commit] drops the
    path) succeed from a group info that gives the public state of the group and the
    external public key of its epoch, with two proposals whose references differ, and let
    a member of the group accept the proposals of the message, remain in the group and
    hold the private keys of its leaf and of its direct path.  Then the joiner has taken the leaf at which the
    member expects it and has its commit pending, and the member stages the message to the
    joiner's tree, group context, transcript hashes and secrets of the next epoch: the
    encapsulated init secret, the path and the confirmation tag all check.  It then holds
    the private keys of its direct path in the new tree.  An observer of the public group
    stages the same public state. *)
Theorem external_join_agrees now now' verify pr signer tree info config caps exts aad cwk st g message group_info path st' gj stj pk sk h commit q' i old leaves :
  let c := MlsGroup_ciphersuite gj in let ts := treesync (public_group gj) in
  let m := {| ac_wire_format := WirePublicMessage; ac_content := pub_content message; ac_auth := pub_auth message |} in
  (forall m, map_order m ≡ₚ map_to_list m) ->
  join_by_external_commit_internal map_order now verify pr signer tree info config caps exts aad cwk st = (Ok (g, message, group_info, path), st') ->
  same_group (public_group g) (public_group gj) -> LeafNodes.external_pub (gi_extensions (gi_payload info)) = Some pk ->
  derive_external_keypair c (ge_external_secret (group_epoch_secrets gj)) = Ok (pk, sk) ->
  group_ok (public_group gj) h -> tree_generated c (TreeSync_empty_diff ts) -> (forall kp, draw_leaf_keypair pr = Ok kp -> generated c kp) ->
  (forall kem_output, references_differ c (joiner_proposals (public_group g) kem_output cwk.2)) ->
  validate_commit now' (public_group gj) m = Ok (commit, q', i) -> follows c gj i (removed_leaves q') (old ++ leaves) ->
  exists staged mi mj, own_leaf_index g = i /\ group_state g = PendingCommit (PendingExternal staged) /\ staged_state staged = GroupMember mi /\
    member_stage_commit now' gj stj m old leaves = Ok {| staged_proposal_queue := q'; staged_state := GroupMember mj |} /\
    same_next ts c i (own_leaf_index gj) (old ++ leaves) mi mj /\
    stage_commit (M := MemberStagedCommitState) now' (public_group gj) m = Ok {| staged_proposal_queue := q'; staged_state := PublicState {|
      psc_staged_diff := msc_staged_diff mi; psc_update_path_leaf_node := msc_update_path_leaf_node mi |} |}.
Proof.
  intros c ts m Horder Hjoin Hsame Hpub Hkey Hg Hgen Hdraw Hdiff Hv Hf.
  apply external_join_ok in Hjoin as (g0 & params & st1 & pk' & init & kem_output & q & parts & built & Hj).
  pose proof Hj as [_ Epub Einit Esecret Eindex (own_updates & Efilter & d4 & dend & Eparts & Estage) Hforce Hrem -> ->].
  rewrite Epub in Hpub. injection Hpub as ->. cbn [public_group set_group_state own_leaf_index] in *.
  pose proof (same_group_diff _ _ Hsame) as Ediff. destruct Hsame as [Etree Econtext Einterim Etag].
  assert (Ec : MlsGroup_ciphersuite g0 = c) by (unfold c, MlsGroup_ciphersuite, PublicGroup_ciphersuite; by rewrite Econtext).
  set (removed := find_us (public_group g0) cwk.2) in *. specialize (Hdiff kem_output).
  change (joiner_proposals (public_group g0) kem_output cwk.2) with (joins_with kem_output removed) in Hdiff. rewrite Ec in Efilter.
  pose proof (joiner_queue_filtered c map_order kem_output removed _ q own_updates Horder Hdiff Efilter) as Hq.
  destruct (external_parts_ok _ _ _ _ _ _ _ _ _ _ _ Hforce Eparts) as (d1 & d2 & content & d3 & Ea & Epath & Ebody & Esender & Ewire & E3 & Ectx & Esec & Etagk & E4 & Ebc).
  assert (Hg0 : group_ok (public_group g0) h).
  { unfold group_ok, PublicGroup_ciphersuite in *. by rewrite Etree, Econtext. }
  unfold ts in *. rewrite <- Etree in *.
  apply stage_parts_ok in Estage as (staged & Est & Eb). set (v := parts_values parts) in *. set (p := parts_path parts) in *. set (tag := parts_tag parts) in *.
  assert (Em : m = set_confirmation_tag tag content).
  { unfold m. rewrite Eb. cbn. rewrite Ebc. by destruct content; cbn in Ewire |- *; rewrite Ewire. }
  clearbody m. subst m. destruct (validate_commit_ok _ _ _ _ _ _ Hv) as (Ecm & _). cbn [set_confirmation_tag ac_content] in Ecm. rewrite Ebody in Ecm. injection Ecm as <-.
  destruct (joined_queue now' (public_group gj) (set_confirmation_tag tag content) q q' kem_output removed
    {| commit_proposals := commit_list q; commit_path := pcr_encrypted_path p |} i Hq Hdiff Esender eq_refl Hv) as (Hq' & Elist & Efree).
  assert (Ei : own_leaf_index g0 = i).
  { unfold leftmost_free_index in Eindex, Efree. rewrite Etree in Eindex. rewrite Eindex in Efree. by injection Efree. }
  subst i. set (i := own_leaf_index g0) in *.
  assert (Hremq : forall r, r ∈ removed_leaves q -> r ∈ removed_leaves q') by (intros r; rewrite !elem_of_removed; by rewrite Elist).
  assert (Hgen0 : tree_generated (PublicGroup_ciphersuite (public_group g0)) (TreeSync_empty_diff (treesync (public_group g0)))) by (by rewrite (Ec : PublicGroup_ciphersuite _ = c)).
  destruct (external_applied (public_group g0) h kem_output removed q v d1 (Some i) Hg0 Hgen0) as (_ & Eex & Epsk & Eext & (s1 & Ed1) & Eo & (h1 & Hready) & Hgen1 & Efree1 & Hmem);
    rewrite ?(Ec : PublicGroup_ciphersuite _ = c) in *; [done|done|intros r; by apply (find_us_nonneg _ h)|done|].
  rewrite Efree1 in Eindex. injection Eindex as Efree'. assert (Ecd : gc_ciphersuite (pgd_context d1) = c) by (rewrite Ed1; exact Ec).
  destruct Hf as [Hj0 Hji Hjm Hjr Hjg Hjk]. unfold leaves_of in Hjm. rewrite <- Etree in Hjm, Hjk.
  destruct (Hmem (own_leaf_index gj) Hj0 Hjm (fun H => Hjr (Hremq _ H))) as (Elj & Hjk1). assert (Hsj : is_Some (leaf_at (pgd_diff d1) (own_leaf_index gj))) by (by rewrite Elj).
  destruct (external_path_shared pr i v (ccp_credential_with_key params) (ccp_leaf_node_parameters params) d1 p d2 h1 Epath) as (h2 & Hok2 & Hh2 & Eo2 & Hgen2 & Hobs & Hrecv);
    rewrite ?Ecd in *; [done|done|done|done|by exists (own_leaf_index gj)|].
  pose proof (apply_proposals_same q q' (Some i) (Some (own_leaf_index gj)) (PublicGroup_empty_diff (public_group g0)) (f_equal (map proposal) (eq_sym Elist)) (jq_ok _ _ _ _ Hq) Hq') as Eaj.
  pose proof (apply_proposals_same q q' (Some i) None (PublicGroup_empty_diff (public_group g0)) (f_equal (map proposal) (eq_sym Elist)) (jq_ok _ _ _ _ Hq) Hq') as Ean.
  destruct (joiner_queue_contents c _ _ _ Hq) as (_ & Hups & _). rewrite Ea in Eaj, Ean. specialize (Eaj Hups). specialize (Ean Hups).
  set (vj := mkApplyProposalsValues _ _ _ _ _ _) in Eaj. set (vn := mkApplyProposalsValues _ _ _ _ _ _) in Ean.
  assert (Evj : self_removed vj = false).
  { cbn. apply not_true_is_false. intros (r & Hr & E)%existsb_exists. apply bool_decide_eq_true in E. injection E as <-. by apply Hjr, Hremq, list_elem_of_In. }
  destruct (Hrecv gj vj old leaves eq_refl Evj eq_refl eq_refl Hj0 Hsj ltac:(rewrite Eex; apply not_elem_of_nil) Hjg (fun key Hk => Hjk key (Hjk1 key Hk))) as (kps & lkp & Eproc & Hsj2 & Hkeys).
  rewrite Epsk in Esec. apply external_secrets_ok in Esec. rewrite Ec, Esecret in Esec.
  assert (Esecj : derive_epoch_secrets gj stj vj (group_epoch_secrets gj) (default (CommitSecret_zero_secret c) (pcr_commit_secret p)) (parts_context parts) = Ok (parts_secrets parts)).
  { rewrite Esec. eapply (derive_epoch_secrets_external gj stj vj _ _ _ pk sk init kem_output); [done|done|done|]. unfold MlsGroup_context in *. by rewrite <- Econtext. }
  assert (Ed4 : pgd_diff d4 = pgd_diff d2) by (by destruct (update_transcript_ok _ _ _ _ _ _ E3 E4)).
  destruct (staged_keys c (treesync (public_group g0)) h2 d2 d4 staged (own_leaf_index gj) (((old ++ leaves) ++ kps).*1)
    (eq_trans Eo2 Eo) Hok2 Hh2 Ed4 Est Hgen2 Hj0 Hsj2 Hkeys) as [Hgen' Hkeys'].
  subst built. eexists _, _, _. split; [done|]. split; [done|]. split; [done|]. rewrite Ec in *. split; [|split].
  - etrans; [eapply (receiver_agrees now' gj stj content tag); [|exact Hv|by rewrite Ediff|exact Eproc|exact E3|exact Ectx|exact Esecj|done..|exact Est]|reflexivity].
    by rewrite Esender.
  - split; [done|by eexists (parts_secrets parts), (parts_context parts), _|done|done|done].
  - unfold stage_commit. rewrite Hv. cbn [mbind outcome_bind commit_path]. destruct (Hobs vn) as (d1' & Eobs & Eg).
    rewrite (observer_agrees (public_group gj) content tag {| commit_proposals := commit_list q; commit_path := pcr_encrypted_path p |} q' vn i d1 d1' d2 d3 d4 staged); try done.
    by rewrite Ediff.
Qed.

End ExternalAgreement.

(** ** Witnesses *)

Module ExternalSamples.
#[local] Existing Instances JoinSamples.toy_joining toy_contexts toy_crypto toy_laws toy_aead toy_signatures toy_proposal_hashing toy_hashing toy_hash_laws toy_transcripts toy_hpke
  toy_hpke_laws toy_psk_labels toy_extract_laws toy_export toy_bodies toy_framing.

(** The joiner only writes to its store. *)
#[local] Instance flat_serde (A : Type) : Serde A := {| to_vec _ := Some []; from_slice _ := None |}.

#[local] Instance toy_export_laws : ExportLaws.
Proof. split. intros config ikm pk sk info context len enc secret E Es. cbn in *. congruence. Qed.

(** What member 0 publishes of the group of three, and the third member, which has lost
    its state and joins again *)
Definition public_info : GroupInfoTBS := {|
  gi_group_context := group_context (group_over sample_joined); gi_extensions := [ExternalPubExtension [84]]; gi_confirmation_tag := [3]; gi_signer := 0 |}.
Definition signed_info : GroupInfo := match GroupInfoTBS_sign public_info JoinSamples.group_signer with Ok i => i | _ => mkGroupInfo public_info [] end.

Abbreviation joining :=
  (join_by_external_commit_internal (fun m => map_to_list m) (Some 0) (fun _ _ => true) sample_provider (fun data => Ok ([3] ++ data)) (Some (export_ratchet_tree sample_joined))
    signed_info JoinSamples.new_config None None [] (leaf_credential (payload (sample_leaf 3)), [3]) ∅).

Definition external_group : PublicGroup := {|
  treesync := sample_joined; proposal_store := []; group_context := group_context (group_over sample_joined); interim_transcript_hash := [19]; confirmation_tag := [3] |}.

(** Member 1 *)
Definition external_member : MlsGroup := {|
  mls_group_config := mls_group_config (sample_member 1); public_group := external_group; group_epoch_secrets := sample_epoch_secrets; own_leaf_index := 1;
  message_secrets_store := new_with_secret 2 (sample_message_secrets 1); resumption_psk_store := ResumptionPskStore_new 4; own_leaf_nodes := []; aad := [];
  group_state := Operational |}.

Definition joining_message (message : PublicMessage) : AuthenticatedContent :=
  {| ac_wire_format := WirePublicMessage; ac_content := pub_content message; ac_auth := pub_auth message |}.

Definition joining_ok (g : MlsGroup) (message : PublicMessage) : Prop :=
  same_group (public_group g) external_group /\ find_us (public_group g) [3] = Some 2 /\
  match validate_commit (Some 0) external_group (joining_message message) with Ok (_, q, i) => i = 2 /\ removed_leaves q = [2] | _ => False end.

Lemma sample_joining : exists g message group_info path st, joining = (Ok (g, message, group_info, path), st) /\ joining_ok g message.
Proof.
  assert (Hj : match joining with (Ok (g, message, _, _), _) => joining_ok g message | _ => False end).
  { vm_compute. split; [by split|]. split; [reflexivity|]. split; reflexivity. }
  destruct joining as [[[[[g message] group_info] path]| |] st]; [by exists g, message, group_info, path, st|done..].
Qed.

Lemma external_group_ok h : tree_ok hash_suite sample_joined h -> group_ok external_group h.
Proof. unfold external_group. generalize sample_joined. intros ts Hok. by split. Qed.

Lemma external_follows : follows hash_suite external_member 2 [2] (sample_owned ++ []).
Proof.
  split; [done|done|vm_compute; eauto|by intros ?%list_elem_of_singleton| |].
  - repeat constructor; apply toy_generated.
  - intros key Hkey. vm_compute in Hkey |- *. exact Hkey.
Qed.

Lemma joiner_references kem_output : references_differ hash_suite (joins_with kem_output (Some 2)).
Proof.
  intros p1 p2 r H1 H2 E1 E2. unfold joins_with in H1, H2. rewrite !elem_of_cons in H1, H2.
  destruct H1 as [->|[->|[]%not_elem_of_nil]], H2 as [->|[->|[]%not_elem_of_nil]]; try done; vm_compute in E1, E2; congruence.
Qed.

(** The third member removes its old leaf and takes its place again. *)
Lemma external_join_agrees_witness : exists g message group_info path st staged mi mj q, joining = (Ok (g, message, group_info, path), st) /\
  own_leaf_index g = 2 /\ group_state g = PendingCommit (PendingExternal staged) /\ staged_state staged = GroupMember mi /\
  member_stage_commit (Some 0) external_member ∅ (joining_message message) sample_owned [] = Ok {| staged_proposal_queue := q; staged_state := GroupMember mj |} /\
  msc_group_epoch_secrets mj = msc_group_epoch_secrets mi.
Proof.
  destruct sample_joined_ok as [h Hok]. destruct sample_joining as (g & message & group_info & path & st & Ej & Hsame & Hus & Hv).
  destruct (validate_commit (Some 0) external_group (joining_message message)) as [[[commit q] i]| |] eqn:Ev; [|destruct Hv..]. destruct Hv as [-> Hr].
  destruct (external_join_agrees (fun m => map_to_list m) (Some 0) (Some 0) (fun _ _ => true) sample_provider (fun data => Ok ([3] ++ data)) (Some (export_ratchet_tree sample_joined))
    signed_info JoinSamples.new_config None None [] (leaf_credential (payload (sample_leaf 3)), [3]) ∅ g message group_info path st external_member ∅ [84] [84] h commit q 2 sample_owned [])
    as (staged & mi & mj & Ei & Eg & Es & Em & [_ (secrets & context & size & S0 & S1) _ _ _] & _).
  - intros m. reflexivity.
  - exact Ej.
  - exact Hsame.
  - reflexivity.
  - reflexivity.
  - exact (external_group_ok h Hok).
  - apply toy_tree_generated.
  - intros kp [= <-]. apply toy_generated.
  - intros kem_output. unfold joiner_proposals. cbn [snd]. rewrite Hus. apply joiner_references.
  - exact Ev.
  - rewrite Hr. exact external_follows.
  - exists g, message, group_info, path, st, staged, mi, mj, q. repeat (split; [eassumption|]). injection S0 as <- _. injection S1 as <- _. reflexivity.
Defined.

End ExternalSamples.
