(* ===== verification/DeliveryService.v ===== *)
(** * The delivery service

    Models [delivery-service/ds-lib/src/lib.rs] (clients, group messages, their
    encodings) and the request handlers of [delivery-service/ds/src/main.rs].

    The state is [DsData]: three maps, each behind a [Mutex].  A handler takes
    its locks before it looks at the maps and holds them until it returns, so
    concurrent requests are a sequence of handler runs; a handler that panics
    poisons the locks it holds, and a poisoned lock answers 500.  Payloads arrive
    as a list of chunks, a broken chunk is [None].

    Parameters: the encodings of [tls_codec] ([Tls]), base64, the order in which
    a [HashMap] is traversed, and the payloads of OpenMLS the service stores:
    welcomes, group infos, key packages, ratchet trees. *)

From Stdlib Require Import String.
From S2P Require Import Prelude Crypto Tls SecretTree LeafNodes PublicGroup Validation Framing.

(** ** UTF-8 *)

Definition in_range (lo hi b : Z) : bool := (lo <=? b) && (b <=? hi).

(** The ranges of the bytes that continue a sequence that starts with [b]. *)
Definition utf8_continuation (b : Z) : option (list (Z * Z)) :=
  if in_range 0 0x7F b then Some []
  else if in_range 0xC2 0xDF b then Some [(0x80, 0xBF)]
  else if b =? 0xE0 then Some [(0xA0, 0xBF); (0x80, 0xBF)]
  else if in_range 0xE1 0xEC b || in_range 0xEE 0xEF b then Some [(0x80, 0xBF); (0x80, 0xBF)]
  else if b =? 0xED then Some [(0x80, 0x9F); (0x80, 0xBF)]
  else if b =? 0xF0 then Some [(0x90, 0xBF); (0x80, 0xBF); (0x80, 0xBF)]
  else if in_range 0xF1 0xF3 b then Some [(0x80, 0xBF); (0x80, 0xBF); (0x80, 0xBF)]
  else if b =? 0xF4 then Some [(0x80, 0x8F); (0x80, 0xBF); (0x80, 0xBF)]
  else None.

(** How many of the bytes fit the ranges, and whether all ranges were met. *)
Fixpoint utf8_fits (ranges : list (Z * Z)) (s : bytes) : nat * bool :=
  match ranges, s with
  | [], _ => (0%nat, true)
  | (lo, hi) :: ranges, b :: s =>
    if in_range lo hi b then let '(n, ok) := utf8_fits ranges s in (S n, ok) else (0%nat, false)
  | _ :: _, [] => (0%nat, false)
  end.

(** The length of the sequence [s] starts with, well formed or not, less one. *)
Definition utf8_chunk (b : Z) (s : bytes) : nat * bool :=
  match utf8_continuation b with
  | Some ranges => utf8_fits ranges s
  | None => (0%nat, false)
  end.

(** U+FFFD *)
Definition replacement_character : bytes := [0xEF; 0xBF; 0xBD].

(** [String::from_utf8_lossy] with fuel for the length of [s] *)
Fixpoint utf8_lossy (fuel : nat) (s : bytes) : bytes :=
  match fuel, s with
  | S fuel, b :: s =>
    let '(n, ok) := utf8_chunk b s in
    (if ok then b :: take n s else replacement_character) ++ utf8_lossy fuel (drop n s)
  | _, _ => []
  end.

Definition from_utf8_lossy (s : bytes) : bytes := utf8_lossy (length s) s.

Fixpoint utf8_valid (fuel : nat) (s : bytes) : bool :=
  match fuel, s with
  | S fuel, b :: s => let '(n, ok) := utf8_chunk b s in ok && utf8_valid fuel (drop n s)
  | _, _ => true
  end.

(** [String::from_utf8], [std::str::from_utf8]: a string is its bytes. *)
Definition is_utf8 (s : bytes) : bool := utf8_valid (length s) s.
Definition from_utf8 (s : bytes) : option bytes := if is_utf8 s then Some s else None.

Lemma lossy_valid fuel s : (length s <= fuel)%nat -> utf8_valid fuel s = true -> utf8_lossy fuel s = s.
Proof.
  revert s. induction fuel as [|fuel IH]; intros [|b s]; cbn [length]; intros Hl; [done|lia|done|]. cbn [utf8_valid utf8_lossy].
  destruct (utf8_chunk b s) as [n ok]. intros [-> Hv]%andb_prop. rewrite IH; [|rewrite length_drop; lia|done].
  by rewrite <- app_comm_cons, take_drop.
Qed.

(** ** Encodings *)

Class TlsCodecs := {
  (** [TlsByteVecU8], [TlsByteVecU16] (also [TlsByteSliceU16]), [TlsByteVecU32] *)
  byte_vec_u8 : Codec bytes;
  byte_vec_u16 : Codec bytes;
  byte_vec_u32 : Codec bytes;
  (** [TlsVecU32<T>] (also [TlsSliceU32]) and [Vec<T>] *)
  vec_u32 {A : Type} : Codec A -> Codec (list A);
  vec {A : Type} : Codec A -> Codec (list A);
  option_codec {A : Type} : Codec A -> Codec (option A);
  pair_codec {A B : Type} : Codec A -> Codec B -> Codec (A * B)
}.

Class TlsCodecsLaws `{!TlsCodecs} : Prop := {
  byte_vec_u8_ok : codec_ok byte_vec_u8;
  byte_vec_u16_ok : codec_ok byte_vec_u16;
  byte_vec_u32_ok : codec_ok byte_vec_u32;
  vec_u32_ok {A} (c : Codec A) : codec_ok c -> codec_ok (vec_u32 c);
  vec_ok {A} (c : Codec A) : codec_ok c -> codec_ok (vec c);
  option_codec_ok {A} (c : Codec A) : codec_ok c -> codec_ok (option_codec c);
  pair_codec_ok {A B} (c : Codec A) (d : Codec B) : codec_ok c -> codec_ok d -> codec_ok (pair_codec c d)
}.

(** What the service knows of the payloads. *)
Class Payloads `{!InboundBodies} := {
  Welcome : Type;
  VerifiableGroupInfo : Type;
  KeyPackageIn : Type;
  RatchetTreeIn : Type;
  codec_message : Codec (MlsMessageIn Welcome VerifiableGroupInfo KeyPackageIn);
  codec_group_info : Codec VerifiableGroupInfo;
  codec_key_package : Codec KeyPackageIn;
  codec_ratchet_tree : Codec RatchetTreeIn;
  (** [welcome.secrets()], each by its [new_member()] *)
  welcome_new_members : Welcome -> list bytes;
  (** [KeyPackage::from(key_package).leaf_node().credential().identity()] *)
  key_package_identity : KeyPackageIn -> bytes
}.

Class PayloadsLaws `{!InboundBodies} `{!Payloads} : Prop := {
  codec_message_ok : codec_ok codec_message;
  codec_group_info_ok : codec_ok codec_group_info;
  codec_key_package_ok : codec_ok codec_key_package;
  codec_ratchet_tree_ok : codec_ok codec_ratchet_tree
}.

Section Service.
Context `{!TlsCodecs} `{!InboundBodies} `{!Payloads}.

Abbreviation MlsMessage := (MlsMessageIn Welcome VerifiableGroupInfo KeyPackageIn) (only parsing).

(** *** The structures of [ds-lib] *)

Record GroupMessage := mkGroupMessage {
  gm_msg : MlsMessage;
  gm_sender : bytes;
  gm_ratchet_tree : option RatchetTreeIn;
  gm_recipients : list bytes;
  gm_active_members : option (list bytes)
}.

Record WelcomeAcknowledgement := mkWelcomeAcknowledgement { ack_sender : bytes; ack_group : bytes }.

Record GroupInfoAndTree := mkGroupInfoAndTree { git_group_info : VerifiableGroupInfo; git_ratchet_tree : option RatchetTreeIn }.

Record ClientInfo := mkClientInfo {
  client_name : bytes;
  key_packages : list (bytes * KeyPackageIn);
  reserved_key_pkg_hash : gset bytes;
  client_id : bytes;
  msgs : list GroupMessage;
  welcome_queue : list GroupMessage
}.

Definition set_msgs (l : list GroupMessage) (c : ClientInfo) : ClientInfo := {|
  client_name := client_name c; key_packages := key_packages c; reserved_key_pkg_hash := reserved_key_pkg_hash c;
  client_id := client_id c; msgs := l; welcome_queue := welcome_queue c |}.
Definition set_welcome_queue (l : list GroupMessage) (c : ClientInfo) : ClientInfo := {|
  client_name := client_name c; key_packages := key_packages c; reserved_key_pkg_hash := reserved_key_pkg_hash c;
  client_id := client_id c; msgs := msgs c; welcome_queue := l |}.
Definition set_reserved (r : gset bytes) (c : ClientInfo) : ClientInfo := {|
  client_name := client_name c; key_packages := key_packages c; reserved_key_pkg_hash := r;
  client_id := client_id c; msgs := msgs c; welcome_queue := welcome_queue c |}.
Definition set_key_packages (l : list (bytes * KeyPackageIn)) (c : ClientInfo) : ClientInfo := {|
  client_name := client_name c; key_packages := l; reserved_key_pkg_hash := reserved_key_pkg_hash c;
  client_id := client_id c; msgs := msgs c; welcome_queue := welcome_queue c |}.

(** Indexing the first key package panics when there is none. *)
Definition ClientInfo_new {E} (name : bytes) (key_packages : list (bytes * KeyPackageIn)) : outcome E ClientInfo :=
  match key_packages with
  | [] => Panic
  | (_, key_package) :: _ => Ok {|
      client_name := name; client_id := key_package_identity key_package; key_packages := key_packages;
      reserved_key_pkg_hash := ∅; msgs := []; welcome_queue := [] |}
  end.

(** The error is [No more keypackage available]. *)
Definition consume_kp : method ClientInfo () KeyPackageIn :=
  self ← get;
  if (length (key_packages self) <=? 1)%nat then fail tt
  else match key_packages self !! (length (key_packages self) - 1)%nat with
  | Some (hash, key_package) => modify (set_reserved ({[ hash ]} ∪ reserved_key_pkg_hash self));; mret key_package
  | None => fail tt
  end.

(** *** Their encodings *)

Definition WelcomeAcknowledgement_codec : Codec WelcomeAcknowledgement := {|
  codec_writer := {|
    tls_serialized_len self := tls_serialized_len byte_vec_u8 (ack_group self) + tls_serialized_len byte_vec_u8 (ack_group self);
    tls_serialize self :=
      append_serialized (tls_serialize byte_vec_u8 (ack_sender self)) (tls_serialize byte_vec_u8 (ack_group self)) |};
  tls_deserialize input :=
    '(sender, input) ← tls_deserialize byte_vec_u8 input;
    sender ← (match from_utf8 sender with Some s => Ok s | None => Panic end);
    '(group, input) ← tls_deserialize byte_vec_u8 input;
    group ← (match from_utf8 group with Some s => Ok s | None => Panic end);
    Ok ({| ack_sender := sender; ack_group := group |}, input) |}.

Definition key_packages_codec : Codec (list (bytes * KeyPackageIn)) := vec_u32 (pair_codec byte_vec_u8 codec_key_package).

Definition ClientInfo_codec : Codec ClientInfo := {|
  codec_writer := {|
    tls_serialized_len self := tls_serialized_len byte_vec_u16 (client_name self) + tls_serialized_len key_packages_codec (key_packages self);
    tls_serialize self :=
      append_serialized (tls_serialize byte_vec_u16 (client_name self)) (tls_serialize key_packages_codec (key_packages self)) |};
  tls_deserialize input :=
    '(name, input) ← tls_deserialize byte_vec_u16 input;
    '(kps, input) ← tls_deserialize key_packages_codec input;
    info ← ClientInfo_new (from_utf8_lossy name) kps;
    Ok (info, input) |}.

Definition GroupMessage_codec : Codec GroupMessage := {|
  codec_writer := {|
    tls_serialized_len self :=
      tls_serialized_len codec_message (gm_msg self) + tls_serialized_len byte_vec_u32 (gm_sender self) +
      tls_serialized_len (option_codec codec_ratchet_tree) (gm_ratchet_tree self) +
      tls_serialized_len (vec_u32 byte_vec_u32) (gm_recipients self) +
      tls_serialized_len (option_codec (vec byte_vec_u32)) (gm_active_members self);
    tls_serialize self :=
      append_serialized (tls_serialize codec_message (gm_msg self)) $
      append_serialized (tls_serialize byte_vec_u32 (gm_sender self)) $
      append_serialized (tls_serialize (option_codec codec_ratchet_tree) (gm_ratchet_tree self)) $
      append_serialized (tls_serialize (vec_u32 byte_vec_u32) (gm_recipients self))
        (tls_serialize (option_codec (vec byte_vec_u32)) (gm_active_members self)) |};
  tls_deserialize input :=
    '(msg, input) ← tls_deserialize codec_message input;
    '(sender, input) ← tls_deserialize byte_vec_u32 input;
    '(ratchet_tree, input) ← tls_deserialize (option_codec codec_ratchet_tree) input;
    '(recipients, input) ← tls_deserialize (vec_u32 byte_vec_u32) input;
    '(active_members, input) ← tls_deserialize (option_codec (vec byte_vec_u32)) input;
    Ok ({| gm_msg := msg; gm_sender := sender; gm_ratchet_tree := ratchet_tree; gm_recipients := recipients;
           gm_active_members := active_members |}, input) |}.

Definition GroupInfoAndTree_codec : Codec GroupInfoAndTree := {|
  codec_writer := {|
    tls_serialized_len self :=
      tls_serialized_len codec_group_info (git_group_info self) + tls_serialized_len (option_codec codec_ratchet_tree) (git_ratchet_tree self);
    tls_serialize self :=
      append_serialized (tls_serialize codec_group_info (git_group_info self))
        (tls_serialize (option_codec codec_ratchet_tree) (git_ratchet_tree self)) |};
  tls_deserialize input :=
    '(group_info, input) ← tls_deserialize codec_group_info input;
    '(ratchet_tree, input) ← tls_deserialize (option_codec codec_ratchet_tree) input;
    Ok ({| git_group_info := group_info; git_ratchet_tree := ratchet_tree |}, input) |}.

(** ** State and responses *)

Inductive StatusCode :=
| Status_OK | NoContent | PartialContent | BadRequest | Forbidden | NotFound | Conflict | InternalServerError.

Record HttpResponse := mkHttpResponse { status : StatusCode; response_body : bytes }.

Definition finish (code : StatusCode) : HttpResponse := {| status := code; response_body := [] |}.

Record Mutex (T : Type) := mkMutex { poisoned : bool; guarded : T }.
Arguments mkMutex {T} _ _.
Arguments poisoned {T} _.
Arguments guarded {T} _.

Record DsData := mkDsData {
  clients : Mutex (gmap bytes ClientInfo);
  group_info_mutex : bool;
  groups : Mutex (gmap bytes Z);
  group_info : Mutex (gmap bytes (option GroupInfoAndTree))
}.

Definition set_clients (m : Mutex (gmap bytes ClientInfo)) (d : DsData) : DsData := {|
  clients := m; group_info_mutex := group_info_mutex d; groups := groups d; group_info := group_info d |}.
Definition set_groups (m : Mutex (gmap bytes Z)) (d : DsData) : DsData := {|
  clients := clients d; group_info_mutex := group_info_mutex d; groups := m; group_info := group_info d |}.
Definition set_group_info (m : Mutex (gmap bytes (option GroupInfoAndTree))) (d : DsData) : DsData := {|
  clients := clients d; group_info_mutex := group_info_mutex d; groups := groups d; group_info := m |}.

(** [DsData::default()] with the command line's flag *)
Definition DsData_start (mutex : bool) : DsData := {|
  clients := mkMutex false ∅; group_info_mutex := mutex; groups := mkMutex false ∅; group_info := mkMutex false ∅ |}.

(** A handler computes a response; an early [return] is an [Err]. *)
Abbreviation handler S := (method S HttpResponse) (only parsing).

Definition panicked {E A} (o : outcome E A) : bool := match o with Panic => true | _ => false end.

(** [unwrap_data!(lock())], then [c] with the guard *)
Definition locked {S T A} (read : S -> Mutex T) (write : Mutex T -> S -> S) (c : handler T A) : handler S A := fun s =>
  if poisoned (read s) then (Err (finish InternalServerError), s)
  else let '(o, v) := c (guarded (read s)) in (o, write {| poisoned := panicked o; guarded := v |} s).

Definition with_clients {A} : handler (gmap bytes ClientInfo) A -> handler DsData A := locked clients set_clients.
Definition with_group_info {A} : handler (gmap bytes (option GroupInfoAndTree)) A -> handler DsData A :=
  locked group_info set_group_info.

(** Both locks, [clients] first *)
Definition with_clients_and_groups {A} (c : handler (gmap bytes ClientInfo * gmap bytes Z) A) : handler DsData A := fun d =>
  if poisoned (clients d) || poisoned (groups d) then (Err (finish InternalServerError), d)
  else let '(o, (v, w)) := c (guarded (clients d), guarded (groups d)) in
       (o, set_groups {| poisoned := panicked o; guarded := w |} (set_clients {| poisoned := panicked o; guarded := v |} d)).

(** [unwrap_data!(x)], and the decoding that answers 400 instead *)
Definition unwrap_data {S E A} (o : outcome E A) : handler S A := lift (map_err (fun _ => finish InternalServerError) o).
Definition or_bad_request {S E A} (o : outcome E A) : handler S A := lift (map_err (fun _ => finish BadRequest) o).

(** The chunks of a request's payload; [unwrap_item!] *)
Fixpoint read_body (chunks : list (option bytes)) : outcome HttpResponse bytes :=
  match chunks with
  | [] => Ok []
  | Some item :: chunks => rest ← read_body chunks; Ok (item ++ rest)
  | None :: _ => Err (finish PartialContent)
  end.

(** [T::tls_deserialize(&mut &bytes[..])] *)
Definition parse {A} (c : Codec A) (input : bytes) : outcome TlsError A := '(x, _) ← tls_deserialize c input; Ok x.

(** ** Handlers *)

Section Handlers.
(** [base64::decode_config(_, URL_SAFE)] *)
Context (base64_decode : bytes -> option bytes).
(** The order in which a map of clients is traversed *)
Context (hash_order : gmap bytes ClientInfo -> list bytes).
(** Whether [log::debug!] evaluates its arguments *)
Context (debug_enabled : bool).

Definition decode_id {S} (path : bytes) : handler S bytes := lift (ok_or (base64_decode path) (finish BadRequest)).

(** [std::str::from_utf8(id).unwrap()] as an argument of [log::debug!] *)
Definition log_id {S} (id : bytes) : handler S () :=
  if debug_enabled then _ ← unwrap (from_utf8 id); mret tt else mret tt.

Definition register_client (chunks : list (option bytes)) : handler DsData HttpResponse :=
  input ← lift (read_body chunks);
  info ← or_bad_request (parse ClientInfo_codec input);
  with_clients (
    clients ← get;
    modify (<[client_id info := info]>);;
    match clients !! client_id info with
    | Some _ => mret (finish Conflict)
    | None => mret {| status := Status_OK; response_body := str_bytes "Welcome " ++ client_name info ++ str_bytes "!" ++ [10] |}
    end).

Definition list_clients : handler DsData HttpResponse :=
  with_clients (
    clients ← get;
    out_bytes ← unwrap_data (tls_serialize (vec_u32 ClientInfo_codec) (omap (fun id => clients !! id) (hash_order clients)));
    mret {| status := Status_OK; response_body := out_bytes |}).

Definition reset : handler DsData HttpResponse :=
  with_clients_and_groups (modify (fun _ => (∅, ∅));; mret (finish Status_OK)).

Definition get_key_packages (path : bytes) : handler DsData HttpResponse :=
  with_clients (
    id ← decode_id path;
    clients ← get;
    match clients !! id with
    | Some client =>
      out ← unwrap_data (tls_serialize key_packages_codec (key_packages client));
      mret {| status := Status_OK; response_body := out |}
    | None => mret (finish NoContent)
    end).

Definition publish_key_packages (path : bytes) (chunks : list (option bytes)) : handler DsData HttpResponse :=
  input ← lift (read_body chunks);
  with_clients (
    id ← decode_id path;
    clients ← get;
    match clients !! id with
    | Some client =>
      kps ← or_bad_request (parse key_packages_codec input);
      modify (<[id := set_key_packages (key_packages client ++ kps) client]>);;
      mret (finish Status_OK)
    | None => mret (finish NotFound)
    end).

Definition consume_key_package (path : bytes) : handler DsData HttpResponse :=
  with_clients (
    id ← decode_id path;
    clients ← get;
    match clients !! id with
    | Some client =>
      match consume_kp client with
      | (Ok key_package, client) =>
        modify (<[id := client]>);;
        out ← unwrap_data (tls_serialize codec_key_package key_package);
        mret {| status := Status_OK; response_body := out |}
      | (_, client) => modify (<[id := client]>);; mret (finish NoContent)
      end
    | None => mret (finish NoContent)
    end).

Definition get_group_info (path : bytes) (mutex : bool) : handler (gmap bytes (option GroupInfoAndTree)) HttpResponse :=
  id ← decode_id path;
  infos ← get;
  match infos !! id with
  | Some (Some gi) =>
    (if mutex then modify (<[id := None]>) else mret tt);;
    log_id id;;
    out ← unwrap_data (tls_serialize GroupInfoAndTree_codec gi);
    mret {| status := Status_OK; response_body := out |}
  | Some None => log_id id;; mret (finish Forbidden)
  | None => (if mutex then modify (<[id := None]>) else mret tt);; mret (finish NoContent)
  end.

Definition group_exists (path : bytes) : handler DsData HttpResponse :=
  with_group_info (
    id ← decode_id path;
    infos ← get;
    mret {| status := Status_OK;
            response_body := str_bytes (match infos !! id with Some _ => "true" | None => "false" end) |}).

Definition post_group_info (path : bytes) (chunks : list (option bytes)) : handler DsData HttpResponse :=
  input ← lift (read_body chunks);
  with_group_info (
    id ← decode_id path;
    log_id id;;
    gi ← or_bad_request (parse GroupInfoAndTree_codec input);
    modify (<[id := Some gi]>);;
    mret (finish Status_OK)).

(** The inner loop: the first client that reserved the hash gets the message. *)
Fixpoint offer_welcome (welcome_msg : GroupMessage) (hash : bytes) (ids : list bytes) : handler (gmap bytes ClientInfo) bool :=
  match ids with
  | [] => mret false
  | id :: ids =>
    clients ← get;
    match clients !! id with
    | Some client =>
      if decide (hash ∈ reserved_key_pkg_hash client) then
        modify (<[id := set_welcome_queue (welcome_queue client ++ [welcome_msg])
                         (set_reserved (reserved_key_pkg_hash client ∖ {[ hash ]}) client)]>);;
        mret true
      else offer_welcome welcome_msg hash ids
    | None => offer_welcome welcome_msg hash ids
    end
  end.

Fixpoint offer_welcomes (welcome_msg : GroupMessage) (secrets : list bytes) : handler (gmap bytes ClientInfo) HttpResponse :=
  match secrets with
  | [] => mret (finish NoContent)
  | hash :: secrets =>
    clients ← get;
    stored ← offer_welcome welcome_msg hash (hash_order clients);
    if (stored : bool) then mret (finish Status_OK) else offer_welcomes welcome_msg secrets
  end.

Definition send_welcome (chunks : list (option bytes)) : handler DsData HttpResponse :=
  input ← lift (read_body chunks);
  welcome_msg ← unwrap_data (parse GroupMessage_codec input);
  welcome ← unwrap (into_welcome (gm_msg welcome_msg));
  with_clients (offer_welcomes welcome_msg (welcome_new_members welcome)).

(** The epoch check of a handshake message.  The value an insertion replaces is the
    one just read, so the checks of it are left out. *)
Definition check_epoch (header : ProtocolMessage) : handler (gmap bytes ClientInfo * gmap bytes Z) () :=
  if is_handshake_message (pm_content_type header) then
    let epoch := pm_epoch header in
    let group_id := pm_group_id header in
    '(_, groups) ← get;
    match groups !! group_id with
    | Some group_epoch =>
      if epoch <? group_epoch then fail (finish Conflict)
      else modify (fun d => (d.1, <[group_id := epoch]> d.2))
    | None => modify (fun d => (d.1, <[group_id := epoch]> d.2))
    end
  else mret tt.

Definition push_msg (group_msg : GroupMessage) (recipient : bytes) : handler (gmap bytes ClientInfo * gmap bytes Z) () :=
  '(clients, _) ← get;
  match clients !! recipient with
  | Some client => modify (fun d => (<[recipient := set_msgs (msgs client ++ [group_msg]) client]> d.1, d.2))
  | None => fail (finish NotFound)
  end.

Definition store_msg (group_msg : GroupMessage) : handler (gmap bytes ClientInfo * gmap bytes Z) HttpResponse :=
  protocol_msg ← unwrap (ProtocolMessage_try_from (gm_msg group_msg));
  check_epoch (protocol_header protocol_msg);;
  for_each_m (gm_recipients group_msg) (push_msg group_msg);;
  push_msg group_msg (gm_sender group_msg);;
  mret (finish Status_OK).

Definition msg_send (chunks : list (option bytes)) : handler DsData HttpResponse :=
  input ← lift (read_body chunks);
  group_msg ← unwrap_data (parse GroupMessage_codec input);
  with_clients_and_groups (store_msg group_msg).

Definition take_msgs (path : bytes) : handler (gmap bytes ClientInfo) HttpResponse :=
  id ← decode_id path;
  log_id id;;
  clients ← get;
  match clients !! id with
  | Some client =>
    modify (<[id := set_msgs [] (set_welcome_queue [] client)]>);;
    out ← unwrap_data (tls_serialize (vec_u32 GroupMessage_codec) (welcome_queue client ++ msgs client));
    mret {| status := Status_OK; response_body := out |}
  | None => mret (finish NotFound)
  end.

Definition msg_recv (path : bytes) : handler DsData HttpResponse := with_clients (take_msgs path).

(** ** The service *)

Inductive Request :=
| RegisterClient (chunks : list (option bytes))
| ListClients
| Reset
| GetKeyPackages (path : bytes)
| PublishKeyPackages (path : bytes) (chunks : list (option bytes))
| ConsumeKeyPackage (path : bytes)
| GetGroupInfo (path : bytes)
| GroupExists (path : bytes)
| PostGroupInfo (path : bytes) (chunks : list (option bytes))
| SendWelcome (chunks : list (option bytes))
| MsgSend (chunks : list (option bytes))
| MsgRecv (path : bytes).

Definition handle (rq : Request) : handler DsData HttpResponse :=
  match rq with
  | RegisterClient chunks => register_client chunks
  | ListClients => list_clients
  | Reset => reset
  | GetKeyPackages path => get_key_packages path
  | PublishKeyPackages path chunks => publish_key_packages path chunks
  | ConsumeKeyPackage path => consume_key_package path
  | GetGroupInfo path => fun d => with_group_info (get_group_info path (group_info_mutex d)) d
  | GroupExists path => group_exists path
  | PostGroupInfo path chunks => post_group_info path chunks
  | SendWelcome chunks => send_welcome chunks
  | MsgSend chunks => msg_send chunks
  | MsgRecv path => msg_recv path
  end.

(** The response to a request; a panic closes the connection without one. *)
Definition serve (rq : Request) (d : DsData) : option HttpResponse * DsData :=
  let '(o, d) := handle rq d in
  (match o with Ok r => Some r | Err r => Some r | Panic => None end, d).

(** A run of the service, with the state each request was served in. *)
Fixpoint run_service (requests : list Request) (d : DsData) : list (Request * DsData * option HttpResponse) * DsData :=
  match requests with
  | [] => ([], d)
  | rq :: requests =>
    let '(r, d') := serve rq d in
    let '(log, last) := run_service requests d' in ((rq, d, r) :: log, last)
  end.


(** ** Lemmas *)

Lemma read_body_cases chunks : (exists input, read_body chunks = Ok input) \/ read_body chunks = Err (finish PartialContent).
Proof.
  induction chunks as [|[item|] chunks [[input IH]|IH]]; cbn [read_body]; [by left; eexists..| | | |]; rewrite ?IH; [by left; eexists|by right..].
Qed.

(** *** Which parts of the state a request touches *)

Lemma DsData_eta d : set_clients (clients d) d = d /\ set_groups (groups d) (set_clients (clients d) d) = d /\ set_group_info (group_info d) d = d.
Proof. by destruct d. Qed.

Lemma with_clients_frame {A} (c : handler _ A) d : exists m, (with_clients c d).2 = set_clients m d.
Proof.
  unfold with_clients, locked. destruct (poisoned _); [exists (clients d); by rewrite (proj1 (DsData_eta d))|].
  destruct (c _) as [o v]. by eexists.
Qed.

Lemma with_group_info_frame {A} (c : handler _ A) d : exists m, (with_group_info c d).2 = set_group_info m d.
Proof.
  unfold with_group_info, locked. destruct (poisoned _); [exists (group_info d); by rewrite (proj2 (proj2 (DsData_eta d)))|].
  destruct (c _) as [o v]. by eexists.
Qed.

Lemma with_both_frame {A} (c : handler _ A) d : exists m n, (with_clients_and_groups c d).2 = set_groups n (set_clients m d).
Proof.
  unfold with_clients_and_groups. destruct (poisoned _ || poisoned _); [exists (clients d), (groups d); by rewrite (proj1 (proj2 (DsData_eta d)))|].
  destruct (c _) as [o [v w]]. by eexists _, _.
Qed.

(** What happens before the locks are taken leaves the state alone. *)
Lemma lift_frame {S E A B} (P : S -> Prop) (o : outcome E A) (f : A -> method S E B) s :
  P s -> (forall x, P (f x s).2) -> P ((lift o ≫= f) s).2.
Proof. intros Hs Hf. run. destruct o; [apply Hf|done..]. Qed.

Lemma unwrap_lift {S E A} (o : option A) : unwrap (S := S) (E := E) o = lift (match o with Some x => Ok x | None => Panic end).
Proof. done. Qed.

Definition only_clients (d d' : DsData) : Prop := exists m, d' = set_clients m d.
Definition only_group_info (d d' : DsData) : Prop := exists m, d' = set_group_info m d.
Definition only_clients_and_groups (d d' : DsData) : Prop := exists m n, d' = set_groups n (set_clients m d).

Lemma serve_frame rq d :
  match rq with
  | GetGroupInfo _ | GroupExists _ | PostGroupInfo _ _ => only_group_info d (serve rq d).2
  | Reset | MsgSend _ => only_clients_and_groups d (serve rq d).2
  | _ => only_clients d (serve rq d).2
  end.
Proof.
  assert (E : (serve rq d).2 = (handle rq d).2) by (unfold serve; by destruct (handle rq d)). rewrite E. clear E.
  pose proof (DsData_eta d) as (E1 & E2 & E3).
  assert (only_clients d d) by (by eexists). assert (only_group_info d d) by (by eexists).
  assert (only_clients_and_groups d d) by (by eexists _, _).
  destruct rq; cbn [handle];
    unfold register_client, list_clients, reset, get_key_packages, publish_key_packages, consume_key_package, group_exists,
      post_group_info, send_welcome, msg_send, msg_recv, unwrap_data, or_bad_request; rewrite ?unwrap_lift;
    repeat (apply lift_frame; [done|intros ?]; rewrite ?unwrap_lift);
    unfold only_clients, only_group_info, only_clients_and_groups; cbv beta;
    first [apply with_clients_frame | apply with_group_info_frame | apply with_both_frame].
Qed.

(** *** Runs *)

Lemma run_service_cons rq requests d log last : run_service (rq :: requests) d = (log, last) -> exists r d' log',
  serve rq d = (r, d') /\ run_service requests d' = (log', last) /\ log = (rq, d, r) :: log'.
Proof.
  cbn [run_service]. destruct (serve rq d) as [r d'] eqn:E. destruct (run_service requests d') as [log' last'] eqn:E'.
  intros [= <- <-]. by eexists _, _, _.
Qed.


Definition entry : Type := Request * DsData * option HttpResponse.

Definition answered (code : StatusCode -> bool) (r : option HttpResponse) : bool :=
  match r with Some r => code (status r) | None => false end.

Fixpoint count (p : entry -> bool) (log : list entry) : Z :=
  match log with [] => 0 | e :: log => (if p e then 1 else 0) + count p log end.

(** *** The lock on group infos *)

(** A client was given the group info of [id], or told there is no group yet. *)
Definition granted (id : bytes) (e : entry) : bool :=
  let '(rq, _, r) := e in
  match rq with
  | GetGroupInfo path => bool_decide (base64_decode path = Some id) &&
      answered (fun code => match code with Status_OK | NoContent => true | _ => false end) r
  | _ => false
  end.

(** A new group info of [id] was accepted. *)
Definition posted (id : bytes) (e : entry) : bool :=
  let '(rq, _, r) := e in
  match rq with
  | PostGroupInfo path _ => bool_decide (base64_decode path = Some id) &&
      answered (fun code => match code with Status_OK => true | _ => false end) r
  | _ => false
  end.

(** How many clients can still be let in before the next post. *)
Definition tickets (id : bytes) (d : DsData) : Z :=
  match guarded (group_info d) !! id with Some None => 0 | _ => 1 end.

Lemma tickets_range id d : 0 <= tickets id d <= 1.
Proof. unfold tickets. destruct (_ !! id) as [[]|]; lia. Qed.

Lemma tickets_get id path d r d' : group_info_mutex d = true -> serve (GetGroupInfo path) d = (r, d') ->
  (if granted id (GetGroupInfo path, d, r) then 1 else 0) + tickets id d' <= tickets id d.
Proof.
  intros Hm E. pose proof (tickets_range id d) as Ht.
  unfold serve in E. cbn [handle] in E. rewrite Hm in E. unfold with_group_info, locked in E.
  destruct (poisoned (group_info d)); [injection E as <- <-; cbn; rewrite andb_false_r; lia|].
  unfold get_group_info, decode_id in E. run. destruct (base64_decode path) as [id'|] eqn:Eid;
    [|injection E as <- <-; cbn; rewrite andb_false_r; unfold tickets; cbn; lia].
  assert (forall v, tickets id (set_group_info v d) = match guarded v !! id with Some None => 0 | _ => 1 end) as Et by done.
  cbn [granted]. rewrite Eid. unfold log_id, unwrap_data in E. run.
  destruct (decide (id' = id)) as [->|Hne].
  - rewrite bool_decide_eq_true_2 by done. unfold tickets at 2.
    destruct (guarded (group_info d) !! id) as [[gi|]|] eqn:Eg.
    + destruct debug_enabled; [destruct (from_utf8 id)|]; run; try destruct (tls_serialize _ gi); injection E as <- <-;
        (rewrite Et; cbn [guarded]; rewrite lookup_insert_eq; cbn; lia).
    + destruct debug_enabled; [destruct (from_utf8 id)|]; run; injection E as <- <-;
        (rewrite Et; cbn [guarded]; rewrite Eg; cbn; lia).
    + injection E as <- <-. rewrite Et. cbn [guarded]. rewrite lookup_insert_eq. cbn. lia.
  - rewrite bool_decide_eq_false_2 by congruence. cbn [andb]. unfold tickets at 2.
    destruct (guarded (group_info d) !! id') as [[gi|]|] eqn:Eg.
    + destruct debug_enabled; [destruct (from_utf8 id')|]; run; try destruct (tls_serialize _ gi); injection E as <- <-;
        (rewrite Et; cbn [guarded]; rewrite lookup_insert_ne by done; lia).
    + destruct debug_enabled; [destruct (from_utf8 id')|]; run; injection E as <- <-;
        (rewrite Et; cbn [guarded]; lia).
    + injection E as <- <-. rewrite Et. cbn [guarded]. rewrite lookup_insert_ne by done. lia.
Qed.

Lemma tickets_post id path chunks d r d' : serve (PostGroupInfo path chunks) d = (r, d') ->
  tickets id d' <= tickets id d + (if posted id (PostGroupInfo path chunks, d, r) then 1 else 0).
Proof.
  intros E. pose proof (tickets_range id d) as Ht.
  cbn [granted posted].
  unfold serve in E. cbn [handle] in E. unfold post_group_info in E. run. destruct (read_body_cases chunks) as [[input Eb]|Eb]; rewrite Eb in E; run.
  2: { injection E as <- <-. cbn. rewrite andb_false_r. lia. }
  unfold with_group_info, locked in E. destruct (poisoned (group_info d)); [injection E as <- <-; cbn; rewrite andb_false_r; lia|].
  unfold decode_id, log_id, or_bad_request in E. run.
  destruct (base64_decode path) as [id'|] eqn:Eid; [|injection E as <- <-; cbn; unfold tickets in *; cbn; rewrite andb_false_r; lia].
  destruct debug_enabled; [destruct (from_utf8 id')|]; run; try (injection E as <- <-; unfold tickets in *; cbn; rewrite ?andb_false_r; lia).
  all: destruct (parse GroupInfoAndTree_codec input); run; injection E as <- <-; unfold tickets in *; cbn; rewrite ?andb_false_r; try lia;
    (destruct (decide (id' = id)) as [->|]; [rewrite lookup_insert_eq, bool_decide_eq_true_2 by done; cbn; lia|
     rewrite lookup_insert_ne, bool_decide_eq_false_2 by congruence; cbn; lia]).
Qed.

Lemma tickets_step id rq d r d' : group_info_mutex d = true -> serve rq d = (r, d') ->
  group_info_mutex d' = true /\
  (if granted id (rq, d, r) then 1 else 0) + tickets id d' <= tickets id d + (if posted id (rq, d, r) then 1 else 0).
Proof.
  intros Hm E. pose proof (serve_frame rq d) as Hf. rewrite E in Hf. cbn [snd] in Hf.
  destruct rq as [| | | | | |path|path|path chunks| | |];
    try (first [destruct Hf as [m ->]; assert (tickets id (set_clients m d) = tickets id d) as -> by done
               |destruct Hf as (m & n & ->); assert (tickets id (set_groups n (set_clients m d)) = tickets id d) as -> by done];
         split; [done|cbn [granted posted]; lia]).
  - destruct Hf as [m Hm']. split; [by rewrite Hm'|]. pose proof (tickets_get id path d r d' Hm E). cbn [posted]. lia.
  - destruct Hf as [m Hm']. split; [by rewrite Hm'|]. cbn [granted posted]. enough (tickets id d' = tickets id d) by lia.
    unfold serve in E. cbn [handle] in E. unfold group_exists, with_group_info, locked in E.
    destruct (poisoned (group_info d)); [by injection E as <- <-|]. unfold decode_id in E. run.
    destruct (base64_decode path); by injection E as <- <-.
  - destruct Hf as [m Hm']. split; [by rewrite Hm'|]. pose proof (tickets_post id path chunks d r d' E). cbn [granted]. lia.
Qed.

(** *** Sending *)

(** The names up to the first one nobody registered. *)
Fixpoint reached (cl : gmap bytes ClientInfo) (names : list bytes) : list bytes :=
  match names with
  | [] => []
  | name :: names => match cl !! name with Some _ => name :: reached cl names | None => [] end
  end.

Definition copies (id : bytes) (names : list bytes) : nat := length (filter (fun name => name = id) names).

(** The message went to the mailboxes of [names], in that order. *)
Definition deposited (m : GroupMessage) (names : list bytes) (cl cl' : gmap bytes ClientInfo) : Prop :=
  forall id, cl' !! id = (fun c => set_msgs (msgs c ++ replicate (copies id names) m) c) <$> cl !! id.

Lemma set_msgs_nil c : set_msgs (msgs c ++ []) c = c.
Proof. rewrite app_nil_r. by destruct c. Qed.

Lemma deposited_nil m cl : deposited m [] cl cl.
Proof. intros id. destruct (cl !! id) as [c|]; cbn; [|done]. by rewrite set_msgs_nil. Qed.

Lemma deposited_cons m name names cl c cl' : cl !! name = Some c ->
  deposited m names (<[name := set_msgs (msgs c ++ [m]) c]> cl) cl' -> deposited m (name :: names) cl cl'.
Proof.
  intros Ec Hd id. rewrite (Hd id). unfold copies. cbn [filter list_filter]. destruct (decide (name = id)) as [->|Hne].
  - rewrite lookup_insert_eq, Ec. cbn. unfold set_msgs. cbn. by rewrite <- app_assoc.
  - by rewrite lookup_insert_ne by done.
Qed.

Lemma reached_insert cl name c c' names : cl !! name = Some c -> reached (<[name := c']> cl) names = reached cl names.
Proof.
  intros Ec. induction names as [|n names IH]; cbn; [done|]. destruct (decide (name = n)) as [<-|].
  - rewrite lookup_insert_eq, Ec. by rewrite IH.
  - rewrite lookup_insert_ne by done. by rewrite IH.
Qed.

Lemma push_msg_eq m name cl gr : push_msg m name (cl, gr) =
  match cl !! name with
  | Some c => (Ok tt, (<[name := set_msgs (msgs c ++ [m]) c]> cl, gr))
  | None => (Err (finish NotFound), (cl, gr))
  end.
Proof. unfold push_msg. run. by destruct (cl !! name). Qed.

Lemma push_all_spec m names cl gr : exists cl', for_each_m names (push_msg m) (cl, gr) =
    (if bool_decide (reached cl names = names) then Ok tt else Err (finish NotFound), (cl', gr)) /\
  deposited m (reached cl names) cl cl'.
Proof.
  revert cl. induction names as [|name names IH]; intros cl; cbn [for_each_m reached].
  - exists cl. split; [done|apply deposited_nil].
  - run. rewrite push_msg_eq. destruct (cl !! name) as [c|] eqn:Ec.
    + destruct (IH (<[name := set_msgs (msgs c ++ [m]) c]> cl)) as (cl' & E & Hd). rewrite E.
      rewrite (reached_insert _ _ _ _ _ Ec) in *. exists cl'. split; [|by eapply deposited_cons].
      f_equal. destruct (decide (reached cl names = names)) as [Er|Er].
      * by rewrite Er, !bool_decide_eq_true_2.
      * rewrite !bool_decide_eq_false_2; congruence.
    + exists cl. rewrite bool_decide_eq_false_2 by done. split; [done|apply deposited_nil].
Qed.

Lemma for_each_snoc {S E A} (l : list A) x (c : A -> method S E ()) s :
  for_each_m (l ++ [x]) c s = (for_each_m l c ≫= fun _ => c x) s.
Proof.
  revert s. induction l as [|y l IH]; intros s; cbn [app for_each_m].
  - run. by destruct (c x s) as [[[]| |] s'].
  - run. destruct (c y s) as [[[]| |] s']; [|done..]. rewrite IH. run. done.
Qed.

(** The names a message is stored for, in order. *)
Definition addressees (m : GroupMessage) : list bytes := gm_recipients m ++ [gm_sender m].

Definition outdated (gr : gmap bytes Z) (header : ProtocolMessage) : bool :=
  is_handshake_message (pm_content_type header) &&
  match gr !! pm_group_id header with Some e => pm_epoch header <? e | None => false end.

Definition recorded (header : ProtocolMessage) (gr : gmap bytes Z) : gmap bytes Z :=
  if is_handshake_message (pm_content_type header) then <[pm_group_id header := pm_epoch header]> gr else gr.

Lemma store_msg_spec m cl gr :
  match ProtocolMessage_try_from (gm_msg m) with
  | None => store_msg m (cl, gr) = (Panic, (cl, gr))
  | Some pm =>
    let header := protocol_header pm in
    if outdated gr header then store_msg m (cl, gr) = (Err (finish Conflict), (cl, gr))
    else exists cl', store_msg m (cl, gr) =
        (if bool_decide (reached cl (addressees m) = addressees m) then Ok (finish Status_OK) else Err (finish NotFound),
         (cl', recorded header gr)) /\
      deposited m (reached cl (addressees m)) cl cl'
  end.
Proof.
  unfold store_msg, outdated, recorded. destruct (ProtocolMessage_try_from (gm_msg m)) as [pm|]; [|done].
  set (header := protocol_header pm). cbn zeta.
  assert (forall gr', exists cl', (for_each_m (gm_recipients m) (push_msg m) ≫= fun _ => push_msg m (gm_sender m) ≫= fun _ => mret (finish Status_OK)) (cl, gr') =
      (if bool_decide (reached cl (addressees m) = addressees m) then Ok (finish Status_OK) else Err (finish NotFound), (cl', gr')) /\
      deposited m (reached cl (addressees m)) cl cl') as Hp.
  { intros gr'. destruct (push_all_spec m (addressees m) cl gr') as (cl' & E & Hd). exists cl'. split; [|done].
    unfold addressees in E at 1. rewrite for_each_snoc in E. run.
    destruct (for_each_m (gm_recipients m) (push_msg m) (cl, gr')) as [[[]| |] s'];
      [destruct (push_msg m (gm_sender m) s') as [[[]| |] s'']|..]; injection E as E ->; destruct (bool_decide _); by simplify_eq. }
  unfold check_epoch. unfold unwrap. run. fold header.
  destruct (is_handshake_message (pm_content_type header)); cbn [andb]; run.
  - destruct (gr !! pm_group_id header) as [e|].
    + destruct (pm_epoch header <? e); [done|]. run. apply Hp.
    + run. apply Hp.
  - apply Hp.
Qed.

Definition sent_message (chunks : list (option bytes)) : option GroupMessage :=
  match read_body chunks with
  | Ok input => match parse GroupMessage_codec input with Ok m => Some m | _ => None end
  | _ => None
  end.

(** The message a request stored, for at least some of its addressees. *)
Definition stored_message (e : entry) : option GroupMessage :=
  let '(rq, _, r) := e in
  match rq with
  | MsgSend chunks =>
    if answered (fun code => match code with Status_OK | NotFound => true | _ => false end) r then sent_message chunks else None
  | _ => None
  end.

Lemma send_step chunks d r d' : serve (MsgSend chunks) d = (r, d') ->
  match stored_message (MsgSend chunks, d, r) with
  | Some m => exists pm, ProtocolMessage_try_from (gm_msg m) = Some pm /\
      outdated (guarded (groups d)) (protocol_header pm) = false /\
      guarded (groups d') = recorded (protocol_header pm) (guarded (groups d)) /\
      deposited m (reached (guarded (clients d)) (addressees m)) (guarded (clients d)) (guarded (clients d'))
  | None => guarded (groups d') = guarded (groups d) /\ guarded (clients d') = guarded (clients d)
  end.
Proof.
  unfold serve, stored_message, sent_message. cbn [handle]. unfold msg_send, unwrap_data. run.
  destruct (read_body_cases chunks) as [[input ->]| ->]; run; [|by intros [= <- <-]].
  destruct (parse GroupMessage_codec input) as [m| |]; run; [|by intros [= <- <-]..].
  unfold with_clients_and_groups. destruct (poisoned (clients d) || poisoned (groups d)); [by intros [= <- <-]|].
  pose proof (store_msg_spec m (guarded (clients d)) (guarded (groups d))) as Hs.
  destruct (ProtocolMessage_try_from (gm_msg m)) as [pm|] eqn:Epm; [|rewrite Hs; by intros [= <- <-]]. cbn zeta in Hs.
  destruct (outdated (guarded (groups d)) (protocol_header pm)) eqn:Eo; [rewrite Hs; by intros [= <- <-]|].
  destruct Hs as (cl' & -> & Hd). destruct (bool_decide _); intros [= <- <-]; cbn [answered status finish]; by exists pm.
Qed.

(** *** Epochs *)

(** The epoch of a handshake message of group [gid] that was stored. *)
Definition stored_epoch (gid : bytes) (e : entry) : option Z :=
  m ← stored_message e;
  pm ← ProtocolMessage_try_from (gm_msg m);
  let header := protocol_header pm in
  if is_handshake_message (pm_content_type header) && bool_decide (pm_group_id header = gid) then Some (pm_epoch header) else None.

Lemma epoch_step gid rq d r d' : rq <> Reset -> serve rq d = (r, d') ->
  match stored_epoch gid (rq, d, r) with
  | Some e => guarded (groups d') !! gid = Some e /\ (forall e0, guarded (groups d) !! gid = Some e0 -> e0 <= e)
  | None => guarded (groups d') !! gid = guarded (groups d) !! gid
  end.
Proof.
  intros Hrq E. pose proof (serve_frame rq d) as Hf. rewrite E in Hf. cbn [snd] in Hf.
  destruct rq as [| | | | | | | | | |chunks|]; try done; try (by destruct Hf as [m ->]).
  pose proof (send_step chunks d r d' E) as Hs. unfold stored_epoch. destruct (stored_message _) as [m|]; cbn [mbind option_bind].
  2: { by rewrite (proj1 Hs). }
  destruct Hs as (pm & -> & Ho & -> & _). cbn [mbind option_bind]. unfold outdated, recorded in *.
  destruct (is_handshake_message _); cbn [andb] in *; [|done].
  destruct (decide (pm_group_id (protocol_header pm) = gid)) as [<-|Hne].
  - rewrite bool_decide_eq_true_2 by done. rewrite lookup_insert_eq. split; [done|]. intros e0 E0. rewrite E0 in Ho. lia.
  - rewrite bool_decide_eq_false_2 by done. by rewrite lookup_insert_ne.
Qed.

(** *** Mailboxes *)

(** The request neither empties the service nor registers [id] again. *)
Definition keeps (id : bytes) (rq : Request) : Prop :=
  match rq with
  | Reset => False
  | RegisterClient chunks => forall input info, read_body chunks = Ok input -> parse ClientInfo_codec input = Ok info -> client_id info <> id
  | _ => True
  end.

(** The copies of a message a request puts into the mailbox of [id]. *)
Definition addressed (id : bytes) (e : entry) : list GroupMessage :=
  match stored_message e with
  | Some m => replicate (copies id (reached (guarded (clients e.1.2)) (addressees m))) m
  | None => []
  end.

(** The path names [id], and logging it does not panic. *)
Definition names (path id : bytes) : bool :=
  bool_decide (base64_decode path = Some id) && (negb debug_enabled || bool_decide (from_utf8 id <> None)).

(** The messages a request takes out of the mailbox of [id]. *)
Definition drained (id : bytes) (e : entry) : list GroupMessage :=
  let '(rq, d, _) := e in
  match rq with
  | MsgRecv path =>
    if names path id && negb (poisoned (clients d))
    then match guarded (clients d) !! id with Some c => msgs c | None => [] end
    else []
  | _ => []
  end.

Lemma offer_welcome_msgs m hash ids cl o cl' id c : offer_welcome m hash ids cl = (o, cl') -> cl !! id = Some c ->
  exists c', cl' !! id = Some c' /\ msgs c' = msgs c.
Proof.
  revert cl. induction ids as [|i ids IH]; intros cl; cbn [offer_welcome]; run; [intros [= <- <-]; by exists c|].
  destruct (cl !! i) as [ci|] eqn:Ei; [|apply IH]. destruct (decide _); [|apply IH]. intros [= <- <-] Ec.
  destruct (decide (i = id)) as [->|]; [rewrite lookup_insert_eq|rewrite lookup_insert_ne by done; by exists c].
  eexists. split; [done|]. cbn. congruence.
Qed.

Lemma offer_welcomes_msgs m secrets cl o cl' id c : offer_welcomes m secrets cl = (o, cl') -> cl !! id = Some c ->
  exists c', cl' !! id = Some c' /\ msgs c' = msgs c.
Proof.
  revert cl c. induction secrets as [|hash secrets IH]; intros cl c; cbn [offer_welcomes]; run; [intros [= <- <-]; by exists c|].
  destruct (offer_welcome m hash (hash_order cl) cl) as [o1 cl1] eqn:E1. intros E Ec.
  destruct (offer_welcome_msgs _ _ _ _ _ _ _ _ E1 Ec) as (c1 & Ec1 & Em1).
  destruct o1 as [[]| |]; [injection E as <- <-; by exists c1| |injection E as <- <-; by exists c1..].
  destruct (IH _ _ E Ec1) as (c2 & Ec2 & Em2). exists c2. split; [done|congruence].
Qed.

Lemma with_clients_case {A} (c : handler (gmap bytes ClientInfo) A) d o d' : with_clients c d = (o, d') ->
  (poisoned (clients d) = true /\ o = Err (finish InternalServerError) /\ d' = d) \/
  (poisoned (clients d) = false /\ c (guarded (clients d)) = (o, guarded (clients d'))).
Proof.
  unfold with_clients, locked. destruct (poisoned (clients d)); [intros [= <- <-]; by left|].
  destruct (c _) as [o' v]. intros [= <- <-]. by right.
Qed.

(** A client's mailbox stays as it is. *)
Definition mailbox_kept (id : bytes) (cl cl' : gmap bytes ClientInfo) : Prop :=
  forall c, cl !! id = Some c -> exists c', cl' !! id = Some c' /\ msgs c' = msgs c.

Lemma mailbox_kept_refl id cl : mailbox_kept id cl cl.
Proof. intros c Ec. by exists c. Qed.

Lemma mailbox_kept_insert id cl i ci ci' : cl !! i = Some ci -> msgs ci' = msgs ci -> mailbox_kept id cl (<[i := ci']> cl).
Proof.
  intros Ei Em c Ec. destruct (decide (i = id)) as [->|]; [rewrite lookup_insert_eq|rewrite lookup_insert_ne by done; by exists c].
  exists ci'. split; [done|]. congruence.
Qed.

Lemma consume_kp_msgs c o c' : consume_kp c = (o, c') -> msgs c' = msgs c.
Proof. unfold consume_kp. run. destruct (_ <=? _)%nat; [by intros [= <- <-]|]. destruct (_ !! _) as [[]|]; by intros [= <- <-]. Qed.

(** A handler of the clients' map that keeps the mailbox of [id], whatever it
    answers. *)
Lemma with_clients_kept {A} (id : bytes) (c : handler (gmap bytes ClientInfo) A) d :
  (forall cl, mailbox_kept id cl (c cl).2) -> mailbox_kept id (guarded (clients d)) (guarded (clients (with_clients c d).2)).
Proof.
  intros Hc. destruct (with_clients c d) as [o d'] eqn:E. apply with_clients_case in E as [(_ & _ & ->)|[_ E]]; [apply mailbox_kept_refl|].
  specialize (Hc (guarded (clients d))). by rewrite E in Hc.
Qed.

Lemma key_handlers_kept id path chunks cl d :
  mailbox_kept id (guarded (clients d)) (guarded (clients (get_key_packages path d).2)) /\
  mailbox_kept id (guarded (clients d)) (guarded (clients (publish_key_packages path chunks d).2)) /\
  mailbox_kept id (guarded (clients d)) (guarded (clients (consume_key_package path d).2)) /\
  mailbox_kept id cl cl.
Proof.
  pose proof (mailbox_kept_refl id) as Hr. split_and!; [| | |done].
  - apply with_clients_kept. intros cl'. unfold decode_id, unwrap_data. run. destruct (base64_decode path) as [i|]; run; [|done].
    destruct (cl' !! i) as [ci|]; run; [|done]. by destruct (tls_serialize _ _).
  - unfold publish_key_packages. apply lift_frame; [done|]. intros input.
    apply with_clients_kept. intros cl'. unfold decode_id, or_bad_request. run. destruct (base64_decode path) as [i|]; run; [|done].
    destruct (cl' !! i) as [ci|] eqn:Ei; run; [|done]. destruct (parse key_packages_codec input); run; [|done..].
    by eapply mailbox_kept_insert.
  - apply with_clients_kept. intros cl'. unfold decode_id, unwrap_data. run. destruct (base64_decode path) as [i|]; run; [|done].
    destruct (cl' !! i) as [ci|] eqn:Ei; run; [|done]. destruct (consume_kp ci) as [o ci'] eqn:Ek. apply consume_kp_msgs in Ek.
    destruct o; run; try destruct (tls_serialize _ _); cbn [snd]; by eapply mailbox_kept_insert.
Qed.

(** Requests that neither send nor receive messages leave the mailboxes alone. *)
Lemma quiet_step id rq d : keeps id rq -> (forall chunks, rq <> MsgSend chunks) -> (forall path, rq <> MsgRecv path) ->
  mailbox_kept id (guarded (clients d)) (guarded (clients (serve rq d).2)).
Proof.
  intros Hk Hs Hr. pose proof (serve_frame rq d) as Hf. pose proof (mailbox_kept_refl id) as Hrefl.
  assert (E : (serve rq d).2 = (handle rq d).2) by (unfold serve; by destruct (handle rq d)). rewrite E in *. clear E.
  destruct rq as [chunks| | |path|path chunks|path| | | |chunks|chunks|path]; try done; try (by destruct Hf as [m ->]); cbn [handle].
  - unfold register_client, or_bad_request. run. destruct (read_body chunks) as [input| |] eqn:Eb; run; [|done..].
    destruct (parse ClientInfo_codec input) as [info| |] eqn:Ei; run; [|done..].
    apply with_clients_kept. intros cl c Ec. assert (client_id info <> id) as Hne by exact (Hk _ _ Eb Ei).
    run. destruct (cl !! client_id info); cbn [snd]; (rewrite lookup_insert_ne by done; by exists c).
  - apply with_clients_kept. intros cl. unfold unwrap_data. run. by destruct (tls_serialize _ _).
  - apply (key_handlers_kept id path [] ∅ d).
  - apply (key_handlers_kept id path chunks ∅ d).
  - apply (key_handlers_kept id path [] ∅ d).
  - unfold send_welcome, unwrap_data. apply lift_frame; [done|]. intros input. apply lift_frame; [done|]. intros m. rewrite unwrap_lift.
    apply lift_frame; [done|]. intros w. apply with_clients_kept. intros cl c Ec.
    destruct (offer_welcomes m (welcome_new_members w) cl) as [o cl'] eqn:Eo. by eapply offer_welcomes_msgs.
  - by destruct (Hs chunks).
  - by destruct (Hr path).
Qed.

Lemma take_msgs_named path id cl : names path id = true -> take_msgs path cl =
  match cl !! id with
  | Some c => (match tls_serialize (vec_u32 GroupMessage_codec) (welcome_queue c ++ msgs c) with
               | Ok out => Ok {| status := Status_OK; response_body := out |}
               | Err _ => Err (finish InternalServerError)
               | Panic => Panic
               end, <[id := set_msgs [] (set_welcome_queue [] c)]> cl)
  | None => (Ok (finish NotFound), cl)
  end.
Proof.
  unfold names, take_msgs, decode_id, log_id, unwrap_data, unwrap. intros [Hb%bool_decide_eq_true Hl]%andb_prop. rewrite Hb. run.
  destruct debug_enabled; cbn [negb orb] in Hl; [apply bool_decide_eq_true in Hl; destruct (from_utf8 id); [|done]|]; run;
    (destruct (cl !! id) as [c|]; [by destruct (tls_serialize _ _)|done]).
Qed.

Lemma take_msgs_other path id cl : names path id = false -> mailbox_kept id cl (take_msgs path cl).2 /\
  (base64_decode path = Some id -> (take_msgs path cl).1 = Panic).
Proof.
  unfold names, take_msgs, decode_id, log_id, unwrap_data, unwrap. intros Hn. run. pose proof (mailbox_kept_refl id cl) as Hr.
  destruct (base64_decode path) as [i|]; run; [|done]. destruct (decide (i = id)) as [->|Hne].
  - rewrite bool_decide_eq_true_2 in Hn by done. destruct debug_enabled; cbn in Hn; [|done]. destruct (from_utf8 id); run; [|done].
    by rewrite bool_decide_eq_true_2 in Hn.
  - assert (mailbox_kept id cl (match cl !! i with Some c => <[i := set_msgs [] (set_welcome_queue [] c)]> cl | None => cl end)) as Hk.
    { intros c Ec. exists c. split; [|done]. destruct (cl !! i); [by rewrite lookup_insert_ne|done]. }
    split; [|congruence]. destruct debug_enabled; [destruct (from_utf8 i)|]; run; try done;
      (destruct (cl !! i) as [ci|]; [by destruct (tls_serialize _ _)|done]).
Qed.

Definition is_ok (r : option HttpResponse) : bool := answered (fun code => match code with Status_OK => true | _ => false end) r.

(** A response to [MsgRecv] carries the welcomes and the messages that were waiting. *)
Definition carries (id : bytes) (e : entry) : Prop :=
  let '(rq, d, r) := e in
  match rq with
  | MsgRecv path => base64_decode path = Some id -> is_ok r = true -> exists c b, guarded (clients d) !! id = Some c /\
      r = Some {| status := Status_OK; response_body := b |} /\
      tls_serialize (vec_u32 GroupMessage_codec) (welcome_queue c ++ drained id e) = Ok b
  | _ => True
  end.

Lemma recv_step id path d r d' : serve (MsgRecv path) d = (r, d') -> forall c, guarded (clients d) !! id = Some c ->
  (exists c', guarded (clients d') !! id = Some c' /\ msgs c = drained id (MsgRecv path, d, r) ++ msgs c') /\
  carries id (MsgRecv path, d, r).
Proof.
  intros E c Ec. unfold serve in E. cbn [handle] in E. destruct (msg_recv path d) as [o d1] eqn:E1. injection E as <- <-.
  unfold carries, drained. apply with_clients_case in E1 as [(-> & -> & ->)|[-> E1]].
  { rewrite andb_false_r. split; [by exists c|done]. }
  cbn [negb]. rewrite andb_true_r, Ec. destruct (names path id) eqn:En.
  - rewrite (take_msgs_named _ _ _ En), Ec in E1. injection E1 as <- <-. split.
    + rewrite lookup_insert_eq. eexists. split; [done|]. cbn. by rewrite app_nil_r.
    + intros _. destruct (tls_serialize _ _) as [b| |] eqn:Es; [|done..]. intros _. by exists c, b.
  - destruct (take_msgs_other path id (guarded (clients d)) En) as [Hk Hp]. rewrite E1 in Hk, Hp. cbn [fst snd] in Hk, Hp. split.
    + destruct (Hk _ Ec) as (c' & ? & ?). by exists c'.
    + intros Hb. by rewrite (Hp Hb).
Qed.

(** *** Poisoned locks *)

Definition wedged (d : DsData) : Prop := poisoned (clients d) = true /\ poisoned (groups d) = true.

Definition uses_clients (rq : Request) : bool :=
  match rq with GetGroupInfo _ | GroupExists _ | PostGroupInfo _ _ => false | _ => true end.

(** No answer, or one that says the request was not carried out. *)
Definition refused (r : option HttpResponse) : bool :=
  match r with
  | None => true
  | Some r => match status r with PartialContent | BadRequest | InternalServerError => true | _ => false end
  end.

Lemma wedged_clients {A} (c : handler (gmap bytes ClientInfo) A) d : wedged d -> with_clients c d = (Err (finish InternalServerError), d).
Proof. intros [Hc _]. unfold with_clients, locked. by rewrite Hc. Qed.

Lemma wedged_both {A} (c : handler (gmap bytes ClientInfo * gmap bytes Z) A) d : wedged d ->
  with_clients_and_groups c d = (Err (finish InternalServerError), d).
Proof. intros [Hc _]. unfold with_clients_and_groups. by rewrite Hc. Qed.

Lemma wedged_step rq d r d' : wedged d -> serve rq d = (r, d') ->
  wedged d' /\ clients d' = clients d /\ (uses_clients rq = true -> refused r = true).
Proof.
  intros Hw E. pose proof (serve_frame rq d) as Hf. rewrite E in Hf. cbn [snd] in Hf.
  assert (forall chunks, (exists input, read_body chunks = Ok input) \/ read_body chunks = Err (finish PartialContent)) as Hb by apply read_body_cases.
  unfold serve in E. destruct rq as [chunks| | |path|path chunks|path| | | |chunks|chunks|path]; try (destruct Hf as [m ->]; done); clear Hf; cbn [handle] in E.
  - unfold register_client, or_bad_request in E. run. destruct (Hb chunks) as [[input Ei]|Ei]; rewrite Ei in E; [|by injection E as <- <-].
    destruct (parse ClientInfo_codec input) as [info| |]; [|by injection E as <- <-..]. rewrite wedged_clients in E by done. by injection E as <- <-.
  - unfold list_clients in E. rewrite wedged_clients in E by done. by injection E as <- <-.
  - unfold reset in E. rewrite wedged_both in E by done. by injection E as <- <-.
  - unfold get_key_packages in E. rewrite wedged_clients in E by done. by injection E as <- <-.
  - unfold publish_key_packages in E. run. destruct (Hb chunks) as [[input Ei]|Ei]; rewrite Ei in E; [|by injection E as <- <-].
    rewrite wedged_clients in E by done. by injection E as <- <-.
  - unfold consume_key_package in E. rewrite wedged_clients in E by done. by injection E as <- <-.
  - unfold send_welcome, unwrap_data in E. run. destruct (Hb chunks) as [[input Ei]|Ei]; rewrite Ei in E; [|by injection E as <- <-].
    destruct (parse GroupMessage_codec input) as [m| |]; [|by injection E as <- <-..]. unfold unwrap in E.
    destruct (into_welcome (gm_msg m)) as [w|]; [|by injection E as <- <-]. rewrite wedged_clients in E by done. by injection E as <- <-.
  - unfold msg_send, unwrap_data in E. run. destruct (Hb chunks) as [[input Ei]|Ei]; rewrite Ei in E; [|by injection E as <- <-].
    destruct (parse GroupMessage_codec input) as [m| |]; [|by injection E as <- <-..]. rewrite wedged_both in E by done. by injection E as <- <-.
  - unfold msg_recv in E. rewrite wedged_clients in E by done. by injection E as <- <-.
Qed.

Lemma mailbox_step id rq d r d' c : keeps id rq -> serve rq d = (r, d') -> guarded (clients d) !! id = Some c ->
  (exists c', guarded (clients d') !! id = Some c' /\ msgs c ++ addressed id (rq, d, r) = drained id (rq, d, r) ++ msgs c') /\
  carries id (rq, d, r).
Proof.
  intros Hk E Ec.
  pose proof (quiet_step id rq d Hk) as Hq. rewrite E in Hq. cbn [snd] in Hq.
  destruct rq as [chunks| | |path|path chunks|path|path|path|path chunks|chunks|chunks|path];
    try (destruct (Hq ltac:(done) ltac:(done) c Ec) as (c' & Ec' & Em); split; [|done]; exists c'; split; [done|];
         cbn [addressed stored_message drained]; by rewrite app_nil_r, Em).
  - pose proof (send_step chunks d r d' E) as Hs. split; [|done]. unfold addressed. cbn [fst snd drained app].
    destruct (stored_message (MsgSend chunks, d, r)) as [m|].
    + destruct Hs as (pm & _ & _ & _ & Hdep). rewrite (Hdep id), Ec. by eexists.
    + rewrite (proj2 Hs). exists c. by rewrite app_nil_r.
  - destruct (recv_step id path d r d' E c Ec) as [(c' & Ec' & Em) Hc]. split; [|done]. exists c'. split; [done|].
    cbn [addressed stored_message]. by rewrite app_nil_r.
Qed.

(** ** Theorems *)

(** C25: the group info lock is exclusive: with the lock enabled, however requests of
    different clients are interleaved, between two clients that were let in (given
    the group info, or told that the group does not exist) somebody posted a new
    one. *)
Theorem group_info_exclusive id requests d log last : group_info_mutex d = true -> run_service requests d = (log, last) ->
  count (granted id) log <= count (posted id) log + tickets id d.
Proof.
  enough (Hcount : group_info_mutex d = true -> run_service requests d = (log, last) ->
    count (granted id) log + tickets id last <= count (posted id) log + tickets id d).
  { intros Hm E. pose proof (tickets_range id last). specialize (Hcount Hm E). lia. }
  revert d log. induction requests as [|rq requests IH]; intros d log Hm.
  - intros [= <- <-]. cbn. lia.
  - intros (r & d' & log' & E & E' & ->)%run_service_cons. destruct (tickets_step id rq d r d' Hm E) as [Hm' Hs].
    specialize (IH d' log' Hm' E'). cbn [count]. lia.
Qed.

(** C24: the mailbox of a registered client is a queue: as long as nobody resets the
    service or registers the client again, what was in it and what is stored for
    the client come out in that order, once, and a successful reception carries
    exactly what is taken out, after the waiting welcomes. *)
Theorem mailbox_fifo id requests d log last c : Forall (keeps id) requests -> run_service requests d = (log, last) ->
  guarded (clients d) !! id = Some c ->
  (exists c', guarded (clients last) !! id = Some c' /\
     msgs c ++ concat (map (addressed id) log) = concat (map (drained id) log) ++ msgs c') /\
  Forall (carries id) log.
Proof.
  intros Hk. revert d log c. induction Hk as [|rq requests Hrq _ IH]; intros d log c.
  - intros [= <- <-] Ec. split; [|constructor]. exists c. by rewrite app_nil_r.
  - intros (r & d' & log' & E & E' & ->)%run_service_cons Ec.
    destruct (mailbox_step id rq d r d' c Hrq E Ec) as [(c1 & Ec1 & Em) Hc].
    destruct (IH _ _ _ E' Ec1) as [(c' & Ec' & Em') Hcs]. split; [|by constructor]. exists c'. split; [done|].
    cbn [map concat]. by rewrite app_assoc, Em, <- app_assoc, Em', app_assoc.
Qed.

(** C26: the service never goes back to an older epoch: without a reset, the epochs
    of the handshake messages it stores for a group do not decrease, and it
    remembers the latest. *)
Theorem epochs_ordered gid requests d log last : Forall (fun rq => rq <> Reset) requests -> run_service requests d = (log, last) ->
  let epochs := option_list (guarded (groups d) !! gid) ++ omap (stored_epoch gid) log in
  StronglySorted Z.le epochs /\ guarded (groups last) !! gid = list.last epochs.
Proof.
  intros Hr. revert d log. induction Hr as [|rq requests Hrq _ IH]; intros d log.
  - intros [= <- <-]. cbn. rewrite app_nil_r. destruct (guarded (groups d) !! gid); cbn; split; repeat constructor.
  - intros (r & d' & log' & E & E' & ->)%run_service_cons. destruct (IH _ _ E') as [Hs Hl]. clear IH.
    pose proof (epoch_step gid rq d r d' Hrq E) as Hst. cbn [omap list_omap].
    destruct (stored_epoch gid (rq, d, r)) as [e|]; [|by rewrite Hst in Hs, Hl].
    destruct Hst as [Hg Hle]. rewrite Hg in Hs, Hl. cbn [option_list app] in Hs, Hl.
    destruct (guarded (groups d) !! gid) as [e0|]; cbn [option_list app]; [|done]. specialize (Hle e0 eq_refl). split.
    + constructor; [done|]. constructor; [done|]. apply StronglySorted_inv in Hs as [_ Hf]. eapply Forall_impl; [exact Hf|]. cbn. lia.
    + rewrite Hl. by destruct (omap (stored_epoch gid) log').
Qed.

(** A message that is neither public nor private, sent to the message endpoint of
    a working service, is answered by closing the connection, and after that the
    service carries out no request that concerns clients, not even a reset. *)
Theorem wrong_message_wedges chunks m requests d log last : poisoned (clients d) = false -> poisoned (groups d) = false ->
  sent_message chunks = Some m -> ProtocolMessage_try_from (gm_msg m) = None ->
  run_service requests (serve (MsgSend chunks) d).2 = (log, last) ->
  (serve (MsgSend chunks) d).1 = None /\ guarded (clients last) = guarded (clients d) /\
  Forall (fun e => uses_clients e.1.1 = true -> refused e.2 = true) log.
Proof.
  intros Hc Hg Hm Hp Hrun.
  assert (exists d', serve (MsgSend chunks) d = (None, d') /\ wedged d' /\ guarded (clients d') = guarded (clients d)) as (d' & E & Hw & <-).
  { unfold serve, sent_message in *. cbn [handle]. unfold msg_send, unwrap_data. run. destruct (read_body chunks) as [input| |]; [|done..].
    destruct (parse GroupMessage_codec input) as [m'| |]; [|done..]. injection Hm as ->. unfold with_clients_and_groups. rewrite Hc, Hg. cbn [orb].
    pose proof (store_msg_spec m (guarded (clients d)) (guarded (groups d))) as Hs. rewrite Hp in Hs. rewrite Hs. by eexists. }
  rewrite E in Hrun |- *. cbn [fst snd] in *. split; [done|]. clear - Hw Hrun.
  revert d' log Hw Hrun. induction requests as [|rq requests IH]; intros d' log Hw.
  - intros [= <- <-]. split; [done|constructor].
  - intros (r & d1 & log' & E & E' & ->)%run_service_cons. destruct (wedged_step rq d' r d1 Hw E) as (Hw1 & Hcl & Hr).
    destruct (IH _ _ Hw1 E') as [Hl Hf]. split; [by rewrite Hl, Hcl|]. by constructor.
Qed.

End Handlers.

(** *** Encodings *)

Context `{!TlsCodecsLaws} `{!PayloadsLaws}.

Lemma group_message_codec_ok : codec_ok GroupMessage_codec.
Proof.
  pose proof (vec_u32_ok _ byte_vec_u32_ok) as Hrec. pose proof (option_codec_ok _ (vec_ok _ byte_vec_u32_ok)) as Hact.
  pose proof (option_codec_ok _ codec_ratchet_tree_ok) as Htree.
  split; [split|].
  - intros x b. cbn [codec_writer GroupMessage_codec tls_serialize tls_serialized_len].
    intros (b1 & r1 & E1 & (b2 & r2 & E2 & (b3 & r3 & E3 & (b4 & b5 & E4 & E5 & ->)%append_serialized_ok & ->)%append_serialized_ok & ->)%append_serialized_ok & ->)%append_serialized_ok.
    rewrite (written_len (codec_writer_ok codec_message_ok) _ _ E1), (written_len (codec_writer_ok byte_vec_u32_ok) _ _ E2),
      (written_len (codec_writer_ok Htree) _ _ E3), (written_len (codec_writer_ok Hrec) _ _ E4), (written_len (codec_writer_ok Hact) _ _ E5).
    rewrite !length_app. lia.
  - intros x b rest. cbn [codec_writer GroupMessage_codec tls_serialize tls_deserialize].
    intros (b1 & r1 & E1 & (b2 & r2 & E2 & (b3 & r3 & E3 & (b4 & b5 & E4 & E5 & ->)%append_serialized_ok & ->)%append_serialized_ok & ->)%append_serialized_ok & ->)%append_serialized_ok.
    rewrite <- !app_assoc, (read_back codec_message_ok _ _ _ E1). cbn [mbind outcome_bind]. rewrite (read_back byte_vec_u32_ok _ _ _ E2). cbn [mbind outcome_bind].
    rewrite (read_back Htree _ _ _ E3). cbn [mbind outcome_bind]. rewrite (read_back Hrec _ _ _ E4). cbn [mbind outcome_bind].
    rewrite (read_back Hact _ _ _ E5). cbn [mbind outcome_bind]. by destruct x.
Qed.

Lemma group_info_codec_ok : codec_ok GroupInfoAndTree_codec.
Proof.
  pose proof (option_codec_ok _ codec_ratchet_tree_ok) as Htree. split; [split|]; intros x b.
  - cbn [codec_writer GroupInfoAndTree_codec tls_serialize tls_serialized_len]. intros (b1 & b2 & E1 & E2 & ->)%append_serialized_ok.
    rewrite (written_len (codec_writer_ok codec_group_info_ok) _ _ E1), (written_len (codec_writer_ok Htree) _ _ E2), length_app. lia.
  - intros rest. cbn [codec_writer GroupInfoAndTree_codec tls_serialize tls_deserialize]. intros (b1 & b2 & E1 & E2 & ->)%append_serialized_ok.
    rewrite <- app_assoc, (read_back codec_group_info_ok _ _ _ E1). cbn [mbind outcome_bind]. rewrite (read_back Htree _ _ _ E2). by destruct x.
Qed.

(** Messages of the service survive their encodings: group messages and group
    infos are read back as they were written, followed by whatever follows them;
    an acknowledgement is when both names are UTF-8, and reading panics when one is
    not; of a client its name and key packages are read back, with empty queues. *)
Theorem ds_codecs_roundtrip :
  codec_ok GroupMessage_codec /\ codec_ok GroupInfoAndTree_codec /\
  (forall a b rest, tls_serialize WelcomeAcknowledgement_codec a = Ok b ->
     tls_deserialize WelcomeAcknowledgement_codec (b ++ rest) =
     if is_utf8 (ack_sender a) && is_utf8 (ack_group a) then Ok (a, rest) else Panic) /\
  (forall c b rest, is_utf8 (client_name c) = true -> tls_serialize ClientInfo_codec c = Ok b ->
     tls_deserialize ClientInfo_codec (b ++ rest) = info ← ClientInfo_new (client_name c) (key_packages c); Ok (info, rest)).
Proof.
  split_and!; [apply group_message_codec_ok|apply group_info_codec_ok| |].
  - intros a b rest. cbn [codec_writer WelcomeAcknowledgement_codec tls_serialize tls_deserialize]. intros (b1 & b2 & E1 & E2 & ->)%append_serialized_ok.
    rewrite <- app_assoc, (read_back byte_vec_u8_ok _ _ _ E1). cbn [mbind outcome_bind]. unfold from_utf8.
    destruct (is_utf8 (ack_sender a)); cbn [mbind outcome_bind andb]; [|done]. rewrite (read_back byte_vec_u8_ok _ _ _ E2). cbn [mbind outcome_bind].
    destruct (is_utf8 (ack_group a)); cbn; [by destruct a|done].
  - intros c b rest Hv. cbn [codec_writer ClientInfo_codec tls_serialize tls_deserialize]. intros (b1 & b2 & E1 & E2 & ->)%append_serialized_ok.
    rewrite <- app_assoc, (read_back byte_vec_u16_ok _ _ _ E1). cbn [mbind outcome_bind].
    pose proof (vec_u32_ok _ (pair_codec_ok _ _ byte_vec_u8_ok codec_key_package_ok)) as Hk. fold key_packages_codec in Hk.
    rewrite (read_back Hk _ _ _ E2). cbn [mbind outcome_bind]. unfold from_utf8_lossy. by rewrite lossy_valid.
Qed.

End Service.

#[global] Arguments mkMutex {T} _ _.
#[global] Arguments poisoned {T} _.
#[global] Arguments guarded {T} _.

(** ** Witnesses *)

Fixpoint toy_write_list {A} (c : Codec A) (l : list A) : outcome TlsError bytes :=
  match l with
  | [] => Ok [0]
  | x :: l => append_serialized (Ok [1]) (append_serialized (tls_serialize c x) (toy_write_list c l))
  end.

Fixpoint toy_read_list {A} (c : Codec A) (fuel : nat) (input : bytes) : outcome TlsError (list A * bytes) :=
  match fuel, input with
  | S fuel, 1 :: input => '(x, input) ← tls_deserialize c input; '(l, input) ← toy_read_list c fuel input; Ok (x :: l, input)
  | _, 0 :: input => Ok ([], input)
  | _, _ => Err EndOfStream
  end.

Definition toy_list {A} (c : Codec A) : Codec (list A) := {|
  codec_writer := {|
    tls_serialize := toy_write_list c;
    tls_serialized_len l := 1 + foldr Z.add 0 (map (fun x => 1 + tls_serialized_len c x) l) |};
  tls_deserialize input := toy_read_list c (length input) input |}.

Lemma toy_list_ok {A} (c : Codec A) : codec_ok c -> codec_ok (toy_list c).
Proof.
  intros Hc. split; [split|].
  - intros l. induction l as [|x l IH]; intros b; cbn [toy_list codec_writer tls_serialize toy_write_list]; [by intros [= <-]|].
    intros (b1 & r & [= <-] & (b2 & b3 & E2 & E3 & ->)%append_serialized_ok & ->)%append_serialized_ok.
    specialize (IH _ E3). cbn [toy_list codec_writer tls_serialized_len map foldr] in *.
    rewrite (written_len (codec_writer_ok Hc) _ _ E2), !length_app. cbn [length]. lia.
  - intros l b rest E. cbn [toy_list tls_deserialize codec_writer tls_serialize] in *. assert (length b <= length (b ++ rest))%nat as Hl by (rewrite length_app; lia).
    revert Hl. generalize (length (b ++ rest)) as fuel. revert b rest E. induction l as [|x l IH]; intros b rest; cbn [toy_write_list].
    + intros [= <-] fuel. by destruct fuel.
    + intros (b1 & r & [= <-] & (b2 & b3 & E2 & E3 & ->)%append_serialized_ok & ->)%append_serialized_ok fuel. cbn [app length]. intros Hl.
      destruct fuel as [|fuel]; [lia|]. cbn [toy_read_list]. rewrite <- app_assoc, (read_back Hc _ _ _ E2). cbn [mbind outcome_bind].
      rewrite length_app in Hl. by rewrite (IH b3 rest E3 fuel ltac:(lia)).
Qed.

Definition toy_option {A} (c : Codec A) : Codec (option A) := {|
  codec_writer := {|
    tls_serialize o := match o with Some x => append_serialized (Ok [1]) (tls_serialize c x) | None => Ok [0] end;
    tls_serialized_len o := match o with Some x => 1 + tls_serialized_len c x | None => 1 end |};
  tls_deserialize input := match input with
    | 0 :: input => Ok (None, input)
    | 1 :: input => '(x, input) ← tls_deserialize c input; Ok (Some x, input)
    | _ => Err DecodingError
    end |}.

Lemma toy_option_ok {A} (c : Codec A) : codec_ok c -> codec_ok (toy_option c).
Proof.
  intros Hc. split; [split|]; intros [x|] b; cbn [toy_option codec_writer tls_serialize tls_serialized_len tls_deserialize];
    try (by intros [= <-]); try (by intros rest [= <-]).
  - intros (b1 & b2 & [= <-] & E & ->)%append_serialized_ok. rewrite (written_len (codec_writer_ok Hc) _ _ E). cbn [app length]. lia.
  - intros rest (b1 & b2 & [= <-] & E & ->)%append_serialized_ok. cbn [app]. by rewrite (read_back Hc _ _ _ E).
Qed.

Definition toy_pair {A B} (c : Codec A) (d : Codec B) : Codec (A * B) := {|
  codec_writer := {|
    tls_serialize p := append_serialized (tls_serialize c p.1) (tls_serialize d p.2);
    tls_serialized_len p := tls_serialized_len c p.1 + tls_serialized_len d p.2 |};
  tls_deserialize input := '(x, input) ← tls_deserialize c input; '(y, input) ← tls_deserialize d input; Ok ((x, y), input) |}.

Lemma toy_pair_ok {A B} (c : Codec A) (d : Codec B) : codec_ok c -> codec_ok d -> codec_ok (toy_pair c d).
Proof.
  intros Hc Hd. split; [split|]; intros [x y] b; cbn [toy_pair codec_writer tls_serialize tls_serialized_len tls_deserialize fst snd].
  - intros (b1 & b2 & E1 & E2 & ->)%append_serialized_ok.
    rewrite (written_len (codec_writer_ok Hc) _ _ E1), (written_len (codec_writer_ok Hd) _ _ E2), length_app. lia.
  - intros rest (b1 & b2 & E1 & E2 & ->)%append_serialized_ok. rewrite <- app_assoc, (read_back Hc _ _ _ E1). cbn [mbind outcome_bind].
    by rewrite (read_back Hd _ _ _ E2).
Qed.

Definition toy_codecs : TlsCodecs := {|
  byte_vec_u8 := toy_bytes; byte_vec_u16 := toy_bytes; byte_vec_u32 := toy_bytes;
  vec_u32 := @toy_list; vec := @toy_list; option_codec := @toy_option; pair_codec := @toy_pair |}.

Lemma toy_codecs_laws : @TlsCodecsLaws toy_codecs.
Proof. split; auto using toy_bytes_ok, (@toy_list_ok), (@toy_option_ok), (@toy_pair_ok). Qed.

#[local] Existing Instance toy_bodies.
#[local] Existing Instance toy_content_dec.
#[local] Existing Instance toy_content_countable.

#[local] Instance toy_auth_dec : EqDecision FramedContentAuthData.
Proof. solve_decision. Defined.
#[local] Instance toy_auth_countable : Countable FramedContentAuthData.
Proof. apply (inj_countable' (fun a => (auth_signature a, auth_confirmation_tag a)) (fun '(s, t) => mkFramedContentAuthData s t)). by intros []. Defined.
#[local] Instance toy_public_dec : EqDecision PublicMessageIn.
Proof. solve_decision. Defined.
#[local] Instance toy_public_countable : Countable PublicMessageIn.
Proof. apply (inj_countable' (fun m => (pubin_content m, pubin_auth m, pubin_membership_tag m)) (fun '(c, a, t) => mkPublicMessageIn c a t)). by intros []. Defined.
#[local] Instance toy_type_countable : Countable ContentType.
Proof. apply (inj_countable content_code ContentType_try_from). by intros []. Defined.
#[local] Instance toy_private_dec : EqDecision PrivateMessage.
Proof. solve_decision. Defined.
#[local] Instance toy_private_countable : Countable PrivateMessage.
Proof.
  apply (inj_countable' (fun m => (priv_group_id m, priv_epoch m, priv_content_type m, priv_authenticated_data m, priv_encrypted_sender_data m, priv_ciphertext m))
    (fun '(g, e, t, d, s, c) => mkPrivateMessage g e t d s c)). by intros [].
Defined.

Abbreviation ToyMessage := (MlsMessageIn (list bytes) Z bytes).

#[local] Instance toy_version_countable : Countable ProtocolVersion.
Proof.
  apply (inj_countable' (fun v => match v with Mls10 => None | OtherVersion id => Some id end)
    (fun o => match o with None => Mls10 | Some id => OtherVersion id end)). by intros [].
Defined.

#[local] Instance toy_message_body_dec : EqDecision (MlsMessageBodyIn (list bytes) Z bytes).
Proof. solve_decision. Defined.
#[local] Instance toy_message_dec : EqDecision ToyMessage.
Proof. solve_decision. Defined.
#[local] Instance toy_message_countable : Countable ToyMessage.
Proof.
  apply (inj_countable' (fun m : ToyMessage => (msg_version m, match msg_body m with
      | BodyInPublicMessage m => inl (inl m) | BodyInPrivateMessage m => inl (inr m)
      | BodyInWelcome w => inr (inl (inl w)) | BodyInGroupInfo g => inr (inl (inr g)) | BodyInKeyPackage k => inr (inr k) end))
    (fun '(v, b) => mkMlsMessageIn v match b with
      | inl (inl m) => BodyInPublicMessage m | inl (inr m) => BodyInPrivateMessage m
      | inr (inl (inl w)) => BodyInWelcome w | inr (inl (inr g)) => BodyInGroupInfo g | inr (inr k) => BodyInKeyPackage k end)).
  by intros [v []].
Defined.

Definition toy_payloads : @Payloads toy_bodies := {|
  Welcome := list bytes; VerifiableGroupInfo := Z; KeyPackageIn := bytes; RatchetTreeIn := Z;
  codec_message := countable_codec ToyMessage; codec_group_info := countable_codec Z; codec_key_package := toy_bytes;
  codec_ratchet_tree := countable_codec Z; welcome_new_members w := w; key_package_identity k := k |}.

Lemma toy_payloads_laws : @PayloadsLaws toy_bodies toy_payloads.
Proof. split; first [apply toy_bytes_ok | apply countable_codec_ok]. Qed.

Lemma ds_codecs_roundtrip_witness : @codec_ok _ (@GroupMessage_codec toy_codecs toy_bodies toy_payloads).
Proof. exact (proj1 (@ds_codecs_roundtrip toy_codecs toy_bodies toy_payloads toy_codecs_laws toy_payloads_laws)). Defined.

#[local] Existing Instance toy_codecs.
#[local] Existing Instance toy_payloads.

(** Paths are the identifiers themselves; the map's own order; no debug output. *)
Abbreviation toy_serve := (serve (fun path => Some path) (fun m => (map_to_list m).*1) false).
Abbreviation toy_run := (run_service (fun path => Some path) (fun m => (map_to_list m).*1) false).

(** An empty service with the group info lock and two clients. *)
Definition toy_client (id : bytes) : ClientInfo := mkClientInfo id [([1], id); ([2], id)] ∅ id [] [].
Definition toy_service : DsData := {|
  clients := mkMutex false (<[[97] := toy_client [97]]> {[ [98] := toy_client [98] ]}); group_info_mutex := true;
  groups := mkMutex false ∅; group_info := mkMutex false ∅ |}.

(** A commit of epoch [e] of group 7 that client 97 sends to client 98. *)
Definition toy_commit (e : Z) : GroupMessage := mkGroupMessage
  (mkMlsMessageIn Mls10 (BodyInPrivateMessage (mkPrivateMessage [7] e ContentCommit [] [] []))) [97] None [[98]] None.
Definition toy_welcome : GroupMessage := mkGroupMessage (mkMlsMessageIn Mls10 (BodyInWelcome [[1]])) [97] None [[98]] None.
Definition toy_body (m : GroupMessage) : list (option bytes) := [Some (or_else (tls_serialize GroupMessage_codec m) [])].

Definition toy_lock_requests : list Request :=
  [GetGroupInfo [7]; GetGroupInfo [7]; PostGroupInfo [7] [Some (or_else (tls_serialize GroupInfoAndTree_codec (mkGroupInfoAndTree 5 None)) [])];
   GetGroupInfo [7]; GetGroupInfo [7]].

Lemma group_info_exclusive_witness : group_info_mutex toy_service = true /\
  count (granted (fun path => Some path) [7]) (toy_run toy_lock_requests toy_service).1 = 2 /\
  2 <= count (posted (fun path => Some path) [7]) (toy_run toy_lock_requests toy_service).1 + tickets [7] toy_service.
Proof.
  assert (E : count (granted (fun path => Some path) [7]) (toy_run toy_lock_requests toy_service).1 = 2) by (vm_compute; reflexivity).
  refine (conj eq_refl (conj E _)). rewrite <- E. eapply group_info_exclusive; [reflexivity|apply surjective_pairing].
Defined.

Definition toy_mail_requests : list Request :=
  [MsgSend (toy_body (toy_commit 1)); MsgSend (toy_body (toy_commit 2)); MsgRecv [98]; MsgSend (toy_body (toy_commit 0)); MsgSend (toy_body (toy_commit 2))].

Lemma mailbox_fifo_witness : exists c',
  guarded (clients (toy_run toy_mail_requests toy_service).2) !! [98] = Some c' /\
  concat (map (addressed [98]) (toy_run toy_mail_requests toy_service).1) = [toy_commit 1; toy_commit 2; toy_commit 2] /\
  [toy_commit 1; toy_commit 2; toy_commit 2] =
  concat (map (drained (fun path => Some path) false [98]) (toy_run toy_mail_requests toy_service).1) ++ msgs c'.
Proof.
  assert (E : concat (map (addressed [98]) (toy_run toy_mail_requests toy_service).1) = [toy_commit 1; toy_commit 2; toy_commit 2])
    by (vm_compute; reflexivity).
  destruct (mailbox_fifo (fun path => Some path) (fun m => (map_to_list m).*1) false [98] toy_mail_requests toy_service
    (toy_run toy_mail_requests toy_service).1 (toy_run toy_mail_requests toy_service).2 (toy_client [98])) as [(c' & Ec & Em) _].
  - repeat constructor.
  - apply surjective_pairing.
  - vm_compute. reflexivity.
  - exists c'. rewrite E in Em. exact (conj Ec (conj E Em)).
Defined.

Lemma epochs_ordered_witness :
  omap (stored_epoch [7]) (toy_run toy_mail_requests toy_service).1 = [1; 2; 2] /\ StronglySorted Z.le [1; 2; 2].
Proof.
  assert (E : omap (stored_epoch [7]) (toy_run toy_mail_requests toy_service).1 = [1; 2; 2]) by (vm_compute; reflexivity).
  refine (conj E _). rewrite <- E.
  apply (epochs_ordered (fun path => Some path) (fun m => (map_to_list m).*1) false [7] toy_mail_requests toy_service
    (toy_run toy_mail_requests toy_service).1 (toy_run toy_mail_requests toy_service).2).
  - repeat constructor; discriminate.
  - apply surjective_pairing.
Defined.

Lemma wrong_message_wedges_witness :
  (toy_serve (MsgSend (toy_body toy_welcome)) toy_service).1 = None /\
  Forall (fun e => uses_clients e.1.1 = true -> refused e.2 = true)
    (toy_run [Reset; MsgRecv [98]] (toy_serve (MsgSend (toy_body toy_welcome)) toy_service).2).1.
Proof.
  destruct (wrong_message_wedges (fun path => Some path) (fun m => (map_to_list m).*1) false (toy_body toy_welcome) toy_welcome [Reset; MsgRecv [98]] toy_service
    (toy_run [Reset; MsgRecv [98]] (toy_serve (MsgSend (toy_body toy_welcome)) toy_service).2).1
    (toy_run [Reset; MsgRecv [98]] (toy_serve (MsgSend (toy_body toy_welcome)) toy_service).2).2) as (H1 & _ & H3).
  - reflexivity.
  - reflexivity.
  - vm_compute. reflexivity.
  - reflexivity.
  - apply surjective_pairing.
  - exact (conj H1 H3).
Defined.
