(* ===== verification/Orchestrator.v ===== *)
(** * Orchestration of committers

    Models [emulated_client/src/orchestrator.rs] and the parameters it uses
    ([config/mod.rs]): after every commit the members of a group derive from a
    shared seed which of the active members commits next.

    The random number generator ([StdRng]) is a parameter.  The loop that draws
    again runs on fuel: [None] is a loop that has not ended. *)

From stdpp Require Import strings.
From S2P Require Import Prelude Crypto.

(** ** Parameters *)

Inductive AuthorizationPolicy := PolicyRandom | PolicyFirst | PolicyLast.

Definition AuthorizationPolicy_from (policy : string) : AuthorizationPolicy :=
  if decide (policy = "first"%string) then PolicyFirst
  else if decide (policy = "last"%string) then PolicyLast
  else PolicyRandom.

Inductive Paradigm := ParadigmCommit | ParadigmPropose.

Definition Paradigm_from (paradigm : string) : Paradigm :=
  if decide (paradigm = "propose"%string) then ParadigmPropose else ParadigmCommit.

Inductive Directory := DirectoryServer | DirectoryKademlia.

Definition Directory_from (dir : string) : Directory :=
  if decide (dir = "kademlia"%string) then DirectoryKademlia else DirectoryServer.

(** Both numbers are [usize]. *)
Record OrchestratedParameters := mkOrchestratedParameters {
  max_active_committers : Z;
  max_active_processers : Z;
  orchestrated_policy : AuthorizationPolicy
}.

Definition OrchestratedParameters_default : OrchestratedParameters := {|
  max_active_committers := 100; max_active_processers := 100; orchestrated_policy := PolicyRandom |}.

(** [as usize] of an [i64] *)
Definition i64_as_usize (x : Z) : Z := usize_wrap x.

(** The settings that are present, by their keys *)
Definition OrchestratedParameters_new_from_settings (committers processers : option Z) (policy : option string) : OrchestratedParameters := {|
  max_active_committers := i64_as_usize (default (max_active_committers OrchestratedParameters_default) committers);
  max_active_processers := i64_as_usize (default (max_active_processers OrchestratedParameters_default) processers);
  orchestrated_policy := default (orchestrated_policy OrchestratedParameters_default) (AuthorizationPolicy_from <$> policy) |}.

(** ** Random numbers *)

Class RandomSource := {
  StdRng : Type;
  (** [StdRng::from_seed], of 32 bytes *)
  rng_from_seed : bytes -> StdRng;
  (** [gen_range(lo..hi)] of a range that is not empty *)
  rng_gen_range : Z -> Z -> StdRng -> Z * StdRng
}.

Class RandomSourceLaws `{!RandomSource} : Prop := {
  gen_range_bounds lo hi rng : lo < hi -> lo <= (rng_gen_range lo hi rng).1 < hi
}.

(** ** The orchestrator *)

Inductive NextAction := ActInactive | ActListen | ActCommit.

#[export] Instance NextAction_eq_dec : EqDecision NextAction.
Proof. solve_decision. Defined.

Record Orchestrator := mkOrchestrator {
  orch_name : string;
  pending_acks : Z;
  orch_parameters : OrchestratedParameters;
  known_members : list string
}.

Definition set_known (l : list string) (o : Orchestrator) : Orchestrator := {|
  orch_name := orch_name o; pending_acks := pending_acks o; orch_parameters := orch_parameters o; known_members := l |}.
Definition set_pending_acks (n : Z) (o : Orchestrator) : Orchestrator := {|
  orch_name := orch_name o; pending_acks := n; orch_parameters := orch_parameters o; known_members := known_members o |}.

(** [Vec::resize(n, "")] *)
Definition resize_names (n : Z) (l : list string) : list string := resize (Z.to_nat n) ""%string l.

Definition Orchestrator_new (name : string) (parameters : OrchestratedParameters) (members : list string) : Orchestrator := {|
  orch_name := name; pending_acks := 0; orch_parameters := parameters;
  known_members := resize_names (max_active_processers parameters) members |}.

(** [self.known_members[i] = x] *)
Definition assign (i : Z) (x : string) (l : list string) : option (list string) :=
  if (0 <=? i) && (i <? Z.of_nat (length l)) then Some (<[Z.to_nat i := x]> l) else None.

Definition active_amount (l : list string) : Z := Z.of_nat (length (filter (fun x => x <> ""%string) l)).

(** [iter().position(|x| x == name)] *)
Definition position (name : string) (l : list string) : option Z :=
  (fun '(i, _) => Z.of_nat i) <$> list_find (fun x => x = name) l.

Definition seed_array (seed : bytes) : bytes := take 32 seed ++ replicate (32 - length seed) 0.

Section Rounds.
Context `{!RandomSource}.

(** [gen_range] panics on an empty range. *)
Definition gen_range (lo hi : Z) (rng : StdRng) : option (Z * StdRng) :=
  if lo <? hi then Some (rng_gen_range lo hi rng) else None.

(** The body of the loop over the new members; [None] is a panic. *)
Definition add_member (p : OrchestratedParameters) (total_members : Z) (name : string) (s : list string * StdRng) :
    option (list string * StdRng) :=
  let '(known, rng) := s in
  let current_amount_of_active := active_amount known in
  '(sample, rng) ← (match orchestrated_policy p with
    | PolicyFirst => gen_range (Z.min (max_active_committers p) (usize_wrap (total_members - 1))) total_members rng
    | PolicyLast => Some (0, rng)
    | PolicyRandom => gen_range 0 total_members rng
    end);
  let new_position := current_amount_of_active in
  if current_amount_of_active <? max_active_committers p then
    known ← assign new_position name known;
    Some (known, rng)
  else if sample <? max_active_processers p then
    previous_member ← known !! Z.to_nat sample;
    known ← (if bool_decide (previous_member <> ""%string) && (current_amount_of_active <? max_active_processers p)
             then assign new_position previous_member known else Some known);
    known ← assign (Z.min new_position sample) name known;
    Some (known, rng)
  else Some (known, rng).

Fixpoint add_members (p : OrchestratedParameters) (total_members : Z) (names : list string) (s : list string * StdRng) :
    option (list string * StdRng) :=
  match names with
  | [] => Some s
  | name :: names => s ← add_member p total_members name s; add_members p total_members names s
  end.

(** How a draw of the next committer ends: with a position, or not within the fuel. *)
Inductive draw := Drawn (who_acts : Z) | OutOfFuel.

(** The [while] loop; [None] is a panic. *)
Fixpoint reroll (fuel : nat) (bound : Z) (known new_members : list string) (who_acts : Z) (rng : StdRng) : option draw :=
  if (1 <? Z.of_nat (length new_members)) then
    candidate ← known !! Z.to_nat who_acts;
    if decide (candidate ∈ new_members) then
      match fuel with
      | O => Some OutOfFuel
      | S fuel =>
        '(who_acts, rng) ← gen_range 0 bound rng;
        reroll fuel bound known new_members who_acts rng
      end
    else Some (Drawn who_acts)
  else Some (Drawn who_acts).

(** [None] when the fuel does not suffice.  The loops at the end that only log
    inconsistencies are left out. *)
Definition process_commit (fuel : nat) (seed : bytes) (total_members : Z) (new_members : list string) (self : Orchestrator) :
    outcome () (option NextAction) * Orchestrator :=
  let p := orch_parameters self in
  match add_members p total_members new_members (known_members self, rng_from_seed (seed_array seed)) with
  | None => (Panic, self)
  | Some (known, rng) =>
    let self := set_known known self in
    match position (orch_name self) known with
    | None => (Ok (Some ActInactive), self)
    | Some active_position =>
      let bound := Z.min (max_active_committers p) total_members in
      match ('(who_acts, rng) ← gen_range 0 bound rng; reroll fuel bound known new_members who_acts rng) with
      | None => (Panic, self)
      | Some OutOfFuel => (Ok None, self)
      | Some (Drawn who_acts) =>
        if active_position =? who_acts then
          let acks := Z.of_nat (length (filter (fun x => x <> orch_name self) new_members)) in
          (Ok (Some (if acks =? 0 then ActCommit else ActListen)), set_pending_acks acks self)
        else (Ok (Some ActListen), self)
      end
    end
  end.

End Rounds.

Definition remove_members (members_to_remove : list string) (self : Orchestrator) : Orchestrator :=
  match position (orch_name self) (known_members self) with
  | None => self
  | Some _ => set_known (resize_names (max_active_processers (orch_parameters self))
      (filter (fun member => member ∉ members_to_remove) (known_members self))) self
  end.

Definition process_ack (self : Orchestrator) : NextAction * Orchestrator :=
  if pending_acks self =? 0 then (ActListen, self)
  else
    let self := set_pending_acks (pending_acks self - 1) self in
    (if pending_acks self =? 0 then ActCommit else ActListen, self).

(** ** Well-formed slots *)

(** [n] slots, the active members first, all different and with a name. *)
Definition slots (n : nat) (active known : list string) : Prop :=
  known = active ++ replicate (n - length active) ""%string /\ (length active <= n)%nat /\
  Forall (fun x => x <> ""%string) active /\ NoDup active.

(** The limits a group can be run with. *)
Definition limits_ok (p : OrchestratedParameters) : Prop :=
  0 < max_active_committers p <= max_active_processers p /\ max_active_processers p < 2 ^ 63.

Lemma filter_names active n : Forall (fun x => x <> ""%string) active ->
  filter (fun x => x <> ""%string) (active ++ replicate n ""%string) = active.
Proof.
  intros Ha. rewrite filter_app. replace (filter _ (replicate n ""%string)) with (@nil string); [|by induction n].
  rewrite app_nil_r. induction Ha as [|x l Hx _ IH]; [done|]. rewrite filter_cons_True by done. by rewrite IH.
Qed.

Lemma slots_amount n active known : slots n active known -> active_amount known = Z.of_nat (length active) /\ length known = n.
Proof.
  intros (-> & Hl & Ha & _). unfold active_amount. rewrite filter_names by done. split; [done|].
  rewrite length_app, length_replicate. lia.
Qed.


Lemma assign_ok i x l : 0 <= i < Z.of_nat (length l) -> assign i x l = Some (<[Z.to_nat i := x]> l).
Proof. intros Hi. unfold assign. by rewrite (proj2 (Z.leb_le _ _)), (proj2 (Z.ltb_lt _ _)) by lia. Qed.

(** A new name in the first free slot. *)
Lemma slots_append n active known name : slots n active known -> (length active < n)%nat -> name <> ""%string -> name ∉ active ->
  slots n (active ++ [name]) (<[length active := name]> known).
Proof.
  intros (-> & Hl & Ha & Hd) Hlt Hn Hni. split_and!.
  - rewrite insert_app_r_alt by lia. rewrite Nat.sub_diag, length_app. cbn [length].
    destruct (n - length active)%nat as [|k] eqn:E; [lia|]. cbn [replicate]. replace (n - (length active + 1))%nat with k by lia.
    cbn. by rewrite <- app_assoc.
  - rewrite length_app. cbn. lia.
  - apply Forall_app. split; [done|by repeat constructor].
  - apply NoDup_app. split_and!; [done| |repeat constructor; set_solver]. intros x Hx ->%list_elem_of_singleton. done.
Qed.

(** A new name in the place of an active one. *)
Lemma slots_replace n active known i name : slots n active known -> (i < length active)%nat -> name <> ""%string -> name ∉ active ->
  slots n (<[i := name]> active) (<[i := name]> known).
Proof.
  intros (-> & Hl & Ha & Hd) Hi Hn Hni. split_and!.
  - rewrite insert_app_l, length_insert by done. done.
  - by rewrite length_insert.
  - by apply Forall_insert.
  - apply NoDup_alt. intros j k x Hj Hk. rewrite NoDup_alt in Hd.
    apply list_lookup_insert_Some in Hj as [(<- & -> & _)|[Hne Hj]], Hk as [(<- & E & _)|[Hne' Hk]]; try done.
    + apply list_elem_of_lookup_2 in Hk. done.
    + subst. apply list_elem_of_lookup_2 in Hj. done.
    + by eapply Hd.
Qed.

Lemma elem_of_insert_name (i : nat) (name x : string) (active : list string) : x ∈ <[i := name]> active -> x = name \/ x ∈ active.
Proof.
  intros (j & Hj)%list_elem_of_lookup_1. apply list_lookup_insert_Some in Hj as [(_ & -> & _)|[_ Hj]]; [by left|].
  right. by eapply list_elem_of_lookup_2.
Qed.

(** A new name takes the place of an active one, which moves to the first free slot. *)
Lemma slots_displace n active known i name previous : slots n active known -> (i < length active < n)%nat -> active !! i = Some previous ->
  name <> ""%string -> name ∉ active ->
  slots n (<[i := name]> active ++ [previous]) (<[i := name]> (<[length active := previous]> known)).
Proof.
  intros Hs Hi Ep Hn Hni. rewrite list_insert_insert_ne by lia.
  pose proof (slots_replace _ _ _ i name Hs ltac:(lia) Hn Hni) as Hs'.
  assert (previous ∉ <[i := name]> active) as Hpn.
  { intros (j & Hj)%list_elem_of_lookup_1. apply list_lookup_insert_Some in Hj as [(<- & -> & _)|[Hne Hj]].
    - apply Hni. by eapply list_elem_of_lookup_2.
    - destruct Hs as (_ & _ & _ & Hd). rewrite NoDup_alt in Hd. by apply Hne, (Hd _ _ _ Ep Hj). }
  assert (previous <> ""%string) as Hp0 by (destruct Hs as (_ & _ & Hf & _); by apply (Forall_lookup_1 _ _ _ _ Hf Ep)).
  pose proof (slots_append _ _ _ previous Hs' ltac:(rewrite length_insert; lia) Hp0 Hpn) as Hsa. by rewrite length_insert in Hsa.
Qed.

Section Rounds2.
Context `{!RandomSource} `{!RandomSourceLaws}.

Lemma gen_range_ok lo hi rng : lo < hi -> exists x rng', gen_range lo hi rng = Some (x, rng') /\ lo <= x < hi.
Proof.
  intros H1. unfold gen_range. rewrite (proj2 (Z.ltb_lt _ _)) by done. pose proof (gen_range_bounds lo hi rng H1) as Hb.
  destruct (rng_gen_range lo hi rng) as [x rng']. by exists x, rng'.
Qed.

(** The sample that decides about a new member. *)
Lemma sample_ok p total rng : limits_ok p -> 0 < total < 2 ^ 63 -> exists sample rng',
  (match orchestrated_policy p with
   | PolicyFirst => gen_range (Z.min (max_active_committers p) (usize_wrap (total - 1))) total rng
   | PolicyLast => Some (0, rng)
   | PolicyRandom => gen_range 0 total rng
   end) = Some (sample, rng') /\ 0 <= sample /\ (orchestrated_policy p = PolicyLast -> sample = 0).
Proof.
  intros [Hc Hp] Ht. destruct (orchestrated_policy p).
  - destruct (gen_range_ok 0 total rng) as (x & r & E & Hx); [lia|]. exists x, r. split_and!; [done|lia|done].
  - assert (usize_wrap (total - 1) = total - 1) as -> by (unfold usize_wrap; apply Z.mod_small; lia).
    destruct (gen_range_ok (Z.min (max_active_committers p) (total - 1)) total rng) as (x & r & E & Hx); [lia|].
    exists x, r. split_and!; [done|lia|done].
  - by exists 0, rng.
Qed.

(** One new member: where it goes. *)
Lemma add_member_ok p total name active known rng : limits_ok p -> 0 < total < 2 ^ 63 -> name <> ""%string -> name ∉ active ->
  slots (Z.to_nat (max_active_processers p)) active known ->
  exists active' known' rng', add_member p total name (known, rng) = Some (known', rng') /\
    slots (Z.to_nat (max_active_processers p)) active' known' /\ (forall x, x ∈ active' -> x = name \/ x ∈ active) /\
    (orchestrated_policy p = PolicyLast -> max_active_committers p = 1 -> known' !! 0%nat = Some name).
Proof.
  intros Hlim Ht Hn Hni Hs. pose proof (slots_amount _ _ _ Hs) as [Ea El]. pose proof Hs as (_ & Hlen & _ & _).
  unfold add_member. rewrite Ea. destruct (sample_ok p total rng Hlim Ht) as (sample & rng' & -> & Hsam & Hlast). destruct Hlim as [Hc Hp].
  cbn [mbind option_bind]. destruct (Z.ltb_spec (Z.of_nat (length active)) (max_active_committers p)).
  { rewrite assign_ok by lia. rewrite Nat2Z.id. eexists _, _, _. split; [done|]. split; [apply slots_append; (done || lia)|]. split; [set_solver|].
    intros _ Hone. destruct active; [|cbn in *; lia]. rewrite list_lookup_insert_eq; [done|]. cbn. lia. }
  destruct (Z.ltb_spec sample (max_active_processers p)); [|exists active, known, rng'; split_and!; [done|done|set_solver|]; intros Hl _; specialize (Hlast Hl); lia].
  destruct (decide (sample < Z.of_nat (length active))) as [Hin|Hout].
  - destruct (lookup_lt_is_Some_2 active (Z.to_nat sample)) as [previous Ep]; [lia|].
    assert (known !! Z.to_nat sample = Some previous) as -> by (destruct Hs as (-> & _); by apply lookup_app_l_Some).
    assert (previous <> ""%string) as Hp0 by (destruct Hs as (_ & _ & Hf & _); by apply (Forall_lookup_1 _ _ _ _ Hf Ep)).
    cbn [mbind option_bind]. rewrite bool_decide_eq_true_2 by done. cbn [andb]. rewrite Z.min_r by lia.
    assert (forall l, (0 < length l)%nat -> sample = 0 -> <[Z.to_nat sample := name]> l !! 0%nat = Some name) as Hfirst
      by (intros l Hl ->; by apply list_lookup_insert_eq).
    destruct (Z.ltb_spec (Z.of_nat (length active)) (max_active_processers p)).
    + rewrite assign_ok by lia. cbn [mbind option_bind]. rewrite assign_ok by (rewrite length_insert; lia). cbn [mbind option_bind].
      rewrite Nat2Z.id. eexists _, _, _. split; [done|]. split; [apply slots_displace; (done || lia)|]. split.
      * intros x [Hx| ->%list_elem_of_singleton]%elem_of_app; [by eapply elem_of_insert_name|right; by eapply list_elem_of_lookup_2].
      * intros Hl _. apply Hfirst; [rewrite length_insert; lia|auto].
    + cbn [mbind option_bind]. rewrite assign_ok by lia. cbn [mbind option_bind]. eexists _, _, _. split; [done|].
      split; [apply slots_replace; (done || lia)|]. split; [intros x; apply elem_of_insert_name|]. intros Hl _. apply Hfirst; [lia|auto].
  - assert (known !! Z.to_nat sample = Some ""%string) as ->.
    { destruct Hs as (-> & _). rewrite lookup_app_r by lia. apply lookup_replicate_2. lia. }
    cbn [mbind option_bind]. rewrite bool_decide_eq_false_2 by (intros Hx; by apply Hx). cbn [andb mbind option_bind].
    rewrite Z.min_l by lia. rewrite assign_ok by lia. cbn [mbind option_bind]. rewrite Nat2Z.id. eexists _, _, _. split; [done|].
    split; [apply slots_append; (done || lia)|]. split; [set_solver|]. intros Hl _. rewrite (Hlast Hl) in *. lia.
Qed.

(** All new members of a commit. *)
Lemma add_members_ok p total names active known rng : limits_ok p -> 0 < total < 2 ^ 63 -> Forall (fun x => x <> ""%string) names ->
  NoDup names -> (forall x, x ∈ names -> x ∉ active) -> slots (Z.to_nat (max_active_processers p)) active known ->
  exists active' known' rng', add_members p total names (known, rng) = Some (known', rng') /\
    slots (Z.to_nat (max_active_processers p)) active' known' /\ (forall x, x ∈ active' -> x ∈ names \/ x ∈ active) /\
    (orchestrated_policy p = PolicyLast -> max_active_committers p = 1 -> names <> [] -> exists name, name ∈ names /\ known' !! 0%nat = Some name).
Proof.
  intros Hlim Ht Hn Hd. revert active known rng. induction Hn as [|name names Hn _ IH]; intros active known rng Hf Hs.
  - exists active, known, rng. split_and!; [done|done|auto|done].
  - apply NoDup_cons in Hd as [Hnn Hd]. cbn [add_members].
    destruct (add_member_ok p total name active known rng Hlim Ht Hn ltac:(set_solver) Hs) as (a1 & k1 & r1 & -> & Hs1 & Ha1 & Hl1).
    cbn [mbind option_bind]. destruct (IH Hd a1 k1 r1) as (a2 & k2 & r2 & E & Hs2 & Ha2 & Hl2); [|done|].
    { intros x Hx Hx1. apply Ha1 in Hx1 as [->|Hx1]; [done|]. eapply Hf; [|done]. by right. }
    exists a2, k2, r2. split_and!; [done|done| |].
    + intros x Hx. apply Ha2 in Hx as [Hx|[->|Hx]%Ha1]; [left; by right|left; by left|by right].
    + intros Hpol Hone _. destruct names as [|name' names].
      * injection E as <- <-. exists name. split; [by left|auto].
      * destruct (Hl2 Hpol Hone ltac:(done)) as (x & Hx & Ex). exists x. split; [by right|done].
Qed.


(** When only new members can be drawn, the draw is repeated for ever. *)
Lemma reroll_hangs fuel bound known new_members w rng : (1 < length new_members)%nat ->
  (forall i, 0 <= i < bound -> exists x, known !! Z.to_nat i = Some x /\ x ∈ new_members) -> 0 <= w < bound ->
  reroll fuel bound known new_members w rng = Some OutOfFuel.
Proof.
  intros Hl Hnew. revert w rng. induction fuel as [|fuel IH]; intros w rng Hw; cbn [reroll];
    (destruct (Z.ltb_spec 1 (Z.of_nat (length new_members))); [|lia]); destruct (Hnew w Hw) as (x & -> & Hx); cbn [mbind option_bind];
    rewrite decide_True by done; [done|].
  destruct (gen_range_ok 0 bound rng) as (w' & rng' & -> & Hw'); [lia|]. cbn [mbind option_bind]. by apply IH.
Qed.

End Rounds2.

(** *** What a member does after a commit *)

(** The shared part of a round: the slots after it and the draw. *)
Definition round `{!RandomSource} (fuel : nat) (p : OrchestratedParameters) (seed : bytes) (total_members : Z) (new_members known : list string) :
    option (list string * option draw) :=
  '(known, rng) ← add_members p total_members new_members (known, rng_from_seed (seed_array seed));
  let bound := Z.min (max_active_committers p) total_members in
  Some (known, '(who_acts, rng) ← gen_range 0 bound rng; reroll fuel bound known new_members who_acts rng).

(** What the draw of slot [w] makes member [o] do. *)
Definition obeys (w : Z) (new_members : list string) (o : Orchestrator) (a : NextAction) (o' : Orchestrator) : Prop :=
  match position (orch_name o) (known_members o') with
  | None => a = ActInactive /\ pending_acks o' = pending_acks o
  | Some i =>
    if i =? w then
      pending_acks o' = Z.of_nat (length (filter (fun x => x <> orch_name o) new_members)) /\
      a = (if pending_acks o' =? 0 then ActCommit else ActListen)
    else a = ActListen /\ pending_acks o' = pending_acks o
  end.

Lemma process_commit_round `{!RandomSource} fuel seed total new_members o a o' :
  process_commit fuel seed total new_members o = (Ok (Some a), o') ->
  exists known d, round fuel (orch_parameters o) seed total new_members (known_members o) = Some (known, d) /\
    known_members o' = known /\ (a = ActInactive \/ exists w, d = Some (Drawn w)) /\ (forall w, d = Some (Drawn w) -> obeys w new_members o a o').
Proof.
  unfold process_commit, round, obeys. destruct (add_members _ _ _ _) as [[known rng]|]; [|done]. cbn [mbind option_bind orch_name set_known].
  set (d := ('(who_acts, rng) ← gen_range 0 (Z.min (max_active_committers (orch_parameters o)) total) rng; reroll fuel _ known new_members who_acts rng)).
  destruct (position (orch_name o) known) as [i|] eqn:Ep.
  - destruct d as [[w|]|]; [|done..]. destruct (i =? w) eqn:Eiw; intros [= <- <-]; exists known, (Some (Drawn w));
      (split_and!; [done|done|by right; eexists|]); intros w' [= <-]; cbn [known_members set_known set_pending_acks]; rewrite Ep, Eiw; done.
  - intros [= <- <-]. exists known, d. split_and!; [done|done|by left|]. intros w _. cbn [known_members set_known]. by rewrite Ep.
Qed.

Lemma position_lookup name known i : position name known = Some i -> 0 <= i /\ known !! Z.to_nat i = Some name.
Proof.
  unfold position. destruct (list_find _ _) as [[j x]|] eqn:E; [|done]. intros [= <-]. apply list_find_Some in E as (E & -> & _).
  by rewrite Nat2Z.id; split; [lia|].
Qed.

Section FilterReplicate.
Context (P : string -> Prop) `{!forall x, Decision (P x)} (x : string).



End FilterReplicate.

(** Members that process a commit from the same slots end up with the same slots, and
    not both commit at once. *)
Lemma rounds_agree `{!RandomSource} fuel seed total new_members o1 o2 a1 a2 o1' o2' :
  orch_parameters o1 = orch_parameters o2 -> known_members o1 = known_members o2 -> orch_name o1 <> orch_name o2 ->
  process_commit fuel seed total new_members o1 = (Ok (Some a1), o1') ->
  process_commit fuel seed total new_members o2 = (Ok (Some a2), o2') ->
  known_members o1' = known_members o2' /\ (a1 = ActCommit -> a2 <> ActCommit).
Proof.
  intros Ep Ek Hne (known & d & E1 & <- & Hd1 & Ho1)%process_commit_round (known2 & d2 & E2 & <- & Hd2 & Ho2)%process_commit_round.
  rewrite Ep, Ek, E2 in E1. injection E1 as Ekn <-. split; [done|]. intros -> ->. destruct Hd1 as [|[w ->]]; [done|]. specialize (Ho1 w eq_refl). specialize (Ho2 w eq_refl).
  unfold obeys in Ho1, Ho2. rewrite Ekn in Ho2. destruct (position (orch_name o1) _) as [i|] eqn:E1, (position (orch_name o2) _) as [j|] eqn:Ej;
    [|by destruct Ho2|by destruct Ho1..].
  destruct (Z.eqb_spec i w) as [->|]; [|by destruct Ho1]. destruct (Z.eqb_spec j w) as [->|]; [|by destruct Ho2].
  apply position_lookup in E1 as [_ E1], Ej as [_ Ej]. congruence.
Qed.

Lemma position_elem name known : name ∈ known -> is_Some (position name known).
Proof.
  intros Hin. unfold position. destruct (list_find_elem_of (fun x => x = name) known name Hin eq_refl) as [[i x] ->]. by eexists.
Qed.

(** What [remove_members] leaves of the slots of an active member *)
Definition remaining (p : OrchestratedParameters) (removed known : list string) : list string :=
  resize_names (max_active_processers p) (filter (fun member => member ∉ removed) known).

Lemma remove_members_active removed o : orch_name o ∈ known_members o ->
  remove_members removed o = set_known (remaining (orch_parameters o) removed (known_members o)) o.
Proof. intros Hin. unfold remove_members. by destruct (position_elem _ _ Hin) as [i ->]. Qed.

Lemma remaining_none p known : length known = Z.to_nat (max_active_processers p) -> remaining p [] known = known.
Proof.
  intros Hl. unfold remaining, resize_names. rewrite <- Hl. assert (Hf : filter (fun member => member ∉ []) known = known).
  { clear Hl. induction known as [|x known IH]; [done|]. rewrite filter_cons_True by apply not_elem_of_nil. by rewrite IH. }
  by rewrite Hf, resize_all.
Qed.

Lemma remaining_removed p removed known x : x ∈ removed -> x <> ""%string -> x ∉ remaining p removed known.
Proof.
  intros Hx Hne. unfold remaining, resize_names. rewrite resize_spec. intros [Hin|Hin]%elem_of_app.
  - apply elem_of_take in Hin as (i & Hin%list_elem_of_lookup_2 & _). by apply list_elem_of_filter in Hin as [Hin _].
  - by apply elem_of_replicate in Hin as [-> _].
Qed.

(** A commit that adds nobody leaves the slots as they are. *)
Lemma process_commit_known `{!RandomSource} fuel seed total o a o' : process_commit fuel seed total [] o = (Ok (Some a), o') -> known_members o' = known_members o.
Proof. intros (known & d & E & <- & _)%process_commit_round. unfold round in E. cbn in E. by injection E as <-. Qed.

(** ** Theorems *)


(** C28: the members that process the same commit from the same slots agree on the
    slots of the next round, and at most one of them commits at once: two members
    with different names never both get to commit, whatever their own state. *)
Theorem one_committer `{!RandomSource} fuel seed total new_members o1 o2 a1 a2 o1' o2' :
  orch_parameters o1 = orch_parameters o2 -> known_members o1 = known_members o2 -> orch_name o1 <> orch_name o2 ->
  process_commit fuel seed total new_members o1 = (Ok (Some a1), o1') ->
  process_commit fuel seed total new_members o2 = (Ok (Some a2), o2') ->
  known_members o1' = known_members o2' /\ (a1 = ActCommit -> a2 <> ActCommit) /\
  (a1 <> ActInactive -> exists w, obeys w new_members o1 a1 o1' /\ obeys w new_members o2 a2 o2').
Proof.
  intros Ep Ek Hne E1 E2. destruct (rounds_agree _ _ _ _ _ _ _ _ _ _ Ep Ek Hne E1 E2) as [Hk Hc]. split_and!; [done..|]. intros Hact.
  apply process_commit_round in E1 as (known & d & E1 & <- & Hd1 & Ho1), E2 as (known2 & d2 & E2 & <- & Hd2 & Ho2).
  rewrite Ep, Ek, E2 in E1. injection E1 as Ekn <-. destruct Hd1 as [|[w ->]]; [done|]. exists w. auto.
Qed.

(** With the policy [last], one committer and a commit that adds two or more
    members, the loop of an active member that looks for a committer who is not
    new never ends, whatever the random numbers: the only slot it may draw holds
    one of the new members. *)
Theorem last_policy_hangs `{!RandomSource} `{!RandomSourceLaws} fuel seed total new_members active o i :
  let p := orch_parameters o in
  limits_ok p -> orchestrated_policy p = PolicyLast -> max_active_committers p = 1 -> 0 < total < 2 ^ 63 ->
  Forall (fun x => x <> ""%string) new_members -> NoDup new_members -> (forall x, x ∈ new_members -> x ∉ active) ->
  slots (Z.to_nat (max_active_processers p)) active (known_members o) -> (1 < length new_members)%nat ->
  (fun s => position (orch_name o) s.1) <$> add_members p total new_members (known_members o, rng_from_seed (seed_array seed)) = Some (Some i) ->
  (process_commit fuel seed total new_members o).1 = Ok None.
Proof.
  intros p Hlim Hpol Hone Ht Hn Hd Hf Hs Hmany Hact. unfold process_commit. fold p.
  destruct (add_members_ok p total new_members active (known_members o) (rng_from_seed (seed_array seed)) Hlim Ht Hn Hd Hf Hs)
    as (active' & known' & rng' & E & Hs' & _ & Hlast). rewrite E in Hact |- *. change (Some (position (orch_name o) known') = Some (Some i)) in Hact. injection Hact as Hact.
  cbn [orch_name set_known]. rewrite Hact. destruct (Hlast Hpol Hone) as (x & Hx & Ex); [by intros ->; cbn in Hmany; lia|].
  destruct (gen_range_ok 0 (Z.min (max_active_committers p) total) rng') as (w & rng'' & -> & Hw); [lia|]. cbn [mbind option_bind].
  rewrite reroll_hangs; [done|done| |done]. intros j Hj. replace j with 0 by lia. by exists x.
Qed.

(** [n] acknowledgements in a row *)
Fixpoint process_acks (n : nat) (self : Orchestrator) : list NextAction * Orchestrator :=
  match n with
  | O => ([], self)
  | S n => let '(a, self) := process_ack self in let '(l, self) := process_acks n self in (a :: l, self)
  end.

Lemma idle_acks m o : pending_acks o = 0 -> process_acks m o = (replicate m ActListen, o).
Proof. intros E. induction m as [|m IH]; [done|]. cbn [process_acks]. unfold process_ack. rewrite E, Z.eqb_refl. by rewrite IH. Qed.

(** A member that waits for [n] acknowledgements listens for the first [n - 1],
    commits at the [n]-th and at none after it. *)
Theorem acks_then_commit n m o : pending_acks o = Z.of_nat (S n) ->
  process_acks (S n + m) o = (replicate n ActListen ++ ActCommit :: replicate m ActListen, set_pending_acks 0 o).
Proof.
  revert o. induction n as [|n IH]; intros o E.
  - cbn [Nat.add process_acks]. unfold process_ack. rewrite E. change (Z.of_nat 1 =? 0) with false. change (Z.of_nat 1 - 1) with 0. cbv iota beta zeta. by rewrite idle_acks.
  - change (S (S n) + m)%nat with (S (S n + m)). cbn [process_acks]. unfold process_ack. rewrite E.
    destruct (Z.eqb_spec (Z.of_nat (S (S n))) 0); [lia|]. cbn [pending_acks set_pending_acks].
    destruct (Z.eqb_spec (Z.of_nat (S (S n)) - 1) 0); [lia|]. rewrite IH; [done|]. cbn [pending_acks set_pending_acks]. lia.
Qed.

(** ** Samples *)

Module Samples.

(** A source of numbers that counts. *)
#[local] Instance counting : RandomSource := {|
  StdRng := Z; rng_from_seed := fun seed => hd 0 seed; rng_gen_range := fun lo hi r => (lo + r mod (hi - lo), r + 1) |}.
#[local] Instance counting_laws : RandomSourceLaws.
Proof. constructor. intros lo hi rng Hlt. cbn. pose proof (Z.mod_pos_bound rng (hi - lo)). lia. Qed.

Definition parameters (committers : Z) (policy : AuthorizationPolicy) : OrchestratedParameters := {|
  max_active_committers := committers; max_active_processers := 3; orchestrated_policy := policy |}.
Definition member (name : string) (committers : Z) (policy : AuthorizationPolicy) : Orchestrator :=
  Orchestrator_new name (parameters committers policy) ["ana"; "bob"]%string.


Lemma one_committer_witness : exists o1' o2',
  process_commit 5 [7] 3 ["eve"%string] (member "bob" 2 PolicyRandom) = (Ok (Some ActListen), o1') /\
  process_commit 5 [7] 3 ["eve"%string] (member "ana" 2 PolicyRandom) = (Ok (Some ActListen), o2') /\ known_members o1' = known_members o2'.
Proof.
  eexists _, _. split; [vm_compute; reflexivity|]. split; [vm_compute; reflexivity|].
  by apply (one_committer 5 [7] 3 ["eve"%string] (member "bob" 2 PolicyRandom) (member "ana" 2 PolicyRandom) ActListen ActListen).
Defined.

Lemma last_policy_hangs_witness : (process_commit 1000 [7] 4 ["eve"; "zoe"]%string (member "ana" 1 PolicyLast)).1 = Ok None.
Proof.
  apply (last_policy_hangs 1000 [7] 4 ["eve"; "zoe"]%string ["ana"; "bob"]%string (member "ana" 1 PolicyLast) 2); try done.
  - by repeat constructor.
  - by apply (bool_decide_unpack _).
  - intros x Hx Hin. by apply list_elem_of_In in Hx as [<-|[<-|[]]]; apply list_elem_of_In in Hin as [|[|[]]].
  - split; [done|split; [cbn; lia|split; [by repeat constructor|by apply (bool_decide_unpack _)]]].
  - cbn. lia.
Defined.

Lemma acks_then_commit_witness : (process_acks 3 (set_pending_acks 2 (member "ana" 1 PolicyFirst))).1 = [ActListen; ActCommit; ActListen].
Proof. by rewrite (acks_then_commit 1 1). Defined.

End Samples.
