(* ===== verification/Client.v ===== *)
(** * The emulated client

    Models [emulated_client/src/user.rs] (what a client does with its groups),
    [conversation.rs], [pubsub/mod.rs] (the dispatch of incoming messages) and the
    agents [client_agent/independent.rs] and [client_agent/orchestrated.rs] that
    decide what it does next.

    The client uses OpenMLS through [MlsLibrary], the methods of [MlsGroup] that it
    calls, and the network through what it was asked to send ([Sent], in the order
    of the calls) and what came back.  Random draws and the clock are arguments.
    Log output, measurements of single phases and the texts of errors are left
    out. *)

From Stdlib Require Import Ascii String.
From stdpp Require Import strings.
From S2P Require Import Prelude TreeMath Crypto Tls SecretTree LeafNodes Nodes TreeSync Proposals PublicGroup Validation Framing DeliveryService Orchestrator.

(** ** Strings *)

Definition bytes_str (b : bytes) : string := String.string_of_list_ascii (map (fun x => ascii_of_N (Z.to_N x)) b).

(** [from_utf8(..).unwrap().to_string()] *)
Definition utf8_name (b : bytes) : option string := bytes_str <$> from_utf8 b.

(** ** The library *)

(** [ProcessMessageError], by its [ValidationError] or another error *)
Inductive ProcessMessageError := ProcessValidation (e : ValidationError) | ProcessOther.

(** The proposals a client makes *)
Inductive ClientProposal (K : Type) := ProposesAdd (k : K) | ProposesRemove (i : LeafNodeIndex) | ProposesUpdate.
Arguments ProposesAdd {K} _.
Arguments ProposesRemove {K} _.
Arguments ProposesUpdate {K}.

(** [ProcessedMessageContent] *)
Inductive ProcessedMessageContent (C : Type) :=
| ApplicationMessage (message : bytes)
| ProposalMessage (p : QueuedProposal)
| ExternalJoinProposalMessage (p : QueuedProposal)
| StagedCommitMessage (c : C).
Arguments ApplicationMessage {C} _.
Arguments ProposalMessage {C} _.
Arguments ExternalJoinProposalMessage {C} _.
Arguments StagedCommitMessage {C} _.

(** What the client uses of OpenMLS: [MlsGroup] together with the provider of its
    storage, commits that were staged, and group infos. *)
Class MlsLibrary `{!InboundBodies} `{!Payloads} := {
  Mls : Type;
  Store : Type;
  StagedCommit : Type;
  GroupInfo : Type;
  mls_group_id : Mls -> bytes;
  mls_epoch : Mls -> Z;
  mls_members : Mls -> list Member;
  mls_transcript_hash : Mls -> bytes;
  mls_own_leaf_index : Mls -> LeafNodeIndex;
  mls_pending_proposals : Mls -> list QueuedProposal;
  (** [set_aad] *)
  mls_set_aad : bytes -> Mls -> Mls;
  (** the members that [add_proposals()] add, by their credentials, and the leaves that [remove_proposals()] remove *)
  commit_adds : StagedCommit -> list Credential;
  commit_removes : StagedCommit -> list LeafNodeIndex;
  commit_removes_self : StagedCommit -> bool;
  (** [group_context().transcript_hash()] *)
  commit_transcript_hash : StagedCommit -> bytes;
  mls_process_message : InboundProtocolMessage -> method (Mls * Store) ProcessMessageError (Credential * ProcessedMessageContent StagedCommit);
  mls_merge_staged_commit : StagedCommit -> method (Mls * Store) () ();
  mls_merge_pending_commit : method (Mls * Store) () ();
  mls_store_pending_proposal : QueuedProposal -> method (Mls * Store) () ();
  mls_remove_pending_proposal : ProposalRef -> method (Mls * Store) () ();
  mls_create_message : bytes -> method (Mls * Store) () (MlsMessageIn Welcome VerifiableGroupInfo KeyPackageIn);
  mls_propose : ClientProposal KeyPackageIn -> method (Mls * Store) () (MlsMessageIn Welcome VerifiableGroupInfo KeyPackageIn);
  (** the commit, the welcome and the group info *)
  mls_add_members : KeyPackageIn -> method (Mls * Store) ()
    (MlsMessageIn Welcome VerifiableGroupInfo KeyPackageIn * MlsMessageIn Welcome VerifiableGroupInfo KeyPackageIn * option GroupInfo);
  mls_remove_members : LeafNodeIndex -> method (Mls * Store) () (MlsMessageIn Welcome VerifiableGroupInfo KeyPackageIn * option GroupInfo);
  mls_self_update : method (Mls * Store) () (MlsMessageIn Welcome VerifiableGroupInfo KeyPackageIn * option GroupInfo);
  mls_commit_to_pending_proposals : method (Mls * Store) ()
    (MlsMessageIn Welcome VerifiableGroupInfo KeyPackageIn * option (MlsMessageIn Welcome VerifiableGroupInfo KeyPackageIn) * option GroupInfo);
  mls_export_ratchet_tree : Mls -> RatchetTreeIn;
  (** [export_group_info(..)?.into_verifiable_group_info().unwrap()] *)
  mls_export_group_info : Mls -> outcome () VerifiableGroupInfo;
  (** [VerifiableGroupInfo::from] of a group info of a commit *)
  group_info_into : GroupInfo -> VerifiableGroupInfo;
  (** [MlsGroup::new_with_group_id], [join_by_external_commit], and a welcome staged and turned into a group *)
  mls_new_with_group_id : bytes -> method Store () Mls;
  mls_join_by_external_commit : option RatchetTreeIn -> VerifiableGroupInfo -> bytes ->
    method Store () (Mls * MlsMessageIn Welcome VerifiableGroupInfo KeyPackageIn * option GroupInfo);
  mls_join_by_welcome : Welcome -> RatchetTreeIn -> method Store () Mls;
  (** a new key package of the identity with that name, which is stored, and its hash *)
  mls_new_key_package : bytes -> method Store () (bytes * KeyPackageIn)
}.

Section Client.
Context `{!InboundBodies} `{!Payloads} `{!MlsLibrary} `{!RandomSource}.

Abbreviation MlsMessage := (MlsMessageIn Welcome VerifiableGroupInfo KeyPackageIn) (only parsing).

(** ** Data *)

(** *** [conversation.rs] *)

Record ConversationMessage := mkConversationMessage { author : string; message : bytes }.
Abbreviation Conversation := (list ConversationMessage) (only parsing).

Definition Conversation_add (m : ConversationMessage) (c : Conversation) : Conversation := c ++ [m].

(** [get]: [self.messages.get(start..num_messages)] *)
Definition Conversation_get (last_n : nat) (c : Conversation) : option (list ConversationMessage) :=
  let num_messages := length c in
  let start := if decide (num_messages < last_n)%nat then 0%nat else (num_messages - last_n)%nat in
  if decide (start <= num_messages)%nat then Some (drop start c) else None.

(** *** [client_agent/mod.rs] *)

(** The measurements of [DeepCommit] and [DeepProcess] are left out. *)
Inductive CGKAAction :=
| ActionPropose (a : CGKAAction)
| ActionCommit (proposals : list CGKAAction) (size : Z)
| ActionJoin (commit_size group_info_size : Z)
| ActionUpdate (size : Z)
| ActionInvite (user : string) (size : Z)
| ActionRemove (user : string) (size : Z)
| ActionProcess (user : string)
| ActionStoreProp (user : string)
| ActionWelcome (user : string) (size : Z)
| ActionDeepCommit (size : Z)
| ActionDeepProcess (user : string)
| ActionCreate
| ActionCommitAttempt (a : CGKAAction).

Record EpochChange := mkEpochChange { timestamp : Z; ec_epoch : Z }.

Record ActionRecord := mkActionRecord {
  ar_group_name : string;
  ar_action : CGKAAction;
  ar_epoch_change : EpochChange;
  ar_elapsed_time : Z;
  ar_num_users : Z
}.

(** *** [user.rs] *)

Definition FILE_BUFFER_SIZE : nat := 50.

Inductive AgentType :=
| AgentOrchestrator (parameters : OrchestratedParameters) (orchestrators : gmap string Orchestrator)
| AgentIndependent.

Record Contact := mkContact { contact_username : string; contact_id : bytes }.
Record StoredWelcome := mkStoredWelcome { sw_welcome : MlsMessage; sw_recipients : list string }.
Record Group := mkGroup { group_name : string; conversation : Conversation; mls_group : Mls }.

Inductive PostUpdateActions := PostNone | PostRemove.

(** [DeliveryService]: the brokers are the network *)
Inductive DeliveryKind := DsRequest | DsPubSubMQTT | DsGossipSub (directory : Directory).

(** Calls of the network, of the agent's channel and of the log file *)
Inductive Sent :=
| SentMessage (group : string) (m : GroupMessage)
| SentWelcome (recipient : string) (m : GroupMessage)
| SentAck (a : WelcomeAcknowledgement)
| SentGroupInfo (group : string) (g : GroupInfoAndTree)
| SentSubscribe (group : string)
| SentUnsubscribe (group : string)
| SentSubscribeWelcome (user : string)
| SentRegister (user : string) (key_packages : gset bytes)
| SentKeyPackage (user : string) (hash : bytes) (k : KeyPackageIn)
| SentToAgent (group : string)
| SentLog (records : list ActionRecord).

Record User := mkUser {
  username : string;
  contacts : gmap bytes Contact;
  groups : gmap string Group;
  group_list : gset string;
  (** [identity.kp], by hash *)
  identity_kp : gset bytes;
  pending_commits : gmap string (option GroupInfo * option StoredWelcome * ActionRecord);
  ds : DeliveryKind;
  crypto : Store;
  active : gmap string (bool * Z);
  agent_type : AgentType;
  file_buffer : list ActionRecord;
  (** what was sent so far *)
  sent : list Sent
}.

(** Errors are strings in the source; here by their cause. *)
Inductive UserError :=
| UnknownGroup
| UnknownMemberName
| UnknownContact
| HasPendingCommit
| HasPendingProposal
| MlsError
| MissingTree
| MissingGroupId
| NetworkError (e : string)
(** a loop of the orchestrator that has not ended within the fuel *)
| DrawGoesOn.

Definition set_contacts (x : gmap bytes Contact) (u : User) : User :=
  mkUser (username u) x (groups u) (group_list u) (identity_kp u) (pending_commits u) (ds u) (crypto u) (active u) (agent_type u) (file_buffer u) (sent u).
Definition set_groups (x : gmap string Group) (u : User) : User :=
  mkUser (username u) (contacts u) x (group_list u) (identity_kp u) (pending_commits u) (ds u) (crypto u) (active u) (agent_type u) (file_buffer u) (sent u).
Definition set_group_list (x : gset string) (u : User) : User :=
  mkUser (username u) (contacts u) (groups u) x (identity_kp u) (pending_commits u) (ds u) (crypto u) (active u) (agent_type u) (file_buffer u) (sent u).
Definition set_identity_kp (x : gset bytes) (u : User) : User :=
  mkUser (username u) (contacts u) (groups u) (group_list u) x (pending_commits u) (ds u) (crypto u) (active u) (agent_type u) (file_buffer u) (sent u).
Definition set_pending_commits (x : gmap string (option GroupInfo * option StoredWelcome * ActionRecord)) (u : User) : User :=
  mkUser (username u) (contacts u) (groups u) (group_list u) (identity_kp u) x (ds u) (crypto u) (active u) (agent_type u) (file_buffer u) (sent u).
Definition set_crypto (x : Store) (u : User) : User :=
  mkUser (username u) (contacts u) (groups u) (group_list u) (identity_kp u) (pending_commits u) (ds u) x (active u) (agent_type u) (file_buffer u) (sent u).
Definition set_active (x : gmap string (bool * Z)) (u : User) : User :=
  mkUser (username u) (contacts u) (groups u) (group_list u) (identity_kp u) (pending_commits u) (ds u) (crypto u) x (agent_type u) (file_buffer u) (sent u).
Definition set_agent_type (x : AgentType) (u : User) : User :=
  mkUser (username u) (contacts u) (groups u) (group_list u) (identity_kp u) (pending_commits u) (ds u) (crypto u) (active u) x (file_buffer u) (sent u).
Definition set_file_buffer (x : list ActionRecord) (u : User) : User :=
  mkUser (username u) (contacts u) (groups u) (group_list u) (identity_kp u) (pending_commits u) (ds u) (crypto u) (active u) (agent_type u) x (sent u).
Definition set_sent (x : list Sent) (u : User) : User :=
  mkUser (username u) (contacts u) (groups u) (group_list u) (identity_kp u) (pending_commits u) (ds u) (crypto u) (active u) (agent_type u) (file_buffer u) x.

Definition set_mls (m : Mls) (g : Group) : Group := mkGroup (group_name g) (conversation g) m.
Definition add_message (m : ConversationMessage) (g : Group) : Group := mkGroup (group_name g) (Conversation_add m (conversation g)) (mls_group g).

Abbreviation op A := (method User UserError A).

(** The clock: the time of day and what the phases took *)
Record Clock := mkClock { now_nanos : Z; elapsed_micros : Z; merge_micros : Z }.

Section Network.
(** What the network answers after the calls so far: an error of a call, or [None] *)
Context (net : list Sent -> Sent -> option string).
(** The answers to requests for key packages and group infos *)
Context (answer_key_package : list Sent -> Contact -> outcome string KeyPackageIn).
Context (answer_group_info : list Sent -> string -> outcome string GroupInfoAndTree).

Definition send (e : Sent) : op () :=
  u ← get;
  match net (sent u) e with
  | Some err => fail (NetworkError err)
  | None => modify (set_sent (sent u ++ [e]))
  end.

(** A call whose error is unwrapped *)
Definition send_unwrap (e : Sent) : op () :=
  u ← get;
  match net (sent u) e with
  | Some _ => lift Panic
  | None => modify (set_sent (sent u ++ [e]))
  end.

Definition unwrap_name (b : bytes) : op string := unwrap (utf8_name b).

Fixpoint unwrap_names (l : list bytes) : op (list string) :=
  match l with
  | [] => mret []
  | b :: l => n ← unwrap_name b; ns ← unwrap_names l; mret (n :: ns)
  end.

(** A method of the group, with the provider of the client *)
Definition on_group {E A} (name : string) (error : E -> UserError) (c : method (Mls * Store) E A) : op A := fun u =>
  match groups u !! name with
  | None => (Err UnknownGroup, u)
  | Some g =>
    let '(o, (m, st)) := c (mls_group g, crypto u) in
    (map_err error o, set_crypto st (set_groups (<[name := set_mls m g]> (groups u)) u))
  end.

Definition mls_failed {E} (e : E) : UserError := MlsError.

Definition count_members (m : Mls) : Z := Z.of_nat (length (mls_members m)).

(** ** Queries *)

(** [Credential::identity] of the basic credentials the clients use; it panics for others. *)
Definition credential_identity (c : Credential) : bytes := serialized_credential_content c.

(** [member_at] *)
Definition member_at (m : Mls) (i : LeafNodeIndex) : option Member := List.find (fun member => member_index member =? i) (mls_members m).

Definition find_member_index (name : string) (m : Mls) : outcome UserError LeafNodeIndex :=
  ok_or (member_index <$> List.find (fun member => bool_decide (credential_identity (member_credential member) = str_bytes name)) (mls_members m)) UnknownMemberName.

(** The identity of a client is its name. *)
Definition own_identity (u : User) : bytes := str_bytes (username u).

Definition mls_recipients (u : User) (m : Mls) : list bytes :=
  map (fun member =>
      let identity := credential_identity (member_credential member) in
      match contacts u !! identity with Some c => contact_id c | None => identity end)
    (List.filter (fun member => negb (bool_decide (own_identity u = credential_identity (member_credential member)))) (mls_members m)).

Definition number_of_members (name : string) (u : User) : Z :=
  match groups u !! name with Some g => count_members (mls_group g) | None => 1 end.

Definition members_of_group (name : string) : op (list string) :=
  u ← get;
  match groups u !! name with
  | None => mret []
  | Some g =>
    (fix go (l : list bytes) : op (list string) :=
       match l with
       | [] => mret []
       | recipient :: l =>
         n ← (match contacts u !! recipient with Some c => mret (contact_username c) | None => unwrap_name recipient end);
         ns ← go l; mret (n :: ns)
       end) (mls_recipients u (mls_group g))
  end.

(** The order in which the contacts are visited is that of the map. *)
Definition not_members_of_group (name : string) (u : User) : list string :=
  match groups u !! name with
  | None => []
  | Some g =>
    let recipients := mls_recipients u (mls_group g) in
    map (fun x => contact_username x.2)
      (List.filter (fun x => negb (bool_decide (contact_id x.2 ∈ recipients))) (map_to_list (contacts u)))
  end.

Definition read_msgs (name : string) (u : User) : outcome UserError (option (list ConversationMessage)) :=
  match groups u !! name with None => Err UnknownGroup | Some g => Ok (Conversation_get 100 (conversation g)) end.

Definition add_contact (c : Contact) : op () :=
  u ← get;
  if negb (bool_decide (contact_id c = own_identity u)) then modify (set_contacts (<[contact_id c := c]> (contacts u))) else mret tt.

Definition is_authorised (name : string) (policy : AuthorizationPolicy) (u : User) : outcome UserError bool :=
  if negb (default (false, 0) (active u !! name)).1 then Ok false
  else match groups u !! name with
  | None => Err UnknownGroup
  | Some g =>
    let leaf_node_index := mls_own_leaf_index (mls_group g) in
    Ok (match policy with
        | PolicyRandom => true
        | PolicyFirst => leaf_node_index =? 0
        | PolicyLast => leaf_node_index =? u32_wrap (u32_wrap (count_members (mls_group g)) - 1)
        end)
  end.

(** ** Logs *)

Definition flush_logs : op () :=
  u ← get;
  send_unwrap (SentLog (file_buffer u));;
  modify (set_file_buffer []).

Definition is_welcome_action (a : CGKAAction) : bool := match a with ActionWelcome _ _ => true | _ => false end.

Definition write_timestamp (r : ActionRecord) : op () :=
  u ← get;
  modify (set_file_buffer (file_buffer u ++ [r]));;
  if bool_decide (FILE_BUFFER_SIZE <= S (length (file_buffer u)))%nat || is_welcome_action (ar_action r) then flush_logs else mret tt.

(** ** Sending *)

Definition has_broker (u : User) : bool := match ds u with DsRequest => false | _ => true end.

Definition subscribe (name : string) : op () := u ← get; if has_broker u then send (SentSubscribe name) else mret tt.
Definition unsubscribe (name : string) : op () := u ← get; if has_broker u then send (SentUnsubscribe name) else mret tt.

Definition send_to_group (name : string) (m : MlsMessage) (recipients : list bytes) : op () :=
  u ← get;
  send (SentMessage name (mkGroupMessage m (str_bytes (username u)) None recipients None)).

Definition send_ack (name : string) : op () :=
  u ← get;
  match ds u with
  | DsRequest => lift Panic
  | _ => send_unwrap (SentAck (mkWelcomeAcknowledgement (str_bytes (username u)) (str_bytes name)))
  end.

Definition send_to_agent (name : string) : op () :=
  u ← get;
  match agent_type u with
  | AgentIndependent => lift Panic
  | AgentOrchestrator _ _ => send (SentToAgent name)
  end.

Definition group_recipients (u : User) (m : Mls) : list bytes := if has_broker u then [] else mls_recipients u m.

Definition send_application_msg (msg : bytes) (name : string) : op () :=
  u ← get;
  if bool_decide (is_Some (pending_commits u !! name)) then fail HasPendingCommit
  else match groups u !! name with
  | None => fail UnknownGroup
  | Some _ =>
    message_out ← on_group name mls_failed (mls_create_message msg);
    u ← get;
    g ← unwrap (groups u !! name);
    send_to_group name message_out (group_recipients u (mls_group g))
  end.

(** [_publish_group_info]; a server that does not answer panics the thread that posts *)
Definition publish_info (m : Mls) (group_info : option GroupInfoAndTree) : op () :=
  group_info ← (match group_info with
    | Some gi => mret gi
    | None =>
      group_info ← lift (map_err mls_failed (mls_export_group_info m));
      mret (mkGroupInfoAndTree group_info (Some (mls_export_ratchet_tree m)))
    end);
  name ← unwrap_name (mls_group_id m);
  u ← get;
  match ds u with
  | DsGossipSub DirectoryKademlia => send (SentGroupInfo name group_info)
  | _ => send_unwrap (SentGroupInfo name group_info)
  end.

Definition publish_group_info (name : string) : op () :=
  u ← get;
  match groups u !! name with None => fail UnknownGroup | Some g => publish_info (mls_group g) None end.

(** ** Committing *)

(** [expect] *)
Definition expect {A} (c : op A) : op A := fun u =>
  let '(o, u) := c u in (match o with Err _ => Panic | o => o end, u).

Definition message_size (m : MlsMessage) : Z := tls_serialized_len codec_message m.

(** A method of the orchestrator of the group; only called by orchestrated clients *)
Definition on_orchestrator (name : string) (f : Orchestrator -> outcome () (option NextAction) * Orchestrator) : op NextAction :=
  u ← get;
  match agent_type u with
  | AgentIndependent => lift Panic
  | AgentOrchestrator p orchestrators =>
    o ← unwrap (orchestrators !! name);
    let '(r, o) := f o in
    modify (set_agent_type (AgentOrchestrator p (<[name := o]> orchestrators)));;
    match r with
    | Ok (Some next) => mret next
    | Ok None => fail DrawGoesOn
    | _ => lift Panic
    end
  end.

Definition is_orchestrated (u : User) : bool := match agent_type u with AgentOrchestrator _ _ => true | AgentIndependent => false end.

(** [remove_members] and then [process_commit]; [fuel] is for the loop that draws again *)
Definition next_round (fuel : nat) (name : string) (removed : list string) (transcript_hash : bytes) (total_members : Z) (new_members : list string) : op NextAction :=
  on_orchestrator name (fun o => process_commit fuel transcript_hash total_members new_members (Orchestrator.remove_members removed o)).

Definition send_welcome (name recipient : string) (m : GroupMessage) : op () := send (SentWelcome recipient m).

Definition edit_record (clk : Clock) (num_users : Z) (r : ActionRecord) : ActionRecord := {|
  ar_group_name := ar_group_name r; ar_action := ar_action r;
  ar_epoch_change := mkEpochChange (timestamp (ar_epoch_change r)) (usize_wrap (ec_epoch (ar_epoch_change r) + 1));
  ar_elapsed_time := ar_elapsed_time r + merge_micros clk; ar_num_users := num_users |}.

(** The welcome of the new members, with the tree and the members that are active *)
Definition send_welcomes (name : string) (ratchet_tree : RatchetTreeIn) (stored_welcome : option StoredWelcome) : op (list string) :=
  match stored_welcome with
  | Some sw =>
    u ← get;
    active_members ← (match agent_type u with
      | AgentIndependent => mret None
      | AgentOrchestrator _ orchestrators => o ← unwrap (orchestrators !! name); mret (Some (map str_bytes (known_members o)))
      end);
    let msg := mkGroupMessage (sw_welcome sw) (str_bytes (username u)) (Some ratchet_tree) (map str_bytes (sw_recipients sw)) active_members in
    for_each_m (sw_recipients sw) (fun recipient => send_welcome name recipient msg);;
    mret (sw_recipients sw)
  | None => mret []
  end.

(** The orchestrator starts the next round, and the agent is told when it is its turn. *)
Definition after_round (fuel : nat) (name : string) (removed : list string) (hash : bytes) (total : Z) (new_members : list string) : op () :=
  u ← get;
  if is_orchestrated u then
    next_action ← next_round fuel name removed hash total new_members;
    match next_action with ActCommit => send_to_agent name | _ => mret tt end
  else mret tt.

(** Those the committer takes out of the slots *)
Definition removed_by (a : CGKAAction) : list string := match a with ActionRemove user _ => [user] | _ => [] end.

Definition is_proposal_action (a : CGKAAction) : bool := match a with ActionPropose _ => true | _ => false end.

(** The group info and the next round, unless it was a proposal; gives the record to log. *)
Definition announce_commit (fuel : nat) (clk : Clock) (name : string) (m : Mls) (group_info : option GroupInfo) (new_members : list string) (action_record : ActionRecord) :
    op ActionRecord :=
  if is_proposal_action (ar_action action_record) then mret action_record
  else
    publish_info m ((fun gi => mkGroupInfoAndTree (group_info_into gi) (Some (mls_export_ratchet_tree m))) <$> group_info);;
    after_round fuel name (removed_by (ar_action action_record)) (mls_transcript_hash m) (count_members m) new_members;;
    mret (edit_record clk (count_members m) action_record).

(** The rest of [confirm_commit] once the commit was taken off the pending ones *)
Definition finish_commit (fuel : nat) (clk : Clock) (name : string) (group_info : option GroupInfo) (stored_welcome : option StoredWelcome)
    (action_record : ActionRecord) : op () :=
  u ← get;
  match groups u !! name with
  | None => fail UnknownGroup
  | Some _ =>
    expect (on_group name mls_failed mls_merge_pending_commit);;
    u ← get;
    g ← unwrap (groups u !! name);
    new_members ← send_welcomes name (mls_export_ratchet_tree (mls_group g)) stored_welcome;
    edited_record ← announce_commit fuel clk name (mls_group g) group_info new_members action_record;
    write_timestamp edited_record
  end.

Definition confirm_commit (fuel : nat) (clk : Clock) (name : string) : op () :=
  u ← get;
  match pending_commits u !! name with
  | None => mret tt
  | Some (group_info, stored_welcome, action_record) =>
    modify (set_pending_commits (delete name (pending_commits u)));;
    finish_commit fuel clk name group_info stored_welcome action_record
  end.

Definition post_process_commit (fuel : nat) (clk : Clock) (name : string) (msg_out : MlsMessage) (group_info : option GroupInfo)
    (welcome : option StoredWelcome) (action : CGKAAction) (elapsed_time : Z) : op EpochChange :=
  u ← get;
  g ← unwrap (groups u !! name);
  let epoch_change := mkEpochChange (now_nanos clk) (mls_epoch (mls_group g)) in
  let action_record := {| ar_group_name := name; ar_action := action; ar_epoch_change := epoch_change; ar_elapsed_time := elapsed_time;
                          ar_num_users := count_members (mls_group g) |} in
  send_to_group name msg_out (group_recipients u (mls_group g));;
  u ← get;
  modify (set_pending_commits (<[name := (group_info, welcome, action_record)]> (pending_commits u)));;
  (if is_orchestrated u then confirm_commit fuel clk name else mret tt);;
  mret epoch_change.

(** [contacts.values().find(..)] in the order of the map *)
Definition find_contact (name : string) (u : User) : option Contact :=
  snd <$> List.find (fun x => bool_decide (contact_username x.2 = name)) (map_to_list (contacts u)).

Definition consume_key_package (c : Contact) : op KeyPackageIn := u ← get; lift (map_err NetworkError (answer_key_package (sent u) c)).
Definition get_group_info (name : string) : op GroupInfoAndTree := u ← get; lift (map_err NetworkError (answer_group_info (sent u) name)).

Definition invite (fuel : nat) (clk : Clock) (name group_name : string) : op EpochChange :=
  u ← get;
  match find_contact name u with
  | None => fail UnknownContact
  | Some contact =>
    joiner_key_package ← consume_key_package contact;
    r ← on_group group_name mls_failed (mls_add_members joiner_key_package);
    let '(out_messages, welcome, new_group_info) := r in
    on_group group_name mls_failed mls_merge_pending_commit;;
    post_process_commit fuel clk group_name out_messages new_group_info (Some (mkStoredWelcome welcome [name]))
      (ActionDeepCommit (message_size out_messages)) (elapsed_micros clk + merge_micros clk)
  end.

Definition update_state (fuel : nat) (clk : Clock) (group_name : string) : op EpochChange :=
  r ← on_group group_name mls_failed mls_self_update;
  post_process_commit fuel clk group_name r.1 r.2 None (ActionUpdate (message_size r.1)) (elapsed_micros clk).

(** [remove] *)
Definition remove_user (fuel : nat) (clk : Clock) (name group_name : string) : op EpochChange :=
  u ← get;
  match groups u !! group_name with
  | None => fail UnknownGroup
  | Some g =>
    leaf_index ← lift (find_member_index name (mls_group g));
    r ← on_group group_name mls_failed (mls_remove_members leaf_index);
    post_process_commit fuel clk group_name r.1 r.2 None (ActionRemove name (message_size r.1)) (elapsed_micros clk)
  end.

(** Whether a pending proposal adds the user *)
Fixpoint adds_user (user : string) (pending : list QueuedProposal) : op bool :=
  match pending with
  | [] => mret false
  | p :: pending =>
    match proposal p with
    | Add kp =>
      name ← unwrap_name (credential_identity (leaf_credential (payload (kp_leaf_node kp))));
      if bool_decide (user = name) then mret true else adds_user user pending
    | _ => adds_user user pending
    end
  end.

(** [propose]; the three actions it is called with *)
Inductive ProposableAction := ProposableUpdate | ProposableInvite (user : string) | ProposableRemove (user : string).

Definition proposed_action (a : ProposableAction) (size : Z) : CGKAAction :=
  match a with
  | ProposableUpdate => ActionUpdate size
  | ProposableInvite user => ActionInvite user size
  | ProposableRemove user => ActionRemove user size
  end.

Definition user_propose (fuel : nat) (clk : Clock) (action : ProposableAction) (group_name : string) : op () :=
  u ← get;
  match groups u !! group_name with
  | None => fail UnknownGroup
  | Some g =>
    p ← (match action with
      | ProposableUpdate => mret ProposesUpdate
      | ProposableInvite user =>
        pending ← adds_user user (mls_pending_proposals (mls_group g));
        if pending : bool then fail HasPendingProposal
        else match find_contact user u with
        | None => fail UnknownContact
        | Some contact => kp ← consume_key_package contact; mret (ProposesAdd kp)
        end
      | ProposableRemove user => i ← lift (find_member_index user (mls_group g)); mret (ProposesRemove i)
      end);
    out_message ← on_group group_name mls_failed (mls_propose p);
    post_process_commit fuel clk group_name out_message None None (ActionPropose (proposed_action action (message_size out_message))) (elapsed_micros clk);;
    mret tt
  end.

(** Proposals to remove the client itself *)
Definition invalid_proposals (m : Mls) : list QueuedProposal :=
  List.filter (fun p => match proposal p with Remove removed => removed =? mls_own_leaf_index m | _ => false end) (mls_pending_proposals m).

Definition user_pending_proposals (group_name : string) (u : User) : outcome UserError Z :=
  match groups u !! group_name with
  | None => Err UnknownGroup
  | Some g => Ok (usize_wrap (Z.of_nat (length (mls_pending_proposals (mls_group g))) - Z.of_nat (length (invalid_proposals (mls_group g)))))
  end.

(** What a commit to the proposals records of each; [None] where the source is unreachable or unwraps *)
Definition committed_action (m : Mls) (p : QueuedProposal) : option CGKAAction :=
  match proposal p with
  | Add kp => (fun n => ActionInvite n 0) <$> utf8_name (credential_identity (leaf_credential (payload (kp_leaf_node kp))))
  | Remove removed => member ← member_at m removed; (fun n => ActionRemove n 0) <$> utf8_name (credential_identity (member_credential member))
  | Update _ => Some (ActionUpdate 0)
  | _ => None
  end.

Definition invited_users (actions : list CGKAAction) : list string :=
  omap (fun a => match a with ActionInvite user _ => Some user | _ => None end) actions.

(** [choose] is [choose_multiple] of the pending proposals. *)
Definition commit_to_proposals (fuel : nat) (clk : Clock) (choose : list QueuedProposal -> Z -> list QueuedProposal) (group_name : string) (amount : Z) : op EpochChange :=
  u ← get;
  match groups u !! group_name with
  | None => fail UnknownGroup
  | Some g =>
    for_each_m (invalid_proposals (mls_group g)) (fun p => on_group group_name mls_failed (mls_remove_pending_proposal (proposal_reference p)));;
    u ← get;
    g ← unwrap (groups u !! group_name);
    let pending := mls_pending_proposals (mls_group g) in
    for_each_m (choose pending (usize_wrap (Z.of_nat (length pending) - amount)))
      (fun p => on_group group_name mls_failed (mls_remove_pending_proposal (proposal_reference p)));;
    u ← get;
    g ← unwrap (groups u !! group_name);
    proposals_to_commit ← unwrap (mapM (committed_action (mls_group g)) (mls_pending_proposals (mls_group g)));
    r ← on_group group_name mls_failed mls_commit_to_pending_proposals;
    let '(out_message, welcome, new_group_info) := r in
    post_process_commit fuel clk group_name out_message new_group_info
      ((fun w => mkStoredWelcome w (invited_users proposals_to_commit)) <$> welcome)
      (ActionCommit proposals_to_commit (message_size out_message)) (elapsed_micros clk)
  end.

(** ** Joining *)

Definition group_aad (name : string) : bytes := str_bytes name ++ str_bytes " AAD".

(** A method of the provider *)
Definition on_crypto {E A} (error : E -> UserError) (c : method Store E A) : op A := fun u =>
  let '(o, st) := c (crypto u) in (map_err error o, set_crypto st u).

Definition insert_group (name : string) (m : Mls) : op () := modify (fun u => set_groups (<[name := mkGroup name [] m]> (groups u)) u).
Definition mark_active (name : string) (x : bool * Z) : op () := modify (fun u => set_active (<[name := x]> (active u)) u).

Definition insert_orchestrator (name : string) (o : Orchestrator) : op () :=
  u ← get;
  match agent_type u with
  | AgentOrchestrator p orchestrators => modify (set_agent_type (AgentOrchestrator p (<[name := o]> orchestrators)))
  | AgentIndependent => mret tt
  end.

Definition create_group (fuel : nat) (clk : Clock) (name : string) : op () :=
  subscribe name;;
  m ← expect (on_crypto mls_failed (mls_new_with_group_id (str_bytes name)));
  let m := mls_set_aad (group_aad name) m in
  u ← get;
  (if bool_decide (is_Some (groups u !! name)) then lift Panic else mret tt);;
  mark_active name (true, 0);;
  publish_info m None;;
  insert_group name m;;
  (match agent_type u with
   | AgentIndependent => mret tt
   | AgentOrchestrator params _ =>
     insert_orchestrator name (Orchestrator_new (username u) params []);;
     next_action ← next_round fuel name [] (mls_transcript_hash m) 1 [username u];
     (match next_action with ActCommit => send_to_agent name | _ => lift Panic end)
   end);;
  write_timestamp {| ar_group_name := name; ar_action := ActionCreate; ar_epoch_change := mkEpochChange (now_nanos clk) (mls_epoch m);
                     ar_elapsed_time := elapsed_micros clk; ar_num_users := 1 |}.

Definition external_join (fuel : nat) (clk : Clock) (name : string) (gi : GroupInfoAndTree) : op EpochChange :=
  expect (subscribe name);;
  r ← expect (on_crypto mls_failed (mls_join_by_external_commit (git_ratchet_tree gi) (git_group_info gi) (group_aad name)));
  let '(new_mls_group, out_messages, new_group_info) := r in
  mark_active name (true, 0);;
  insert_group name new_mls_group;;
  post_process_commit fuel clk name out_messages new_group_info None
    (ActionJoin (message_size out_messages) (tls_serialized_len codec_group_info (git_group_info gi))) (elapsed_micros clk).

(** Gives the name of the group and its epoch. *)
Definition join_group (clk : Clock) (welcome : Welcome) (ratchet_tree : RatchetTreeIn) : op (string * EpochChange) :=
  modify (fun u => set_identity_kp (identity_kp u ∖ list_to_set (welcome_new_members welcome)) u);;
  m ← on_crypto mls_failed (mls_join_by_welcome welcome ratchet_tree);
  name ← unwrap_name (mls_group_id m);
  insert_group name (mls_set_aad (group_aad name) m);;
  mret (name, mkEpochChange (now_nanos clk) (mls_epoch m)).

(** ** Receiving *)

Definition process_ack (a : WelcomeAcknowledgement) : op () :=
  u ← get;
  if bool_decide (ack_sender a = str_bytes (username u)) then mret tt
  else match agent_type u with
  | AgentIndependent => mret tt
  | AgentOrchestrator _ _ =>
    next_action ← on_orchestrator (bytes_str (ack_group a)) (fun o => let '(next_action, o) := Orchestrator.process_ack o in (Ok (Some next_action), o));
    (match next_action with ActCommit => send_to_agent (bytes_str (ack_group a)) | _ => mret tt end)
  end.

(** The errors of a message that lost against another commit *)
Definition is_conflict (e : ProcessMessageError) : bool :=
  match e with
  | ProcessValidation WrongEpoch | ProcessValidation (UnableToDecrypt AeadError) | ProcessValidation ValidationInvalidSignature
  | ProcessValidation (UnableToDecrypt GenerationOutOfBound) => true
  | _ => false
  end.

Definition Processed : Type := option ActionRecord * PostUpdateActions * option bytes.
Definition nothing : Processed := (None, PostNone, None).

(** A call of the library whose error the caller looks at *)
Definition try_group {E A} (name : string) (c : method (Mls * Store) E A) : op (outcome E A) := fun u =>
  match groups u !! name with
  | None => (Panic, u)
  | Some g =>
    let '(o, (m, st)) := c (mls_group g, crypto u) in
    (match o with Panic => Panic | o => Ok o end, set_crypto st (set_groups (<[name := set_mls m g]> (groups u)) u))
  end.

(** The commit of another member, with the draw of an independent client that decides whether it leaves *)
Definition process_commit_message (fuel : nat) (clk : Clock) (leaves : bool) (name sender : string) (group_epoch message_epoch : Z) (commit : StagedCommit) :
    op Processed :=
  u ← get;
  g ← unwrap (groups u !! name);
  let m := mls_group g in
  new_members ← unwrap_names (map credential_identity (commit_adds commit));
  removed ← unwrap (mapM (member_at m) (commit_removes commit));
  removed_members ← unwrap_names (map (fun x => credential_identity (member_credential x)) removed);
  on_group name mls_failed (mls_merge_staged_commit commit);;
  next_action ← (if is_orchestrated u then
      next_round fuel name removed_members (commit_transcript_hash commit)
        (usize_wrap (count_members m + Z.of_nat (length new_members) - Z.of_nat (length removed_members))) new_members
    else mret (if leaves then ActInactive else ActListen));
  u ← get;
  g ← unwrap (groups u !! name);
  let num_users := count_members (mls_group g) in
  if commit_removes_self commit || bool_decide (next_action = ActInactive) then
    mret (Some {| ar_group_name := name; ar_action := ActionProcess sender; ar_epoch_change := mkEpochChange (now_nanos clk) (usize_wrap (group_epoch + 1));
                  ar_elapsed_time := elapsed_micros clk; ar_num_users := num_users |}, PostRemove, Some (mls_group_id (mls_group g)))
  else
    (match next_action with ActCommit => send_to_agent name | _ => mret tt end);;
    mret (Some {| ar_group_name := name; ar_action := ActionDeepProcess sender; ar_epoch_change := mkEpochChange (now_nanos clk) (usize_wrap (message_epoch + 1));
                  ar_elapsed_time := elapsed_micros clk; ar_num_users := num_users |}, PostNone, None).

(** What is done with a message the group accepted *)
Definition process_content (fuel : nat) (clk : Clock) (leaves : bool) (name sender : string) (group_epoch message_epoch : Z) (credential : Credential)
    (content : ProcessedMessageContent StagedCommit) : op Processed :=
  sender_name ← unwrap_name (credential_identity credential);
  match content with
  | ApplicationMessage message =>
    message ← unwrap (from_utf8 message);
    modify (fun u => set_groups (alter (add_message (mkConversationMessage sender_name message)) name (groups u)) u);;
    mret nothing
  | ProposalMessage p =>
    on_group name mls_failed (mls_store_pending_proposal p);;
    u ← get;
    g ← unwrap (groups u !! name);
    mret (Some {| ar_group_name := name; ar_action := ActionStoreProp sender; ar_epoch_change := mkEpochChange (now_nanos clk) message_epoch;
                  ar_elapsed_time := elapsed_micros clk; ar_num_users := count_members (mls_group g) |}, PostNone, None)
  | ExternalJoinProposalMessage _ => mret nothing
  | StagedCommitMessage commit => process_commit_message fuel clk leaves name sender group_epoch message_epoch commit
  end.

Definition process_accepted (fuel : nat) (clk : Clock) (leaves : bool) (name sender : string) (group_epoch message_epoch : Z) (m : InboundProtocolMessage) : op Processed :=
  r ← try_group name (mls_process_message m);
  match r with
  | Ok (credential, content) => process_content fuel clk leaves name sender group_epoch message_epoch credential content
  | Err e => if is_conflict e then mret nothing else fail MlsError
  | Panic => lift Panic
  end.

Definition process_protocol_message (fuel : nat) (clk : Clock) (leaves : bool) (m : InboundProtocolMessage) (sender : string) : op Processed :=
  let header := protocol_header m in
  name ← unwrap_name (pm_group_id header);
  u ← get;
  match groups u !! name with
  | None => mret nothing
  | Some g =>
    let group_epoch := mls_epoch (mls_group g) in
    let message_epoch := pm_epoch header in
    if group_epoch <? message_epoch then
      match pm_content_type header with
      | ContentApplication | ContentProposal => mret nothing
      | ContentCommit =>
        let previous_state := active u !! name in
        mark_active name (false, usize_wrap (message_epoch + 1));;
        match previous_state with
        | Some (was_active, epoch) =>
          if (epoch =? message_epoch) || was_active then
            mret (Some {| ar_group_name := name; ar_action := ActionProcess sender;
                          ar_epoch_change := mkEpochChange (now_nanos clk) (usize_wrap (message_epoch + 1)); ar_elapsed_time := 0; ar_num_users := 0 |}, PostNone, None)
          else mret nothing
        | None => process_accepted fuel clk leaves name sender group_epoch (usize_wrap (message_epoch + 1)) m
        end
      end
    else process_accepted fuel clk leaves name sender group_epoch message_epoch m
  end.

(** The part of [process_in_message] for public and private messages *)
Definition process_and_leave (fuel : nat) (clk : Clock) (leaves : bool) (m : InboundProtocolMessage) (sender : string) : op (option ActionRecord) :=
  r ← process_protocol_message fuel clk leaves m sender;
  let '(record, post, gid) := r in
  match post with
  | PostNone => mret record
  | PostRemove =>
    flush_logs;;
    match gid with
    | Some gid =>
      name ← unwrap_name gid;
      unsubscribe name;;
      modify (fun u => set_group_list (group_list u ∖ {[ name ]}) (set_groups (delete name (groups u)) u));;
      mret record
    | None => fail MissingGroupId
    end
  end.

Definition process_welcome (fuel : nat) (clk : Clock) (sender : string) (size : Z) (welcome : Welcome) (tree : option RatchetTreeIn) (recipients : list bytes)
    (active_members : option (list bytes)) : op (option ActionRecord) :=
  ratchet_tree ← lift (ok_or tree MissingTree);
  r ← join_group clk welcome ratchet_tree;
  let '(name, epoch_change) := r in
  mark_active name (true, 0);;
  u ← get;
  g ← unwrap (groups u !! name);
  let num_users := count_members (mls_group g) in
  (match agent_type u with
   | AgentIndependent => subscribe name
   | AgentOrchestrator params _ =>
     active_members ← unwrap active_members;
     active_members ← unwrap_names active_members;
     new_members ← unwrap_names recipients;
     insert_orchestrator name (Orchestrator_new (username u) params active_members);;
     next_action ← on_orchestrator name (process_commit fuel (mls_transcript_hash (mls_group g)) num_users new_members);
     match next_action with
     | ActInactive => send_ack name;; modify (fun u => set_groups (delete name (groups u)) u)
     | ActListen => subscribe name
     | ActCommit => subscribe name;; send_to_agent name
     end
   end);;
  mret (Some {| ar_group_name := name; ar_action := ActionWelcome sender size; ar_epoch_change := epoch_change;
                ar_elapsed_time := elapsed_micros clk; ar_num_users := num_users |}).

Definition process_in_message (fuel : nat) (clk : Clock) (leaves : bool) (m : GroupMessage) : op (option ActionRecord) :=
  sender ← unwrap_name (gm_sender m);
  u ← get;
  if bool_decide (sender = username u) then
    header ← unwrap (protocol_header <$> ProtocolMessage_try_from (gm_msg m));
    name ← unwrap_name (pm_group_id header);
    confirm_commit fuel clk name;;
    mret None
  else
    let size := message_size (gm_msg m) + match gm_ratchet_tree m with Some rt => tls_serialized_len codec_ratchet_tree rt | None => 0 end in
    match msg_body (gm_msg m) with
    | BodyInWelcome welcome => process_welcome fuel clk sender size welcome (gm_ratchet_tree m) (gm_recipients m) (gm_active_members m)
    | BodyInPrivateMessage p => process_and_leave fuel clk leaves (ProtocolPrivateMessage p) sender
    | BodyInPublicMessage p => process_and_leave fuel clk leaves (ProtocolPublicMessage p) sender
    | _ => lift Panic
    end.

(** [fetch_updates] with what the service had for the client, and [update_clients] *)
Definition fetch_updates (fuel : nat) (clk : Clock) (leaves : bool) (messages : list GroupMessage) (clients : list Contact) : op () :=
  for_each_m messages (fun m => process_in_message fuel clk leaves m;; mret tt);;
  for_each_m clients add_contact.

(** [DSMessage] *)
Inductive DSMessage := DSGroupMessage (m : GroupMessage) | DSAck (a : WelcomeAcknowledgement).

(** [parse_message] of [pubsub/mod.rs] *)
Definition parse_message (fuel : nat) (clk : Clock) (leaves : bool) (m : DSMessage) (on_welcome_topic : bool) : op () :=
  u ← get;
  match m with
  | DSAck a => process_ack a
  | DSGroupMessage m =>
    recipients ← unwrap_names (gm_recipients m);
    if negb (bool_decide (username u ∈ recipients)) && on_welcome_topic then mret tt
    else
      record ← process_in_message fuel clk leaves m;
      (match record with Some r => write_timestamp r | None => mret tt end)
  end.

(** ** The agents *)

(** [candidates[rng.gen_range(0..len)]]: [pick] is the number drawn *)
Definition pick_one (pick : nat) (l : list string) : op string := unwrap (l !! pick).

(** [match c { Ok(x) => .., Err(e) => .. }] *)
Definition catch {A B} (c : op A) (ok : A -> op B) (err : UserError -> op B) : op B := fun u =>
  match c u with
  | (Ok x, u) => ok x u
  | (Err e, u) => err e u
  | (Panic, u) => (Panic, u)
  end.

(** [ClientAgent::invite_user], [remove_from_group], [update_group].  An independent
    agent asks the service for the group info first, which reserves the commit, and
    gives it back when it fails; [reserves] says which agent it is. *)
Definition commit_or_restore (reserves : bool) (group_name : string) (c : op EpochChange) : op () :=
  if reserves then
    catch (get_group_info group_name)
      (fun _ => catch c (fun _ => mret tt) (fun e => expect (publish_group_info group_name);; fail e))
      (fun _ => mret tt)
  else c;; mret tt.

Definition agent_invite_user (reserves : bool) (paradigm : Paradigm) (fuel : nat) (clk : Clock) (clients : list Contact) (pick : nat) (group_name : string) : op () :=
  for_each_m clients add_contact;;
  u ← get;
  match not_members_of_group group_name u with
  | [] => fail UnknownContact
  | candidates =>
    user_to_add ← pick_one pick candidates;
    match paradigm with
    | ParadigmCommit => commit_or_restore reserves group_name (invite fuel clk user_to_add group_name)
    | ParadigmPropose => user_propose fuel clk (ProposableInvite user_to_add) group_name
    end
  end.

Definition agent_remove_from_group (reserves : bool) (paradigm : Paradigm) (fuel : nat) (clk : Clock) (pick : nat) (group_name : string) : op () :=
  members ← members_of_group group_name;
  match members with
  | [] => fail UnknownMemberName
  | _ =>
    user_to_remove ← pick_one pick members;
    match paradigm with
    | ParadigmCommit => commit_or_restore reserves group_name (remove_user fuel clk user_to_remove group_name)
    | ParadigmPropose => user_propose fuel clk (ProposableRemove user_to_remove) group_name
    end
  end.

Definition agent_update_group (reserves : bool) (paradigm : Paradigm) (fuel : nat) (clk : Clock) (group_name : string) : op () :=
  match paradigm with
  | ParadigmCommit => commit_or_restore reserves group_name (update_state fuel clk group_name)
  | ParadigmPropose => user_propose fuel clk ProposableUpdate group_name
  end.

(** What one turn of the inner loop of an orchestrated agent draws *)
Inductive Choice := ChooseInvite (clients : list Contact) (pick : nat) | ChooseRemove (pick : nat) | ChooseUpdate.

Definition agent_act (reserves : bool) (paradigm : Paradigm) (fuel : nat) (clk : Clock) (choice : Choice) (group_name : string) : op () :=
  match choice with
  | ChooseInvite clients pick => agent_invite_user reserves paradigm fuel clk clients pick group_name
  | ChooseRemove pick => agent_remove_from_group reserves paradigm fuel clk pick group_name
  | ChooseUpdate => agent_update_group reserves paradigm fuel clk group_name
  end.

(** The inner loop of the orchestrated agent over the choices it draws: it ends with
    a commit.  [false]: not within these choices. *)
Fixpoint orchestrated_loop (paradigm : Paradigm) (proposals_per_commit : Z) (fuel : nat) (clk : Clock)
    (choose : list QueuedProposal -> Z -> list QueuedProposal) (choices : list Choice) (group_name : string) : op bool :=
  match choices with
  | [] => mret false
  | choice :: choices =>
    let again := orchestrated_loop paradigm proposals_per_commit fuel clk choose choices group_name in
    let act := agent_act false paradigm fuel clk choice group_name in
    match paradigm with
    | ParadigmCommit => catch act (fun _ => mret true) (fun _ => again)
    | ParadigmPropose =>
      catch act mret (fun _ => mret tt);;
      u ← get;
      match user_pending_proposals group_name u with
      | Ok n =>
        if n <? proposals_per_commit then again
        else catch (commit_to_proposals fuel clk choose group_name proposals_per_commit) (fun _ => mret true) (fun _ => again)
      | _ => lift Panic
      end
    end
  end.

(** The turn of an orchestrated agent that was told to act in a group *)
Definition orchestrated_turn (paradigm : Paradigm) (max_members proposals_per_commit : Z) (fuel : nat) (clk : Clock)
    (choose : list QueuedProposal -> Z -> list QueuedProposal) (pick : nat) (choices : list Choice) (group_name : string) : op bool :=
  u ← get;
  if negb (max_members =? 0) && (max_members <=? number_of_members group_name u) then
    catch (agent_remove_from_group false paradigm fuel clk pick group_name) (fun _ => mret false) (fun _ => mret false)
  else orchestrated_loop paradigm proposals_per_commit fuel clk choose choices group_name.

(** The part of [UserParameters] the agents use *)
Record UserParameters := mkUserParameters {
  paradigm : Paradigm;
  max_members : Z;
  proposals_per_commit : Z;
  external_join_allowed : bool;
  parameter_groups : list string;
  independent_policy : AuthorizationPolicy;
  (** [issue_update_chance == 0.0] *)
  never_updates : bool
}.

(** The draws of an independent agent for a group it is in: whether it issues an
    update and which, whether it commits to proposals, the message it sends *)
Record GroupDraws := mkGroupDraws {
  draws_update : bool;
  draws_choice : Choice;
  draws_pick : nat;
  draws_commit : bool;
  draws_message : option bytes
}.

(** An action whose error is only logged *)
Definition try_op {A} (c : op A) : op () := catch c (fun _ => mret tt) (fun _ => mret tt).

Definition independent_message (d : GroupDraws) (name : string) : op () :=
  match draws_message d with Some message => try_op (send_application_msg message name) | None => mret tt end.

Definition independent_commit (p : UserParameters) (fuel : nat) (clk : Clock) (choose : list QueuedProposal -> Z -> list QueuedProposal) (d : GroupDraws)
    (name : string) : op () :=
  match draws_commit d, paradigm p with
  | true, ParadigmPropose =>
    u ← get;
    n ← expect (lift (user_pending_proposals name u));
    if n <=? proposals_per_commit p then mret tt
    else catch (get_group_info name)
      (fun _ => catch (commit_to_proposals fuel clk choose name (proposals_per_commit p)) (fun _ => mret tt) (fun _ => expect (publish_group_info name)))
      (fun _ => mret tt)
  | _, _ => independent_message d name
  end.

(** The body of the loop over the groups of the client *)
Definition independent_group_turn (p : UserParameters) (fuel : nat) (clk : Clock) (choose : list QueuedProposal -> Z -> list QueuedProposal) (d : GroupDraws)
    (name : string) : op () :=
  u ← get;
  match is_authorised name (independent_policy p) u with
  | Ok true =>
    if draws_update d then
      if negb (max_members p =? 0) && (max_members p <=? number_of_members name u) then
        try_op (agent_remove_from_group true (paradigm p) fuel clk (draws_pick d) name)
      else
        try_op (agent_act true (paradigm p) fuel clk (draws_choice d) name);;
        match paradigm p with ParadigmCommit => mret tt | ParadigmPropose => independent_commit p fuel clk choose d name end
    else independent_commit p fuel clk choose d name
  | _ => mret tt
  end.

(** The body of the loop over the groups of the settings: [draws_join] says whether the
    client draws to join, [group_exists] is what the service answers.  Gives the
    groups the agent knows to exist. *)
Definition independent_join_turn (p : UserParameters) (fuel : nat) (clk : Clock) (groups_of_user : list string) (draws_join : string -> bool)
    (group_exists : string -> outcome string bool) (name : string) (existing_groups : list string) : op (list string) :=
  if bool_decide (name ∈ groups_of_user) || negb (draws_join name) then mret existing_groups
  else match (if bool_decide (name ∈ existing_groups) then Ok true else group_exists name) with
  | Ok false => try_op (create_group fuel clk name);; mret existing_groups
  | Ok true =>
    (if external_join_allowed p then
       catch (get_group_info name) (fun group_info => try_op (external_join fuel clk name group_info)) (fun _ => mret tt)
     else mret tt);;
    mret (existing_groups ++ [name])
  | _ => mret existing_groups
  end.

Fixpoint independent_join_turns (p : UserParameters) (fuel : nat) (clk : Clock) (groups_of_user : list string) (draws_join : string -> bool)
    (group_exists : string -> outcome string bool) (names existing_groups : list string) : op (list string) :=
  match names with
  | [] => mret existing_groups
  | name :: names =>
    existing_groups ← independent_join_turn p fuel clk groups_of_user draws_join group_exists name existing_groups;
    independent_join_turns p fuel clk groups_of_user draws_join group_exists names existing_groups
  end.

(** What the client gets when it asks for updates, and what its agent draws *)
Record TurnInput := mkTurnInput {
  in_leaves : bool;
  in_messages : list GroupMessage;
  in_clients : list Contact;
  in_draws : string -> GroupDraws;
  in_joins : string -> bool;
  in_exists : string -> outcome string bool
}.

(** One round of the loop of an independent agent with the groups it knows to exist;
    [None] when it has nothing left to do.  The groups are visited in the order of
    the map. *)
Definition independent_turn (p : UserParameters) (fuel : nat) (clk : Clock) (choose : list QueuedProposal -> Z -> list QueuedProposal) (i : TurnInput)
    (existing_groups : list string) : op (option (list string)) :=
  u ← get;
  let groups_of_user := (map_to_list (groups u)).*1 in
  if bool_decide (length groups_of_user = length (parameter_groups p)) && never_updates p then mret None
  else
    (match ds u with DsRequest => expect (fetch_updates fuel clk (in_leaves i) (in_messages i) (in_clients i)) | _ => mret tt end);;
    u ← get;
    for_each_m (map_to_list (groups u)).*1 (fun name => independent_group_turn p fuel clk choose (in_draws i name) name);;
    existing_groups ← independent_join_turns p fuel clk groups_of_user (in_joins i) (in_exists i) (parameter_groups p) existing_groups;
    mret (Some existing_groups).

(** *** How an agent starts *)

Definition subscribe_welcome : op () := u ← get; if has_broker u then send (SentSubscribeWelcome (username u)) else mret tt.
Definition register : op () := u ← get; send (SentRegister (username u) (identity_kp u)).

Definition create_kp : op () :=
  u ← get;
  r ← expect (on_crypto mls_failed (mls_new_key_package (own_identity u)));
  modify (fun u => set_identity_kp (identity_kp u ∪ {[ r.1 ]}) u);;
  send (SentKeyPackage (username u) r.1 r.2).

(** The error is looked for the status 403. *)
Definition mentions_403 (e : UserError) : bool :=
  match e with NetworkError e => match String.index 0 "403" e with Some _ => true | None => false end | _ => false end.

(** Both agents subscribe, register and publish a key package first. *)
Definition agent_start : op () :=
  expect subscribe_welcome;;
  expect register;;
  expect create_kp.

(** An orchestrated agent then creates the groups that do not exist. *)
Definition orchestrated_start (fuel : nat) (clk : Clock) (names : list string) : op () :=
  agent_start;;
  for_each_m names (fun name =>
    group_exists ← catch (get_group_info name) (fun _ => mret true) (fun e => mret (mentions_403 e));
    if group_exists : bool then mret tt else try_op (create_group fuel clk name)).

(** [new_orchestrated], [new_independent]: a client with a new identity *)
Definition User_new (name : string) (delivery : DeliveryKind) (agent : AgentType) (st : Store) : outcome UserError User :=
  match mls_new_key_package (str_bytes name) st with
  | (Ok (hash, _), st) => Ok {|
      username := name; contacts := ∅; groups := ∅; group_list := ∅; identity_kp := {[ hash ]}; pending_commits := ∅; ds := delivery;
      crypto := st; active := ∅; agent_type := agent; file_buffer := []; sent := [] |}
  | _ => Panic
  end.

Definition new_orchestrated (name : string) (delivery : DeliveryKind) (p : OrchestratedParameters) : Store -> outcome UserError User :=
  User_new name delivery (AgentOrchestrator p ∅).
Definition new_independent (name : string) (delivery : DeliveryKind) : Store -> outcome UserError User := User_new name delivery AgentIndependent.

(** ** Invariants of a client *)

(** An operation leads from a state to another one that it is related with: a
    relation that is reflexive and transitive is preserved by composition. *)
Definition respects (R : User -> User -> Prop) {A} (c : op A) : Prop := forall u, R u (c u).2.

Section Respects.
Context (R : User -> User -> Prop) `{!PreOrder R}.

Lemma respects_same {A} (c : op A) : (forall u, (c u).2 = u) -> respects R c.
Proof. intros Hc u. by rewrite Hc. Qed.

Lemma respects_bind {A B} (c : op A) (k : A -> op B) : respects R c -> (forall x, respects R (k x)) -> respects R (c ≫= k).
Proof.
  intros Hc Hk u. unfold mbind, method_bind. specialize (Hc u). destruct (c u) as [[x|e|] u']; cbn in *; [|done..]. etrans; [exact Hc|apply Hk].
Qed.

Lemma respects_catch {A B} (c : op A) (ok : A -> op B) err : respects R c -> (forall x, respects R (ok x)) -> (forall e, respects R (err e)) -> respects R (catch c ok err).
Proof.
  intros Hc Ho He u. unfold catch. specialize (Hc u). destruct (c u) as [[x|e|] u']; cbn in *; [etrans; [exact Hc|apply Ho]|etrans; [exact Hc|apply He]|done].
Qed.

Lemma respects_expect {A} (c : op A) : respects R c -> respects R (expect c).
Proof. intros Hc u. unfold expect. specialize (Hc u). by destruct (c u) as [[x|e|] u']. Qed.

Lemma respects_bind_at {A B} (c : op A) (k : A -> op B) u : R u (c u).2 -> (forall x u', c u = (Ok x, u') -> R u' (k x u').2) -> R u ((c ≫= k) u).2.
Proof. intros Hc Hk. unfold mbind, method_bind. destruct (c u) as [[x|e|] u']; cbn in *; [|done..]. etrans; [exact Hc|by apply Hk]. Qed.

Lemma respects_for_each_in {A} (l : list A) (c : A -> op ()) : (forall x, x ∈ l -> respects R (c x)) -> respects R (for_each_m l c).
Proof.
  induction l as [|x l IH]; intros Hc; [by apply respects_same|]. cbn. apply respects_bind; [apply Hc; left|]. intros _. apply IH. intros y Hy. apply Hc. by right.
Qed.

Lemma respects_for_each {A} (l : list A) (c : A -> op ()) : (forall x, respects R (c x)) -> respects R (for_each_m l c).
Proof. intros Hc. by apply respects_for_each_in. Qed.

End Respects.

(** What the operations on groups, the network and the log leave alone *)
Definition frame (u : User) : gmap string (bool * Z) * gmap string (option GroupInfo * option StoredWelcome * ActionRecord) * bool * string :=
  (active u, pending_commits u, is_orchestrated u, username u).

Definition same_frame (u u' : User) : Prop := frame u' = frame u.

#[local] Instance same_frame_preorder : PreOrder same_frame.
Proof. split; [by intros u|]. intros u v w E F. unfold same_frame in *. congruence. Qed.

Ltac frames := repeat match goal with
  | |- respects ?R (_ ≫= _) => apply (respects_bind R); [|intros ?]
  | |- respects ?R (catch _ _ _) => apply (respects_catch R); [|intros ?|intros ?]
  | |- respects ?R (expect _) => apply (respects_expect R)
  | |- respects ?R (for_each_m _ _) => apply (respects_for_each R); intros ?
  | |- respects _ (match _ with _ => _ end) => case_match
  | |- respects ?R (mret _) => by apply (respects_same R)
  | |- respects ?R (fail _) => by apply (respects_same R)
  | |- respects ?R (lift _) => by apply (respects_same R)
  | |- respects ?R (unwrap _) => by apply (respects_same R)
  | |- respects ?R get => by apply (respects_same R)
  | |- respects same_frame (modify _) => by intros ?
  end.

Lemma frame_send e : respects same_frame (send e).
Proof. unfold send. frames. Qed.
Lemma frame_send_unwrap e : respects same_frame (send_unwrap e).
Proof. unfold send_unwrap. frames. Qed.

Lemma frame_on_group {E A} name (error : E -> UserError) (c : method (Mls * Store) E A) : respects same_frame (on_group name error c).
Proof. intros u. unfold on_group. destruct (groups u !! name); [|done]. by destruct (c _) as [o [m st]]. Qed.

Lemma frame_try_group {E A} name (c : method (Mls * Store) E A) : respects same_frame (try_group name c).
Proof. intros u. unfold try_group. destruct (groups u !! name); [|done]. by destruct (c _) as [o [m st]]. Qed.

Lemma frame_on_crypto {E A} (error : E -> UserError) (c : method Store E A) : respects same_frame (on_crypto error c).
Proof. intros u. unfold on_crypto. by destruct (c _). Qed.

Lemma frame_unwrap_names l : respects same_frame (unwrap_names l).
Proof. induction l as [|b l IH]; cbn [unwrap_names]; unfold unwrap_name; frames; done. Qed.

Lemma frame_orchestrator name f : respects same_frame (on_orchestrator name f).
Proof.
  intros u. unfold on_orchestrator. run. destruct (agent_type u) eqn:Ea; [|done]. unfold unwrap. destruct (orchestrators !! name) as [o|]; [|done].
  destruct (f o) as [r o']. assert (Hs : same_frame u (set_agent_type (AgentOrchestrator parameters (<[name:=o']> orchestrators)) u)).
  { unfold same_frame, frame, is_orchestrated. by rewrite Ea. }
  destruct r as [[a|]| |]; done.
Qed.

Lemma frame_insert_orchestrator name o : respects same_frame (insert_orchestrator name o).
Proof. intros u. unfold insert_orchestrator. run. destruct (agent_type u) eqn:Ea; [|done]. unfold same_frame, frame, is_orchestrated. by rewrite Ea. Qed.

#[local] Hint Resolve frame_send frame_send_unwrap frame_on_group frame_try_group frame_on_crypto frame_unwrap_names frame_orchestrator
  frame_insert_orchestrator : mls.

Ltac framed := frames; eauto with mls.

Lemma frame_flush : respects same_frame flush_logs.
Proof. unfold flush_logs. framed. Qed.
#[local] Hint Resolve frame_flush : mls.
Lemma frame_write r : respects same_frame (write_timestamp r).
Proof. unfold write_timestamp. framed. Qed.
Lemma frame_subscribe name : respects same_frame (subscribe name).
Proof. unfold subscribe. framed. Qed.
Lemma frame_unsubscribe name : respects same_frame (unsubscribe name).
Proof. unfold unsubscribe. framed. Qed.
Lemma frame_send_to_group name m recipients : respects same_frame (send_to_group name m recipients).
Proof. unfold send_to_group. framed. Qed.
Lemma frame_send_to_agent name : respects same_frame (send_to_agent name).
Proof. unfold send_to_agent. framed. Qed.
Lemma frame_send_ack name : respects same_frame (send_ack name).
Proof. unfold send_ack. framed. Qed.
Lemma frame_publish m gi : respects same_frame (publish_info m gi).
Proof. unfold publish_info, unwrap_name. framed. Qed.
#[local] Hint Resolve frame_write frame_subscribe frame_unsubscribe frame_send_to_group frame_send_to_agent frame_send_ack frame_publish : mls.

Lemma frame_publish_group name : respects same_frame (publish_group_info name).
Proof. unfold publish_group_info. framed. Qed.
Lemma frame_next_round fuel name removed hash total new : respects same_frame (next_round fuel name removed hash total new).
Proof. unfold next_round. framed. Qed.
Lemma frame_insert_group name m : respects same_frame (insert_group name m).
Proof. unfold insert_group. framed. Qed.
Lemma frame_consume c : respects same_frame (consume_key_package c).
Proof. unfold consume_key_package. framed. Qed.
Lemma frame_group_info name : respects same_frame (get_group_info name).
Proof. unfold get_group_info. framed. Qed.
Lemma frame_contact c : respects same_frame (add_contact c).
Proof. unfold add_contact. framed. Qed.
#[local] Hint Resolve frame_publish_group frame_next_round frame_insert_group frame_consume frame_group_info frame_contact : mls.

Lemma frame_start : respects same_frame agent_start.
Proof. unfold agent_start, subscribe_welcome, register, create_kp. framed. Qed.

Lemma frame_adds_user user pending : respects same_frame (adds_user user pending).
Proof. induction pending as [|p pending IH]; cbn [adds_user]; unfold unwrap_name; frames; done. Qed.
#[local] Hint Resolve frame_adds_user : mls.

Lemma frame_ack a : respects same_frame (process_ack a).
Proof. unfold process_ack. framed. Qed.
#[local] Hint Resolve frame_ack : mls.

Lemma frame_commit_message fuel clk leaves name sender ge me commit : respects same_frame (process_commit_message fuel clk leaves name sender ge me commit).
Proof. unfold process_commit_message. framed. Qed.
#[local] Hint Resolve frame_commit_message : mls.

Lemma frame_content fuel clk leaves name sender ge me c content : respects same_frame (process_content fuel clk leaves name sender ge me c content).
Proof. unfold process_content, unwrap_name. framed. Qed.
#[local] Hint Resolve frame_content : mls.

Lemma frame_accepted fuel clk leaves name sender ge me m : respects same_frame (process_accepted fuel clk leaves name sender ge me m).
Proof. unfold process_accepted. framed. Qed.
#[local] Hint Resolve frame_accepted : mls.

(** *** Pending commits and desynchronised groups *)

(** An orchestrated client without pending commits still has none. *)
Definition quiet (u u' : User) : Prop :=
  is_orchestrated u' = is_orchestrated u /\ (is_orchestrated u = true -> pending_commits u = ∅ -> pending_commits u' = ∅).

Definition asleep (u : User) (name : string) : Prop := exists e, active u !! name = Some (false, e).

(** A group the client has lost track of stays so. *)
Definition sleeps (u u' : User) : Prop := forall name, asleep u name -> asleep u' name.

#[local] Instance quiet_preorder : PreOrder quiet.
Proof. split; [done|]. intros u v w [E1 H1'] [E2 H2']. split; [congruence|]. intros Ho Hp. apply H2'; [congruence|auto]. Qed.

#[local] Instance sleeps_preorder : PreOrder sleeps.
Proof. split; [by intros u name|]. intros u v w Huv Hvw name Ha. auto. Qed.

Lemma frame_quiet {A} (c : op A) : respects same_frame c -> respects quiet c.
Proof. intros Hc u. specialize (Hc u). injection Hc as _ Hp Ho _. split; [done|]. by rewrite Hp. Qed.

Lemma frame_sleeps {A} (c : op A) : respects same_frame c -> respects sleeps c.
Proof. intros Hc u name. specialize (Hc u). injection Hc as Ha _ _ _. unfold asleep. by rewrite Ha. Qed.

Lemma frame_finish fuel clk name gi sw record : respects same_frame (finish_commit fuel clk name gi sw record).
Proof. unfold finish_commit, send_welcomes, send_welcome, announce_commit, after_round. framed. Qed.

(** Confirming a commit takes it off the pending ones. *)
Lemma confirm_frame fuel clk name u :
  frame (confirm_commit fuel clk name u).2 = (active u, delete name (pending_commits u), is_orchestrated u, username u).
Proof.
  unfold confirm_commit. run. destruct (pending_commits u !! name) as [[[gi sw] record]|] eqn:Ep; [by apply frame_finish|].
  unfold frame. cbn [snd]. by rewrite delete_id.
Qed.

Lemma confirm_quiet fuel clk name : respects quiet (confirm_commit fuel clk name).
Proof.
  intros u. pose proof (confirm_frame fuel clk name u) as Hf. injection Hf as _ Hp Ho _. split; [done|]. rewrite Hp. intros _ ->. apply delete_empty.
Qed.

Lemma confirm_sleeps fuel clk name : respects sleeps (confirm_commit fuel clk name).
Proof. intros u n. pose proof (confirm_frame fuel clk name u) as Hf. injection Hf as Ha _ _ _. unfold asleep. by rewrite Ha. Qed.

(** A commit of an orchestrated client is pending only until it was confirmed. *)
Lemma insert_confirm_quiet fuel clk name entry :
  respects quiet (u ← get; modify (set_pending_commits (<[name := entry]> (pending_commits u)));; (if is_orchestrated u then confirm_commit fuel clk name else mret tt)).
Proof.
  intros u. run. set (u1 := set_pending_commits (<[name := entry]> (pending_commits u)) u). destruct (is_orchestrated u) eqn:Eo.
  - pose proof (confirm_frame fuel clk name u1) as Hf. injection Hf as _ Hp Ho _. split; [by rewrite Ho|]. intros _ Hu. rewrite Hp. unfold u1. cbn. rewrite Hu.
    by rewrite delete_insert_eq, delete_empty.
  - split; [done|]. by rewrite Eo.
Qed.

Lemma post_quiet fuel clk name m gi w action t : respects quiet (post_process_commit fuel clk name m gi w action t).
Proof.
  unfold post_process_commit. apply (respects_bind quiet); [by apply (respects_same quiet)|intros u0]. apply (respects_bind quiet); [by apply (respects_same quiet)|intros x0].
  apply (respects_bind quiet); [by apply frame_quiet, frame_send_to_group|intros _]. intros u.
  pose proof (insert_confirm_quiet fuel clk name (gi, w, {| ar_group_name := name; ar_action := action;
    ar_epoch_change := mkEpochChange (now_nanos clk) (mls_epoch (mls_group x0)); ar_elapsed_time := t; ar_num_users := count_members (mls_group x0) |}) u) as Hq.
  run. destruct (is_orchestrated u); [|exact Hq]. by destruct (confirm_commit _ _ _ _) as [[]].
Qed.

Lemma post_sleeps fuel clk name m gi w action t : respects sleeps (post_process_commit fuel clk name m gi w action t).
Proof.
  unfold post_process_commit. frames; try apply confirm_sleeps; try (apply frame_sleeps, frame_send_to_group). by intros u n.
Qed.

#[local] Hint Resolve confirm_quiet confirm_sleeps post_quiet post_sleeps frame_quiet frame_sleeps : mls.

Lemma process_quiet fuel clk leaves m sender : respects quiet (process_protocol_message fuel clk leaves m sender).
Proof. unfold process_protocol_message, mark_active, unwrap_name. frames; eauto with mls. all: by intros u. Qed.

(** A commit of an epoch to come marks the group as lost. *)
Lemma mark_sleeps name e : respects sleeps (mark_active name (false, e)).
Proof.
  intros u n [e' Ha]. unfold asleep, mark_active. cbn. destruct (decide (name = n)) as [->|Hn]; [exists e; apply lookup_insert_eq|exists e'].
  by rewrite lookup_insert_ne.
Qed.

Lemma mark_quiet name x : respects quiet (mark_active name x).
Proof. by intros u. Qed.
#[local] Hint Resolve process_quiet mark_sleeps mark_quiet : mls.

Lemma process_sleeps fuel clk leaves m sender : respects sleeps (process_protocol_message fuel clk leaves m sender).
Proof. unfold process_protocol_message, unwrap_name. frames; eauto with mls. Qed.
#[local] Hint Resolve process_sleeps : mls.

Lemma leave_frame name : respects same_frame (modify (fun u => set_group_list (group_list u ∖ {[ name ]}) (set_groups (delete name (groups u)) u))).
Proof. by intros u. Qed.
#[local] Hint Resolve leave_frame : mls.

Ltac operation := frames; eauto with mls.

(** The operations of a client that does not join a group *)
Inductive user_operation : forall {A : Type}, op A -> Prop :=
| uo_message msg name : user_operation (send_application_msg msg name)
| uo_contact c : user_operation (add_contact c)
| uo_invite fuel clk name group : user_operation (invite fuel clk name group)
| uo_update fuel clk group : user_operation (update_state fuel clk group)
| uo_remove fuel clk name group : user_operation (remove_user fuel clk name group)
| uo_propose fuel clk action group : user_operation (user_propose fuel clk action group)
| uo_commit fuel clk choose group amount : user_operation (commit_to_proposals fuel clk choose group amount)
| uo_publish group : user_operation (publish_group_info group)
| uo_ack a : user_operation (process_ack a)
| uo_confirm fuel clk group : user_operation (confirm_commit fuel clk group)
| uo_process fuel clk leaves m sender : user_operation (process_and_leave fuel clk leaves m sender)
| uo_log r : user_operation (write_timestamp r)
| uo_group_info group : user_operation (get_group_info group)
| uo_members group : user_operation (members_of_group group).

(** Those with which it joins one *)
Inductive user_join : forall {A : Type}, op A -> Prop :=
| uj_create fuel clk name : user_join (create_group fuel clk name)
| uj_external fuel clk name gi : user_join (external_join fuel clk name gi)
| uj_welcome fuel clk sender size w tree recipients active_members : user_join (process_welcome fuel clk sender size w tree recipients active_members).

Lemma frame_members name : respects same_frame (members_of_group name).
Proof.
  unfold members_of_group. frames. generalize (mls_recipients x (mls_group g)). intros l. induction l as [|b l IH]; [framed|].
  unfold unwrap_name. frames; done.
Qed.
#[local] Hint Resolve frame_members : mls.

Lemma operation_quiet {A} (c : op A) : user_operation c -> respects quiet c.
Proof.
  destruct 1; unfold send_application_msg, invite, update_state, remove_user, user_propose, commit_to_proposals, process_and_leave, unwrap_name; operation.
Qed.

Lemma operation_sleeps {A} (c : op A) : user_operation c -> respects sleeps c.
Proof.
  destruct 1; unfold send_application_msg, invite, update_state, remove_user, user_propose, commit_to_proposals, process_and_leave, unwrap_name; operation.
Qed.

Lemma join_quiet {A} (c : op A) : user_join c -> respects quiet c.
Proof.
  destruct 1; unfold create_group, external_join, process_welcome, join_group, unwrap_name; operation. all: by intros u.
Qed.

(** The turns of the agents are made of operations: what these respect, a turn respects. *)
Section Agents.
Context (R : User -> User -> Prop) `{!PreOrder R} (Hop : forall A (c : op A), user_operation c -> respects R c).

Ltac turn := frames; try (apply Hop; constructor).

Lemma act_respects reserves paradigm fuel clk choice group : respects R (agent_act reserves paradigm fuel clk choice group).
Proof.
  destruct choice; cbn; unfold agent_invite_user, agent_remove_from_group, agent_update_group, commit_or_restore, pick_one; turn.
Qed.

Lemma remove_respects reserves paradigm fuel clk pick group : respects R (agent_remove_from_group reserves paradigm fuel clk pick group).
Proof. exact (act_respects reserves paradigm fuel clk (ChooseRemove pick) group). Qed.

Lemma orchestrated_loop_respects paradigm n fuel clk choose choices group : respects R (orchestrated_loop paradigm n fuel clk choose choices group).
Proof.
  induction choices as [|choice choices IH]; cbn; [turn|]. destruct paradigm; turn; try done; apply act_respects.
Qed.

Lemma orchestrated_turn_respects paradigm max n fuel clk choose pick choices group :
  respects R (orchestrated_turn paradigm max n fuel clk choose pick choices group).
Proof. unfold orchestrated_turn. turn; auto using remove_respects, orchestrated_loop_respects. Qed.

Lemma independent_commit_respects p fuel clk choose d group : respects R (independent_commit p fuel clk choose d group).
Proof. unfold independent_commit, independent_message, try_op. turn. Qed.

Lemma independent_turn_respects p fuel clk choose d group : respects R (independent_group_turn p fuel clk choose d group).
Proof. unfold independent_group_turn, try_op. turn; auto using act_respects, remove_respects, independent_commit_respects. Qed.

End Agents.

(** One step of a client that stays with its groups: an operation, or the turn of
    its agent in one of them *)
Inductive group_step (u : User) : User -> Prop :=
| gs_operation A (c : op A) : user_operation c -> group_step u (c u).2
| gs_orchestrated paradigm max n fuel clk choose pick choices group :
    group_step u (orchestrated_turn paradigm max n fuel clk choose pick choices group u).2
| gs_independent p fuel clk choose d group : group_step u (independent_group_turn p fuel clk choose d group u).2.

(** One step of any client: it may join groups, and it receives what the brokers or
    the service deliver *)
Inductive client_step (u : User) : User -> Prop :=
| cs_group u' : group_step u u' -> client_step u u'
| cs_join A (c : op A) : user_join c -> client_step u (c u).2
| cs_turn p fuel clk choose i existing : client_step u (independent_turn p fuel clk choose i existing u).2
| cs_start : client_step u (agent_start u).2
| cs_orchestrated_start fuel clk names : client_step u (orchestrated_start fuel clk names u).2
| cs_message fuel clk leaves m on_welcome_topic : client_step u (parse_message fuel clk leaves m on_welcome_topic u).2
| cs_fetch fuel clk leaves messages clients : client_step u (fetch_updates fuel clk leaves messages clients u).2.

Lemma group_step_respects (R : User -> User -> Prop) `{!PreOrder R} u u' : (forall A (c : op A), user_operation c -> respects R c) -> group_step u u' -> R u u'.
Proof.
  intros Hop [A c Hc| |]; [by apply Hop|by apply orchestrated_turn_respects|by apply independent_turn_respects].
Qed.

(** The steps made of operations and of some ways to join: what these respect, a step
    respects *)
Definition welcome_of (m : GroupMessage) : option Welcome := match msg_body (gm_msg m) with BodyInWelcome w => Some w | _ => None end.

Definition joins_by_message (R : User -> User -> Prop) (m : GroupMessage) : Prop := forall fuel clk sender size w tree recipients active_members,
  welcome_of m = Some w -> respects R (process_welcome fuel clk sender size w tree recipients active_members).

Definition joins_by_name (R : User -> User -> Prop) (name : string) : Prop :=
  (forall fuel clk, respects R (create_group fuel clk name)) /\ (forall fuel clk gi, respects R (external_join fuel clk name gi)).

Lemma in_message_respects (R : User -> User -> Prop) `{!PreOrder R} fuel clk leaves m :
  (forall A (c : op A), user_operation c -> respects R c) -> joins_by_message R m -> respects R (process_in_message fuel clk leaves m).
Proof.
  intros Hop Hjoin. unfold process_in_message, unwrap_name. frames; first [apply Hop; constructor|apply Hjoin; unfold welcome_of; by match goal with E : msg_body _ = _ |- _ => rewrite E end].
Qed.

Lemma unwrap_names_respects (R : User -> User -> Prop) `{!PreOrder R} l : respects R (unwrap_names l).
Proof. induction l as [|b l IH]; cbn [unwrap_names]; unfold unwrap_name; frames; done. Qed.

Lemma fetch_respects (R : User -> User -> Prop) `{!PreOrder R} fuel clk leaves messages clients :
  (forall A (c : op A), user_operation c -> respects R c) -> (forall m, m ∈ messages -> joins_by_message R m) ->
  respects R (fetch_updates fuel clk leaves messages clients).
Proof.
  intros Hop Hjoin. unfold fetch_updates. apply (respects_bind R); [apply (respects_for_each_in R); intros m Hm; frames; by apply in_message_respects, Hjoin|].
  intros _. frames. apply Hop. constructor.
Qed.

Lemma join_turns_respects (R : User -> User -> Prop) `{!PreOrder R} p fuel clk mine joins answers names existing :
  (forall A (c : op A), user_operation c -> respects R c) -> (forall name, name ∉ mine -> joins_by_name R name) ->
  respects R (independent_join_turns p fuel clk mine joins answers names existing).
Proof.
  intros Hop Hjoin. revert existing. induction names as [|name names IH]; intros existing; cbn [independent_join_turns]; [by apply respects_same|].
  apply (respects_bind R); [|intros ?; apply IH]. unfold independent_join_turn. destruct (decide (name ∈ mine)) as [Hin|Hout].
  { rewrite bool_decide_true by done. by apply (respects_same R). }
  destruct (Hjoin name Hout) as [Hc He]. unfold try_op. frames; first [apply Hop; constructor|apply Hc|apply He].
Qed.

Lemma client_step_respects (R : User -> User -> Prop) `{!PreOrder R} u u' :
  (forall A (c : op A), user_operation c -> respects R c) -> (forall A (c : op A), user_join c -> respects R c) -> respects R agent_start ->
  client_step u u' -> R u u'.
Proof.
  intros Hop Hjoin Hstart Hs. assert (Hm : forall m, joins_by_message R m) by (intros m fuel clk sender size w tree rs am _; apply Hjoin; constructor).
  assert (Hn : forall name, joins_by_name R name) by (split; intros; apply Hjoin; constructor).
  pose proof (fun fuel clk leaves m => in_message_respects R fuel clk leaves m Hop (Hm m)) as Hin.
  destruct Hs as [u' Hg|A c Hc|p fuel clk choose i existing| |fuel clk names|fuel clk leaves m topic|fuel clk leaves messages clients];
    [by eapply group_step_respects|by apply Hjoin|..].
  all: revert u; match goal with |- forall u, ?Q u (?c u).2 => change (respects Q c) end.
  all: unfold independent_turn, orchestrated_start, parse_message, try_op; frames;
    auto using unwrap_names_respects, fetch_respects, join_turns_respects, independent_turn_respects.
  all: first [apply Hop; constructor|apply Hjoin; constructor].
Qed.

(** One step of a client that does not join the group [name] again: it may join any
    other group.  An independent agent that holds the group does not try to join it. *)
Definition welcomed_elsewhere (name : string) (w : Welcome) (tree : option RatchetTreeIn) (u : User) : Prop :=
  forall rt m st, tree = Some rt -> mls_join_by_welcome w rt (crypto u) = (Ok m, st) -> utf8_name (mls_group_id m) <> Some name.

Inductive apart_step (name : string) (u : User) : User -> Prop :=
| as_group u' : group_step u u' -> apart_step name u u'
| as_create fuel clk other : other <> name -> apart_step name u (create_group fuel clk other u).2
| as_external fuel clk other gi : other <> name -> apart_step name u (external_join fuel clk other gi u).2
| as_welcome fuel clk sender size w tree recipients active_members : welcomed_elsewhere name w tree u ->
    apart_step name u (process_welcome fuel clk sender size w tree recipients active_members u).2
| as_turn p fuel clk choose i existing : is_Some (groups u !! name) -> (forall m, m ∈ in_messages i -> welcome_of m = None) ->
    apart_step name u (independent_turn p fuel clk choose i existing u).2
| as_start : apart_step name u (agent_start u).2
| as_orchestrated_start fuel clk names : name ∉ names -> apart_step name u (orchestrated_start fuel clk names u).2
| as_message fuel clk leaves m on_welcome_topic : (forall gm, m = DSGroupMessage gm -> welcome_of gm = None) ->
    apart_step name u (parse_message fuel clk leaves m on_welcome_topic u).2
| as_fetch fuel clk leaves messages clients : (forall m, m ∈ messages -> welcome_of m = None) ->
    apart_step name u (fetch_updates fuel clk leaves messages clients u).2.

(** The group [name] stays lost. *)
Definition sleeps_at (name : string) (u u' : User) : Prop := asleep u name -> asleep u' name.

#[local] Instance sleeps_at_preorder name : PreOrder (sleeps_at name).
Proof. split; [by intros u Ha|]. intros u v w Huv Hvw Ha. auto. Qed.

Lemma sleeps_sleeps_at {A} (c : op A) name : respects sleeps c -> respects (sleeps_at name) c.
Proof. intros Hc u. exact (Hc u name). Qed.

Lemma frame_sleeps_at {A} (c : op A) name : respects same_frame c -> respects (sleeps_at name) c.
Proof. intros Hc. by apply sleeps_sleeps_at, frame_sleeps. Qed.

Lemma mark_other name other x : other <> name -> respects (sleeps_at name) (mark_active other x).
Proof. intros Hne u [e Ha]. exists e. unfold mark_active. cbn. by rewrite lookup_insert_ne. Qed.

Lemma operation_sleeps_at {A} (c : op A) name : user_operation c -> respects (sleeps_at name) c.
Proof. intros Hc. by apply sleeps_sleeps_at, operation_sleeps. Qed.
#[local] Hint Resolve frame_sleeps_at mark_other sleeps_sleeps_at : mls.

Lemma create_other fuel clk other name : other <> name -> respects (sleeps_at name) (create_group fuel clk other).
Proof. intros Hne. unfold create_group. operation. Qed.

Lemma external_other fuel clk other gi name : other <> name -> respects (sleeps_at name) (external_join fuel clk other gi).
Proof. intros Hne. unfold external_join. operation. Qed.

Lemma join_group_other clk w rt u name other ec u' : welcomed_elsewhere name w (Some rt) u -> join_group clk w rt u = (Ok (other, ec), u') -> other <> name.
Proof.
  intros Hw Hj ->. unfold join_group, on_crypto, unwrap_name, unwrap in Hj. revert Hj. run. cbn [crypto set_identity_kp].
  destruct (mls_join_by_welcome w rt (crypto u)) as [[m|e|] st] eqn:Em; cbn; [|done..].
  specialize (Hw rt m st eq_refl Em). destruct (utf8_name (mls_group_id m)) as [n|]; cbn; [|done]. congruence.
Qed.

Lemma welcome_other fuel clk sender size w tree recipients active_members name u : welcomed_elsewhere name w tree u ->
  sleeps_at name u (process_welcome fuel clk sender size w tree recipients active_members u).2.
Proof.
  intros Hw. unfold process_welcome. destruct tree as [rt|]; [|by intros Ha]. apply (respects_bind_at (sleeps_at name)); [by intros Ha|intros x u0 Hx; cbn in Hx; injection Hx as <- <-].
  apply (respects_bind_at (sleeps_at name)); [revert u Hw|].
  - intros u _. assert (Hj : respects (sleeps_at name) (join_group clk w rt)) by (unfold join_group, unwrap_name; operation; by intros v Ha). apply Hj.
  - intros [other ec] u' Hj. pose proof (join_group_other _ _ _ _ _ _ _ _ Hw Hj) as Hne. clear Hj Hw u. revert u'.
    match goal with |- forall u', sleeps_at name u' (?c u').2 => change (respects (sleeps_at name) c) end. operation. by intros v Ha.
Qed.

Lemma joins_by_no_message (R : User -> User -> Prop) m : welcome_of m = None -> joins_by_message R m.
Proof. intros E fuel clk sender size w tree rs am. by rewrite E. Qed.

Lemma independent_turn_apart p fuel clk choose i existing name u : is_Some (groups u !! name) -> (forall m, m ∈ in_messages i -> welcome_of m = None) ->
  sleeps_at name u (independent_turn p fuel clk choose i existing u).2.
Proof.
  intros [g Hg] Hi. pose proof (fun A (c : op A) => operation_sleeps_at c name) as Hop. unfold independent_turn.
  apply (respects_bind_at (sleeps_at name)); [by intros Ha|]. intros x u0 Hx. cbn in Hx. injection Hx as <- <-.
  assert (Hmine : name ∈ (map_to_list (groups u)).*1) by (apply list_elem_of_fmap; exists (name, g); split; [done|by apply elem_of_map_to_list]).
  match goal with |- sleeps_at name u (?c u).2 => assert (Hc : respects (sleeps_at name) c); [|apply Hc] end. clear Hg. cbv beta zeta.
  frames; try (apply (fetch_respects (sleeps_at name)); auto using joins_by_no_message); try by apply (independent_turn_respects (sleeps_at name)).
  all: apply (join_turns_respects (sleeps_at name)); [done|]. intros other Hout. assert (other <> name) by (intros ->; contradiction).
  split; intros; [by apply create_other|by apply external_other].
Qed.

Lemma apart_step_sleeps name u u' : apart_step name u u' -> sleeps_at name u u'.
Proof.
  assert (Hop : forall A (c : op A), user_operation c -> respects (sleeps_at name) c) by (intros A c; apply operation_sleeps_at).
  pose proof (joins_by_no_message (sleeps_at name)) as Hm.
  intros Hs. destruct Hs as [u' Hg|fuel clk other Hne|fuel clk other gi Hne|fuel clk sender size w tree rs am Hw|p fuel clk choose i existing Hg Hi| |fuel clk names Hnames|
    fuel clk leaves m topic Hgm|fuel clk leaves messages clients Hmsgs].
  - by eapply (group_step_respects (sleeps_at name)).
  - by apply create_other.
  - by apply external_other.
  - by apply welcome_other.
  - by apply independent_turn_apart.
  - apply frame_sleeps_at, frame_start.
  - revert u. match goal with |- forall u, sleeps_at name u (?c u).2 => change (respects (sleeps_at name) c) end. unfold orchestrated_start, try_op.
    apply (respects_bind (sleeps_at name)); [apply frame_sleeps_at, frame_start|intros _]. apply (respects_for_each_in (sleeps_at name)). intros other Hin.
    frames; first [apply Hop; constructor|apply create_other; set_solver].
  - revert u. match goal with |- forall u, sleeps_at name u (?c u).2 => change (respects (sleeps_at name) c) end. unfold parse_message.
    frames; first [apply (unwrap_names_respects (sleeps_at name))|apply (in_message_respects (sleeps_at name)); auto|apply Hop; constructor].
  - revert u. apply (fetch_respects (sleeps_at name)); auto.
Qed.

Lemma rtc_respects (step R : User -> User -> Prop) `{!PreOrder R} u u' : (forall u u', step u u' -> R u u') -> rtc step u u' -> R u u'.
Proof. intros Hs. induction 1 as [u|u v w Huv _ IH]; [done|]. etrans; [by apply Hs|done]. Qed.

(** *** What a confirmed commit does *)

(** What went to the network and the agent, and what was logged, flushed or not *)
Definition is_log (e : Sent) : bool := match e with SentLog _ => true | _ => false end.
Definition wire (u : User) : list Sent := List.filter (fun e => negb (is_log e)) (sent u).
Definition log_of (e : Sent) : list ActionRecord := match e with SentLog records => records | _ => [] end.
Definition logged (u : User) : list ActionRecord := concat (map log_of (sent u)) ++ file_buffer u.

(** All but the log and the messages *)
Definition core (u : User) : User := set_sent [] (set_file_buffer [] u).

(** The members an orchestrated client tells the new ones about *)
Definition told_members (a : AgentType) (name : string) : option (list bytes) :=
  match a with AgentIndependent => None | AgentOrchestrator _ orchestrators => map str_bytes ∘ known_members <$> orchestrators !! name end.

(** The agent after a commit, and whether it was told to act *)
Definition agent_after (fuel : nat) (name : string) (removed : list string) (hash : bytes) (total : Z) (new_members : list string) (a : AgentType) :
    option (AgentType * NextAction) :=
  match a with
  | AgentIndependent => Some (AgentIndependent, ActListen)
  | AgentOrchestrator p orchestrators =>
    o ← orchestrators !! name;
    match process_commit fuel hash total new_members (Orchestrator.remove_members removed o) with
    | (Ok (Some next), o) => Some (AgentOrchestrator p (<[name := o]> orchestrators), next)
    | _ => None
    end
  end.

(** The group info that is published after a commit *)
Definition announced_info (m : Mls) (group_info : option GroupInfo) : option GroupInfoAndTree :=
  match group_info with
  | Some gi => Some (mkGroupInfoAndTree (group_info_into gi) (Some (mls_export_ratchet_tree m)))
  | None => match mls_export_group_info m with Ok gi => Some (mkGroupInfoAndTree gi (Some (mls_export_ratchet_tree m))) | _ => None end
  end.

Definition new_members_of (stored_welcome : option StoredWelcome) : list string := match stored_welcome with Some sw => sw_recipients sw | None => [] end.

Definition welcomes (u : User) (name : string) (m : Mls) (stored_welcome : option StoredWelcome) : list Sent :=
  match stored_welcome with
  | None => []
  | Some sw =>
    let msg := mkGroupMessage (sw_welcome sw) (str_bytes (username u)) (Some (mls_export_ratchet_tree m)) (map str_bytes (sw_recipients sw))
                 (told_members (agent_type u) name) in
    map (fun recipient => SentWelcome recipient msg) (sw_recipients sw)
  end.

Definition told (name : string) (a : NextAction) : list Sent := match a with ActCommit => [SentToAgent name] | _ => [] end.

Lemma bind_step {A B : Type} (c : op A) (k : A -> op B) x u u' : c u = (Ok x, u') -> (c ≫= k) u = k x u'.
Proof. unfold mbind, method_bind. by intros ->. Qed.

Section Accepted.
Context (accepts : forall past e, net past e = None).

Lemma send_ok e u : send e u = (Ok tt, set_sent (sent u ++ [e]) u).
Proof. unfold send. run. by rewrite accepts. Qed.

Lemma send_unwrap_ok e u : send_unwrap e u = (Ok tt, set_sent (sent u ++ [e]) u).
Proof. unfold send_unwrap. run. by rewrite accepts. Qed.

Lemma set_sent_sent x y u : set_sent x (set_sent y u) = set_sent x u.
Proof. done. Qed.

Lemma sent_same u : set_sent (sent u ++ []) u = u.
Proof. destruct u; cbn. by rewrite app_nil_r. Qed.

Lemma send_all_ok {A : Type} (l : list A) (f : A -> Sent) (u : User) : for_each_m l (fun x => send (f x)) u = (Ok tt, set_sent (sent u ++ map f l) u).
Proof.
  revert u. induction l as [|x l IH]; intros u; [cbn; by rewrite sent_same|]. cbn [for_each_m map]. unfold mbind, method_bind. rewrite send_ok, IH. cbn [sent set_sent].
  by rewrite set_sent_sent, <- app_assoc.
Qed.

Lemma write_ok r u : exists u', write_timestamp r u = (Ok tt, u') /\ core u' = core u /\ wire u' = wire u /\ logged u' = logged u ++ [r].
Proof.
  unfold write_timestamp, flush_logs. run. destruct (_ || _).
  - rewrite send_unwrap_ok. eexists. split; [done|]. split; [done|]. unfold wire, logged. cbn. rewrite List.filter_app, map_app, concat_app. cbn.
    by rewrite !app_nil_r, <- app_assoc.
  - eexists. split; [done|]. split; [done|]. unfold wire, logged. cbn. by rewrite app_assoc.
Qed.

Lemma publish_ok m gi info name u : announced_info m gi = Some info -> utf8_name (mls_group_id m) = Some name ->
  publish_info m ((fun gi => mkGroupInfoAndTree (group_info_into gi) (Some (mls_export_ratchet_tree m))) <$> gi) u =
  (Ok tt, set_sent (sent u ++ [SentGroupInfo name info]) u).
Proof.
  unfold announced_info, publish_info, unwrap_name, unwrap. intros Hi Hn. destruct gi as [gi|]; cbn [fmap option_fmap option_map]; run.
  - injection Hi as <-. rewrite Hn. destruct (ds u) as [| |[|]]; by rewrite ?send_ok, ?send_unwrap_ok.
  - destruct (mls_export_group_info m) as [gi| |]; [|done..]. injection Hi as <-. rewrite Hn. destruct (ds u) as [| |[|]]; by rewrite ?send_ok, ?send_unwrap_ok.
Qed.

Lemma next_round_ok fuel name removed hash total new_members p os a' next u :
  agent_type u = AgentOrchestrator p os -> agent_after fuel name removed hash total new_members (agent_type u) = Some (a', next) ->
  next_round fuel name removed hash total new_members u = (Ok next, set_agent_type a' u).
Proof.
  intros Ha. unfold next_round, on_orchestrator, agent_after, unwrap. run. rewrite Ha. destruct (os !! name) as [o|]; [|done]. cbn [option_bind].
  destruct (process_commit _ _ _ _ _) as [[[n|]| |] o']; [|done..]. by intros [= <- <-].
Qed.

Lemma after_round_ok fuel name removed hash total new_members a' next u :
  agent_after fuel name removed hash total new_members (agent_type u) = Some (a', next) ->
  after_round fuel name removed hash total new_members u = (Ok tt, set_sent (sent u ++ told name next) (set_agent_type a' u)).
Proof.
  intros Ha. unfold after_round, is_orchestrated. run. destruct (agent_type u) as [p os|] eqn:Et.
  - pose proof Ha as Ha2. rewrite <- Et in Ha2. rewrite (next_round_ok _ _ _ _ _ _ _ _ _ _ _ Et Ha2). unfold send_to_agent. run. cbn [agent_type set_agent_type].
    cbn in Ha. destruct (os !! name) as [o|]; [|done]. cbn in Ha. destruct (process_commit _ _ _ _ _) as [[[n|]| |] o']; [|done..]. injection Ha as <- <-.
    destruct n; cbn [told agent_type set_agent_type]; rewrite ?send_ok, ?app_nil_r; done.
  - injection Ha as <- <-. cbn [told]. destruct u; cbn in *. subst. by rewrite app_nil_r.
Qed.

Lemma send_welcomes_ok name m sw u : (is_orchestrated u = true -> is_Some (told_members (agent_type u) name)) ->
  send_welcomes name (mls_export_ratchet_tree m) sw u = (Ok (new_members_of sw), set_sent (sent u ++ welcomes u name m sw) u).
Proof.
  unfold send_welcomes, welcomes, new_members_of, send_welcome, told_members, is_orchestrated, unwrap. destruct sw as [sw|]; [|by rewrite sent_same].
  intros Ht. run. destruct (agent_type u) as [p os|].
  - destruct (Ht eq_refl) as [x Hx]. destruct (os !! name) as [o|]; [|done]. by rewrite send_all_ok.
  - by rewrite send_all_ok.
Qed.

Lemma announce_ok fuel clk name m gi info new_members record a' next u :
  is_proposal_action (ar_action record) = false -> announced_info m gi = Some info -> utf8_name (mls_group_id m) = Some name ->
  agent_after fuel name (removed_by (ar_action record)) (mls_transcript_hash m) (count_members m) new_members (agent_type u) = Some (a', next) ->
  announce_commit fuel clk name m gi new_members record u =
  (Ok (edit_record clk (count_members m) record), set_sent (sent u ++ [SentGroupInfo name info] ++ told name next) (set_agent_type a' u)).
Proof.
  intros Hp Hi Hn Ha. unfold announce_commit. rewrite Hp. erewrite bind_step by exact (publish_ok _ _ _ _ u Hi Hn).
  erewrite bind_step by (apply after_round_ok; exact Ha). cbn [sent set_sent]. by rewrite <- app_assoc.
Qed.

Lemma agent_after_told fuel name removed hash total new_members a a' next :
  agent_after fuel name removed hash total new_members a = Some (a', next) ->
  match a with AgentOrchestrator _ _ => true | AgentIndependent => false end = true -> is_Some (told_members a name).
Proof. destruct a as [p os|]; [|done]. cbn. by destruct (os !! name). Qed.

Lemma wire_sent u l : Forall (fun e => is_log e = false) l -> wire (set_sent (sent u ++ l) u) = wire u ++ l.
Proof.
  intros Hl. unfold wire. cbn. rewrite List.filter_app. f_equal. induction Hl as [|e l He _ IH]; [done|]. cbn. by rewrite He, IH.
Qed.

Lemma logged_sent u l : Forall (fun e => is_log e = false) l -> logged (set_sent (sent u ++ l) u) = logged u.
Proof.
  intros Hl. unfold logged. cbn. rewrite map_app, concat_app. f_equal. rewrite <- (app_nil_r (concat _)) at 2. f_equal.
  induction Hl as [|e l He _ IH]; [done|]. cbn. rewrite IH. by destruct e.
Qed.

Lemma finish_ok fuel clk name gi sw record u g m' st' info a' next :
  groups u !! name = Some g -> mls_merge_pending_commit (mls_group g, crypto u) = (Ok tt, (m', st')) ->
  is_proposal_action (ar_action record) = false -> announced_info m' gi = Some info -> utf8_name (mls_group_id m') = Some name ->
  agent_after fuel name (removed_by (ar_action record)) (mls_transcript_hash m') (count_members m') (new_members_of sw) (agent_type u) = Some (a', next) ->
  exists u', finish_commit fuel clk name gi sw record u = (Ok tt, u') /\
    core u' = core (set_agent_type a' (set_crypto st' (set_groups (<[name := set_mls m' g]> (groups u)) u))) /\
    wire u' = wire u ++ welcomes u name m' sw ++ [SentGroupInfo name info] ++ told name next /\
    logged u' = logged u ++ [edit_record clk (count_members m') record].
Proof.
  intros Hg Hm Hp Hi Hn Ha. set (u1 := set_crypto st' (set_groups (<[name := set_mls m' g]> (groups u)) u)).
  set (l := welcomes u name m' sw ++ [SentGroupInfo name info] ++ told name next).
  assert (Hl : Forall (fun e => is_log e = false) l).
  { unfold l, welcomes, told. apply Forall_app. split; [destruct sw; [apply Forall_fmap, Forall_true|]|destruct next]; repeat constructor. }
  destruct (write_ok (edit_record clk (count_members m') record) (set_sent (sent u1 ++ l) (set_agent_type a' u1))) as (u' & Hw & Hc & Hwi & Hlo).
  exists u'. split_and!; [|done|rewrite Hwi; exact (wire_sent (set_agent_type a' u1) l Hl)|rewrite Hlo; f_equal; exact (logged_sent (set_agent_type a' u1) l Hl)].
  unfold finish_commit. erewrite bind_step by reflexivity. rewrite Hg.
  erewrite bind_step by (unfold expect, on_group; rewrite Hg, Hm; reflexivity). fold u1. erewrite bind_step by reflexivity.
  erewrite bind_step by (unfold unwrap, u1; cbn [groups set_groups set_crypto]; rewrite lookup_insert_eq; reflexivity). cbn [mls_group set_mls].
  erewrite bind_step by (apply send_welcomes_ok; exact (agent_after_told _ _ _ _ _ _ _ _ _ Ha)).
  erewrite bind_step by (apply announce_ok; [done|exact Hi|done|exact Ha]). etrans; [|exact Hw]. f_equal. cbn [sent set_sent]. rewrite <- app_assoc. done.
Qed.

End Accepted.

(** A copy of a message the client sent itself, of whatever kind *)
Definition own_message (m : GroupMessage) (name : string) (u : User) : Prop :=
  utf8_name (gm_sender m) = Some (username u) /\
  exists header, protocol_header <$> ProtocolMessage_try_from (gm_msg m) = Some header /\ utf8_name (pm_group_id header) = Some name.

Lemma own_echo fuel clk leaves m name u : own_message m name u ->
  process_in_message fuel clk leaves m u = (confirm_commit fuel clk name;; mret None) u.
Proof.
  intros (Hn & header & Hh & Hg). unfold process_in_message, unwrap_name, unwrap. run. rewrite Hn, bool_decide_true, Hh by done. cbn. by rewrite Hg.
Qed.

Lemma idle_echo fuel clk leaves m name u : own_message m name u -> pending_commits u !! name = None -> process_in_message fuel clk leaves m u = (Ok None, u).
Proof. intros Hm Hp. rewrite (own_echo _ _ _ _ _ _ Hm). unfold confirm_commit. run. by rewrite Hp. Qed.

Lemma core_parts (u v : User) : core u = core v ->
  pending_commits u = pending_commits v /\ groups u = groups v /\ agent_type u = agent_type v /\ username u = username v /\ active u = active v.
Proof. intros Hc. injection Hc as ?. by repeat split. Qed.

(** An independent client keeps a commit it sent with the epoch its group is in then. *)
Lemma post_process_pending fuel clk name msg gi sw action t u g : (forall past e, net past e = None) -> is_orchestrated u = false -> groups u !! name = Some g ->
  exists u', post_process_commit fuel clk name msg gi sw action t u = (Ok (mkEpochChange (now_nanos clk) (mls_epoch (mls_group g))), u') /\ groups u' = groups u /\
    pending_commits u' = <[name := (gi, sw, mkActionRecord name action (mkEpochChange (now_nanos clk) (mls_epoch (mls_group g))) t (count_members (mls_group g)))]>
      (pending_commits u).
Proof.
  intros Hnet Ho Hg. unfold post_process_commit. erewrite bind_step by reflexivity. erewrite bind_step by (unfold unwrap; rewrite Hg; reflexivity). cbv zeta.
  assert (Hs : exists l, send_to_group name msg (group_recipients u (mls_group g)) u = (Ok tt, set_sent (sent u ++ l) u)).
  { eexists. unfold send_to_group. erewrite bind_step by reflexivity. apply (send_ok Hnet). }
  destruct Hs as [l Hs]. rewrite (bind_step _ _ _ _ _ Hs). run. change (is_orchestrated (set_sent (sent u ++ l) u)) with (is_orchestrated u). rewrite Ho.
  by eexists.
Qed.

(** A commit of another member that is of an epoch later than that of the group *)
Definition commit_to_come (gm : GroupMessage) (name : string) (u : User) : Prop :=
  exists sender m g, utf8_name (gm_sender gm) = Some sender /\ sender <> username u /\ ProtocolMessage_try_from (gm_msg gm) = Some m /\
    utf8_name (pm_group_id (protocol_header m)) = Some name /\ pm_content_type (protocol_header m) = ContentCommit /\
    groups u !! name = Some g /\ mls_epoch (mls_group g) < pm_epoch (protocol_header m).

(** It marks the group as lost, whether or not the client was active in it. *)
Lemma process_to_come fuel clk leaves m sender name u g : utf8_name (pm_group_id (protocol_header m)) = Some name ->
  pm_content_type (protocol_header m) = ContentCommit -> groups u !! name = Some g -> mls_epoch (mls_group g) < pm_epoch (protocol_header m) ->
  asleep (process_protocol_message fuel clk leaves m sender u).2 name.
Proof.
  intros Hn Ht Hg He. unfold process_protocol_message, unwrap_name, unwrap. run. rewrite Hn. cbn [lift fst snd]. rewrite Hg, (proj2 (Z.ltb_lt _ _) He), Ht. cbn [mark_active modify fst snd]. unfold mark_active, modify. cbv beta iota.
  set (u1 := set_active _ u). assert (Ha : asleep u1 name) by (eexists; apply lookup_insert_eq).
  destruct (active u !! name) as [[was_active epoch]|]; [by destruct (_ || _)|]. revert Ha. apply frame_sleeps, frame_accepted.
Qed.

Lemma commit_to_come_asleep fuel clk leaves gm name u : commit_to_come gm name u -> asleep (process_in_message fuel clk leaves gm u).2 name.
Proof.
  intros (sender & m & g & Hs & Hne & Hm & Hn & Ht & Hg & He). unfold process_in_message, unwrap_name, unwrap. run. rewrite Hs. cbn [lift fst snd].
  rewrite bool_decide_false by done.
  assert (Hp : asleep (process_and_leave fuel clk leaves m sender u).2 name).
  { unfold process_and_leave. pose proof (process_to_come fuel clk leaves m sender name u g Hn Ht Hg He) as Ha. revert Ha.
    destruct (process_protocol_message fuel clk leaves m sender u) as [[[[record post] gid]|e|] u1] eqn:E;
      [rewrite (bind_step _ _ _ _ _ E)|unfold mbind, method_bind; by rewrite E..]. cbn [snd].
    match goal with |- asleep u1 name -> asleep (?c u1).2 name => assert (Hc : respects sleeps c); [|apply Hc] end. unfold unwrap_name. operation. }
  unfold ProtocolMessage_try_from in Hm. destruct (msg_body (gm_msg gm)); try done; injection Hm as <-; exact Hp.
Qed.

(** What a client that receives a commit makes of the members it adds and removes *)
Definition names_of (l : list bytes) : option (list string) := mapM utf8_name l.

Lemma unwrap_names_ok l ns u : names_of l = Some ns -> unwrap_names l u = (Ok ns, u).
Proof.
  unfold names_of. revert ns. induction l as [|b l IH]; intros ns; [by intros [= <-]|]. cbn [mapM]. intros Hl. cbn [unwrap_names]. unfold unwrap_name, unwrap. run. cbn in Hl.
  destruct (utf8_name b) as [n|]; [|done]. cbn in Hl. destruct (mapM utf8_name l) as [ns'|]; [|done]. injection Hl as <-. by rewrite (IH ns' eq_refl).
Qed.

Definition commit_names (m : Mls) (commit : StagedCommit) : option (list string * list string) :=
  added ← names_of (map credential_identity (commit_adds commit));
  removed ← mapM (member_at m) (commit_removes commit);
  removed ← names_of (map (fun x => credential_identity (member_credential x)) removed);
  Some (added, removed).

Definition members_after (m : Mls) (added removed : list string) : Z :=
  usize_wrap (count_members m + Z.of_nat (length added) - Z.of_nat (length removed)).

(** *** A round of orchestrated clients *)

Definition holds_slots (u : User) (name : string) (o : Orchestrator) : Prop :=
  exists p orchestrators, agent_type u = AgentOrchestrator p orchestrators /\ orchestrators !! name = Some o.

(** A client that confirms its commit, and one that processes that commit *)
Record committer (u : User) (name : string) (o : Orchestrator) (gi : option GroupInfo) (sw : option StoredWelcome) (record : ActionRecord) (m' : Mls) : Prop := {
  com_pending : pending_commits u !! name = Some (gi, sw, record);
  com_commit : is_proposal_action (ar_action record) = false;
  com_merge : exists g st', groups u !! name = Some g /\ mls_merge_pending_commit (mls_group g, crypto u) = (Ok tt, (m', st'));
  com_info : is_Some (announced_info m' gi);
  com_name : utf8_name (mls_group_id m') = Some name;
  com_slots : holds_slots u name o
}.

Record receiver (u : User) (name : string) (o : Orchestrator) (commit : StagedCommit) (m : Mls) (added removed : list string) : Prop := {
  rec_group : exists g m' st', groups u !! name = Some g /\ mls_group g = m /\ mls_merge_staged_commit commit (m, crypto u) = (Ok tt, (m', st'));
  rec_names : commit_names m commit = Some (added, removed);
  rec_slots : holds_slots u name o
}.

Lemma committer_round fuel clk u name o gi sw record m' o' next : (forall past e, net past e = None) -> committer u name o gi sw record m' ->
  process_commit fuel (mls_transcript_hash m') (count_members m') (new_members_of sw) (Orchestrator.remove_members (removed_by (ar_action record)) o) = (Ok (Some next), o') ->
  exists u', confirm_commit fuel clk name u = (Ok tt, u') /\ holds_slots u' name o'.
Proof.
  intros Hnet [Hp Hc (g & st' & Hg & Hm) [info Hi] Hn (p & os & Ea & Eo)] Hpc. set (u1 := set_pending_commits (delete name (pending_commits u)) u).
  destruct (finish_ok Hnet fuel clk name gi sw record u1 g m' st' info (AgentOrchestrator p (<[name := o']> os)) next) as (u' & Hf & Hcore & _); [done..| |].
  { cbn. rewrite Ea. cbn. rewrite Eo. cbn. by rewrite Hpc. }
  apply core_parts in Hcore as (_ & _ & Ea' & _). exists u'. split; [unfold confirm_commit; run; rewrite Hp; exact Hf|]. exists p, (<[name := o']> os).
  split; [exact Ea'|apply lookup_insert_eq].
Qed.

Lemma receiver_round fuel clk leaves u name sender ge me o commit m added removed o' next : (forall past e, net past e = None) -> receiver u name o commit m added removed ->
  process_commit fuel (commit_transcript_hash commit) (members_after m added removed) added (Orchestrator.remove_members removed o) = (Ok (Some next), o') ->
  exists r u', process_commit_message fuel clk leaves name sender ge me commit u = (Ok r, u') /\ holds_slots u' name o'.
Proof.
  intros Hnet [(g & m' & st' & Hg & <- & Hm) Hnames (p & os & Ea & Eo)] Hpc. unfold commit_names in Hnames.
  destruct (names_of (map credential_identity (commit_adds commit))) as [added'|] eqn:Hadd; [|done]. cbn in Hnames.
  destruct (mapM (member_at (mls_group g)) (commit_removes commit)) as [rs|] eqn:Hrs; [|done]. cbn in Hnames.
  destruct (names_of _) as [removed'|] eqn:Hrem in Hnames; [|done]. injection Hnames as -> ->.
  unfold process_commit_message. erewrite bind_step by reflexivity. erewrite bind_step by (unfold unwrap; rewrite Hg; reflexivity).
  erewrite bind_step by exact (unwrap_names_ok _ _ _ Hadd). erewrite bind_step by (unfold unwrap; rewrite Hrs; reflexivity).
  erewrite bind_step by exact (unwrap_names_ok _ _ _ Hrem). erewrite bind_step by (unfold on_group; rewrite Hg, Hm; reflexivity).
  set (u1 := set_crypto _ _). assert (Hir : is_orchestrated u = true) by (unfold is_orchestrated; by rewrite Ea). rewrite Hir.
  erewrite bind_step by (eapply (next_round_ok _ _ _ _ _ _ p os (AgentOrchestrator p (<[name := o']> os)) next u1); [exact Ea|
    unfold u1; cbn; rewrite Ea; cbn; rewrite Eo; cbn; unfold members_after in Hpc; rewrite Hpc; reflexivity]).
  erewrite bind_step by reflexivity. erewrite bind_step by (unfold unwrap, u1; cbn; rewrite lookup_insert_eq; reflexivity). cbn zeta.
  assert (Hfin : holds_slots (set_agent_type (AgentOrchestrator p (<[name := o']> os)) u1) name o'). { exists p, (<[name := o']> os). split; [done|apply lookup_insert_eq]. }
  destruct (_ || _); [by eexists _, _|]. destruct next; try by eexists _, _. unfold send_to_agent.
  erewrite bind_step by (erewrite bind_step by reflexivity; apply (send_ok Hnet)). by eexists _, _.
Qed.

(** ** Theorems *)

(** C31: an orchestrated client never has a commit that waits for its confirmation:
    whatever its agent, its user, the brokers and the service make it do, it has
    none when it started without one.  It confirms each commit at once, so that the
    copies of its own messages that the brokers deliver change nothing. *)
Theorem orchestrated_never_pending u u' : is_orchestrated u = true -> pending_commits u = ∅ -> rtc client_step u u' ->
  is_orchestrated u' = true /\ pending_commits u' = ∅ /\
  (forall fuel clk leaves m name, own_message m name u' -> process_in_message fuel clk leaves m u' = (Ok None, u')).
Proof.
  intros Ho Hp Hs. destruct (rtc_respects client_step quiet u u') as [Eo Hq]; [|done|].
  { intros v w. apply client_step_respects; [apply _|intros A c; apply operation_quiet|intros A c; apply join_quiet|apply frame_quiet, frame_start]. }
  rewrite Ho in Eo. specialize (Hq Ho Hp). split_and!; [done..|]. intros fuel clk leaves m name Hm. apply (idle_echo _ _ _ _ name); [done|].
  rewrite Hq. apply lookup_empty.
Qed.

(** C32: a client that receives, from another member, a commit of an epoch later than the
    one its copy of the group is in has lost track of the group and stays so, whatever
    it does and receives next, joining and creating other groups included, unless it
    joins this group again (by creating it, by an external commit or by a welcome): it
    is never again authorised to commit, and the turns of an independent agent in
    that group do nothing. *)
Theorem desynchronised_stays fuel clk leaves gm name u u' : commit_to_come gm name u ->
  rtc (apart_step name) (process_in_message fuel clk leaves gm u).2 u' ->
  asleep u' name /\ (forall policy, is_authorised name policy u' = Ok false) /\
  (forall p fuel clk choose d, independent_group_turn p fuel clk choose d name u' = (Ok tt, u')).
Proof.
  intros Hc Hs. assert (Ha' : asleep u' name).
  { generalize (commit_to_come_asleep fuel clk leaves gm name u Hc). apply (rtc_respects (apart_step name) (sleeps_at name)); [|done]. apply apart_step_sleeps. }
  assert (Hno : forall policy, is_authorised name policy u' = Ok false). { intros policy. destruct Ha' as [e Ha']. unfold is_authorised. by rewrite Ha'. }
  split_and!; [done..|]. intros p fuel' clk' choose d. unfold independent_group_turn. run. by rewrite Hno.
Qed.

(** C30: with a network that takes every message, the first copy of one of its own
    messages makes a client confirm the commit it has pending in that group: it
    merges the commit, sends the welcome to each new member (with the tree and, of
    an orchestrated client, the active members), publishes the group info, starts
    the next round of its orchestrator, and logs the record of the commit with the
    epoch in the record plus one, the new number of members and the time of the
    merge added.  The record holds the epoch the group was in when the commit was
    sent ([post_process_pending]): the log has the epoch of after the commit, except
    for an invitation, which is merged before it is sent, so that the log is one too
    high.  The copy may be of any message, a proposal or an application message too.
    Later copies change nothing. *)
Theorem own_message_confirms fuel clk leaves m name u g gi sw record m' st' info a' next :
  (forall past e, net past e = None) -> own_message m name u ->
  pending_commits u !! name = Some (gi, sw, record) -> is_proposal_action (ar_action record) = false ->
  groups u !! name = Some g -> mls_merge_pending_commit (mls_group g, crypto u) = (Ok tt, (m', st')) ->
  announced_info m' gi = Some info -> utf8_name (mls_group_id m') = Some name ->
  agent_after fuel name (removed_by (ar_action record)) (mls_transcript_hash m') (count_members m') (new_members_of sw) (agent_type u) = Some (a', next) ->
  exists u', process_in_message fuel clk leaves m u = (Ok None, u') /\
    pending_commits u' = delete name (pending_commits u) /\ groups u' !! name = Some (set_mls m' g) /\ agent_type u' = a' /\
    wire u' = wire u ++ welcomes u name m' sw ++ [SentGroupInfo name info] ++ told name next /\
    logged u' = logged u ++ [edit_record clk (count_members m') record] /\
    (forall fuel clk leaves m, own_message m name u' -> process_in_message fuel clk leaves m u' = (Ok None, u')).
Proof.
  intros Hnet Hm Hp Hr Hg Hmerge Hi Hn Ha. rewrite (own_echo _ _ _ _ _ _ Hm).
  destruct (finish_ok Hnet fuel clk name gi sw record (set_pending_commits (delete name (pending_commits u)) u) g m' st' info a' next) as (u' & Hf & Hc & Hw & Hl); [done..|].
  exists u'. apply core_parts in Hc as (Ep & Eg & Ea & Eu & _). cbn in Ep, Eg, Ea, Eu.
  split_and!; [|done|rewrite Eg; apply lookup_insert_eq|done|exact Hw|exact Hl|].
  - unfold mbind, method_bind at 1. unfold confirm_commit. run. rewrite Hp. by rewrite Hf.
  - intros fuel' clk' leaves' m2 Hm2. apply (idle_echo _ _ _ _ name); [done|]. rewrite Ep. apply lookup_delete_eq.
Qed.

(** C29: two active clients with the same slots, one that confirms its commit and one
    that processes it, have the same slots after it and are not both told to commit
    next, when the committer takes exactly the members out of its slots that the
    commit removes: the removal the committer asked for itself, or none. *)
Theorem orchestrators_in_step fuel clk1 clk2 leaves u1 u2 name sender ge me o1 o2 gi sw record m1 commit m2 next1 next2 o1' o2' :
  let removed := removed_by (ar_action record) in
  (forall past e, net past e = None) -> committer u1 name o1 gi sw record m1 -> receiver u2 name o2 commit m2 (new_members_of sw) removed ->
  mls_transcript_hash m1 = commit_transcript_hash commit -> count_members m1 = members_after m2 (new_members_of sw) removed ->
  orch_parameters o1 = orch_parameters o2 -> known_members o1 = known_members o2 -> orch_name o1 <> orch_name o2 ->
  orch_name o1 ∈ known_members o1 -> orch_name o2 ∈ known_members o2 ->
  process_commit fuel (mls_transcript_hash m1) (count_members m1) (new_members_of sw) (Orchestrator.remove_members removed o1) = (Ok (Some next1), o1') ->
  process_commit fuel (mls_transcript_hash m1) (count_members m1) (new_members_of sw) (Orchestrator.remove_members removed o2) = (Ok (Some next2), o2') ->
  exists u1' r u2', confirm_commit fuel clk1 name u1 = (Ok tt, u1') /\
    process_commit_message fuel clk2 leaves name sender ge me commit u2 = (Ok r, u2') /\
    holds_slots u1' name o1' /\ holds_slots u2' name o2' /\ known_members o1' = known_members o2' /\ ~ (next1 = ActCommit /\ next2 = ActCommit).
Proof.
  intros removed Hnet Hcom Hrec Hh Hcount Hp Hk Hne Hin1 Hin2 E1 E2. destruct (committer_round _ clk1 _ _ _ _ _ _ _ _ _ Hnet Hcom E1) as (u1' & Hc1 & Hs1).
  pose proof E2 as E2'. rewrite Hh, Hcount in E2'. destruct (receiver_round _ clk2 leaves _ _ sender ge me _ _ _ _ _ _ _ Hnet Hrec E2') as (r & u2' & Hc2 & Hs2).
  exists u1', r, u2'. rewrite remove_members_active in E1, E2 by done.
  assert (Hre : known_members (set_known (remaining (orch_parameters o1) removed (known_members o1)) o1) =
    known_members (set_known (remaining (orch_parameters o2) removed (known_members o2)) o2)) by (cbn; by rewrite Hp, Hk).
  destruct (rounds_agree _ _ _ _ _ _ _ _ _ _ (Hp : orch_parameters (set_known _ o1) = orch_parameters (set_known _ o2)) Hre Hne E1 E2) as [Hkn Hcm].
  split_and!; [done..|]. intros [-> ->]. by apply Hcm.
Qed.

(** When the commit removes members by proposals, the two disagree: the committer
    keeps a removed member in its slots, where it may be drawn to commit next, and
    the clients that process the commit take it out. *)
Theorem proposed_removal_diverges fuel clk1 clk2 leaves u1 u2 name sender ge me o1 o2 gi sw record m1 commit m2 removed x next1 next2 o1' o2' :
  (forall past e, net past e = None) -> committer u1 name o1 gi sw record m1 -> receiver u2 name o2 commit m2 [] removed ->
  removed_by (ar_action record) = [] -> new_members_of sw = [] ->
  orch_name o1 ∈ known_members o1 -> orch_name o2 ∈ known_members o2 -> length (known_members o1) = Z.to_nat (max_active_processers (orch_parameters o1)) ->
  x ∈ removed -> x ∈ known_members o1 -> x <> ""%string ->
  process_commit fuel (mls_transcript_hash m1) (count_members m1) [] (Orchestrator.remove_members [] o1) = (Ok (Some next1), o1') ->
  process_commit fuel (commit_transcript_hash commit) (members_after m2 [] removed) [] (Orchestrator.remove_members removed o2) = (Ok (Some next2), o2') ->
  exists u1' r u2', confirm_commit fuel clk1 name u1 = (Ok tt, u1') /\
    process_commit_message fuel clk2 leaves name sender ge me commit u2 = (Ok r, u2') /\
    holds_slots u1' name o1' /\ holds_slots u2' name o2' /\ x ∈ known_members o1' /\ x ∉ known_members o2'.
Proof.
  intros Hnet Hcom Hrec Hr Hn Hin1 Hin2 Hlen Hx Hxk Hne E1 E2.
  destruct (committer_round fuel clk1 _ _ _ _ _ _ _ o1' next1 Hnet Hcom) as (u1' & Hc1 & Hs1); [by rewrite Hr, Hn|].
  destruct (receiver_round _ clk2 leaves _ _ sender ge me _ _ _ _ _ _ _ Hnet Hrec E2) as (r & u2' & Hc2 & Hs2). exists u1', r, u2'.
  split_and!; [done..| |].
  - rewrite (process_commit_known _ _ _ _ _ _ E1), remove_members_active by done. cbn. by rewrite remaining_none.
  - rewrite (process_commit_known _ _ _ _ _ _ E2), remove_members_active by done. by apply remaining_removed.
Qed.

End Network.
End Client.

(** ** Samples *)

Module ClientSamples.

#[local] Existing Instance toy_bodies.
#[local] Existing Instance toy_payloads.

#[local] Instance counting : RandomSource := {|
  StdRng := Z; rng_from_seed := fun seed => hd 0 seed; rng_gen_range := fun lo hi r => (lo + r mod (hi - lo), r + 1) |}.

(** Groups that only count epochs and keep the names of their members, and those of
    after a pending commit; a commit adds names and removes leaves. *)
Record ToyGroup := mkToyGroup { toy_epoch : Z; toy_names : list string; toy_pending : option (list string) }.

Definition toy_credential (name : string) : Credential := mkCredential CredBasic (str_bytes name).
Definition toy_members (g : ToyGroup) : list Member := imap (fun i name => mkMember (Z.of_nat i) [] [] (toy_credential name)) (toy_names g).
Definition toy_message (t : ContentType) (g : ToyGroup) : MlsMessageIn (list bytes) Z bytes :=
  mkMlsMessageIn Mls10 (BodyInPrivateMessage (mkPrivateMessage (str_bytes "g") (toy_epoch g) t [] [] [])).
Definition toy_next (names : list string) (g : ToyGroup) : ToyGroup := mkToyGroup (toy_epoch g + 1) names None.
Definition toy_commit_of (names : list string) : method (ToyGroup * ()) () ToyGroup :=
  fun '(g, st) => (Ok g, (mkToyGroup (toy_epoch g) (toy_names g) (Some names), st)).
Definition toy_without (removed : list Z) (names : list string) : list string :=
  omap (fun '(i, name) => if decide (Z.of_nat i ∈ removed) then None else Some name) (imap pair names).

Definition toy_library : @MlsLibrary toy_bodies toy_payloads := {|
  Mls := ToyGroup; Store := (); StagedCommit := list string * list Z; GroupInfo := Z;
  mls_group_id _ := str_bytes "g"; mls_epoch := toy_epoch; mls_members := toy_members; mls_transcript_hash g := [toy_epoch g];
  mls_own_leaf_index _ := 0; mls_pending_proposals _ := []; mls_set_aad _ g := g;
  commit_adds c := map toy_credential c.1; commit_removes c := c.2; commit_removes_self _ := false; commit_transcript_hash _ := [1];
  mls_process_message _ := fun s => (Err ProcessOther, s);
  mls_merge_staged_commit c := fun '(g, st) => (Ok tt, (toy_next (toy_without c.2 (toy_names g) ++ c.1) g, st));
  mls_merge_pending_commit := fun '(g, st) => (Ok tt, (match toy_pending g with Some names => toy_next names g | None => g end, st));
  mls_store_pending_proposal _ := fun s => (Ok tt, s); mls_remove_pending_proposal _ := fun s => (Ok tt, s);
  mls_create_message _ := fun s => (Ok (toy_message ContentApplication s.1), s);
  mls_propose _ := fun s => (Ok (toy_message ContentProposal s.1), s);
  mls_add_members kp := fun s => let '(o, s') := toy_commit_of (toy_names s.1 ++ [bytes_str kp]) s in
    (Ok (toy_message ContentCommit s.1, mkMlsMessageIn Mls10 (BodyInWelcome [kp]), None), s');
  mls_remove_members i := fun s => let '(o, s') := toy_commit_of (toy_without [i] (toy_names s.1)) s in (Ok (toy_message ContentCommit s.1, None), s');
  mls_self_update := fun s => let '(o, s') := toy_commit_of (toy_names s.1) s in (Ok (toy_message ContentCommit s.1, None), s');
  mls_commit_to_pending_proposals := fun s => (Err tt, s);
  mls_export_ratchet_tree := toy_epoch; mls_export_group_info g := Ok (toy_epoch g); group_info_into i := i;
  mls_new_with_group_id _ := fun st => (Ok (mkToyGroup 0 ["ana"%string] None), st);
  mls_join_by_external_commit _ _ _ := fun st => (Err tt, st); mls_join_by_welcome _ _ := fun st => (Err tt, st);
  mls_new_key_package name := fun st => (Ok ([1], name), st) |}.
#[local] Existing Instance toy_library.

Definition accept : list Sent -> Sent -> option string := fun _ _ => None.
Definition no_packages : list Sent -> Contact -> outcome string bytes := fun _ _ => Err ""%string.
Definition no_infos : list Sent -> string -> outcome string GroupInfoAndTree := fun _ _ => Err ""%string.
Definition clock : Clock := mkClock 100 7 3.

Definition slots_of (name : string) : Orchestrator :=
  Orchestrator_new name (mkOrchestratedParameters 2 3 PolicyRandom) ["ana"; "bob"; "eve"]%string.

Definition toy_group (pending : option (list string)) : ToyGroup := mkToyGroup 0 ["ana"; "bob"; "eve"]%string pending.

Definition toy_user (name : string) (pending : option (list string)) (agent : AgentType) : User := {|
  username := name; contacts := ∅; groups := {[ "g"%string := mkGroup "g" [] (toy_group pending) ]}; group_list := {[ "g"%string ]};
  identity_kp := ∅; pending_commits := ∅; ds := DsPubSubMQTT; crypto := tt; active := {[ "g"%string := (true, 0) ]};
  agent_type := agent; file_buffer := []; sent := [] |}.

Definition orchestrated (name : string) : AgentType :=
  AgentOrchestrator (mkOrchestratedParameters 2 3 PolicyRandom) {[ "g"%string := slots_of name ]}.

Lemma orchestrated_never_pending_witness :
  exists u', update_state accept 5 clock "g" (toy_user "ana" None (orchestrated "ana")) = (Ok (mkEpochChange 100 0), u') /\ pending_commits u' = ∅.
Proof.
  set (u := toy_user "ana" None (orchestrated "ana")). exists (update_state accept 5 clock "g" u).2. split; [vm_compute; reflexivity|].
  refine (proj1 (proj2 (orchestrated_never_pending accept no_packages no_infos u _ eq_refl eq_refl _))).
  apply rtc_once, cs_group, gs_operation, uo_update.
Defined.

(** Bob, whose group is in epoch 0, gets a commit of epoch 5; then he updates in that
    group and creates another one. *)
Definition late_user : User := toy_user "bob" None AgentIndependent.
Definition future_commit : GroupMessage := mkGroupMessage (toy_message ContentCommit (mkToyGroup 5 [] None)) (str_bytes "ana") None [] None.
Definition lost_user : User := (process_in_message accept 5 clock false future_commit late_user).2.

Lemma desynchronised_stays_witness :
  is_authorised "g" PolicyRandom late_user = Ok true /\
  is_authorised "g" PolicyRandom (create_group accept 5 clock "h" (update_state accept 5 clock "g" lost_user).2).2 = Ok false.
Proof.
  split; [vm_compute; reflexivity|].
  refine (proj1 (proj2 (desynchronised_stays accept no_packages no_infos 5 clock false future_commit "g" late_user _ _ _)) PolicyRandom).
  - eexists "ana"%string, _, _. split_and!; [vm_compute; reflexivity|discriminate|reflexivity|vm_compute; reflexivity|reflexivity|reflexivity|vm_compute; reflexivity].
  - apply rtc_l with (y := (update_state accept 5 clock "g" lost_user).2); [apply as_group, gs_operation, uo_update|]. by apply rtc_once, as_create.
Defined.

(** An independent client that updated; the copy that makes it confirm is one of an
    application message. *)
Definition toy_record (a : CGKAAction) : ActionRecord := mkActionRecord "g" a (mkEpochChange 90 0) 7 3.
Definition updating_user : User := (update_state accept 5 clock "g" (toy_user "ana" None AgentIndependent)).2.
Definition updating_group : Group := mkGroup "g" [] (toy_group (Some ["ana"; "bob"; "eve"]%string)).
Definition toy_info : GroupInfoAndTree := mkGroupInfoAndTree 1 (Some 1).
Definition update_size : Z := Eval vm_compute in message_size (toy_message ContentCommit (toy_group None)).
Definition update_record : ActionRecord := mkActionRecord "g" (ActionUpdate update_size) (mkEpochChange 100 0) 7 3.
Definition application_copy : GroupMessage := mkGroupMessage (toy_message ContentApplication (toy_group None)) (str_bytes "ana") None [] None.

Lemma own_message_confirms_witness : exists u', process_in_message accept 5 clock false application_copy updating_user = (Ok None, u') /\
  pending_commits u' = ∅ /\ logged u' = [mkActionRecord "g" (ActionUpdate update_size) (mkEpochChange 100 1) 10 3].
Proof.
  destruct (own_message_confirms (H1 := toy_library) accept 5 clock false application_copy "g" updating_user updating_group
    None None update_record (mkToyGroup 1 ["ana"; "bob"; "eve"]%string None) tt
    toy_info AgentIndependent ActListen) as (u' & E & Hp & _ & _ & _ & Hl & _).
  - reflexivity.
  - split; [vm_compute; reflexivity|]. eexists. split; vm_compute; reflexivity.
  - vm_compute. reflexivity.
  - reflexivity.
  - vm_compute. reflexivity.
  - reflexivity.
  - reflexivity.
  - vm_compute. reflexivity.
  - reflexivity.
  - exists u'. refine (conj E (conj _ _)); [rewrite Hp; vm_compute; reflexivity|rewrite Hl; vm_compute; reflexivity].
Defined.

(** Ana removes Eve, and Bob processes it. *)
Definition removing_user (a : CGKAAction) : User := set_pending_commits {[ "g"%string := (Some 1, None, toy_record a) ]}
  (toy_user "ana" (Some ["ana"; "bob"]%string) (orchestrated "ana")).

Lemma removing_committer a : is_proposal_action a = false ->
  committer (removing_user a) "g" (slots_of "ana") (Some 1) None (toy_record a) (mkToyGroup 1 ["ana"; "bob"]%string None).
Proof.
  intros Ha. split; [reflexivity|exact Ha|by eexists _, tt|by eexists|vm_compute; reflexivity|]. eexists _, _. split; reflexivity.
Qed.

Lemma removing_receiver : receiver (toy_user "bob" None (orchestrated "bob")) "g" (slots_of "bob") ([], [2]) (toy_group None) [] ["eve"%string].
Proof.
  split; [by eexists _, _, tt|vm_compute; reflexivity|]. eexists _, _. split; reflexivity.
Qed.

Lemma orchestrators_in_step_witness : exists u1' r u2' o1' o2',
  confirm_commit accept 5 clock "g" (removing_user (ActionRemove "eve" 9)) = (Ok tt, u1') /\
  process_commit_message accept 5 clock false "g" "ana" 0 0 ([], [2]) (toy_user "bob" None (orchestrated "bob")) = (Ok r, u2') /\
  holds_slots u1' "g" o1' /\ holds_slots u2' "g" o2' /\ known_members o1' = ["ana"; "bob"; ""]%string /\ known_members o2' = ["ana"; "bob"; ""]%string.
Proof.
  destruct (orchestrators_in_step (H1 := toy_library) accept 5 clock clock false (removing_user (ActionRemove "eve" 9)) (toy_user "bob" None (orchestrated "bob")) "g" "ana" 0 0
    (slots_of "ana") (slots_of "bob") (Some 1) None (toy_record (ActionRemove "eve" 9)) (mkToyGroup 1 ["ana"; "bob"]%string None) ([], [2]) (toy_group None)
    ActListen ActCommit
    (set_known ["ana"; "bob"; ""]%string (slots_of "ana")) (set_known ["ana"; "bob"; ""]%string (slots_of "bob"))) as (u1' & r & u2' & E1 & E2 & H1 & H2 & Hk & _).
  - reflexivity.
  - by apply removing_committer.
  - apply removing_receiver.
  - reflexivity.
  - reflexivity.
  - reflexivity.
  - reflexivity.
  - discriminate.
  - vm_compute. left.
  - vm_compute. right. left.
  - vm_compute. reflexivity.
  - vm_compute. reflexivity.
  - eexists u1', r, u2', _, _. repeat (split; [eassumption|]). split; reflexivity.
Defined.

Lemma proposed_removal_diverges_witness : exists u1' r u2' o1' o2',
  confirm_commit accept 5 clock "g" (removing_user (ActionCommit [ActionRemove "eve" 0] 9)) = (Ok tt, u1') /\
  process_commit_message accept 5 clock false "g" "ana" 0 0 ([], [2]) (toy_user "bob" None (orchestrated "bob")) = (Ok r, u2') /\
  holds_slots u1' "g" o1' /\ holds_slots u2' "g" o2' /\ "eve"%string ∈ known_members o1' /\ "eve"%string ∉ known_members o2'.
Proof.
  destruct (proposed_removal_diverges (H1 := toy_library) accept 5 clock clock false (removing_user (ActionCommit [ActionRemove "eve" 0] 9)) (toy_user "bob" None (orchestrated "bob"))
    "g" "ana" 0 0 (slots_of "ana") (slots_of "bob") (Some 1) None (toy_record (ActionCommit [ActionRemove "eve" 0] 9)) (mkToyGroup 1 ["ana"; "bob"]%string None)
    ([], [2]) (toy_group None) ["eve"%string] "eve" ActListen ActCommit (slots_of "ana") (set_known ["ana"; "bob"; ""]%string (slots_of "bob")))
    as (u1' & r & u2' & E1 & E2 & H1 & H2 & H3 & H4).
  - reflexivity.
  - by apply removing_committer.
  - apply removing_receiver.
  - reflexivity.
  - reflexivity.
  - vm_compute. left.
  - vm_compute. right. left.
  - reflexivity.
  - left.
  - vm_compute. right. right. left.
  - discriminate.
  - vm_compute. reflexivity.
  - vm_compute. reflexivity.
  - eexists u1', r, u2', _, _. repeat (split; [eassumption|]). eassumption.
Defined.

End ClientSamples.
